(* ===== verification/_CoqProject ===== *)
-Q . S2P
Prelude.v
CLib.v
Float.v
Keyed.v
Dll.v
Monitor.v
LinkedQueue.v
ListOp.v
QueueOp.v
RBTree.v
RBHeap.v
RBInsert.v
RBSearch.v
RBDelete.v
RBMap.v
HashOp.v
HashTable.v
HashClaims.v
StoreOp.v
StoreSpec.v
BQueue.v
OrdIndex.v
IndexedQueue.v
IndexedSpec.v
B64.v
Utf8.v
HashMap.v
HashMapSpec.v
BatchQueue.v
BatchSpec.v
BatchClaims.v
OsMaps.v
OsMatch.v
OsMatchSpec.v
OsStr.v
OsStrSpec.v
OsRegex.v
OsRegexSpec.v
OsRegexSearch.v
Xml.v
XmlSpec.v
XmlRound.v
XmlVars.v
XmlVarsSpec.v
XmlAccess.v
XmlAccessSpec.v
AgentBuffer.v
AgentBufferSpec.v
AgentBufferClaims.v
AgentResize.v
NetBuffer.v
NetBufferSpec.v
NetBufferClaims.v
NetCounter.v
SecMsg.v
SecMsgSpec.v
SecReplay.v
SecChannel.v
StringOp.v
StringSpec.v
KeyStore.v
KeyStoreSpec.v
KeyFile.v
KeyStoreClaims.v
AgentOp.v
Auth.v
Enroll.v
EnrollSpec.v
AuthSpec.v
AuthClaims.v
EnrollClaims.v
Calendar.v
Schedule.v
ScheduleSpec.v
