(* ===== verification/Prelude.v ===== *)
(** * Verification of the C core of the Wazuh agent and manager

    The daemons of the repository (client-agent, remoted, logcollector,
    syscheckd, wazuh_db, os_auth and the modules) share one C library,
    src/src/shared, whose containers, queues and text codecs carry the data
    between their threads, and the pattern matchers of src/src/os_regex and the
    XML reader of src/src/os_xml for rules and configurations.  An event that an
    agent collects goes through its anti-flooding buffer (client-agent/buffer.c),
    is compressed, signed, numbered and encrypted (os_crypto/shared/msgs.c), and
    reaches remoted as a frame of a stream that remoted's network buffers take
    apart (remoted/netbuffer.c).  This development models these parts function by
    function and proves that each does what its callers rely on.

    ** How the programs are modelled

    A C [struct] is a [Record]; a heap of structs is a [gmap] from addresses
    ([positive]) to records; a pointer is an [option] of an address, [NULL]
    being [None].  An operation takes the state and returns an [option] of its
    results and of the new state: [None] is undefined behaviour (a null or
    freed pointer read, an index out of bounds, a remainder by zero), so a
    theorem that an operation returns [Some] is a memory-safety theorem.
    Addresses come from the caller ([l], [alloc]): the hypotheses ask only that
    a fresh address is unused.  A failing allocation is a boolean argument
    where the code handles it; the [os_*] allocators, which exit the process,
    are taken to succeed.  Machine integers are [Z] with their wrap-around
    written out ([wrap32], [wrap64], [int32]).  C strings are lists of bytes
    without the terminator.  Callbacks are functions or, when only the data
    they are given matters ([dispose], [free_data_function]), lists of what was
    handed to them.  A function that takes a lock is one atomic step; one that
    waits on a condition variable is one pass of its critical section, which
    ends in [Ret] or in [Wait] (Monitor.v), and a thread that waits runs
    another pass later.

    Loops over data structures run on fuel taken from the size of the heap,
    which bounds the number of nodes; the theorems show that it is enough.
    Loops over machine integers use [loop] below, which runs [2^d] steps
    without building a number of that size.

    ** The files

    - Prelude.v: machine integers, heaps, C strings, buffers, bounded loops,
      tactics and hints.  CLib.v: what the sources use of the C library on
      characters, numbers and strings.  Float.v: the binary32 and binary64
      arithmetic of the percentages, on the Standard Library's SpecFloat.
      Keyed.v: lists sorted by key and their maps.  Dll.v:
      doubly linked chains in a heap and the pointer surgery on them.
      Monitor.v: critical sections and interleavings.
    - LinkedQueue.v: shared/queue_linked_op.c.  QueueOp.v: shared/queue_op.c.
      ListOp.v: shared/list_op.c.  In each the state, every operation, the
      representation predicate and the claims.
    - RBTree.v: shared/rbtree_op.c, the whole file, with parent pointers.
      RBHeap.v relates the heap to a functional tree with a focus; RBInsert.v,
      RBSearch.v and RBDelete.v prove the rebalancing loops and the insertion
      and deletion; RBMap.v states the refinement to a finite map, the balance
      bound and the destruction.
    - HashOp.v: shared/hash_op.c and math_op.c (os_getprime).  HashTable.v
      relates the table, its rows and its chains to a finite map; HashClaims.v
      holds the claims.
    - StoreOp.v and StoreSpec.v: shared/store_op.c, the sorted store, its
      prefix searches and its in-place sort.
    - BQueue.v: shared/bqueue_op.c, the circular byte buffer that grows and
      shrinks.
    - OrdIndex.v: what the indexed queue asks of its index, a class whose
      instance is the red-black tree.  IndexedQueue.v and IndexedSpec.v:
      shared/indexed_queue_op.c over any such index.
    - B64.v: shared/b64.c.  Utf8.v: shared/utf8_op.c.
    - HashMap.v: shared/hashmap_op.c, the open-addressing table; HashMapSpec.v
      its refinement to a finite map.  BatchQueue.v: shared/batch_queue_op.c,
      the round-robin scheduler of one queue per agent, over LinkedQueue.v's
      queues and the hash map.  batch_queue_enqueue_ex is two steps, since it
      releases its locks before it appends the slot to the ring; a drain is
      one step, so the moment at which the global counter is adjusted is not
      observed.  BatchSpec.v proves the simulation by a ring of agents,
      BatchClaims.v states the claims for every interleaving.
    - OsMaps.v: the character tables of os_regex.  OsMatch.v: the fast matcher
      (os_match_compile.c, os_match_execute.c), OsMatchSpec.v its equivalence
      with what its patterns mean.  OsStr.v and OsStrSpec.v: the string
      functions of os_regex (word match, break, prefix, number).  OsRegex.v:
      the compiler and the backtracking matcher of the regular expressions;
      OsRegexSpec.v proves that compiled patterns are well formed and that the
      matcher ends within its buffers, OsRegexSearch.v that it is a search on
      patterns without repetition.  The matcher's loop runs on a fuel of
      (|string| + |pattern| + 2)^7 steps: an iteration lowers the number whose
      seven digits are the start of the attempt, the string positions of the
      four saved places and of the matcher, and the pattern position.
    - Xml.v: the XML parser of src/src/os_xml (os_xml.c) and the access to the
      nodes of its table (os_xml_node_access.c).  XmlSpec.v proves that the
      parser ends within its buffers and leaves a tree, on a fuel of two
      iterations per character, since only the reading of a child puts back
      all it has read; XmlRound.v that it reads back what was printed.
      XmlVars.v: the variables of XML files (os_xml_variables.c), with the
      pointers that OS_ApplyVariables keeps to contents; XmlVarsSpec.v proves
      that each content becomes the text that its references stand for.
      XmlAccess.v: elements, attributes and contents by path (os_xml_access.c);
      XmlAccessSpec.v proves that what is found is at the path, and that all the
      options of a configuration of sections are found.  The loop that looks a
      path up runs on a fuel of two iterations per item, since an item that ends
      the path is looked at a second time.
    - AgentBuffer.v: client-agent/buffer.c, the ring between the agent's threads
      with its alert levels, and its reload (agentd.c); the dispatcher is three
      steps, since it sends, frees and clears outside of the mutex.
      AgentBufferSpec.v proves the simulation by a bounded list,
      AgentBufferClaims.v states the claims for every interleaving, and
      AgentResize.v those on resizing, on the rate of the dispatcher and on the
      reload.
    - NetBuffer.v: remoted/netbuffer.c over BQueue.v's queues, with
      print_hex_string.  NetBufferSpec.v relates a socket's data to a stream of
      frames, NetBufferClaims.v states the claims.  NetCounter.v:
      remoted/netcounter.c.
    - SecMsg.v: os_crypto/shared/msgs.c and os_zlib/os_zlib.c, with the part of
      remoted/secure.c that takes the agent's name off a message.  The digest,
      zlib and the ciphers are parameters; the class CryptoLaws of SecMsgSpec.v
      states what the libraries document of them, and its instance toy_laws
      shows that the laws can hold.  SecMsgSpec.v proves what a reader makes of
      a packet, SecReplay.v that counters never go back, SecChannel.v the round
      trip of the channel, the restart and the overflow of the decompression.
    - StringOp.v and StringSpec.v: shared/string_op.c.
    - KeyStore.v: os_crypto/shared/keys.c, the agents' keys, over RBTree.v's
      trees; the validation of addresses (shared/validate_op.c) and the digest
      are parameters.  KeyStoreSpec.v proves the simulation by a list of agents,
      KeyFile.v reads back what is written, KeyStoreClaims.v states the claims.
    - AgentOp.v: names, identifiers and new keys of agents (addagent/validate.c),
      the names of groups (shared/agent_op.c) and the comparison of versions
      (shared/version_op.c).  Auth.v: the enrolment service of the manager, the
      request and its validation (os_auth/auth.c), the handling of a client's
      message and of the end of its answer (os_auth/main-server.c) and the
      requests on the local socket (os_auth/local-server.c), over KeyStore.v.
      Enroll.v: the agent's side (shared/enrollment_op.c).  OS_IsValidIP, which
      matches with PCRE2, the digests, the database of agents and the test for
      the directory of a group are parameters; the clock, the random numbers and
      the name of the host are those of a [world].  EnrollSpec.v proves that the
      manager reads what the agent sends, AuthSpec.v that validation and addition
      keep identifiers, names and addresses unique, AuthClaims.v states the
      invariant of the service in every order of its steps, EnrollClaims.v the
      enrolment from end to end and where it goes wrong.
    - Calendar.v: the Gregorian calendar, localtime and mktime in a time zone
      without daylight saving time.  Schedule.v: when a module scans next
      (shared/schedule_scan.c, with the checks of days, times and intervals of
      shared/validate_op.c).  ScheduleSpec.v proves that an accepted schedule is
      consistent and that the next scan is on it.

    ** What the theorems show

    Refinement: any sequence of calls of a container, from its constructor,
    gives the answers of an abstract object (a finite map ordered by [strcmp],
    a list, a bounded list of bytes), ends, and meets no undefined behaviour;
    for the queues this holds for every interleaving of the threads' critical
    sections; the batch queue also serves its agents fairly and keeps each
    agent's items in order.  Invariants: the red-black tree stays balanced,
    with the logarithmic bound on look-ups.  Release: destruction frees every node and
    hands every datum to the callback once.  Codecs: base64 round trip, UTF-8
    validation against the definition of the encoding.  Matchers: the fast
    matcher and OS_WordMatch decide what their patterns mean, the regular
    expressions end, stay in bounds and search, OS_StrBreak undoes joining.
    XML: every input is parsed safely, and a printed tree is parsed into a
    table from which the tree is read back; references to variables are replaced
    by their values, and contents are looked up by path.  Agent: the anti-flooding buffer
    behaves like a bounded list in every interleaving, drains, reports what it
    drops, and keeps its oldest messages when it is resized.  Network: frames
    are put together again however the stream is cut.  Messages: what one end
    creates the other end reads, in order; a message is accepted once; the
    counters survive a restart.  Keys: the store of keys answers as a list of
    agents does, and its file keeps it.  Enrolment: identifiers, names and
    addresses stay unique whatever is requested, and an enrolled agent holds the
    key that the manager has for it.  Schedules: the next scan is in the future,
    at the time and on the day that the configuration asks for.  Strings: JSON and backslash escapes, command
    lines, durations and lists are read back as they were written.  Errors: the results of the failing
    branches are part of the refinements, and where the code departs from its documentation or from its own invariant a theorem states
    the case exactly (the size that OSList_DeleteOldestNode leaves, the count
    and the bounds after OSHash_setSize, the duplicate without count, the
    unbalanced trees that rbtree_black_depth accepts, the remainder by zero of
    bqueue_drop, the stale upsert and the duplicate pointers of the indexed
    queue, the endless next_pow2, the drop of an agent during an enqueue, the
    substring of length -1 and the misread patterns of the regular
    expressions, the letters that the case-sensitive fast matcher misses, the
    byte 255 that the XML parser takes for the end of a file, the reload of a
    wrapped ring, the hexadecimal text of a wrong frame, the decompression
    beyond the receive buffer, the endless replacement of an empty string, the
    entry that enqueue_pending_key takes for its client's, the networks that pass
    the check for duplicate addresses, the version without a terminator, the dangling
    names of variables, the elements that a look-up by path misses, the
    schedules that overflow).

    ** What is not modelled

    The locks themselves (each critical section is atomic), the C++ engine and
    modules, the Python framework and API, and the parts of the C code that
    are input and output (files, sockets, databases, processes). Of os_regex,
    the external context of OSRegex_Execute_ex; of string_op.c, the functions
    on cJSON values, wide strings, hexadecimal input and variadic formats; of
    the key store, the timestamps; of the enrolment, connections and
    certificates, the pool of clients, the writer thread and the clustered
    mode, which are sockets, files and threads around the modelled handlers.
    Of os_xml, the writer, which copies a file and is used by the tools for
    Windows; of shared, the validation of addresses, which PCRE2 does, and
    changes of daylight saving time, which depend on the zone. *)

From Stdlib Require Export ZArith Lia.
From stdpp Require Export base gmap list sorting fin_maps.

#[global] Open Scope Z_scope.
Coercion Z.of_nat : nat >-> Z.

(** * Machine integers

    A [size_t] or an [unsigned int] is a [Z] kept in its range by writing the
    wrap-around where the source computes. *)

Definition wrap32 (z : Z) : Z := z mod 4294967296.
Definition wrap64 (z : Z) : Z := z mod 18446744073709551616.
Definition uint32 (z : Z) : Prop := 0 <= z < 4294967296.
Definition size_t (z : Z) : Prop := 0 <= z < 18446744073709551616.

(** A C [int] read back from a 32-bit pattern (two's complement). *)
Definition int32 (z : Z) : Z := (z + 2147483648) mod 4294967296 - 2147483648.

(** A plain [char] is signed on the supported targets. *)
Definition schar (c : Z) : Z := if c <? 128 then c else c - 256.

Lemma wrap32_range z : uint32 (wrap32 z).
Proof. unfold wrap32, uint32. apply Z.mod_pos_bound. lia. Qed.

Lemma wrap64_range z : size_t (wrap64 z).
Proof. unfold wrap64, size_t. apply Z.mod_pos_bound. lia. Qed.

Lemma wrap32_id z : uint32 z → wrap32 z = z.
Proof. unfold uint32, wrap32. intros. apply Z.mod_small. lia. Qed.

Lemma wrap64_id z : size_t z → wrap64 z = z.
Proof. unfold size_t, wrap64. intros. apply Z.mod_small. lia. Qed.

Lemma wrap32_add_l a b : wrap32 (wrap32 a + b) = wrap32 (a + b).
Proof. unfold wrap32. apply Zplus_mod_idemp_l. Qed.

Lemma wrap32_sub_l a b : wrap32 (wrap32 a - b) = wrap32 (a - b).
Proof. unfold wrap32. apply Zminus_mod_idemp_l. Qed.

Lemma wrap64_add_l a b : wrap64 (wrap64 a + b) = wrap64 (a + b).
Proof. unfold wrap64. apply Zplus_mod_idemp_l. Qed.

Lemma wrap64_sub_l a b : wrap64 (wrap64 a - b) = wrap64 (a - b).
Proof. unfold wrap64. apply Zminus_mod_idemp_l. Qed.

(** * Pointers and the heap

    An address is a [positive]; a pointer is an [option], [NULL] being [None].
    A heap of [A]-structs maps the allocated addresses to their contents.
    [None] as the result of an operation is undefined behaviour: a null or
    dangling pointer was dereferenced.  A theorem that an operation returns
    [Some] is therefore a memory-safety theorem. *)

Abbreviation loc := positive.
Abbreviation ptr := (option positive).
Abbreviation NULL := (@None positive).
Abbreviation heap A := (gmap loc A).

Definition load {A} (h : heap A) (p : ptr) : option A :=
  match p with Some l => h !! l | None => None end.

Definition store {A} (h : heap A) (p : ptr) (f : A → A) : option (heap A) :=
  match p with
  | Some l => match h !! l with Some n => Some (<[l := f n]> h) | None => None end
  | None => None
  end.

(** [free(p)]: freeing [NULL] is a no-op; freeing a dead address is undefined. *)
Definition free {A} (h : heap A) (p : ptr) : option (heap A) :=
  match p with
  | Some l => match h !! l with Some _ => Some (delete l h) | None => None end
  | None => Some h
  end.

Definition is_null (p : ptr) : bool := match p with None => true | _ => false end.
Definition not_null (p : ptr) : bool := negb (is_null p).
Definition ptr_eqb (p q : ptr) : bool := bool_decide (p = q).

Lemma store_Some {A} (h : heap A) l n f :
  h !! l = Some n → store h (Some l) f = Some (<[l := f n]> h).
Proof. intros H. simpl. by rewrite H. Qed.

Lemma free_Some {A} (h : heap A) l n :
  h !! l = Some n → free h (Some l) = Some (delete l h).
Proof. intros H. simpl. by rewrite H. Qed.

Lemma ptr_eqb_refl p : ptr_eqb p p = true.
Proof. unfold ptr_eqb. by rewrite bool_decide_eq_true. Qed.

Lemma ptr_eqb_eq p q : ptr_eqb p q = true ↔ p = q.
Proof. unfold ptr_eqb. apply bool_decide_eq_true. Qed.

Lemma ptr_eqb_neq p q : ptr_eqb p q = false ↔ p ≠ q.
Proof. unfold ptr_eqb. apply bool_decide_eq_false. Qed.

(** * C strings

    A string is the list of its bytes before the terminating NUL.  The
    standard fixes only the sign of [strcmp]; the model returns -1, 0 or 1. *)

Abbreviation cstr := (list Z).

Fixpoint strcmp (a b : cstr) : Z :=
  match a, b with
  | [], [] => 0
  | [], _ :: _ => -1
  | _ :: _, [] => 1
  | x :: a', y :: b' => if x =? y then strcmp a' b' else if x <? y then -1 else 1
  end.

Definition strlen (s : cstr) : Z := Z.of_nat (length s).

(** [tolower] in the C locale. *)
Definition tolower (c : Z) : Z := if (65 <=? c) && (c <=? 90) then c + 32 else c.
Definition str_lowercase (s : cstr) : cstr := tolower <$> s.

(** [strncmp] and [strncasecmp] *)
Definition strncmp (a b : cstr) (n : nat) : Z := strcmp (take n a) (take n b).
Definition strncasecmp (a b : cstr) (n : nat) : Z :=
  strcmp (str_lowercase (take n a)) (str_lowercase (take n b)).

Lemma strcmp_eq a b : strcmp a b = 0 ↔ a = b.
Proof.
  revert b. induction a as [|x a IH]; intros [|y b]; simpl; try (split; [lia|done]); [done|].
  destruct (Z.eqb_spec x y) as [->|].
  - rewrite IH. split; [by intros ->|by intros [=]].
  - destruct (x <? y); split; (lia || congruence).
Qed.

Lemma strcmp_refl a : strcmp a a = 0.
Proof. by apply strcmp_eq. Qed.

Lemma strcmp_antisym a b : strcmp b a = - strcmp a b.
Proof.
  revert b. induction a as [|x a IH]; intros [|y b]; simpl; try done.
  destruct (Z.eqb_spec x y), (Z.eqb_spec y x); try lia; [by rewrite IH|].
  destruct (Z.ltb_spec x y), (Z.ltb_spec y x); lia.
Qed.

Lemma strcmp_lt_trans a b c : strcmp a b < 0 → strcmp b c < 0 → strcmp a c < 0.
Proof.
  revert b c. induction a as [|x a IH]; intros [|y b] [|z c]; simpl; try lia.
  destruct (Z.eqb_spec x y) as [->|]; destruct (Z.eqb_spec y z) as [->|].
  - apply IH.
  - by destruct (Z.ltb_spec y z).
  - destruct (Z.eqb_spec x z), (Z.ltb_spec x z); lia.
  - destruct (Z.eqb_spec x z); destruct (Z.ltb_spec x y), (Z.ltb_spec y z),
      (Z.ltb_spec x z); lia.
Qed.

Lemma strcmp_trichotomy a b : strcmp a b < 0 ∨ a = b ∨ strcmp b a < 0.
Proof.
  rewrite (strcmp_antisym a b). destruct (Z.eq_dec (strcmp a b) 0) as [?%strcmp_eq|]; [auto|lia].
Qed.

(** The order of keys that the sorted structures keep. *)
Definition slt (a b : cstr) : Prop := strcmp a b < 0.

#[export] Instance slt_irrefl : Irreflexive slt.
Proof. intros a. unfold slt, complement. rewrite strcmp_refl. lia. Qed.
#[export] Instance slt_trans : Transitive slt.
Proof. intros a b c. apply strcmp_lt_trans. Qed.
#[export] Instance slt_strict : StrictOrder slt.
Proof. split; apply _. Qed.
#[export] Instance slt_dec : RelDecision slt.
Proof. intros a b. unfold slt. apply _. Defined.

Lemma slt_neq a b : slt a b → a ≠ b.
Proof. intros H ->. by eapply slt_irrefl. Qed.

Lemma slt_asym a b : slt a b → ¬ slt b a.
Proof. intros H1 H2. eapply slt_irrefl. by etransitivity. Qed.

Lemma strcmp_gt_slt a b : 0 < strcmp a b ↔ slt b a.
Proof. unfold slt. rewrite (strcmp_antisym a b). lia. Qed.

(** * Automation *)

Create HintDb wazuh.
Create Rewrite HintDb wazuh.
#[export] Hint Resolve wrap32_range wrap64_range : wazuh.
#[export] Hint Rewrite strcmp_refl ptr_eqb_refl : wazuh.

(** Case analysis on the comparison the code branches on. *)
Ltac scmp a b :=
  let E := fresh "Hcmp" in
  destruct (strcmp_trichotomy a b) as [E|[E|E]].

(** Solve the binds of an operation from the [lookup] facts at hand. *)
Ltac opt_step :=
  repeat (simpl;
    match goal with
    | H : ?e = Some _ |- context [mbind _ ?e] => rewrite H
    | H : ?h !! ?l = Some _ |- context [store ?h (Some ?l) _] =>
        rewrite (store_Some _ _ _ _ H)
    | H : ?h !! ?l = Some _ |- context [free ?h (Some ?l)] =>
        rewrite (free_Some _ _ _ H)
    | H : ?h !! ?l = Some _ |- context [load ?h (Some ?l)] =>
        change (load h (Some l)) with (h !! l); rewrite H
    end); simpl.

(** * Lists *)

Lemma NoDup_app_inv {A} (l1 l2 : list A) :
  NoDup (l1 ++ l2) → NoDup l1 ∧ NoDup l2 ∧ (∀ x, x ∈ l1 → x ∉ l2).
Proof. rewrite NoDup_app. naive_solver. Qed.

Lemma NoDup_snoc {A} (ls : list A) x : NoDup (ls ++ [x]) ↔ NoDup ls ∧ x ∉ ls.
Proof.
  rewrite NoDup_app. split.
  - intros (H1 & H2 & _). split; [done|]. intros Hx. eapply H2; [done|]. by left.
  - intros [H1 H2]. split_and!; [done| |apply NoDup_singleton].
    intros y Hy ->%list_elem_of_singleton. done.
Qed.

Lemma NoDup_middle {A} (xs ys : list A) x :
  NoDup (xs ++ x :: ys) ↔ NoDup (xs ++ ys) ∧ x ∉ xs ∧ x ∉ ys.
Proof.
  rewrite <-Permutation_middle, NoDup_cons, not_elem_of_app. naive_solver.
Qed.

(** Non-membership from the [∉] and [≠] facts at hand. *)
Ltac notin :=
  repeat first [rewrite fmap_app | rewrite not_elem_of_app | progress simpl
               | rewrite not_elem_of_cons];
  repeat match goal with |- _ ∧ _ => split end;
  first [done | congruence | apply not_elem_of_nil | idtac].

(** * Loops

    [loop d step s] runs [step] from [s] until it returns a result, at most
    [2^d] times: a bound on a loop over machine integers that can still be
    executed.  [inl] means that the bound was reached. *)

Section loop.
Context {St R : Type} (step : St → St + R).

Fixpoint loop (d : nat) (s : St) : St + R :=
  match d with
  | O => step s
  | S d => match loop d s with inl s' => loop d s' | inr r => inr r end
  end.

Context (I : St → Prop) (Q : R → Prop) (mu : St → Z).
Context (Hstep : ∀ s, I s → match step s with inl s' => I s' ∧ 0 <= mu s' < mu s | inr r => Q r end).

Lemma loop_step (d : nat) s :
  I s → match loop d s with inl s' => I s' ∧ 0 <= mu s' <= mu s - 2 ^ d | inr r => Q r end.
Proof using Hstep.
  revert s. induction d as [|d IH]; intros s Hs; simpl.
  - specialize (Hstep s Hs). destruct (step s); [|done]. destruct Hstep. split; [done|]. lia.
  - pose proof (IH s Hs) as H1. destruct (loop d s) as [s1|]; [|done]. destruct H1 as [H1 H2].
    pose proof (IH s1 H1) as H3. destruct (loop d s1) as [s2|]; [|done]. destruct H3. split; [done|].
    rewrite Nat2Z.inj_succ, Z.pow_succ_r by lia. lia.
Qed.

(** Total correctness by an invariant and a variant below the bound. *)
Lemma loop_total (d : nat) s : I s → mu s < 2 ^ d → ∃ r, loop d s = inr r ∧ Q r.
Proof using Hstep.
  intros Hs Hm. pose proof (loop_step d s Hs) as H. destruct (loop d s); [lia|eauto].
Qed.
End loop.

(** * Byte buffers *)

Definition byte (b : Z) : Prop := 0 <= b < 256.
Definition INT_MAX : Z := 2147483647.

(** Reading [src[i]] and appending at [*p++] in a buffer of [cap] bytes;
    [None] is an access out of bounds. *)
Definition rd (src : list Z) (i : Z) : option Z := if i <? 0 then None else src !! Z.to_nat i.
Definition put (cap : Z) (out : list Z) (c : Z) : option (list Z) :=
  if length out <? cap then Some (out ++ [c]) else None.

Lemma rd_app pre l (j : nat) : rd (pre ++ l) (length pre + j) = l !! j.
Proof.
  unfold rd. destruct (Z.ltb_spec (length pre + j) 0); [lia|].
  replace (Z.to_nat (length pre + j)) with (length pre + j)%nat by lia.
  rewrite lookup_app_r by lia. f_equal. lia.
Qed.

Lemma put_ok cap out c : length out < cap → put cap out c = Some (out ++ [c]).
Proof. intros. unfold put. by rewrite (proj2 (Z.ltb_lt _ _)). Qed.

(** What the caller reads as a C string: the bytes before the first NUL. *)
Fixpoint cstring (buf : list Z) : cstr :=
  match buf with
  | [] => []
  | c :: buf => if c =? 0 then [] else c :: cstring buf
  end.

Lemma cstring_id s : Forall (λ c, c ≠ 0) s → cstring s = s.
Proof. induction 1 as [|c s Hc _ IH]; simpl; [done|]. by rewrite (proj2 (Z.eqb_neq _ _)), IH. Qed.
Lemma cstring_app s buf : Forall (λ c, c ≠ 0) s → cstring (s ++ 0 :: buf) = s.
Proof. induction 1 as [|c s Hc _ IH]; [done|]. simpl. rewrite IH. by destruct (Z.eqb_spec c 0). Qed.
