(* ===== verification/CLib.v ===== *)
(** What the sources use of the C library on strings and numbers. *)

From S2P Require Import Prelude.

(** * Characters *)

(** [isspace] in the C locale. *)
Definition isspace (c : Z) : bool := (c =? 32) || ((9 <=? c) && (c <=? 13)).
Definition isdigit (c : Z) : bool := (48 <=? c) && (c <=? 57).

(** The longest prefix whose characters satisfy [f], and the rest. *)
Fixpoint span (f : Z → bool) (s : cstr) : cstr * cstr :=
  match s with
  | [] => ([], [])
  | c :: s' => if f c then let '(a, b) := span f s' in (c :: a, b) else ([], s)
  end.

Lemma span_app f s : (span f s).1 ++ (span f s).2 = s.
Proof. induction s as [|c s IH]; simpl; [done|]. destruct (f c); [|done]. destruct (span f s). simpl in *. by rewrite IH. Qed.
Lemma span_all f s t : Forall (λ c, f c = true) s → span f (s ++ t) = (s ++ (span f t).1, (span f t).2).
Proof. induction 1 as [|c s Hc _ IH]; simpl; [by destruct (span f t)|]. rewrite Hc, IH. done. Qed.
Lemma span_stop f s c t : Forall (λ c, f c = true) s → f c = false → span f (s ++ c :: t) = (s, c :: t).
Proof. intros Hs Hc. rewrite span_all by done. simpl. by rewrite Hc, app_nil_r. Qed.
Lemma span_end f s : Forall (λ c, f c = true) s → span f s = (s, []).
Proof. intros Hs. rewrite <-(app_nil_r s) at 1. rewrite span_all by done. simpl. by rewrite app_nil_r. Qed.
Lemma span_fst f s : Forall (λ c, f c = true) (span f s).1.
Proof. induction s as [|c s IH]; simpl; [done|]. destruct (f c) eqn:E; [|done]. destruct (span f s). by constructor. Qed.

(** * Numbers *)

(** The decimal digits of a natural number, most significant first. *)
Fixpoint digits (fuel : nat) (n : Z) : cstr :=
  match fuel with
  | O => []
  | S f => (if n <? 10 then [] else digits f (n / 10)) ++ [48 + n mod 10]
  end.
(** The number a string of decimal digits stands for. *)
Definition undigits (s : cstr) : Z := foldl (λ n c, n * 10 + (c - 48)) 0 s.

Lemma undigits_digits (f : nat) n : 0 <= n < 10 ^ f → undigits (digits f n) = n.
Proof.
  revert n. induction f as [|f IH]; intros n Hn; [simpl in Hn; by assert (n = 0) as -> by lia|].
  rewrite Nat2Z.inj_succ, Z.pow_succ_r in Hn by lia.
  pose proof (Z.div_mod n 10 ltac:(lia)) as Hdm. pose proof (Z.mod_pos_bound n 10 ltac:(lia)).
  simpl. unfold undigits in *. rewrite foldl_app. cbn [foldl].
  destruct (Z.ltb_spec n 10) as [Hlt|Hge].
  - simpl. rewrite Z.mod_small by lia. lia.
  - rewrite IH; [lia|]. split; [apply Z.div_pos; lia|apply Z.div_lt_upper_bound; lia].
Qed.

Lemma digits_range f n c : 0 <= n → c ∈ digits f n → 48 <= c <= 57.
Proof.
  revert n. induction f as [|f IH]; intros n Hn; simpl; [by intros ?%not_elem_of_nil|].
  rewrite elem_of_app, list_elem_of_singleton. pose proof (Z.mod_pos_bound n 10 ltac:(lia)).
  intros [Hc| ->]; [|lia]. destruct (n <? 10); [by apply not_elem_of_nil in Hc|].
  apply (IH (n / 10)); [apply Z.div_pos; lia|done].
Qed.

Lemma digits_length f n : (length (digits f n) ≤ f)%nat.
Proof.
  revert n. induction f as [|f IH]; intros n; simpl; [lia|]. rewrite length_app. simpl.
  pose proof (IH (n / 10)). destruct (n <? 10); simpl; lia.
Qed.

Lemma digits_width f w n : (1 ≤ w)%nat → 0 <= n < 10 ^ Z.of_nat w → (length (digits f n) ≤ w)%nat.
Proof.
  revert w n. induction f as [|f IH]; intros w n Hw Hn; simpl; [lia|]. rewrite length_app. simpl.
  destruct (Z.ltb_spec n 10); [simpl; lia|]. destruct w as [|[|w]]; [lia|simpl in Hn; lia|].
  assert (length (digits f (n / 10)) ≤ S w)%nat; [|lia]. apply IH; [lia|].
  rewrite (Nat2Z.inj_succ (S w)), Z.pow_succ_r in Hn by lia.
  split; [apply Z.div_pos; lia|apply Z.div_lt_upper_bound; lia].
Qed.
Lemma digits_isdigit f n : 0 <= n → Forall (λ c, isdigit c = true) (digits f n).
Proof.
  intros Hn. apply Forall_forall. intros c Hc. pose proof (digits_range f n c Hn Hc). unfold isdigit.
  rewrite !(proj2 (Z.leb_le _ _)) by lia. done.
Qed.
Lemma digits_nonempty f n : digits (S f) n ≠ [].
Proof. simpl. by destruct (if n <? 10 then [] else digits f (n / 10)). Qed.

(** ["%0wd"]: at least [w] digits. *)
Definition zeros (w : nat) (s : cstr) : cstr := replicate (w - length s) 48 ++ s.

Lemma undigits_zeros w s : undigits (zeros w s) = undigits s.
Proof.
  unfold zeros, undigits. rewrite foldl_app. f_equal. induction (w - length s)%nat as [|k IH]; [done|]. exact IH.
Qed.
Lemma zeros_isdigit w s : Forall (λ c, isdigit c = true) s → Forall (λ c, isdigit c = true) (zeros w s).
Proof. intros. apply Forall_app. split; [by apply Forall_replicate|done]. Qed.
Lemma length_zeros w s : (length s ≤ w)%nat → length (zeros w s) = w.
Proof. intros. unfold zeros. rewrite length_app, length_replicate. lia. Qed.

Lemma length_zeros_digits f w n :
  (1 ≤ w)%nat → 0 <= n < 10 ^ Z.of_nat w → length (zeros w (digits f n)) = w.
Proof. intros. by apply length_zeros, digits_width. Qed.

(** The sign and the digits of a number, after white space. *)
Definition scan_sign (t : cstr) : bool * cstr :=
  match t with
  | [] => (false, [])
  | c :: t' => if c =? 45 then (true, t') else if c =? 43 then (false, t') else (false, t)
  end.
Definition scan_number (s : cstr) : option (bool * cstr * cstr) :=
  let t := (span isspace s).2 in
  let '(neg, t) := scan_sign t in
  let '(ds, rest) := span isdigit t in
  match ds with [] => None | _ => Some (neg, ds, rest) end.

(** [strtol(s, &end, 10)]: the value, what is at [end], and whether it was out
    of range; without digits [end] is the start. *)
Definition LONG_MAX : Z := 9223372036854775807.
Definition strtol (s : cstr) : Z * cstr * bool :=
  match scan_number s with
  | None => (0, s, false)
  | Some (neg, ds, rest) =>
      let v := if neg then - undigits ds else undigits ds in
      if LONG_MAX <? v then (LONG_MAX, rest, true)
      else if v <? - LONG_MAX - 1 then (- LONG_MAX - 1, rest, true)
      else (v, rest, false)
  end.

(** [atoi], which is [strtol] converted to [int]. *)
Definition atoi (s : cstr) : Z := int32 (strtol s).1.1.

(** ["%u"] of [scanf]: the number, modulo [2^32], and the rest. *)
Definition scan_u (s : cstr) : option (Z * cstr) :=
  '(neg, ds, rest) ← scan_number s;
  let v := undigits ds in
  let v := if 18446744073709551615 <? v then 18446744073709551615 else v in
  Some (wrap32 (if neg : bool then - v else v), rest).

Lemma scan_number_digits ds c t :
  ds ≠ [] → Forall (λ c, isdigit c = true) ds → isdigit c = false →
  scan_number (ds ++ c :: t) = Some (false, ds, c :: t).
Proof.
  intros Hne Hds Hc. unfold scan_number. destruct ds as [|d ds]; [done|]. simpl.
  assert (48 <= d <= 57) as Hd.
  { inversion Hds as [|? ? H _]; subst. unfold isdigit in H. apply andb_true_iff in H as [?%Z.leb_le ?%Z.leb_le]. lia. }
  assert (isspace d = false) as ->.
  { unfold isspace. rewrite (proj2 (Z.eqb_neq _ _)) by lia. simpl. rewrite (proj2 (Z.leb_le 9 d)) by lia.
    by rewrite (proj2 (Z.leb_gt d 13)) by lia. }
  unfold scan_sign. cbn [snd]. rewrite !(proj2 (Z.eqb_neq _ _)) by lia. change (d :: ds ++ c :: t) with ((d :: ds) ++ c :: t).
  rewrite span_stop by done. done.
Qed.

(** * Searching in strings *)

(** [strchr] for a character that is not NUL: the string before and from it. *)
Definition strchr (s : cstr) (c : Z) : option (cstr * cstr) :=
  let '(a, b) := span (λ d, negb (d =? c)) s in match b with [] => None | _ => Some (a, b) end.

(** [strstr]: what precedes the first occurrence of [t], and what follows it. *)
Fixpoint strstr (s t : cstr) : option (cstr * cstr) :=
  if strncmp s t (length t) =? 0 then Some ([], drop (length t) s)
  else match s with [] => None | c :: s => '(a, b) ← strstr s t; Some (c :: a, b) end.

(** [strtok_r]: the next token, and what is left after the delimiter that ended
    it. *)
Definition strtok_r (s delim : cstr) : option (cstr * cstr) :=
  let isdelim c := bool_decide (c ∈ delim) in
  match (span isdelim s).2 with
  | [] => None
  | t => let '(tok, rest) := span (λ c, negb (isdelim c)) t in Some (tok, drop 1 rest)
  end.
