(* ===== verification/Float.v ===== *)
(** The IEEE 754 arithmetic that the sources use: conversions of integers,
    the division of two [float]s, the promotion of a [float] to [double] and
    the comparison of two [double]s.  The formats are instances of the
    Standard Library's executable specification. *)

From Stdlib Require Export SpecFloat.
From S2P Require Import Prelude.

Abbreviation float := spec_float.

(** [(float) z] and [(double) z] *)
Definition f32_of_Z (z : Z) : float := binary_normalize 24 128 z 0 false.
Definition f64_of_Z (z : Z) : float := binary_normalize 53 1024 z 0 false.

(** The conversion of a [float] to [double], which is exact. *)
Definition f32_to_f64 (f : float) : float :=
  match f with
  | S754_finite s m e => binary_normalize 53 1024 (if s then Zneg m else Zpos m) e s
  | f => f
  end.

Definition f32_div (a b : float) : float := SFdiv 24 128 a b.
Definition f64_div (a b : float) : float := SFdiv 53 1024 a b.

(** [a <= b] on [double]s; false if one is not a number. *)
Definition f64_leb (a b : float) : bool := SFleb a b.

Example f32_div_rounds : f64_leb (f64_div (f64_of_Z 9) (f64_of_Z 10)) (f32_to_f64 (f32_div (f32_of_Z 9) (f32_of_Z 10))) = false.
Proof. vm_compute. reflexivity. Qed.
Example f32_div_exact : f32_div (f32_of_Z 1) (f32_of_Z 4) = S754_finite false 8388608 (-25).
Proof. vm_compute. reflexivity. Qed.
Example f32_div_zero : f32_div (f32_of_Z 0) (f32_of_Z 0) = S754_nan ∧ f32_div (f32_of_Z 3) (f32_of_Z 0) = S754_infinity false.
Proof. split; reflexivity. Qed.
