(* ===== verification/Keyed.v ===== *)
(** Entries ordered by key: the lists of key-value pairs that the ordered
    structures keep, and the finite maps they stand for. *)

From S2P Require Import Prelude.

Lemma filter_none {A} (p : A → bool) xs : (∀ x, x ∈ xs → p x = false) → List.filter p xs = [].
Proof.
  induction xs as [|x xs IH]; simpl; intros H; [done|].
  rewrite (H x) by (by left). apply IH. intros. apply H. by right.
Qed.

Lemma filter_all {A} (p : A → bool) xs : (∀ x, x ∈ xs → p x = true) → List.filter p xs = xs.
Proof.
  induction xs as [|x xs IH]; simpl; intros H; [done|].
  rewrite (H x) by (by left). f_equal. apply IH. intros. apply H. by right.
Qed.

(** Entries sorted by key. *)
Definition ksorted (xs : list (cstr * ptr)) : Prop := StronglySorted slt xs.*1.

Lemma ksorted_app xs ys :
  ksorted (xs ++ ys) ↔
  ksorted xs ∧ ksorted ys ∧ (∀ x y, x ∈ xs.*1 → y ∈ ys.*1 → slt x y).
Proof.
  unfold ksorted. rewrite fmap_app. generalize xs.*1 ys.*1. clear. intros xs ys.
  induction xs as [|x xs IH]; simpl.
  - split; [|naive_solver]. intros H. split_and!; [constructor|done|set_solver].
  - split.
    + intros [H1 H2]%StronglySorted_inv. apply IH in H1 as (? & ? & H3).
      apply Forall_app in H2 as [? H2]. rewrite Forall_forall in H2.
      split_and!; [by constructor|done|].
      intros y z [->|]%elem_of_cons Hz; auto.
    + intros ([H1 H2]%StronglySorted_inv & H3 & H4). constructor.
      * apply IH. split_and!; [done|done|]. intros. apply H4; [by right|done].
      * apply Forall_app. split; [done|]. apply Forall_forall. intros. apply H4; [by left|done].
Qed.

Lemma ksorted_cons k v xs :
  ksorted ((k, v) :: xs) ↔ ksorted xs ∧ (∀ y, y ∈ xs.*1 → slt k y).
Proof.
  unfold ksorted. simpl. split.
  - intros [H1 H2]%StronglySorted_inv. by rewrite Forall_forall in H2.
  - intros [H1 H2]. constructor; [done|]. by apply Forall_forall.
Qed.

Lemma ksorted_NoDup xs : ksorted xs → NoDup xs.*1.
Proof.
  unfold ksorted. induction 1 as [|x l _ IH Hx]; constructor; [|done].
  rewrite Forall_forall in Hx. intros Hin. by apply (slt_irrefl x), Hx.
Qed.

Lemma ksorted_delete xs k v ys : ksorted (xs ++ (k, v) :: ys) → ksorted (xs ++ ys).
Proof.
  rewrite !ksorted_app, ksorted_cons. intros (H1 & [H2 _] & H3). split_and!; try done.
  intros x y Hx Hy. apply H3; [done|]. by right.
Qed.

Lemma ksorted_delete_mid p x k v y q :
  ksorted (p ++ (x ++ (k, v) :: y) ++ q) → ksorted (p ++ (x ++ y) ++ q).
Proof.
  intros H. rewrite <-app_assoc, app_assoc. apply (ksorted_delete _ k v).
  by rewrite <-!app_assoc in *.
Qed.

(** The keys of a map in the order of [strcmp]. *)
Definition sle (a b : cstr) : Prop := strcmp a b <= 0.
#[export] Instance sle_dec : RelDecision sle.
Proof. intros a b. unfold sle. apply _. Defined.
#[export] Instance sle_total : Total sle.
Proof. intros a b. unfold sle. rewrite (strcmp_antisym a b). lia. Qed.
#[export] Instance sle_trans : Transitive sle.
Proof.
  intros a b c H1 H2. unfold sle in *.
  destruct (Z.eq_dec (strcmp a b) 0) as [->%strcmp_eq|]; [done|].
  destruct (Z.eq_dec (strcmp b c) 0) as [<-%strcmp_eq|]; [done|].
  assert (slt a c) by (apply (slt_trans a b c); unfold slt; lia). unfold slt in *. lia.
Qed.
#[export] Instance sle_antisym : AntiSymm (=) sle.
Proof.
  intros a b H1 H2. unfold sle in *. rewrite (strcmp_antisym a b) in H2. apply strcmp_eq. lia.
Qed.

Definition keys_of (m : gmap cstr ptr) : list cstr := merge_sort sle (map_to_list m).*1.

Lemma ksorted_keys_of xs : ksorted xs → keys_of (list_to_map xs) = xs.*1.
Proof.
  intros Hs. pose proof (ksorted_NoDup _ Hs) as Hnd. unfold keys_of.
  apply (StronglySorted_unique sle).
  - apply Sorted_StronglySorted; [apply _|]. apply Sorted_merge_sort, _.
  - unfold ksorted in Hs. revert Hs. generalize xs.*1. clear. intros ks.
    induction 1 as [|x l _ IH Hx]; constructor; [done|].
    eapply Forall_impl; [exact Hx|]. unfold slt, sle. lia.
  - rewrite merge_sort_Permutation. by rewrite map_to_list_to_map.
Qed.

Lemma list_to_map_lookup xs k :
  ksorted xs → k ∉ xs.*1 ↔ (list_to_map xs : gmap cstr ptr) !! k = None.
Proof. intros. apply not_elem_of_list_to_map. Qed.

(** Taking one entry out of a list with distinct keys. *)
Lemma list_to_map_middle `{Countable K} {V} (l1 l2 : list (K * V)) k v :
  NoDup (l1 ++ (k, v) :: l2).*1 →
  list_to_map (l1 ++ (k, v) :: l2) =@{gmap K V} <[k := v]> (list_to_map (l1 ++ l2)) ∧
  (list_to_map (l1 ++ l2) : gmap K V) !! k = None.
Proof.
  intros Hnd. split.
  - rewrite <-list_to_map_cons. apply list_to_map_proper; [done|]. by rewrite Permutation_middle.
  - apply not_elem_of_list_to_map_1. rewrite fmap_app in Hnd |- *. simpl in Hnd.
    apply NoDup_middle in Hnd as (_ & ? & ?). by apply not_elem_of_app.
Qed.
