(* ===== verification/Dll.v ===== *)
(** Doubly linked chains in the heap.

    [OSListNode], [w_linked_queue_node_t], [OSHashNode] and [OSStoreNode] all
    carry a [next] and a [prev] pointer and a payload.  This file gives the
    shared representation predicate of such a chain, relates it to the list
    of its (address, payload) pairs, and proves the pointer surgeries the C
    code performs on it: linking at either end, unlinking, inserting before a
    node, and overwriting a payload. *)

From S2P Require Import Prelude.

Record dnode (A : Type) := DNode { dn_prev : ptr; dn_next : ptr; dn_val : A }.
Arguments DNode {A} _ _ _.
Arguments dn_prev {A} _.
Arguments dn_next {A} _.
Arguments dn_val {A} _.

Definition set_prev {A} (p : ptr) (n : dnode A) : dnode A := DNode p (dn_next n) (dn_val n).
Definition set_next {A} (p : ptr) (n : dnode A) : dnode A := DNode (dn_prev n) p (dn_val n).
Definition set_val {A} (a : A) (n : dnode A) : dnode A := DNode (dn_prev n) (dn_next n) a.

Section dll.
Context {A : Type}.
Implicit Types (h : heap (dnode A)) (l r : loc) (a : A) (ls : list (loc * A)) (p n q : ptr).

(** The first address of a chain, or what follows it. *)
Definition hd_ptr ls n : ptr := match ls with (l, _) :: _ => Some l | [] => n end.

(** The last address of a chain, or what precedes it. *)
Definition last_ptr ls p : ptr := match last ls with Some (l, _) => Some l | None => p end.

(** [dseg h p ls n]: the nodes [ls] are linked in this order, the first one
    preceded by [p] and the last one followed by [n]. *)
Fixpoint dseg h p ls n : Prop :=
  match ls with
  | [] => True
  | (l, a) :: ls' => h !! l = Some (DNode p (hd_ptr ls' n) a) ∧ dseg h (Some l) ls' n
  end.

(** The executable reading of a chain: follow [next] from [p], with fuel. *)
Fixpoint walk (fuel : nat) h p : list (loc * A) :=
  match fuel, p with
  | S k, Some l => match h !! l with
                   | Some nd => (l, dn_val nd) :: walk k h (dn_next nd)
                   | None => []
                   end
  | _, _ => []
  end.

(** A whole chain: distinct nodes, and no node outside of it (no leak). *)
Definition dll h ls : Prop :=
  NoDup ls.*1 ∧ dom h = list_to_set ls.*1 ∧ dseg h None ls None.

Lemma hd_ptr_app ls1 ls2 n : hd_ptr (ls1 ++ ls2) n = hd_ptr ls1 (hd_ptr ls2 n).
Proof. by destruct ls1 as [|[]]. Qed.

Lemma last_ptr_cons l a ls p : last_ptr ((l, a) :: ls) p = last_ptr ls (Some l).
Proof. unfold last_ptr. rewrite last_cons. by destruct (last ls) as [[]|]. Qed.

Lemma last_ptr_app ls1 ls2 p : last_ptr (ls1 ++ ls2) p = last_ptr ls2 (last_ptr ls1 p).
Proof. unfold last_ptr. rewrite last_app. by destruct (last ls2) as [[]|]. Qed.

Lemma last_ptr_snoc ls l a p : last_ptr (ls ++ [(l, a)]) p = Some l.
Proof. unfold last_ptr. by rewrite last_snoc. Qed.

Lemma dseg_app h p ls1 ls2 n :
  dseg h p (ls1 ++ ls2) n ↔
  dseg h p ls1 (hd_ptr ls2 n) ∧ dseg h (last_ptr ls1 p) ls2 n.
Proof.
  revert p. induction ls1 as [|[l a] ls1 IH]; intros p; simpl; [naive_solver|].
  rewrite hd_ptr_app, IH, last_ptr_cons. naive_solver.
Qed.

Lemma dseg_insert h l x p ls n :
  l ∉ ls.*1 → dseg (<[l := x]> h) p ls n ↔ dseg h p ls n.
Proof.
  revert p. induction ls as [|[l' a] ls IH]; intros p Hl; simpl in *; [done|].
  apply not_elem_of_cons in Hl as [? ?].
  rewrite lookup_insert_ne by done. by rewrite IH.
Qed.

Lemma dseg_delete h l p ls n : l ∉ ls.*1 → dseg (delete l h) p ls n ↔ dseg h p ls n.
Proof.
  revert p. induction ls as [|[l' a] ls IH]; intros p Hl; simpl in *; [done|].
  apply not_elem_of_cons in Hl as [? ?].
  rewrite lookup_delete_ne by done. by rewrite IH.
Qed.

(** Re-linking the first node to a new predecessor. *)
Lemma dseg_set_prev h p p' l a ls n :
  NoDup (l :: ls.*1) → dseg h p ((l, a) :: ls) n →
  dseg (<[l := DNode p' (hd_ptr ls n) a]> h) p' ((l, a) :: ls) n.
Proof.
  intros [Hl _]%NoDup_cons [_ ?]. simpl. rewrite lookup_insert_eq.
  split; [done|]. by apply dseg_insert.
Qed.

(** Re-linking the last node to a new successor. *)
Lemma dseg_set_next h p l a ls n n' :
  l ∉ ls.*1 → dseg h p (ls ++ [(l, a)]) n →
  dseg (<[l := DNode (last_ptr ls p) n' a]> h) p (ls ++ [(l, a)]) n'.
Proof.
  intros Hl. rewrite !dseg_app. intros [? _]. simpl. rewrite dseg_insert by done.
  rewrite lookup_insert_eq. naive_solver.
Qed.

Lemma dseg_lookup h p ls1 l a ls2 n :
  dseg h p (ls1 ++ (l, a) :: ls2) n →
  h !! l = Some (DNode (last_ptr ls1 p) (hd_ptr ls2 n) a).
Proof. rewrite dseg_app. simpl. naive_solver. Qed.

Lemma dseg_walk h p ls : dseg h p ls None → walk (length ls) h (hd_ptr ls None) = ls.
Proof.
  revert p. induction ls as [|[l a] ls IH]; intros p; [done|].
  simpl. intros [-> Hs]. simpl. f_equal. eauto.
Qed.

Lemma dseg_elem_of h p ls n l : dseg h p ls n → l ∈ ls.*1 → ∃ nd, h !! l = Some nd.
Proof.
  intros Hs ([l' a] & -> & (ls1 & ls2 & ->)%list_elem_of_split)%list_elem_of_fmap.
  apply dseg_lookup in Hs. eauto.
Qed.

Lemma fst_fmap_app (ls1 ls2 : list (loc * A)) : (ls1 ++ ls2).*1 = ls1.*1 ++ ls2.*1.
Proof. apply fmap_app. Qed.

Lemma notin_snoc l (ls : list (loc * A)) r b : l ∉ (ls ++ [(r, b)]).*1 → l ∉ ls.*1 ∧ l ≠ r.
Proof.
  rewrite fmap_app, not_elem_of_app. simpl. rewrite not_elem_of_cons. tauto.
Qed.

Lemma dll_nil : dll ∅ [].
Proof. split_and!; [constructor|by rewrite dom_empty_L|done]. Qed.

Lemma dll_fresh h ls l : dll h ls → h !! l = None → l ∉ ls.*1.
Proof.
  intros (_ & Hd & _) Hl Hin. apply not_elem_of_dom in Hl. set_solver.
Qed.

(** A whole chain is recovered by reading it. *)
Lemma dll_walk h ls : dll h ls → walk (length ls) h (hd_ptr ls None) = ls.
Proof. intros (_ & _ & Hs). by eapply dseg_walk. Qed.

Lemma dll_inj h ls1 ls2 :
  dll h ls1 → dll h ls2 → hd_ptr ls1 None = hd_ptr ls2 None → ls1 = ls2.
Proof.
  intros H1 H2 Heq. rewrite <-(dll_walk _ _ H1), <-(dll_walk _ _ H2), Heq.
  f_equal. destruct H1 as (N1 & D1 & _), H2 as (N2 & D2 & _).
  rewrite <-(length_fmap fst ls1), <-(length_fmap fst ls2).
  rewrite <-(size_list_to_set (C:=gset loc)), <-(size_list_to_set (C:=gset loc) ls2.*1) by done.
  congruence.
Qed.

(** The heap holds one cell per node. *)
Lemma dll_size h ls : dll h ls → size h = length ls.
Proof.
  intros (Hn & Hd & _). rewrite <-size_dom, Hd, size_list_to_set by done. apply length_fmap.
Qed.

Lemma dom_store h l x y : h !! l = Some x → dom (<[l := y]> h) = dom h.
Proof. intros Hl. rewrite dom_insert_L. apply elem_of_dom_2 in Hl. set_solver. Qed.
End dll.

(** * Pointer surgery on whole chains *)

Section surgery.
Context {A : Type}.
Implicit Types (h : heap (dnode A)) (l r : loc) (a : A) (ls : list (loc * A)).

(** Linking a fresh node after the last one. *)
Lemma dll_snoc h ls l a :
  dll h ls → h !! l = None →
  dll (match last ls with
       | Some (r, b) => <[r := DNode (last_ptr (removelast ls) None) (Some l) b]>
       | None => id
       end (<[l := DNode (last_ptr ls None) None a]> h)) (ls ++ [(l, a)]).
Proof.
  intros Hdll Hl. pose proof (dll_fresh _ _ _ Hdll Hl) as Hf.
  destruct Hdll as (Hnd & Hd & Hs).
  destruct ls as [|[r b] ls' _] using rev_ind.
  - unfold id, dll. simpl in *. rewrite lookup_insert_eq, dom_insert_L, Hd.
    split_and!; [by apply NoDup_singleton|set_solver|done..].
  - rewrite last_snoc, removelast_last, last_ptr_snoc.
    rewrite fst_fmap_app in *; simpl in *.
    apply NoDup_snoc in Hnd as [Hnd Hr].
    apply not_elem_of_app in Hf as [Hl1 Hlr%not_elem_of_cons]. destruct Hlr as [Hlr _].
    unfold dll. rewrite !fst_fmap_app. simpl. split_and!.
    + rewrite !NoDup_snoc, not_elem_of_app, not_elem_of_cons. split_and!; try done.
      apply not_elem_of_nil.
    + rewrite !dom_insert_L, Hd, !list_to_set_app_L. simpl. set_solver +.
    + rewrite dseg_app. split.
      * apply (dseg_set_next _ _ _ _ _ None); [done|].
        apply dseg_insert; [|done]. rewrite fst_fmap_app; simpl.
        rewrite not_elem_of_app, not_elem_of_cons. split_and!; try done.
        apply not_elem_of_nil.
      * rewrite last_ptr_snoc. simpl. rewrite lookup_insert_ne, lookup_insert_eq by done. done.
Qed.

(** Linking a fresh node before the first one. *)
Lemma dll_cons h ls l a :
  dll h ls → h !! l = None →
  dll (match ls with
       | (r, b) :: ls' => <[r := DNode (Some l) (hd_ptr ls' None) b]>
       | [] => id
       end (<[l := DNode None (hd_ptr ls None) a]> h)) ((l, a) :: ls).
Proof.
  intros Hdll Hl. pose proof (dll_fresh _ _ _ Hdll Hl) as Hf.
  destruct Hdll as (Hnd & Hd & Hs). destruct ls as [|[r b] ls'].
  - unfold id, dll. simpl in *. rewrite lookup_insert_eq, dom_insert_L, Hd.
    split_and!; [by apply NoDup_singleton|set_solver|done..].
  - apply not_elem_of_cons in Hf as [Hlr Hf].
    unfold dll. simpl in *. split_and!.
    + constructor; [by apply not_elem_of_cons|done].
    + rewrite !dom_insert_L, Hd. set_solver +.
    + rewrite lookup_insert_ne by congruence. by rewrite lookup_insert_eq.
    + by rewrite lookup_insert_eq.
    + apply NoDup_cons in Hnd as [? ?].
      apply dseg_insert; [done|]. apply dseg_insert; [done|]. apply Hs.
Qed.

(** The heap after unlinking the node [l] that sits between [ls1] and [ls2]:
    its neighbours point to each other and its cell is gone. *)
Definition unlink_heap h ls1 l ls2 : heap (dnode A) :=
  delete l
    (match ls2 with
     | (r, b) :: ls2' => <[r := DNode (last_ptr ls1 None) (hd_ptr ls2' None) b]>
     | [] => id
     end
     (match last ls1 with
      | Some (q, c) => <[q := DNode (last_ptr (removelast ls1) None) (hd_ptr ls2 None) c]> h
      | None => h
      end)).

Lemma dll_unlink h ls1 l a ls2 :
  dll h (ls1 ++ (l, a) :: ls2) → dll (unlink_heap h ls1 l ls2) (ls1 ++ ls2).
Proof.
  intros (Hnd & Hd & Hs). unfold unlink_heap, dll.
  rewrite fst_fmap_app, ?list_to_set_app_L in *; simpl in *.
  apply NoDup_middle in Hnd as (Hn & Hl1 & Hl2).
  apply dseg_app in Hs as [Hs1 [_ Hs2]]. split_and!; [done| |].
  - clear Hs1 Hs2. destruct ls1 as [|[q c] ls1 _] using rev_ind; rewrite ?last_snoc;
      destruct ls2 as [|[r b] ls2]; unfold id;
      rewrite ?fst_fmap_app, ?list_to_set_app_L in *; simpl in *;
      rewrite dom_delete_L, ?dom_insert_L, Hd; clear Hd Hn; set_solver.
  - rewrite dseg_delete by notin. rewrite dseg_app. split.
    + destruct ls1 as [|[q c] ls1 _] using rev_ind; [done|].
      rewrite last_snoc, removelast_last. rewrite fst_fmap_app, <-app_assoc in *. simpl in *.
      apply NoDup_middle in Hn as (Hn & Hq1 & Hq2).
      destruct ls2 as [|[r b] ls2]; simpl in *; [by eapply dseg_set_next|].
      apply NoDup_middle in Hn as (Hn & Hr1 & Hr2). apply not_elem_of_cons in Hq2 as [Hq2 _].
      apply dseg_insert; [notin|]. by eapply dseg_set_next.
    + destruct ls2 as [|[r b] ls2]; [done|].
      eapply (dseg_set_prev _ (Some l)); [by apply NoDup_app in Hn as (_ & _ & ?)|].
      destruct ls1 as [|[q c] ls1 _] using rev_ind; [done|].
      rewrite last_snoc. apply dseg_insert; [|done].
      rewrite fst_fmap_app, <-app_assoc in Hn. simpl in Hn. by apply NoDup_middle in Hn as (_ & _ & ?).
Qed.

(** Linking a fresh node in front of the node [r]. *)
Lemma dll_insert_before h ls1 r b ls2 l a :
  dll h (ls1 ++ (r, b) :: ls2) → h !! l = None →
  dll (<[r := DNode (Some l) (hd_ptr ls2 None) b]>
         (match last ls1 with
          | Some (q, c) => <[q := DNode (last_ptr (removelast ls1) None) (Some l) c]>
          | None => id
          end (<[l := DNode (last_ptr ls1 None) (Some r) a]> h)))
      (ls1 ++ (l, a) :: (r, b) :: ls2).
Proof.
  intros Hdll Hl. pose proof (dll_fresh _ _ _ Hdll Hl) as Hf.
  destruct Hdll as (Hnd & Hd & Hs). unfold dll.
  rewrite fst_fmap_app, ?list_to_set_app_L in *; simpl in *.
  apply not_elem_of_app in Hf as [Hl1 [Hlr Hl2]%not_elem_of_cons].
  pose proof Hnd as (Hn & Hr1 & Hr2)%NoDup_middle.
  apply dseg_app in Hs as [Hs1 [_ Hs2]]. split_and!.
  - apply NoDup_middle. split_and!; [done|done|notin].
  - clear Hs1 Hs2. destruct ls1 as [|[q c] ls1 _] using rev_ind; unfold id;
      rewrite ?last_snoc, ?fst_fmap_app, ?list_to_set_app_L in *; simpl in *;
      rewrite ?dom_insert_L, Hd; clear; set_solver.
  - rewrite dseg_app. simpl.
    destruct ls1 as [|[q c] ls1 _] using rev_ind; unfold id; simpl.
    + rewrite lookup_insert_ne, !lookup_insert_eq by congruence.
      split_and!; try done. by rewrite !dseg_insert.
    + rewrite last_snoc, removelast_last, last_ptr_snoc in *.
      rewrite fst_fmap_app, <-app_assoc in *; simpl in *.
      apply NoDup_middle in Hn as (_ & Hq1 & Hq2).
      apply not_elem_of_app in Hl1 as [Hl1 Hlq%not_elem_of_cons].
      apply not_elem_of_app in Hr1 as [Hr1 Hrq%not_elem_of_cons].
      split; [|split_and!].
      * apply dseg_insert; [notin; apply Hrq|]. eapply dseg_set_next; [done|].
        apply dseg_insert; [notin; apply Hlq|done].
      * destruct Hlq as [Hlq _]. rewrite !lookup_insert_ne by congruence. by rewrite lookup_insert_eq.
      * by rewrite lookup_insert_eq.
      * by rewrite !dseg_insert.
Qed.

(** Overwriting a payload. *)
Lemma dll_set_val h ls1 l a a' ls2 :
  dll h (ls1 ++ (l, a) :: ls2) →
  dll (<[l := DNode (last_ptr ls1 None) (hd_ptr ls2 None) a']> h) (ls1 ++ (l, a') :: ls2).
Proof.
  intros (Hnd & Hd & Hs). pose proof (dseg_lookup _ _ _ _ _ _ _ Hs) as Hl.
  rewrite fst_fmap_app in *; simpl in *. unfold dll. rewrite fst_fmap_app. simpl.
  split_and!; [done|by erewrite dom_store|].
  apply NoDup_middle in Hnd as (Hn & Hl1 & Hl2).
  apply dseg_app in Hs as [Hs1 [_ Hs2]]. rewrite dseg_app. simpl.
  by rewrite !dseg_insert, lookup_insert_eq.
Qed.
End surgery.
