(* ===== verification/Monitor.v ===== *)
(** Critical sections and condition variables.

    The thread-safe [_ex] variants take a mutex, run the sequential operation
    and release it; the blocking ones re-test their guard in a loop around a
    condition wait.  Under mutual exclusion an execution of many threads is a
    sequence of whole critical sections, so an interleaving is a list of
    operations.  One pass of a blocking operation either returns ([Ret]) or
    goes to sleep with the mutex released ([Wait]); a thread that is woken up
    (also spuriously) runs another pass. *)

From S2P Require Import Prelude.

Inductive outcome (R : Type) := Ret (r : R) | Wait.
Arguments Ret {R} r.
Arguments Wait {R}.

Section monitor.
Context {S O R : Type} (exec : O → S → option (outcome R * S)).

(** The critical sections of an interleaving, in the order in which the mutex
    was acquired, with the outcome of each. *)
Fixpoint interleave (ops : list O) (s : S) : option (list (O * outcome R) * S) :=
  match ops with
  | [] => Some ([], s)
  | o :: ops' =>
      '(r, s1) ← exec o s;
      '(tr, s2) ← interleave ops' s1;
      Some ((o, r) :: tr, s2)
  end.

Lemma interleave_app ops1 ops2 s :
  interleave (ops1 ++ ops2) s =
  '(tr1, s1) ← interleave ops1 s;
  '(tr2, s2) ← interleave ops2 s1;
  Some (tr1 ++ tr2, s2).
Proof.
  revert s. induction ops1 as [|o ops1 IH]; intros s; simpl.
  - by destruct (interleave ops2 s) as [[]|].
  - destruct (exec o s) as [[r s1]|]; simpl; [|done]. rewrite IH.
    destruct (interleave ops1 s1) as [[tr1 s2]|]; simpl; [|done].
    by destruct (interleave ops2 s2) as [[]|].
Qed.

(** Rule induction over interleavings: an invariant that every critical
    section preserves, and that makes every critical section defined, holds
    at the end of every interleaving, which is then defined too. *)
Lemma interleave_invariant (Inv : S → Prop) (ok : O → S → Prop) ops s :
  (∀ o s, Inv s → ok o s → ∃ r s', exec o s = Some (r, s') ∧ Inv s') →
  (∀ o s, ok o s) →
  Inv s → ∃ tr s', interleave ops s = Some (tr, s') ∧ Inv s'.
Proof.
  intros Hstep Hok. revert s. induction ops as [|o ops IH]; intros s Hs; simpl; [eauto|].
  destruct (Hstep o s Hs (Hok o s)) as (r & s1 & -> & Hs1). simpl.
  destruct (IH s1 Hs1) as (tr & s2 & -> & Hs2). simpl. eauto.
Qed.
End monitor.

(** * First-in first-out under every interleaving

    [put o r] and [got o r] are the elements that the critical section [o]
    with outcome [r] put into the shared buffer and took out of it. *)

Section fifo.
Context {S O R E : Type} (exec : O → S → option (outcome R * S)).
Context (put got : O → outcome R → list E).
Context (rep : S → list E → Prop) (ok : O → Prop).

Definition all_put (tr : list (O * outcome R)) : list E := tr ≫= λ e, put e.1 e.2.
Definition all_got (tr : list (O * outcome R)) : list E := tr ≫= λ e, got e.1 e.2.

Lemma interleave_fifo ops s xs :
  (∀ o s xs, rep s xs → ok o →
     ∃ r s' xs', exec o s = Some (r, s') ∧ rep s' xs' ∧ got o r ++ xs' = xs ++ put o r) →
  Forall ok ops → rep s xs →
  ∃ tr s' xs', interleave exec ops s = Some (tr, s') ∧ rep s' xs' ∧
    all_got tr ++ xs' = xs ++ all_put tr.
Proof.
  intros Hstep Hops. revert s xs. induction Hops as [|o ops Ho Hops IH]; intros s xs Hr; simpl.
  - do 3 eexists. split; [done|]. split; [done|]. simpl. by rewrite app_nil_r.
  - destruct (Hstep o s xs Hr Ho) as (r & s1 & xs1 & -> & Hr1 & Heq). simpl.
    destruct (IH s1 xs1 Hr1) as (tr & s2 & xs2 & -> & Hr2 & Heq2). simpl.
    do 3 eexists. split; [done|]. split; [done|].
    change (all_got ((o, r) :: tr)) with (got o r ++ all_got tr).
    change (all_put ((o, r) :: tr)) with (put o r ++ all_put tr).
    by rewrite <-app_assoc, Heq2, !app_assoc, Heq.
Qed.
End fifo.
