(* ===== verification/LinkedQueue.v ===== *)
(** The linked queue of src/shared/queue_linked_op.c: a FIFO of heap nodes
    with a pointer to either end.  Its nodes are handed out to the callers,
    which keep them to move an element to the back later on. *)

From S2P Require Import Prelude Dll Monitor.

(** [w_linked_queue_t], without its mutex and condition variable, together
    with the heap of its [w_linked_queue_node_t] nodes. *)
Record lqueue := LQueue {
  lq_elements : Z;
  lq_first : ptr;
  lq_last : ptr;
  lq_nodes : heap (dnode ptr)
}.

Definition linked_queue_init : lqueue := LQueue 0 NULL NULL ∅.

(** [linked_queue_append_node] *)
Definition linked_queue_append_node (q : lqueue) (node : ptr) : option lqueue :=
  match lq_first q with
  | None =>
      h ← store (lq_nodes q) node (set_prev NULL);
      h ← store h node (set_next NULL);
      Some (LQueue (wrap32 (lq_elements q + 1)) node node h)
  | Some _ =>
      h ← store (lq_nodes q) (lq_last q) (set_next node);
      h ← store h node (set_prev (lq_last q));
      h ← store h node (set_next NULL);
      Some (LQueue (wrap32 (lq_elements q + 1)) (lq_first q) node h)
  end.

(** [linked_queue_pop_node] *)
Definition linked_queue_pop_node (q : lqueue) : option lqueue :=
  let tmp := lq_first q in
  n ← load (lq_nodes q) (lq_first q);
  let first := dn_next n in
  match first with
  | Some _ =>
      h ← store (lq_nodes q) first (set_prev NULL);
      h ← free h tmp;
      Some (LQueue (wrap32 (lq_elements q - 1)) first (lq_last q) h)
  | None =>
      h ← free (lq_nodes q) tmp;
      Some (LQueue (wrap32 (lq_elements q - 1)) first NULL h)
  end.

(** [linked_queue_push]; [l] is the address [os_calloc] returned. *)
Definition linked_queue_push (l : loc) (q : lqueue) (data : ptr) : option (ptr * lqueue) :=
  let h := <[l := DNode NULL NULL data]> (lq_nodes q) in
  q ← linked_queue_append_node (LQueue (lq_elements q) (lq_first q) (lq_last q) h) (Some l);
  Some (Some l, q).

(** [linked_queue_unlink_and_push_node] *)
Definition linked_queue_unlink_and_push_node (q : lqueue) (node : ptr) : option lqueue :=
  n ← load (lq_nodes q) node;
  match dn_next n with
  | None => Some q
  | Some _ =>
      h ← store (lq_nodes q) (dn_next n) (set_prev (dn_prev n));
      '(first, h) ← match dn_prev n with
                    | Some _ => h ← store h (dn_prev n) (set_next (dn_next n));
                                Some (lq_first q, h)
                    | None => Some (dn_next n, h)
                    end;
      h ← store h node (set_prev NULL);
      h ← store h node (set_next NULL);
      linked_queue_append_node (LQueue (wrap32 (lq_elements q - 1)) first (lq_last q) h) node
  end.

(** [linked_queue_pop] *)
Definition linked_queue_pop (q : lqueue) : option (ptr * lqueue) :=
  match lq_first q with
  | None => Some (NULL, q)
  | Some _ =>
      n ← load (lq_nodes q) (lq_first q);
      q ← linked_queue_pop_node q;
      Some (dn_val n, q)
  end.

(** One pass of the guarded critical section of [linked_queue_pop_ex]: the
    loop leaves with the data, or waits when [linked_queue_pop] gave NULL. *)
Definition linked_queue_pop_ex (q : lqueue) : option (outcome ptr * lqueue) :=
  '(data, q) ← linked_queue_pop q;
  if not_null data then Some (Ret data, q) else Some (Wait, q).

(** [linked_queue_push_ex]: never waits. *)
Definition linked_queue_push_ex (l : loc) (q : lqueue) (data : ptr) :
    option (outcome ptr * lqueue) :=
  '(n, q) ← linked_queue_push l q data;
  Some (Ret n, q).

(** [linked_queue_free] releases the queue structure and nothing else: the
    result is what stays allocated. *)
Definition linked_queue_free (q : lqueue) : heap (dnode ptr) := lq_nodes q.

(** * Representation *)

(** The queue holds the nodes [ls], oldest first. *)
Definition lq_rep (q : lqueue) (ls : list (loc * ptr)) : Prop :=
  dll (lq_nodes q) ls ∧ lq_first q = hd_ptr ls NULL ∧ lq_last q = last_ptr ls NULL ∧
  lq_elements q = wrap32 (length ls).

(** Executable reading of the contents. *)
Definition lq_contents (q : lqueue) : list ptr :=
  (walk (size (lq_nodes q)) (lq_nodes q) (lq_first q)).*2.

Lemma lq_rep_init : lq_rep linked_queue_init [].
Proof. split_and!; try done. apply dll_nil. Qed.

Lemma lq_rep_contents q ls : lq_rep q ls → lq_contents q = ls.*2.
Proof.
  intros (Hd & Hf & _ & _). unfold lq_contents. rewrite (dll_size _ _ Hd), Hf.
  by rewrite dll_walk.
Qed.

Lemma wrap32_len_snoc {A} (ls : list A) x :
  wrap32 (wrap32 (length ls) + 1) = wrap32 (length (ls ++ [x])).
Proof. rewrite wrap32_add_l, length_app. f_equal. simpl. lia. Qed.

Lemma wrap32_len_cons {A} (ls : list A) x :
  wrap32 (wrap32 (length (x :: ls)) - 1) = wrap32 (length ls).
Proof. rewrite wrap32_sub_l. f_equal. simpl. lia. Qed.

(** Appending a node that is allocated but linked nowhere. *)
Lemma append_node_spec e h ls l p n a :
  dll h ls → h !! l = None → e = wrap32 (length ls) →
  ∃ q', linked_queue_append_node
          (LQueue e (hd_ptr ls NULL) (last_ptr ls NULL) (<[l := DNode p n a]> h)) (Some l)
        = Some q' ∧ lq_rep q' (ls ++ [(l, a)]).
Proof.
  intros Hd Hl ->. pose proof (dll_snoc _ _ l a Hd Hl) as Hsn.
  pose proof (dll_fresh _ _ _ Hd Hl) as Hf. destruct Hd as (Hnd & _ & Hs).
  unfold linked_queue_append_node. destruct ls as [|[r b] ls' _] using rev_ind.
  - simpl. rewrite lookup_insert_eq. simpl. rewrite lookup_insert_eq. simpl.
    eexists. split; [done|]. rewrite !insert_insert_eq. by split_and!.
  - rewrite last_ptr_snoc, last_snoc, removelast_last in *.
    apply notin_snoc in Hf as [_ Hlr].
    destruct (hd_ptr (ls' ++ [(r, b)]) NULL) eqn:Ehd;
      [|by rewrite hd_ptr_app in Ehd; destruct ls' as [|[]]].
    apply dseg_lookup in Hs. simpl in *.
    rewrite lookup_insert_ne, Hs by done. simpl.
    rewrite lookup_insert_ne, lookup_insert_eq by done. simpl.
    rewrite lookup_insert_eq. simpl. eexists. split; [done|].
    rewrite insert_insert_eq, (insert_insert_ne _ l r), insert_insert_eq by done.
    split_and!; simpl; [done|by destruct ls' as [|[]]|by rewrite last_ptr_snoc|].
    apply wrap32_len_snoc.
Qed.

Lemma push_spec q ls l data :
  lq_rep q ls → lq_nodes q !! l = None →
  ∃ q', linked_queue_push l q data = Some (Some l, q') ∧ lq_rep q' (ls ++ [(l, data)]).
Proof.
  intros (Hd & Hf & Hl & He) Hfr. unfold linked_queue_push. rewrite Hf, Hl.
  destruct (append_node_spec (lq_elements q) _ _ l NULL NULL data Hd Hfr He) as (q' & -> & Hr).
  simpl. eauto.
Qed.

Lemma pop_node_spec q l a ls :
  lq_rep q ((l, a) :: ls) →
  ∃ q', linked_queue_pop_node q = Some q' ∧ lq_rep q' ls ∧ lq_nodes q' !! l = None.
Proof.
  intros (Hd & Hf & Hl & He). pose proof (dll_unlink _ [] l a ls Hd) as Hu.
  destruct Hd as (Hnd & _ & Hs1 & Hs2). unfold linked_queue_pop_node. rewrite Hf. simpl in *.
  rewrite Hs1. simpl. unfold unlink_heap in Hu. simpl in Hu. destruct ls as [|[r b] ls]; simpl.
  - eexists. split; [done|]. simpl. rewrite lookup_delete_eq.
    split_and!; try done. simpl. by rewrite He.
  - destruct Hs2 as [Hr Hs2]. rewrite Hr. simpl.
    apply NoDup_cons in Hnd as [Hnd _]. rewrite lookup_insert_ne, Hs1 by (intros ->; set_solver).
    simpl. eexists. split; [done|]. simpl. rewrite lookup_delete_eq.
    unfold lq_rep. split_and!; try done; simpl.
    rewrite He. apply (wrap32_len_cons ((r, b) :: ls) (l, a)).
Qed.

Lemma pop_spec q ls :
  lq_rep q ls →
  match ls with
  | [] => linked_queue_pop q = Some (NULL, q)
  | (l, a) :: ls' => ∃ q', linked_queue_pop q = Some (a, q') ∧ lq_rep q' ls' ∧ lq_nodes q' !! l = None
  end.
Proof.
  intros Hr. unfold linked_queue_pop. destruct ls as [|[l a] ls].
  - destruct Hr as (_ & -> & _). done.
  - destruct (pop_node_spec _ _ _ _ Hr) as (q' & -> & Hr' & Hfr).
    destruct Hr as (Hd & -> & _). destruct Hd as (_ & _ & Hs & _).
    simpl. rewrite Hs. simpl. eauto.
Qed.

Lemma unlink_and_push_spec q ls1 l a ls2 :
  lq_rep q (ls1 ++ (l, a) :: ls2) →
  ∃ q', linked_queue_unlink_and_push_node q (Some l) = Some q' ∧
        lq_rep q' (ls1 ++ ls2 ++ [(l, a)]).
Proof.
  intros (Hd & Hf & Hla & He). pose proof (dll_unlink _ _ _ _ _ Hd) as Hu.
  unfold linked_queue_unlink_and_push_node.
  pose proof Hd as (Hnd & _ & Hs). pose proof (dseg_lookup _ _ _ _ _ _ _ Hs) as Hl.
  simpl. rewrite Hl. simpl. destruct ls2 as [|[r b] ls2].
  { exists q. by split_and!. }
  rewrite fmap_app in Hnd. apply NoDup_middle in Hnd as (Hnd & Hl1 & Hl2).
  simpl in *. apply not_elem_of_cons in Hl2 as [Hlr Hl2].
  apply NoDup_middle in Hnd as (Hnd & Hr1 & Hr2).
  pose proof (dseg_lookup _ _ (ls1 ++ [(l, a)]) _ _ ls2 _
    ltac:(rewrite <-app_assoc; exact Hs)) as Hr.
  rewrite Hr. simpl. rewrite last_ptr_snoc.
  pose proof (append_node_spec (wrap32 (lq_elements q - 1)) _ _ l NULL NULL a Hu) as Hap.
  unfold unlink_heap in Hap. rewrite insert_delete_eq, lookup_delete_eq in Hap.
  assert (wrap32 (lq_elements q - 1) = wrap32 (length (ls1 ++ (r, b) :: ls2))) as Hlen.
  { rewrite He, wrap32_sub_l, !length_app. f_equal. simpl. lia. }
  specialize (Hap eq_refl Hlen). rewrite <-app_assoc in Hap. simpl in Hap.
  destruct ls1 as [|[q0 c] ls1 _] using rev_ind.
  - simpl in *. rewrite lookup_insert_ne, Hl by done. simpl.
    rewrite lookup_insert_eq. simpl. rewrite !insert_insert_eq.
    rewrite Hla, !last_ptr_cons. by rewrite !last_ptr_cons in Hap.
  - rewrite last_ptr_snoc, last_snoc, removelast_last in *.
    assert (q0 ≠ l ∧ q0 ≠ r) as [Hql Hqr].
    { rewrite fmap_app in Hl1, Hr1. simpl in *.
      apply not_elem_of_app in Hl1 as [_ ?%not_elem_of_cons].
      apply not_elem_of_app in Hr1 as [_ ?%not_elem_of_cons]. split; naive_solver. }
    pose proof (dseg_lookup _ _ ls1 q0 c ((l, a) :: (r, b) :: ls2) _
      ltac:(rewrite <-app_assoc in Hs; exact Hs)) as Hq. simpl.
    rewrite lookup_insert_ne, Hq by done. simpl.
    rewrite !lookup_insert_ne, Hl by done. simpl.
    rewrite lookup_insert_eq. simpl. rewrite insert_insert_eq.
    rewrite (insert_insert_ne _ q0 r) by done.
    replace (lq_first q) with (hd_ptr ((ls1 ++ [(q0, c)]) ++ (r, b) :: ls2) NULL);
      [|rewrite Hf; by destruct ls1 as [|[]]].
    replace (lq_last q) with (last_ptr ((ls1 ++ [(q0, c)]) ++ (r, b) :: ls2) NULL); [done|].
    rewrite Hla. by rewrite !last_ptr_app, !last_ptr_cons.
Qed.

(** * Interleavings of producers and consumers *)

Inductive lq_op := LPush (data : ptr) | LPop.

Section fifo.
(** The allocator: [os_calloc] returns an address that is not in use. *)
Context (calloc : heap (dnode ptr) → loc).
Context (calloc_fresh : ∀ h, h !! calloc h = None).

Definition lq_exec (o : lq_op) (q : lqueue) : option (outcome ptr * lqueue) :=
  match o with
  | LPush data => linked_queue_push_ex (calloc (lq_nodes q)) q data
  | LPop => linked_queue_pop_ex q
  end.

(** What a critical section put into the queue and took out of it. *)
Definition lq_put (o : lq_op) (r : outcome ptr) : list ptr :=
  match o with LPush d => [d] | LPop => [] end.
Definition lq_got (o : lq_op) (r : outcome ptr) : list ptr :=
  match o, r with LPop, Ret d => [d] | _, _ => [] end.

(** Clients queue data, not null pointers. *)
Definition lq_ok (o : lq_op) : Prop :=
  match o with LPush d => not_null d = true | LPop => True end.

Lemma lq_exec_step o q xs :
  (∃ ls, lq_rep q ls ∧ xs = ls.*2 ∧ Forall (λ x, not_null x = true) xs) → lq_ok o →
  ∃ r q' xs', lq_exec o q = Some (r, q') ∧
    (∃ ls, lq_rep q' ls ∧ xs' = ls.*2 ∧ Forall (λ x, not_null x = true) xs') ∧
    lq_got o r ++ xs' = xs ++ lq_put o r.
Proof.
  intros (ls & Hr & -> & Hnn) Ho. destruct o as [d|]; simpl.
  - destruct (push_spec q ls (calloc (lq_nodes q)) d Hr (calloc_fresh _)) as (q' & Hq & Hr').
    unfold linked_queue_push_ex. rewrite Hq. simpl. do 3 eexists. split; [done|].
    split; [|done]. eexists. split; [done|]. rewrite fmap_app. split; [done|].
    apply Forall_app. by repeat constructor.
  - pose proof (pop_spec q ls Hr) as Hp. unfold linked_queue_pop_ex. destruct ls as [|[l a] ls].
    + rewrite Hp. simpl. do 3 eexists. split; [done|]. split; [|done]. by exists [].
    + destruct Hp as (q' & -> & Hr' & _). simpl in *. apply Forall_cons in Hnn as [Ha Hnn].
      rewrite Ha. do 3 eexists. split; [done|]. simpl. rewrite app_nil_r. eauto.
Qed.

(** C27: Producers and consumers sharing a queue, whatever the interleaving of
    their critical sections: no pointer is mis-used, and the data received
    so far followed by the data still queued is the data sent, in order. *)
Theorem linked_queue_fifo ops :
  Forall lq_ok ops →
  ∃ tr q', interleave lq_exec ops linked_queue_init = Some (tr, q') ∧
    all_got lq_got tr ++ lq_contents q' = all_put lq_put tr.
Proof.
  intros Hops.
  destruct (interleave_fifo lq_exec lq_put lq_got _ lq_ok ops linked_queue_init []
              lq_exec_step Hops) as (tr & q' & xs & Hi & (ls & Hr & -> & _) & Heq).
  - exists []. split_and!; [apply lq_rep_init|done|done].
  - exists tr, q'. split; [done|]. by rewrite (lq_rep_contents _ _ Hr).
Qed.
End fifo.

(** An allocator that the hypothesis describes. *)
Definition bump_alloc {A} (h : heap A) : loc := fresh (dom h).
Lemma bump_alloc_fresh {A} (h : heap A) : h !! bump_alloc h = None.
Proof. apply not_elem_of_dom. apply is_fresh. Qed.

Lemma linked_queue_fifo_witness :
  ∃ tr q', interleave (lq_exec bump_alloc) [LPop; LPush (Some 7%positive); LPush (Some 9%positive); LPop]
             linked_queue_init = Some (tr, q') ∧
    all_got lq_got tr ++ lq_contents q' = all_put lq_put tr.
Proof.
  apply (linked_queue_fifo bump_alloc bump_alloc_fresh). repeat constructor.
Defined.

(** [linked_queue_unlink_and_push_node] moves its node to the back of the
    queue and changes nothing else. *)
Theorem linked_queue_requeue q ls1 l a ls2 :
  lq_rep q (ls1 ++ (l, a) :: ls2) →
  ∃ q', linked_queue_unlink_and_push_node q (Some l) = Some q' ∧
        lq_rep q' (ls1 ++ ls2 ++ [(l, a)]) ∧ lq_elements q' = lq_elements q.
Proof.
  intros Hr. destruct (unlink_and_push_spec _ _ _ _ _ Hr) as (q' & -> & Hr').
  exists q'. split_and!; [done..|]. destruct Hr as (_ & _ & _ & ->), Hr' as (_ & _ & _ & ->).
  f_equal. rewrite !length_app. simpl. lia.
Qed.

Definition lq_three : lqueue :=
  LQueue 3 (Some 1%positive) (Some 3%positive)
    {[ 1%positive := DNode NULL (Some 2%positive) (Some 10%positive);
       2%positive := DNode (Some 1%positive) (Some 3%positive) (Some 20%positive);
       3%positive := DNode (Some 2%positive) NULL (Some 30%positive) ]}.

Lemma lq_three_rep :
  lq_rep lq_three ([(1%positive, Some 10%positive)] ++ (2%positive, Some 20%positive)
                   :: [(3%positive, Some 30%positive)]).
Proof.
  split_and!; [|reflexivity..]. split_and!; [|reflexivity|by vm_compute].
  apply (bool_decide_unpack _). by vm_compute.
Qed.

Lemma linked_queue_requeue_witness :
  ∃ q', linked_queue_unlink_and_push_node lq_three (Some 2%positive) = Some q' ∧
        lq_rep q' [(1%positive, Some 10%positive); (3%positive, Some 30%positive);
                   (2%positive, Some 20%positive)] ∧ lq_elements q' = lq_elements lq_three.
Proof.
  apply (linked_queue_requeue lq_three [(1%positive, Some 10%positive)] 2%positive
           (Some 20%positive) [(3%positive, Some 30%positive)]).
  apply lq_three_rep.
Defined.
