(* ===== verification/ListOp.v ===== *)
(** The cursor list of src/shared/list_op.c: a doubly linked list with a
    current node, an optional maximum size and an optional destructor. *)

From S2P Require Import Prelude Dll.

(** [OSList], without its locks, with the heap of its [OSListNode]s.
    [ol_freefn] says whether [free_data_function] is set; the operations
    report the data they pass to it. *)
Record oslist := OSList {
  ol_first : ptr;
  ol_last : ptr;
  ol_cur : ptr;
  ol_size : Z;
  ol_max : Z;
  ol_freefn : bool;
  ol_nodes : heap (dnode ptr)
}.

Definition with_cur (s : oslist) (c : ptr) : oslist :=
  OSList (ol_first s) (ol_last s) c (ol_size s) (ol_max s) (ol_freefn s) (ol_nodes s).
Definition with_links (s : oslist) (first last : ptr) (size : Z) (h : heap (dnode ptr)) : oslist :=
  OSList first last (ol_cur s) size (ol_max s) (ol_freefn s) h.

(** [OSList_Create]; [mem] says whether the allocation succeeded. *)
Definition OSList_Create (mem : bool) : option oslist :=
  if mem then Some (OSList NULL NULL NULL 0 0 false ∅) else None.

(** [OSList_SetMaxSize] *)
Definition OSList_SetMaxSize (lst : option oslist) (max_size : Z) : Z * option oslist :=
  match lst with
  | None => (0, None)
  | Some s => if max_size <=? 1 then (0, Some s)
              else (1, Some (OSList (ol_first s) (ol_last s) (ol_cur s) (ol_size s) max_size
                               (ol_freefn s) (ol_nodes s)))
  end.

(** [OSList_SetFreeDataPointer] *)
Definition OSList_SetFreeDataPointer (lst : option oslist) (fn : bool) : Z * option oslist :=
  match lst with
  | None => (0, None)
  | Some s => (1, Some (OSList (ol_first s) (ol_last s) (ol_cur s) (ol_size s) (ol_max s)
                          fn (ol_nodes s)))
  end.

(** [OSList_GetFirstNode], [OSList_GetLastNode] and [OSList_GetLastNode_group] *)
Definition OSList_GetFirstNode (s : oslist) : ptr * oslist := (ol_first s, with_cur s (ol_first s)).
Definition OSList_GetLastNode (s : oslist) : ptr * oslist := (ol_last s, with_cur s (ol_last s)).
Definition OSList_GetLastNode_group (s : oslist) : ptr * oslist :=
  (ol_last s, with_cur s (ol_last s)).

(** [OSList_GetNextNode] *)
Definition OSList_GetNextNode (s : oslist) : option (ptr * oslist) :=
  match ol_cur s with
  | None => Some (NULL, s)
  | Some _ => n ← load (ol_nodes s) (ol_cur s); Some (dn_next n, with_cur s (dn_next n))
  end.

(** [OSList_GetPrevNode] *)
Definition OSList_GetPrevNode (s : oslist) : option (ptr * oslist) :=
  match ol_cur s with
  | None => Some (NULL, s)
  | Some _ => n ← load (ol_nodes s) (ol_cur s); Some (dn_prev n, with_cur s (dn_prev n))
  end.

(** [OSList_GetCurrentlyNode] *)
Definition OSList_GetCurrentlyNode (s : oslist) : ptr := ol_cur s.

(** [OSList_DeleteOldestNode]; on an empty list it only logs an error. *)
Definition OSList_DeleteOldestNode (s : oslist) : option oslist :=
  match ol_first s with
  | Some _ =>
      n ← load (ol_nodes s) (ol_first s);
      let next := dn_next n in
      '(last, h) ← match next with
                   | Some _ => h ← store (ol_nodes s) next (set_prev NULL); Some (ol_last s, h)
                   | None => Some (next, ol_nodes s)
                   end;
      h ← free h (ol_first s);
      Some (with_links s next last (ol_size s) h)
  | None => Some s
  end.

(** The body of [OSList_DeleteThisNode] after its null check. *)
Definition OSList_unlink (s : oslist) (thisnode : ptr) : option oslist :=
  n ← load (ol_nodes s) thisnode;
  let prev := dn_prev n in
  let next := dn_next n in
  '(first, last, h) ←
    match prev, next with
    | Some _, Some _ =>
        h ← store (ol_nodes s) prev (set_next next);
        h ← store h next (set_prev prev);
        Some (ol_first s, ol_last s, h)
    | Some _, None =>
        h ← store (ol_nodes s) prev (set_next NULL);
        Some (ol_first s, prev, h)
    | None, Some _ =>
        h ← store (ol_nodes s) next (set_prev NULL);
        Some (next, ol_last s, h)
    | None, None => Some (NULL, NULL, ol_nodes s)
    end;
  h ← free h thisnode;
  Some (with_cur (with_links s first last (int32 (ol_size s - 1)) h) next).

(** [OSList_DeleteThisNode] *)
Definition OSList_DeleteThisNode (s : oslist) (thisnode : ptr) : option oslist :=
  match thisnode with None => Some s | Some _ => OSList_unlink s thisnode end.

(** [OSList_DeleteCurrentlyNode], whose body is the same code on [cur_node]. *)
Definition OSList_DeleteCurrentlyNode (s : oslist) : option oslist :=
  match ol_cur s with None => Some s | Some _ => OSList_unlink s (ol_cur s) end.

(** [OSList_AddData]; [mem] is the address [calloc] returned, NULL on failure.
    The result is the last node, the data handed to the destructor, and the
    list. *)
Definition OSList_AddData (mem : ptr) (s : oslist) (data : ptr) :
    option (ptr * list ptr * oslist) :=
  match mem with
  | None => Some (NULL, [], s)
  | Some l =>
      let h := <[l := DNode (ol_last s) NULL data]> (ol_nodes s) in
      let first := match ol_first s with None => Some l | p => p end in
      h ← match ol_last s with
          | Some _ => store h (ol_last s) (set_next (Some l))
          | None => Some h
          end;
      let size := int32 (ol_size s + 1) in
      if negb (ol_max s =? 0) then
        f ← load h first;
        if (ol_max s <? size) && not_null (dn_next f) then
          h ← store h (dn_next f) (set_prev NULL);
          h ← free h first;
          Some (Some l, if ol_freefn s then [dn_val f] else [],
                with_links s (dn_next f) (Some l) (int32 (size - 1)) h)
        else Some (Some l, [], with_links s first (Some l) size h)
      else Some (Some l, [], with_links s first (Some l) size h)
  end.

(** The loop of [OSList_CleanNodes], one unit of fuel per node. *)
Fixpoint clean_loop (fuel : nat) (fn : bool) (h : heap (dnode ptr)) (first : ptr) :
    option (list ptr * heap (dnode ptr)) :=
  match first with
  | None => Some ([], h)
  | Some _ =>
      match fuel with
      | O => None
      | S k =>
          n ← load h first;
          h ← free h first;
          '(freed, h) ← clean_loop k fn h (dn_next n);
          Some (if fn then dn_val n :: freed else freed, h)
      end
  end.

(** [OSList_CleanNodes]: the data given to the destructor, and the list. *)
Definition OSList_CleanNodes (lst : option oslist) : option (list ptr * option oslist) :=
  match lst with
  | None => Some ([], None)
  | Some s =>
      '(freed, h) ← clean_loop (size (ol_nodes s)) (ol_freefn s) (ol_nodes s) (ol_first s);
      Some (freed, Some (OSList NULL NULL NULL 0 (ol_max s) (ol_freefn s) h))
  end.

(** [OSList_CleanOnlyNodes]: the same loop without the destructor. *)
Definition OSList_CleanOnlyNodes (lst : option oslist) : option (option oslist) :=
  match lst with
  | None => Some None
  | Some s =>
      '(_, h) ← clean_loop (size (ol_nodes s)) false (ol_nodes s) (ol_first s);
      Some (Some (OSList NULL NULL NULL 0 (ol_max s) (ol_freefn s) h))
  end.

(** [OSList_Destroy]: the data given to the destructor, and the nodes that
    stay allocated. *)
Definition OSList_Destroy (lst : option oslist) : option (list ptr * heap (dnode ptr)) :=
  match lst with
  | None => Some ([], ∅)
  | Some s =>
      '(freed, s) ← OSList_CleanNodes (Some s);
      Some (freed, match s with Some s => ol_nodes s | None => ∅ end)
  end.

(** [OSList_GetNext] *)
Definition OSList_GetNext (s : oslist) (node : ptr) : option ptr :=
  match node with
  | None => Some NULL
  | Some _ => n ← load (ol_nodes s) node; Some (dn_next n)
  end.

(** The loop of [OSList_GetDataFromIndex]. *)
Fixpoint index_loop (fuel : nat) (h : heap (dnode ptr)) (current : ptr) (count index : Z) :
    option ptr :=
  match current with
  | None => Some NULL
  | Some _ =>
      match fuel with
      | O => None
      | S k => n ← load h current;
               if count =? index then Some (dn_val n)
               else index_loop k h (dn_next n) (int32 (count + 1)) index
      end
  end.

Definition OSList_GetDataFromIndex (s : oslist) (index : Z) : option ptr :=
  index_loop (size (ol_nodes s)) (ol_nodes s) (ol_first s) 0 index.

(** [_OSList_InsertData]: 0 on success and 1 when [calloc] fails. *)
Definition OSList_InsertData_locked (mem : ptr) (s : oslist) (node data : ptr) :
    option (Z * oslist) :=
  match mem with
  | None => Some (1, s)
  | Some l =>
      let h := <[l := DNode NULL NULL data]> (ol_nodes s) in
      '(first, last, h) ←
        match ol_first s with
        | None => Some (Some l, Some l, h)
        | Some _ =>
            match node with
            | None =>
                h ← store h (Some l) (set_prev (ol_last s));
                h ← store h (ol_last s) (set_next (Some l));
                h ← store h (Some l) (set_next NULL);
                Some (ol_first s, Some l, h)
            | Some _ =>
                nd ← load h node;
                '(first, h) ←
                  match dn_prev nd with
                  | None => h ← store h (Some l) (set_prev NULL); Some (Some l, h)
                  | Some _ =>
                      h ← store h (dn_prev nd) (set_next (Some l));
                      h ← store h (Some l) (set_prev (dn_prev nd));
                      Some (ol_first s, h)
                  end;
                h ← store h (Some l) (set_next node);
                h ← store h node (set_prev (Some l));
                Some (first, ol_last s, h)
            end
        end;
      Some (0, with_links s first last (int32 (ol_size s + 1)) h)
  end.

(** [OSList_InsertData] and [OSList_PushData] *)
Definition OSList_InsertData (mem : ptr) (s : oslist) (node data : ptr) : option (Z * oslist) :=
  OSList_InsertData_locked mem s node data.
Definition OSList_PushData (mem : ptr) (s : oslist) (data : ptr) : option (Z * oslist) :=
  OSList_InsertData_locked mem s (ol_first s) data.

(** * Representation *)

(** The links of the list hold the nodes [ls], and nothing else is allocated. *)
Definition ol_links (s : oslist) (ls : list (loc * ptr)) : Prop :=
  dll (ol_nodes s) ls ∧ ol_first s = hd_ptr ls NULL ∧ ol_last s = last_ptr ls NULL.

(** [currently_size] counts the nodes. *)
Definition ol_counts (s : oslist) (ls : list (loc * ptr)) : Prop :=
  ol_size s = length ls ∧ length ls < 2147483647.

(** The cursor is NULL or a live node. *)
Definition ol_cursor (s : oslist) (ls : list (loc * ptr)) : Prop :=
  match ol_cur s with None => True | Some c => c ∈ ls.*1 end.

Definition ol_rep (s : oslist) (ls : list (loc * ptr)) : Prop :=
  ol_links s ls ∧ ol_counts s ls ∧ ol_cursor s ls.

Lemma int32_small z : -2147483648 <= z < 2147483648 → int32 z = z.
Proof. intros. unfold int32. rewrite Z.mod_small; lia. Qed.

(** The unlinking code does what [unlink_heap] says. *)
Lemma unlink_code s ls1 l a ls2 :
  ol_links s (ls1 ++ (l, a) :: ls2) →
  ∃ s', OSList_unlink s (Some l) = Some s' ∧ ol_links s' (ls1 ++ ls2) ∧
        ol_cur s' = hd_ptr ls2 NULL ∧ ol_size s' = int32 (ol_size s - 1) ∧ ol_max s' = ol_max s.
Proof.
  intros (Hd & Hf & Hla). pose proof (dll_unlink _ _ _ _ _ Hd) as Hu.
  pose proof Hd as (Hnd & _ & Hs). pose proof (dseg_lookup _ _ _ _ _ _ _ Hs) as Hl.
  unfold OSList_unlink. simpl. rewrite Hl. simpl. unfold unlink_heap in Hu.
  rewrite fmap_app in Hnd. apply NoDup_middle in Hnd as (Hnd & Hl1 & Hl2).
  destruct ls1 as [|[q c] ls1 _] using rev_ind; destruct ls2 as [|[r b] ls2]; simpl in *.
  - rewrite Hl. simpl. eexists. by split_and!.
  - destruct Hs as (_ & Hr & _). rewrite Hr. simpl. apply not_elem_of_cons in Hl2 as [Hlr _].
    rewrite lookup_insert_ne, Hl by done. simpl. eexists. split; [done|].
    unfold ol_links. simpl. by split_and!.
  - rewrite last_ptr_snoc, last_snoc, removelast_last in *. rewrite <-app_assoc in Hs.
    apply dseg_lookup in Hs. simpl. rewrite Hs. simpl.
    apply notin_snoc in Hl1 as [_ Hlq]. rewrite lookup_insert_ne, Hl by congruence. simpl.
    eexists. split; [done|]. rewrite app_nil_r in *.
    unfold ol_links. simpl. split_and!; try done; [|by rewrite last_ptr_snoc].
    rewrite Hf. by destruct ls1 as [|[]].
  - rewrite last_ptr_snoc, last_snoc, removelast_last in *. rewrite <-app_assoc in Hs. simpl in Hs.
    pose proof (dseg_lookup _ _ _ _ _ _ _ Hs) as Hq.
    rewrite fmap_app, <-app_assoc in Hnd. simpl in Hnd.
    apply NoDup_middle in Hnd as (_ & _ & [Hqr _]%not_elem_of_cons).
    apply notin_snoc in Hl1 as [_ Hlq].
    apply not_elem_of_cons in Hl2 as [Hlr _].
    assert (ol_nodes s !! r = Some (DNode (Some l) (hd_ptr ls2 NULL) b)) as Hr.
    { pose proof (dseg_lookup (ol_nodes s) NULL (ls1 ++ [(q, c); (l, a)]) r b ls2 NULL) as Hr.
      rewrite <-app_assoc, last_ptr_app, !last_ptr_cons in Hr. exact (Hr Hs). }
    simpl. rewrite Hq. simpl. rewrite lookup_insert_ne, Hr by done. simpl.
    rewrite !lookup_insert_ne, Hl by congruence. simpl. eexists. split; [done|].
    unfold ol_links. simpl. split_and!; try done.
    + rewrite Hf. by destruct ls1 as [|[]].
    + rewrite Hla. by rewrite !last_ptr_app, !last_ptr_cons.
Qed.

(** * Adding *)

(** Whether [OSList_AddData] drops the oldest node of [ls], the list that
    already includes the new node. *)
Definition evicts (max : Z) (ls : list (loc * ptr)) : bool :=
  negb (max =? 0) && (max <? length ls) && (1 <? length ls).

(** The links of [OSList_AddData] before its size check. *)
Lemma add_links s ls l data :
  ol_links s ls → ol_nodes s !! l = None →
  ∃ h, match ol_last s with
       | Some _ => store (<[l := DNode (ol_last s) NULL data]> (ol_nodes s)) (ol_last s)
                     (set_next (Some l))
       | None => Some (<[l := DNode (ol_last s) NULL data]> (ol_nodes s))
       end = Some h ∧ dll h (ls ++ [(l, data)]) ∧
       match ol_first s with None => Some l | p => p end = hd_ptr (ls ++ [(l, data)]) NULL.
Proof.
  intros (Hd & Hf & Hla) Hl. pose proof (dll_snoc _ _ l data Hd Hl) as Hsn.
  pose proof (dll_fresh _ _ _ Hd Hl) as Hfr. destruct Hd as (_ & _ & Hs).
  rewrite Hf, Hla. destruct ls as [|[r b] ls _] using rev_ind; [by eexists|].
  rewrite last_ptr_snoc, last_snoc, removelast_last in *.
  apply notin_snoc in Hfr as [_ Hlr]. apply dseg_lookup in Hs.
  eexists. simpl. rewrite lookup_insert_ne, Hs by done. split_and!; [done|done|].
  by destruct ls as [|[]].
Qed.

Lemma hd_ptr_lookup {A} (h : heap (dnode A)) l a ls :
  dll h ((l, a) :: ls) → load h (hd_ptr ((l, a) :: ls) NULL) = Some (DNode NULL (hd_ptr ls NULL) a).
Proof. intros (_ & _ & Hs & _). done. Qed.

(** Unlinking the head of a chain with a successor, as [OSList_AddData] and
    [OSList_DeleteOldestNode] do. *)
Lemma drop_head (h : heap (dnode ptr)) l a r b ls :
  dll h ((l, a) :: (r, b) :: ls) →
  ∃ h', (h1 ← store h (Some r) (set_prev NULL); free h1 (Some l)) = Some h' ∧
        dll h' ((r, b) :: ls).
Proof.
  intros Hd. pose proof (dll_unlink h [] l a ((r, b) :: ls) Hd) as Hu.
  destruct Hd as ([Hnd _]%NoDup_cons & _ & Hl & Hr & _). simpl in Hnd.
  apply not_elem_of_cons in Hnd as [Hlr _]. simpl. rewrite Hr. simpl.
  rewrite lookup_insert_ne, Hl by done. eexists. split; [done|]. exact Hu.
Qed.

Lemma add_spec s ls l data :
  ol_links s ls → ol_size s = length ls → length ls + 1 < 2147483647 →
  ol_nodes s !! l = None →
  let ls1 := ls ++ [(l, data)] in
  let ev := evicts (ol_max s) ls1 in
  ∃ s', OSList_AddData (Some l) s data =
          Some (Some l, if ev && ol_freefn s then take 1 ls1.*2 else [], s') ∧
        ol_links s' (if ev then tail ls1 else ls1) ∧
        ol_size s' = length (if ev then tail ls1 else ls1) ∧
        ol_max s' = ol_max s ∧ ol_cur s' = ol_cur s.
Proof.
  intros Hr Hsz Hlen Hl ls1 ev.
  destruct (add_links s ls l data Hr Hl) as (h & Hst & Hd & Hfst).
  unfold OSList_AddData. rewrite Hst, Hfst. cbn [mbind option_bind]. fold ls1 in Hd, Hfst |- *.
  assert (int32 (ol_size s + 1) = length ls1) as Hsz1.
  { unfold ls1. rewrite length_app. simpl. rewrite int32_small; lia. }
  rewrite Hsz1. unfold evicts in ev.
  assert (last_ptr ls1 NULL = Some l) as Hlast by apply last_ptr_snoc.
  destruct (ol_max s =? 0) eqn:Emax; simpl in ev |- *.
  { eexists. split; [done|]. split_and!; done. }
  destruct ls1 as [|[f d] ls2] eqn:Els1; [by destruct ls|].
  rewrite (hd_ptr_lookup _ _ _ _ Hd). simpl. subst ev.
  destruct ls2 as [|[g e] ls2].
  { simpl. rewrite !andb_false_r. simpl. eexists. split; [done|]. by split_and!. }
  simpl. destruct (drop_head _ _ _ _ _ _ Hd) as (h' & Hdrop & Hd').
  destruct (ol_max s <? S (S (length ls2))) eqn:Eev; simpl;
    [|eexists; split; [done|]; by split_and!].
  rewrite (proj2 (Z.ltb_lt 1 (S (S (length ls2))))) by lia. simpl.
  simpl in Hdrop. destruct (h !! g) as [ng|]; [|done]. simpl in *. rewrite Hdrop. simpl.
  destruct (ol_freefn s); eexists; (split; [done|]);
    (split_and!; [split_and!; [done|done|by simpl; rewrite <-Hlast, !last_ptr_cons]| |done|done]);
    rewrite int32_small in Hsz1 by lia; simpl in *; rewrite int32_small; lia.
Qed.


Definition ol_two (fn : bool) : oslist :=
  OSList (Some 1%positive) (Some 2%positive) NULL 2 2 fn
    {[ 1%positive := DNode NULL (Some 2%positive) (Some 10%positive);
       2%positive := DNode (Some 1%positive) NULL (Some 20%positive) ]}.

Lemma ol_two_links fn :
  ol_links (ol_two fn) [(1%positive, Some 10%positive); (2%positive, Some 20%positive)].
Proof.
  split_and!; [|reflexivity..]. split_and!; [|reflexivity|by vm_compute].
  apply (bool_decide_unpack _). by vm_compute.
Qed.


(** * Removing *)

(** Deleting a node, given or current, unlinks exactly that node, releases
    it, leaves the cursor on its successor and decrements the size: the
    representation invariant is kept. *)
Theorem OSList_Delete_refines s ls1 l a ls2 :
  ol_rep s (ls1 ++ (l, a) :: ls2) →
  ∃ s', OSList_DeleteThisNode s (Some l) = Some s' ∧ ol_rep s' (ls1 ++ ls2) ∧
        ol_cur s' = hd_ptr ls2 NULL ∧ ol_nodes s' !! l = None ∧
        (ol_cur s = Some l → OSList_DeleteCurrentlyNode s = Some s').
Proof.
  intros (Hl & [Hsz Hb] & Hc). simpl.
  destruct (unlink_code s ls1 l a ls2 Hl) as (s' & Hu & Hl' & Hcur & Hsz' & Hm).
  exists s'. rewrite length_app in *. simpl in *. split; [done|].
  assert (l ∉ (ls1 ++ ls2).*1) as Hfr.
  { destruct Hl as ((Hnd & _) & _). rewrite fmap_app in Hnd |- *.
    apply NoDup_middle in Hnd as (_ & ? & ?). by apply not_elem_of_app. }
  split_and!.
  - split_and!; [done| |].
    + split; rewrite ?Hsz', length_app, ?int32_small; lia.
    + unfold ol_cursor. rewrite Hcur. destruct ls2 as [|[r b] ls2]; [done|].
      simpl. rewrite fmap_app, elem_of_app. right. by left.
  - done.
  - destruct Hl' as ((_ & Hdom & _) & _). apply not_elem_of_dom. rewrite Hdom.
    by rewrite elem_of_list_to_set.
  - intros E. unfold OSList_DeleteCurrentlyNode. by rewrite E.
Qed.

Lemma OSList_Delete_refines_witness :
  ∃ s', OSList_DeleteThisNode (ol_two false) (Some 1%positive) = Some s' ∧
        ol_rep s' [(2%positive, Some 20%positive)] ∧
        ol_cur s' = Some 2%positive ∧ ol_nodes s' !! 1%positive = None ∧
        (NULL = Some 1%positive → OSList_DeleteCurrentlyNode (ol_two false) = Some s').
Proof.
  apply (OSList_Delete_refines (ol_two false) [] 1%positive (Some 10%positive)
           [(2%positive, Some 20%positive)]).
  split_and!; [apply ol_two_links|split; simpl; lia|exact I].
Defined.

(** [OSList_DeleteOldestNode] unlinks the oldest node but, unlike the other
    removals, leaves [currently_size] as it was and the cursor where it is. *)
Theorem OSList_DeleteOldestNode_keeps_size s l a ls :
  ol_links s ((l, a) :: ls) →
  ∃ s', OSList_DeleteOldestNode s = Some s' ∧ ol_links s' ls ∧
        ol_size s' = ol_size s ∧ ol_cur s' = ol_cur s ∧
        (ol_counts s ((l, a) :: ls) → ~ ol_counts s' ls) ∧
        (ol_cur s = Some l → OSList_GetNextNode s' = None).
Proof.
  intros (Hd & Hf & Hla). unfold OSList_DeleteOldestNode. rewrite Hf.
  rewrite (hd_ptr_lookup _ _ _ _ Hd). simpl.
  assert (∃ s', (match hd_ptr ls NULL with
     | Some _ => h ← store (ol_nodes s) (hd_ptr ls NULL) (set_prev NULL); Some (ol_last s, h)
     | None => Some (hd_ptr ls NULL, ol_nodes s)
     end ≫= λ '(last, h), match h !! l with Some _ => Some (delete l h) | None => None end
       ≫= λ h0, Some (with_links s (hd_ptr ls NULL) last (ol_size s) h0)) = Some s' ∧
     ol_links s' ls ∧ ol_size s' = ol_size s ∧ ol_cur s' = ol_cur s)
    as (s' & -> & Hl' & Hsz & Hcur).
  { destruct ls as [|[r b] ls]; simpl.
    - pose proof (dll_unlink _ [] _ _ _ Hd) as Hu. destruct Hd as (_ & _ & Hl & _).
      rewrite Hl. simpl. eexists. split; [done|]. split_and!; done.
    - destruct (drop_head _ _ _ _ _ _ Hd) as (h' & Hdrop & Hd'). simpl in Hdrop.
      destruct (ol_nodes s !! r); [|done]. simpl in *. rewrite Hdrop. simpl.
      eexists. split; [done|]. by split_and!. }
  exists s'. split_and!; try done.
  - intros [H1 _] [H2 _]. simpl in H1. lia.
  - intros E. unfold OSList_GetNextNode. rewrite Hcur, E. simpl.
    assert (ol_nodes s' !! l = None) as ->; [|done].
    destruct Hl' as ((_ & Hdom & _) & _). apply not_elem_of_dom.
    rewrite Hdom, elem_of_list_to_set. destruct Hd as ([? _]%NoDup_cons & _). done.
Qed.

Lemma OSList_DeleteOldestNode_keeps_size_witness :
  ∃ s', OSList_DeleteOldestNode (ol_two false) = Some s' ∧
        ol_links s' [(2%positive, Some 20%positive)] ∧
        ol_size s' = 2 ∧ ol_cur s' = NULL ∧
        (ol_counts (ol_two false) [(1%positive, Some 10%positive); (2%positive, Some 20%positive)]
         → ~ ol_counts s' [(2%positive, Some 20%positive)]) ∧
        (NULL = Some 1%positive → OSList_GetNextNode s' = None).
Proof.
  apply (OSList_DeleteOldestNode_keeps_size (ol_two false) 1%positive (Some 10%positive)
           [(2%positive, Some 20%positive)]). apply ol_two_links.
Defined.

(** The clean-up loop visits every node once, in order, and leaves none. *)
Lemma clean_loop_spec fn h p ls :
  NoDup ls.*1 → dseg h p ls NULL →
  ∃ h', clean_loop (length ls) fn h (hd_ptr ls NULL) = Some (if fn then ls.*2 else [], h') ∧
        dom h' = dom h ∖ list_to_set ls.*1.
Proof.
  revert h p. induction ls as [|[l a] ls IH]; intros h p Hnd Hs.
  - exists h. split; [by destruct fn|]. simpl. set_solver.
  - destruct Hs as [Hl Hs]. apply NoDup_cons in Hnd as [Hni Hnd]. simpl. rewrite Hl. simpl.
    destruct (IH (delete l h) (Some l) Hnd) as (h' & -> & Hd'); [by apply dseg_delete|].
    simpl. exists h'. split; [by destruct fn|]. rewrite Hd', dom_delete_L. set_solver +.
Qed.

(** [OSList_CleanNodes] terminates, hands every datum to the destructor once
    and in order, and releases every node; [OSList_Destroy] leaks nothing. *)
Theorem OSList_CleanNodes_total s ls :
  ol_links s ls →
  OSList_CleanNodes (Some s) =
    Some (if ol_freefn s then ls.*2 else [],
          Some (OSList NULL NULL NULL 0 (ol_max s) (ol_freefn s) ∅)) ∧
  OSList_CleanOnlyNodes (Some s) =
    Some (Some (OSList NULL NULL NULL 0 (ol_max s) (ol_freefn s) ∅)) ∧
  OSList_Destroy (Some s) = Some (if ol_freefn s then ls.*2 else [], ∅).
Proof.
  intros (Hd & Hf & _). pose proof (dll_size _ _ Hd) as Hsz. destruct Hd as (Hnd & Hdom & Hs).
  assert (∀ fn, clean_loop (size (ol_nodes s)) fn (ol_nodes s) (ol_first s) =
    Some (if fn then ls.*2 else [], ∅)) as Hc.
  { intros fn. rewrite Hsz, Hf. destruct (clean_loop_spec fn _ _ _ Hnd Hs) as (h' & -> & Hd').
    do 2 f_equal. apply dom_empty_inv_L. rewrite Hd', Hdom. set_solver +. }
  unfold OSList_Destroy, OSList_CleanNodes, OSList_CleanOnlyNodes. rewrite !Hc.
  by destruct (ol_freefn s).
Qed.

Lemma OSList_CleanNodes_total_witness :
  OSList_CleanNodes (Some (ol_two true)) =
    Some ([Some 10%positive; Some 20%positive], Some (OSList NULL NULL NULL 0 2 true ∅)) ∧
  OSList_CleanOnlyNodes (Some (ol_two true)) = Some (Some (OSList NULL NULL NULL 0 2 true ∅)) ∧
  OSList_Destroy (Some (ol_two true)) = Some ([Some 10%positive; Some 20%positive], ∅).
Proof. apply (OSList_CleanNodes_total _ _ (ol_two_links true)). Defined.

(** * Reading *)

Lemma index_loop_spec h p ls c i :
  dseg h p ls NULL → 0 <= c → c + length ls < 2147483648 →
  index_loop (length ls) h (hd_ptr ls NULL) c i =
  Some (if i <? c then NULL
        else match ls !! Z.to_nat (i - c) with Some (_, d) => d | None => NULL end).
Proof.
  revert p c. induction ls as [|[l a] ls IH]; intros p c Hs Hc Hb; simpl.
  - by destruct (i <? c).
  - destruct Hs as [Hl Hs]. rewrite Hl. simpl. destruct (Z.eqb_spec c i) as [->|Hne].
    + rewrite Z.ltb_irrefl, Z.sub_diag. done.
    + simpl in Hb. rewrite int32_small, (IH (Some l)) by (done || lia).
      destruct (Z.ltb_spec i (c + 1)), (Z.ltb_spec i c); try lia; [done|].
      replace (Z.to_nat (i - c)) with (S (Z.to_nat (i - (c + 1)))) by lia. done.
Qed.

(** [OSList_GetDataFromIndex] is a bounds-checked read: the datum of the
    [index]-th node, and NULL for a negative or too large index. *)
Theorem OSList_GetDataFromIndex_nth s ls index :
  ol_links s ls → length ls < 2147483648 →
  OSList_GetDataFromIndex s index =
  Some (if index <? 0 then NULL
        else match ls !! Z.to_nat index with Some (_, d) => d | None => NULL end).
Proof.
  intros (Hd & Hf & _) Hb. unfold OSList_GetDataFromIndex. rewrite (dll_size _ _ Hd), Hf.
  destruct Hd as (_ & _ & Hs). rewrite (index_loop_spec _ _ _ _ _ Hs) by lia.
  by rewrite Z.sub_0_r.
Qed.

Lemma OSList_GetDataFromIndex_nth_witness :
  OSList_GetDataFromIndex (ol_two false) 1 = Some (Some 20%positive).
Proof.
  refine (OSList_GetDataFromIndex_nth (ol_two false) _ 1 (ol_two_links false) _). simpl. lia.
Defined.

(** * Inserting *)

Lemma insert_append s ls l data :
  ol_links s ls → ol_nodes s !! l = None →
  ∃ s', OSList_InsertData (Some l) s NULL data = Some (0, s') ∧
        ol_links s' (ls ++ [(l, data)]) ∧ ol_size s' = int32 (ol_size s + 1).
Proof.
  intros (Hd & Hf & Hla) Hl. pose proof (dll_snoc _ _ l data Hd Hl) as Hsn.
  pose proof (dll_fresh _ _ _ Hd Hl) as Hfr. destruct Hd as (_ & _ & Hs).
  unfold OSList_InsertData, OSList_InsertData_locked. rewrite Hf, Hla.
  destruct ls as [|[r b] ls _] using rev_ind.
  - simpl. eexists. split; [done|]. by split_and!.
  - rewrite last_ptr_snoc, last_snoc, removelast_last in *.
    apply notin_snoc in Hfr as [_ Hlr]. apply dseg_lookup in Hs.
    destruct (hd_ptr (ls ++ [(r, b)]) NULL) as [f|] eqn:Ef; [|by destruct ls as [|[]]].
    simpl. rewrite lookup_insert_eq. simpl. rewrite insert_insert_eq, lookup_insert_ne, Hs by done.
    simpl. rewrite lookup_insert_ne, lookup_insert_eq by done. simpl.
    eexists. split; [done|]. rewrite (insert_insert_ne _ l r), insert_insert_eq by done.
    split; [|done]. split_and!; simpl; [done| |by rewrite last_ptr_snoc].
    rewrite <-Ef. by destruct ls as [|[]].
Qed.

Lemma insert_before s ls1 r b ls2 l data :
  ol_links s (ls1 ++ (r, b) :: ls2) → ol_nodes s !! l = None →
  ∃ s', OSList_InsertData (Some l) s (Some r) data = Some (0, s') ∧
        ol_links s' (ls1 ++ (l, data) :: (r, b) :: ls2) ∧ ol_size s' = int32 (ol_size s + 1).
Proof.
  intros (Hd & Hf & Hla) Hl. pose proof (dll_insert_before _ _ _ _ _ l data Hd Hl) as Hin.
  pose proof (dll_fresh _ _ _ Hd Hl) as Hfr. destruct Hd as (Hnd & _ & Hs).
  pose proof (dseg_lookup _ _ _ _ _ _ _ Hs) as Hr.
  rewrite fmap_app in Hfr, Hnd. simpl in *. apply NoDup_middle in Hnd as (_ & Hr1 & _).
  apply not_elem_of_app in Hfr as [Hl1 [Hlr _]%not_elem_of_cons].
  unfold OSList_InsertData, OSList_InsertData_locked. rewrite Hf, Hla.
  destruct ls1 as [|[q c] ls1 _] using rev_ind; simpl in *.
  - rewrite (lookup_insert_ne _ l r), Hr by done. simpl. rewrite lookup_insert_eq. simpl.
    rewrite lookup_insert_eq. simpl.
    rewrite !insert_insert_eq, (lookup_insert_ne _ l r), Hr by done.
    simpl. eexists. split; [done|]. split; [|done]. by split_and!.
  - rewrite last_ptr_snoc, last_snoc, removelast_last in *. rewrite <-app_assoc in Hs. simpl in Hs.
    apply dseg_lookup in Hs. apply notin_snoc in Hl1 as [_ Hlq]. apply notin_snoc in Hr1 as [_ Hrq].
    destruct (hd_ptr ((ls1 ++ [(q, c)]) ++ (r, b) :: ls2) NULL) as [f|] eqn:Ef;
      [|by destruct ls1 as [|[]]].
    simpl. rewrite (lookup_insert_ne _ l r), Hr by done. simpl.
    rewrite (lookup_insert_ne _ l q), Hs by done. simpl.
    rewrite (lookup_insert_ne _ q l), lookup_insert_eq by done. simpl.
    rewrite lookup_insert_eq. simpl. rewrite insert_insert_eq.
    rewrite !(lookup_insert_ne _ _ r), Hr by congruence. simpl. eexists. split; [done|].
    rewrite (insert_insert_ne _ l q), insert_insert_eq by done.
    split; [|done]. split_and!; simpl; [done| |].
    + rewrite <-Ef. by destruct ls1 as [|[]].
    + by rewrite !last_ptr_app, !last_ptr_cons.
Qed.

(** [OSList_InsertData] puts the new node in front of the given one, or at
    the end when no node is given; [OSList_PushData] puts it first. *)
Theorem OSList_InsertData_refines s ls l data :
  ol_links s ls → ol_nodes s !! l = None →
  (∃ s', OSList_InsertData (Some l) s NULL data = Some (0, s') ∧
         ol_links s' (ls ++ [(l, data)])) ∧
  (∀ ls1 r b ls2, ls = ls1 ++ (r, b) :: ls2 →
     ∃ s', OSList_InsertData (Some l) s (Some r) data = Some (0, s') ∧
           ol_links s' (ls1 ++ (l, data) :: (r, b) :: ls2)) ∧
  (∃ s', OSList_PushData (Some l) s data = Some (0, s') ∧ ol_links s' ((l, data) :: ls)).
Proof.
  intros Hr Hl. destruct (insert_append s ls l data Hr Hl) as (s1 & H1 & H1' & _). split_and!.
  - eauto.
  - intros ls1 r b ls2 ->. destruct (insert_before _ _ _ _ _ l data Hr Hl) as (s2 & ? & ? & _). eauto.
  - change (OSList_PushData (Some l) s data) with (OSList_InsertData (Some l) s (ol_first s) data).
    pose proof Hr as (_ & Hf & _). rewrite Hf. destruct ls as [|[r b] ls]; [by eexists|].
    destruct (insert_before s [] r b ls l data Hr Hl) as (s2 & ? & ? & _). simpl. eauto.
Qed.

Lemma OSList_InsertData_refines_witness :
  (∃ s', OSList_InsertData (Some 3%positive) (ol_two false) NULL (Some 30%positive) = Some (0, s') ∧
         ol_links s' [(1%positive, Some 10%positive); (2%positive, Some 20%positive);
                      (3%positive, Some 30%positive)]).
Proof.
  apply (OSList_InsertData_refines (ol_two false) _ 3%positive (Some 30%positive)
           (ol_two_links false) eq_refl).
Defined.
