(* ===== verification/QueueOp.v ===== *)
(** The bounded queue of src/shared/queue_op.c: a circular array of pointers
    with one slot kept free, and the blocking operations built on it. *)

From S2P Require Import Prelude Monitor Float.

(** [w_queue_t], without its mutex and condition variables.  [q_data] is the
    [malloc]ed array; [q_elements] is an [unsigned int], the rest [size_t]. *)
Record wqueue := WQueue {
  q_data : list ptr;
  q_begin : Z;
  q_end : Z;
  q_size : Z;
  q_elements : Z
}.

(** [queue_init]; [mem] is the uninitialised array that [os_malloc] returned. *)
Definition queue_init (mem : list ptr) : wqueue := WQueue mem 0 0 (length mem) 0.

(** [queue_full] and [queue_full_ex] *)
Definition queue_full (q : wqueue) : bool := wrap64 (q_begin q + 1) mod q_size q =? q_end q.
Definition queue_full_ex (q : wqueue) : bool := queue_full q.

(** [queue_empty] and [queue_empty_ex] *)
Definition queue_empty (q : wqueue) : bool := q_begin q =? q_end q.
Definition queue_empty_ex (q : wqueue) : bool := q_begin q =? q_end q.

(** [queue_get_percentage_ex]; [size - 1] is computed on [size_t]. *)
Definition queue_get_percentage_ex (queue : option wqueue) : float :=
  match queue with
  | None => f32_of_Z (-1)
  | Some q => f32_div (f32_of_Z (q_elements q)) (f32_of_Z (wrap64 (q_size q - 1)))
  end.

(** [queue_free]: the array belongs to the struct and goes with it. *)
Definition queue_free (h : heap wqueue) (queue : ptr) : option (heap wqueue) := free h queue.

(** [queue_push]: -1 when full; a write outside of the array is undefined. *)
Definition queue_push (q : wqueue) (data : ptr) : option (Z * wqueue) :=
  if queue_full q then Some (-1, q)
  else if q_begin q <? length (q_data q) then
    Some (0, WQueue (<[Z.to_nat (q_begin q) := data]> (q_data q))
               (wrap64 (q_begin q + 1) mod q_size q) (q_end q) (q_size q)
               (wrap32 (q_elements q + 1)))
  else None.

(** [queue_pop]: NULL when empty. *)
Definition queue_pop (q : wqueue) : option (ptr * wqueue) :=
  if queue_empty q then Some (NULL, q)
  else data ← q_data q !! Z.to_nat (q_end q);
       Some (data, WQueue (q_data q) (q_begin q) (wrap64 (q_end q + 1) mod q_size q) (q_size q)
                     (wrap32 (q_elements q - 1))).

(** [queue_push_ex]: returns at once, also when the queue is full. *)
Definition queue_push_ex (q : wqueue) (data : ptr) : option (Z * wqueue) := queue_push q data.

(** One pass of the critical section of [queue_push_ex_block]. *)
Definition queue_push_ex_block (q : wqueue) (data : ptr) : option (outcome Z * wqueue) :=
  if queue_full q then Some (Wait, q)
  else '(result, q) ← queue_push q data; Some (Ret result, q).

(** One pass of the critical section of [queue_pop_ex]. *)
Definition queue_pop_ex (q : wqueue) : option (outcome ptr * wqueue) :=
  '(data, q) ← queue_pop q;
  if not_null data then Some (Ret data, q) else Some (Wait, q).

(** [queue_pop_ex_timedwait]: [rc] is what [pthread_cond_timedwait] would
    return after this pass; a non-zero code ends the operation with NULL. *)
Definition queue_pop_ex_timedwait (rc : Z) (q : wqueue) : option (outcome ptr * wqueue) :=
  '(data, q) ← queue_pop q;
  if not_null data then Some (Ret data, q)
  else if negb (rc =? 0) then Some (Ret NULL, q) else Some (Wait, q).

(** * Representation *)

(** The queue holds [xs], oldest first. *)
Definition q_rep (q : wqueue) (xs : list ptr) : Prop :=
  0 < q_size q < 18446744073709551615 ∧ Z.of_nat (length (q_data q)) = q_size q ∧
  0 <= q_end q < q_size q ∧ q_begin q = (q_end q + length xs) mod q_size q ∧
  length xs < q_size q ∧ q_elements q = wrap32 (length xs) ∧
  (∀ (i : nat) x, xs !! i = Some x → q_data q !! Z.to_nat ((q_end q + i) mod q_size q) = Some x).

(** Executable reading of the contents. *)
Definition q_contents (q : wqueue) : list ptr :=
  omap (λ i, q_data q !! Z.to_nat ((q_end q + Z.of_nat i) mod q_size q))
       (seq 0 (Z.to_nat ((q_begin q - q_end q) mod q_size q))).

Lemma q_rep_init mem :
  0 < length mem < 18446744073709551615 → q_rep (queue_init mem) [].
Proof.
  intros. unfold q_rep. simpl. rewrite Z.mod_0_l by lia. split_and!; try done; lia.
Qed.

Lemma mod_cases a n : 0 < n → 0 <= a < 2 * n → a mod n = if a <? n then a else a - n.
Proof.
  intros. destruct (Z.ltb_spec a n).
  - apply Z.mod_small. lia.
  - replace a with (a - n + 1 * n) at 1 by lia. rewrite Z_mod_plus_full. apply Z.mod_small. lia.
Qed.

Lemma q_rep_full q xs : q_rep q xs → queue_full q = (length xs + 1 =? q_size q).
Proof.
  intros (Hs & Hl & He & Hb & Hx & _). unfold queue_full.
  rewrite wrap64_id by (unfold size_t; rewrite Hb; pose proof (Z.mod_pos_bound (q_end q + length xs) (q_size q)); lia).
  rewrite Hb, Zplus_mod_idemp_l, mod_cases by lia.
  destruct (Z.ltb_spec (q_end q + length xs + 1) (q_size q)); lia.
Qed.

Lemma q_rep_empty q xs : q_rep q xs → queue_empty q = (length xs =? 0).
Proof.
  intros (Hs & Hl & He & Hb & Hx & _). unfold queue_empty. rewrite Hb, mod_cases by lia.
  destruct (Z.ltb_spec (q_end q + length xs) (q_size q)); lia.
Qed.

Lemma q_push_spec q xs data :
  q_rep q xs →
  if length xs + 1 =? q_size q then queue_push q data = Some (-1, q)
  else ∃ q', queue_push q data = Some (0, q') ∧ q_rep q' (xs ++ [data]) ∧ q_size q' = q_size q.
Proof.
  intros Hr. unfold queue_push. rewrite (q_rep_full _ _ Hr).
  destruct Hr as (Hs & Hl & He & Hb & Hx & Hel & Hd).
  destruct (Z.eqb_spec (length xs + 1) (q_size q)) as [|Hne]; [done|].
  assert (0 <= q_begin q < q_size q) as Hbb by (rewrite Hb; apply Z.mod_pos_bound; lia).
  rewrite Hl. destruct (Z.ltb_spec (q_begin q) (q_size q)); [|lia].
  eexists. split; [done|]. split; [|done]. unfold q_rep. simpl.
  rewrite length_insert, length_app, wrap64_id by (unfold size_t; lia). simpl. split_and!; try lia.
  - rewrite Hb, Zplus_mod_idemp_l. f_equal. lia.
  - rewrite Hel. rewrite wrap32_add_l. f_equal. lia.
  - intros i x Hi. destruct (decide (i < length xs)%nat).
    + rewrite lookup_app_l in Hi by done. rewrite list_lookup_insert_ne; [by apply Hd|].
      rewrite Hb, !mod_cases by lia.
      destruct (Z.ltb_spec (q_end q + length xs) (q_size q)),
               (Z.ltb_spec (q_end q + i) (q_size q)); lia.
    + rewrite lookup_app_r in Hi by lia. apply list_lookup_singleton_Some in Hi as [? <-].
      replace (q_end q + i) with (q_end q + length xs) by lia. rewrite <-Hb.
      apply list_lookup_insert_eq. lia.
Qed.

Lemma q_pop_spec q xs :
  q_rep q xs →
  match xs with
  | [] => queue_pop q = Some (NULL, q)
  | x :: xs' => ∃ q', queue_pop q = Some (x, q') ∧ q_rep q' xs' ∧ q_size q' = q_size q
  end.
Proof.
  intros Hr. unfold queue_pop. rewrite (q_rep_empty _ _ Hr).
  destruct Hr as (Hs & Hl & He & Hb & Hx & Hel & Hd). destruct xs as [|x xs]; simpl in *; [done|].
  pose proof (Hd 0%nat x eq_refl) as H0. rewrite Z.add_0_r, Z.mod_small in H0 by lia.
  rewrite H0. simpl. eexists. split; [done|]. split; [|done]. unfold q_rep. simpl.
  rewrite wrap64_id by (unfold size_t; lia). split_and!; try lia.
  - apply Z.mod_pos_bound. lia.
  - apply Z.mod_pos_bound. lia.
  - rewrite Hb, Zplus_mod_idemp_l. f_equal. lia.
  - rewrite Hel, wrap32_sub_l. f_equal. lia.
  - intros i y Hi. rewrite Zplus_mod_idemp_l.
    replace (q_end q + 1 + i) with (q_end q + S i) by lia. by apply Hd.
Qed.

Lemma omap_seq_lookup {A} (f : nat → option A) (xs : list A) :
  (∀ i x, xs !! i = Some x → f i = Some x) → omap f (seq 0 (length xs)) = xs.
Proof.
  induction xs as [|x xs IH] using rev_ind; intros Hf; [done|].
  rewrite length_app. simpl. rewrite seq_app, omap_app, IH.
  - simpl. rewrite (Hf (length xs) x); [done|]. by apply list_lookup_middle.
  - intros i y Hi. apply Hf. by apply lookup_app_l_Some.
Qed.

Lemma q_rep_contents q xs : q_rep q xs → q_contents q = xs.
Proof.
  intros (Hs & Hl & He & Hb & Hx & Hel & Hd). unfold q_contents.
  replace (Z.to_nat ((q_begin q - q_end q) mod q_size q)) with (length xs); [by apply omap_seq_lookup|].
  rewrite Hb, Zminus_mod_idemp_l.
  replace (q_end q + length xs - q_end q) with (Z.of_nat (length xs)) by lia.
  rewrite Z.mod_small; lia.
Qed.

(** * Producers and consumers *)

Inductive q_op :=
  | QPush (data : ptr)        (** [queue_push_ex] *)
  | QPushBlock (data : ptr)   (** a pass of [queue_push_ex_block] *)
  | QPop.                     (** a pass of [queue_pop_ex] *)

(** The result of a critical section: a status or a datum. *)
Definition q_exec (o : q_op) (q : wqueue) : option (outcome (Z + ptr) * wqueue) :=
  match o with
  | QPush d => '(r, q) ← queue_push_ex q d; Some (Ret (inl r), q)
  | QPushBlock d =>
      '(r, q) ← queue_push_ex_block q d;
      Some (match r with Ret z => Ret (inl z) | Wait => Wait end, q)
  | QPop =>
      '(r, q) ← queue_pop_ex q;
      Some (match r with Ret d => Ret (inr d) | Wait => Wait end, q)
  end.

(** A producer's datum is in once its push returned 0. *)
Definition q_put (o : q_op) (r : outcome (Z + ptr)) : list ptr :=
  match o, r with
  | (QPush d | QPushBlock d), Ret (inl z) => if z =? 0 then [d] else []
  | _, _ => []
  end.
Definition q_got (o : q_op) (r : outcome (Z + ptr)) : list ptr :=
  match o, r with QPop, Ret (inr d) => [d] | _, _ => [] end.

Definition q_ok (o : q_op) : Prop :=
  match o with QPush d | QPushBlock d => not_null d = true | QPop => True end.

Lemma q_exec_step n o q xs :
  (q_rep q xs ∧ q_size q = n ∧ Forall (λ x, not_null x = true) xs) → q_ok o →
  ∃ r q' xs', q_exec o q = Some (r, q') ∧
    (q_rep q' xs' ∧ q_size q' = n ∧ Forall (λ x, not_null x = true) xs') ∧
    q_got o r ++ xs' = xs ++ q_put o r.
Proof.
  intros (Hr & Hn & Hnn) Ho. destruct o as [d|d|]; simpl in *.
  - unfold queue_push_ex. pose proof (q_push_spec q xs d Hr) as Hp.
    destruct (length xs + 1 =? q_size q).
    + rewrite Hp. simpl. do 3 eexists. split; [done|]. rewrite app_nil_r. eauto.
    + destruct Hp as (q' & -> & Hr' & Hs'). simpl. do 3 eexists. split; [done|].
      split; [|done]. split_and!; [done|congruence|]. apply Forall_app. by repeat constructor.
  - unfold queue_push_ex_block. pose proof (q_push_spec q xs d Hr) as Hp.
    rewrite (q_rep_full _ _ Hr). destruct (length xs + 1 =? q_size q).
    + simpl. do 3 eexists. split; [done|]. rewrite app_nil_r. eauto.
    + destruct Hp as (q' & -> & Hr' & Hs'). simpl. do 3 eexists. split; [done|].
      split; [|done]. split_and!; [done|congruence|]. apply Forall_app. by repeat constructor.
  - unfold queue_pop_ex. pose proof (q_pop_spec q xs Hr) as Hp. destruct xs as [|x xs].
    + rewrite Hp. simpl. do 3 eexists. split; [done|]. eauto.
    + destruct Hp as (q' & -> & Hr' & Hs'). apply Forall_cons in Hnn as [Hx Hnn].
      simpl. rewrite Hx. simpl. eexists _, q', xs. split; [done|]. simpl. rewrite app_nil_r.
      split; [|done]. split_and!; [done|congruence|done].
Qed.



(** A producer waits only on a full queue and a consumer only on an empty
    one, so on a queue with a usable slot they never wait for each other;
    a timed-out consumer gets NULL and takes nothing. *)
Theorem queue_no_mutual_wait q xs d rc :
  q_rep q xs → Forall (λ x, not_null x = true) xs →
  (queue_push_ex_block q d = Some (Wait, q) ↔ length xs + 1 = q_size q) ∧
  (queue_pop_ex q = Some (Wait, q) ↔ xs = []) ∧
  (1 < q_size q →
     ¬ (queue_push_ex_block q d = Some (Wait, q) ∧ queue_pop_ex q = Some (Wait, q))) ∧
  (rc ≠ 0 → xs = [] → queue_pop_ex_timedwait rc q = Some (Ret NULL, q)).
Proof.
  intros Hr Hnn.
  assert (queue_push_ex_block q d = Some (Wait, q) ↔ length xs + 1 = q_size q) as Hpush.
  { unfold queue_push_ex_block. rewrite (q_rep_full _ _ Hr).
    pose proof (q_push_spec q xs d Hr) as Hp.
    destruct (Z.eqb_spec (length xs + 1) (q_size q)); [done|].
    destruct Hp as (q' & -> & _). simpl. split; [done|lia]. }
  assert (queue_pop_ex q = Some (Wait, q) ↔ xs = []) as Hpop.
  { unfold queue_pop_ex. pose proof (q_pop_spec q xs Hr) as Hp. destruct xs as [|x xs].
    - by rewrite Hp.
    - destruct Hp as (q' & -> & _). apply Forall_cons in Hnn as [Hx _]. simpl. rewrite Hx.
      split; done. }
  split_and!; [done|done| |].
  - intros Hs [H1%Hpush ->%Hpop]. simpl in H1. lia.
  - intros Hrc ->. unfold queue_pop_ex_timedwait. rewrite (q_pop_spec q [] Hr). simpl.
    by destruct (Z.eqb_spec rc 0).
Qed.

Lemma queue_no_mutual_wait_witness :
  (queue_push_ex_block (queue_init [NULL; NULL]) (Some 5%positive) =
     Some (Wait, queue_init [NULL; NULL]) ↔ 0%nat + 1 = 2) ∧
  (queue_pop_ex (queue_init [NULL; NULL]) = Some (Wait, queue_init [NULL; NULL]) ↔ @nil ptr = []) ∧
  (1 < 2 → ¬ (queue_push_ex_block (queue_init [NULL; NULL]) (Some 5%positive) =
                Some (Wait, queue_init [NULL; NULL]) ∧
              queue_pop_ex (queue_init [NULL; NULL]) = Some (Wait, queue_init [NULL; NULL]))) ∧
  (110 ≠ 0 → @nil ptr = [] →
     queue_pop_ex_timedwait 110 (queue_init [NULL; NULL]) =
     Some (Ret NULL, queue_init [NULL; NULL])).
Proof.
  apply (queue_no_mutual_wait (queue_init [NULL; NULL]) [] (Some 5%positive) 110).
  - apply q_rep_init. simpl. lia.
  - constructor.
Defined.
