(* ===== verification/RBTree.v ===== *)
(** The red-black tree of src/shared/rbtree_op.c, at the level of its heap
    cells: every node carries its parent pointer, and rotations, insertion,
    deletion and their rebalancing loops are the pointer updates of the C
    code.  Mirror-image branches of the C code are one definition with a
    direction argument. *)

From S2P Require Import Prelude.

(** * Data *)

Inductive rb_color := RB_RED | RB_BLACK.
#[export] Instance rb_color_eq_dec : EqDecision rb_color.
Proof. solve_decision. Defined.

Inductive dir := DL | DR.
#[export] Instance dir_eq_dec : EqDecision dir.
Proof. solve_decision. Defined.
Definition opp (d : dir) : dir := match d with DL => DR | DR => DL end.

(** [struct rb_node] *)
Record rb_node := RBNode {
  rb_key : cstr;
  rb_value : ptr;
  rb_col : rb_color;
  rb_parent : ptr;
  rb_left : ptr;
  rb_right : ptr
}.

(** [struct rb_tree], with the heap of its nodes; [rb_disp] says whether the
    [dispose] callback is set. *)
Record rb_tree := RBTree { rb_root : ptr; rb_disp : bool; rb_heap : heap rb_node }.

(** The child of a node on side [d]. *)
Definition child (d : dir) (n : rb_node) : ptr :=
  match d with DL => rb_left n | DR => rb_right n end.

Definition set_child (d : dir) (p : ptr) (n : rb_node) : rb_node :=
  match d with
  | DL => RBNode (rb_key n) (rb_value n) (rb_col n) (rb_parent n) p (rb_right n)
  | DR => RBNode (rb_key n) (rb_value n) (rb_col n) (rb_parent n) (rb_left n) p
  end.
Definition set_parent (p : ptr) (n : rb_node) : rb_node :=
  RBNode (rb_key n) (rb_value n) (rb_col n) p (rb_left n) (rb_right n).
Definition set_col (c : rb_color) (n : rb_node) : rb_node :=
  RBNode (rb_key n) (rb_value n) c (rb_parent n) (rb_left n) (rb_right n).
Definition set_kv (k : cstr) (v : ptr) (n : rb_node) : rb_node :=
  RBNode k v (rb_col n) (rb_parent n) (rb_left n) (rb_right n).

(** Assignments through a pointer into the tree. *)
Definition get (t : rb_tree) (p : ptr) : option rb_node := load (rb_heap t) p.
Definition upd (t : rb_tree) (p : ptr) (f : rb_node → rb_node) : option rb_tree :=
  h ← store (rb_heap t) p f; Some (RBTree (rb_root t) (rb_disp t) h).
Arguments get : simpl never.
Arguments upd : simpl never.
Definition with_root (t : rb_tree) (p : ptr) : rb_tree := RBTree p (rb_disp t) (rb_heap t).

Definition parent_of (t : rb_tree) (p : ptr) : option ptr := n ← get t p; Some (rb_parent n).
Definition grandparent_of (t : rb_tree) (p : ptr) : option ptr :=
  q ← parent_of t p; parent_of t q.

(** [p == NULL || p->color == RB_BLACK] *)
Definition null_or_black (t : rb_tree) (p : ptr) : option bool :=
  match p with
  | None => Some true
  | Some _ => n ← get t p; Some (bool_decide (rb_col n = RB_BLACK))
  end.

(** * Private functions *)

(** [rb_init]: the contents of a new node. *)
Definition rb_init (key : cstr) (value : ptr) : rb_node :=
  RBNode key value RB_RED NULL NULL NULL.

(** [rb_get]: fuel bounds the depth of the walk. *)
Fixpoint rb_get (fuel : nat) (t : rb_tree) (node : ptr) (key : cstr) : option ptr :=
  match node with
  | None => Some NULL
  | Some _ =>
      match fuel with
      | O => None
      | S k =>
          n ← get t node;
          let cmp := strcmp key (rb_key n) in
          if cmp =? 0 then Some node
          else rb_get k t (if cmp <? 0 then rb_left n else rb_right n) key
      end
  end.

(** [rb_min] ([DL]) and [rb_max] ([DR]) *)
Fixpoint rb_end (fuel : nat) (d : dir) (t : rb_tree) (node : ptr) : option ptr :=
  match fuel with
  | O => None
  | S k =>
      n ← get t node;
      match child d n with
      | None => Some node
      | Some _ => rb_end k d t (child d n)
      end
  end.
Definition rb_min (fuel : nat) (t : rb_tree) (node : ptr) : option ptr := rb_end fuel DL t node.
Definition rb_max (fuel : nat) (t : rb_tree) (node : ptr) : option ptr := rb_end fuel DR t node.

(** [rb_uncle] *)
Definition rb_uncle (t : rb_tree) (node : ptr) : option ptr :=
  p ← parent_of t node;
  match p with
  | None => Some NULL
  | Some _ =>
      g ← parent_of t p;
      match g with
      | None => Some NULL
      | Some _ => gn ← get t g;
                  Some (if ptr_eqb p (rb_left gn) then rb_right gn else rb_left gn)
      end
  end.

(** The first statement of the rotations, and of the unlinking in
    [rbtree_delete]: [q] takes the place of [node] below its parent. *)
Definition relink (t : rb_tree) (node q : ptr) : option rb_tree :=
  p ← parent_of t node;
  match p with
  | None => Some (with_root t q)
  | Some _ => pn ← get t p;
              if ptr_eqb node (rb_left pn) then upd t p (set_child DL q)
              else upd t p (set_child DR q)
  end.

(** [rb_rotate_left] ([DL]) and [rb_rotate_right] ([DR]) *)
Definition rb_rotate (d : dir) (t : rb_tree) (node : ptr) : option rb_tree :=
  n ← get t node;
  let x := child (opp d) n in
  t ← relink t node x;
  xn ← get t x;
  t ← match child d xn with
      | Some _ => upd t (child d xn) (set_parent node)
      | None => Some t
      end;
  xn ← get t x;
  t ← upd t node (set_child (opp d) (child d xn));
  t ← upd t x (set_child d node);
  n ← get t node;
  t ← upd t x (set_parent (rb_parent n));
  upd t node (set_parent x).
Definition rb_rotate_left : rb_tree → ptr → option rb_tree := rb_rotate DL.
Definition rb_rotate_right : rb_tree → ptr → option rb_tree := rb_rotate DR.

(** The rotation case of [rb_balance_insert]; the parent of [node] is the
    child of its grandparent on side [d].  Returns the new [node]. *)
Definition rb_balance_insert_rotate (d : dir) (t : rb_tree) (node : ptr) :
    option (rb_tree * ptr) :=
  p ← parent_of t node;
  pn ← get t p;
  '(t, node) ←
    (if ptr_eqb node (child (opp d) pn)
     then t ← rb_rotate d t p; Some (t, p)
     else Some (t, node));
  p ← parent_of t node;
  t ← upd t p (set_col RB_BLACK);
  g ← grandparent_of t node;
  t ← upd t g (set_col RB_RED);
  g ← grandparent_of t node;
  t ← rb_rotate (opp d) t g;
  Some (t, node).

(** The loop of [rb_balance_insert]: fuel bounds its iterations. *)
Fixpoint rb_balance_insert_loop (fuel : nat) (t : rb_tree) (node : ptr) : option rb_tree :=
  match fuel with
  | O => None
  | S k =>
      p ← parent_of t node;
      match p with
      | None => Some t
      | Some _ =>
          black ← null_or_black t p;
          if (black : bool) then Some t
          else
            uncle ← rb_uncle t node;
            ublack ← null_or_black t uncle;
            if negb ublack then
              t ← upd t p (set_col RB_BLACK);
              t ← upd t uncle (set_col RB_BLACK);
              g ← grandparent_of t node;
              t ← upd t g (set_col RB_RED);
              g ← grandparent_of t node;
              rb_balance_insert_loop k t g
            else
              g ← parent_of t p;
              gn ← get t g;
              '(t, node) ← rb_balance_insert_rotate
                             (if ptr_eqb p (rb_left gn) then DL else DR) t node;
              rb_balance_insert_loop k t node
      end
  end.

(** [rb_balance_insert] *)
Definition rb_balance_insert (fuel : nat) (t : rb_tree) (node : ptr) : option rb_tree :=
  t ← rb_balance_insert_loop fuel t node;
  upd t (rb_root t) (set_col RB_BLACK).

(** One iteration of the loop of [rb_balance_delete], [node] being the child
    of [parent] on side [d]: the next [node] and [parent], or [None] for the
    [break] after case 4.  A failed assertion stops the program: undefined. *)
Definition rb_balance_delete_body (d : dir) (t : rb_tree) (parent : ptr) :
    option (rb_tree * option (ptr * ptr)) :=
  pn ← get t parent;
  let sibling := child (opp d) pn in
  sn ← get t sibling;
  '(t, sibling) ←
    (if bool_decide (rb_col sn = RB_RED) then
       t ← upd t sibling (set_col RB_BLACK);
       t ← upd t parent (set_col RB_RED);
       t ← rb_rotate d t parent;
       pn ← get t parent;
       Some (t, child (opp d) pn)
     else Some (t, sibling));
  sn ← get t sibling;
  near ← null_or_black t (child d sn);
  far ← null_or_black t (child (opp d) sn);
  if bool_decide (rb_col sn = RB_BLACK) && near && far then
    t ← upd t sibling (set_col RB_RED);
    pp ← parent_of t parent;
    Some (t, Some (parent, pp))
  else
    '(t, sibling) ←
      (if (far : bool) then
         t ← upd t (child d sn) (set_col RB_BLACK);
         t ← upd t sibling (set_col RB_RED);
         t ← rb_rotate (opp d) t sibling;
         pn ← get t parent;
         Some (t, child (opp d) pn)
       else Some (t, sibling));
    pn ← get t parent;
    t ← upd t sibling (set_col (rb_col pn));
    t ← upd t parent (set_col RB_BLACK);
    sn ← get t sibling;
    t ← upd t (child (opp d) sn) (set_col RB_BLACK);
    t ← rb_rotate d t parent;
    Some (t, None).

(** The loop of [rb_balance_delete] returns the final [node]. *)
Fixpoint rb_balance_delete_loop (fuel : nat) (t : rb_tree) (node parent : ptr) :
    option (rb_tree * ptr) :=
  match parent with
  | None => Some (t, node)
  | Some _ =>
      black ← null_or_black t node;
      if negb black then Some (t, node)
      else
        match fuel with
        | O => None
        | S k =>
            pn ← get t parent;
            '(t, next) ← rb_balance_delete_body
                           (if ptr_eqb node (rb_left pn) then DL else DR) t parent;
            match next with
            | None => Some (t, node)
            | Some (node, parent) => rb_balance_delete_loop k t node parent
            end
        end
  end.

(** [rb_balance_delete] *)
Definition rb_balance_delete (fuel : nat) (t : rb_tree) (node parent : ptr) : option rb_tree :=
  '(t, node) ← rb_balance_delete_loop fuel t node parent;
  match node with
  | Some _ => upd t node (set_col RB_BLACK)
  | None => Some t
  end.

(** [rb_keys]: the keys appended to the array, in the order of the walk. *)
Fixpoint rb_keys (fuel : nat) (t : rb_tree) (node : ptr) : option (list cstr) :=
  match fuel with
  | O => None
  | S k =>
      n ← get t node;
      l ← match rb_left n with Some _ => rb_keys k t (rb_left n) | None => Some [] end;
      r ← match rb_right n with Some _ => rb_keys k t (rb_right n) | None => Some [] end;
      Some (l ++ rb_key n :: r)
  end.

(** [rb_range] *)
Fixpoint rb_range (fuel : nat) (t : rb_tree) (node : ptr) (min max : cstr) : option (list cstr) :=
  match fuel with
  | O => None
  | S k =>
      n ← get t node;
      let cmp_min := strcmp (rb_key n) min in
      let cmp_max := strcmp (rb_key n) max in
      l ← (if not_null (rb_left n) && (0 <? cmp_min)
           then rb_range k t (rb_left n) min max else Some []);
      let m := if (0 <=? cmp_min) && (cmp_max <=? 0) then [rb_key n] else [] in
      r ← (if not_null (rb_right n) && (cmp_max <? 0)
           then rb_range k t (rb_right n) min max else Some []);
      Some (l ++ m ++ r)
  end.

(** [rb_black_depth]: -1 for an unbalanced subtree. *)
Fixpoint rb_black_depth (fuel : nat) (t : rb_tree) (node : ptr) : option Z :=
  match node with
  | None => Some 1
  | Some _ =>
      match fuel with
      | O => None
      | S k =>
          n ← get t node;
          d_left ← rb_black_depth k t (rb_left n);
          d_right ← rb_black_depth k t (rb_right n);
          Some (if negb (d_left =? d_right) then -1
                else d_left + (if bool_decide (rb_col n = RB_BLACK) then 1 else 0))
      end
  end.

(** [rb_size] *)
Fixpoint rb_size (fuel : nat) (t : rb_tree) (node : ptr) : option Z :=
  match fuel with
  | O => None
  | S k =>
      n ← get t node;
      l ← match rb_left n with Some _ => rb_size k t (rb_left n) | None => Some 0 end;
      r ← match rb_right n with Some _ => rb_size k t (rb_right n) | None => Some 0 end;
      Some (wrap32 (wrap32 (l + 1) + r))
  end.

(** [rb_destroy]: the values handed to [dispose], in order, and the heap. *)
Fixpoint rb_destroy (fuel : nat) (disp : bool) (h : heap rb_node) (node : ptr) :
    option (list ptr * heap rb_node) :=
  match fuel with
  | O => None
  | S k =>
      n ← load h node;
      '(dl, h) ← match rb_left n with
                 | Some _ => rb_destroy k disp h (rb_left n) | None => Some ([], h) end;
      '(dr, h) ← match rb_right n with
                 | Some _ => rb_destroy k disp h (rb_right n) | None => Some ([], h) end;
      h ← free h node;
      Some (dl ++ dr ++ (if not_null (rb_value n) && disp then [rb_value n] else []), h)
  end.

(** * Public functions

    The walks are bounded by the number of nodes; [depth] is that bound. *)

Definition depth (t : rb_tree) : nat := S (size (rb_heap t)).

Definition rbtree_init : rb_tree := RBTree NULL false ∅.
Definition rbtree_set_dispose (t : rb_tree) (disp : bool) : rb_tree :=
  RBTree (rb_root t) disp (rb_heap t).

(** [rbtree_destroy]: the values disposed of, and what stays allocated. *)
Definition rbtree_destroy (t : option rb_tree) : option (list ptr * heap rb_node) :=
  match t with
  | None => Some ([], ∅)
  | Some t => match rb_root t with
              | Some _ => rb_destroy (depth t) (rb_disp t) (rb_heap t) (rb_root t)
              | None => Some ([], rb_heap t)
              end
  end.

(** The search loop of [rbtree_insert]: the last node visited and the sign of
    the last comparison, or [None] inside for a duplicate key. *)
Fixpoint insert_search (fuel : nat) (t : rb_tree) (key : cstr) (x parent : ptr) (cmp : Z) :
    option (option (ptr * Z)) :=
  match x with
  | None => Some (Some (parent, cmp))
  | Some _ =>
      match fuel with
      | O => None
      | S k =>
          n ← get t x;
          let cmp := strcmp key (rb_key n) in
          if cmp =? 0 then Some None
          else insert_search k t key (if cmp <? 0 then rb_left n else rb_right n) x cmp
      end
  end.

(** [rbtree_insert]; [l] is the address of the new node.  A duplicate key
    frees the new node and returns NULL. *)
Definition rbtree_insert (l : loc) (t : rb_tree) (key : cstr) (value : ptr) :
    option (ptr * rb_tree) :=
  let t0 := RBTree (rb_root t) (rb_disp t) (<[l := rb_init key value]> (rb_heap t)) in
  r ← insert_search (depth t) t0 key (rb_root t0) NULL 0;
  match r with
  | None => '(_, h) ← rb_destroy 1 false (rb_heap t0) (Some l);
            Some (NULL, RBTree (rb_root t) (rb_disp t) h)
  | Some (parent, cmp) =>
      t ← match parent with
          | None => Some (with_root t0 (Some l))
          | Some _ => if cmp <? 0 then upd t0 parent (set_child DL (Some l))
                      else upd t0 parent (set_child DR (Some l))
          end;
      t ← upd t (Some l) (set_parent parent);
      t ← rb_balance_insert (depth t) t (Some l);
      Some (Some l, t)
  end.

(** [rbtree_replace]: the value disposed of, if any, the result, the tree. *)
Definition rbtree_replace (t : rb_tree) (key : cstr) (value : ptr) :
    option (list ptr * ptr * rb_tree) :=
  node ← rb_get (depth t) t (rb_root t) key;
  match node with
  | None => Some ([], NULL, t)
  | Some _ =>
      n ← get t node;
      t' ← upd t node (set_kv (rb_key n) value);
      Some (if not_null (rb_value n) && rb_disp t then [rb_value n] else [], value, t')
  end.

(** [rbtree_get] *)
Definition rbtree_get (t : rb_tree) (key : cstr) : option ptr :=
  node ← rb_get (depth t) t (rb_root t) key;
  match node with
  | None => Some NULL
  | Some _ => n ← get t node; Some (rb_value n)
  end.

(** [rbtree_delete]: the value disposed of, if any, 1 or 0, and the tree. *)
Definition rbtree_delete (t : rb_tree) (key : cstr) : option (list ptr * Z * rb_tree) :=
  node ← rb_get (depth t) t (rb_root t) key;
  match node with
  | None => Some ([], 0, t)
  | Some _ =>
      n ← get t node;
      s ← (if not_null (rb_left n) && not_null (rb_right n)
           then rb_min (depth t) t (rb_right n) else Some node);
      sn ← get t s;
      let x := match rb_left sn with Some _ => rb_left sn | None => rb_right sn end in
      t1 ← relink t s x;
      t1 ← match x with
           | Some _ => upd t1 x (set_parent (rb_parent sn))
           | None => Some t1
           end;
      let disposed := if not_null (rb_value n) && rb_disp t then [rb_value n] else [] in
      t1 ← (if negb (ptr_eqb node s) then upd t1 node (set_kv (rb_key sn) (rb_value sn))
            else Some t1);
      t1 ← (if bool_decide (rb_col sn = RB_BLACK)
            then rb_balance_delete (depth t) t1 x (rb_parent sn) else Some t1);
      h ← free (rb_heap t1) s;
      Some (disposed, 1, RBTree (rb_root t1) (rb_disp t1) h)
  end.

(** [rbtree_minimum] and [rbtree_maximum]; [None] inside for an empty tree. *)
Definition rbtree_extreme (d : dir) (t : rb_tree) : option (option cstr) :=
  match rb_root t with
  | None => Some None
  | Some _ => p ← rb_end (depth t) d t (rb_root t); n ← get t p; Some (Some (rb_key n))
  end.
Definition rbtree_minimum : rb_tree → option (option cstr) := rbtree_extreme DL.
Definition rbtree_maximum : rb_tree → option (option cstr) := rbtree_extreme DR.

(** [rbtree_keys] and [rbtree_range] *)
Definition rbtree_keys (t : rb_tree) : option (list cstr) :=
  match rb_root t with None => Some [] | Some _ => rb_keys (depth t) t (rb_root t) end.
Definition rbtree_range (t : rb_tree) (min max : cstr) : option (list cstr) :=
  match rb_root t with None => Some [] | Some _ => rb_range (depth t) t (rb_root t) min max end.

(** [rbtree_black_depth] *)
Definition rbtree_black_depth (t : rb_tree) : option Z :=
  match rb_root t with
  | None => Some 0
  | Some _ =>
      n ← get t (rb_root t);
      if bool_decide (rb_col n = RB_RED) then Some (-1)
      else d_left ← rb_black_depth (depth t) t (rb_left n);
           d_right ← rb_black_depth (depth t) t (rb_right n);
           Some (if (d_left =? -1) || (d_right =? -1) || negb (d_left =? d_right)
                 then -1 else d_left)
  end.

(** [rbtree_size] and [rbtree_empty] *)
Definition rbtree_size (t : rb_tree) : option Z :=
  match rb_root t with None => Some 0 | Some _ => rb_size (depth t) t (rb_root t) end.
Definition rbtree_empty (t : rb_tree) : bool := is_null (rb_root t).

(** A smoke test: sixteen insertions and a few deletions keep the balance. *)
Definition insert_all (ks : list Z) (t : rb_tree) : option rb_tree :=
  foldl (λ ot k, t ← ot; '(_, t) ← rbtree_insert (Z.to_pos k) t [k] (Some (Z.to_pos k)); Some t)
        (Some t) ks.
Definition delete_all (ks : list Z) (t : rb_tree) : option rb_tree :=
  foldl (λ ot k, t ← ot; '(_, _, t) ← rbtree_delete t [k]; Some t) (Some t) ks.

Example rbtree_smoke :
  (t ← insert_all [5; 3; 8; 1; 4; 7; 9; 2; 6; 16; 15; 14; 13; 12; 11; 10] rbtree_init;
   t ← delete_all [5; 16; 1; 9; 99] t;
   ks ← rbtree_keys t; d ← rbtree_black_depth t; Some (ks, bool_decide (0 < d)))
  = Some ([[2]; [3]; [4]; [6]; [7]; [8]; [10]; [11]; [12]; [13]; [14]; [15]], true).
Proof. vm_compute. reflexivity. Qed.
