(* ===== verification/RBHeap.v ===== *)
(** Red-black trees in the heap.

    A ghost [tree] records the shape of the tree with the addresses of its
    nodes; a [path] is the context of a subtree.  [rbt] says that a heap holds
    such a tree, parent pointers included.  The lemmas below give the effect
    of each pointer operation of RBTree.v on the ghost tree; what the loops do
    to colours and keys is then reasoned about on trees alone. *)

From S2P Require Import Prelude RBTree.

Inductive tree := E | T (l : loc) (c : rb_color) (k : cstr) (v : ptr) (a b : tree).

(** A node whose subtree on side [d] is [x]. *)
Definition mk (d : dir) l c k v (x y : tree) : tree :=
  match d with DL => T l c k v x y | DR => T l c k v y x end.

(** A frame: a node with a hole on side [fr_d]. *)
Record frame := F { fr_d : dir; fr_l : loc; fr_c : rb_color; fr_k : cstr; fr_v : ptr; fr_sib : tree }.
Abbreviation path := (list frame).

Fixpoint plug (ps : path) (t : tree) : tree :=
  match ps with
  | [] => t
  | F d l c k v s :: ps' => plug ps' (mk d l c k v t s)
  end.

Definition root (t : tree) : ptr := match t with E => NULL | T l _ _ _ _ _ => Some l end.
Definition ctx_ptr (ps : path) : ptr := match ps with [] => NULL | f :: _ => Some (fr_l f) end.
Fixpoint ctx_root (ps : path) (p : ptr) : ptr :=
  match ps with [] => p | f :: ps' => ctx_root ps' (Some (fr_l f)) end.

Fixpoint locs (t : tree) : list loc :=
  match t with E => [] | T l _ _ _ a b => l :: locs a ++ locs b end.
Fixpoint locsp (ps : path) : list loc :=
  match ps with [] => [] | f :: ps' => fr_l f :: locs (fr_sib f) ++ locsp ps' end.

Fixpoint kvs (t : tree) : list (cstr * ptr) :=
  match t with E => [] | T _ _ k v a b => kvs a ++ (k, v) :: kvs b end.

(** A heap node from its children on side [d] and on the other side. *)
Definition mkn (d : dir) k v c p (x y : ptr) : rb_node :=
  match d with DL => RBNode k v c p x y | DR => RBNode k v c p y x end.

Fixpoint rep (h : heap rb_node) (p : ptr) (t : tree) : Prop :=
  match t with
  | E => True
  | T l c k v a b =>
      h !! l = Some (RBNode k v c p (root a) (root b)) ∧ rep h (Some l) a ∧ rep h (Some l) b
  end.

Fixpoint repc (h : heap rb_node) (ps : path) (hole : ptr) : Prop :=
  match ps with
  | [] => True
  | F d l c k v s :: ps' =>
      h !! l = Some (mkn d k v c (ctx_ptr ps') hole (root s)) ∧ rep h (Some l) s ∧
      repc h ps' (Some l)
  end.

(** The heap of the tree structure [tr] holds [t]; [D] is the set of all
    allocated nodes and [dsp] the dispose flag. *)
Definition rbt (D : gset loc) (dsp : bool) (tr : rb_tree) (t : tree) : Prop :=
  rep (rb_heap tr) NULL t ∧ NoDup (locs t) ∧ rb_root tr = root t ∧
  dom (rb_heap tr) = D ∧ rb_disp tr = dsp.

(** * Shape lemmas *)

Lemma root_mk d l c k v x y : root (mk d l c k v x y) = Some l.
Proof. by destruct d. Qed.

Lemma root_plug ps t : root (plug ps t) = ctx_root ps (root t).
Proof.
  revert t. induction ps as [|[] ps IH]; intros t; [done|]. simpl. by rewrite IH, root_mk.
Qed.

Lemma locs_mk d l c k v x y : locs (mk d l c k v x y) ≡ₚ l :: locs x ++ locs y.
Proof. destruct d; simpl; [done|]. by rewrite (Permutation_app_comm (locs y)). Qed.

Lemma locs_plug ps t : locs (plug ps t) ≡ₚ locs t ++ locsp ps.
Proof.
  revert t. induction ps as [|[d l c k v s] ps IH]; intros t; simpl; [by rewrite app_nil_r|].
  rewrite IH, locs_mk. simpl. rewrite <-app_assoc. by rewrite Permutation_middle.
Qed.

Lemma rep_mk h p d l c k v x y :
  rep h p (mk d l c k v x y) ↔
  h !! l = Some (mkn d k v c p (root x) (root y)) ∧ rep h (Some l) x ∧ rep h (Some l) y.
Proof. destruct d; simpl; tauto. Qed.

Lemma rep_plug h ps t : rep h NULL (plug ps t) ↔ rep h (ctx_ptr ps) t ∧ repc h ps (root t).
Proof.
  revert t. induction ps as [|[d l c k v s] ps IH]; intros t; simpl; [tauto|].
  rewrite IH, rep_mk, root_mk. tauto.
Qed.

Lemma child_mkn d k v c p x y : child d (mkn d k v c p x y) = x.
Proof. by destruct d. Qed.
Lemma child_opp_mkn d k v c p x y : child (opp d) (mkn d k v c p x y) = y.
Proof. by destruct d. Qed.
Lemma set_child_mkn d q k v c p x y : set_child d q (mkn d k v c p x y) = mkn d k v c p q y.
Proof. by destruct d. Qed.
Lemma set_child_opp_mkn d q k v c p x y :
  set_child (opp d) q (mkn d k v c p x y) = mkn d k v c p x q.
Proof. by destruct d. Qed.
Lemma set_parent_mkn d q k v c p x y : set_parent q (mkn d k v c p x y) = mkn d k v c q x y.
Proof. by destruct d. Qed.
Lemma set_col_mkn d c' k v c p x y : set_col c' (mkn d k v c p x y) = mkn d k v c' p x y.
Proof. by destruct d. Qed.
Lemma parent_mkn d k v c p x y : rb_parent (mkn d k v c p x y) = p.
Proof. by destruct d. Qed.
Lemma col_mkn d k v c p x y : rb_col (mkn d k v c p x y) = c.
Proof. by destruct d. Qed.

Create Rewrite HintDb mkn.
#[export] Hint Rewrite child_mkn child_opp_mkn set_child_mkn set_child_opp_mkn set_parent_mkn
  set_col_mkn parent_mkn col_mkn root_mk : mkn.

Lemma rep_agree h h' p t :
  (∀ l, l ∈ locs t → h' !! l = h !! l) → rep h p t → rep h' p t.
Proof.
  revert p. induction t as [|l c k v a IHa b IHb]; intros p Ha; simpl; [done|].
  simpl in Ha. intros (Hl & H1 & H2). split_and!.
  - rewrite Ha; [done|]. by left.
  - apply IHa; [|done]. intros. apply Ha. right. apply elem_of_app. by left.
  - apply IHb; [|done]. intros. apply Ha. right. apply elem_of_app. by right.
Qed.

Lemma repc_agree h h' ps p :
  (∀ l, l ∈ locsp ps → h' !! l = h !! l) → repc h ps p → repc h' ps p.
Proof.
  revert p. induction ps as [|[d l c k v s] ps IH]; intros p Ha; simpl; [done|].
  simpl in Ha. intros (Hl & H1 & H2). split_and!.
  - rewrite Ha; [done|]. by left.
  - eapply rep_agree; [|done]. intros. apply Ha. right. apply elem_of_app. by left.
  - apply IH; [|done]. intros. apply Ha. right. apply elem_of_app. by right.
Qed.

Lemma rep_root h p t l : rep h p t → root t = Some l → ∃ n, h !! l = Some n ∧ rb_parent n = p.
Proof. destruct t; simpl; [done|]. intros (Hl & _) [= <-]. eauto. Qed.

Lemma root_locs t l : root t = Some l → l ∈ locs t.
Proof. destruct t; simpl; [done|]. intros [= <-]. by left. Qed.

(** Split a [NoDup] of concatenations into non-membership facts. *)
Ltac nodup H :=
  repeat (cbn [app] in H; try rewrite <-app_assoc in H);
  repeat first [rewrite NoDup_cons in H | rewrite NoDup_app in H
               | rewrite not_elem_of_app in H | rewrite not_elem_of_cons in H
               | setoid_rewrite not_elem_of_app in H | setoid_rewrite not_elem_of_cons in H];
  repeat match goal with H' : _ ∧ _ |- _ => destruct H' end.

(** Two addresses of disjoint parts of a tree differ. *)
Ltac dj :=
  intros;
  match goal with
  | |- _ ≠ _ => let H := fresh in intros H; subst
  | |- _ ∉ _ => let H := fresh in intros H
  | _ => idtac
  end;
  repeat match goal with
  | H1 : ?z ∉ ?A, H2 : ?z ∈ ?A |- _ => destruct (H1 H2)
  | H1 : ?z ≠ ?z |- _ => destruct (H1 eq_refl)
  | H : ∀ z, z ∈ ?A → _, H1 : ?j ∈ ?A |- _ =>
      let G := fresh in pose proof (H j H1) as G; clear H;
      repeat match goal with G' : _ ∧ _ |- _ => destruct G' end
  end; try congruence.

(** * Reading *)

Section rbt.
Context {D : gset loc} {dsp : bool}.
Implicit Types (tr : rb_tree) (ps : path) (t a b : tree).

Lemma rbt_split tr ps t :
  rbt D dsp tr (plug ps t) ↔
  rep (rb_heap tr) (ctx_ptr ps) t ∧ repc (rb_heap tr) ps (root t) ∧
  NoDup (locs t ++ locsp ps) ∧ rb_root tr = ctx_root ps (root t) ∧
  dom (rb_heap tr) = D ∧ rb_disp tr = dsp.
Proof. unfold rbt. rewrite rep_plug, locs_plug, root_plug. tauto. Qed.

(** The node at the focus. *)
Lemma rbt_get tr ps d l c k v x y :
  rbt D dsp tr (plug ps (mk d l c k v x y)) →
  get tr (Some l) = Some (mkn d k v c (ctx_ptr ps) (root x) (root y)).
Proof. rewrite rbt_split, rep_mk. intros ((H & _) & _). done. Qed.

(** Writing a node at the focus without touching its links. *)
Lemma rbt_set tr ps d l c k v x y f c' k' v' :
  rbt D dsp tr (plug ps (mk d l c k v x y)) →
  f (mkn d k v c (ctx_ptr ps) (root x) (root y)) =
    mkn d k' v' c' (ctx_ptr ps) (root x) (root y) →
  ∃ tr', upd tr (Some l) f = Some tr' ∧ rbt D dsp tr' (plug ps (mk d l c' k' v' x y)).
Proof.
  intros Hr Hf. pose proof (rbt_get _ _ _ _ _ _ _ _ _ Hr) as Hg. unfold get in Hg. simpl in Hg.
  unfold upd. rewrite (store_Some _ _ _ _ Hg), Hf. simpl. eexists. split; [done|].
  apply rbt_split in Hr as (H1 & H2 & H3 & H4 & H5 & H6). apply rbt_split. simpl.
  rewrite locs_mk in *. rewrite rep_mk, root_mk in *. destruct H1 as (_ & Hx & Hy).
  rewrite lookup_insert_eq. simpl in H3. apply NoDup_cons in H3 as [Hni H3].
  assert (∀ j, j ∈ locs x ++ locs y ++ locsp ps → ∀ n, <[l:=n]> (rb_heap tr) !! j = rb_heap tr !! j) as Hag.
  { intros j Hj n. apply lookup_insert_ne. intros ->. apply Hni. by rewrite <-app_assoc. }
  split_and!; try done.
  - eapply rep_agree; [|done]. intros. apply Hag. rewrite elem_of_app. auto.
  - eapply rep_agree; [|done]. intros. apply Hag. rewrite !elem_of_app. auto.
  - eapply repc_agree; [|done]. intros. apply Hag. rewrite !elem_of_app. auto.
  - constructor; done.
  - rewrite dom_insert_L, H5. apply elem_of_dom_2 in Hg. set_solver.
Qed.

(** * Links *)

(** Replacing the child of the parent of [n]: only the path changes. *)
Lemma relink_spec tr ps n nn q :
  rb_heap tr !! n = Some nn → rb_parent nn = ctx_ptr ps → repc (rb_heap tr) ps (Some n) →
  n ∉ locsp ps → NoDup (locsp ps) →
  ∃ tr', relink tr (Some n) q = Some tr' ∧ repc (rb_heap tr') ps q ∧
    (∀ j, j ∉ locsp ps → rb_heap tr' !! j = rb_heap tr !! j) ∧
    dom (rb_heap tr') = dom (rb_heap tr) ∧ rb_disp tr' = rb_disp tr ∧
    rb_root tr' = match ps with [] => q | _ => rb_root tr end.
Proof.
  intros Hn Hp Hc Hni Hnd. unfold relink, parent_of, get. simpl. rewrite Hn. simpl. rewrite Hp.
  destruct ps as [|[d l c k v s] ps]; simpl; [eexists; by split_and!|].
  simpl in *. destruct Hc as (Hl & Hs & Hc). rewrite Hl. simpl.
  apply not_elem_of_cons in Hni as [Hnl [Hns Hnp]%not_elem_of_app].
  apply NoDup_cons in Hnd as [Hlni Hnd]. apply not_elem_of_app in Hlni as [Hls Hlp].
  assert (∀ u, u = RBTree (rb_root tr) (rb_disp tr)
      (<[l := mkn d k v c (ctx_ptr ps) q (root s)]> (rb_heap tr)) →
    (rb_heap u !! l = Some (mkn d k v c (ctx_ptr ps) q (root s)) ∧ rep (rb_heap u) (Some l) s ∧
     repc (rb_heap u) ps (Some l)) ∧
    (∀ j, j ∉ l :: locs s ++ locsp ps → rb_heap u !! j = rb_heap tr !! j) ∧
    dom (rb_heap u) = dom (rb_heap tr) ∧ rb_disp u = rb_disp tr ∧ rb_root u = rb_root tr) as Hfin.
  { intros u ->. simpl. rewrite lookup_insert_eq. split_and!; try done.
    - eapply rep_agree; [|done]. intros. apply lookup_insert_ne. dj.
    - eapply repc_agree; [|done]. intros. apply lookup_insert_ne. dj.
    - intros j [Hj _]%not_elem_of_cons. by apply lookup_insert_ne.
    - rewrite dom_insert_L. apply elem_of_dom_2 in Hl. set_solver. }
  unfold upd. rewrite !(store_Some _ _ _ _ Hl). destruct d; simpl.
  - rewrite ptr_eqb_refl. simpl. eexists. split; [done|]. by apply Hfin.
  - assert (ptr_eqb (Some n) (root s) = false) as ->.
    { apply ptr_eqb_neq. intros Heq. apply Hns. by apply root_locs. }
    simpl. eexists. split; [done|]. by apply Hfin.
Qed.

(** Re-parenting a subtree. *)
Lemma set_root_parent tr p p' t :
  rep (rb_heap tr) p t → NoDup (locs t) →
  ∃ tr', match root t with Some _ => upd tr (root t) (set_parent p') | None => Some tr end = Some tr' ∧
    rep (rb_heap tr') p' t ∧ (∀ j, j ∉ locs t → rb_heap tr' !! j = rb_heap tr !! j) ∧
    dom (rb_heap tr') = dom (rb_heap tr) ∧ rb_disp tr' = rb_disp tr ∧ rb_root tr' = rb_root tr.
Proof.
  intros Hr Hnd. destruct t as [|l c k v a b]; simpl in *; [eexists; by split_and!|].
  destruct Hr as (Hl & Ha & Hb). unfold upd. rewrite (store_Some _ _ _ _ Hl). simpl.
  eexists. split; [done|]. simpl. rewrite lookup_insert_eq. nodup Hnd. split_and!; try done.
  - eapply rep_agree; [|done]. intros. apply lookup_insert_ne. dj.
  - eapply rep_agree; [|done]. intros. apply lookup_insert_ne. dj.
  - intros j [Hj _]%not_elem_of_cons. by apply lookup_insert_ne.
  - rewrite dom_insert_L. apply elem_of_dom_2 in Hl. set_solver.
Qed.

(** A rotation at the focus. *)
Lemma rbt_rotate tr ps d n cn kn vn a x cx kx vx b c :
  rbt D dsp tr (plug ps (mk d n cn kn vn a (mk d x cx kx vx b c))) →
  ∃ tr', rb_rotate d tr (Some n) = Some tr' ∧
    rbt D dsp tr' (plug ps (mk d x cx kx vx (mk d n cn kn vn a b) c)).
Proof.
  intros Hr. pose proof (rbt_get _ _ _ _ _ _ _ _ _ Hr) as Hn. unfold get in Hn. simpl in Hn.
  apply rbt_split in Hr as (H1 & H2 & H3 & H4 & H5 & H6).
  rewrite !locs_mk in H3. rewrite !rep_mk, !root_mk in *. destruct H1 as (_ & Ha & Hx & Hb & Hc).
  pose proof H3 as Hnd0. nodup H3. unfold rb_rotate, get. simpl. rewrite Hn. simpl. autorewrite with mkn.
  edestruct (relink_spec tr ps n _ (Some x) Hn) as (tr1 & -> & Hp1 & Hag1 & Hd1 & Hs1 & Hr1);
    [by autorewrite with mkn|done|done|done|]. simpl.
  rewrite (Hag1 x), Hx by dj. simpl. autorewrite with mkn.
  destruct (set_root_parent tr1 (Some x) (Some n) b) as (tr2 & -> & Hb2 & Hag2 & Hd2 & Hs2 & Hr2).
  { eapply rep_agree; [|done]. intros. apply Hag1. dj. }
  { done. }
  simpl. rewrite (Hag2 x), (Hag1 x), Hx by dj. simpl. autorewrite with mkn.
  unfold upd. simpl. rewrite (Hag2 n), (Hag1 n), Hn by dj. simpl. autorewrite with mkn.
  rewrite (lookup_insert_ne _ n x), (Hag2 x), (Hag1 x), Hx by dj. simpl. autorewrite with mkn.
  rewrite (lookup_insert_ne _ x n), lookup_insert_eq by dj. simpl. autorewrite with mkn.
  rewrite lookup_insert_eq. simpl. autorewrite with mkn.
  rewrite (lookup_insert_ne _ x n), (lookup_insert_ne _ x n), lookup_insert_eq by dj.
  simpl. autorewrite with mkn. eexists. split; [done|]. apply rbt_split. simpl.
  rewrite !rep_mk, !root_mk, !locs_mk, lookup_insert_eq.
  rewrite (lookup_insert_ne _ n x), lookup_insert_eq by dj.
  split; [|split; [|split; [|split; [|split]]]].
  - split_and!; try done.
    + eapply rep_agree; [|exact Ha]. intros j Hj.
      rewrite !lookup_insert_ne, Hag2, Hag1 by dj. done.
    + eapply rep_agree; [|exact Hb2]. intros j Hj. rewrite !lookup_insert_ne by dj. done.
    + eapply rep_agree; [|exact Hc]. intros j Hj.
      rewrite !lookup_insert_ne, Hag2, Hag1 by dj. done.
  - eapply repc_agree; [|exact Hp1]. intros j Hj.
    rewrite !lookup_insert_ne, Hag2 by dj. done.
  - eapply NoDup_Permutation_proper; [|exact Hnd0]. simpl. solve_Permutation.
  - rewrite Hr2, Hr1. by destruct ps.
  - rewrite !dom_insert_L, Hd2, Hd1, H5.
    apply elem_of_dom_2 in Hx, Hn. rewrite H5 in *. set_solver.
  - congruence.
Qed.
End rbt.
