(* ===== verification/RBInsert.v ===== *)
(** Balance and insertion.

    [bal n t]: every path of [t] has [n] black nodes and no red node has a red
    child; [balp n ps] is the same for the context of a subtree of black
    height [n].  The rebalancing loop of [rb_balance_insert] and the insertion
    itself are shown to keep these, and to add exactly the new key. *)

From S2P Require Import Prelude RBTree RBHeap.

Definition red (t : tree) : bool :=
  match t with T _ RB_RED _ _ _ _ => true | _ => false end.

Fixpoint bal (n : nat) (t : tree) : Prop :=
  match t with
  | E => n = O
  | T _ RB_RED _ _ a b => bal n a ∧ bal n b ∧ red a = false ∧ red b = false
  | T _ RB_BLACK _ _ a b => match n with O => False | S m => bal m a ∧ bal m b end
  end.

(** The node above the hole is black (and exists). *)
Definition pblack (ps : path) : Prop :=
  match ps with F _ _ RB_BLACK _ _ _ :: _ => True | _ => False end.

Fixpoint balp (n : nat) (ps : path) : Prop :=
  match ps with
  | [] => True
  | F _ _ RB_RED _ _ s :: ps' => bal n s ∧ red s = false ∧ pblack ps' ∧ balp n ps'
  | F _ _ RB_BLACK _ _ s :: ps' => bal n s ∧ balp (S n) ps'
  end.

(** A red-black tree: balanced, with a black root. *)
Definition RB (t : tree) : Prop := (∃ n, bal n t) ∧ red t = false.

Definition blacken (t : tree) : tree :=
  match t with E => E | T l _ k v a b => T l RB_BLACK k v a b end.

Lemma blacken_id t : red t = false → blacken t = t.
Proof. by destruct t as [|? []]. Qed.

Lemma mk_not_E d l c k v x y : mk d l c k v x y ≠ E.
Proof. by destruct d. Qed.

Lemma plug_not_E ps t : t ≠ E → plug ps t ≠ E.
Proof.
  revert t. induction ps as [|[] ps IH]; intros t Ht; [done|]. simpl. apply IH, mk_not_E.
Qed.

Lemma mk_opp d l c k v x y : mk (opp d) l c k v x y = mk d l c k v y x.
Proof. by destruct d. Qed.

Lemma mk_T d l c k v a b : ∃ x y, T l c k v a b = mk d l c k v x y ∧
  (∀ P : tree → Prop, P a → P b → P x ∧ P y).
Proof. destruct d; [exists a, b|exists b, a]; naive_solver. Qed.

Lemma red_mk d l c k v x y : red (mk d l c k v x y) = bool_decide (c = RB_RED).
Proof. destruct d, c; done. Qed.

Lemma bal_mk_red n d l k v x y :
  bal n (mk d l RB_RED k v x y) ↔ bal n x ∧ bal n y ∧ red x = false ∧ red y = false.
Proof. destruct d; simpl; tauto. Qed.

Lemma bal_mk_black n d l k v x y :
  bal n (mk d l RB_BLACK k v x y) ↔ match n with O => False | S m => bal m x ∧ bal m y end.
Proof. destruct d, n; simpl; tauto. Qed.

(** Rebalancing keeps the entries in order and the set of nodes: the
    equivalence it respects. *)
#[global] Instance tree_equiv : Equiv tree := λ t t', kvs t = kvs t' ∧ locs t ≡ₚ locs t'.

#[global] Instance tree_equivalence : Equivalence (≡@{tree}).
Proof.
  split; [by split|by intros ? ? []|].
  intros ? ? ? [H1 H2] [H3 H4]. split; [congruence|by rewrite H2].
Qed.

Lemma mk_equiv d l c c' k v x y x' y' :
  x ≡ x' → y ≡ y' → mk d l c k v x y ≡ mk d l c' k v x' y'.
Proof.
  intros [H1 H2] [H3 H4]. split; [destruct d; simpl; by rewrite H1, H3|].
  by rewrite !locs_mk, H2, H4.
Qed.

Lemma rotate_equiv d n cn kn vn x cx kx vx a b c cn' cx' :
  mk d x cx' kx vx (mk d n cn' kn vn a b) c ≡ mk d n cn kn vn a (mk d x cx kx vx b c).
Proof.
  split; [destruct d; simpl; rewrite <-!app_assoc; done|].
  rewrite !locs_mk. simpl. solve_Permutation.
Qed.

#[global] Instance plug_proper ps : Proper ((≡) ==> (≡)) (plug ps).
Proof.
  induction ps as [|[d l c k v s] ps IH]; intros t t' H; simpl; [done|].
  apply IH. by apply mk_equiv.
Qed.

Lemma plug_bal n ps t :
  bal n t → balp n ps → (red t = false ∨ pblack ps) → RB (plug ps t) ∨ (ps = [] ∧ ∃ n, bal n t).
Proof.
  revert n t. induction ps as [|[d l c k v s] ps IH]; intros n t Ht Hp Hc; [by eauto|].
  left. simpl in *. destruct c; simpl in *.
  - destruct Hp as (Hs & Hsr & Hpb & Hp).
    destruct (IH n (mk d l RB_RED k v t s)) as [|[-> _]]; [|done|auto|done|done].
    apply bal_mk_red. split_and!; try done. by destruct Hc.
  - destruct Hp as [Hs Hp].
    assert (bal (S n) (mk d l RB_BLACK k v t s)) as Hb by (by apply bal_mk_black).
    destruct (IH (S n) _ Hb Hp) as [|[-> _]]; [left; by rewrite red_mk|done|].
    split; [eauto|]. simpl. by rewrite red_mk.
Qed.

Lemma plug_RB n ps t :
  bal n t → balp n ps → red t = false ∨ pblack ps → RB (plug ps t).
Proof.
  intros Ht Hp Hc. destruct (plug_bal n ps t Ht Hp Hc) as [|[-> [m Hm]]]; [done|].
  destruct Hc as [Hr|[]]. by split; eauto.
Qed.

Lemma unplug_RB ps t :
  RB (plug ps t) → ∃ n, bal n t ∧ balp n ps ∧ (red t = false ∨ pblack ps).
Proof.
  revert t. induction ps as [|[d l c k v s] ps IH]; intros t H; simpl in *.
  - destruct H as [[n Hn] Hr]. exists n. auto.
  - destruct (IH _ H) as (n & Hb & Hp & Hc). rewrite red_mk in Hc. destruct c; simpl in Hc.
    + apply bal_mk_red in Hb as (? & ? & ? & ?). exists n. simpl. destruct Hc; [done|]. tauto.
    + apply bal_mk_black in Hb. destruct n; [done|]. destruct Hb. exists n. simpl. tauto.
Qed.

(** * Reading colours, parents and sides *)

Section read.
Context {D : gset loc} {dsp : bool}.
Implicit Types (tr : rb_tree) (ps : path) (t : tree).

Lemma rbt_parent tr ps d l c k v x y :
  rbt D dsp tr (plug ps (mk d l c k v x y)) → parent_of tr (Some l) = Some (ctx_ptr ps).
Proof. intros H. unfold parent_of. rewrite (rbt_get _ _ _ _ _ _ _ _ _ H). simpl. by rewrite parent_mkn. Qed.

Lemma rbt_nob tr ps t :
  rbt D dsp tr (plug ps t) → null_or_black tr (root t) = Some (negb (red t)).
Proof.
  intros H. destruct t as [|l c k v a b]; [done|]. simpl.
  rewrite (rbt_get tr ps DL l c k v a b H). simpl. by destruct c.
Qed.

Lemma rbt_side tr ps d l c k v x y p :
  rbt D dsp tr (plug ps (mk d l c k v x y)) → root x = p → not_null p = true ∨ y ≠ E →
  (if ptr_eqb p (rb_left (mkn d k v c (ctx_ptr ps) (root x) (root y))) then DL else DR) = d.
Proof.
  intros (_ & _ & H3 & _)%rbt_split Hp Hc. rewrite locs_mk in H3. destruct d; simpl.
  - by rewrite Hp, ptr_eqb_refl.
  - assert (ptr_eqb p (root y) = false) as ->; [|done]. apply ptr_eqb_neq. intros ->.
    destruct y as [|ly]; [by destruct Hc|].
    apply root_locs in Hp. simpl in *. nodup H3. dj.
Qed.
End read.

(** * The loop of [rb_balance_insert] *)

Section insert_loop.
Context {D : gset loc} {dsp : bool}.
Implicit Types (tr : rb_tree) (ps : path) (t : tree).

(** The second half of the rotation case: recolour and rotate the
    grandparent.  [node] is the outer child of its parent. *)
Definition outer_step (d : dir) (tr : rb_tree) (node : ptr) : option (rb_tree * ptr) :=
  p ← parent_of tr node;
  tr ← upd tr p (set_col RB_BLACK);
  g ← grandparent_of tr node;
  tr ← upd tr g (set_col RB_RED);
  g ← grandparent_of tr node;
  tr ← rb_rotate (opp d) tr g;
  Some (tr, node).

Lemma outer_step_spec d tr ps g kg vg p kp vp dn l k v x y s u :
  rbt D dsp tr (plug ps (mk d g RB_BLACK kg vg
    (mk d p RB_RED kp vp (mk dn l RB_RED k v x y) s) u)) →
  ∃ tr', outer_step d tr (Some l) = Some (tr', Some l) ∧
    rbt D dsp tr' (plug ps (mk d p RB_BLACK kp vp (mk dn l RB_RED k v x y)
      (mk d g RB_RED kg vg s u))).
Proof.
  intros H. unfold outer_step.
  rewrite (rbt_parent tr (F d p RB_RED kp vp s :: F d g RB_BLACK kg vg u :: ps) _ _ _ _ _ _ _ H).
  simpl.
  destruct (rbt_set tr (F d g RB_BLACK kg vg u :: ps) d p RB_RED kp vp (mk dn l RB_RED k v x y) s
              (set_col RB_BLACK) RB_BLACK kp vp H (set_col_mkn _ _ _ _ _ _ _ _))
    as (tr1 & -> & H1). simpl. unfold grandparent_of.
  rewrite (rbt_parent tr1 (F d p RB_BLACK kp vp s :: F d g RB_BLACK kg vg u :: ps) _ _ _ _ _ _ _ H1).
  simpl. rewrite (rbt_parent tr1 (F d g RB_BLACK kg vg u :: ps) _ _ _ _ _ _ _ H1). simpl.
  destruct (rbt_set tr1 ps d g RB_BLACK kg vg (mk d p RB_BLACK kp vp (mk dn l RB_RED k v x y) s) u
              (set_col RB_RED) RB_RED kg vg H1 (set_col_mkn _ _ _ _ _ _ _ _))
    as (tr2 & -> & H2). simpl.
  rewrite (rbt_parent tr2 (F d p RB_BLACK kp vp s :: F d g RB_RED kg vg u :: ps) _ _ _ _ _ _ _ H2).
  simpl. rewrite (rbt_parent tr2 (F d g RB_RED kg vg u :: ps) _ _ _ _ _ _ _ H2). simpl.
  rewrite <-(mk_opp d g), <-(mk_opp d p) in H2.
  destruct (rbt_rotate _ _ _ _ _ _ _ _ _ _ _ _ _ _ H2) as (tr3 & -> & H3). simpl.
  rewrite !mk_opp in H3. eauto.
Qed.

(** The rotation case as a whole, the parent being on side [d1] of [node]. *)
Lemma insert_rotate_spec d tr ps g kg vg d1 p kp vp l k v x y s u :
  rbt D dsp tr (plug ps (mk d g RB_BLACK kg vg
    (mk d1 p RB_RED kp vp (mk d l RB_RED k v x y) s) u)) →
  ∃ tr' node P kP vP dn kN vN x' y' s',
    rb_balance_insert_rotate d tr (Some l) = Some (tr', Some node) ∧
    let N := mk dn node RB_RED kN vN x' y' in
    let t' := mk d P RB_BLACK kP vP N (mk d g RB_RED kg vg s' u) in
    rbt D dsp tr' (plug ps t') ∧
    t' ≡ mk d g RB_BLACK kg vg (mk d1 p RB_RED kp vp (mk d l RB_RED k v x y) s) u ∧
    (∀ Q : tree → Prop, Q x → Q y → Q s → Q x' ∧ Q y' ∧ Q s').
Proof.
  intros H. unfold rb_balance_insert_rotate.
  rewrite (rbt_parent tr (F d1 p RB_RED kp vp s :: F d g RB_BLACK kg vg u :: ps) _ _ _ _ _ _ _ H).
  simpl. rewrite (rbt_get tr (F d g RB_BLACK kg vg u :: ps) d1 p _ _ _ _ _ H). simpl.
  destruct (decide (d1 = d)) as [->|Hd].
  - assert (ptr_eqb (Some l) (child (opp d) (mkn d kp vp RB_RED (Some g)
              (root (mk d l RB_RED k v x y)) (root s))) = false) as ->.
    { rewrite child_opp_mkn. apply ptr_eqb_neq. intros Hs%eq_sym%root_locs.
      apply (rbt_split tr (F d g RB_BLACK kg vg u :: ps)) in H as (_ & _ & H3 & _).
      rewrite !locs_mk in H3. nodup H3. dj. }
    simpl. fold (outer_step d tr (Some l)).
    destruct (outer_step_spec _ _ _ _ _ _ _ _ _ _ _ _ _ _ _ _ _ H) as (tr' & -> & H').
    eexists tr', l, p, kp, vp, d, k, v, x, y, s. split; [done|]. split; [done|].
    split; [|naive_solver]. rewrite <-!(mk_opp d g), <-!(mk_opp d p). apply rotate_equiv.
  - assert (d1 = opp d) as -> by (by destruct d, d1).
    rewrite child_mkn, root_mk, ptr_eqb_refl. rewrite mk_opp in H.
    destruct (rbt_rotate tr (F d g RB_BLACK kg vg u :: ps) d p RB_RED kp vp s l RB_RED k v x y H)
      as (tr1 & -> & H1). simpl.
    fold (outer_step d tr1 (Some p)).
    destruct (outer_step_spec d tr1 ps g kg vg l k v d p kp vp s x y u H1) as (tr' & -> & H').
    eexists tr', p, l, k, v, d, kp, vp, s, x, y. split; [done|]. split; [done|].
    split; [|naive_solver]. rewrite (mk_opp d p), <-(mk_opp d g), <-(mk_opp d l).
    rewrite (rotate_equiv (opp d) g RB_BLACK kg vg l RB_RED k v), mk_opp, (mk_opp d l).
    apply mk_equiv; [|done]. apply rotate_equiv.
Qed.

(** The loop ends; keys are kept, and only the root may be left red. *)
Lemma insert_loop_spec fuel tr ps l k v a b n :
  (length ps < fuel)%nat →
  rbt D dsp tr (plug ps (T l RB_RED k v a b)) →
  bal n a → bal n b → red a = false → red b = false → balp n ps →
  ∃ tr' t', rb_balance_insert_loop fuel tr (Some l) = Some tr' ∧ rbt D dsp tr' t' ∧
    t' ≡ plug ps (T l RB_RED k v a b) ∧ (∃ m, bal m (blacken t')) ∧ t' ≠ E.
Proof.
  revert tr ps l k v a b n. induction fuel as [|fuel IH]; [lia|].
  intros tr ps l k v a b n Hf H Ha Hb Hra Hrb Hp. simpl.
  rewrite (rbt_parent tr ps DL l _ _ _ a b H). simpl.
  assert (∀ tr1 t1, rbt D dsp tr1 t1 → t1 ≡ plug ps (T l RB_RED k v a b) → RB t1 → t1 ≠ E →
    ∃ tr' t', Some tr1 = Some tr' ∧ rbt D dsp tr' t' ∧
      t' ≡ plug ps (T l RB_RED k v a b) ∧ (∃ m, bal m (blacken t')) ∧ t' ≠ E) as Hdone.
  { intros tr1 t1 Hr1 Hk1 [[m Hm] Hred] Hne. exists tr1, t1. rewrite blacken_id by done. eauto 6. }
  destruct ps as [|[d1 p c1 kp vp s] ps].
  { simpl. eexists _, _. split; [done|]. split; [exact H|]. split; [done|].
    split; [|done]. exists (S n). by split. }
  simpl. rewrite (rbt_get tr ps d1 p _ _ _ _ _ H). simpl. rewrite col_mkn.
  destruct c1; simpl in Hp; cycle 1.
  { rewrite bool_decide_true by done. apply (Hdone _ _ H); [done| |by apply plug_not_E].
    apply (plug_RB n (F d1 p RB_BLACK kp vp s :: ps)); simpl; auto. }
  rewrite bool_decide_false by done.
  destruct Hp as (Hs & Hrs & Hpb & Hp). destruct ps as [|[d2 g c2 kg vg u] ps]; [done|].
  simpl in Hpb. destruct c2; [done|]. destruct Hp as [Hu Hp]. simpl in Hf.
  assert (rb_uncle tr (Some l) = Some (root u)) as ->.
  { unfold rb_uncle.
    rewrite (rbt_parent tr (F d1 p RB_RED kp vp s :: F d2 g RB_BLACK kg vg u :: ps) DL l _ _ _ _ _ H).
    simpl. rewrite (rbt_parent tr (F d2 g RB_BLACK kg vg u :: ps) _ _ _ _ _ _ _ H). simpl.
    rewrite (rbt_get tr ps d2 g _ _ _ _ _ H). simpl. f_equal.
    pose proof (rbt_side tr ps d2 g RB_BLACK kg vg (mk d1 p RB_RED kp vp (T l RB_RED k v a b) s) u
      (Some p) H (root_mk _ _ _ _ _ _ _) (or_introl eq_refl)) as Hside.
    destruct (ptr_eqb _ _), d2; done. }
  simpl. rewrite (rbt_nob tr (F (opp d2) g RB_BLACK kg vg (mk d1 p RB_RED kp vp (T l RB_RED k v a b) s) :: ps) u)
    by (simpl; by rewrite mk_opp). simpl. rewrite negb_involutive.
  destruct (red u) eqn:Hru.
  - (* red uncle: recolour and go up *)
    destruct u as [|lu [] ku vu ua ub]; [done| |done]. simpl in Hu. destruct Hu as (Hua & Hub & Hrua & Hrub).
    destruct (rbt_set tr (F d2 g RB_BLACK kg vg (T lu RB_RED ku vu ua ub) :: ps) d1 p RB_RED kp vp
      (T l RB_RED k v a b) s (set_col RB_BLACK) RB_BLACK kp vp H (set_col_mkn _ _ _ _ _ _ _ _))
      as (tr1 & -> & H1). cbn [plug] in H1. simpl. rewrite <-(mk_opp d2 g) in H1.
    destruct (rbt_set tr1 (F (opp d2) g RB_BLACK kg vg (mk d1 p RB_BLACK kp vp (T l RB_RED k v a b) s) :: ps)
      DL lu RB_RED ku vu ua ub (set_col RB_BLACK) RB_BLACK ku vu H1 (set_col_mkn _ _ _ _ _ _ _ _))
      as (tr2 & -> & H2). cbn [plug mk] in H2. simpl. rewrite (mk_opp d2 g) in H2.
    unfold grandparent_of.
    rewrite (rbt_parent tr2 (F d1 p RB_BLACK kp vp s :: F d2 g RB_BLACK kg vg (T lu RB_BLACK ku vu ua ub) :: ps)
      DL l _ _ _ _ _ H2). simpl.
    rewrite (rbt_parent tr2 (F d2 g RB_BLACK kg vg (T lu RB_BLACK ku vu ua ub) :: ps) _ _ _ _ _ _ _ H2). simpl.
    destruct (rbt_set tr2 ps d2 g RB_BLACK kg vg (mk d1 p RB_BLACK kp vp (T l RB_RED k v a b) s)
      (T lu RB_BLACK ku vu ua ub) (set_col RB_RED) RB_RED kg vg H2 (set_col_mkn _ _ _ _ _ _ _ _))
      as (tr3 & -> & H3). simpl.
    rewrite (rbt_parent tr3 (F d1 p RB_BLACK kp vp s :: F d2 g RB_RED kg vg (T lu RB_BLACK ku vu ua ub) :: ps)
      DL l _ _ _ _ _ H3). simpl.
    rewrite (rbt_parent tr3 (F d2 g RB_RED kg vg (T lu RB_BLACK ku vu ua ub) :: ps) _ _ _ _ _ _ _ H3). simpl.
    assert (∃ x y, mk d2 g RB_RED kg vg (mk d1 p RB_BLACK kp vp (T l RB_RED k v a b) s)
        (T lu RB_BLACK ku vu ua ub) = T g RB_RED kg vg x y ∧
        bal (S n) x ∧ bal (S n) y ∧ red x = false ∧ red y = false) as (x & y & Exy & Hx & Hy & Hrx & Hry).
    { destruct d2; simpl; do 2 eexists; (split; [done|]); split_and!;
        rewrite ?bal_mk_black, ?red_mk; simpl; auto. }
    rewrite Exy in H3.
    destruct (IH tr3 ps g kg vg x y (S n) ltac:(lia) H3 Hx Hy Hrx Hry Hp)
      as (tr' & t' & Hl & Hr' & Hk' & Hb' & Hne').
    exists tr', t'. split_and!; try done. rewrite Hk'. apply plug_proper. rewrite <-Exy.
    apply mk_equiv; [|by apply (mk_equiv DL)]. by apply mk_equiv.
  - (* black uncle: rotate and stop *)
    rewrite (rbt_parent tr (F d2 g RB_BLACK kg vg u :: ps) _ _ _ _ _ _ _ H). simpl.
    rewrite (rbt_get tr ps d2 g _ _ _ _ _ H). simpl.
    rewrite (rbt_side tr ps d2 g RB_BLACK kg vg _ u (Some p) H (root_mk _ _ _ _ _ _ _)
      (or_introl eq_refl)).
    destruct (mk_T d2 l RB_RED k v a b) as (x & y & Exy & HQ).
    destruct (HQ (bal n) Ha Hb) as [Hx Hy]. destruct (HQ (λ t, red t = false) Hra Hrb) as [Hrx Hry].
    rewrite Exy in H.
    destruct (insert_rotate_spec d2 tr ps g kg vg d1 p kp vp l k v x y s u H)
      as (tr1 & node & P & kP & vP & dn & kN & vN & x' & y' & s' & -> & H1 & Hk1 & HQ1). simpl.
    destruct (HQ1 (bal n) Hx Hy Hs) as (Hx' & Hy' & Hs').
    destruct (HQ1 (λ t, red t = false) Hrx Hry Hrs) as (Hrx' & Hry' & Hrs').
    destruct fuel as [|fuel]; [lia|]. simpl.
    rewrite (rbt_parent tr1 (F d2 P RB_BLACK kP vP (mk d2 g RB_RED kg vg s' u) :: ps) _ _ _ _ _ _ _ H1).
    simpl. rewrite (rbt_get tr1 ps d2 P _ _ _ _ _ H1). simpl. rewrite col_mkn, bool_decide_true by done.
    apply (Hdone _ _ H1).
    + simpl. apply plug_proper. rewrite Hk1. apply mk_equiv; [|done]. apply mk_equiv; [|done]. by rewrite Exy.
    + apply (plug_RB (S n)); [|done|left; by rewrite red_mk].
      apply bal_mk_black. rewrite !bal_mk_red. tauto.
    + apply plug_not_E, mk_not_E.
Qed.

(** [rb_balance_insert] restores the red-black invariants. *)
Lemma balance_insert_spec fuel tr ps l k v a b n :
  (length ps < fuel)%nat →
  rbt D dsp tr (plug ps (T l RB_RED k v a b)) →
  bal n a → bal n b → red a = false → red b = false → balp n ps →
  ∃ tr' t', rb_balance_insert fuel tr (Some l) = Some tr' ∧ rbt D dsp tr' t' ∧ RB t' ∧
    t' ≡ plug ps (T l RB_RED k v a b).
Proof.
  intros Hf H Ha Hb Hra Hrb Hp.
  destruct (insert_loop_spec fuel tr ps l k v a b n Hf H Ha Hb Hra Hrb Hp)
    as (tr1 & t1 & Hl & H1 & Hk & [m Hm] & Hne).
  unfold rb_balance_insert. rewrite Hl. simpl. destruct t1 as [|r c1 k1 v1 a1 b1]; [done|].
  pose proof H1 as (_ & _ & Hroot & _). simpl in Hroot. rewrite Hroot.
  destruct (rbt_set tr1 [] DL r c1 k1 v1 a1 b1 (set_col RB_BLACK) RB_BLACK k1 v1 H1
    (set_col_mkn _ _ _ _ _ _ _ _)) as (tr' & -> & H').
  exists tr', (T r RB_BLACK k1 v1 a1 b1). split_and!; try done. split; [by exists m|done].
Qed.
End insert_loop.
