(* ===== verification/RBSearch.v ===== *)
(** Search trees: the descent of [rb_get] and of [rbtree_insert], and the
    read-only walks of the tree ([rb_keys], [rb_range], [rb_min], [rb_size],
    [rb_black_depth], [rb_destroy]). *)

From S2P Require Import Prelude Keyed RBTree RBHeap RBInsert.

(** The entries on the left and on the right of a hole. *)
Fixpoint pl (ps : path) : list (cstr * ptr) :=
  match ps with
  | [] => []
  | F DL _ _ _ _ _ :: ps' => pl ps'
  | F DR _ _ k v s :: ps' => pl ps' ++ kvs s ++ [(k, v)]
  end.
Fixpoint pr (ps : path) : list (cstr * ptr) :=
  match ps with
  | [] => []
  | F DL _ _ k v s :: ps' => (k, v) :: kvs s ++ pr ps'
  | F DR _ _ _ _ _ :: ps' => pr ps'
  end.

Lemma kvs_plug_split ps t : kvs (plug ps t) = pl ps ++ kvs t ++ pr ps.
Proof.
  revert t. induction ps as [|[[] l c k v s] ps IH]; intros t; simpl.
  - by rewrite app_nil_r.
  - rewrite IH. simpl. by list_simplifier.
  - rewrite IH. simpl. by list_simplifier.
Qed.

(** [key] belongs into the hole. *)
Definition between (ps : path) (key : cstr) : Prop :=
  (∀ k, k ∈ (pl ps).*1 → slt k key) ∧ (∀ k, k ∈ (pr ps).*1 → slt key k).

(** The descent from a node: the context and the subtree it ends at. *)
Fixpoint locate (ps : path) (t : tree) (key : cstr) : path * tree :=
  match t with
  | E => (ps, E)
  | T l c k v a b =>
      let cmp := strcmp key k in
      if cmp =? 0 then (ps, t)
      else if cmp <? 0 then locate (F DL l c k v b :: ps) a key
      else locate (F DR l c k v a :: ps) b key
  end.

Lemma locate_plug ps t key :
  let '(ps', t') := locate ps t key in plug ps' t' = plug ps t.
Proof.
  revert ps. induction t as [|l c k v a IHa b IHb]; intros ps; simpl; [done|].
  destruct (strcmp key k =? 0); [done|]. destruct (strcmp key k <? 0); [apply IHa|apply IHb].
Qed.

Lemma locate_spec ps t key ps' t' :
  locate ps t key = (ps', t') → ksorted (kvs t) → between ps key →
  between ps' key ∧
  match t' with E => key ∉ (kvs t).*1 | T _ _ k v _ _ => k = key ∧ (key, v) ∈ kvs t end.
Proof.
  revert ps. induction t as [|l c k v a IHa b IHb]; intros ps; simpl.
  - intros [= <- <-] _ Hb. split; [done|]. apply not_elem_of_nil.
  - rewrite ksorted_app, ksorted_cons. intros Hl (Hsa & [Hsb Hkb] & Hab) [Hb1 Hb2].
    assert (∀ x, x ∈ (kvs a).*1 → slt x k) as Hak by (intros; apply Hab; [done|by left]).
    destruct (Z.eqb_spec (strcmp key k) 0) as [->%strcmp_eq|Hne].
    { simplify_eq. split; [done|]. split; [done|]. set_solver. }
    assert (key ≠ k) by (intros ->; by rewrite strcmp_refl in Hne).
    destruct (Z.ltb_spec (strcmp key k) 0) as [Hlt|Hge].
    + apply IHa in Hl as [Hbt Ht]; [|done|].
      * split; [done|]. destruct t' as [|? ? ? ? ? ?]; [|set_solver].
        rewrite fmap_app, not_elem_of_app. simpl. rewrite not_elem_of_cons.
        split_and!; [done|done|]. intros Hin. apply Hkb in Hin. by apply (slt_asym key k).
      * split; [done|]. simpl. intros x. rewrite elem_of_cons, fmap_app, elem_of_app.
        intros [->|[Hx|Hx]]; [done| |by apply Hb2]. transitivity k; [done|by apply Hkb].
    + assert (slt k key) by (apply strcmp_gt_slt; lia).
      apply IHb in Hl as [Hbt Ht]; [|done|].
      * split; [done|]. destruct t' as [|? ? ? ? ? ?]; [|set_solver].
        rewrite fmap_app, not_elem_of_app. simpl. rewrite not_elem_of_cons.
        split_and!; [|done|done]. intros Hin. apply Hak in Hin. by apply (slt_asym key k).
      * split; [|done]. simpl. intros x. rewrite !fmap_app, !elem_of_app. simpl.
        intros [Hx|[Hx|Hx%list_elem_of_singleton]]; [by apply Hb1| |by subst].
        transitivity k; [by apply Hak|done].
Qed.

Section walks.
Context {D : gset loc} {dsp : bool}.
Implicit Types (tr : rb_tree) (ps : path) (t : tree).

Lemma rbt_get_T tr ps l c k v a b :
  rbt D dsp tr (plug ps (T l c k v a b)) →
  get tr (Some l) = Some (RBNode k v c (ctx_ptr ps) (root a) (root b)).
Proof. apply (rbt_get tr ps DL). Qed.

Lemma rb_get_locate fuel tr ps t key :
  rbt D dsp tr (plug ps t) → (length (locs t) < fuel)%nat →
  rb_get fuel tr (root t) key = Some (root (locate ps t key).2).
Proof.
  revert fuel ps. induction t as [|l c k v a IHa b IHb]; intros fuel ps H Hf.
  - by destruct fuel.
  - destruct fuel as [|fuel]; [simpl in Hf; lia|]. simpl in Hf. rewrite length_app in Hf.
    simpl. rewrite (rbt_get_T _ _ _ _ _ _ _ _ H). simpl.
    destruct (strcmp key k =? 0); [done|]. destruct (strcmp key k <? 0).
    + by apply IHa; [|lia].
    + by apply IHb; [|lia].
Qed.

(** The sign of the last comparison is the side of the hole. *)
Definition top_cmp (ps : path) (cmp : Z) : Prop :=
  match ps with [] => True | f :: _ => (cmp <? 0) = bool_decide (fr_d f = DL) end.

Lemma insert_search_locate fuel tr ps t key cmp :
  rbt D dsp tr (plug ps t) → (length (locs t) < fuel)%nat → top_cmp ps cmp →
  let '(ps', t') := locate ps t key in
  match t' with
  | E => ∃ cmp', insert_search fuel tr key (root t) (ctx_ptr ps) cmp = Some (Some (ctx_ptr ps', cmp')) ∧
                 top_cmp ps' cmp'
  | T _ _ _ _ _ _ => insert_search fuel tr key (root t) (ctx_ptr ps) cmp = Some None
  end.
Proof.
  revert fuel ps cmp. induction t as [|l c k v a IHa b IHb]; intros fuel ps cmp H Hf Hc.
  - destruct fuel; simpl; eauto.
  - destruct fuel as [|fuel]; [simpl in Hf; lia|]. simpl in Hf. rewrite length_app in Hf.
    simpl. rewrite (rbt_get_T _ _ _ _ _ _ _ _ H). simpl.
    destruct (Z.eqb_spec (strcmp key k) 0); [done|]. destruct (strcmp key k <? 0) eqn:Hcmp.
    + apply (IHa fuel (F DL l c k v b :: ps)); [done|lia|done].
    + apply (IHb fuel (F DR l c k v a :: ps)); [done|lia|done].
Qed.
End walks.

(** * Attaching a new leaf *)

Section attach.
Context {D : gset loc} {dsp : bool}.
Implicit Types (tr : rb_tree) (ps : path) (t : tree).

Lemma length_locsp ps : (length ps ≤ length (locsp ps))%nat.
Proof. induction ps as [|[] ps IH]; simpl; rewrite ?length_app; lia. Qed.

(** The assignments of [rbtree_insert] between the search and the balancing. *)
Definition attach (l : loc) (tr : rb_tree) (parent : ptr) (cmp : Z) : option rb_tree :=
  tr ← match parent with
       | None => Some (with_root tr (Some l))
       | Some _ => if cmp <? 0 then upd tr parent (set_child DL (Some l))
                   else upd tr parent (set_child DR (Some l))
       end;
  upd tr (Some l) (set_parent parent).

Lemma attach_spec tr ps l key value cmp :
  rbt D dsp tr (plug ps E) → rb_heap tr !! l = Some (rb_init key value) → l ∉ locsp ps →
  top_cmp ps cmp →
  ∃ tr', attach l tr (ctx_ptr ps) cmp = Some tr' ∧
         rbt D dsp tr' (plug ps (T l RB_RED key value E E)).
Proof.
  intros (_ & H2 & H3 & H4 & H5 & H6)%rbt_split Hl Hni Hc. simpl in *.
  assert (∀ x n, n ∈ dom (rb_heap tr) → dom (<[n := x]> (rb_heap tr)) = dom (rb_heap tr)) as Hdom.
  { intros x n Hn. rewrite dom_insert_L. set_solver. }
  destruct ps as [|[d p c k v s] ps]; unfold attach, upd; simpl in *.
  - rewrite Hl. simpl. eexists. split; [done|]. unfold rbt. simpl. rewrite lookup_insert_eq.
    split_and!; try done; [|by rewrite Hdom; [|eapply elem_of_dom_2]].
    constructor; [apply not_elem_of_nil|constructor].
  - destruct H2 as (Hp & Hs & Hps). apply not_elem_of_cons in Hni as [Hlp Hni].
    apply not_elem_of_app in Hni as [Hls Hlps]. pose proof H3 as Hnd. nodup H3.
    assert (∀ b, (cmp <? 0) = b → (if b then DL else DR) = d) as Hd.
    { intros b <-. rewrite Hc. by destruct d. }
    assert ((h ← (if cmp <? 0 then store (rb_heap tr) (Some p) (set_child DL (Some l))
                  else store (rb_heap tr) (Some p) (set_child DR (Some l)));
             Some (RBTree (rb_root tr) (rb_disp tr) h)) =
            Some (RBTree (rb_root tr) (rb_disp tr)
              (<[p := mkn d k v c (ctx_ptr ps) (Some l) (root s)]> (rb_heap tr)))) as Hset.
    { rewrite !(store_Some _ _ _ _ Hp). specialize (Hd _ eq_refl).
      destruct (cmp <? 0); subst d; done. }
    assert ((if cmp <? 0
      then h ← store (rb_heap tr) (Some p) (set_child DL (Some l)); Some (RBTree (rb_root tr) (rb_disp tr) h)
      else h ← store (rb_heap tr) (Some p) (set_child DR (Some l)); Some (RBTree (rb_root tr) (rb_disp tr) h))
      = Some (RBTree (rb_root tr) (rb_disp tr)
          (<[p := mkn d k v c (ctx_ptr ps) (Some l) (root s)]> (rb_heap tr)))) as Hset'
      by (rewrite <-Hset; by destruct (cmp <? 0)).
    simpl in Hset'. rewrite Hset'. simpl. rewrite lookup_insert_ne, Hl by congruence. simpl.
    eexists. split; [done|]. apply (rbt_split _ (F d p c k v s :: ps)). simpl.
    rewrite lookup_insert_eq, (lookup_insert_ne _ l p), lookup_insert_eq by done.
    split_and!; try done.
    + eapply rep_agree; [|done]. intros j Hj. rewrite !lookup_insert_ne by dj. done.
    + eapply repc_agree; [|done]. intros j Hj. rewrite !lookup_insert_ne by dj. done.
    + constructor; [|done]. notin.
    + rewrite !dom_insert_L, <-H5. apply elem_of_dom_2 in Hp, Hl. set_solver.
Qed.
End attach.

(** * The invariant, and the map a tree stands for *)

(** [tr] is a red-black search tree holding the entries [xs]. *)
Definition rb_inv (tr : rb_tree) (xs : list (cstr * ptr)) : Prop :=
  ∃ t, rbt (list_to_set (locs t)) (rb_disp tr) tr t ∧ RB t ∧ ksorted xs ∧ kvs t = xs.

Lemma rb_inv_init : rb_inv rbtree_init [].
Proof.
  exists E. split_and!; [|by split; [exists O|]|constructor|done].
  split_and!; try done. constructor.
Qed.

Lemma rbt_depth tr t : rbt (list_to_set (locs t)) (rb_disp tr) tr t → depth tr = S (length (locs t)).
Proof.
  intros (_ & Hnd & _ & Hd & _). unfold depth. by rewrite <-size_dom, Hd, size_list_to_set.
Qed.

Lemma rb_inv_get tr xs key :
  rb_inv tr xs →
  ∃ t ps' t', rbt (list_to_set (locs t)) (rb_disp tr) tr t ∧ RB t ∧ ksorted xs ∧ kvs t = xs ∧
    locate [] t key = (ps', t') ∧ plug ps' t' = t ∧
    rb_get (depth tr) tr (rb_root tr) key = Some (root t') ∧ between ps' key ∧
    match t' with E => key ∉ xs.*1 | T _ _ k v _ _ => k = key ∧ (key, v) ∈ xs end.
Proof.
  intros (t & Ht & Hrb & Hs & <-). destruct (locate [] t key) as [ps' t'] eqn:Hl.
  pose proof (locate_plug [] t key) as Hpl. rewrite Hl in Hpl. simpl in Hpl.
  exists t, ps', t'. destruct (locate_spec [] t key ps' t' Hl Hs) as [Hb Hm].
  { split; simpl; set_solver. }
  split_and!; try done. rewrite (rbt_depth _ _ Ht).
  pose proof Ht as (_ & _ & -> & _).
  rewrite (rb_get_locate (S (length (locs t))) tr [] t key Ht ltac:(lia)). by rewrite Hl.
Qed.

(** A new leaf, once attached, is balanced in. *)
Lemma attach_balance l t0 ps key value cmp :
  rbt ({[l]} ∪ list_to_set (locsp ps)) (rb_disp t0) t0 (plug ps E) → RB (plug ps E) →
  rb_heap t0 !! l = Some (rb_init key value) → l ∉ locsp ps → top_cmp ps cmp →
  ksorted (pl ps ++ (key, value) :: pr ps) →
  ∃ t1 tr', attach l t0 (ctx_ptr ps) cmp = Some t1 ∧
    rb_balance_insert (depth t1) t1 (Some l) = Some tr' ∧
    rb_inv tr' (pl ps ++ (key, value) :: pr ps) ∧ rb_disp tr' = rb_disp t0.
Proof.
  intros Ht0 Hrb Hl Hlp Hcmp Hs.
  destruct (attach_spec t0 ps l key value cmp Ht0) as (t1 & Hat & Ht1); [done..|].
  destruct (unplug_RB _ _ Hrb) as (n & Hn & Hp & _). simpl in Hn. subst n.
  assert (length ps < depth t1)%nat as Hdep.
  { destruct Ht1 as (_ & Hnd & _ & Hd & _). unfold depth. rewrite <-size_dom, Hd.
    rewrite locs_plug in Hnd. simpl in Hnd. pose proof (length_locsp ps).
    rewrite size_union_alt. apply NoDup_cons in Hnd as [_ Hnd].
    rewrite difference_disjoint_L by set_solver. rewrite size_list_to_set by done. lia. }
  destruct (balance_insert_spec (depth t1) t1 ps l key value E E 0 Hdep Ht1
    eq_refl eq_refl eq_refl eq_refl Hp) as (t3 & T3 & Hba & Ht3 & HRB & [Hk3 Hl3]).
  exists t1, t3. pose proof Ht3 as (H1 & H2 & H3 & H4 & H5). split_and!; [done|done| |done].
  rewrite kvs_plug_split in Hk3. exists T3. split_and!; try done.
  split_and!; try done. rewrite H4, Hl3, locs_plug. simpl. set_solver.
Qed.

Lemma ksorted_insert ps key value :
  between ps key → ksorted (pl ps ++ pr ps) → ksorted (pl ps ++ (key, value) :: pr ps).
Proof.
  intros [Hl Hr] (H1 & H2 & H3)%ksorted_app. apply ksorted_app. rewrite ksorted_cons.
  split_and!; try done. simpl. intros x y Hx [->|Hy]%elem_of_cons; auto.
Qed.

Lemma insert_spec l tr xs key value :
  rb_inv tr xs → rb_heap tr !! l = None →
  if bool_decide (key ∈ xs.*1) then rbtree_insert l tr key value = Some (NULL, tr)
  else ∃ tr' xs1 xs2, rbtree_insert l tr key value = Some (Some l, tr') ∧
       xs = xs1 ++ xs2 ∧ rb_inv tr' (xs1 ++ (key, value) :: xs2) ∧ rb_disp tr' = rb_disp tr.
Proof.
  intros (t & Ht & Hrb & Hs & <-) Hfr.
  assert (l ∉ locs t) as Hlt.
  { destruct Ht as (_ & _ & _ & Hd & _). apply not_elem_of_dom in Hfr. set_solver. }
  set (t0 := RBTree (rb_root tr) (rb_disp tr) (<[l := rb_init key value]> (rb_heap tr))).
  assert (rbt ({[l]} ∪ list_to_set (locs t)) (rb_disp tr) t0 t) as Ht0.
  { destruct Ht as (H1 & H2 & H3 & H4 & H5). unfold rbt, t0. simpl. split_and!; try done.
    - eapply rep_agree; [|done]. intros. apply lookup_insert_ne. dj.
    - by rewrite dom_insert_L, H4. }
  unfold rbtree_insert. fold t0. rewrite (rbt_depth _ _ Ht).
  pose proof (insert_search_locate (S (length (locs t))) t0 [] t key 0 Ht0 ltac:(lia) I) as Hse.
  pose proof (locate_plug [] t key) as Hpl.
  destruct (locate [] t key) as [ps' t'] eqn:Hl. simpl in Hpl.
  destruct (locate_spec [] t key ps' t' Hl Hs) as [Hb Hm]; [split; simpl; set_solver|].
  assert (rb_root t0 = root t) as -> by (by destruct Ht0 as (_ & _ & ? & _)).
  destruct t' as [|l' c' k' v' a' b'].
  - rewrite bool_decide_false by done. destruct Hse as (cmp & Hse & Hcmp). cbn [ctx_ptr] in Hse. rewrite Hse.
    cbn [mbind option_bind]. subst t. rewrite kvs_plug_split in *. simpl in *.
    assert (l ∉ locsp ps') as Hlp by (rewrite locs_plug in Hlt; done).
    assert (list_to_set (locs (plug ps' E)) =@{gset loc} list_to_set (locsp ps')) as Hset
      by (by rewrite locs_plug).
    rewrite Hset in Ht0.
    destruct (attach_balance l t0 ps' key value cmp Ht0 Hrb) as (t1 & t3 & Hat & Hba & Hi & Hd);
      [by simpl; rewrite lookup_insert_eq|done|done|by apply ksorted_insert|].
    unfold attach in Hat.
    destruct (match ctx_ptr ps' with None => _ | _ => _ end) as [t2|]; [|done]. simpl in Hat |- *.
    rewrite Hat. simpl. rewrite Hba. simpl. exists t3, (pl ps'), (pr ps'). done.
  - rewrite bool_decide_true.
    2: { destruct Hm as [_ Hm]. apply list_elem_of_fmap. by exists (key, v'). }
    cbn [ctx_ptr] in Hse. rewrite Hse. simpl. unfold t0. simpl. rewrite lookup_insert_eq. simpl.
    rewrite lookup_insert_eq. simpl. rewrite delete_insert_id by done. by destruct tr.
Qed.
