(* ===== verification/RBDelete.v ===== *)
(** Deletion from the red-black tree.

    While [rb_balance_delete] runs, the subtree at its [node] is one black
    node short of what its context expects.  The lemmas follow the four cases
    of the loop body; the last part shows that [rbtree_delete] removes exactly
    the entry of its key. *)

From S2P Require Import Prelude Keyed RBTree RBHeap RBInsert RBSearch.

(** A subtree one black node short of height [S n]; a red root makes up for
    it when it is blackened. *)
Definition deficit (n : nat) (t : tree) : Prop :=
  if red t then bal (S n) (blacken t) else bal n t.

Lemma bal_deficit n t : bal n t → deficit n t.
Proof.
  unfold deficit. destruct t as [|l [] k v a b]; simpl; [done| |done]. tauto.
Qed.

Lemma deficit_blacken n t : deficit n t → red t = true → bal (S n) (blacken t).
Proof. unfold deficit. intros H Hr. by rewrite Hr in H. Qed.

Lemma red_blacken t : red (blacken t) = false.
Proof. by destruct t. Qed.

Lemma blacken_equiv t : blacken t ≡ t.
Proof. by destruct t. Qed.

(** The level at which a frame of colour [c] puts its own context. *)
Definition up (c : rb_color) (n : nat) : nat := match c with RB_RED => n | RB_BLACK => S n end.

Lemma balp_frame n d l c k v s ps :
  balp n (F d l c k v s :: ps) ↔
  bal n s ∧ (c = RB_RED → red s = false ∧ pblack ps) ∧ balp (up c n) ps.
Proof. destruct c; simpl; naive_solver. Qed.

Lemma bal_black_mk d n s :
  bal (S n) s → red s = false →
  ∃ l k v a b, s = mk d l RB_BLACK k v a b ∧ bal n a ∧ bal n b.
Proof.
  destruct s as [|l [] k v a b]; simpl; [done..|]. intros [Ha Hb] _.
  destruct d; [exists l, k, v, a, b|exists l, k, v, b, a]; done.
Qed.

Lemma red_mk_inv d n s :
  bal n s → red s = true →
  ∃ l k v a b, s = mk d l RB_RED k v a b ∧ bal n a ∧ bal n b ∧ red a = false ∧ red b = false.
Proof.
  destruct s as [|l [] k v a b]; simpl; [done| |done]. intros (Ha & Hb & Hra & Hrb) _.
  destruct d; [exists l, k, v, a, b|exists l, k, v, b, a]; done.
Qed.

Section delete_loop.
Context {D : gset loc} {dsp : bool}.
Implicit Types (tr : rb_tree) (ps : path) (t : tree).

(** Case 1 of the loop body: after it the sibling is black. *)
Definition delete_case1 (d : dir) (t : rb_tree) (parent : ptr) : option (rb_tree * ptr) :=
  pn ← get t parent;
  let sibling := child (opp d) pn in
  sn ← get t sibling;
  if bool_decide (rb_col sn = RB_RED) then
    t ← upd t sibling (set_col RB_BLACK);
    t ← upd t parent (set_col RB_RED);
    t ← rb_rotate d t parent;
    pn ← get t parent;
    Some (t, child (opp d) pn)
  else Some (t, sibling).

Lemma delete_case1_spec d tr ps p cp kp vp s t n :
  rbt D dsp tr (plug (F d p cp kp vp s :: ps) t) → balp (S n) (F d p cp kp vp s :: ps) →
  ∃ tr' ps' cp' sl sk sv a b,
    let s' := mk d sl RB_BLACK sk sv a b in
    delete_case1 d tr (Some p) = Some (tr', Some sl) ∧
    rbt D dsp tr' (plug (F d p cp' kp vp s' :: ps') t) ∧
    bal n a ∧ bal n b ∧ balp (S n) (F d p cp' kp vp s' :: ps') ∧
    plug (F d p cp' kp vp s' :: ps') t ≡ plug (F d p cp kp vp s :: ps) t ∧
    (cp' = RB_RED ∨ length ps' = length ps).
Proof.
  intros H Hp. pose proof Hp as (Hs & Hc & Hps)%balp_frame.
  unfold delete_case1. simpl in H. rewrite (rbt_get tr ps d p _ _ _ _ _ H). simpl. rewrite child_opp_mkn.
  destruct (red s) eqn:Hr.
  - destruct (red_mk_inv d _ _ Hs Hr) as (sl & sk & sv & a & b & -> & Ha & Hb & Hra & Hrb).
    destruct cp; [by destruct (Hc eq_refl)|]. rewrite root_mk.
    assert (∀ x, mk (opp d) p RB_BLACK kp vp (mk d sl RB_RED sk sv a b) x
      = mk d p RB_BLACK kp vp x (mk d sl RB_RED sk sv a b)) as Hmo by (intros; apply mk_opp).
    rewrite <-Hmo in H.
    rewrite (rbt_get tr (F (opp d) p RB_BLACK kp vp t :: ps) d sl _ _ _ _ _ H). simpl.
    rewrite col_mkn, bool_decide_true by done.
    destruct (rbt_set tr (F (opp d) p RB_BLACK kp vp t :: ps) d sl RB_RED sk sv a b
      (set_col RB_BLACK) RB_BLACK sk sv H (set_col_mkn _ _ _ _ _ _ _ _)) as (tr1 & -> & H1).
    simpl in H1 |- *. rewrite mk_opp in H1.
    destruct (rbt_set tr1 ps d p RB_BLACK kp vp t _ (set_col RB_RED) RB_RED kp vp H1
      (set_col_mkn _ _ _ _ _ _ _ _)) as (tr2 & -> & H2). simpl.
    destruct (rbt_rotate tr2 ps d p _ _ _ t sl _ _ _ a b H2) as (tr3 & -> & H3). simpl.
    rewrite (rbt_get tr3 (F d sl RB_BLACK sk sv b :: ps) d p _ _ _ _ _ H3). simpl.
    rewrite child_opp_mkn.
    destruct (bal_black_mk d _ _ Ha Hra) as (al & ak & av & aa & ab & -> & Haa & Hab).
    exists tr3, (F d sl RB_BLACK sk sv b :: ps), RB_RED, al, ak, av, aa, ab. simpl.
    rewrite root_mk. split_and!; try done; [|by left]. apply plug_proper, rotate_equiv.
  - destruct (bal_black_mk d _ _ Hs Hr) as (sl & sk & sv & a & b & -> & Ha & Hb).
    rewrite root_mk. pose proof H as Hq. rewrite <-mk_opp in Hq.
    rewrite (rbt_get tr (F (opp d) p cp kp vp t :: ps) d sl _ _ _ _ _ Hq). simpl.
    rewrite col_mkn, bool_decide_false by done.
    exists tr, ps, cp, sl, sk, sv, a, b. split_and!; try done. by right.
Qed.

(** Case 3: after it the far child of the sibling is red. *)
Definition delete_case3 (d : dir) (t : rb_tree) (parent sibling : ptr) (sn : rb_node) (far : bool) :
    option (rb_tree * ptr) :=
  if far then
    t ← upd t (child d sn) (set_col RB_BLACK);
    t ← upd t sibling (set_col RB_RED);
    t ← rb_rotate (opp d) t sibling;
    pn ← get t parent;
    Some (t, child (opp d) pn)
  else Some (t, sibling).

Lemma delete_case3_spec d tr ps p cp kp vp sl sk sv a b t n :
  let sn := mkn d sk sv RB_BLACK (Some p) (root a) (root b) in
  rbt D dsp tr (plug ps (mk d p cp kp vp t (mk d sl RB_BLACK sk sv a b))) →
  bal n a → bal n b → red a = true ∨ red b = true →
  ∃ tr' sl' sk' sv' a' fl fk fv fa fb,
    let far := mk d fl RB_RED fk fv fa fb in
    let s' := mk d sl' RB_BLACK sk' sv' a' far in
    delete_case3 d tr (Some p) (Some sl) sn (negb (red b)) = Some (tr', Some sl') ∧
    rbt D dsp tr' (plug ps (mk d p cp kp vp t s')) ∧
    bal n a' ∧ bal n fa ∧ bal n fb ∧ s' ≡ mk d sl RB_BLACK sk sv a b.
Proof.
  intros sn H Ha Hb Hr. unfold delete_case3. destruct (red b) eqn:Hrb; simpl.
  - destruct (red_mk_inv d _ _ Hb Hrb) as (fl & fk & fv & fa & fb & -> & Hfa & Hfb & _).
    exists tr, sl, sk, sv, a, fl, fk, fv, fa, fb. done.
  - destruct Hr as [Hr|]; [|done].
    destruct (red_mk_inv d _ _ Ha Hr) as (al & ak & av & y & x & -> & Hy & Hx & _).
    unfold sn. rewrite child_mkn, root_mk. rewrite <-(mk_opp d p) in H.
    destruct (rbt_set tr (F d sl RB_BLACK sk sv b :: F (opp d) p cp kp vp t :: ps) d al RB_RED ak av y x
      (set_col RB_BLACK) RB_BLACK ak av H (set_col_mkn _ _ _ _ _ _ _ _)) as (tr1 & -> & H1). simpl in H1 |- *.
    destruct (rbt_set tr1 (F (opp d) p cp kp vp t :: ps) d sl RB_BLACK sk sv _ b
      (set_col RB_RED) RB_RED sk sv H1 (set_col_mkn _ _ _ _ _ _ _ _)) as (tr2 & -> & H2). simpl in H2 |- *.
    rewrite <-(mk_opp d al), <-(mk_opp d sl) in H2.
    destruct (rbt_rotate tr2 (F (opp d) p cp kp vp t :: ps) (opp d) sl _ _ _ b al _ _ _ x y H2)
      as (tr3 & -> & H3). simpl in H3 |- *. rewrite !mk_opp in H3.
    rewrite (rbt_get tr3 ps d p _ _ _ _ _ H3). simpl. rewrite child_opp_mkn, root_mk.
    exists tr3, al, ak, av, y, sl, sk, sv, x, b. split_and!; try done.
    symmetry. rewrite <-!(mk_opp d sl), <-!(mk_opp d al). symmetry. apply rotate_equiv.
Qed.

(** Case 4: recolour and rotate; the tree is balanced again. *)
Definition delete_case4 (d : dir) (t : rb_tree) (parent sibling : ptr) : option rb_tree :=
  pn ← get t parent;
  t ← upd t sibling (set_col (rb_col pn));
  t ← upd t parent (set_col RB_BLACK);
  sn ← get t sibling;
  t ← upd t (child (opp d) sn) (set_col RB_BLACK);
  rb_rotate d t parent.

Lemma delete_case4_spec d tr ps p cp kp vp sl sk sv a fl fk fv fa fb t :
  let far c := mk d fl c fk fv fa fb in
  rbt D dsp tr (plug ps (mk d p cp kp vp t (mk d sl RB_BLACK sk sv a (far RB_RED)))) →
  let ps' := F d p RB_BLACK kp vp a :: F d sl cp sk sv (far RB_BLACK) :: ps in
  ∃ tr', delete_case4 d tr (Some p) (Some sl) = Some tr' ∧ rbt D dsp tr' (plug ps' t) ∧
    plug ps' t ≡ plug ps (mk d p cp kp vp t (mk d sl RB_BLACK sk sv a (far RB_RED))).
Proof.
  intros far H ps'. unfold delete_case4. rewrite (rbt_get tr ps d p _ _ _ _ _ H). simpl. rewrite col_mkn.
  pose proof H as Hq. rewrite <-(mk_opp d p) in Hq.
  destruct (rbt_set tr (F (opp d) p cp kp vp t :: ps) d sl RB_BLACK sk sv a _
    (set_col cp) cp sk sv Hq (set_col_mkn _ _ _ _ _ _ _ _)) as (tr1 & -> & H1). simpl in H1 |- *.
  rewrite mk_opp in H1.
  destruct (rbt_set tr1 ps d p cp kp vp t _ (set_col RB_BLACK) RB_BLACK kp vp H1
    (set_col_mkn _ _ _ _ _ _ _ _)) as (tr2 & -> & H2). simpl.
  rewrite <-(mk_opp d p) in H2.
  rewrite (rbt_get tr2 (F (opp d) p RB_BLACK kp vp t :: ps) d sl _ _ _ _ _ H2). simpl.
  rewrite child_opp_mkn. unfold far at 1. rewrite root_mk. rewrite <-(mk_opp d sl) in H2.
  destruct (rbt_set tr2 (F (opp d) sl cp sk sv a :: F (opp d) p RB_BLACK kp vp t :: ps) d fl RB_RED fk fv fa fb
    (set_col RB_BLACK) RB_BLACK fk fv H2 (set_col_mkn _ _ _ _ _ _ _ _)) as (tr3 & -> & H3). simpl in H3 |- *.
  rewrite !mk_opp in H3.
  destruct (rbt_rotate tr3 ps d p _ _ _ t sl _ _ _ a _ H3) as (tr4 & -> & H4).
  exists tr4. split; [done|]. split; [exact H4|]. unfold ps'. simpl. apply plug_proper.
  rewrite (rotate_equiv d p cp kp vp sl RB_BLACK sk sv). apply mk_equiv; [done|].
  apply mk_equiv; [done|]. by apply mk_equiv.
Qed.

(** The loop body is the composition of the cases. *)
Lemma delete_body_eq d tr parent :
  rb_balance_delete_body d tr parent =
  '(t, sibling) ← delete_case1 d tr parent;
  sn ← get t sibling;
  near ← null_or_black t (child d sn);
  far ← null_or_black t (child (opp d) sn);
  if bool_decide (rb_col sn = RB_BLACK) && near && far then
    t ← upd t sibling (set_col RB_RED);
    pp ← parent_of t parent;
    Some (t, Some (parent, pp))
  else
    '(t, sibling) ← delete_case3 d t parent sibling sn far;
    t ← delete_case4 d t parent sibling;
    Some (t, None).
Proof.
  unfold rb_balance_delete_body, delete_case1, delete_case4.
  destruct (get tr parent) as [pn|]; simpl; [|done].
  destruct (get tr (child (opp d) pn)) as [sn|]; simpl; [|done].
  destruct (if bool_decide (rb_col sn = RB_RED) then _ else _) as [[tr1 sib]|]; simpl; [|done].
  destruct (get tr1 sib) as [sn1|]; simpl; [|done].
  destruct (null_or_black tr1 (child d sn1)) as [near|]; simpl; [|done].
  destruct (null_or_black tr1 (child (opp d) sn1)) as [far|]; simpl; [|done].
  destruct (bool_decide (rb_col sn1 = RB_BLACK) && near && far); [done|].
  unfold delete_case3. destruct far; simpl; cycle 1.
  all: repeat match goal with |- context [?m ≫= _] =>
         first [destruct m as [[? ?]|] eqn:? | destruct m eqn:?]; simpl; try done end.
Qed.

(** Where the body leaves the loop: the deficit has moved up, or is gone. *)
Definition body_post (tr' : rb_tree) (next : option (ptr * ptr)) (ps : path) (t : tree) : Prop :=
  match next with
  | Some (node, parent) => ∃ n ps' t',
      node = root t' ∧ parent = ctx_ptr ps' ∧ rbt D dsp tr' (plug ps' t') ∧ deficit n t' ∧
      balp (S n) ps' ∧ plug ps' t' ≡ plug ps t ∧ (red t' = true ∨ length ps' < length ps)%nat
  | None => ∃ ps', rbt D dsp tr' (plug ps' t) ∧ RB (plug ps' t) ∧ plug ps' t ≡ plug ps t
  end.

Lemma delete_body_spec d tr ps p cp kp vp s t n :
  rbt D dsp tr (plug (F d p cp kp vp s :: ps) t) → red t = false → bal n t →
  balp (S n) (F d p cp kp vp s :: ps) →
  ∃ tr' next, rb_balance_delete_body d tr (Some p) = Some (tr', next) ∧
    body_post tr' next (F d p cp kp vp s :: ps) t.
Proof.
  intros H Hrt Ht Hp. rewrite delete_body_eq.
  destruct (delete_case1_spec _ _ _ _ _ _ _ _ _ _ H Hp) as
    (tr1 & ps1 & cp1 & sl & sk & sv & a & b & -> & H1 & Ha & Hb & Hp1 & Heq1 & Hlen).
  apply balp_frame in Hp1 as (_ & Hc1 & Hps1). simpl in H1, Heq1 |- *.
  pose proof H1 as Hq. rewrite <-(mk_opp d p) in Hq.
  rewrite (rbt_get tr1 (F (opp d) p cp1 kp vp t :: ps1) d sl _ _ _ _ _ Hq). simpl.
  rewrite child_mkn, child_opp_mkn, col_mkn.
  rewrite (rbt_nob tr1 (F d sl RB_BLACK sk sv b :: F (opp d) p cp1 kp vp t :: ps1) a Hq). simpl.
  pose proof Hq as Hq'. rewrite <-(mk_opp d sl) in Hq'.
  rewrite (rbt_nob tr1 (F (opp d) sl RB_BLACK sk sv a :: F (opp d) p cp1 kp vp t :: ps1) b Hq'). simpl.
  destruct (negb (red a) && negb (red b)) eqn:Hbb.
  - apply andb_true_iff in Hbb as [Hra%negb_true_iff Hrb%negb_true_iff].
    destruct (rbt_set tr1 (F (opp d) p cp1 kp vp t :: ps1) d sl RB_BLACK sk sv a b
      (set_col RB_RED) RB_RED sk sv Hq (set_col_mkn _ _ _ _ _ _ _ _)) as (tr2 & -> & H2). simpl in H2 |- *.
    rewrite mk_opp in H2. rewrite (rbt_parent tr2 ps1 d p _ _ _ _ _ H2). simpl.
    eexists _, _. split; [done|]. simpl.
    exists (match cp1 with RB_RED => n | RB_BLACK => S n end), ps1,
      (mk d p cp1 kp vp t (mk d sl RB_RED sk sv a b)).
    rewrite root_mk, red_mk. split_and!; try done.
    + unfold deficit. rewrite red_mk. destruct cp1; simpl; [|apply bal_mk_black; by rewrite bal_mk_red].
      destruct d; simpl; tauto.
    + by destruct cp1.
    + rewrite <-Heq1. apply plug_proper, mk_equiv; [done|]. by apply mk_equiv.
    + destruct cp1; [by left|right]. destruct Hlen; [done|lia].
  - assert (red a = true ∨ red b = true) as Hr by (destruct (red a), (red b); auto).
    destruct (delete_case3_spec d tr1 ps1 p cp1 kp vp sl sk sv a b t n H1 Ha Hb Hr) as
      (tr2 & sl' & sk' & sv' & a' & fl & fk & fv & fa & fb & -> & H2 & Ha' & Hfa & Hfb & Heq2). simpl.
    destruct (delete_case4_spec _ _ _ _ _ _ _ _ _ _ _ _ _ _ _ _ _ H2) as (tr3 & -> & H3 & Heq3).
    simpl. eexists _, _. split; [done|]. simpl. eexists. split; [exact H3|]. split.
    + simpl. apply (plug_RB (up cp1 (S n))); [|done|].
      * destruct cp1; simpl; rewrite ?bal_mk_red, ?bal_mk_black, ?red_mk; simpl; rewrite ?bal_mk_black; auto.
      * rewrite red_mk. destruct cp1; [right|left]; [by apply Hc1|done].
    + rewrite Heq3, <-Heq1. apply plug_proper, mk_equiv; [done|]. done.
Qed.

(** The loop ends, and blackening its last node balances the tree. *)
Lemma delete_loop_spec fuel tr ps t n :
  (length ps ≤ fuel)%nat → rbt D dsp tr (plug ps t) → deficit n t → balp (S n) ps →
  ∃ tr' ps' t', rb_balance_delete_loop fuel tr (root t) (ctx_ptr ps) = Some (tr', root t') ∧
    rbt D dsp tr' (plug ps' t') ∧ RB (plug ps' (blacken t')) ∧ plug ps' t' ≡ plug ps t.
Proof.
  revert tr ps t n. induction fuel as [fuel IH] using lt_wf_ind. intros tr ps t n Hf H Ht Hp.
  destruct ps as [|[d p cp kp vp s] ps].
  { assert (∃ m, bal m (blacken t)) as Hm.
    { unfold deficit in Ht. destruct (red t) eqn:Hr; [eauto|]. rewrite blacken_id by done. eauto. }
    exists tr, [], t. destruct fuel; simpl; (split_and!; [done|done| |done]);
      split; auto using red_blacken. }
  destruct (red t) eqn:Hr.
  { exists tr, (F d p cp kp vp s :: ps), t. split_and!; [|done| |done].
    - destruct fuel; simpl; rewrite (rbt_nob tr (F d p cp kp vp s :: ps) t H), Hr; done.
    - apply (plug_RB (S n)); [by apply deficit_blacken|done|left; apply red_blacken]. }
  destruct fuel as [|fuel]; [simpl in Hf; lia|].
  assert (bal n t) as Hbt by (unfold deficit in Ht; by rewrite Hr in Ht).
  simpl. rewrite (rbt_nob tr (F d p cp kp vp s :: ps) t H), Hr. simpl.
  pose proof H as Hq. simpl in Hq. rewrite (rbt_get tr ps d p _ _ _ _ _ Hq). simpl.
  pose proof Hp as (Hs & _ & _)%balp_frame.
  rewrite (rbt_side tr ps d p _ _ _ _ _ (root t) Hq eq_refl).
  2: { right. intros ->. done. }
  destruct (delete_body_spec d tr ps p cp kp vp s t n H Hr Hbt Hp) as (tr1 & next & -> & Hpost).
  simpl. destruct next as [[node parent]|]; cycle 1.
  { destruct Hpost as (ps' & H1 & HRB & Heq). exists tr1, ps', t. rewrite blacken_id by done. done. }
  destruct Hpost as (m & ps' & t' & -> & -> & H1 & Hd & Hp' & Heq & Hm).
  assert (∃ tr' ps'' t'', rb_balance_delete_loop fuel tr1 (root t') (ctx_ptr ps') = Some (tr', root t'') ∧
    rbt D dsp tr' (plug ps'' t'') ∧ RB (plug ps'' (blacken t'')) ∧ plug ps'' t'' ≡ plug ps' t')
    as (tr' & ps'' & t'' & Hlo & H2 & HRB & Heq').
  { destruct Hm as [Hrt'|Hlen].
    - exists tr1, ps', t'. split_and!; [|done| |done].
      + destruct ps' as [|f ps']; [by destruct fuel|].
        destruct fuel; simpl; rewrite (rbt_nob tr1 (f :: ps') t' H1), Hrt'; done.
      + apply (plug_RB (S m)); [by apply deficit_blacken|done|left; apply red_blacken].
    - simpl in Hlen, Hf. apply (IH fuel ltac:(lia) tr1 ps' t' m ltac:(lia) H1 Hd Hp'). }
  exists tr', ps'', t''. split_and!; try done. by rewrite Heq'.
Qed.

Lemma balance_delete_spec fuel tr ps t n :
  (length ps ≤ fuel)%nat → rbt D dsp tr (plug ps t) → deficit n t → balp (S n) ps →
  ∃ tr' t', rb_balance_delete fuel tr (root t) (ctx_ptr ps) = Some tr' ∧
    rbt D dsp tr' t' ∧ RB t' ∧ t' ≡ plug ps t.
Proof.
  intros Hf H Ht Hp. destruct (delete_loop_spec fuel tr ps t n Hf H Ht Hp)
    as (tr1 & ps' & t' & Hl & H1 & HRB & Heq). unfold rb_balance_delete. rewrite Hl. simpl.
  destruct t' as [|l c k v a b]; simpl; [by exists tr1, (plug ps' E)|].
  destruct (rbt_set tr1 ps' DL l c k v a b (set_col RB_BLACK) RB_BLACK k v H1
    (set_col_mkn _ _ _ _ _ _ _ _)) as (tr2 & -> & H2).
  eexists tr2, _. split; [done|]. split; [exact H2|]. split; [done|].
  rewrite <-Heq. apply plug_proper. by apply mk_equiv.
Qed.
End delete_loop.

(** * Unlinking *)

Lemma plug_app qs ps t : plug (qs ++ ps) t = plug ps (plug qs t).
Proof. revert t. induction qs as [|[] qs IH]; intros t; simpl; [done|]. apply IH. Qed.

(** The leftmost node of a tree, with its context. *)
Fixpoint leftmost (ps : path) (t : tree) : path * tree :=
  match t with
  | T l c k v (T _ _ _ _ _ _ as a) b => leftmost (F DL l c k v b :: ps) a
  | _ => (ps, t)
  end.

Section unlink.
Context {D : gset loc} {dsp : bool}.
Implicit Types (tr : rb_tree) (ps : path) (t : tree).

Lemma leftmost_spec fuel tr ps t :
  rbt D dsp tr (plug ps t) → t ≠ E → (length (locs t) ≤ fuel)%nat →
  ∃ qs s c k v b, t = plug qs (T s c k v E b) ∧ kvs t = (k, v) :: kvs (plug qs b) ∧
    rb_min fuel tr (root t) = Some (Some s).
Proof.
  unfold rb_min. revert ps fuel. induction t as [|l c k v a IHa b _]; intros ps fuel H Hne Hf; [done|].
  destruct fuel as [|fuel]; [simpl in Hf; lia|]. cbn [rb_end root].
  rewrite (rbt_get_T _ _ _ _ _ _ _ _ H). cbn [mbind option_bind child rb_left].
  destruct a as [|l' c' k' v' a' b'].
  - exists [], l, c, k, v, b. done.
  - destruct (IHa (F DL l c k v b :: ps) fuel) as (qs & s & cs & ks & vs & sb & Ha & Hk & Hm);
      [done|done|simpl in Hf |- *; rewrite length_app in Hf; simpl in Hf; lia|].
    exists (qs ++ [F DL l c k v b]), s, cs, ks, vs, sb. rewrite !plug_app. simpl.
    rewrite <-Ha. split; [done|]. split; [|done]. simpl in Hk |- *. by rewrite Hk.
Qed.

(** The unlinking of a node with at most one child. *)
Lemma unlink_spec tr ps s c k v a b :
  rbt D dsp tr (plug ps (T s c k v a b)) → a = E ∨ b = E →
  let x := match a with E => b | _ => a end in
  ∃ tr1 tr2, relink tr (Some s) (root x) = Some tr1 ∧
    match root x with
    | Some _ => upd tr1 (root x) (set_parent (ctx_ptr ps))
    | None => Some tr1
    end = Some tr2 ∧ rbt D dsp tr2 (plug ps x).
Proof.
  intros (Hr & Hc & Hnd & Hroot & Hd & Hdsp)%rbt_split Hab x. simpl in *.
  destruct Hr as (Hs & Ha & Hb).
  assert (rep (rb_heap tr) (Some s) x) as Hx by (subst x; by destruct a).
  assert (NoDup (locs x ++ locsp ps) ∧ s ∉ locs x ++ locsp ps) as [Hndx Hsx].
  { apply NoDup_cons in Hnd as [Hni Hnd]. subst x.
    destruct Hab as [->| ->]; simpl in *; [done|]. rewrite app_nil_r in *. by destruct a. }
  pose proof Hndx as Hnd'. nodup Hnd'. apply not_elem_of_app in Hsx as [Hsx Hsp].
  destruct (relink_spec tr ps s _ (root x) Hs eq_refl Hc) as (tr1 & -> & Hc1 & Hag & Hd1 & Hdsp1 & Hr1);
    [done..|].
  destruct (set_root_parent tr1 (Some s) (ctx_ptr ps) x) as (tr2 & Hset & Hx2 & Hag2 & Hd2 & Hdsp2 & Hr2).
  { eapply rep_agree; [|done]. intros. apply Hag. dj. }
  { done. }
  exists tr1, tr2. split; [done|]. split; [done|]. apply rbt_split. split_and!; try congruence.
  - eapply repc_agree; [|done]. intros. apply Hag2. dj.
  - rewrite Hr2, Hr1. by destruct ps.
Qed.
End unlink.

(** Freeing a node that is no longer linked. *)
Lemma rbt_free D dsp tr t s :
  rbt D dsp tr t → s ∉ locs t → s ∈ D →
  ∃ h, free (rb_heap tr) (Some s) = Some h ∧
       rbt (D ∖ {[s]}) dsp (RBTree (rb_root tr) (rb_disp tr) h) t.
Proof.
  intros (H1 & H2 & H3 & H4 & H5) Hs Hin. rewrite <-H4 in Hin.
  apply elem_of_dom in Hin as [n Hn]. simpl. rewrite Hn. eexists. split; [done|].
  split_and!; try done; simpl.
  - eapply rep_agree; [|done]. intros. apply lookup_delete_ne. dj.
  - by rewrite dom_delete_L, H4.
Qed.

(** The steps of [rbtree_delete] after the choice of [s]. *)
Definition delete_at (t : rb_tree) (node s : ptr) (n : rb_node) : option (list ptr * Z * rb_tree) :=
  sn ← get t s;
  let x := match rb_left sn with Some _ => rb_left sn | None => rb_right sn end in
  t1 ← relink t s x;
  t1 ← match x with
       | Some _ => upd t1 x (set_parent (rb_parent sn))
       | None => Some t1
       end;
  let disposed := if not_null (rb_value n) && rb_disp t then [rb_value n] else [] in
  t1 ← (if negb (ptr_eqb node s) then upd t1 node (set_kv (rb_key sn) (rb_value sn))
        else Some t1);
  t1 ← (if bool_decide (rb_col sn = RB_BLACK)
        then rb_balance_delete (depth t) t1 x (rb_parent sn) else Some t1);
  h ← free (rb_heap t1) s;
  Some (disposed, 1, RBTree (rb_root t1) (rb_disp t1) h).

Definition disposed (dsp : bool) (v : ptr) : list ptr := if not_null v && dsp then [v] else [].

(** [ps'] is the context of [s] after the copy of its entry into [node]. *)
Lemma delete_at_spec tr ps ps' node n s c k v a b :
  let x := match a with E => b | _ => a end in
  rbt (list_to_set (locs (plug ps (T s c k v a b)))) (rb_disp tr) tr (plug ps (T s c k v a b)) →
  RB (plug ps (T s c k v a b)) → a = E ∨ b = E →
  (∀ m, balp m ps → balp m ps') → (pblack ps → pblack ps') → locsp ps' = locsp ps →
  (∀ t1 D, rbt D (rb_disp tr) t1 (plug ps x) →
     ∃ t2, (if negb (ptr_eqb node (Some s)) then upd t1 node (set_kv k v) else Some t1) = Some t2 ∧
           rbt D (rb_disp tr) t2 (plug ps' x)) →
  ctx_ptr ps' = ctx_ptr ps → ksorted (kvs (plug ps' x)) →
  ∃ tr', delete_at tr node (Some s) n = Some (disposed (rb_disp tr) (rb_value n), 1, tr') ∧
         rb_inv tr' (kvs (plug ps' x)) ∧ rb_disp tr' = rb_disp tr.
Proof.
  intros x H HRB Hab Hbp Hpb Hlp Hcopy Hctx Hs. unfold delete_at.
  rewrite (rbt_get_T _ _ _ _ _ _ _ _ H). cbn [mbind option_bind rb_left rb_right rb_parent rb_col rb_key rb_value].
  destruct (unlink_spec tr ps s c k v a b H Hab) as (t1 & t2 & Hre & Hup & H2).
  assert (match root a with Some _ => root a | None => root b end = root x) as -> by (by destruct a).
  fold x in Hre, Hup, H2. rewrite Hre. cbn [mbind option_bind]. rewrite Hup. cbn [mbind option_bind].
  destruct (Hcopy _ _ H2) as (t3 & -> & H3). cbn [mbind option_bind].
  assert (NoDup (s :: locs x ++ locsp ps) ∧ list_to_set (locs (plug ps (T s c k v a b))) =@{gset loc}
    {[s]} ∪ list_to_set (locs x ++ locsp ps)) as [Hnd HD].
  { pose proof H as (_ & Hnd & _). rewrite locs_plug in *. simpl in *. subst x.
    destruct Hab as [->| ->]; simpl in *; [done|]. rewrite app_nil_r in *. by destruct a. }
  apply NoDup_cons in Hnd as [Hns Hnd].
  destruct (unplug_RB _ _ HRB) as (m & Hm & Hp & Hcol).
  assert (∃ t4 t', (if bool_decide (c = RB_BLACK) then rb_balance_delete (depth tr) t3 (root x) (ctx_ptr ps)
            else Some t3) = Some t4 ∧
          rbt (list_to_set (locs (plug ps (T s c k v a b)))) (rb_disp tr) t4 t' ∧ RB t' ∧ t' ≡ plug ps' x)
    as (t4 & t' & -> & H4 & HRB' & Heq).
  { destruct c; simpl in Hm.
    - rewrite bool_decide_false by done. exists t3, (plug ps' x). split_and!; try done.
      apply (plug_RB m); [|by apply Hbp|]; destruct Hm as (? & ? & ? & ?); subst x; by destruct a; auto.
    - rewrite bool_decide_true by done. destruct m as [|m]; [done|]. destruct Hm as [Hma Hmb].
      rewrite <-Hctx. apply (balance_delete_spec _ _ _ _ m); [|done| |by apply Hbp].
      + rewrite (rbt_depth _ _ H), locs_plug. simpl. rewrite length_app, <-Hlp.
        pose proof (length_locsp ps'). lia.
      + apply bal_deficit. subst x. by destruct a. }
  cbn [mbind option_bind]. pose proof Heq as [Hk Hl].
  assert (locs t' ≡ₚ locs x ++ locsp ps) as Hlt by (by rewrite Hl, locs_plug, Hlp).
  destruct (rbt_free _ _ _ _ s H4) as (h & -> & H5).
  { by rewrite Hlt. }
  { rewrite HD. set_solver. }
  cbn [mbind option_bind]. eexists. split; [done|]. destruct H4 as (_ & _ & _ & _ & Hdsp).
  split; [|done]. exists t'. split_and!; [|done|done|done].
  simpl. rewrite Hdsp in *. rewrite HD in H5.
  replace (list_to_set (locs t')) with (({[s]} ∪ list_to_set (locs x ++ locsp ps)) ∖ {[s]} : gset loc);
    [done|]. rewrite Hlt. set_solver.
Qed.

(** A node with two children takes over the entry of its successor. *)
Lemma delete_two_spec tr ps l c k v a b :
  let t := plug ps (T l c k v a b) in
  rbt (list_to_set (locs t)) (rb_disp tr) tr t → RB t → ksorted (kvs t) → a ≠ E → b ≠ E →
  let n := RBNode k v c (ctx_ptr ps) (root a) (root b) in
  ∃ tr', (s ← rb_min (depth tr) tr (root b); delete_at tr (Some l) s n) =
           Some (disposed (rb_disp tr) v, 1, tr') ∧
         rb_inv tr' (pl ps ++ (kvs a ++ kvs b) ++ pr ps) ∧ rb_disp tr' = rb_disp tr.
Proof.
  intros t H HRB Hs Ha Hb n. subst t.
  destruct (leftmost_spec (depth tr) tr (F DR l c k v a :: ps) b H Hb)
    as (qs & s & cs & ks & vs & sb & Hbq & Hkb & ->).
  { rewrite (rbt_depth _ _ H), locs_plug. simpl. rewrite !length_app. lia. }
  cbn [mbind option_bind].
  set (fr k v := F DR l c k v a).
  assert (plug ps (T l c k v a b) = plug (qs ++ fr k v :: ps) (T s cs ks vs E sb)) as Ht.
  { by rewrite plug_app, <-Hbq. }
  rewrite Ht in H, HRB.
  destruct (delete_at_spec tr (qs ++ fr k v :: ps) (qs ++ fr ks vs :: ps) (Some l) n s cs ks vs E sb H HRB)
    as (tr' & Hdel & Hinv & Hd); [by left| | | | | | |].
  - clear. intros m. revert m. induction qs as [|[d' l' [] k' v' s'] qs IH]; intros m; simpl.
    + by destruct c.
    + intros (? & ? & Hpb & ?). split_and!; auto. by destruct qs as [|[? ? [] ? ? ?] ?].
    + intros []. auto.
  - by destruct qs as [|[? ? [] ? ? ?] ?].
  - clear. induction qs as [|f qs IH]; simpl; [done|]. by rewrite IH.
  - intros t1 D H1. assert (l ≠ s) as Hls.
    { destruct H as (_ & Hnd & _). rewrite <-Ht, locs_plug, Hbq in Hnd. simpl in Hnd.
      rewrite locs_plug in Hnd. simpl in Hnd. nodup Hnd. set_solver. }
    rewrite (proj2 (ptr_eqb_neq (Some l) (Some s))) by congruence. simpl.
    rewrite plug_app in *. simpl in *.
    exact (rbt_set t1 ps DR l c k v (plug qs sb) a (set_kv ks vs) c ks vs H1 eq_refl).
  - by destruct qs.
  - rewrite plug_app. simpl. rewrite kvs_plug_split. simpl. rewrite <-Hkb.
    rewrite kvs_plug_split in Hs. by eapply ksorted_delete_mid.
  - exists tr'. split; [done|]. split; [|done].
    rewrite plug_app in Hinv. simpl in Hinv. rewrite kvs_plug_split in Hinv. simpl in Hinv.
    by rewrite <-Hkb in Hinv.
Qed.

(** [rbtree_delete] removes the entry of [key], if there is one. *)
Lemma delete_spec tr xs key :
  rb_inv tr xs →
  if bool_decide (key ∈ xs.*1)
  then ∃ tr' xs1 v xs2, xs = xs1 ++ (key, v) :: xs2 ∧
       rbtree_delete tr key = Some (disposed (rb_disp tr) v, 1, tr') ∧
       rb_inv tr' (xs1 ++ xs2) ∧ rb_disp tr' = rb_disp tr
  else rbtree_delete tr key = Some ([], 0, tr).
Proof.
  intros (t & ps & t' & H & HRB & Hs & Hk & Hloc & Hpl & Hget & Hb & Hm)%(rb_inv_get _ _ key).
  unfold rbtree_delete. rewrite Hget. cbn [mbind option_bind]. subst t.
  destruct t' as [|l c k v a b]; [by rewrite bool_decide_false|]. destruct Hm as [-> Hin].
  rewrite bool_decide_true by (apply list_elem_of_fmap; by exists (key, v)).
  cbn [root]. rewrite (rbt_get_T _ _ _ _ _ _ _ _ H). cbn [mbind option_bind rb_left rb_right].
  rewrite <-Hk in *. rewrite kvs_plug_split in *. simpl in *.
  assert (∀ tr' zs, pl ps ++ (kvs a ++ kvs b) ++ pr ps = zs → rb_inv tr' zs →
     rb_inv tr' ((pl ps ++ kvs a) ++ kvs b ++ pr ps)) as Hfin.
  { intros tr' zs <-. by rewrite <-!app_assoc. }
  destruct (not_null (root a) && not_null (root b)) eqn:Hone.
  - destruct (delete_two_spec tr ps l c key v a b H HRB) as (tr' & Hdel & Hinv & Hd);
      [by rewrite kvs_plug_split|by destruct a|by destruct a, b|].
    exists tr', (pl ps ++ kvs a), v, (kvs b ++ pr ps). split_and!; [by list_simplifier|exact Hdel| |done].
    by eapply Hfin.
  - assert (kvs match a with E => b | _ => a end = kvs a ++ kvs b) as Hx.
    { destruct a, b; simpl; rewrite ?app_nil_r; done. }
    cbn [mbind option_bind].
    destruct (delete_at_spec tr ps ps (Some l) (RBNode key v c (ctx_ptr ps) (root a) (root b))
      l c key v a b H HRB) as (tr' & Hdel & Hinv & Hd); [|done|done|done| |done| |].
    + destruct a, b; auto; done.
    + intros t1 D H1. rewrite ptr_eqb_refl. eauto.
    + rewrite kvs_plug_split, Hx. by eapply ksorted_delete_mid.
    + exists tr', (pl ps ++ kvs a), v, (kvs b ++ pr ps). split_and!; [by list_simplifier|exact Hdel| |done].
      eapply Hfin; [|exact Hinv]. by rewrite kvs_plug_split, Hx.
Qed.
