(* ===== verification/RBMap.v ===== *)
(** The red-black tree as an ordered map.

    The read-only walks of the tree are related to its list of entries; then
    every sequence of calls of the public functions of rbtree_op.c is shown to
    return what the same sequence returns on a finite map, to keep the tree
    balanced, and to touch no freed node. *)

From S2P Require Import Prelude Keyed RBTree RBHeap RBInsert RBSearch RBDelete.

(** * The read-only walks *)

Section walks.
Context {D : gset loc} {dsp : bool}.
Implicit Types (tr : rb_tree) (ps : path) (t : tree).

Lemma rb_keys_spec fuel tr ps t :
  rbt D dsp tr (plug ps t) → t ≠ E → (length (locs t) ≤ fuel)%nat →
  rb_keys fuel tr (root t) = Some (kvs t).*1.
Proof.
  revert fuel ps. induction t as [|l c k v a IHa b IHb]; intros fuel ps H Hne Hf; [done|].
  destruct fuel as [|fuel]; simpl in Hf; [lia|]. rewrite length_app in Hf. cbn [rb_keys root].
  rewrite (rbt_get_T _ _ _ _ _ _ _ _ H). simpl.
  assert (match root a with Some _ => rb_keys fuel tr (root a) | None => Some [] end =
          Some (kvs a).*1) as ->.
  { destruct a; [done|]. apply (IHa fuel (F DL l c k v b :: ps)); [done|done|lia]. }
  assert (match root b with Some _ => rb_keys fuel tr (root b) | None => Some [] end =
          Some (kvs b).*1) as ->.
  { destruct b; [done|]. apply (IHb fuel (F DR l c k v a :: ps)); [done|done|lia]. }
  simpl. by rewrite fmap_app.
Qed.

Definition in_range (min max k : cstr) : bool := (0 <=? strcmp k min) && (strcmp k max <=? 0).

(** A subtree is skipped only when none of its keys is in the range. *)
Lemma rb_range_spec fuel tr ps t min max :
  rbt D dsp tr (plug ps t) → ksorted (kvs t) → t ≠ E → (length (locs t) ≤ fuel)%nat →
  rb_range fuel tr (root t) min max = Some (List.filter (in_range min max) (kvs t).*1).
Proof.
  revert fuel ps. induction t as [|l c k v a IHa b IHb]; intros fuel ps H Hs Hne Hf; [done|].
  destruct fuel as [|fuel]; simpl in Hf; [lia|]. rewrite length_app in Hf. cbn [rb_range root].
  rewrite (rbt_get_T _ _ _ _ _ _ _ _ H). simpl in Hs |- *.
  apply ksorted_app in Hs as (Hsa & [Hsb Hkb]%ksorted_cons & Hab).
  assert ((if not_null (root a) && (0 <? strcmp k min) then rb_range fuel tr (root a) min max else Some [])
    = Some (List.filter (in_range min max) (kvs a).*1)) as ->.
  { destruct a as [|la ca ka va a1 a2]; [done|]. destruct (Z.ltb_spec 0 (strcmp k min)) as [Hlt|Hge].
    - apply (IHa fuel (F DL l c k v b :: ps)); [done|done|done|lia].
    - cbn [not_null root is_null negb andb]. rewrite filter_none; [done|]. intros x Hx. unfold in_range.
      assert (slt x k) as Hxk by (apply Hab; [done|by left]).
      assert (slt x min); [|unfold slt in *; lia].
      destruct (Z.eq_dec (strcmp k min) 0) as [->%strcmp_eq|]; [done|].
      etransitivity; [exact Hxk|]. unfold slt. lia. }
  assert ((if not_null (root b) && (strcmp k max <? 0) then rb_range fuel tr (root b) min max else Some [])
    = Some (List.filter (in_range min max) (kvs b).*1)) as ->.
  { destruct b as [|lb cb kb vb b1 b2]; [done|]. destruct (Z.ltb_spec (strcmp k max) 0) as [Hlt|Hge].
    - apply (IHb fuel (F DR l c k v a :: ps)); [done|done|done|lia].
    - cbn [not_null root is_null negb andb]. rewrite filter_none; [done|]. intros x Hx. unfold in_range.
      apply Hkb in Hx. assert (slt max x); [|apply strcmp_gt_slt in H0; lia].
      destruct (Z.eq_dec (strcmp k max) 0) as [->%strcmp_eq|]; [done|].
      etransitivity; [|exact Hx]. apply strcmp_gt_slt. lia. }
  simpl. rewrite fmap_app, List.filter_app. simpl. f_equal. f_equal.
  unfold in_range at 2. by destruct ((0 <=? strcmp k min) && (strcmp k max <=? 0)).
Qed.

Definition extreme (d : dir) (xs : list (cstr * ptr)) : option cstr :=
  match d with DL => head xs.*1 | DR => last xs.*1 end.

Lemma rb_end_spec d fuel tr ps t :
  rbt D dsp tr (plug ps t) → t ≠ E → (length (locs t) ≤ fuel)%nat →
  ∃ p n, rb_end fuel d tr (root t) = Some p ∧ get tr p = Some n ∧ extreme d (kvs t) = Some (rb_key n).
Proof.
  revert fuel ps. induction t as [|l c k v a IHa b IHb]; intros fuel ps H Hne Hf; [done|].
  destruct fuel as [|fuel]; simpl in Hf; [lia|]. rewrite length_app in Hf. cbn [rb_end root].
  pose proof (rbt_get_T _ _ _ _ _ _ _ _ H) as Hg. rewrite Hg. destruct d; simpl.
  - destruct a as [|la ca ka va a1 a2]; [simpl; eauto|].
    destruct (IHa fuel (F DL l c k v b :: ps)) as (p & n & Hp & Hn & He); [done|done|lia|].
    exists p, n. split_and!; [done|done|]. simpl in He |- *.
    rewrite !fmap_app in *. by destruct (kvs a1).
  - destruct b as [|lb cb kb vb b1 b2].
    + simpl. eexists _, _. split; [done|]. split; [exact Hg|]. simpl.
      by rewrite fmap_app, last_app.
    + destruct (IHb fuel (F DR l c k v a :: ps)) as (p & n & Hp & Hn & He); [done|done|lia|].
      exists p, n. split_and!; [done|done|]. simpl in He |- *.
      rewrite fmap_app, last_app, fmap_cons, last_cons. simpl. by rewrite He.
Qed.

Lemma rb_size_spec fuel tr ps t :
  rbt D dsp tr (plug ps t) → t ≠ E → (length (locs t) ≤ fuel)%nat →
  rb_size fuel tr (root t) = Some (wrap32 (length (kvs t))).
Proof.
  revert fuel ps. induction t as [|l c k v a IHa b IHb]; intros fuel ps H Hne Hf; [done|].
  destruct fuel as [|fuel]; simpl in Hf; [lia|]. rewrite length_app in Hf. cbn [rb_size root].
  rewrite (rbt_get_T _ _ _ _ _ _ _ _ H). simpl.
  assert (match root a with Some _ => rb_size fuel tr (root a) | None => Some 0 end =
          Some (wrap32 (length (kvs a)))) as ->.
  { destruct a; [done|]. apply (IHa fuel (F DL l c k v b :: ps)); [done|done|lia]. }
  assert (match root b with Some _ => rb_size fuel tr (root b) | None => Some 0 end =
          Some (wrap32 (length (kvs b)))) as ->.
  { destruct b; [done|]. apply (IHb fuel (F DR l c k v a :: ps)); [done|done|lia]. }
  cbn [mbind option_bind kvs]. rewrite length_app. cbn [length]. f_equal.
  rewrite wrap32_add_l, <-Z.add_assoc, wrap32_add_l, Z.add_assoc.
  unfold wrap32. rewrite Zplus_mod_idemp_r. f_equal. lia.
Qed.

Lemma rb_black_depth_spec fuel tr ps t n :
  rbt D dsp tr (plug ps t) → bal n t → (length (locs t) ≤ fuel)%nat →
  rb_black_depth fuel tr (root t) = Some (n + 1).
Proof.
  revert fuel ps n. induction t as [|l c k v a IHa b IHb]; intros fuel ps n H Hb Hf.
  { simpl in Hb. subst. by destruct fuel. }
  destruct fuel as [|fuel]; simpl in Hf; [lia|]. rewrite length_app in Hf. cbn [rb_black_depth root].
  rewrite (rbt_get_T _ _ _ _ _ _ _ _ H). cbn [mbind option_bind rb_left rb_right rb_col].
  assert (∀ m, bal m a → bal m b →
    (d_left ← rb_black_depth fuel tr (root a); d_right ← rb_black_depth fuel tr (root b);
     Some (if negb (d_left =? d_right) then -1
           else d_left + (if bool_decide (c = RB_BLACK) then 1 else 0))) =
    Some (m + 1 + if bool_decide (c = RB_BLACK) then 1 else 0)) as Hsub.
  { intros m Hma Hmb. rewrite (IHa fuel (F DL l c k v b :: ps) m H Hma ltac:(lia)).
    rewrite (IHb fuel (F DR l c k v a :: ps) m H Hmb ltac:(lia)). simpl. by rewrite Z.eqb_refl. }
  destruct c; simpl in Hb.
  - rewrite (Hsub n) by tauto. rewrite bool_decide_false by done. f_equal. lia.
  - destruct n as [|n]; [done|]. rewrite (Hsub n) by tauto. rewrite bool_decide_true by done. f_equal. lia.
Qed.
End walks.

(** Every node below the root is freed, its value disposed of once. *)
Lemma rb_destroy_spec fuel dsp h p t :
  rep h p t → NoDup (locs t) → t ≠ E → (length (locs t) ≤ fuel)%nat →
  ∃ ds h', rb_destroy fuel dsp h (root t) = Some (ds, h') ∧
    ds ≡ₚ (kvs t).*2 ≫= disposed dsp ∧ dom h' = dom h ∖ list_to_set (locs t) ∧
    (∀ j, j ∉ locs t → h' !! j = h !! j).
Proof.
  revert fuel h p. induction t as [|l c k v a IHa b IHb]; intros fuel h p Hr Hnd Hne Hf; [done|].
  destruct fuel as [|fuel]; simpl in Hf; [lia|]. rewrite length_app in Hf. cbn [rb_destroy root load].
  simpl in Hr, Hnd. destruct Hr as (Hl & Ha & Hb). rewrite Hl. cbn [mbind option_bind rb_left rb_right rb_value].
  nodup Hnd.
  assert (∃ ds h', match root a with Some _ => rb_destroy fuel dsp h (root a) | None => Some ([], h) end =
    Some (ds, h') ∧ ds ≡ₚ (kvs a).*2 ≫= disposed dsp ∧ dom h' = dom h ∖ list_to_set (locs a) ∧
    (∀ j, j ∉ locs a → h' !! j = h !! j)) as (da & ha & -> & Hda & Hdoma & Haga).
  { destruct a as [|la]; [eexists _, _; split_and!; set_solver|].
    apply (IHa fuel h (Some l)); [done|done|done|lia]. }
  cbn [mbind option_bind].
  assert (∃ ds h', match root b with Some _ => rb_destroy fuel dsp ha (root b) | None => Some ([], ha) end =
    Some (ds, h') ∧ ds ≡ₚ (kvs b).*2 ≫= disposed dsp ∧ dom h' = dom ha ∖ list_to_set (locs b) ∧
    (∀ j, j ∉ locs b → h' !! j = ha !! j)) as (db & hb & -> & Hdb & Hdomb & Hagb).
  { destruct b as [|lb]; [eexists _, _; split_and!; set_solver|].
    apply (IHb fuel ha (Some l)); [|done|done|lia]. eapply rep_agree; [|exact Hb]. intros. apply Haga. dj. }
  cbn [mbind option_bind]. unfold free. rewrite Hagb, Haga, Hl by done. cbn [mbind option_bind].
  eexists _, _. split; [done|]. split_and!.
  - simpl. rewrite fmap_app, bind_app. simpl. rewrite Hda, Hdb. fold (disposed dsp v).
    apply Permutation_app_head, Permutation_app_comm.
  - rewrite dom_delete_L, Hdomb, Hdoma. simpl. rewrite list_to_set_app_L. set_solver.
  - intros j Hj. simpl in Hj. apply not_elem_of_cons in Hj as [Hjl [Hja Hjb]%not_elem_of_app].
    rewrite lookup_delete_ne, Hagb, Haga by done. done.
Qed.

(** * The ordered map *)

(** [tr] stands for the finite map [m]. *)
Definition rb_map (tr : rb_tree) (m : gmap cstr ptr) : Prop :=
  ∃ xs, rb_inv tr xs ∧ m = list_to_map xs.

Lemma rb_inv_sorted tr xs : rb_inv tr xs → ksorted xs.
Proof. by intros (t & _ & _ & ? & _). Qed.

Section map_ops.
Implicit Types (tr : rb_tree) (m : gmap cstr ptr).

Lemma rb_map_insert l tr m key value :
  rb_map tr m → rb_heap tr !! l = None →
  match m !! key with
  | Some _ => rbtree_insert l tr key value = Some (NULL, tr)
  | None => ∃ tr', rbtree_insert l tr key value = Some (Some l, tr') ∧
                   rb_map tr' (<[key := value]> m) ∧ rb_disp tr' = rb_disp tr
  end.
Proof.
  intros (xs & Hi & ->) Hl. pose proof (rb_inv_sorted _ _ Hi) as Hs.
  pose proof (insert_spec l tr xs key value Hi Hl) as H. case_bool_decide as Hk.
  - destruct (list_to_map xs !! key) eqn:E; [done|]. by apply list_to_map_lookup in E.
  - rewrite (proj1 (list_to_map_lookup xs key Hs) Hk).
    destruct H as (tr' & xs1 & xs2 & Hi' & -> & Hinv & Hd). exists tr'. split; [done|]. split; [|done].
    exists (xs1 ++ (key, value) :: xs2). split; [done|].
    rewrite <-list_to_map_cons. apply list_to_map_proper.
    + simpl. constructor; [done|]. by apply ksorted_NoDup.
    + by rewrite Permutation_middle.
Qed.

Lemma rb_map_delete tr m key :
  rb_map tr m →
  match m !! key with
  | Some v => ∃ tr', rbtree_delete tr key = Some (disposed (rb_disp tr) v, 1, tr') ∧
                     rb_map tr' (delete key m) ∧ rb_disp tr' = rb_disp tr
  | None => rbtree_delete tr key = Some ([], 0, tr)
  end.
Proof.
  intros (xs & Hi & ->). pose proof (rb_inv_sorted _ _ Hi) as Hs.
  pose proof (delete_spec tr xs key Hi) as H. case_bool_decide as Hk.
  - destruct H as (tr' & xs1 & v & xs2 & -> & Hdel & Hinv & Hd).
    pose proof (ksorted_NoDup _ Hs) as Hnd.
    assert (list_to_map (xs1 ++ (key, v) :: xs2) =@{gmap cstr ptr} <[key := v]> (list_to_map (xs1 ++ xs2))) as ->.
    { rewrite <-list_to_map_cons. apply list_to_map_proper; [done|]. by rewrite Permutation_middle. }
    rewrite lookup_insert_eq. exists tr'. split; [done|]. split; [|done]. exists (xs1 ++ xs2).
    split; [done|]. apply delete_insert_id. apply not_elem_of_list_to_map.
    rewrite fmap_app in *. simpl in Hnd. by apply NoDup_middle in Hnd as (_ & ? & ?); apply not_elem_of_app.
  - by rewrite (proj1 (list_to_map_lookup xs key Hs) Hk).
Qed.

(** The entry found by the descent, in terms of the map. *)
Lemma rb_map_find tr m key :
  rb_map tr m →
  match m !! key with
  | None => rb_get (depth tr) tr (rb_root tr) key = Some NULL
  | Some v => ∃ l n, rb_get (depth tr) tr (rb_root tr) key = Some (Some l) ∧
                     get tr (Some l) = Some n ∧ rb_key n = key ∧ rb_value n = v
  end.
Proof.
  intros (xs & Hi & ->). pose proof (rb_inv_sorted _ _ Hi) as Hs.
  destruct (rb_inv_get tr xs key Hi) as (t & ps & t' & H & _ & _ & _ & _ & Hpl & Hget & _ & Hm).
  destruct t' as [|l c k v a b].
  - by rewrite (proj1 (list_to_map_lookup xs key Hs) Hm).
  - destruct Hm as [-> Hm]. rewrite (elem_of_list_to_map_1 _ _ _ (ksorted_NoDup _ Hs) Hm).
    subst t. eexists l, _. split; [done|]. split; [exact (rbt_get_T _ _ _ _ _ _ _ _ H)|done].
Qed.

Lemma rb_map_get tr m key : rb_map tr m → rbtree_get tr key = Some (default NULL (m !! key)).
Proof.
  intros H. pose proof (rb_map_find tr m key H) as Hf. unfold rbtree_get.
  destruct (m !! key) as [v|].
  - destruct Hf as (l & n & -> & Hn & _ & <-). simpl. by rewrite Hn.
  - by rewrite Hf.
Qed.

Lemma kvs_set_value ps l c k v v' a b :
  (kvs (plug ps (T l c k v' a b))).*1 = (kvs (plug ps (T l c k v a b))).*1.
Proof. rewrite !kvs_plug_split. simpl. rewrite !fmap_app. done. Qed.

Lemma RB_set_value ps l c k v v' a b :
  RB (plug ps (T l c k v a b)) → RB (plug ps (T l c k v' a b)).
Proof. intros (n & Hn & Hp & Hc)%unplug_RB. by apply (plug_RB n). Qed.

Lemma rb_map_replace tr m key value :
  rb_map tr m →
  match m !! key with
  | Some v => ∃ tr', rbtree_replace tr key value = Some (disposed (rb_disp tr) v, value, tr') ∧
                     rb_map tr' (<[key := value]> m) ∧ rb_disp tr' = rb_disp tr
  | None => rbtree_replace tr key value = Some ([], NULL, tr)
  end.
Proof.
  intros (xs & Hi & ->). pose proof (rb_inv_sorted _ _ Hi) as Hs.
  destruct (rb_inv_get tr xs key Hi) as (t & ps & t' & H & HRB & _ & Hk & _ & Hpl & Hget & _ & Hm).
  unfold rbtree_replace. rewrite Hget. destruct t' as [|l c k v a b].
  { by rewrite (proj1 (list_to_map_lookup xs key Hs) Hm). }
  destruct Hm as [-> Hm]. rewrite (elem_of_list_to_map_1 _ _ _ (ksorted_NoDup _ Hs) Hm). subst t xs.
  cbn [mbind option_bind root]. rewrite (rbt_get_T _ _ _ _ _ _ _ _ H). cbn [mbind option_bind rb_key rb_value].
  destruct (rbt_set tr ps DL l c key v a b (set_kv key value) c key value H eq_refl) as (tr' & -> & H').
  pose proof H' as (_ & _ & _ & _ & Hd'). simpl mk in H'.
  exists tr'. split; [done|]. split; [|done]. exists (kvs (plug ps (T l c key value a b))). split.
  - exists (plug ps (T l c key value a b)). split_and!; [|by eapply RB_set_value| |done].
    + rewrite Hd'. rewrite locs_plug in H' |- *. exact H'.
    + unfold ksorted in *. by rewrite (kvs_set_value _ _ _ _ v).
  - rewrite !kvs_plug_split in *. simpl in *. rewrite <-!app_assoc in *. simpl in *.
    rewrite !app_assoc in *.
    pose proof (ksorted_NoDup _ Hs) as Hnd. rewrite fmap_app in Hnd. simpl in Hnd.
    assert (∀ w, list_to_map ((pl ps ++ kvs a) ++ (key, w) :: kvs b ++ pr ps) =@{gmap cstr ptr}
              <[key := w]> (list_to_map ((pl ps ++ kvs a) ++ kvs b ++ pr ps))) as Hw.
    { intros w. rewrite <-list_to_map_cons. apply list_to_map_proper.
      - rewrite fmap_app. done.
      - symmetry. apply Permutation_middle. }
    rewrite !Hw. by rewrite insert_insert_eq.
Qed.
End map_ops.

(** * Observers *)

Section observers.
Context (tr : rb_tree) (m : gmap cstr ptr) (Hm : rb_map tr m).

Lemma rb_map_keys : rbtree_keys tr = Some (keys_of m).
Proof using Hm.
  destruct Hm as (xs & (t & H & _ & Hs & <-) & ->). rewrite ksorted_keys_of by done.
  pose proof H as (_ & _ & Hr & _). unfold rbtree_keys. rewrite Hr.
  destruct t as [|l]; [done|]. cbn [root].
  apply (rb_keys_spec _ tr [] _ H); [done|]. rewrite (rbt_depth _ _ H). lia.
Qed.

Lemma rb_map_range a b : rbtree_range tr a b = Some (List.filter (in_range a b) (keys_of m)).
Proof using Hm.
  destruct Hm as (xs & (t & H & _ & Hs & <-) & ->). rewrite ksorted_keys_of by done.
  pose proof H as (_ & _ & Hr & _). unfold rbtree_range. rewrite Hr.
  destruct t as [|l]; [done|]. cbn [root].
  apply (rb_range_spec _ tr [] _ _ _ H Hs); [done|]. rewrite (rbt_depth _ _ H). lia.
Qed.

Lemma rb_map_extreme d :
  rbtree_extreme d tr = Some (match d with DL => head (keys_of m) | DR => last (keys_of m) end).
Proof using Hm.
  destruct Hm as (xs & (t & H & _ & Hs & <-) & ->). rewrite ksorted_keys_of by done.
  pose proof H as (_ & _ & Hr & _). unfold rbtree_extreme. rewrite Hr.
  destruct t as [|l c k v a b]; [by destruct d|]. cbn [root].
  destruct (rb_end_spec d (depth tr) tr [] _ H) as (p & n & Hp & Hn & He);
    [done|rewrite (rbt_depth _ _ H); lia|].
  cbn [root] in Hp. rewrite Hp. cbn [mbind option_bind]. rewrite Hn. simpl in He |- *. by rewrite <-He.
Qed.

Lemma rb_map_size : rbtree_size tr = Some (wrap32 (size m)).
Proof using Hm.
  destruct Hm as (xs & (t & H & _ & Hs & <-) & ->).
  assert (size (list_to_map (kvs t) : gmap cstr ptr) = length (kvs t)) as ->.
  { rewrite <-length_map_to_list, map_to_list_to_map; [done|]. by apply ksorted_NoDup. }
  pose proof H as (_ & _ & Hr & _). unfold rbtree_size. rewrite Hr.
  destruct t as [|l]; [done|]. cbn [root].
  apply (rb_size_spec _ tr [] _ H); [done|]. rewrite (rbt_depth _ _ H). lia.
Qed.

Lemma rb_map_empty : rbtree_empty tr = bool_decide (m = ∅).
Proof using Hm.
  destruct Hm as (xs & (t & H & _ & Hs & <-) & ->). pose proof H as (_ & _ & Hr & _).
  unfold rbtree_empty. rewrite Hr. destruct t as [|l c k v a b]; simpl.
  - by rewrite bool_decide_true.
  - rewrite bool_decide_false; [done|]. intros He.
    apply (f_equal (lookup k)) in He. rewrite lookup_empty in He.
    apply not_elem_of_list_to_map in He. apply He. rewrite fmap_app, elem_of_app. right. by left.
Qed.

(** A tree of [n] black levels has at least [2^n - 1] nodes. *)
Lemma bal_size n t : bal n t → (2 ^ n <= S (length (locs t)))%nat.
Proof.
  clear. revert n. induction t as [|l [] k v a IHa b IHb]; intros n H; simpl in H.
  - by subst.
  - destruct H as (Ha & Hb & _). apply IHa in Ha. apply IHb in Hb.
    simpl. rewrite length_app. lia.
  - destruct n as [|n]; [done|]. destruct H as [Ha Hb]. apply IHa in Ha. apply IHb in Hb.
    simpl. rewrite length_app. lia.
Qed.

Lemma length_kvs t : length (kvs t) = length (locs t).
Proof. clear. induction t; simpl; [done|]. rewrite !length_app. simpl. lia. Qed.

Lemma rb_map_size_locs t xs :
  ksorted xs → kvs t = xs → size (list_to_map xs : gmap cstr ptr) = length (locs t).
Proof.
  intros Hs <-. rewrite <-length_map_to_list, map_to_list_to_map; [apply length_kvs|].
  by apply ksorted_NoDup.
Qed.

Lemma rb_map_black_depth :
  ∃ n : nat, rbtree_black_depth tr = Some (Z.of_nat n) ∧ (2 ^ n <= S (size m))%nat.
Proof using Hm.
  destruct Hm as (xs & (t & H & [[n Hn] Hred] & Hs & Hk) & ->).
  rewrite (rb_map_size_locs t xs Hs Hk). exists n. split; [|by apply bal_size].
  pose proof H as (_ & _ & Hr & _). unfold rbtree_black_depth. rewrite Hr.
  destruct t as [|l c k v a b]; [simpl in Hn; by subst|]. cbn [root].
  rewrite (rbt_get_T tr [] _ _ _ _ _ _ H). cbn [mbind option_bind rb_col rb_left rb_right].
  destruct c; [done|]. rewrite bool_decide_false by done. simpl in Hn. destruct n as [|n]; [done|].
  destruct Hn as [Ha Hb]. assert (length (locs a) + length (locs b) ≤ depth tr)%nat.
  { rewrite (rbt_depth _ _ H). simpl. rewrite length_app. lia. }
  rewrite (rb_black_depth_spec (depth tr) tr [F DL l RB_BLACK k v b] a n H Ha) by lia.
  rewrite (rb_black_depth_spec (depth tr) tr [F DR l RB_BLACK k v a] b n H Hb) by lia.
  cbn [mbind option_bind]. rewrite Z.eqb_refl. f_equal.
  destruct (Z.eqb_spec (n + 1) (-1)); simpl; lia.
Qed.
End observers.

(** The descent needs no more steps than twice the black height. *)
Lemma rb_get_height D dsp fuel tr ps t key n :
  rbt D dsp tr (plug ps t) → bal n t → (2 * n + (if red t then 1 else 0) < fuel)%nat →
  rb_get fuel tr (root t) key = Some (root (locate ps t key).2).
Proof.
  revert fuel ps n. induction t as [|l c k v a IHa b IHb]; intros fuel ps n H Hb Hf.
  - by destruct fuel.
  - destruct fuel as [|fuel]; [lia|]. simpl. rewrite (rbt_get_T _ _ _ _ _ _ _ _ H). simpl.
    destruct (strcmp key k =? 0); [done|].
    assert (∃ m, bal m a ∧ bal m b ∧ (2 * m + (if red a then 1 else 0) < fuel)%nat ∧
                 (2 * m + (if red b then 1 else 0) < fuel)%nat) as (m & Ha & Hbb & Hfa & Hfb).
    { destruct c; simpl in Hb, Hf.
      - destruct Hb as (? & ? & -> & ->). exists n. split_and!; try done; lia.
      - destruct n as [|n]; [done|]. destruct Hb. exists n. split_and!; try done; destruct (red a), (red b); lia. }
    destruct (strcmp key k <? 0); [by apply (IHa fuel (F DL l c k v b :: ps) m)|by apply (IHb fuel (F DR l c k v a :: ps) m)].
Qed.

(** * Sequences of calls *)

(** The public operations, with their arguments. *)
Inductive rb_cmd :=
| Insert (key : cstr) (value : ptr)
| Replace (key : cstr) (value : ptr)
| Get (key : cstr)
| Delete (key : cstr)
| Minimum | Maximum | Keys | Range (min max : cstr) | Size | Empty.

(** What the caller sees: the values passed to [dispose], and the result. *)
Inductive rb_res :=
| RBool (b : bool)
| RPtr (freed : list ptr) (p : ptr)
| RInt (freed : list ptr) (z : Z)
| RKey (k : option cstr)
| RKeys (ks : list cstr).

(** A call, the new node being placed by the allocator [alloc]. *)
Definition rb_exec (alloc : heap rb_node → loc) (t : rb_tree) (c : rb_cmd) :
    option (rb_res * rb_tree) :=
  match c with
  | Insert k v => '(p, t) ← rbtree_insert (alloc (rb_heap t)) t k v; Some (RBool (not_null p), t)
  | Replace k v => '(ds, p, t) ← rbtree_replace t k v; Some (RPtr ds p, t)
  | Get k => p ← rbtree_get t k; Some (RPtr [] p, t)
  | Delete k => '(ds, z, t) ← rbtree_delete t k; Some (RInt ds z, t)
  | Minimum => k ← rbtree_minimum t; Some (RKey k, t)
  | Maximum => k ← rbtree_maximum t; Some (RKey k, t)
  | Keys => ks ← rbtree_keys t; Some (RKeys ks, t)
  | Range a b => ks ← rbtree_range t a b; Some (RKeys ks, t)
  | Size => n ← rbtree_size t; Some (RInt [] n, t)
  | Empty => Some (RBool (rbtree_empty t), t)
  end.

(** The same call on a finite map. *)
Definition map_exec (dsp : bool) (m : gmap cstr ptr) (c : rb_cmd) : rb_res * gmap cstr ptr :=
  match c with
  | Insert k v => match m !! k with
                  | Some _ => (RBool false, m)
                  | None => (RBool true, <[k := v]> m)
                  end
  | Replace k v => match m !! k with
                   | Some old => (RPtr (disposed dsp old) v, <[k := v]> m)
                   | None => (RPtr [] NULL, m)
                   end
  | Get k => (RPtr [] (default NULL (m !! k)), m)
  | Delete k => match m !! k with
                | Some old => (RInt (disposed dsp old) 1, delete k m)
                | None => (RInt [] 0, m)
                end
  | Minimum => (RKey (head (keys_of m)), m)
  | Maximum => (RKey (last (keys_of m)), m)
  | Keys => (RKeys (keys_of m), m)
  | Range a b => (RKeys (List.filter (in_range a b) (keys_of m)), m)
  | Size => (RInt [] (wrap32 (size m)), m)
  | Empty => (RBool (bool_decide (m = ∅)), m)
  end.

Fixpoint rb_run (alloc : heap rb_node → loc) (t : rb_tree) (cs : list rb_cmd) :
    option (list rb_res * rb_tree) :=
  match cs with
  | [] => Some ([], t)
  | c :: cs => '(r, t) ← rb_exec alloc t c; '(rs, t) ← rb_run alloc t cs; Some (r :: rs, t)
  end.

Fixpoint map_run (dsp : bool) (m : gmap cstr ptr) (cs : list rb_cmd) : list rb_res * gmap cstr ptr :=
  match cs with
  | [] => ([], m)
  | c :: cs => let '(r, m) := map_exec dsp m c in
               let '(rs, m) := map_run dsp m cs in (r :: rs, m)
  end.

Section run.
Context (alloc : heap rb_node → loc).
Context (alloc_fresh : ∀ h, h !! alloc h = None).

(** One call simulates the same call on the map. *)
Lemma rb_exec_sim tr m c :
  rb_map tr m →
  ∃ tr', rb_exec alloc tr c = Some ((map_exec (rb_disp tr) m c).1, tr') ∧
         rb_map tr' (map_exec (rb_disp tr) m c).2 ∧ rb_disp tr' = rb_disp tr.
Proof using alloc_fresh.
  intros H. destruct c as [k v|k v|k|k| | | |a b| |]; simpl.
  - pose proof (rb_map_insert _ tr m k v H (alloc_fresh _)) as Hi. destruct (m !! k); simpl.
    + rewrite Hi. by exists tr.
    + destruct Hi as (tr' & -> & ? & ?). by exists tr'.
  - pose proof (rb_map_replace tr m k v H) as Hi. destruct (m !! k); simpl.
    + destruct Hi as (tr' & -> & ? & ?). by exists tr'.
    + rewrite Hi. by exists tr.
  - rewrite (rb_map_get _ _ _ H). by exists tr.
  - pose proof (rb_map_delete tr m k H) as Hi. destruct (m !! k); simpl.
    + destruct Hi as (tr' & -> & ? & ?). by exists tr'.
    + rewrite Hi. by exists tr.
  - unfold rbtree_minimum. rewrite (rb_map_extreme _ _ H). by exists tr.
  - unfold rbtree_maximum. rewrite (rb_map_extreme _ _ H). by exists tr.
  - rewrite (rb_map_keys _ _ H). by exists tr.
  - rewrite (rb_map_range _ _ H). by exists tr.
  - rewrite (rb_map_size _ _ H). by exists tr.
  - rewrite (rb_map_empty _ _ H). by exists tr.
Qed.

Lemma rb_run_sim tr m cs :
  rb_map tr m →
  ∃ tr', rb_run alloc tr cs = Some ((map_run (rb_disp tr) m cs).1, tr') ∧
         rb_map tr' (map_run (rb_disp tr) m cs).2 ∧ rb_disp tr' = rb_disp tr.
Proof using alloc_fresh.
  revert tr m. induction cs as [|c cs IH]; intros tr m H; simpl; [by exists tr|].
  destruct (rb_exec_sim tr m c H) as (tr1 & -> & H1 & Hd1). simpl.
  destruct (map_exec (rb_disp tr) m c) as [r m1]. simpl in *.
  destruct (IH tr1 m1 H1) as (tr2 & -> & H2 & Hd2). rewrite Hd1 in *. simpl.
  destruct (map_run (rb_disp tr) m1 cs) as [rs m2]. simpl in *. exists tr2. split_and!; congruence.
Qed.
End run.

Lemma rb_map_init dsp : rb_map (rbtree_set_dispose rbtree_init dsp) ∅.
Proof.
  exists []. split; [|done]. exists E. split_and!; [|by split; [exists O|]|constructor|done].
  split_and!; try done. constructor.
Qed.

Lemma rbtree_destroy_spec tr m :
  rb_map tr m →
  ∃ ds, rbtree_destroy (Some tr) = Some (ds, ∅) ∧
        ds ≡ₚ (map_to_list m).*2 ≫= disposed (rb_disp tr).
Proof.
  intros (xs & (t & H & _ & Hs & <-) & ->). pose proof H as (Hrep & Hnd & Hr & Hd & _).
  assert ((map_to_list (list_to_map (kvs t) : gmap cstr ptr)).*2 ≡ₚ (kvs t).*2) as Hperm.
  { apply Permutation_map, map_to_list_to_map. by apply ksorted_NoDup. }
  unfold rbtree_destroy. rewrite Hr. destruct t as [|l c k v a b].
  - simpl in Hd. apply dom_empty_inv_L in Hd. rewrite Hd. eexists. split; [done|]. by rewrite Hperm.
  - cbn [root]. destruct (rb_destroy_spec (depth tr) (rb_disp tr) _ _ _ Hrep Hnd) as (ds & h & Hds & Hp & Hdom & _);
      [done|rewrite (rbt_depth _ _ H); lia|].
    cbn [root] in Hds. rewrite Hds. exists ds. split; [|by rewrite Hperm]. do 2 f_equal.
    apply dom_empty_inv_L. rewrite Hdom, Hd. set_solver.
Qed.

(** * The claims *)

(** C1: Every sequence of calls of the public functions, from a new tree with or
    without a [dispose] callback and with any allocator that returns unused
    addresses, is free of undefined behaviour, ends, and returns to the caller
    exactly what the same sequence returns on a finite map ordered by
    [strcmp], the values handed to [dispose] included. *)
Theorem rbtree_refines_map alloc dsp cs :
  (∀ h : heap rb_node, h !! alloc h = None) →
  ∃ tr, rb_run alloc (rbtree_set_dispose rbtree_init dsp) cs = Some ((map_run dsp ∅ cs).1, tr) ∧
        rb_map tr (map_run dsp ∅ cs).2.
Proof.
  intros Ha. destruct (rb_run_sim alloc Ha _ ∅ cs (rb_map_init dsp)) as (tr & Hr & Hm & _).
  by exists tr.
Qed.

(** A concrete allocator: the first address above those in use. *)
Definition next_addr {A} (h : heap A) : loc := fresh (dom h).
Lemma next_addr_fresh {A} (h : heap A) : h !! next_addr h = None.
Proof. apply not_elem_of_dom, is_fresh. Qed.

Lemma rbtree_refines_map_witness :
  let cs := [Insert [98] (Some 1%positive); Insert [97] (Some 2%positive); Insert [98] NULL;
             Delete [98]; Get [97]; Keys] in
  ∃ tr, rb_run next_addr (rbtree_set_dispose rbtree_init true) cs =
          Some ([RBool true; RBool true; RBool false; RInt [Some 1%positive] 1;
                 RPtr [] (Some 2%positive); RKeys [[97]]], tr).
Proof.
  intros cs. destruct (rbtree_refines_map next_addr true cs next_addr_fresh) as (tr & H & _).
  exists tr. rewrite H. vm_compute. reflexivity.
Defined.

(** C24: Whatever the calls, the tree is balanced: [rbtree_black_depth] reports no
    defect, and a descent visits at most [2 * log2 (n + 1)] of the [n] nodes. *)
Theorem rbtree_stays_balanced alloc dsp cs tr rs key :
  (∀ h : heap rb_node, h !! alloc h = None) →
  rb_run alloc (rbtree_set_dispose rbtree_init dsp) cs = Some (rs, tr) →
  let n := size (rb_heap tr) in
  ∃ (bd : nat) p, rbtree_black_depth tr = Some (Z.of_nat bd) ∧ (2 ^ bd <= S n)%nat ∧
    rb_get (S (2 * Nat.log2 (S n))) tr (rb_root tr) key = Some p ∧
    rb_get (depth tr) tr (rb_root tr) key = Some p.
Proof.
  intros Ha Hrun n. destruct (rb_run_sim alloc Ha _ ∅ cs (rb_map_init dsp)) as (tr' & Hr & Hm & _).
  rewrite Hrun in Hr. injection Hr as _ <-. set (m := (map_run _ _ _).2) in *. clearbody m.
  assert (size m = n) as Hn.
  { destruct Hm as (xs & (t & H & _ & Hs & Hk) & ->). rewrite (rb_map_size_locs t xs Hs Hk).
    pose proof (rbt_depth _ _ H) as Hd. unfold depth in Hd. unfold n. lia. }
  destruct (rb_map_black_depth _ _ Hm) as (bd & Hbd & Hsz).
  destruct Hm as (xs & (t & H & [[b Hb] Hred] & Hs & Hk) & ->).
  exists bd, (root (locate [] t key).2). rewrite <-Hn. split; [done|]. split; [done|].
  pose proof H as (_ & _ & Hroot & _). rewrite Hroot. split.
  - apply (rb_get_height _ _ _ tr [] t key b H Hb). rewrite Hred.
    rewrite (rb_map_size_locs t xs Hs Hk). apply bal_size in Hb.
    pose proof (Nat.log2_le_mono _ _ Hb) as Hl. rewrite Nat.log2_pow2 in Hl by lia. lia.
  - apply (rb_get_locate _ tr [] t key H). rewrite (rbt_depth _ _ H). lia.
Qed.

Lemma rbtree_stays_balanced_witness :
  ∃ tr (bd : nat), rb_run next_addr (rbtree_set_dispose rbtree_init false)
    [Insert [1] NULL; Insert [2] NULL; Insert [3] NULL; Delete [2]] =
    Some ([RBool true; RBool true; RBool true; RInt [] 1], tr) ∧
    rbtree_black_depth tr = Some (Z.of_nat bd).
Proof.
  eexists. edestruct (rbtree_stays_balanced next_addr false
    [Insert [1] NULL; Insert [2] NULL; Insert [3] NULL; Delete [2]]) as (bd & p & Hbd & _).
  - exact next_addr_fresh.
  - vm_compute. reflexivity.
  - exists bd. split; [vm_compute; reflexivity|exact Hbd].
  Unshelve. exact [].
Defined.

(** [rbtree_destroy] frees every node of the tree and hands every value to
    [dispose] once (the non-null ones, when the callback is set). *)
Theorem rbtree_destroy_frees_all tr m :
  rb_map tr m →
  ∃ ds, rbtree_destroy (Some tr) = Some (ds, ∅) ∧
        ds ≡ₚ (map_to_list m).*2 ≫= disposed (rb_disp tr).
Proof. apply rbtree_destroy_spec. Qed.

Lemma rbtree_destroy_frees_all_witness :
  let tr := RBTree (Some 1%positive) true {[1%positive := RBNode [97] (Some 7%positive) RB_BLACK NULL NULL NULL]} in
  ∃ ds, rbtree_destroy (Some tr) = Some (ds, ∅) ∧ ds = [Some 7%positive].
Proof.
  intros tr. destruct (rbtree_destroy_frees_all tr {[ [97] := Some 7%positive ]}) as (ds & Hd & Hp).
  - exists [([97], Some 7%positive)]. split; [|reflexivity].
    exists (T 1 RB_BLACK [97] (Some 7%positive) E E). split_and!.
    + split_and!; try reflexivity; [vm_compute; auto|]. constructor; [apply not_elem_of_nil|constructor].
    + split; [exists 1%nat; simpl; auto|reflexivity].
    + repeat constructor.
    + reflexivity.
  - exists ds. split; [exact Hd|]. revert Hd. vm_compute. congruence.
Defined.

(** A tree with paths of one and of two black nodes under each child of the
    root. *)
Definition unbalanced_tree : rb_tree :=
  let node k p l r := RBNode k NULL RB_BLACK p l r in
  let P := @Some positive in
  RBTree (P 1%positive) false (list_to_map [
    (1%positive, node [8] NULL (P 2%positive) (P 3%positive));
    (2%positive, node [4] (P 1%positive) (P 4%positive) (P 5%positive));
    (3%positive, node [12] (P 1%positive) (P 6%positive) (P 7%positive));
    (4%positive, node [2] (P 2%positive) (P 8%positive) NULL);
    (5%positive, node [6] (P 2%positive) (P 9%positive) NULL);
    (6%positive, node [10] (P 3%positive) (P 10%positive) NULL);
    (7%positive, node [14] (P 3%positive) (P 11%positive) NULL);
    (8%positive, node [1] (P 4%positive) NULL NULL);
    (9%positive, node [5] (P 5%positive) NULL NULL);
    (10%positive, node [9] (P 6%positive) NULL NULL);
    (11%positive, node [13] (P 7%positive) NULL NULL)]).

(** [rbtree_black_depth] can miss a defect: when both subtrees of a black
    node are unbalanced, their [-1] is counted as a depth and the tree is
    reported as balanced. *)
Theorem rbtree_black_depth_misses :
  rb_black_depth 5 unbalanced_tree (Some 4%positive) = Some (-1) ∧
  rbtree_black_depth unbalanced_tree = Some 0.
Proof. split; vm_compute; reflexivity. Qed.
