(* ===== verification/HashOp.v ===== *)
(** The chained hash table of src/shared/hash_op.c and the prime search of
    src/shared/math_op.c it takes its sizes and seeds from.

    A table is its header, the array of row heads and the heap of its nodes;
    [None] is undefined behaviour (a row outside of the array, a freed or null
    node, a division by zero). *)

From S2P Require Import Prelude CLib.
From Stdlib Require Import Znumtheory.

(** * os_getprime *)

(** The [while] loop, over [i]: the value it stops with. *)
Definition getprime_while_step (val max_i i : Z) : Z + Z :=
  if i <=? max_i then
    if val mod i =? 0 then inr i else inl (wrap32 (i + 2))
  else inr i.

(** The [do] loop, over [val]; [None] if the inner loop did not end. *)
Definition getprime_do_step (val : Z) : Z + option Z :=
  let max_i := val / 2 in
  match loop (getprime_while_step val max_i) 31 3 with
  | inl _ => inr None
  | inr i =>
      if max_i <=? i then inr (Some val)
      else
        let val := wrap32 (val + 2) in
        if val =? 0 then inr (Some 0) else inl val
  end.

(** [os_getprime]: both loops run over odd 32-bit values. *)
Definition os_getprime (val : Z) : option Z :=
  let val := if val mod 2 =? 0 then wrap32 (val + 1) else val in
  match loop getprime_do_step 31 val with inr r => r | inl _ => None end.

(** * Data *)

(** [OSHashNode]; the key is [None] where the pointer is null. *)
Record OSHashNode := HNode {
  hn_next : ptr;
  hn_prev : ptr;
  hn_key : option cstr;
  hn_data : ptr
}.

(** [OSHash]; [free_data] says whether [free_data_function] is set. *)
Record OSHash := Hash {
  rows : Z;
  initial_seed : Z;
  constant : Z;
  elements : Z;
  free_data : bool;
  table : list ptr;
  hheap : heap OSHashNode
}.

Definition set_hnext (p : ptr) (n : OSHashNode) := HNode p (hn_prev n) (hn_key n) (hn_data n).
Definition set_hprev (p : ptr) (n : OSHashNode) := HNode (hn_next n) p (hn_key n) (hn_data n).
Definition set_hdata (p : ptr) (n : OSHashNode) := HNode (hn_next n) (hn_prev n) (hn_key n) p.

Definition with_heap (s : OSHash) (h : heap OSHashNode) : OSHash :=
  Hash (rows s) (initial_seed s) (constant s) (elements s) (free_data s) (table s) h.
Definition with_elements (s : OSHash) (n : Z) : OSHash :=
  Hash (rows s) (initial_seed s) (constant s) n (free_data s) (table s) (hheap s).
Definition with_table (s : OSHash) (t : list ptr) : OSHash :=
  Hash (rows s) (initial_seed s) (constant s) (elements s) (free_data s) t (hheap s).

(** [self->table[i]] and its assignment. *)
Definition row_get (s : OSHash) (i : Z) : option ptr := table s !! Z.to_nat i.
Definition row_set (s : OSHash) (i : Z) (p : ptr) : option OSHash :=
  match table s !! Z.to_nat i with
  | Some _ => Some (with_table s (<[Z.to_nat i := p]> (table s)))
  | None => None
  end.

(** The data passed to [free_data_function], if any. *)
Definition release (s : OSHash) (p : ptr) : list ptr :=
  if not_null p && free_data s then [p] else [].

Definition OSHASH_ERROR := 0.
Definition OSHASH_DUPLICATE := 1.
Definition OSHASH_SUCCESS := 2.

(** * Operations *)

(** [OSHash_Create]; [r1] and [r2] are the results of [os_random]. *)
Definition OSHash_Create (r1 r2 : Z) : option OSHash :=
  n ← os_getprime 32;
  if n =? 0 then None
  else
    seed ← os_getprime (wrap32 r1 mod n);
    const ← os_getprime (wrap32 r2 mod n);
    Some (Hash n seed const 0 false (replicate (S (Z.to_nat n)) NULL) ∅).

Definition OSHash_SetFreeDataPointer (s : OSHash) (fn : bool) : OSHash :=
  Hash (rows s) (initial_seed s) (constant s) (elements s) fn (table s) (hheap s).

(** [_os_genhash]: a [char] is sign-extended before the addition. *)
Fixpoint genhash_from (const : Z) (hash_key : Z) (key : cstr) : Z :=
  match key with
  | [] => hash_key
  | c :: key => genhash_from const (wrap32 (wrap32 (hash_key * const) + wrap32 (schar c))) key
  end.
Definition os_genhash (s : OSHash) (key : cstr) : Z := genhash_from (constant s) (initial_seed s) key.

(** [OSHash_GetIndex] *)
Definition OSHash_GetIndex (s : OSHash) (key : cstr) : option Z :=
  if rows s =? 0 then None else Some (os_genhash s key mod rows s).

(** The loop over a row that [OSHash_Update] and [_OSHash_Add] share: the
    node of [key], or NULL. *)
Fixpoint row_find (fuel : nat) (h : heap OSHashNode) (curr : ptr) (key : cstr) : option ptr :=
  match curr with
  | None => Some NULL
  | Some _ =>
      match fuel with
      | O => None
      | S f =>
          n ← load h curr;
          k ← hn_key n;
          if strcmp k key =? 0 then Some curr else row_find f h (hn_next n) key
      end
  end.
Definition walk_fuel (s : OSHash) : nat := S (size (hheap s)).

(** [OSHash_Update]: the data freed, the result, the table. *)
Definition OSHash_Update (s : OSHash) (key : cstr) (data : ptr) : option (list ptr * Z * OSHash) :=
  index ← OSHash_GetIndex s key;
  head ← row_get s index;
  node ← row_find (walk_fuel s) (hheap s) head key;
  match node with
  | None => Some ([], 0, s)
  | Some _ =>
      n ← load (hheap s) node;
      h ← store (hheap s) node (set_hdata data);
      Some (release s (hn_data n), 1, with_heap s h)
  end.

(** [_OSHash_Add]; [new] is the node that [calloc] returns, [None] when it or
    the [strdup] of the key fails. *)
Definition OSHash_Add_ (update : bool) (s : OSHash) (key : cstr) (data : ptr) (new : option loc) :
    option (Z * OSHash) :=
  index ← OSHash_GetIndex s key;
  head ← row_get s index;
  node ← row_find (walk_fuel s) (hheap s) head key;
  match node with
  | Some _ =>
      if update then h ← store (hheap s) node (set_hdata data); Some (OSHASH_DUPLICATE, with_heap s h)
      else Some (OSHASH_DUPLICATE, s)
  | None =>
      match new with
      | None => Some (OSHASH_ERROR, s)
      | Some l =>
          let h := <[l := HNode NULL NULL (Some key) data]> (hheap s) in
          h ← match head with
              | None => Some h
              | Some _ => h ← store h (Some l) (set_hnext head); store h head (set_hprev (Some l))
              end;
          s ← row_set (with_heap s h) index (Some l);
          Some (OSHASH_SUCCESS, with_elements s (wrap32 (elements s + 1)))
      end
  end.
Definition OSHash_Add : OSHash → cstr → ptr → option loc → option (Z * OSHash) := OSHash_Add_ false.
Definition OSHash_Set : OSHash → cstr → ptr → option loc → option (Z * OSHash) := OSHash_Add_ true.

(** [OSHash_Get]: nodes without a key are skipped. *)
Fixpoint get_loop (fuel : nat) (h : heap OSHashNode) (curr : ptr) (key : cstr) : option ptr :=
  match curr with
  | None => Some NULL
  | Some _ =>
      match fuel with
      | O => None
      | S f =>
          n ← load h curr;
          match hn_key n with
          | Some k => if strcmp k key =? 0 then Some (hn_data n) else get_loop f h (hn_next n) key
          | None => get_loop f h (hn_next n) key
          end
      end
  end.
Definition OSHash_Get (s : OSHash) (key : cstr) : option ptr :=
  index ← OSHash_GetIndex s key;
  head ← row_get s index;
  get_loop (walk_fuel s) (hheap s) head key.

(** [OSHash_Get_Elem_ex] *)
Definition OSHash_Get_Elem_ex (s : OSHash) : Z := elements s.

(** [OSHash_Delete]: the data of the entry, NULL if there is none. *)
Fixpoint delete_loop (fuel : nat) (s : OSHash) (index : Z) (prev curr : ptr) (key : cstr) :
    option (ptr * OSHash) :=
  match curr with
  | None => Some (NULL, s)
  | Some _ =>
      match fuel with
      | O => None
      | S f =>
          n ← load (hheap s) curr;
          k ← hn_key n;
          if strcmp k key =? 0 then
            s ← match prev with
                | None => row_set s index (hn_next n)
                | Some _ => h ← store (hheap s) prev (set_hnext (hn_next n)); Some (with_heap s h)
                end;
            h ← match hn_next n with
                | Some _ => store (hheap s) (hn_next n) (set_hprev prev)
                | None => Some (hheap s)
                end;
            h ← free h curr;
            Some (hn_data n, with_elements (with_heap s h) (wrap32 (elements s - 1)))
          else delete_loop f s index curr (hn_next n) key
      end
  end.
Definition OSHash_Delete (s : OSHash) (key : cstr) : option (ptr * OSHash) :=
  index ← OSHash_GetIndex s key;
  head ← row_get s index;
  delete_loop (walk_fuel s) s index NULL head key.

(** The loop that frees the nodes of a row: the data released, the heap. *)
Fixpoint free_row (fuel : nat) (s : OSHash) (h : heap OSHashNode) (curr : ptr) :
    option (list ptr * heap OSHashNode) :=
  match curr with
  | None => Some ([], h)
  | Some _ =>
      match fuel with
      | O => None
      | S f =>
          n ← load h curr;
          h ← free h curr;
          '(ds, h) ← free_row f s h (hn_next n);
          Some (release s (hn_data n) ++ ds, h)
      end
  end.

(** [free_row] over the first [count] rows. *)
Fixpoint free_rows (heads : list ptr) (count : nat) (s : OSHash) (h : heap OSHashNode) :
    option (list ptr * heap OSHashNode) :=
  match count with
  | O => Some ([], h)
  | S c =>
      match heads with
      | [] => None
      | p :: heads =>
          '(d1, h) ← free_row (S (size h)) s h p;
          '(d2, h) ← free_rows heads c s h;
          Some (d1 ++ d2, h)
      end
  end.

(** [OSHash_Free]: the data released and what is left of the heap. *)
Definition OSHash_Free (s : OSHash) : option (list ptr * heap OSHashNode) :=
  free_rows (table s) (S (Z.to_nat (rows s))) s (hheap s).

(** [OSHash_setSize]; [mem] is false when [realloc] fails. *)
Definition OSHash_setSize (mem : bool) (s : OSHash) (new_size : Z) : option (list ptr * Z * OSHash) :=
  let orig_size := rows s in
  if new_size <=? orig_size then Some ([], 1, s)
  else
    n ← os_getprime new_size;
    let s := Hash n (initial_seed s) (constant s) (elements s) (free_data s) (table s) (hheap s) in
    if n =? 0 then Some ([], 0, s)
    else if negb mem then Some ([], 0, s)
    else
      '(ds, h) ← free_rows (table s) (Z.to_nat orig_size) s (hheap s);
      seed ← os_getprime (456 mod n);
      const ← os_getprime (789 mod n);
      Some (ds, 1, Hash n seed const (elements s) (free_data s)
                        (replicate (S (Z.to_nat n)) NULL) h).

(** [OSHash_Duplicate] of one row: the copies get the addresses [ls] and no
    [prev] pointer; the copied row, and the addresses left. *)
Fixpoint dup_row (fuel : nat) (h h' : heap OSHashNode) (curr : ptr) (ls : list loc) :
    option (ptr * heap OSHashNode * list loc) :=
  match curr with
  | None => Some (NULL, h', ls)
  | Some _ =>
      match fuel with
      | O => None
      | S f =>
          n ← load h curr;
          match ls with
          | [] => None
          | l :: ls =>
              '(nx, h', ls) ← dup_row f h h' (hn_next n) ls;
              Some (Some l, <[l := HNode nx NULL (hn_key n) (hn_data n)]> h', ls)
          end
      end
  end.
Fixpoint dup_rows (heads : list ptr) (count fuel : nat) (h h' : heap OSHashNode) (ls : list loc) :
    option (list ptr * heap OSHashNode) :=
  match count with
  | O => Some ([], h')
  | S c =>
      match heads with
      | [] => None
      | p :: heads =>
          '(q, h', ls) ← dup_row fuel h h' p ls;
          '(qs, h') ← dup_rows heads c fuel h h' ls;
          Some (q :: qs, h')
      end
  end.
(** [OSHash_Duplicate]: [os_calloc] does not return on failure. *)
Definition OSHash_Duplicate (s : OSHash) (ls : list loc) : option OSHash :=
  '(t, h) ← dup_rows (table s) (S (Z.to_nat (rows s))) (walk_fuel s) (hheap s) ∅ ls;
  Some (Hash (rows s) (initial_seed s) (constant s) 0 (free_data s) t h).

(** The scan for the next non-empty row that [OSHash_Begin] and [OSHash_Next]
    share, from row [i]: the node and the row. *)
Fixpoint scan_rows (fuel : nat) (s : OSHash) (h : heap OSHashNode) (i : Z) : option (ptr * Z) :=
  if i <=? rows s then
    p ← row_get s i;
    hit ← match p with
          | None => Some false
          | Some _ => n ← load h p; Some (bool_decide (hn_key n ≠ None))
          end;
    if (hit : bool) then Some (p, i)
    else match fuel with O => None | S f => scan_rows f s h (i + 1) end
  else Some (NULL, i).
Definition scan_fuel (s : OSHash) : nat := S (S (Z.to_nat (rows s))).

Definition OSHash_Begin (s : OSHash) : option (ptr * Z) := scan_rows (scan_fuel s) s (hheap s) 0.

(** [OSHash_Next] reads the nodes in [h]. *)
Definition next_in (s : OSHash) (h : heap OSHashNode) (i : Z) (current : ptr) : option (ptr * Z) :=
  nx ← match current with
       | None => Some NULL
       | Some _ => n ← load h current; Some (hn_next n)
       end;
  match nx with
  | Some _ => Some (nx, i)
  | None => scan_rows (scan_fuel s) s h (i + 1)
  end.
Definition OSHash_Next (s : OSHash) (i : Z) (current : ptr) : option (ptr * Z) :=
  next_in s (hheap s) i current.

(** [OSHash_Clean]: the data given to the cleaner, and what is left. *)
Fixpoint clean_loop (fuel : nat) (s : OSHash) (h : heap OSHashNode) (i : Z) (curr : ptr) :
    option (list ptr * heap OSHashNode) :=
  match curr with
  | None => Some ([], h)
  | Some _ =>
      match fuel with
      | O => None
      | S f =>
          '(nx, i) ← next_in s h i curr;
          n ← load h curr;
          h ← free h curr;
          '(ds, h) ← clean_loop f s h i nx;
          Some ((if not_null (hn_data n) then [hn_data n] else []) ++ ds, h)
      end
  end.
Definition OSHash_Clean (s : OSHash) : option (list ptr * heap OSHashNode) :=
  '(p, i) ← OSHash_Begin s;
  clean_loop (walk_fuel s) s (hheap s) i p.

(** [OSHash_It]: the callback gets the table, the row, the node and the
    caller's data, and may change all of them; the loop moves on by itself when
    the callback left the node pointer alone. *)
Section it.
Context {D : Type} (iterating_function : OSHash → Z → ptr → D → option (OSHash * ptr * D)).

Fixpoint it_row (fuel : nat) (s : OSHash) (i : Z) (node_it : ptr) (data : D) : option (OSHash * D) :=
  match node_it with
  | None => Some (s, data)
  | Some _ =>
      n ← load (hheap s) node_it;
      match hn_key n, fuel with
      | None, _ => Some (s, data)
      | Some _, O => None
      | Some _, S f =>
          '(s, node, data) ← iterating_function s i node_it data;
          next ← (if ptr_eqb node_it node then n ← load (hheap s) node; Some (hn_next n) else Some node);
          it_row f s i next data
      end
  end.

Fixpoint it_rows (count fuel : nat) (s : OSHash) (i : Z) (data : D) : option (OSHash * D) :=
  if i <? rows s then
    match count with
    | O => None
    | S count =>
        p ← row_get s i;
        '(s, data) ← it_row fuel s i p data;
        it_rows count fuel s (i + 1) data
    end
  else Some (s, data).
Definition OSHash_It (s : OSHash) (data : D) : option (OSHash * D) :=
  it_rows (Z.to_nat (rows s)) (walk_fuel s) s 0 data.

(** The modes 0, 1 and 2 only differ in the lock they take. *)
Definition OSHash_It_ex (s : OSHash) (mode : Z) (data : D) : option (OSHash * D) :=
  if (0 <=? mode) && (mode <=? 2) then OSHash_It s data else Some (s, data).
End it.

(** ** Variants

    The [_ex] functions run the operation under the table's lock; the [_ins]
    functions lower the case of the key first, and the [Numeric] ones print an
    [int] as the key. *)

(** [snprintf(string_key, 12, "%d", key)] *)
Definition string_key (key : Z) : cstr :=
  take 11 (if key <? 0 then 45 :: digits 10 (- key) else digits 10 key).

Definition OSHash_Add_ex := OSHash_Add.
Definition OSHash_Set_ex := OSHash_Set.
Definition OSHash_Update_ex := OSHash_Update.
Definition OSHash_Get_ex := OSHash_Get.
Definition OSHash_Delete_ex := OSHash_Delete.
Definition OSHash_Duplicate_ex := OSHash_Duplicate.
Definition OSHash_setSize_ex := OSHash_setSize.
Definition OSHash_Begin_ex := OSHash_Begin.
Definition OSHash_Get_ex_dup (s : OSHash) (key : cstr) (duplicator : ptr → ptr) : option ptr :=
  p ← OSHash_Get s key; Some (duplicator p).

Definition OSHash_Add_ins s key := OSHash_Add_ex s (str_lowercase key).
Definition OSHash_Get_ins s key := OSHash_Get_ex s (str_lowercase key).
Definition OSHash_Delete_ins s key := OSHash_Delete_ex s (str_lowercase key).
Definition OSHash_Numeric_Add_ex s key := OSHash_Add_ex s (string_key key).
Definition OSHash_Numeric_Get_ex s key := OSHash_Get_ex s (string_key key).
Definition OSHash_Numeric_Delete_ex s key := OSHash_Delete_ex s (string_key key).

(** * The prime search *)

Module Prime.

(** The largest 32-bit prime, by trial division. *)
Definition pmax : Z := 4294967291.

Fixpoint no_divisor (n : nat) (d : Z) : bool :=
  match n with O => true | S n => negb (pmax mod d =? 0) && no_divisor n (d + 1) end.

Lemma no_divisor_spec n d : no_divisor n d = true → ∀ j, d <= j < d + n → pmax mod j <> 0.
Proof.
  revert d. induction n as [|n IH]; intros d H j Hj; [lia|]. simpl in H.
  apply andb_true_iff in H as [Hd H]. destruct (Z.eq_dec j d) as [->|].
  - apply negb_true_iff, Z.eqb_neq in Hd. done.
  - apply (IH (d + 1) H). lia.
Qed.

Lemma pmax_no_small_divisor j : 2 <= j < 65538 → pmax mod j <> 0.
Proof.
  intros Hj. apply (no_divisor_spec 65536 2); [vm_compute; reflexivity|].
  change (Z.of_nat 65536) with 65536. lia.
Qed.

Lemma pmax_prime : prime pmax.
Proof.
  apply prime_alt. split; [unfold pmax; lia|]. intros n [Hn1 Hn2] [q Hq].
  assert (n <= 65537 \/ q <= 65537) as [Hs|Hs] by (unfold pmax in *; nia).
  - apply (pmax_no_small_divisor n ltac:(lia)). rewrite Hq. apply Z_mod_mult.
  - apply (pmax_no_small_divisor q); [unfold pmax in *; nia|]. rewrite Hq, Z.mul_comm. apply Z_mod_mult.
Qed.

(** No odd number from 3 up to half of [v] divides it. *)
Definition no_odd_divisor (v k : Z) : Prop := ∀ j, 3 <= j < k → j mod 2 = 1 → v mod j <> 0.

Lemma odd_prime v : 3 <= v → v mod 2 = 1 → no_odd_divisor v (v / 2 + 1) → prime v.
Proof.
  intros Hv Ho Hno. apply prime_alt. split; [lia|]. intros n [Hn1 Hn2] [q Hq].
  assert (n mod 2 = 1) as Hno2.
  { destruct (Z.mod_pos_bound n 2); [lia|]. destruct (Z.eq_dec (n mod 2) 0) as [E|]; [|lia].
    apply Z.mod_divide in E as [m Hm]; [|lia]. rewrite Hq, Hm, Z.mul_assoc, Z_mod_mult in Ho. lia. }
  assert (q <> 2).
  { intros ->. rewrite Hq, Z.mul_comm, Z_mod_mult in Ho. lia. }
  apply (Hno n); [|done|rewrite Hq; apply Z_mod_mult].
  assert (3 <= n) by (destruct (Z.eq_dec n 2) as [->|]; [done|lia]).
  assert (3 <= q) by nia. split; [lia|].
  apply Z.lt_succ_r. apply Z.div_le_lower_bound; nia.
Qed.

(** The inner loop decides primality. *)
Lemma while_spec v :
  3 <= v < 4294967296 → v mod 2 = 1 →
  ∃ i, loop (getprime_while_step v (v / 2)) 31 3 = inr i ∧ ((v / 2 <=? i) = true ↔ prime v).
Proof.
  intros Hv Ho. assert (0 <= v / 2 < 2147483648) as Hm.
  { split; [apply Z.div_pos; lia|apply Z.div_lt_upper_bound; lia]. }
  pose proof (Z.div_mod v 2 ltac:(lia)) as Hdm.
  apply (loop_total _ (λ i, 3 <= i <= v / 2 + 2 ∧ i mod 2 = 1 ∧ no_odd_divisor v i)
    (λ i, (v / 2 <=? i) = true ↔ prime v) (λ i, (v / 2 + 2 - i) / 2)).
  - intros i (Hi & Hio & Hno). unfold getprime_while_step.
    destruct (Z.leb_spec i (v / 2)) as [Hle|Hgt].
    + destruct (Z.eqb_spec (v mod i) 0) as [Hz|Hnz].
      * apply Z.mod_divide in Hz as [q Hq]; [|lia]. split.
        -- intros ?%Z.leb_le. assert ((q - 2) * i = 1) as Hqi by lia.
           exfalso. clear -Hqi Hi. destruct (Z.le_gt_cases (q - 2) 0); nia.
        -- intros Hp. apply prime_alt in Hp as [_ Hp]. exfalso.
           apply (Hp i); [lia|]. by exists q.
      * rewrite wrap32_id by (unfold uint32; lia).
        assert ((i + 2) mod 2 = 1) as Hi2 by (rewrite <-(Z_mod_plus_full i 1 2) in Hio; exact Hio).
        split; [split_and!; [lia|lia|done|]|].
        -- intros j Hj Hjo. destruct (Z.eq_dec j i) as [->|]; [done|].
           destruct (Z.eq_dec j (i + 1)) as [->|]; [|apply Hno; [lia|done]].
           exfalso. revert Hjo. rewrite Z.add_mod, Hio by lia. done.
        -- replace (v / 2 + 2 - (i + 2)) with (v / 2 + 2 - i + (-1) * 2) by lia.
           rewrite Z.div_add by lia. pose proof (Z.div_le_mono 2 (v / 2 + 2 - i) 2 ltac:(lia) ltac:(lia)) as H1.
           change (2 / 2) with 1 in H1. lia.
    + split; [intros _|intros _; apply Z.leb_le; lia].
      apply odd_prime; [lia|done|]. intros j Hj. apply Hno. lia.
  - split_and!; [lia|lia|done|].
    intros j Hj. lia.
  - apply Z.div_lt_upper_bound; [lia|]. change (2 ^ 31%nat) with 2147483648. lia.
Qed.

Definition start (val : Z) : Z := if val mod 2 =? 0 then wrap32 (val + 1) else val.

Lemma start_odd val : 0 <= val <= pmax → start val mod 2 = 1 ∧ val <= start val <= val + 1.
Proof.
  unfold pmax. intros Hv. unfold start. pose proof (Z.mod_pos_bound val 2 ltac:(lia)).
  destruct (Z.eqb_spec (val mod 2) 0) as [E|].
  - rewrite wrap32_id by (unfold uint32; lia). rewrite Z.add_mod, E by lia. split; [done|lia].
  - split; lia.
Qed.

(** The outer loop finds the first odd prime. *)
Lemma getprime_first val :
  1 < val <= pmax →
  ∃ p, os_getprime val = Some p ∧ prime p ∧ val <= p <= pmax ∧
       (∀ q, prime q → val <= q → q mod 2 = 1 → p <= q).
Proof.
  intros Hv. destruct (start_odd val ltac:(lia)) as [Hso Hsv].
  unfold os_getprime. fold (start val).
  destruct (loop_total getprime_do_step
    (λ v, start val <= v <= pmax ∧ v mod 2 = 1 ∧
          (∀ q, prime q → val <= q → q mod 2 = 1 → v <= q))
    (λ r, ∃ p, r = Some p ∧ prime p ∧ val <= p <= pmax ∧
          (∀ q, prime q → val <= q → q mod 2 = 1 → p <= q))
    (λ v, (pmax - v) / 2)) with (d := 31%nat) (s := start val) as (r & -> & Hr).
  - intros v (Hr & Ho & Hq). unfold getprime_do_step.
    assert (3 <= v < 4294967296) as Hv3.
    { split; [|unfold pmax in *; lia]. destruct (Z.eq_dec v 2) as [->|]; [discriminate Ho|lia]. }
    destruct (while_spec v Hv3 Ho) as (i & -> & Hi).
    destruct (v / 2 <=? i).
    + exists v. split_and!; [done|by apply Hi|lia|lia|done].
    + assert (¬ prime v) as Hnp by (intros ?%Hi; done).
      assert (v <> pmax) by (intros ->; apply Hnp, pmax_prime).
      assert (v + 2 <= pmax) as Hle.
      { assert (v + 1 <> pmax); [|lia]. intros E. assert (v = pmax - 1) by lia. subst v. done. }
      rewrite wrap32_id by (unfold uint32, pmax in *; lia).
      destruct (Z.eqb_spec (v + 2) 0); [lia|].
      assert ((v + 2) mod 2 = 1) as Ho2 by (rewrite <-(Z_mod_plus_full v 1 2) in Ho; exact Ho).
      split_and!; [lia|lia|done| |apply Z.div_pos; lia|].
      * intros q Hpq Hvq Hqo. specialize (Hq q Hpq Hvq Hqo).
        destruct (Z.eq_dec q v) as [->|]; [done|]. destruct (Z.eq_dec q (v + 1)) as [->|]; [|lia].
        exfalso. revert Hqo. rewrite Z.add_mod, Ho by lia. done.
      * replace (pmax - v) with (pmax - (v + 2) + 1 * 2) by lia. rewrite Z.div_add by lia. lia.
  - split_and!; [lia| |done|].
    + destruct (Z.eq_dec val pmax) as [->|]; [done|lia].
    + intros q _ Hvq Hqo. destruct (Z.eq_dec q (start val)); [lia|].
      destruct (Z.eq_dec q val) as [->|]; [|lia].
      unfold start in *. rewrite Hqo in *. simpl in *. lia.
  - apply Z.div_lt_upper_bound; [lia|]. change (2 ^ 31%nat) with 2147483648. unfold pmax. lia.
  - done.
Qed.

Lemma getprime_low : os_getprime 0 = Some 1 ∧ os_getprime 1 = Some 1.
Proof. split; vm_compute; reflexivity. Qed.

(** Past the largest prime the search wraps around to 1. *)
Lemma getprime_high val : pmax < val < 4294967296 → os_getprime val = Some 1.
Proof.
  unfold pmax. intros Hv.
  assert (val = 4294967292 ∨ val = 4294967293 ∨ val = 4294967294 ∨ val = 4294967295)
    as [->|[->|[->| ->]]] by lia; vm_compute; reflexivity.
Qed.

(** The search returns a positive value for every 32-bit argument. *)
Lemma getprime_total val : uint32 val → ∃ p, os_getprime val = Some p ∧ 0 < p <= pmax.
Proof.
  unfold uint32. intros Hv. destruct (Z.le_gt_cases val 1).
  - exists 1. split; [|unfold pmax; lia]. assert (val = 0 ∨ val = 1) as [->| ->] by lia; apply getprime_low.
  - destruct (Z.le_gt_cases val pmax) as [Hle|Hgt].
    + destruct (getprime_first val) as (p & Hp & Hpr & Hb & _); [lia|]. exists p. split; [done|lia].
    + exists 1. split; [|unfold pmax; lia]. apply getprime_high. lia.
Qed.
End Prime.

(** [os_getprime] ends for every 32-bit argument.  From 2 to the largest
    32-bit prime it returns the first odd prime that is not smaller; 0 and 1
    give 1, and so do the four larger values, after a wrap-around. *)
Theorem os_getprime_correct val :
  uint32 val →
  if (1 <? val) && (val <=? Prime.pmax) then
    ∃ p, os_getprime val = Some p ∧ prime p ∧ val <= p <= Prime.pmax ∧
         (∀ q, prime q → val <= q → q mod 2 = 1 → p <= q)
  else os_getprime val = Some 1.
Proof.
  unfold uint32. intros Hv. destruct (Z.ltb_spec 1 val) as [H1|H1]; simpl.
  - destruct (Z.leb_spec val Prime.pmax); [by apply Prime.getprime_first|by apply Prime.getprime_high; lia].
  - assert (val = 0 ∨ val = 1) as [->| ->] by lia; apply Prime.getprime_low.
Qed.

Lemma os_getprime_correct_witness : uint32 32 ∧ ∃ p, os_getprime 32 = Some p ∧ prime p ∧ p = 37.
Proof.
  assert (uint32 32) as Hu by (unfold uint32; lia). split; [exact Hu|].
  destruct (os_getprime_correct 32 Hu) as (p & Hp & Hpr & _). exists p. split; [exact Hp|].
  split; [exact Hpr|]. revert Hp. vm_compute. congruence.
Defined.
