(* ===== verification/HashTable.v ===== *)
(** The chained hash table as a finite map: representation, the lemmas of
    each operation of HashOp.v, and their composition. *)

From S2P Require Import Prelude HashOp.

(** * Representation *)

(** A row: the addresses of its nodes with their entries. *)
Abbreviation hrow := (list (loc * (cstr * ptr))).

Fixpoint chain (h : heap OSHashNode) (p : ptr) (r : hrow) : Prop :=
  match r with
  | [] => p = NULL
  | (l, (k, v)) :: r' =>
      p = Some l ∧ ∃ nx pv, h !! l = Some (HNode nx pv (Some k) v) ∧ chain h nx r'
  end.

Definition hindex (s : OSHash) (key : cstr) : nat := Z.to_nat (os_genhash s key mod rows s).

(** The header's numbers, which no operation but [OSHash_setSize] changes. *)
Definition same_params (s s' : OSHash) : Prop :=
  rows s' = rows s ∧ initial_seed s' = initial_seed s ∧ constant s' = constant s ∧
  free_data s' = free_data s.

(** [rs] are the rows of the table; every entry is in the row of its key, and
    no key occurs twice. *)
Record hinv (s : OSHash) (rs : list hrow) : Prop := {
  hi_rows : 0 < rows s < 4294967295;
  hi_len : length rs = S (Z.to_nat (rows s));
  hi_chains : Forall2 (chain (hheap s)) (table s) rs;
  hi_nodup : NoDup (concat rs).*1;
  hi_dom : dom (hheap s) = list_to_set (concat rs).*1;
  hi_index : ∀ i r l k v, rs !! i = Some r → (l, (k, v)) ∈ r → hindex s k = i;
  hi_keys : NoDup (concat rs).*2.*1
}.

Definition entries (rs : list hrow) : list (cstr * ptr) := (concat rs).*2.

(** [s] stands for the map [m]. *)
Definition hrep (s : OSHash) (m : gmap cstr ptr) : Prop :=
  ∃ rs, hinv s rs ∧ m = list_to_map (entries rs).

(** The count is exact, modulo the width of [elements]. *)
Definition counted (s : OSHash) (m : gmap cstr ptr) : Prop := elements s = wrap32 (size m).

(** * Chains *)

Lemma chain_agree h h' p r :
  (∀ l, l ∈ r.*1 → h' !! l = h !! l) → chain h p r → chain h' p r.
Proof.
  revert p. induction r as [|[l [k v]] r IH]; intros p Ha; simpl; [done|].
  intros (-> & nx & pv & Hl & Hc). split; [done|]. exists nx, pv. split.
  - rewrite Ha; [done|]. by left.
  - apply IH; [|done]. intros. apply Ha. by right.
Qed.

Lemma chains_agree h h' ps rs :
  (∀ l, l ∈ (concat rs).*1 → h' !! l = h !! l) → Forall2 (chain h) ps rs → Forall2 (chain h') ps rs.
Proof.
  intros Ha. induction 1 as [|p r ps rs Hc _ IH]; constructor.
  - eapply chain_agree; [|done]. intros. apply Ha. simpl. rewrite fmap_app, elem_of_app. by left.
  - apply IH. intros. apply Ha. simpl. rewrite fmap_app, elem_of_app. by right.
Qed.

(** The search of a row splits it at the key. *)
Lemma row_find_spec fuel h p r key :
  chain h p r → (length r < fuel)%nat →
  (key ∉ r.*2.*1 ∧ row_find fuel h p key = Some NULL) ∨
  (∃ r1 l v r2, r = r1 ++ (l, (key, v)) :: r2 ∧ key ∉ r1.*2.*1 ∧ row_find fuel h p key = Some (Some l)).
Proof.
  revert fuel p. induction r as [|[l [k v]] r IH]; intros fuel p; simpl.
  - intros -> _. left. split; [apply not_elem_of_nil|]. by destruct fuel.
  - intros (-> & nx & pv & Hl & Hc) Hf. destruct fuel as [|fuel]; [lia|]. simpl. rewrite Hl. simpl.
    destruct (Z.eqb_spec (strcmp k key) 0) as [->%strcmp_eq|Hne].
    + right. exists [], l, v, r. split_and!; [done|apply not_elem_of_nil|done].
    + assert (key ≠ k) by (intros ->; by rewrite strcmp_refl in Hne).
      destruct (IH fuel nx Hc ltac:(lia)) as [[Hni ->]|(r1 & l' & v' & r2 & -> & Hni & ->)].
      * left. split; [|done]. by apply not_elem_of_cons.
      * right. exists ((l, (k, v)) :: r1), l', v', r2. split_and!; [done| |done].
        simpl. by apply not_elem_of_cons.
Qed.

Lemma get_loop_spec fuel h p r key :
  chain h p r → (length r < fuel)%nat →
  get_loop fuel h p key =
  node ← row_find fuel h p key;
  match node with None => Some NULL | Some _ => n ← load h node; Some (hn_data n) end.
Proof.
  revert fuel p. induction r as [|[l [k v]] r IH]; intros fuel p; simpl.
  - intros -> _. by destruct fuel.
  - intros (-> & nx & pv & Hl & Hc) Hf. destruct fuel as [|fuel]; [lia|]. simpl. rewrite Hl. simpl.
    destruct (strcmp k key =? 0); [simpl; by rewrite Hl|]. apply IH; [done|lia].
Qed.

(** * One row of the table *)

Section focus.
Context (s : OSHash) (rs : list hrow) (Hs : hinv s rs).

Lemma index_ok key : OSHash_GetIndex s key = Some (os_genhash s key mod rows s).
Proof using Hs.
  unfold OSHash_GetIndex. destruct (Z.eqb_spec (rows s) 0); [|done]. destruct (hi_rows _ _ Hs). lia.
Qed.

Lemma hindex_lt key : (hindex s key < Z.to_nat (rows s))%nat.
Proof using Hs.
  unfold hindex. destruct (hi_rows _ _ Hs). pose proof (Z.mod_pos_bound (os_genhash s key) (rows s)). lia.
Qed.

(** The row of [key], and the table around it. *)
Lemma focus key :
  ∃ A r B TA p TB, rs = A ++ r :: B ∧ table s = TA ++ p :: TB ∧
    length A = hindex s key ∧ length TA = hindex s key ∧
    Forall2 (chain (hheap s)) TA A ∧ chain (hheap s) p r ∧ Forall2 (chain (hheap s)) TB B.
Proof using Hs.
  pose proof (hindex_lt key) as Hlt. pose proof (hi_len _ _ Hs) as Hlen.
  destruct (lookup_lt_is_Some_2 rs (hindex s key)) as [r Hr]; [lia|].
  destruct (list_elem_of_split_length rs _ _ Hr) as (A & B & -> & HA).
  destruct (proj1 (Forall2_app_inv_r _ _ _ _) (hi_chains _ _ Hs)) as (TA & T2 & H1 & H2 & Ht).
  inversion H2 as [|p r' TB B' Hp HB]; subst.
  exists A, r, B, TA, p, TB. split_and!; try done. by apply Forall2_length in H1 as ->.
Qed.

Lemma row_get_focus key TA p TB :
  table s = TA ++ p :: TB → length TA = hindex s key →
  row_get s (os_genhash s key mod rows s) = Some p.
Proof.
  intros Ht Hl. unfold row_get. fold (hindex s key). rewrite Ht, <-Hl. apply list_lookup_middle. done.
Qed.

Lemma row_length A r B : rs = A ++ r :: B → (length r < walk_fuel s)%nat.
Proof using Hs.
  intros ->. unfold walk_fuel. rewrite <-size_dom, (hi_dom _ _ Hs).
  rewrite size_list_to_set by apply (hi_nodup _ _ Hs).
  rewrite concat_app, fmap_app, length_app. simpl. rewrite fmap_app, length_app, !length_fmap. lia.
Qed.

(** A key outside of its row is nowhere. *)
Lemma key_in_row key A r B :
  rs = A ++ r :: B → length A = hindex s key → key ∈ (entries rs).*1 → key ∈ r.*2.*1.
Proof using Hs.
  intros E HA Hin. unfold entries in Hin. apply list_elem_of_fmap in Hin as ([k v] & -> & Hin).
  apply list_elem_of_fmap in Hin as ([l e] & Ee & Hin). simpl in Ee. subst e.
  apply list_elem_of_In, in_concat in Hin as (r' & Hr' & Hin).
  apply list_elem_of_In in Hr', Hin. apply list_elem_of_lookup in Hr' as [i Hi].
  pose proof (hi_index _ _ Hs _ _ _ _ _ Hi Hin) as Hidx. simpl in HA. rewrite <-HA in Hidx. subst i.
  rewrite E, list_lookup_middle in Hi by done. injection Hi as <-.
  apply list_elem_of_fmap. exists (k, v). split; [done|].
  apply list_elem_of_fmap. by exists (l, (k, v)).
Qed.

(** Replacing one row. *)
Lemma hinv_replace key A r B TA p TB s' r' p' :
  rs = A ++ r :: B → table s = TA ++ p :: TB → length A = hindex s key → length TA = hindex s key →
  Forall2 (chain (hheap s)) TA A → Forall2 (chain (hheap s)) TB B →
  same_params s s' → table s' = TA ++ p' :: TB →
  (∀ j, j ∈ (concat A ++ concat B).*1 → hheap s' !! j = hheap s !! j) →
  chain (hheap s') p' r' →
  NoDup (r' ++ concat A ++ concat B).*1 →
  dom (hheap s') = list_to_set (r' ++ concat A ++ concat B).*1 →
  (∀ l k v, (l, (k, v)) ∈ r' → hindex s k = hindex s key) →
  NoDup (r' ++ concat A ++ concat B).*2.*1 →
  hinv s' (A ++ r' :: B).
Proof using Hs.
  intros E Ht HA HTA HcA HcB (Er & Es & Ec & Ef) Ht' Hag Hc' Hnd Hdom Hidx Hkeys.
  assert (concat (A ++ r' :: B) ≡ₚ r' ++ concat A ++ concat B) as Hperm.
  { rewrite concat_app. simpl. by rewrite !app_assoc, (Permutation_app_comm (concat A)). }
  assert (∀ k, hindex s' k = hindex s k) as Hhx.
  { intros k. unfold hindex, os_genhash. by rewrite Er, Es, Ec. }
  split.
  - rewrite Er. apply (hi_rows _ _ Hs).
  - rewrite Er, <-(hi_len _ _ Hs), E, !length_app. done.
  - rewrite Ht'. apply Forall2_app; [|constructor; [done|]].
    + eapply chains_agree; [|done]. intros. apply Hag. rewrite fmap_app, elem_of_app. by left.
    + eapply chains_agree; [|done]. intros. apply Hag. rewrite fmap_app, elem_of_app. by right.
  - by rewrite Hperm.
  - by rewrite Hperm.
  - intros i r0 l k v Hi Hin. rewrite Hhx. destruct (decide (i = length A)) as [->|Hne].
    + rewrite list_lookup_middle in Hi by done. injection Hi as <-. rewrite HA. by eapply Hidx.
    + apply (hi_index _ _ Hs i r0 l k v); [|done]. rewrite E. revert Hi.
      destruct (decide (i < length A)%nat).
      * by rewrite !lookup_app_l by done.
      * rewrite !lookup_app_r, !lookup_cons_ne_0 by lia. done.
  - by rewrite Hperm.
Qed.
End focus.

(** * Updates of a row *)

(** A chain segment that ends at the pointer [q]. *)
Fixpoint seg (h : heap OSHashNode) (p : ptr) (r : hrow) (q : ptr) : Prop :=
  match r with
  | [] => p = q
  | (l, (k, v)) :: r' =>
      p = Some l ∧ ∃ nx pv, h !! l = Some (HNode nx pv (Some k) v) ∧ seg h nx r' q
  end.

Lemma chain_seg h p r : chain h p r ↔ seg h p r NULL.
Proof.
  revert p. induction r as [|[l [k v]] r IH]; intros p; simpl; [done|]. by setoid_rewrite IH.
Qed.

Lemma seg_app h p r1 r2 q : seg h p (r1 ++ r2) q ↔ ∃ m, seg h p r1 m ∧ seg h m r2 q.
Proof.
  revert p. induction r1 as [|[l [k v]] r1 IH]; intros p; simpl; [naive_solver|].
  setoid_rewrite IH. naive_solver.
Qed.

Lemma seg_agree h h' p r q :
  (∀ l, l ∈ r.*1 → h' !! l = h !! l) → seg h p r q → seg h' p r q.
Proof.
  revert p. induction r as [|[l [k v]] r IH]; intros p Ha; simpl; [done|].
  intros (-> & nx & pv & Hl & Hc). split; [done|]. exists nx, pv. split.
  - rewrite Ha; [done|]. by left.
  - apply IH; [|done]. intros. apply Ha. by right.
Qed.

Definition last_loc (r : hrow) : ptr := fst <$> last r.

Lemma seg_retarget h p r q q' l n :
  seg h p r q → last_loc r = Some l → NoDup r.*1 → h !! l = Some n →
  seg (<[l := set_hnext q' n]> h) p r q'.
Proof.
  intros Hs Hl Hnd Hn. destruct r as [|[l0 [k v]] r0 _] using rev_ind; [done|].
  unfold last_loc in Hl. rewrite last_snoc in Hl. injection Hl as <-.
  rewrite fmap_app in Hnd. apply NoDup_snoc in Hnd as [Hnd Hni]. simpl in Hni.
  apply seg_app in Hs as (m & Hs & -> & nx & pv & Hm & _). rewrite Hn in Hm. injection Hm as ->.
  apply seg_app. exists (Some l0). split.
  - eapply seg_agree; [|done]. intros j Hj. apply lookup_insert_ne. by intros ->.
  - simpl. split; [done|]. rewrite lookup_insert_eq. by exists q', pv.
Qed.

Lemma seg_set_prev h p r q l n pv :
  seg h p r q → h !! l = Some n → seg (<[l := set_hprev pv n]> h) p r q.
Proof.
  intros Hs Hn. revert p Hs. induction r as [|[l0 [k v]] r IH]; intros p; simpl; [done|].
  intros (-> & nx & pv0 & Hl & Hc). split; [done|]. destruct (decide (l0 = l)) as [->|Hne].
  - rewrite Hl in Hn. injection Hn as <-. rewrite lookup_insert_eq. eexists _, _. split; [done|]. auto.
  - rewrite lookup_insert_ne by done. eauto.
Qed.

(** Overwriting the data of a node. *)
Lemma chain_set_data h p r1 l k v r2 d :
  chain h p (r1 ++ (l, (k, v)) :: r2) → NoDup (r1 ++ (l, (k, v)) :: r2).*1 →
  ∃ n, h !! l = Some n ∧ hn_data n = v ∧
       chain (<[l := set_hdata d n]> h) p (r1 ++ (l, (k, d)) :: r2).
Proof.
  setoid_rewrite chain_seg. setoid_rewrite seg_app. intros (m & H1 & -> & nx & pv & Hl & H2) Hnd.
  rewrite fmap_app in Hnd. simpl in Hnd. apply NoDup_middle in Hnd as (_ & Hn1 & Hn2).
  eexists. split; [exact Hl|]. split; [done|]. exists (Some l). split.
  - eapply seg_agree; [|done]. intros j Hj. apply lookup_insert_ne. by intros ->.
  - split; [done|]. rewrite lookup_insert_eq. exists nx, pv. split; [done|].
    eapply seg_agree; [|done]. intros j Hj. apply lookup_insert_ne. by intros ->.
Qed.

(** The pointer assignments of [OSHash_Delete] within the heap. *)
Definition unlink_node (h : heap OSHashNode) (prev nx : ptr) (l : loc) : option (heap OSHashNode) :=
  h ← match prev with None => Some h | Some _ => store h prev (set_hnext nx) end;
  h ← match nx with Some _ => store h nx (set_hprev prev) | None => Some h end;
  free h (Some l).

Lemma unlink_node_spec h p r1 l k v r2 :
  chain h p (r1 ++ (l, (k, v)) :: r2) → NoDup (r1 ++ (l, (k, v)) :: r2).*1 →
  ∃ n h', h !! l = Some n ∧ hn_data n = v ∧
    unlink_node h (last_loc r1) (hn_next n) l = Some h' ∧
    chain h' (match r1 with [] => hn_next n | _ => p end) (r1 ++ r2) ∧
    dom h' = dom h ∖ {[l]} ∧ (∀ j, j ∉ (r1 ++ (l, (k, v)) :: r2).*1 → h' !! j = h !! j).
Proof.
  setoid_rewrite chain_seg. setoid_rewrite seg_app. intros (m & H1 & -> & nx & pv & Hl & H2) Hnd.
  rewrite fmap_app in Hnd |- *. simpl in Hnd |- *. pose proof Hnd as (Hnd12 & Hn1 & Hn2)%NoDup_middle.
  apply NoDup_app_inv in Hnd12 as (Hnd1 & Hnd2 & Hdj).
  eexists. unfold unlink_node.
  assert (∃ h1, match last_loc r1 with None => Some h | Some _ => store h (last_loc r1) (set_hnext nx) end
      = Some h1 ∧ seg h1 (match r1 with [] => nx | _ => p end) r1 nx ∧ dom h1 = dom h ∧
      (∀ j, j ∉ r1.*1 → h1 !! j = h !! j)) as (h1 & Hst & Hs1 & Hd1 & Hag1).
  { destruct (last_loc r1) as [lp|] eqn:Hlast.
    - assert (lp ∈ r1.*1) as Hlp.
      { unfold last_loc in Hlast. destruct (last r1) as [[l' e]|] eqn:Hl'; [|done]. injection Hlast as <-.
        apply list_elem_of_fmap. exists (l', e). split; [done|].
        apply last_Some in Hl' as [r0 ->]. apply elem_of_app. right. by left. }
      assert (is_Some (h !! lp)) as [n Hn].
      { revert H1 Hlp. generalize p. clear. induction r1 as [|[l' [k' v']] r1 IH]; intros p H1 Hlp; simpl in *; [by apply not_elem_of_nil in Hlp|].
        destruct H1 as (_ & nx' & ? & Hl' & H1). apply elem_of_cons in Hlp as [->|Hlp]; [by eexists|by eapply IH]. }
      rewrite (store_Some _ _ _ _ Hn). eexists. split; [done|]. split_and!.
      + destruct r1; [done|]. by eapply seg_retarget.
      + rewrite dom_insert_L. apply elem_of_dom_2 in Hn. set_solver.
      + intros j Hj. apply lookup_insert_ne. by intros ->.
    - exists h. split; [done|]. destruct r1 as [|e r1' _] using rev_ind; [done|].
      unfold last_loc in Hlast. by rewrite last_snoc in Hlast. }
  assert (∃ h2, match nx with Some _ => store h1 nx (set_hprev (last_loc r1)) | None => Some h1 end = Some h2 ∧
      seg h2 (match r1 with [] => nx | _ => p end) r1 nx ∧ seg h2 nx r2 NULL ∧ dom h2 = dom h1 ∧
      (∀ j, j ∉ r2.*1 → h2 !! j = h1 !! j)) as (h2 & Hst2 & Hs2 & Hs2' & Hd2 & Hag2).
  { assert (seg h1 nx r2 NULL) as H2'.
    { eapply seg_agree; [|done]. intros j Hj. apply Hag1. intros Hj1. by apply (Hdj j). }
    destruct nx as [ln|]; [|by exists h1]. destruct r2 as [|[l2 [k2 v2]] r2]; simpl in H2'; [done|].
    pose proof H2' as ([= ->] & nx2 & pv2 & Hln & _). rewrite (store_Some _ _ _ _ Hln).
    eexists. split; [done|]. split_and!.
    - eapply seg_set_prev; [|exact Hln]. done.
    - by apply (seg_set_prev _ (Some l2) ((l2, (k2, v2)) :: r2) NULL l2 _ _ H2' Hln).
    - rewrite dom_insert_L. apply elem_of_dom_2 in Hln. set_solver.
    - intros j Hj. apply lookup_insert_ne. intros <-. apply Hj. by left. }
  assert (h2 !! l = Some (HNode nx pv (Some k) v)) as Hl2 by (by rewrite Hag2, Hag1).
  exists (delete l h2). split; [exact Hl|]. split; [done|]. split.
  { cbn [hn_next]. rewrite Hst. cbn [mbind option_bind]. rewrite Hst2. cbn [mbind option_bind].
    by apply free_Some in Hl2. }
  split_and!.
  - exists nx. split; (eapply seg_agree; [|done]); intros j Hj; apply lookup_delete_ne; by intros ->.
  - by rewrite dom_delete_L, Hd2, Hd1.
  - intros j [Hj1 [Hjl Hj2]%not_elem_of_cons]%not_elem_of_app.
    rewrite lookup_delete_ne, Hag2, Hag1 by first [done | congruence]. done.
Qed.

(** * The operations on the map *)

Lemma entries_focus (A : list hrow) r B : concat (A ++ r :: B) ≡ₚ r ++ concat A ++ concat B.
Proof. rewrite concat_app. simpl. by rewrite !app_assoc, (Permutation_app_comm (concat A)). Qed.

Lemma lookup_entries rs l k v :
  NoDup (entries rs).*1 → (l, (k, v)) ∈ concat rs →
  (list_to_map (entries rs) : gmap cstr ptr) !! k = Some v.
Proof.
  intros Hnd Hin. apply elem_of_list_to_map_1; [done|]. apply list_elem_of_fmap. by exists (l, (k, v)).
Qed.

(** What the search of the row of [key] finds, for every operation. *)
Lemma hrep_find s m key :
  hrep s m →
  ∃ A r B TA p TB, hinv s (A ++ r :: B) ∧ m = list_to_map (entries (A ++ r :: B)) ∧
    table s = TA ++ p :: TB ∧ length A = hindex s key ∧ length TA = hindex s key ∧
    Forall2 (chain (hheap s)) TA A ∧ chain (hheap s) p r ∧ Forall2 (chain (hheap s)) TB B ∧
    OSHash_GetIndex s key = Some (os_genhash s key mod rows s) ∧
    row_get s (os_genhash s key mod rows s) = Some p ∧ (length r < walk_fuel s)%nat ∧
    match m !! key with
    | None => key ∉ (entries (A ++ r :: B)).*1 ∧ row_find (walk_fuel s) (hheap s) p key = Some NULL
    | Some v => ∃ r1 l r2, r = r1 ++ (l, (key, v)) :: r2 ∧ key ∉ r1.*2.*1 ∧
                  row_find (walk_fuel s) (hheap s) p key = Some (Some l)
    end.
Proof.
  intros (rs & Hs & ->).
  destruct (focus s rs Hs key) as (A & r & B & TA & p & TB & -> & Ht & HA & HTA & HcA & Hc & HcB).
  exists A, r, B, TA, p, TB. pose proof (row_length _ _ Hs A r B eq_refl) as Hlen.
  split_and!; try done.
  - by eapply index_ok.
  - by eapply row_get_focus.
  - destruct (row_find_spec _ _ _ _ key Hc Hlen) as [[Hni Hf]|(r1 & l & v & r2 & -> & Hni & Hf)].
    + assert (key ∉ (entries (A ++ r :: B)).*1) as Hni'.
      { intros Hin. apply Hni. by eapply key_in_row. }
      by rewrite (not_elem_of_list_to_map_1 _ _ Hni').
    + rewrite (lookup_entries _ l key v); [by eauto 10|apply (hi_keys _ _ Hs)|].
      rewrite entries_focus. apply elem_of_app. left. apply elem_of_app. right. by left.
Qed.

Lemma hrep_get s m key : hrep s m → OSHash_Get s key = Some (default NULL (m !! key)).
Proof.
  intros H. destruct (hrep_find s m key H) as
    (A & r & B & TA & p & TB & Hs & Hm & Ht & HA & HTA & HcA & Hc & HcB & Hi & Hrow & Hlen & Hfind).
  unfold OSHash_Get. rewrite Hi. cbn [mbind option_bind]. rewrite Hrow. cbn [mbind option_bind].
  rewrite (get_loop_spec _ _ _ _ _ Hc Hlen). destruct (m !! key) as [v|].
  - destruct Hfind as (r1 & l & r2 & -> & _ & ->). cbn [mbind option_bind].
    destruct (chain_set_data _ _ _ _ _ _ _ NULL Hc) as (n & Hn & <- & _).
    { pose proof (hi_nodup _ _ Hs) as Hnd. rewrite entries_focus, fmap_app in Hnd. by apply NoDup_app_inv in Hnd as [? _]. }
    simpl. by rewrite Hn.
  - by destruct Hfind as [_ ->].
Qed.

Lemma entries_keys A r B : (entries (A ++ r :: B)).*1 ≡ₚ (r ++ concat A ++ concat B).*2.*1.
Proof. unfold entries. by rewrite entries_focus. Qed.

Lemma map_focus A r1 l key v r2 B :
  NoDup (entries (A ++ (r1 ++ (l, (key, v)) :: r2) :: B)).*1 →
  list_to_map (entries (A ++ (r1 ++ (l, (key, v)) :: r2) :: B)) =@{gmap cstr ptr}
    <[key := v]> (list_to_map (entries (A ++ (r1 ++ r2) :: B))) ∧
  (list_to_map (entries (A ++ (r1 ++ r2) :: B)) : gmap cstr ptr) !! key = None.
Proof.
  intros Hnd. assert (entries (A ++ (r1 ++ (l, (key, v)) :: r2) :: B) ≡ₚ
    (key, v) :: entries (A ++ (r1 ++ r2) :: B)) as Hp.
  { unfold entries. rewrite !entries_focus, !fmap_app. simpl. by rewrite <-Permutation_middle. }
  split.
  - rewrite <-list_to_map_cons. by apply list_to_map_proper.
  - apply not_elem_of_list_to_map_1. rewrite Hp in Hnd. by apply NoDup_cons in Hnd as [? _].
Qed.

(** Overwriting the data of an entry found by the search. *)
Lemma hrep_set_data s A r1 l key v r2 B TA p TB d :
  let r := r1 ++ (l, (key, v)) :: r2 in
  hinv s (A ++ r :: B) → table s = TA ++ p :: TB → length A = hindex s key → length TA = hindex s key →
  Forall2 (chain (hheap s)) TA A → chain (hheap s) p r → Forall2 (chain (hheap s)) TB B →
  ∃ n h, hheap s !! l = Some n ∧ hn_data n = v ∧ store (hheap s) (Some l) (set_hdata d) = Some h ∧
    hrep (with_heap s h) (<[key := d]> (list_to_map (entries (A ++ r :: B)))).
Proof.
  intros r Hs Ht HA HTA HcA Hc HcB. pose proof (hi_nodup _ _ Hs) as Hnd. rewrite entries_focus in Hnd.
  pose proof Hnd as Hndr. rewrite fmap_app in Hndr. apply NoDup_app_inv in Hndr as (Hndr & _ & Hdj).
  destruct (chain_set_data _ _ _ _ _ _ _ d Hc Hndr) as (n & Hn & Hv & Hc').
  eexists n, _. split; [done|]. split; [done|]. split; [by apply store_Some|].
  pose proof (hi_keys _ _ Hs) as Hk. fold (entries (A ++ r :: B)) in Hk.
  assert (∀ x, l ∈ (r1 ++ (l, (key, x)) :: r2).*1) as Hlr.
  { intros x. rewrite fmap_app, elem_of_app. right. by left. }
  exists (A ++ (r1 ++ (l, (key, d)) :: r2) :: B). split.
  - eapply (hinv_replace s (A ++ r :: B) Hs key A r B TA p TB _ _ p); try done; simpl.
    + intros j Hj. apply lookup_insert_ne. intros <-. exact (Hdj l (Hlr v) Hj).
    + unfold r in Hnd. rewrite !fmap_app in Hnd |- *. done.
    + rewrite dom_insert_L, (hi_dom _ _ Hs), entries_focus. unfold r.
      rewrite !fmap_app. simpl. set_solver.
    + intros l' k' v' Hin. assert (∃ v'', (l', (k', v'')) ∈ r) as [v'' Hin'].
      { unfold r. apply elem_of_app in Hin as [?|[[= -> -> ->]|?]%elem_of_cons]; eexists;
          rewrite elem_of_app, elem_of_cons; eauto. }
      rewrite <-HA. apply (hi_index _ _ Hs (length A) r l' k' v''); [|done]. by apply list_lookup_middle.
    + rewrite entries_keys in Hk.
      unfold r in Hk. rewrite !fmap_app in Hk |- *. done.
  - destruct (map_focus A r1 l key v r2 B Hk) as [Hm1 Hm2]. unfold r. rewrite Hm1.
    rewrite insert_insert_eq. symmetry. apply (map_focus A r1 l key d r2 B).
    rewrite entries_keys in Hk |- *. unfold r in Hk. rewrite !fmap_app in Hk |- *. done.
Qed.

Lemma with_heap_params s h : same_params s (with_heap s h).
Proof. done. Qed.

Lemma hrep_update s m key d :
  hrep s m →
  match m !! key with
  | Some v => ∃ s', OSHash_Update s key d = Some (release s v, 1, s') ∧ hrep s' (<[key := d]> m) ∧
                    same_params s s' ∧ elements s' = elements s
  | None => OSHash_Update s key d = Some ([], 0, s)
  end.
Proof.
  intros H. destruct (hrep_find s m key H) as
    (A & r & B & TA & p & TB & Hs & Hm & Ht & HA & HTA & HcA & Hc & HcB & Hi & Hrow & Hlen & Hfind).
  unfold OSHash_Update. rewrite Hi. cbn [mbind option_bind]. rewrite Hrow. cbn [mbind option_bind].
  destruct (m !! key) as [v|].
  - destruct Hfind as (r1 & l & r2 & -> & _ & ->). cbn [mbind option_bind].
    destruct (hrep_set_data s A r1 l key v r2 B TA p TB d Hs Ht HA HTA HcA Hc HcB)
      as (n & h & Hn & <- & Hst & Hr). subst m.
    change (load (hheap s) (Some l)) with (hheap s !! l). rewrite Hn. cbn [mbind option_bind].
    rewrite Hst. cbn [mbind option_bind]. by exists (with_heap s h).
  - by destruct Hfind as [_ ->].
Qed.

Lemma chain_cons_heap h p r l key d :
  chain h p r → l ∉ r.*1 → NoDup r.*1 →
  ∃ h', (match p with
         | None => Some (<[l := HNode NULL NULL (Some key) d]> h)
         | Some _ => h ← store (<[l := HNode NULL NULL (Some key) d]> h) (Some l) (set_hnext p);
                     store h p (set_hprev (Some l))
         end) = Some h' ∧ chain h' (Some l) ((l, (key, d)) :: r) ∧
    dom h' = {[l]} ∪ dom h ∧ (∀ j, j ∉ l :: r.*1 → h' !! j = h !! j).
Proof.
  intros Hc Hl Hnd. destruct r as [|[l1 [k1 v1]] r]; simpl in Hc, Hl, Hnd.
  - subst p. eexists. split; [done|]. split_and!.
    + simpl. split; [done|]. rewrite lookup_insert_eq. by exists NULL, NULL.
    + by rewrite dom_insert_L.
    + intros j [Hj _]%not_elem_of_cons. by apply lookup_insert_ne.
  - destruct Hc as (-> & nx & pv & Hl1 & Hc). apply not_elem_of_cons in Hl as [Hll Hl].
    apply NoDup_cons in Hnd as [Hni Hnd]. unfold store. rewrite lookup_insert_eq. cbn [mbind option_bind].
    rewrite insert_insert_eq, lookup_insert_ne, Hl1 by done. eexists. split; [done|]. split_and!.
    + simpl. split; [done|]. rewrite lookup_insert_ne, lookup_insert_eq by done.
      exists (Some l1), NULL. split; [done|]. split; [done|]. rewrite lookup_insert_eq.
      exists nx, (Some l). split; [done|]. eapply chain_agree; [|done].
      intros j Hj. rewrite !lookup_insert_ne by (by intros ->). done.
    + rewrite !dom_insert_L. apply elem_of_dom_2 in Hl1. set_solver.
    + intros j [Hj1 [Hj2 _]%not_elem_of_cons]%not_elem_of_cons. by rewrite !lookup_insert_ne by done.
Qed.

(** The state after a successful insertion. *)
Lemma hrep_add_new s A r B TA p TB l key d :
  hinv s (A ++ r :: B) → table s = TA ++ p :: TB → length A = hindex s key → length TA = hindex s key →
  Forall2 (chain (hheap s)) TA A → chain (hheap s) p r → Forall2 (chain (hheap s)) TB B →
  key ∉ (entries (A ++ r :: B)).*1 → hheap s !! l = None →
  ∃ h, (match p with
        | None => Some (<[l := HNode NULL NULL (Some key) d]> (hheap s))
        | Some _ => h ← store (<[l := HNode NULL NULL (Some key) d]> (hheap s)) (Some l) (set_hnext p);
                    store h p (set_hprev (Some l))
        end) = Some h ∧
    ∀ e, hrep (with_elements (with_table (with_heap s h) (TA ++ Some l :: TB)) e)
              (<[key := d]> (list_to_map (entries (A ++ r :: B)))).
Proof.
  intros Hs Ht HA HTA HcA Hc HcB Hni Hfr. pose proof (hi_nodup _ _ Hs) as Hnd. rewrite entries_focus in Hnd.
  pose proof Hnd as Hndr. rewrite fmap_app in Hndr. apply NoDup_app_inv in Hndr as (Hndr & _ & Hdj).
  assert (l ∉ (r ++ concat A ++ concat B).*1) as Hl.
  { apply not_elem_of_dom in Hfr. rewrite (hi_dom _ _ Hs), entries_focus in Hfr. set_solver. }
  pose proof Hl as Hl'. rewrite fmap_app in Hl'. apply not_elem_of_app in Hl' as [Hlr Hlo].
  destruct (chain_cons_heap _ _ _ _ key d Hc Hlr Hndr) as (h & Hst & Hc' & Hd & Hag).
  exists h. split; [done|]. intros e. exists (A ++ ((l, (key, d)) :: r) :: B). split.
  - eapply (hinv_replace s (A ++ r :: B) Hs key A r B TA p TB _ _ (Some l)); try done; simpl.
    + intros j Hj. apply Hag. apply not_elem_of_cons. split; [by intros ->|].
      intros Hj'. by apply (Hdj j).
    + by constructor.
    + by rewrite Hd, (hi_dom _ _ Hs), entries_focus.
    + intros l' k' v' [[= -> -> ->]|Hin]%elem_of_cons; [done|]. rewrite <-HA.
      apply (hi_index _ _ Hs (length A) r l' k' v'); [|done]. by apply list_lookup_middle.
    + pose proof (hi_keys _ _ Hs) as Hk. fold (entries (A ++ r :: B)) in Hk.
      rewrite entries_keys in Hk, Hni. by constructor.
  - rewrite <-list_to_map_cons. apply list_to_map_proper.
    + simpl. constructor; [done|]. apply (hi_keys _ _ Hs).
    + unfold entries. rewrite !entries_focus. done.
Qed.

Lemma hrep_add upd s m key d new :
  hrep s m → (∀ l, new = Some l → hheap s !! l = None) →
  match m !! key, new with
  | Some _, _ => ∃ s', OSHash_Add_ upd s key d new = Some (OSHASH_DUPLICATE, s') ∧
                   hrep s' (if upd then <[key := d]> m else m) ∧
                   same_params s s' ∧ elements s' = elements s
  | None, None => OSHash_Add_ upd s key d new = Some (OSHASH_ERROR, s)
  | None, Some _ => ∃ s', OSHash_Add_ upd s key d new = Some (OSHASH_SUCCESS, s') ∧
                   hrep s' (<[key := d]> m) ∧ same_params s s' ∧ elements s' = wrap32 (elements s + 1)
  end.
Proof.
  intros H Hnew. destruct (hrep_find s m key H) as
    (A & r & B & TA & p & TB & Hs & Hm & Ht & HA & HTA & HcA & Hc & HcB & Hi & Hrow & Hlen & Hfind).
  unfold OSHash_Add_. rewrite Hi. cbn [mbind option_bind]. rewrite Hrow. cbn [mbind option_bind].
  destruct (m !! key) as [v|] eqn:Hk.
  - destruct Hfind as (r1 & l & r2 & -> & _ & ->). cbn [mbind option_bind].
    destruct upd; [|by exists s].
    destruct (hrep_set_data s A r1 l key v r2 B TA p TB d Hs Ht HA HTA HcA Hc HcB)
      as (n & h & Hn & _ & -> & Hr). subst m. by exists (with_heap s h).
  - destruct Hfind as [Hni ->]. cbn [mbind option_bind]. destruct new as [l|]; [|done].
    destruct (hrep_add_new s A r B TA p TB l key d Hs Ht HA HTA HcA Hc HcB Hni (Hnew _ eq_refl))
      as (h & Hst & Hrep). rewrite Hst. cbn [mbind option_bind].
    assert (row_set (with_heap s h) (os_genhash s key mod rows s) (Some l) =
      Some (with_table (with_heap s h) (TA ++ Some l :: TB))) as ->.
    { unfold row_set. simpl. fold (hindex s key). rewrite Ht, <-HTA, list_lookup_middle by done.
      by rewrite insert_app_r_alt, Nat.sub_diag by lia. }
    cbn [mbind option_bind]. eexists. split; [done|]. subst m. split; [apply Hrep|]. done.
Qed.

(** The body of the loop of [OSHash_Delete] at the node of the key. *)
Definition delete_step (s : OSHash) (index : Z) (prev : ptr) (l : loc) (n : OSHashNode) :
    option (ptr * OSHash) :=
  s ← match prev with
      | None => row_set s index (hn_next n)
      | Some _ => h ← store (hheap s) prev (set_hnext (hn_next n)); Some (with_heap s h)
      end;
  h ← match hn_next n with
      | Some _ => store (hheap s) (hn_next n) (set_hprev prev)
      | None => Some (hheap s)
      end;
  h ← free h (Some l);
  Some (hn_data n, with_elements (with_heap s h) (wrap32 (elements s - 1))).

Lemma last_loc_snoc r e : last_loc (r ++ [e]) = Some e.1.
Proof. unfold last_loc. by rewrite last_snoc. Qed.

Lemma delete_loop_hit fuel s idx r0 cur r1 l key v r2 n :
  chain (hheap s) cur (r1 ++ (l, (key, v)) :: r2) → key ∉ r1.*2.*1 → hheap s !! l = Some n →
  (length r1 < fuel)%nat →
  delete_loop fuel s idx (last_loc r0) cur key = delete_step s idx (last_loc (r0 ++ r1)) l n.
Proof.
  revert fuel r0 cur. induction r1 as [|[l1 [k1 v1]] r1 IH]; intros fuel r0 cur; simpl.
  - intros (-> & nx & pv & Hl & Hc) _ Hn Hf. destruct fuel as [|fuel]; [lia|]. simpl.
    rewrite Hl. simpl. rewrite strcmp_refl, app_nil_r. simpl. rewrite Hl in Hn. by injection Hn as <-.
  - intros (-> & nx & pv & Hl & Hc) [Hne Hni]%not_elem_of_cons Hn Hf. destruct fuel as [|fuel]; [lia|].
    simpl. rewrite Hl. simpl. destruct (Z.eqb_spec (strcmp k1 key) 0) as [->%strcmp_eq|]; [done|].
    rewrite (cons_middle _ r0 r1), app_assoc.
    rewrite <-(IH fuel (r0 ++ [(l1, (k1, v1))]) nx Hc Hni Hn ltac:(lia)). by rewrite last_loc_snoc.
Qed.

Lemma delete_loop_miss fuel s idx prev cur r key :
  chain (hheap s) cur r → key ∉ r.*2.*1 → (length r < fuel)%nat →
  delete_loop fuel s idx prev cur key = Some (NULL, s).
Proof.
  revert fuel prev cur. induction r as [|[l1 [k1 v1]] r IH]; intros fuel prev cur; simpl.
  - intros -> _ _. by destruct fuel.
  - intros (-> & nx & pv & Hl & Hc) [Hne Hni]%not_elem_of_cons Hf. destruct fuel as [|fuel]; [lia|].
    simpl. rewrite Hl. simpl. destruct (Z.eqb_spec (strcmp k1 key) 0) as [->%strcmp_eq|]; [done|].
    apply IH; [done|done|lia].
Qed.

(** [delete_step] is the unlinking, with the row head where needed. *)
Lemma delete_step_unlink s idx r1 l n h TA p TB :
  table s = TA ++ p :: TB → Z.to_nat idx = length TA →
  unlink_node (hheap s) (last_loc r1) (hn_next n) l = Some h →
  delete_step s idx (last_loc r1) l n =
  Some (hn_data n, with_elements (with_table (with_heap s h)
          (TA ++ (match r1 with [] => hn_next n | _ => p end) :: TB)) (wrap32 (elements s - 1))).
Proof.
  intros Ht Hidx Hu. unfold delete_step, unlink_node in *. destruct r1 as [|e r1].
  - simpl in *. unfold row_set. rewrite Hidx, Ht, list_lookup_middle by done.
    cbn [mbind option_bind]. simpl. destruct (match hn_next n with Some _ => _ | None => _ end) as [h2|]; [|done].
    cbn [mbind option_bind] in *. unfold free in *. rewrite Hu. simpl.
    by rewrite insert_app_r_alt, Nat.sub_diag by lia.
  - assert (∃ lp, last_loc (e :: r1) = Some lp) as [lp Hlp].
    { destruct (e :: r1) as [|e' r' _] eqn:E using rev_ind; [done|]. rewrite last_loc_snoc. eauto. }
    rewrite Hlp in *. destruct (store (hheap s) (Some lp) _) as [h1|]; [|done].
    cbn [mbind option_bind] in *. simpl.
    destruct (match hn_next n with Some _ => _ | None => _ end) as [h2|]; [|done].
    cbn [mbind option_bind] in *. unfold free in *. rewrite Hu. simpl. by rewrite <-Ht.
Qed.

Lemma hrep_delete s m key :
  hrep s m →
  match m !! key with
  | Some v => ∃ s', OSHash_Delete s key = Some (v, s') ∧ hrep s' (delete key m) ∧
                    same_params s s' ∧ elements s' = wrap32 (elements s - 1)
  | None => OSHash_Delete s key = Some (NULL, s)
  end.
Proof.
  intros H. destruct (hrep_find s m key H) as
    (A & r & B & TA & p & TB & Hs & Hm & Ht & HA & HTA & HcA & Hc & HcB & Hi & Hrow & Hlen & Hfind).
  unfold OSHash_Delete. rewrite Hi. cbn [mbind option_bind]. rewrite Hrow. cbn [mbind option_bind].
  pose proof (hi_keys _ _ Hs) as Hk. fold (entries (A ++ r :: B)) in Hk.
  destruct (m !! key) as [v|] eqn:Hmk.
  - destruct Hfind as (r1 & l & r2 & -> & Hni & _).
    pose proof (hi_nodup _ _ Hs) as Hnd. rewrite entries_focus in Hnd.
    pose proof Hnd as Hndr. rewrite fmap_app in Hndr. apply NoDup_app_inv in Hndr as (Hndr & _ & Hdj).
    destruct (unlink_node_spec _ _ _ _ _ _ _ Hc Hndr) as (n & h & Hn & <- & Hu & Hc' & Hd & Hag).
    rewrite length_app in Hlen. simpl in Hlen.
    rewrite (delete_loop_hit (walk_fuel s) s _ [] p r1 l key _ r2 n Hc Hni Hn ltac:(lia)). simpl.
    rewrite (delete_step_unlink s _ r1 l n h TA p TB Ht ltac:(done) Hu).
    eexists. split; [done|]. split; [|done]. exists (A ++ (r1 ++ r2) :: B). split.
    + eapply (hinv_replace s _ Hs key A _ B TA p TB _ _ _ eq_refl); try done; simpl.
      * intros j Hj. apply Hag. intros Hj'. by apply (Hdj j).
      * rewrite !fmap_app in Hnd |- *. simpl in Hnd. rewrite <-!app_assoc in Hnd |- *.
        by apply NoDup_middle in Hnd as [? _].
      * rewrite Hd, (hi_dom _ _ Hs), entries_focus. rewrite !fmap_app in Hnd |- *. simpl in Hnd |- *.
        rewrite <-!app_assoc in Hnd |- *. apply NoDup_middle in Hnd as (_ & H1 & H2). set_solver.
      * intros l' k' v' Hin. rewrite <-HA.
        apply (hi_index _ _ Hs (length A) (r1 ++ (l, (key, hn_data n)) :: r2) l' k' v');
          [by apply list_lookup_middle|]. rewrite elem_of_app, elem_of_cons. apply elem_of_app in Hin. tauto.
      * rewrite entries_keys in Hk. rewrite !fmap_app in Hk |- *. simpl in Hk. rewrite <-!app_assoc in Hk |- *.
        by apply NoDup_middle in Hk as [? _].
    + destruct (map_focus _ _ _ _ _ _ _ Hk) as [Hm1 Hm2]. rewrite Hm, Hm1. by apply delete_insert_id.
  - destruct Hfind as [Hni _]. apply (delete_loop_miss _ _ _ _ _ r); [done| |done].
    intros Hin. apply Hni. rewrite entries_keys, !fmap_app, elem_of_app. by left.
Qed.
