(* ===== verification/HashClaims.v ===== *)
(** The chained hash table: construction, release, resizing, iteration, and
    what its public functions promise. *)

From S2P Require Import Prelude CLib HashOp HashTable.

(** * Construction *)

Lemma hrep_fresh n seed const e fd :
  0 < n < 4294967295 → hrep (Hash n seed const e fd (replicate (S (Z.to_nat n)) NULL) ∅) ∅.
Proof.
  intros Hn. set (rs := replicate (S (Z.to_nat n)) ([] : hrow)).
  assert (concat rs = []) as Hc.
  { subst rs. generalize (S (Z.to_nat n)). intros k. induction k; simpl; [done|]. done. }
  exists rs. split; [|unfold entries; by rewrite Hc]. split; cbn [rows hheap table]; rewrite ?Hc; try done.
  - subst rs. by rewrite length_replicate.
  - subst rs. apply (Forall2_replicate _ (S (Z.to_nat n))). done.
  - constructor.
  - intros i r l k v Hi Hin. apply lookup_replicate in Hi as [-> _]. by apply not_elem_of_nil in Hin.
  - constructor.
Qed.

Lemma create_spec r1 r2 :
  ∃ s, OSHash_Create r1 r2 = Some s ∧ hrep s ∅ ∧ elements s = 0 ∧ free_data s = false ∧ rows s = 37.
Proof.
  assert (∀ r, ∃ p, os_getprime (wrap32 r mod 37) = Some p) as Hp.
  { intros r. destruct (Prime.getprime_total (wrap32 r mod 37)) as (p & -> & _); [|eauto].
    unfold uint32. pose proof (Z.mod_pos_bound (wrap32 r) 37). lia. }
  assert (os_getprime 32 = Some 37) as H32 by (vm_compute; reflexivity).
  destruct (Hp r1) as [p1 E1], (Hp r2) as [p2 E2].
  exists (Hash 37 p1 p2 0 false (replicate 38 NULL) ∅). split; [|split_and!; try done; by apply (hrep_fresh 37)].
  unfold OSHash_Create. rewrite H32. change (Some 37 ≫= ?f) with (f 37). cbv beta.
  change (37 =? 0) with false. cbv iota. by rewrite E1, E2.
Qed.

(** * Release of rows *)

Lemma free_row_spec fuel s h p r :
  chain h p r → NoDup r.*1 → (length r < fuel)%nat →
  ∃ h', free_row fuel s h p = Some (r.*2.*2 ≫= release s, h') ∧
    dom h' = dom h ∖ list_to_set r.*1 ∧ (∀ j, j ∉ r.*1 → h' !! j = h !! j).
Proof.
  revert fuel h p. induction r as [|[l [k v]] r IH]; intros fuel h p; simpl.
  - intros -> _ Hf. exists h. destruct fuel; (split_and!; [done|set_solver|done]).
  - intros (-> & nx & pv & Hl & Hc) [Hni Hnd]%NoDup_cons Hf. destruct fuel as [|fuel]; [lia|].
    simpl. rewrite Hl. simpl.
    destruct (IH fuel (delete l h) nx) as (h' & -> & Hd & Hag); [|done|lia|].
    { eapply chain_agree; [|done]. intros j Hj. apply lookup_delete_ne. by intros ->. }
    simpl. exists h'. split; [done|]. split.
    + rewrite Hd, dom_delete_L. set_solver.
    + intros j [Hj1 Hj2]%not_elem_of_cons. rewrite Hag, lookup_delete_ne by first [done | congruence]. done.
Qed.

(** The first [count] rows, those after them being empty. *)
Lemma free_rows_spec s ps rs h count :
  Forall2 (chain h) ps rs → NoDup (concat rs).*1 → dom h = list_to_set (concat rs).*1 →
  (count ≤ length rs)%nat → concat (drop count rs) = [] →
  free_rows ps count s h = Some ((entries rs).*2 ≫= release s, ∅).
Proof.
  intros Hc. revert rs count h Hc. induction ps as [|p ps IH]; intros rs count h Hc Hnd Hd Hlen Hdr.
  - inversion Hc; subst. simpl in *. destruct count; [|lia]. apply dom_empty_inv_L in Hd. by subst.
  - inversion Hc as [|? r ? rs' Hp Hcs]; subst. destruct count as [|count].
    { simpl in *. rewrite Hdr in *. apply dom_empty_inv_L in Hd. subst. unfold entries. simpl.
      by rewrite Hdr. }
    cbn [concat drop length free_rows] in *. rewrite fmap_app in Hnd, Hd. pose proof Hnd as (Hn1 & Hn2 & Hdj)%NoDup_app_inv.
    destruct (free_row_spec (S (size h)) s h p r Hp Hn1) as (h' & -> & Hd' & Hag).
    { rewrite <-size_dom, Hd, size_list_to_set, length_app, !length_fmap by done. lia. }
    cbn [mbind option_bind]. rewrite (IH rs' count h'); [|eapply chains_agree; [|exact Hcs]|exact Hn2| |lia|done].
    + simpl. unfold entries. simpl. by rewrite !fmap_app, bind_app.
    + intros j Hj. apply Hag. intros Hj'. by apply (Hdj j).
    + rewrite Hd', Hd, list_to_set_app_L. set_solver.
Qed.

(** The row past the last index is never used. *)
Lemma last_row_empty s rs : hinv s rs → concat (drop (Z.to_nat (rows s)) rs) = [].
Proof.
  intros Hs. pose proof (hi_len _ _ Hs) as Hl. destruct (hi_rows _ _ Hs).
  destruct (lookup_lt_is_Some_2 rs (Z.to_nat (rows s))) as [r Hr]; [lia|].
  rewrite (drop_S _ _ _ Hr), drop_ge by lia. simpl. rewrite app_nil_r.
  destruct r as [|[l [k v]] r]; [done|]. exfalso.
  pose proof (hi_index _ _ Hs _ _ l k v Hr ltac:(by left)) as Hi.
  pose proof (hindex_lt s rs Hs k). lia.
Qed.

(** * Sequences of calls *)

Inductive hash_cmd :=
| HAdd (mem : bool) (key : cstr) (data : ptr)
| HSet (mem : bool) (key : cstr) (data : ptr)
| HUpdate (key : cstr) (data : ptr)
| HGet (key : cstr)
| HDelete (key : cstr)
| HCount.

(** The data passed to [free_data_function], the returned pointer and code. *)
Inductive hash_res := HRes (freed : list ptr) (p : ptr) (code : Z).

Definition hash_exec (alloc : heap OSHashNode → loc) (s : OSHash) (c : hash_cmd) :
    option (hash_res * OSHash) :=
  let new (mem : bool) := if mem then Some (alloc (hheap s)) else None in
  match c with
  | HAdd mem k d => '(z, s) ← OSHash_Add s k d (new mem); Some (HRes [] NULL z, s)
  | HSet mem k d => '(z, s) ← OSHash_Set s k d (new mem); Some (HRes [] NULL z, s)
  | HUpdate k d => '(ds, z, s) ← OSHash_Update s k d; Some (HRes ds NULL z, s)
  | HGet k => p ← OSHash_Get s k; Some (HRes [] p 0, s)
  | HDelete k => '(p, s) ← OSHash_Delete s k; Some (HRes [] p 0, s)
  | HCount => Some (HRes [] NULL (OSHash_Get_Elem_ex s), s)
  end.

(** The same call on a finite map: no entry is added without memory. *)
Definition hmap_exec (fd : bool) (m : gmap cstr ptr) (c : hash_cmd) : hash_res * gmap cstr ptr :=
  let add (mem : bool) k d := if mem then (HRes [] NULL OSHASH_SUCCESS, <[k := d]> m)
                              else (HRes [] NULL OSHASH_ERROR, m) in
  match c with
  | HAdd mem k d => match m !! k with Some _ => (HRes [] NULL OSHASH_DUPLICATE, m) | None => add mem k d end
  | HSet mem k d => match m !! k with
                    | Some _ => (HRes [] NULL OSHASH_DUPLICATE, <[k := d]> m)
                    | None => add mem k d
                    end
  | HUpdate k d => match m !! k with
                   | Some v => (HRes (if not_null v && fd then [v] else []) NULL 1, <[k := d]> m)
                   | None => (HRes [] NULL 0, m)
                   end
  | HGet k => (HRes [] (default NULL (m !! k)) 0, m)
  | HDelete k => match m !! k with Some v => (HRes [] v 0, delete k m) | None => (HRes [] NULL 0, m) end
  | HCount => (HRes [] NULL (wrap32 (size m)), m)
  end.

Fixpoint hash_run (alloc : heap OSHashNode → loc) (s : OSHash) (cs : list hash_cmd) : option (list hash_res * OSHash) :=
  match cs with
  | [] => Some ([], s)
  | c :: cs => '(r, s) ← hash_exec alloc s c; '(rs, s2) ← hash_run alloc s cs; Some (r :: rs, s2)
  end.
Fixpoint hmap_run (fd : bool) (m : gmap cstr ptr) (cs : list hash_cmd) :
    list hash_res * gmap cstr ptr :=
  match cs with
  | [] => ([], m)
  | c :: cs => let '(r, m) := hmap_exec fd m c in
               let '(rs, m) := hmap_run fd m cs in (r :: rs, m)
  end.

Section run.
Context (alloc : heap OSHashNode → loc).
Context (alloc_fresh : ∀ h, h !! alloc h = None).

Lemma add_exec_sim (upd : bool) s m (mem : bool) k d :
  hrep s m → counted s m →
  let '(r, m') := hmap_exec (free_data s) m (if upd then HSet mem k d else HAdd mem k d) in
  ∃ s' z, r = HRes [] NULL z ∧
    OSHash_Add_ upd s k d (if mem then Some (alloc (hheap s)) else None) = Some (z, s') ∧
    hrep s' m' ∧ counted s' m' ∧ free_data s' = free_data s.
Proof using alloc_fresh.
  intros Hr Hc. pose proof (hrep_add upd s m k d (if mem then Some (alloc (hheap s)) else None) Hr) as H.
  assert (∀ l, (if mem then Some (alloc (hheap s)) else None) = Some l → hheap s !! l = None) as Hfr.
  { destruct mem; intros l; [intros [= <-]; apply alloc_fresh|done]. }
  specialize (H Hfr). unfold counted in *. destruct (m !! k) as [v|] eqn:Hk.
  - destruct H as (s' & He & Hr' & (_ & _ & _ & Hf) & Hel). destruct upd; simpl; rewrite Hk.
    + eexists _, _. split_and!; try done. rewrite Hel, map_size_insert_Some by done. exact Hc.
    + eexists _, _. split_and!; try done. congruence.
  - destruct mem.
    + destruct H as (s' & He & Hr' & (_ & _ & _ & Hf) & Hel).
      destruct upd; simpl; rewrite Hk; (eexists _, _; split_and!; try done);
        rewrite Hel, Hc, wrap32_add_l, map_size_insert_None by done; f_equal; lia.
    + destruct upd; simpl; rewrite Hk; (eexists _, _; split_and!; try done).
Qed.

Lemma hash_exec_sim s m c :
  hrep s m → counted s m →
  ∃ s', hash_exec alloc s c = Some ((hmap_exec (free_data s) m c).1, s') ∧
        hrep s' (hmap_exec (free_data s) m c).2 ∧ counted s' (hmap_exec (free_data s) m c).2 ∧
        free_data s' = free_data s.
Proof using alloc_fresh.
  intros Hr Hc. destruct c as [mem k d|mem k d|k d|k|k|].
  - pose proof (add_exec_sim false s m mem k d Hr Hc) as H. cbn iota in H.
    destruct (hmap_exec _ _ _) as [r m']. destruct H as (s' & z & -> & He & ? & ? & ?).
    exists s'. cbn [hash_exec]. unfold OSHash_Add. by rewrite He.
  - pose proof (add_exec_sim true s m mem k d Hr Hc) as H. cbn iota in H.
    destruct (hmap_exec _ _ _) as [r m']. destruct H as (s' & z & -> & He & ? & ? & ?).
    exists s'. cbn [hash_exec]. unfold OSHash_Set. by rewrite He.
  - pose proof (hrep_update s m k d Hr) as H. simpl. destruct (m !! k) as [v|] eqn:Hk.
    + destruct H as (s' & -> & Hr' & (_ & _ & _ & Hf) & Hel). exists s'. split_and!; try done.
      unfold counted in *. rewrite Hel. simpl. rewrite map_size_insert_Some by done. exact Hc.
    + rewrite H. by exists s.
  - simpl. rewrite (hrep_get _ _ _ Hr). by exists s.
  - pose proof (hrep_delete s m k Hr) as H. simpl. destruct (m !! k) as [v|] eqn:Hk.
    + destruct H as (s' & -> & Hr' & (_ & _ & _ & Hf) & Hel). exists s'. split_and!; try done.
      unfold counted in *. rewrite Hel, Hc, wrap32_sub_l. simpl. rewrite map_size_delete, Hk. simpl. f_equal.
      assert (size m ≠ 0)%nat by (intros E; apply map_size_empty_inv in E; by subst). lia.
    + rewrite H. by exists s.
  - simpl. exists s. by rewrite <-Hc.
Qed.

Lemma hash_run_sim s m cs :
  hrep s m → counted s m →
  ∃ s', hash_run alloc s cs = Some ((hmap_run (free_data s) m cs).1, s') ∧
        hrep s' (hmap_run (free_data s) m cs).2 ∧ counted s' (hmap_run (free_data s) m cs).2.
Proof using alloc_fresh.
  revert s m. induction cs as [|c cs IH]; intros s m Hr Hc; simpl; [by exists s|].
  destruct (hash_exec_sim s m c Hr Hc) as (s1 & -> & Hr1 & Hc1 & Hf). simpl.
  destruct (hmap_exec (free_data s) m c) as [r m1]. simpl in *.
  destruct (IH s1 m1 Hr1 Hc1) as (s2 & -> & Hr2 & Hc2). rewrite Hf in *. simpl.
  destruct (hmap_run (free_data s) m1 cs) as [rs m2]. by exists s2.
Qed.
End run.

(** * Iteration *)

Definition head_loc (r : hrow) : ptr := fst <$> head r.

Lemma chain_head h p r : chain h p r → p = head_loc r.
Proof. destruct r as [|[l [k v]] r]; simpl; [done|]. by intros [-> _]. Qed.

Section iteration.
Context (s : OSHash) (rs : list hrow).
Context (Hrows : 0 <= rows s) (Hlen : length rs = S (Z.to_nat (rows s))) (Htab : length (table s) = length rs).

(** The iterator [i], [p] has the nodes [todo] in front of it. *)
Definition cursor (h : heap OSHashNode) (i : Z) (p : ptr) (todo : hrow) : Prop :=
  p = head_loc todo ∧
  (todo ≠ [] → ∃ (k : nat) r0, i = Z.of_nat k ∧ r0 ≠ [] ∧ todo = r0 ++ concat (drop (S k) rs) ∧
     chain h p r0 ∧ Forall2 (chain h) (drop (S k) (table s)) (drop (S k) rs)).

Lemma scan_spec h (k : nat) fuel :
  (length rs - k < fuel)%nat → Forall2 (chain h) (drop k (table s)) (drop k rs) →
  ∃ p j, scan_rows fuel s h (Z.of_nat k) = Some (p, j) ∧ cursor h j p (concat (drop k rs)).
Proof using Hrows Hlen Htab.
  revert k. induction fuel as [|fuel IH]; intros k Hf Hc; [lia|]. simpl.
  destruct (Z.leb_spec k (rows s)) as [Hle|Hgt]; cycle 1.
  { rewrite drop_ge in * by lia. eexists _, _. split; [done|]. by split. }
  destruct (lookup_lt_is_Some_2 rs k) as [r Hr]; [lia|].
  destruct (lookup_lt_is_Some_2 (table s) k) as [p Hp]; [lia|].
  unfold row_get. rewrite Nat2Z.id, Hp. cbn [mbind option_bind].
  rewrite (drop_S _ _ _ Hr), (drop_S _ _ _ Hp) in Hc. inversion Hc as [|? ? ? ? Hpr Hrest]; subst.
  rewrite (drop_S _ _ _ Hr). simpl. destruct r as [|[l [ky v]] r].
  - simpl in Hpr. subst p. cbn [mbind option_bind]. replace (k + 1) with (Z.of_nat (S k)) by lia.
    apply IH; [lia|done].
  - pose proof Hpr as (-> & nx & pv & Hl & _). simpl. rewrite Hl. simpl.
    eexists _, _. split; [done|]. split; [done|]. intros _.
    exists k, ((l, (ky, v)) :: r). done.
Qed.

Lemma next_spec h i l e todo :
  cursor h i (Some l) ((l, e) :: todo) →
  ∃ p j, next_in s h i (Some l) = Some (p, j) ∧ cursor h j p todo.
Proof using Hrows Hlen Htab.
  intros [_ Hc]. destruct (Hc ltac:(done)) as (k & r0 & -> & Hne & Ht & Hch & Hrest).
  destruct r0 as [|[l0 [k0 v0]] r0]; [done|]. simpl in Ht. injection Ht as <- -> ->.
  destruct Hch as (_ & nx & pv & Hl & Hch). unfold next_in. cbn [load]. rewrite Hl.
  cbn [mbind option_bind hn_next].
  destruct r0 as [|[l1 [k1 v1]] r1].
  - simpl in Hch. subst nx. replace (k + 1) with (Z.of_nat (S k)) by lia.
    apply scan_spec; [unfold scan_fuel; lia|done].
  - pose proof Hch as (-> & _). eexists _, _. split; [done|]. split; [done|]. intros _.
    exists k, ((l1, (k1, v1)) :: r1). done.
Qed.

Lemma cursor_agree h h' i p todo :
  (∀ j, j ∈ todo.*1 → h' !! j = h !! j) → cursor h i p todo → cursor h' i p todo.
Proof.
  intros Ha [Hp Hc]. split; [done|]. intros Hne. destruct (Hc Hne) as (k & r0 & ? & ? & -> & ? & ?).
  exists k, r0. split_and!; try done.
  - eapply chain_agree; [|done]. intros. apply Ha. rewrite fmap_app, elem_of_app. by left.
  - eapply chains_agree; [|done]. intros. apply Ha. rewrite fmap_app, elem_of_app. by right.
Qed.

Definition nonnull (p : ptr) : list ptr := if not_null p then [p] else [].

Lemma cursor_load h i l ky v todo :
  cursor h i (Some l) ((l, (ky, v)) :: todo) → ∃ nx pv, h !! l = Some (HNode nx pv (Some ky) v).
Proof.
  intros [_ Hc]. destruct (Hc ltac:(done)) as (k & [|[l0 [k0 v0]] r0] & _ & Hne & Ht & Hch & _); [done|].
  simpl in Ht. injection Ht as <- <- <- _. destruct Hch as (_ & nx & pv & Hl & _). eauto.
Qed.

Lemma hash_clean_spec todo : ∀ fuel h i p,
  cursor h i p todo → NoDup todo.*1 → dom h = list_to_set todo.*1 → (length todo < fuel)%nat →
  clean_loop fuel s h i p = Some (todo.*2.*2 ≫= nonnull, ∅).
Proof using Hrows Hlen Htab.
  induction todo as [|[l [ky v]] todo IH]; intros fuel h i p Hc Hnd Hd Hf.
  - destruct Hc as [-> _]. simpl in *. apply dom_empty_inv_L in Hd. subst. by destruct fuel.
  - destruct fuel as [|fuel]; [simpl in Hf; lia|]. assert (p = Some l) as -> by (by destruct Hc as [-> _]). simpl in Hf |- *.
    destruct (cursor_load _ _ _ _ _ _ Hc) as (nx & pv & Hl).
    destruct (next_spec _ _ _ _ _ Hc) as (p' & j & -> & Hc'). cbn [mbind option_bind].
    rewrite Hl. cbn [mbind option_bind]. simpl in Hnd, Hd. apply NoDup_cons in Hnd as [Hni Hnd].
    rewrite (IH fuel (delete l h) j p'); [done| |done| |lia].
    + eapply cursor_agree; [|done]. intros x Hx. apply lookup_delete_ne. by intros ->.
    + rewrite dom_delete_L, Hd. set_solver.
Qed.

(** The nodes that a client visits with [OSHash_Next]. *)
Fixpoint iterate (fuel : nat) (i : Z) (p : ptr) : option (list loc) :=
  match p with
  | None => Some []
  | Some l =>
      match fuel with
      | O => None
      | S f => '(p, i) ← OSHash_Next s i p; ls ← iterate f i p; Some (l :: ls)
      end
  end.

Lemma iterate_spec todo : ∀ fuel i p,
  cursor (hheap s) i p todo → (length todo < fuel)%nat → iterate fuel i p = Some todo.*1.
Proof using Hrows Hlen Htab.
  induction todo as [|[l [ky v]] todo IH]; intros fuel i p Hc Hf.
  - destruct Hc as [-> _]. by destruct fuel.
  - destruct fuel as [|fuel]; [simpl in Hf; lia|]. assert (p = Some l) as -> by (by destruct Hc as [-> _]). simpl in Hf |- *.
    destruct (next_spec _ _ _ _ _ Hc) as (p' & j & Hnx & Hc'). unfold OSHash_Next. rewrite Hnx.
    cbn [mbind option_bind]. rewrite (IH fuel j p'); [done|done|lia].
Qed.
End iteration.

Lemma hinv_begin s rs :
  hinv s rs → ∃ p j, OSHash_Begin s = Some (p, j) ∧ cursor s rs (hheap s) j p (concat rs).
Proof.
  intros Hs. destruct (hi_rows _ _ Hs). apply (scan_spec s rs) with (k := O).
  - lia.
  - apply (hi_len _ _ Hs).
  - by eapply Forall2_length, hi_chains.
  - unfold scan_fuel. rewrite (hi_len _ _ Hs). lia.
  - apply (hi_chains _ _ Hs).
Qed.

Lemma hinv_walk s rs : hinv s rs → (length (concat rs) < walk_fuel s)%nat.
Proof.
  intros Hs. unfold walk_fuel. rewrite <-size_dom, (hi_dom _ _ Hs), size_list_to_set by apply (hi_nodup _ _ Hs).
  rewrite length_fmap. lia.
Qed.

(** A callback that only reads the node. *)
Definition visitor {D} (g : D → cstr * ptr → D) (s : OSHash) (i : Z) (node : ptr) (data : D) : option (OSHash * ptr * D) :=
  n ← load (hheap s) node; k ← hn_key n; Some (s, node, g data (k, hn_data n)).

Lemma it_row_spec {D} (g : D → cstr * ptr → D) s i r : ∀ fuel p d,
  chain (hheap s) p r → (length r < fuel)%nat → it_row (visitor g) fuel s i p d = Some (s, foldl g d r.*2).
Proof.
  induction r as [|[l [k v]] r IH]; intros fuel p d Hc Hf.
  - simpl in Hc. subst p. by destruct fuel.
  - destruct Hc as (-> & nx & pv & Hl & Hc). destruct fuel as [|fuel]; [simpl in Hf; lia|]. simpl in Hf |- *.
    assert (visitor g s i (Some l) d = Some (s, Some l, g d (k, v))) as Hv by (unfold visitor; cbn [load]; by rewrite Hl).
    rewrite Hl. cbn [mbind option_bind hn_key]. rewrite Hv. cbn [mbind option_bind]. rewrite ptr_eqb_refl. cbn [load]. rewrite Hl.
    cbn [mbind option_bind hn_next]. apply IH; [done|lia].
Qed.

Lemma it_rows_spec {D} (g : D → cstr * ptr → D) s rs fuel : ∀ count (k : nat) d,
  length rs = S (Z.to_nat (rows s)) → 0 <= rows s → Forall2 (chain (hheap s)) (table s) rs → Forall (λ r : hrow, (length r < fuel)%nat) rs →
  (count = Z.to_nat (rows s) - k)%nat →
  it_rows (visitor g) count fuel s (Z.of_nat k) d = Some (s, foldl g d (concat (take count (drop k rs))).*2).
Proof.
  induction count as [|count IH]; intros k d Hlen Hr0 Hc Hf Ek; cbn [it_rows].
  - rewrite (proj2 (Z.ltb_ge _ _)) by lia. done.
  - rewrite (proj2 (Z.ltb_lt _ _)) by lia. destruct (lookup_lt_is_Some_2 rs k) as [r Hr]; [lia|].
    destruct (Forall2_lookup_r _ _ _ _ _ Hc Hr) as (p & Hp & Hpr). unfold row_get. rewrite Nat2Z.id, Hp. cbn [mbind option_bind].
    rewrite (it_row_spec g s k r fuel p d Hpr) by (by eapply Forall_lookup_1 in Hf). cbn [mbind option_bind].
    replace (Z.of_nat k + 1) with (Z.of_nat (S k)) by lia. rewrite IH by (done || lia). rewrite (drop_S _ _ _ Hr). cbn [take concat].
    by rewrite fmap_app, foldl_app.
Qed.

Lemma hash_it_spec {D} (g : D → cstr * ptr → D) s rs d :
  hinv s rs → OSHash_It (visitor g) s d = Some (s, foldl g d (entries rs)).
Proof.
  intros Hs. destruct (hi_rows _ _ Hs). pose proof (hi_len _ _ Hs) as Hlen. unfold OSHash_It.
  pose proof (it_rows_spec g s rs (walk_fuel s) (Z.to_nat (rows s)) 0 d) as E. change (Z.of_nat 0) with 0 in E. rewrite E; try done; try lia.
  - unfold entries. rewrite drop_0. pose proof (last_row_empty s rs Hs) as Hl.
    rewrite <-(take_drop (Z.to_nat (rows s)) rs) at 2. by rewrite concat_app, Hl, app_nil_r.
  - apply (hi_chains _ _ Hs).
  - apply Forall_forall. intros r Hin. apply list_elem_of_split in Hin as (A & B & ->). by eapply row_length.
Qed.

(** * Duplication *)

Lemma list_elem_of_take_sub {A} (x : A) n xs : x ∈ take n xs → x ∈ xs.
Proof. intros H. rewrite <-(take_drop n xs). apply elem_of_app. by left. Qed.

Lemma dup_row_spec fuel h h' p r ls :
  chain h p r → (length r < fuel)%nat → (length r ≤ length ls)%nat → NoDup ls →
  (∀ l, l ∈ ls → h' !! l = None) →
  ∃ q h2 r', dup_row fuel h h' p ls = Some (q, h2, drop (length r) ls) ∧ chain h2 q r' ∧
    r'.*2 = r.*2 ∧ r'.*1 = take (length r) ls ∧ dom h2 = dom h' ∪ list_to_set r'.*1 ∧
    (∀ j, j ∉ r'.*1 → h2 !! j = h' !! j).
Proof.
  revert fuel p ls. induction r as [|[l [k v]] r IH]; intros fuel p ls; simpl.
  - intros -> _ _ _ _. exists NULL, h', []. destruct fuel; simpl; (split_and!; [done..| |done]; set_solver).
  - intros (-> & nx & pv & Hl & Hc) Hf Hls Hnd Hfr. destruct fuel as [|fuel]; [lia|].
    destruct ls as [|a ls]; simpl in Hls; [lia|]. simpl. rewrite Hl. cbn [mbind option_bind hn_next hn_key hn_data].
    apply NoDup_cons in Hnd as [Hna Hnd].
    destruct (IH fuel nx ls Hc ltac:(lia) ltac:(lia) Hnd) as (q & h2 & r' & -> & Hc' & Hr2 & Hr1 & Hd & Hag).
    { intros. apply Hfr. by right. }
    cbn [mbind option_bind].
    assert (a ∉ r'.*1) as Har. { rewrite Hr1. intros Hin. apply Hna. by eapply list_elem_of_take_sub. }
    eexists _, _, ((a, (k, v)) :: r'). split; [done|]. split_and!; simpl.
    + split; [done|]. rewrite lookup_insert_eq. exists q, NULL. split; [done|].
      eapply chain_agree; [|done]. intros j Hj. apply lookup_insert_ne. by intros ->.
    + f_equal. exact Hr2.
    + f_equal. exact Hr1.
    + rewrite dom_insert_L, Hd. set_solver.
    + intros j [Hj1 Hj2]%not_elem_of_cons. rewrite lookup_insert_ne, Hag by first [done|congruence]. done.
Qed.

Lemma dup_rows_spec fuel h ps rs : ∀ h' ls,
  Forall2 (chain h) ps rs → (∀ r, r ∈ rs → length r < fuel)%nat →
  (length (concat rs) ≤ length ls)%nat → NoDup ls → (∀ l, l ∈ ls → h' !! l = None) →
  ∃ qs h2 rs', dup_rows ps (length rs) fuel h h' ls = Some (qs, h2) ∧ Forall2 (chain h2) qs rs' ∧
    Forall2 (λ r' r : hrow, r'.*2 = r.*2) rs' rs ∧ (concat rs').*1 = take (length (concat rs)) ls ∧
    dom h2 = dom h' ∪ list_to_set (concat rs').*1 ∧ (∀ j, j ∉ ls → h2 !! j = h' !! j).
Proof.
  revert rs. induction ps as [|p ps IH]; intros rs h' ls Hc Hf Hls Hnd Hfr.
  - inversion Hc; subst. exists [], h', []. simpl. split_and!; try done. set_solver.
  - inversion Hc as [|? r ? rs0 Hp Hcs]; subst. cbn [length dup_rows concat] in *. rewrite length_app in Hls.
    destruct (dup_row_spec fuel h h' p r ls Hp) as (q & h1 & r' & -> & Hc1 & H2 & H1 & Hd1 & Hag1);
      [apply Hf; by left|lia|done|done|].
    cbn [mbind option_bind].
    assert (∀ j, j ∈ r'.*1 → j ∉ drop (length r) ls) as Hdj.
    { rewrite H1. intros j Hj Hj'. rewrite <-(take_drop (length r) ls) in Hnd.
      apply NoDup_app_inv in Hnd as (_ & _ & Hx). by apply (Hx j). }
    destruct (IH rs0 h1 (drop (length r) ls)) as (qs & h2 & rs' & -> & Hc2 & H22 & H21 & Hd2 & Hag2); [done| | | | |].
    { intros. apply Hf. by right. }
    { rewrite length_drop. lia. }
    { rewrite <-(take_drop (length r) ls) in Hnd. by apply NoDup_app_inv in Hnd as (_ & ? & _). }
    { intros l Hl. rewrite Hag1; [|intros Hin; by apply (Hdj l)]. apply Hfr.
      rewrite <-(take_drop (length r) ls). apply elem_of_app. by right. }
    cbn [mbind option_bind]. eexists _, _, (r' :: rs'). split; [done|]. split_and!.
    + constructor; [|done]. eapply chain_agree; [|done]. intros. apply Hag2. by apply Hdj.
    + by constructor.
    + simpl. rewrite fmap_app, H1, H21, length_app. by rewrite take_add_drop || by rewrite take_take_drop.
    + simpl. rewrite Hd2, Hd1, fmap_app, list_to_set_app_L. set_solver.
    + intros j Hj. rewrite Hag2, Hag1; [done| |].
      * rewrite H1. intros Hin. apply Hj. by eapply list_elem_of_take_sub.
      * intros Hin. apply Hj. rewrite <-(take_drop (length r) ls). apply elem_of_app. by right.
Qed.

Lemma concat_snd (rs rs' : list hrow) :
  Forall2 (λ r' r : hrow, r'.*2 = r.*2) rs' rs → (concat rs').*2 = (concat rs).*2.
Proof. induction 1 as [|r' r ? ? H _ IH]; simpl; [done|]. by rewrite !fmap_app, H, IH. Qed.

Lemma duplicate_spec s m ls :
  hrep s m → (size m ≤ length ls)%nat → NoDup ls →
  ∃ s', OSHash_Duplicate s ls = Some s' ∧ hrep s' m ∧ elements s' = 0 ∧ free_data s' = free_data s.
Proof.
  intros (rs & Hs & ->) Hsz Hnd.
  assert (length (concat rs) ≤ length ls)%nat as Hls.
  { rewrite <-length_map_to_list, map_to_list_to_map in Hsz by apply (hi_keys _ _ Hs).
    unfold entries in Hsz. by rewrite length_fmap in Hsz. }
  destruct (dup_rows_spec (walk_fuel s) (hheap s) (table s) rs ∅ ls (hi_chains _ _ Hs))
    as (qs & h2 & rs' & Hdup & Hc & H2 & H1 & Hd & _); [|done|done|done|].
  { intros r Hr. apply list_elem_of_split in Hr as (A & B & ->). by eapply row_length. }
  unfold OSHash_Duplicate. rewrite <-(hi_len _ _ Hs), Hdup. cbn [mbind option_bind].
  eexists. split; [done|]. split; [|done]. exists rs'. pose proof (concat_snd _ _ H2) as Hcs.
  split; [|unfold entries; by rewrite Hcs]. split; simpl.
  - apply (hi_rows _ _ Hs).
  - rewrite (Forall2_length _ _ _ H2). apply (hi_len _ _ Hs).
  - done.
  - rewrite H1. rewrite <-(take_drop (length (concat rs)) ls) in Hnd. by apply NoDup_app_inv in Hnd as (? & _).
  - rewrite Hd. set_solver.
  - intros i r' l k v Hi Hin. destruct (Forall2_lookup_l _ _ _ _ _ H2 Hi) as (r & Hr & Heq).
    assert ((k, v) ∈ r.*2) as Hkv. { rewrite <-Heq. apply list_elem_of_fmap. by exists (l, (k, v)). }
    apply list_elem_of_fmap in Hkv as ([l' e] & Ee & Hin'). simpl in Ee. subst e. by apply (hi_index _ _ Hs i r l' k v).
  - rewrite Hcs. apply (hi_keys _ _ Hs).
Qed.

(** * The claims *)

(** C2: Every sequence of calls on a new table, whatever its random seed and with
    any allocator, is free of undefined behaviour and returns what the same
    calls return on a finite map: codes, data, released data, and the number
    of entries (modulo its 32 bits); a failed allocation changes nothing. *)
Theorem OSHash_refines_map alloc r1 r2 fd cs :
  (∀ h : heap OSHashNode, h !! alloc h = None) →
  ∃ s0 s, OSHash_Create r1 r2 = Some s0 ∧
    hash_run alloc (OSHash_SetFreeDataPointer s0 fd) cs = Some ((hmap_run fd ∅ cs).1, s) ∧
    hrep s (hmap_run fd ∅ cs).2.
Proof.
  intros Ha. destruct (create_spec r1 r2) as (s0 & Hc & (rs & Hs & Hm) & He & _ & _).
  exists s0. destruct (hash_run_sim alloc Ha (OSHash_SetFreeDataPointer s0 fd) ∅ cs) as (s & Hr & Hrep & _).
  - exists rs. split; [|done]. by destruct Hs; split.
  - unfold counted. simpl. by rewrite He.
  - by exists s.
Qed.

Lemma OSHash_refines_map_witness :
  let a := [97] in let b := [98] in
  ∃ s0 s, OSHash_Create 5 7 = Some s0 ∧
    hash_run (λ h, fresh (dom h)) (OSHash_SetFreeDataPointer s0 true)
      [HAdd true a (Some 1%positive); HAdd false b NULL; HSet true a (Some 2%positive); HGet a;
       HUpdate a NULL; HCount; HDelete a; HGet a] =
    Some ([HRes [] NULL 2; HRes [] NULL 0; HRes [] NULL 1; HRes [] (Some 2%positive) 0;
           HRes [Some 2%positive] NULL 1; HRes [] NULL 1; HRes [] NULL 0; HRes [] NULL 0], s).
Proof.
  intros a b. destruct (OSHash_refines_map (λ h, fresh (dom h)) 5 7 true
    [HAdd true a (Some 1%positive); HAdd false b NULL; HSet true a (Some 2%positive); HGet a;
     HUpdate a NULL; HCount; HDelete a; HGet a]) as (s0 & s & H1 & H2 & _).
  - intros h. apply not_elem_of_dom, is_fresh.
  - exists s0, s. split; [exact H1|]. rewrite H2. vm_compute. reflexivity.
Defined.

(** Iterating with [OSHash_Begin] and [OSHash_Next] visits every node once;
    [OSHash_It] with a callback that reads the nodes gives it every entry once;
    [OSHash_Free] and [OSHash_Clean] free every node and hand every non-null
    datum once to the callback. *)
Theorem OSHash_iteration_complete s m :
  hrep s m →
  ∃ i p ls, OSHash_Begin s = Some (p, i) ∧ iterate s (walk_fuel s) i p = Some ls ∧
    NoDup ls ∧ list_to_set ls = dom (hheap s) ∧
    (∃ ds, OSHash_Free s = Some (ds, ∅) ∧ ds ≡ₚ (map_to_list m).*2 ≫= release s) ∧
    (∃ ds, OSHash_Clean s = Some (ds, ∅) ∧ ds ≡ₚ (map_to_list m).*2 ≫= nonnull) ∧
    (∃ es, es ≡ₚ map_to_list m ∧ ∀ D (g : D → cstr * ptr → D) d, OSHash_It (visitor g) s d = Some (s, foldl g d es)).
Proof.
  intros (rs & Hs & ->). destruct (hinv_begin s rs Hs) as (p & i & Hb & Hc). destruct (hi_rows _ _ Hs).
  assert (length (table s) = length rs) as Hlen by (by eapply Forall2_length, hi_chains).
  assert ((map_to_list (list_to_map (entries rs) : gmap cstr ptr)).*2 ≡ₚ (entries rs).*2) as Hp.
  { apply Permutation_map, map_to_list_to_map, (hi_keys _ _ Hs). }
  exists i, p, (concat rs).*1. split_and!; [done| |apply (hi_nodup _ _ Hs)|by rewrite (hi_dom _ _ Hs)| | |].
  - apply (iterate_spec s rs); try done; [lia|apply (hi_len _ _ Hs)|by apply hinv_walk].
  - exists ((entries rs).*2 ≫= release s). split; [|by rewrite Hp].
    apply free_rows_spec; [apply (hi_chains _ _ Hs)|apply (hi_nodup _ _ Hs)|apply (hi_dom _ _ Hs)| |].
    + rewrite (hi_len _ _ Hs). lia.
    + by rewrite <-(hi_len _ _ Hs), drop_all.
  - exists ((entries rs).*2 ≫= nonnull). split; [|by rewrite Hp].
    unfold OSHash_Clean. rewrite Hb. cbn [mbind option_bind].
    apply (hash_clean_spec s rs); try done;
      [lia|apply (hi_len _ _ Hs)|apply (hi_nodup _ _ Hs)|apply (hi_dom _ _ Hs)|by apply hinv_walk].
  - exists (entries rs). split; [symmetry; apply map_to_list_to_map, (hi_keys _ _ Hs)|]. intros D g d. by apply hash_it_spec.
Qed.

Lemma OSHash_iteration_complete_witness :
  ∃ s p i, OSHash_Create 3 4 = Some s ∧ OSHash_Begin s = Some (p, i) ∧ p = NULL.
Proof.
  destruct (create_spec 3 4) as (s & Hc & Hr & _). exists s.
  destruct (OSHash_iteration_complete s ∅ Hr) as (i & p & ls & Hb & _). exists p, i.
  split; [exact Hc|]. split; [exact Hb|]. revert Hc Hb. vm_compute. intros [= <-]. vm_compute. congruence.
Defined.

(** [OSHash_setSize] to a larger size empties the table, with a new prime
    number of rows, and releases all data; but the count of entries is left as
    it was, so that [OSHash_Get_Elem_ex] no longer counts the entries. *)
Theorem OSHash_setSize_keeps_count s m n :
  hrep s m → counted s m → rows s < n < 4294967296 →
  ∃ ds s', OSHash_setSize true s n = Some (ds, 1, s') ∧ hrep s' ∅ ∧
    ds ≡ₚ (map_to_list m).*2 ≫= release s ∧ OSHash_Get_Elem_ex s' = wrap32 (size m).
Proof.
  intros (rs & Hs & ->) Hcnt Hn. destruct (hi_rows _ _ Hs).
  unfold OSHash_setSize. destruct (Z.leb_spec n (rows s)); [lia|].
  destruct (Prime.getprime_total n) as (p & -> & Hp); [unfold uint32; lia|].
  cbn [mbind option_bind]. cbv zeta. destruct (Z.eqb_spec p 0); [lia|]. cbn [negb table hheap].
  set (s1 := Hash p _ _ _ _ _ _).
  rewrite (free_rows_spec s1 (table s) rs (hheap s) (Z.to_nat (rows s)));
    [|apply (hi_chains _ _ Hs)|apply (hi_nodup _ _ Hs)|apply (hi_dom _ _ Hs)
     |rewrite (hi_len _ _ Hs); lia|by apply last_row_empty].
  assert (∀ c, 0 <= c < 1000 → ∃ q, os_getprime (c mod p) = Some q) as Hg.
  { intros c Hc. destruct (Prime.getprime_total (c mod p)) as (q & -> & _); [|eauto].
    unfold uint32. pose proof (Z.mod_pos_bound c p). pose proof (Z.mod_le c p). lia. }
  destruct (Hg 456 ltac:(lia)) as [q1 E1]. destruct (Hg 789 ltac:(lia)) as [q2 E2].
  rewrite E1, E2. cbn [mbind option_bind]. eexists _, _. split; [done|]. split_and!.
  - apply hrep_fresh. unfold Prime.pmax in Hp. lia.
  - rewrite map_to_list_to_map by apply (hi_keys _ _ Hs). done.
  - exact Hcnt.
Qed.

Lemma OSHash_setSize_keeps_count_witness :
  ∃ s0 s1 ds s2, OSHash_Create 5 7 = Some s0 ∧ OSHash_Add s0 [97] NULL (Some 1%positive) = Some (2, s1) ∧
    OSHash_setSize true s1 100 = Some (ds, 1, s2) ∧ hrep s2 ∅ ∧ OSHash_Get_Elem_ex s2 = 1.
Proof.
  destruct (create_spec 5 7) as (s0 & Hc & Hr & He & _ & Hrow). exists s0.
  pose proof (hrep_add false s0 ∅ [97] NULL (Some 1%positive) Hr) as Hadd.
  rewrite lookup_empty in Hadd. destruct Hadd as (s1 & Ha & Hr1 & (Hrow1 & _) & He1).
  { intros l [= <-]. destruct Hr as (rs & Hs & Hm). revert Hc. vm_compute. intros [= <-]. reflexivity. }
  exists s1. destruct (OSHash_setSize_keeps_count s1 (<[[97] := NULL]> ∅) 100) as (ds & s2 & H1 & H2 & _ & H3).
  - exact Hr1.
  - unfold counted. rewrite He1, He. vm_compute. reflexivity.
  - rewrite Hrow1, Hrow. lia.
  - exists ds, s2. split_and!; [exact Hc|exact Ha|exact H1|exact H2|]. rewrite H3. vm_compute. reflexivity.
Defined.

(** If [realloc] fails, [OSHash_setSize] returns 0 with the number of rows
    already enlarged: a later look-up may index the old array out of bounds. *)
Theorem OSHash_setSize_failure_unsafe :
  (s0 ← OSHash_Create 5 7;
   '(_, code, s1) ← OSHash_setSize false s0 100;
   Some (code, rows s1, length (table s1), OSHash_Get s0 [104; 105], OSHash_Get s1 [104; 105])) =
  Some (0, 101, 38%nat, Some NULL, None).
Proof. vm_compute. reflexivity. Qed.

(** [OSHash_Duplicate] copies every entry, but not the count of entries. *)
Theorem OSHash_Duplicate_copies s m ls :
  hrep s m → (size m ≤ length ls)%nat → NoDup ls →
  ∃ s', OSHash_Duplicate s ls = Some s' ∧ hrep s' m ∧
    (∀ key, OSHash_Get s' key = OSHash_Get s key) ∧ OSHash_Get_Elem_ex s' = 0.
Proof.
  intros Hr Hls Hnd. destruct (duplicate_spec s m ls Hr Hls Hnd) as (s' & Hd & Hr' & He & _).
  exists s'. split_and!; try done. intros key. by rewrite (hrep_get _ _ _ Hr), (hrep_get _ _ _ Hr').
Qed.

Lemma OSHash_Duplicate_copies_witness :
  ∃ s0 s1 s2, OSHash_Create 5 7 = Some s0 ∧
    OSHash_Add s0 [97] (Some 9%positive) (Some 1%positive) = Some (2, s1) ∧
    OSHash_Duplicate s1 [4%positive] = Some s2 ∧ OSHash_Get s2 [97] = OSHash_Get s1 [97].
Proof.
  destruct (create_spec 5 7) as (s0 & Hc & Hr & _). exists s0.
  pose proof (hrep_add false s0 ∅ [97] (Some 9%positive) (Some 1%positive) Hr) as Hadd.
  rewrite lookup_empty in Hadd. destruct Hadd as (s1 & Ha & Hr1 & _).
  { intros l [= <-]. revert Hc. vm_compute. intros [= <-]. reflexivity. }
  exists s1. destruct (OSHash_Duplicate_copies s1 _ [4%positive] Hr1) as (s2 & H1 & _ & H2 & _).
  - vm_compute. lia.
  - apply NoDup_singleton.
  - exists s2. split_and!; [exact Hc|exact Ha|exact H1|exact (H2 [97])].
Defined.

(** ** Numeric keys *)

(** The key buffer is large enough for every [int]. *)
Lemma string_key_full key :
  string_key key = if key <? 0 then 45 :: digits 10 (- key) else digits 10 key.
Proof.
  unfold string_key. apply take_ge. pose proof (digits_length 10 key).
  pose proof (digits_length 10 (- key)). destruct (key <? 0); cbn [length]; lia.
Qed.

Definition is_int (z : Z) : Prop := -2147483648 <= z <= 2147483647.

Lemma string_key_inj a b : is_int a → is_int b → string_key a = string_key b → a = b.
Proof.
  unfold is_int. intros Ha Hb. rewrite !string_key_full.
  assert (∀ n c s, 0 <= n → digits 10 n = c :: s → 48 <= c) as Hd.
  { intros n c s Hn E. apply (digits_range 10 n c Hn). rewrite E. by left. }
  assert (10 ^ 10%nat = 10000000000) as Hp by reflexivity.
  destruct (Z.ltb_spec a 0), (Z.ltb_spec b 0); intros E.
  - assert (digits 10 (- a) = digits 10 (- b)) as E' by congruence. clear E. rename E' into E.
    apply (f_equal undigits) in E. rewrite !undigits_digits in E by lia. lia.
  - symmetry in E. apply Hd in E; lia.
  - apply Hd in E; lia.
  - apply (f_equal undigits) in E. rewrite !undigits_digits in E by lia. lia.
Qed.

(** An [int] key is never truncated and never confused with another one: what
    [OSHash_Numeric_Add_ex] stores under [a] is what [OSHash_Numeric_Get_ex]
    returns for [a], and every other [int] is looked up as before. *)
Theorem OSHash_Numeric_get_add s m a b d l :
  hrep s m → is_int a → is_int b → hheap s !! l = None → m !! string_key a = None →
  ∃ s', OSHash_Numeric_Add_ex s a d (Some l) = Some (OSHASH_SUCCESS, s') ∧
    OSHash_Numeric_Get_ex s' b = if a =? b then Some d else OSHash_Numeric_Get_ex s b.
Proof.
  intros Hr Ha Hb Hl Hm. pose proof (hrep_add false s m (string_key a) d (Some l) Hr) as Hadd.
  rewrite Hm in Hadd. destruct Hadd as (s' & He & Hr' & _); [by intros ? [= <-]|].
  exists s'. split; [done|]. unfold OSHash_Numeric_Get_ex, OSHash_Get_ex.
  rewrite (hrep_get _ _ _ Hr), (hrep_get _ _ _ Hr'). destruct (Z.eqb_spec a b) as [->|Hne].
  - by rewrite lookup_insert_eq.
  - rewrite lookup_insert_ne; [done|]. intros E. apply Hne. by apply string_key_inj.
Qed.

Lemma OSHash_Numeric_get_add_witness :
  ∃ s0 s1, OSHash_Create 5 7 = Some s0 ∧
    OSHash_Numeric_Add_ex s0 (-2147483648) (Some 9%positive) (Some 1%positive) = Some (OSHASH_SUCCESS, s1) ∧
    OSHash_Numeric_Get_ex s1 (-2147483648) = Some (Some 9%positive).
Proof.
  destruct (create_spec 5 7) as (s0 & Hc & Hr & _). exists s0.
  destruct (OSHash_Numeric_get_add s0 ∅ (-2147483648) (-2147483648) (Some 9%positive) 1%positive Hr)
    as (s1 & H1 & H2).
  - unfold is_int. lia.
  - unfold is_int. lia.
  - revert Hc. vm_compute. intros [= <-]. reflexivity.
  - reflexivity.
  - exists s1. split_and!; [exact Hc|exact H1|exact H2].
Defined.
