(* ===== verification/StoreOp.v ===== *)
(** The ordered store of src/shared/store_op.c: a doubly linked list kept in
    the order of its keys, with a current node that searches leave behind. *)

From S2P Require Import Prelude Dll.

(** [OSStore] with the heap of its nodes; a node's value is its key (whose
    length is [key_size]) and its data.  [os_freefn]: [free_data_function] is
    set. *)
Record osstore := OSStore {
  os_first : ptr;
  os_last : ptr;
  os_cur : ptr;
  os_size : Z;
  os_max : Z;
  os_freefn : bool;
  os_nodes : heap (dnode (cstr * ptr))
}.

Definition with_cur (s : osstore) (c : ptr) : osstore :=
  OSStore (os_first s) (os_last s) c (os_size s) (os_max s) (os_freefn s) (os_nodes s).
Definition with_list (s : osstore) (first last cur : ptr) (h : heap (dnode (cstr * ptr))) : osstore :=
  OSStore first last cur (os_size s) (os_max s) (os_freefn s) h.

(** [OSStore_Create]; [mem] says whether [calloc] succeeded. *)
Definition OSStore_Create (mem : bool) : option osstore :=
  if mem then Some (OSStore NULL NULL NULL 0 0 false ∅) else None.

(** [OSStore_SetMaxSize] *)
Definition OSStore_SetMaxSize (lst : option osstore) (max_size : Z) : Z * option osstore :=
  match lst with
  | None => (0, None)
  | Some s => if max_size <=? 1 then (0, Some s)
              else (1, Some (OSStore (os_first s) (os_last s) (os_cur s) (os_size s) max_size
                               (os_freefn s) (os_nodes s)))
  end.

(** [OSStore_SetFreeDataPointer] *)
Definition OSStore_SetFreeDataPointer (lst : option osstore) (fn : bool) : Z * option osstore :=
  match lst with
  | None => (0, None)
  | Some s => (1, Some (OSStore (os_first s) (os_last s) (os_cur s) (os_size s) (os_max s)
                          fn (os_nodes s)))
  end.

(** The loop of [OSStore_Free]: the data freed with [free], in order. *)
Fixpoint store_free_loop (fuel : nat) (h : heap (dnode (cstr * ptr))) (cur : ptr) :
    option (list ptr * heap (dnode (cstr * ptr))) :=
  match cur with
  | None => Some ([], h)
  | Some _ =>
      match fuel with
      | O => None
      | S f =>
          n ← load h cur;
          h ← free h cur;
          '(ds, h) ← store_free_loop f h (dn_next n);
          Some ((if not_null (dn_val n).2 then [(dn_val n).2] else []) ++ ds, h)
      end
  end.
Definition OSStore_Free (s : osstore) : option (list ptr * heap (dnode (cstr * ptr))) :=
  store_free_loop (S (size (os_nodes s))) (os_nodes s) (os_first s).

(** The loop that [OSStore_GetPosition], [OSStore_Get] and [OSStore_Check]
    share: [cmp] compares a node's key with the one sought.  It returns the
    node it stopped at, its position and whether it is a hit. *)
Fixpoint store_seek (fuel : nat) (h : heap (dnode (cstr * ptr))) (cmp : cstr → Z) (cur : ptr) (pos : Z) :
    option (ptr * Z * bool) :=
  match cur with
  | None => Some (NULL, pos, false)
  | Some _ =>
      match fuel with
      | O => None
      | S f =>
          n ← load h cur;
          let chk_rc := cmp (dn_val n).1 in
          if 0 <=? chk_rc then Some (cur, pos, chk_rc =? 0)
          else store_seek f h cmp (dn_next n) (int32 (pos + 1))
      end
  end.
Definition seek_from_first (s : osstore) (cmp : cstr → Z) : option (ptr * Z * bool) :=
  store_seek (S (size (os_nodes s))) (os_nodes s) cmp (os_first s) 1.

(** [OSStore_GetPosition] *)
Definition OSStore_GetPosition (s : osstore) (key : cstr) : option (Z * osstore) :=
  '(cur, pos, hit) ← seek_from_first s (λ k, strcmp k key);
  Some (if hit : bool then pos else 0, with_cur s cur).
Definition OSStore_GetPosition_ex : osstore → cstr → option (Z * osstore) := OSStore_GetPosition.

(** [OSStore_GetFirstNode] *)
Definition OSStore_GetFirstNode (s : osstore) : ptr := os_first s.

(** [OSStore_Get] *)
Definition OSStore_Get (s : osstore) (key : cstr) : option (ptr * osstore) :=
  '(cur, _, hit) ← seek_from_first s (λ k, strcmp k key);
  if hit : bool then n ← load (os_nodes s) cur; Some ((dn_val n).2, with_cur s cur)
  else Some (NULL, with_cur s cur).

(** [OSStore_Check] *)
Definition OSStore_Check (s : osstore) (key : cstr) : option (Z * osstore) :=
  '(cur, _, hit) ← seek_from_first s (λ k, strcmp k key);
  Some (if hit : bool then 1 else 0, with_cur s cur).

(** [OSStore_NCheck]: the comparison stops at the length of the node's key. *)
Definition OSStore_NCheck (s : osstore) (key : cstr) : option (Z * osstore) :=
  '(cur, _, hit) ← seek_from_first s (λ k, strncmp k key (length k));
  Some (if hit : bool then 1 else 0, with_cur s cur).

(** [OSStore_NCaseCheck]: every node is tried. *)
Fixpoint ncase_loop (fuel : nat) (h : heap (dnode (cstr * ptr))) (cur : ptr) (key : cstr) :
    option (ptr * Z) :=
  match cur with
  | None => Some (NULL, 0)
  | Some _ =>
      match fuel with
      | O => None
      | S f =>
          n ← load h cur;
          let k := (dn_val n).1 in
          if strncasecmp k key (length k) =? 0 then Some (cur, 1)
          else ncase_loop f h (dn_next n) key
      end
  end.
Definition OSStore_NCaseCheck (s : osstore) (key : cstr) : option (Z * osstore) :=
  '(cur, r) ← ncase_loop (S (size (os_nodes s))) (os_nodes s) (os_first s) key;
  Some (r, with_cur s cur).

(** [OSStore_Put]; [new] is the node that [calloc] returns, [None] when it or
    the [strdup] of the key fails.  The loop over the nodes is [store_seek]
    from the first node. *)
Definition OSStore_Put (s : osstore) (key : cstr) (data : ptr) (new : option loc) :
    option (Z * osstore) :=
  match new with
  | None => Some (0, s)
  | Some l =>
      let h := <[l := DNode NULL NULL (key, data)]> (os_nodes s) in
      let sized s := OSStore (os_first s) (os_last s) (os_cur s) (int32 (os_size s + 1)) (os_max s)
                             (os_freefn s) (os_nodes s) in
      match os_first s with
      | None => Some (1, sized (with_list s (Some l) (Some l) (os_cur s) h))
      | Some _ =>
          '(cur, _, dup) ← store_seek (S (size (os_nodes s))) h (λ k, strcmp k key) (os_first s) 1;
          if dup : bool then
            h ← free h (Some l);
            Some (1, with_list s (os_first s) (os_last s) cur h)
          else
            '(first, h) ←
              match cur with
              | None => Some (os_first s, h)
              | Some _ =>
                  n ← load h cur;
                  '(first, h) ← match dn_prev n with
                                | Some _ => h ← store h (dn_prev n) (set_next (Some l)); Some (os_first s, h)
                                | None => Some (Some l, h)
                                end;
                  h ← store h (Some l) (set_prev (dn_prev n));
                  h ← store h cur (set_prev (Some l));
                  h ← store h (Some l) (set_next cur);
                  Some (first, h)
              end;
            nn ← load h (Some l);
            '(last, h) ←
              match dn_next nn with
              | None => h ← store h (os_last s) (set_next (Some l));
                        h ← store h (Some l) (set_prev (os_last s));
                        Some (Some l, h)
              | Some _ => Some (os_last s, h)
              end;
            Some (1, sized (with_list s first last cur h))
      end
  end.
Definition OSStore_Put_ex : osstore → cstr → ptr → option loc → option (Z * osstore) := OSStore_Put.

(** ** Sorting

    [sort] is the caller's comparison of two data pointers: whether the first
    goes before the second. *)
Section sort.
Context (sort : ptr → ptr → bool).

(** The inner loop of [OSStore_Sort]: the node [movenode] it stops at. *)
Fixpoint sort_back (fuel : nat) (h : heap (dnode (cstr * ptr))) (data : ptr) (movenode : ptr) :
    option ptr :=
  match movenode with
  | None => Some NULL
  | Some _ =>
      match fuel with
      | O => None
      | S f =>
          n ← load h movenode;
          if sort data (dn_val n).2 then sort_back f h data (dn_prev n) else Some movenode
      end
  end.

(** The unlinking that both branches of the body share: the new [last_node]. *)
Definition sort_unlink (s : osstore) (n : dnode (cstr * ptr)) :
    option (ptr * heap (dnode (cstr * ptr))) :=
  h ← match dn_prev n with
      | Some _ => store (os_nodes s) (dn_prev n) (set_next (dn_next n))
      | None => Some (os_nodes s)
      end;
  match dn_next n with
  | Some _ => h ← store h (dn_next n) (set_prev (dn_prev n)); Some (os_last s, h)
  | None => Some (dn_prev n, h)
  end.

(** One pass of the outer loop; the store it leaves has [cur_node] advanced. *)
Definition sort_body (fuel : nat) (s : osstore) : option osstore :=
  n ← load (os_nodes s) (os_cur s);
  movenode ← sort_back fuel (os_nodes s) (dn_val n).2 (dn_prev n);
  s ← match movenode with
      | Some _ =>
          if ptr_eqb movenode (dn_prev n) then Some s
          else
            '(last, h) ← sort_unlink s n;
            m ← load h movenode;
            h ← store h (os_cur s) (set_next (dn_next m));
            h ← store h (os_cur s) (set_prev movenode);
            h ← match dn_next m with
                | Some _ => store h (dn_next m) (set_prev (os_cur s))
                | None => Some h
                end;
            h ← store h movenode (set_next (os_cur s));
            Some (with_list s (os_first s) last (dn_prev n) h)
      | None =>
          if ptr_eqb (os_cur s) (os_first s) then Some s
          else
            '(last, h) ← sort_unlink s n;
            match dn_prev n with
            | None => Some (with_list s (os_first s) last NULL h)
            | Some _ =>
                h ← store h (os_cur s) (set_prev NULL);
                h ← store h (os_cur s) (set_next (os_first s));
                h ← store h (os_first s) (set_prev (os_cur s));
                Some (with_list s (os_cur s) last (dn_prev n) h)
            end
      end;
  match os_cur s with
  | None => Some s (* the early return *)
  | Some _ => n ← load (os_nodes s) (os_cur s); Some (with_cur s (dn_next n))
  end.

Fixpoint sort_loop (fuel inner : nat) (s : osstore) : option osstore :=
  match os_cur s with
  | None => Some s
  | Some _ =>
      match fuel with
      | O => None
      | S f => s ← sort_body inner s; sort_loop f inner s
      end
  end.
Definition OSStore_Sort (s : osstore) : option (Z * osstore) :=
  let fuel := S (size (os_nodes s)) in
  s ← sort_loop fuel fuel (with_cur s (os_first s));
  Some (1, s).
End sort.

(** A smoke test: insertion in key order, then sorting by data. *)
Definition put_all (kvs : list (Z * Z)) (s : osstore) : option osstore :=
  foldl (λ os '(k, v), s ← os; '(_, s) ← OSStore_Put s [k] (Some (Z.to_pos v)) (Some (Z.to_pos v)); Some s)
        (Some s) kvs.
Definition contents (s : osstore) : list Z :=
  (λ e, match e.2.2 with Some p => Zpos p | None => 0 end) <$> walk (size (os_nodes s)) (os_nodes s) (os_first s).

Example store_smoke :
  (s ← OSStore_Create true;
   s ← put_all [(3, 30); (1, 12); (2, 7); (5, 50); (4, 40); (2, 99)] s;
   '(p, _) ← OSStore_GetPosition s [4];
   '(_, s') ← OSStore_Sort (λ a b, match a, b with Some x, Some y => Pos.ltb x y | _, _ => false end) s;
   Some (contents s, p, contents s')) = Some ([12; 7; 30; 40; 50], 4, [7; 12; 30; 40; 50]).
Proof. vm_compute. reflexivity. Qed.
