(* ===== verification/StoreSpec.v ===== *)
(** The ordered store as a finite map with key order, and its sort. *)

From S2P Require Import Prelude Keyed Dll StoreOp.

Abbreviation snodes := (list (loc * (cstr * ptr))).

(** The chain of [s] is [ls]; the current node may be anything. *)
Definition st_links (s : osstore) (ls : snodes) : Prop :=
  dll (os_nodes s) ls ∧ os_first s = hd_ptr ls NULL ∧ os_last s = last_ptr ls NULL.

(** [s] stands for [m]: its nodes are in the order of their keys. *)
Definition st_rep (s : osstore) (m : gmap cstr ptr) : Prop :=
  ∃ ls, st_links s ls ∧ ksorted ls.*2 ∧ m = list_to_map ls.*2.

Lemma int32_add_l a b : int32 (int32 a + b) = int32 (a + b).
Proof.
  unfold int32. f_equal. replace (a + b + 2147483648) with ((a + 2147483648) + b) by lia.
  replace ((a + 2147483648) mod 4294967296 - 2147483648 + b + 2147483648)
    with ((a + 2147483648) mod 4294967296 + b) by lia.
  apply Zplus_mod_idemp_l.
Qed.

(** * Searching *)

(** The search stops at the first node whose comparison is not negative. *)
Lemma seek_spec fuel h cmp p ls pos :
  dseg h p ls NULL → (length ls < fuel)%nat →
  ∃ ls1 ls2, ls = ls1 ++ ls2 ∧ (∀ k, k ∈ ls1.*2.*1 → cmp k < 0) ∧
    (∀ e, head ls2 = Some e → 0 <= cmp e.2.1) ∧
    store_seek fuel h cmp (hd_ptr ls NULL) (int32 pos) =
    Some (hd_ptr ls2 NULL, int32 (pos + length ls1),
          match ls2 with [] => false | (_, (k, _)) :: _ => cmp k =? 0 end).
Proof.
  revert fuel p pos. induction ls as [|[l [k v]] ls IH]; intros fuel p pos Hs Hf.
  - exists [], []. split_and!; [done|by intros ? ?%not_elem_of_nil|done|].
    destruct fuel; simpl; by rewrite Z.add_0_r.
  - destruct Hs as [Hl Hs]. destruct fuel as [|fuel]; [simpl in Hf; lia|].
    cbn [store_seek hd_ptr load]. rewrite Hl. cbn [mbind option_bind dn_val dn_next fst].
    destruct (Z.leb_spec 0 (cmp k)) as [Hge|Hlt].
    + exists [], ((l, (k, v)) :: ls). split_and!; [done|by intros ? ?%not_elem_of_nil| |].
      * by intros e [= <-].
      * simpl. by rewrite Z.add_0_r.
    + rewrite int32_add_l. simpl in Hf.
      destruct (IH fuel (Some l) (pos + 1) Hs ltac:(lia)) as (ls1 & ls2 & -> & H1 & H2 & ->).
      exists ((l, (k, v)) :: ls1), ls2. split_and!; [done| |done|].
      * simpl. intros k' [->|?]%elem_of_cons; auto.
      * do 3 f_equal. simpl. f_equal. lia.
Qed.

(** In key order the search for an equal key finds it, or its place. *)
Lemma seek_key fuel h p ls key :
  dseg h p ls NULL → (length ls < fuel)%nat → ksorted ls.*2 →
  ∃ ls1 ls2, ls = ls1 ++ ls2 ∧ (∀ k, k ∈ ls1.*2.*1 → slt k key) ∧
    let hit := match ls2 with [] => false | (_, (k, _)) :: _ => strcmp k key =? 0 end in
    store_seek fuel h (λ k, strcmp k key) (hd_ptr ls NULL) 1 =
      Some (hd_ptr ls2 NULL, int32 (1 + length ls1), hit) ∧
    match ls2 with
    | [] => key ∉ ls.*2.*1
    | (_, (k, v)) :: _ => if hit then k = key else slt key k ∧ key ∉ ls.*2.*1
    end.
Proof.
  intros Hs Hf Hso. destruct (seek_spec fuel h (λ k, strcmp k key) p ls 1 Hs Hf)
    as (ls1 & ls2 & -> & H1 & H2 & Hseek).
  exists ls1, ls2. split; [done|]. split; [done|]. split; [exact Hseek|].
  assert (key ∉ ls1.*2.*1) as Hn1 by (intros Hin; apply H1 in Hin; rewrite strcmp_refl in Hin; lia).
  destruct ls2 as [|[l [k v]] ls2]; simpl.
  - by rewrite app_nil_r.
  - destruct (Z.eqb_spec (strcmp k key) 0) as [->%strcmp_eq|Hne]; [done|].
    specialize (H2 _ eq_refl). simpl in H2. assert (slt key k) as Hlt by (apply strcmp_gt_slt; lia).
    split; [done|]. rewrite !fmap_app in *. simpl in *.
    apply ksorted_app in Hso as (_ & [_ Hk]%ksorted_cons & _).
    apply not_elem_of_app. split; [done|]. apply not_elem_of_cons. split; [by apply slt_neq|].
    intros Hin. apply Hk in Hin. eapply slt_irrefl. by etransitivity.
Qed.

(** Prefix search: a stored key that is a prefix of [key]. *)
Lemma strncmp_prefix k key : strncmp k key (length k) = 0 ↔ k `prefix_of` key.
Proof.
  unfold strncmp. rewrite firstn_all. rewrite strcmp_eq. split.
  - intros E. exists (drop (length k) key). rewrite E at 1. by rewrite take_drop.
  - intros [r ->]. by rewrite take_app_length.
Qed.

Lemma strcmp_take_gt a b n : 0 < strcmp (take n a) (take n b) → 0 < strcmp a b.
Proof.
  revert a b. induction n as [|n IH]; intros [|x a] [|y b]; simpl; try lia.
  destruct (x =? y); [apply IH|done].
Qed.

Lemma prefix_le p s : p `prefix_of` s → strcmp p s <= 0.
Proof.
  intros [r ->]. induction p as [|x p IH]; simpl; [by destruct r|]. by rewrite Z.eqb_refl.
Qed.

(** The early exit of the prefix search loses nothing in a sorted list. *)
Lemma prefix_after_greater k key (ks : list cstr) :
  0 < strncmp k key (length k) → (∀ k', k' ∈ ks → slt k k') → ∀ k', k' ∈ ks → ¬ k' `prefix_of` key.
Proof.
  unfold strncmp. rewrite firstn_all. intros Hgt Hlt k' Hin Hp.
  assert (slt key k) as H1.
  { apply strcmp_gt_slt. apply (strcmp_take_gt _ _ (length k)). by rewrite firstn_all. }
  pose proof (Hlt _ Hin) as H2. apply prefix_le in Hp.
  assert (slt key k') as H3 by (by etransitivity). apply strcmp_gt_slt in H3. lia.
Qed.

Section search.
Context (s : osstore) (ls : snodes) (Hl : st_links s ls) (Hso : ksorted ls.*2).

Lemma st_fuel : (length ls < S (size (os_nodes s)))%nat.
Proof using Hl. destruct Hl as (Hd & _ & _). rewrite (dll_size _ _ Hd). lia. Qed.

Lemma st_seg : dseg (os_nodes s) NULL ls NULL.
Proof using Hl. by destruct Hl as ((_ & _ & ?) & _). Qed.

Lemma ncheck_spec key :
  ∃ cur, OSStore_NCheck s key =
         Some (if bool_decide (Exists (λ k, k `prefix_of` key) ls.*2.*1) then 1 else 0, with_cur s cur).
Proof using Hl Hso.
  unfold OSStore_NCheck, seek_from_first. destruct Hl as (_ & -> & _).
  destruct (seek_spec _ _ (λ k, strncmp k key (length k)) _ _ 1 st_seg st_fuel)
    as (ls1 & ls2 & E & H1 & H2 & Hseek). change (int32 1) with 1 in Hseek. rewrite Hseek.
  cbn [mbind option_bind]. exists (hd_ptr ls2 NULL). do 3 f_equal.
  assert (¬ Exists (λ k, k `prefix_of` key) ls1.*2.*1) as Hn1.
  { intros (k & Hin & Hp)%Exists_exists. apply H1 in Hin. apply strncmp_prefix in Hp. lia. }
  rewrite E. rewrite !fmap_app. destruct ls2 as [|[l [k v]] ls2].
  - simpl. rewrite app_nil_r. by rewrite bool_decide_false.
  - destruct (Z.eqb_spec (strncmp k key (length k)) 0) as [Hz|Hnz].
    + rewrite bool_decide_true; [done|]. apply Exists_app. right. left. by apply strncmp_prefix.
    + rewrite bool_decide_false; [done|]. intros [?|Hex]%Exists_app; [done|].
      specialize (H2 _ eq_refl). simpl in H2, Hex. rewrite E, fmap_app in Hso.
      apply ksorted_app in Hso as (_ & [_ Hk]%ksorted_cons & _).
      apply Exists_cons in Hex as [Hp|(k' & Hin & Hp)%Exists_exists].
      * apply strncmp_prefix in Hp. lia.
      * by eapply (prefix_after_greater k key ls2.*2.*1 ltac:(lia) Hk).
Qed.

Lemma ncase_spec key :
  ∃ cur, OSStore_NCaseCheck s key =
    Some (if bool_decide (Exists (λ k, str_lowercase k `prefix_of` str_lowercase key) ls.*2.*1) then 1 else 0,
          with_cur s cur).
Proof using Hl.
  unfold OSStore_NCaseCheck. pose proof st_fuel as Hf. pose proof st_seg as Hs. destruct Hl as (_ & -> & _).
  assert (∀ k, (strncasecmp k key (length k) =? 0) =
    bool_decide (str_lowercase k `prefix_of` str_lowercase key)) as Hcmp.
  { intros k. unfold strncasecmp. rewrite firstn_all.
    assert (str_lowercase (take (length k) key) = take (length (str_lowercase k)) (str_lowercase key)) as E.
    { unfold str_lowercase. rewrite length_fmap. apply fmap_take. }
    rewrite E. pose proof (strncmp_prefix (str_lowercase k) (str_lowercase key)) as Hp.
    unfold strncmp in Hp. rewrite firstn_all in Hp. case_bool_decide as Hb.
    - apply Z.eqb_eq. by apply Hp.
    - apply Z.eqb_neq. by rewrite Hp. }
  revert Hs Hf. generalize (S (size (os_nodes s))) as fuel.
  enough (∀ p fuel, dseg (os_nodes s) p ls NULL → (length ls < fuel)%nat →
    ∃ cur, ('(cur, r) ← ncase_loop fuel (os_nodes s) (hd_ptr ls NULL) key; Some (r, with_cur s cur)) =
    Some (if bool_decide (Exists (λ k, str_lowercase k `prefix_of` str_lowercase key) ls.*2.*1) then 1 else 0,
          with_cur s cur)) as Hall by eauto.
  clear Hl Hso. induction ls as [|[l [k v]] r IH]; intros p fuel Hs Hf.
  - exists NULL. rewrite bool_decide_false by (by intros ?%Exists_nil). by destruct fuel.
  - destruct Hs as [Hlk Hs]. destruct fuel as [|fuel]; [simpl in Hf; lia|]. simpl in Hf.
    cbn [ncase_loop hd_ptr load]. rewrite Hlk. cbn [mbind option_bind dn_val dn_next fst].
    rewrite Hcmp. simpl. destruct (IH (Some l) fuel Hs ltac:(lia)) as [cur Hc].
    destruct (bool_decide (str_lowercase k `prefix_of` str_lowercase key)) eqn:Hk.
    + exists (Some l). apply bool_decide_eq_true in Hk. rewrite (bool_decide_true (Exists _ _)) by (by left). done.
    + apply bool_decide_eq_false in Hk. exists cur. rewrite Hc. do 3 f_equal. case_bool_decide as H1; case_bool_decide as H2; try done.
      * exfalso. apply H2. by right.
      * exfalso. apply Exists_cons in H2 as [?|?]; done.
Qed.
End search.

(** * Insertion *)

(** Linking a new node before the node [r], or at the end. *)
Lemma put_before s ls1 r b ls2 l key data :
  let h := <[l := DNode NULL NULL (key, data)]> (os_nodes s) in
  st_links s (ls1 ++ (r, b) :: ls2) → os_nodes s !! l = None →
  ∃ first h', 
    ('(first, h) ←
       (n ← load h (Some r);
        '(first, h) ← match dn_prev n with
                      | Some _ => h ← store h (dn_prev n) (set_next (Some l)); Some (os_first s, h)
                      | None => Some (Some l, h)
                      end;
        h ← store h (Some l) (set_prev (dn_prev n));
        h ← store h (Some r) (set_prev (Some l));
        h ← store h (Some l) (set_next (Some r));
        Some (first, h));
     nn ← load h (Some l);
     match dn_next nn with
     | None => None
     | Some _ => Some (first, h)
     end) = Some (first, h') ∧
    first = hd_ptr (ls1 ++ (l, (key, data)) :: (r, b) :: ls2) NULL ∧
    dll h' (ls1 ++ (l, (key, data)) :: (r, b) :: ls2).
Proof.
  intros h (Hd & Hf & Hla) Hl. pose proof (dll_insert_before _ _ _ _ _ l (key, data) Hd Hl) as Hin.
  pose proof (dll_fresh _ _ _ Hd Hl) as Hfr. destruct Hd as (Hnd & _ & Hs).
  pose proof (dseg_lookup _ _ _ _ _ _ _ Hs) as Hr.
  rewrite fmap_app in Hfr, Hnd. simpl in *. apply NoDup_middle in Hnd as (_ & Hr1 & _).
  apply not_elem_of_app in Hfr as [Hl1 [Hlr _]%not_elem_of_cons]. subst h. rewrite Hf.
  destruct ls1 as [|[q c] ls1 _] using rev_ind; simpl in *.
  - rewrite (lookup_insert_ne _ l r), Hr by done. simpl. rewrite lookup_insert_eq. simpl.
    rewrite !insert_insert_eq, (lookup_insert_ne _ l r), Hr by done. simpl.
    rewrite (lookup_insert_ne _ r l), lookup_insert_eq by done. simpl.
    rewrite lookup_insert_eq. simpl. eexists _, _. split; [done|]. split; [done|].
    rewrite (insert_insert_ne _ l r), insert_insert_eq by done. done.
  - rewrite last_ptr_snoc, last_snoc, removelast_last in *. rewrite <-app_assoc in Hs. simpl in Hs.
    apply dseg_lookup in Hs. apply notin_snoc in Hl1 as [_ Hlq]. apply notin_snoc in Hr1 as [_ Hrq].
    rewrite (lookup_insert_ne _ l r), Hr by done. simpl.
    rewrite (lookup_insert_ne _ l q), Hs by done. simpl.
    rewrite (lookup_insert_ne _ q l), lookup_insert_eq by done. simpl.
    rewrite !(lookup_insert_ne _ _ r), Hr by congruence. simpl.
    rewrite (lookup_insert_ne _ r l), lookup_insert_eq by done. simpl.
    rewrite lookup_insert_eq. simpl. eexists _, _. split; [done|]. split; [by destruct ls1 as [|[]]|].
    rewrite (insert_insert_ne _ l r), insert_insert_eq by done.
    rewrite (insert_insert_ne _ l q), insert_insert_eq by done. done.
Qed.

Lemma put_last s ls l key data :
  let h := <[l := DNode NULL NULL (key, data)]> (os_nodes s) in
  st_links s ls → ls ≠ [] → os_nodes s !! l = None →
  ∃ h', (h ← store h (os_last s) (set_next (Some l)); store h (Some l) (set_prev (os_last s))) = Some h' ∧
    dll h' (ls ++ [(l, (key, data))]).
Proof.
  intros h (Hd & Hf & Hla) Hne Hl. pose proof (dll_snoc _ _ l (key, data) Hd Hl) as Hsn.
  pose proof (dll_fresh _ _ _ Hd Hl) as Hfr. destruct Hd as (_ & _ & Hs). subst h. rewrite Hla.
  destruct ls as [|[r b] ls _] using rev_ind; [done|].
  rewrite last_ptr_snoc, last_snoc, removelast_last in *.
  apply notin_snoc in Hfr as [_ Hlr]. apply dseg_lookup in Hs. simpl in *.
  rewrite lookup_insert_ne, Hs by done. simpl. rewrite lookup_insert_ne, lookup_insert_eq by done.
  eexists. split; [done|]. rewrite (insert_insert_ne _ l r), insert_insert_eq by done. done.
Qed.

Lemma st_rep_put s m key data l :
  st_rep s m → os_nodes s !! l = None →
  ∃ s', OSStore_Put s key data (Some l) = Some (1, s') ∧
    st_rep s' (match m !! key with Some _ => m | None => <[key := data]> m end) ∧
    os_size s' = match m !! key with Some _ => os_size s | None => int32 (os_size s + 1) end.
Proof.
  intros (ls & Hlk & Hso & ->) Hl. pose proof Hlk as (Hd & Hf & Hla).
  pose proof (dll_fresh _ _ _ Hd Hl) as Hfr. unfold OSStore_Put. rewrite Hf.
  destruct (decide (ls = [])) as [->|Hne].
  { simpl. eexists. split; [done|]. split; [|done]. exists [(l, (key, data))]. split_and!; [|repeat constructor|done].
    pose proof (dll_cons _ _ l (key, data) Hd Hl) as Hc. by split_and!. }
  destruct (hd_ptr ls NULL) as [f|] eqn:Ef; [|by destruct ls as [|[]]]. rewrite <-Ef.
  assert (dseg (<[l := DNode NULL NULL (key, data)]> (os_nodes s)) NULL ls NULL) as Hs'.
  { apply dseg_insert; [done|]. by destruct Hd as (_ & _ & ?). }
  destruct (seek_key _ _ _ _ key Hs' (st_fuel s ls Hlk) Hso) as (ls1 & ls2 & -> & H1 & Hsk & H2).
  rewrite Hsk. cbn [mbind option_bind].
  destruct ls2 as [|[r [k v]] ls2].
  - cbn [hd_ptr mbind option_bind load]. rewrite lookup_insert_eq. cbn [mbind option_bind dn_next].
    rewrite app_nil_r in *. destruct (put_last s ls1 l key data Hlk Hne Hl) as (h' & Hst & Hd').
    revert Hst. cbn [mbind option_bind].
    destruct (store _ (os_last s) _) as [h1|]; [|done]. cbn [mbind option_bind]. intros ->.
    cbn [mbind option_bind]. rewrite (not_elem_of_list_to_map_1 _ _ H2). eexists. split; [done|]. split; [|done].
    exists (ls1 ++ [(l, (key, data))]). split_and!.
    + split_and!; simpl; [done| |by rewrite last_ptr_snoc]. by destruct ls1 as [|[]].
    + rewrite fmap_app. apply ksorted_app. split_and!; [done|repeat constructor|].
      intros x y Hx Hy%list_elem_of_singleton. subst y. by apply H1.
    + rewrite fmap_app. simpl. rewrite <-list_to_map_cons. apply list_to_map_proper.
      * simpl. constructor; [done|]. by apply ksorted_NoDup.
      * apply Permutation_cons_append.
  - cbn [hd_ptr]. destruct (strcmp k key =? 0) eqn:Hz.
    + subst k. cbn [mbind option_bind]. unfold free. rewrite lookup_insert_eq. cbn [mbind option_bind].
      rewrite delete_insert_id by done.
      assert ((list_to_map (ls1 ++ (r, (key, v)) :: ls2).*2 : gmap cstr ptr) !! key = Some v) as ->.
      { apply elem_of_list_to_map_1; [by apply ksorted_NoDup|]. rewrite fmap_app, elem_of_app. right. by left. }
      eexists. split; [done|]. split; [|done]. exists (ls1 ++ (r, (key, v)) :: ls2). split_and!; [|done|done].
      by split_and!.
    + destruct H2 as [Hlt H2]. destruct (put_before s ls1 r (k, v) ls2 l key data Hlk Hl)
        as (first & h' & Hst & Hfi & Hd').
      revert Hst. cbn [mbind option_bind]. rewrite Hf, Ef.
      match goal with |- _ → ∃ _, (?X ≫= _) = _ ∧ _ => destruct X as [[fi h1]|]; [|done] end.
      cbn [mbind option_bind].
      destruct (load h1 (Some l)) as [nn|]; [|done]. cbn [mbind option_bind].
      destruct (dn_next nn) as [nx|]; [|done]. intros [= -> ->]. cbn [mbind option_bind].
      rewrite (not_elem_of_list_to_map_1 _ _ H2). eexists. split; [done|]. split; [|done].
      exists (ls1 ++ (l, (key, data)) :: (r, (k, v)) :: ls2). split_and!.
      * split_and!; simpl; [done|done|]. rewrite Hla, !last_ptr_app, !last_ptr_cons. done.
      * rewrite !fmap_app in *. simpl in *. apply ksorted_app in Hso as (Hs1 & Hs2 & Hs3).
        apply ksorted_app. rewrite ksorted_cons. split_and!; try done.
        -- simpl. intros y [->|Hy]%elem_of_cons; [done|]. apply ksorted_cons in Hs2 as [_ Hs2].
           transitivity k; [done|by apply Hs2].
        -- simpl. intros x y Hx [->|Hy]%elem_of_cons; [by apply H1|by apply Hs3].
      * rewrite !fmap_app. simpl. rewrite <-list_to_map_cons. apply list_to_map_proper.
        -- simpl. constructor; [by rewrite fmap_app in H2|]. rewrite fmap_app in Hso. by apply ksorted_NoDup.
        -- by rewrite Permutation_middle.
Qed.

(** * Sequences of calls *)

Inductive store_cmd :=
| SPut (mem : bool) (key : cstr) (data : ptr)
| SGet (key : cstr)
| SCheck (key : cstr)
| SPosition (key : cstr)
| SNCheck (key : cstr)
| SNCaseCheck (key : cstr).

Inductive store_res := SRes (code : Z) (p : ptr).

Definition store_exec (alloc : heap (dnode (cstr * ptr)) → loc) (s : osstore) (c : store_cmd) :
    option (store_res * osstore) :=
  match c with
  | SPut mem k d => '(z, s) ← OSStore_Put s k d (if mem then Some (alloc (os_nodes s)) else None);
                    Some (SRes z NULL, s)
  | SGet k => '(p, s) ← OSStore_Get s k; Some (SRes 0 p, s)
  | SCheck k => '(z, s) ← OSStore_Check s k; Some (SRes z NULL, s)
  | SPosition k => '(z, s) ← OSStore_GetPosition s k; Some (SRes z NULL, s)
  | SNCheck k => '(z, s) ← OSStore_NCheck s k; Some (SRes z NULL, s)
  | SNCaseCheck k => '(z, s) ← OSStore_NCaseCheck s k; Some (SRes z NULL, s)
  end.

(** The number of keys below [key]. *)
Definition below (m : gmap cstr ptr) (key : cstr) : nat :=
  length (List.filter (λ k, strcmp k key <? 0) (keys_of m)).

(** The same call on a finite map; a key that is present is not replaced. *)
Definition smap_exec (m : gmap cstr ptr) (c : store_cmd) : store_res * gmap cstr ptr :=
  match c with
  | SPut mem k d =>
      if mem then (SRes 1 NULL, match m !! k with Some _ => m | None => <[k := d]> m end)
      else (SRes 0 NULL, m)
  | SGet k => (SRes 0 (default NULL (m !! k)), m)
  | SCheck k => (SRes (if m !! k then 1 else 0) NULL, m)
  | SPosition k => (SRes (if m !! k then int32 (1 + below m k) else 0) NULL, m)
  | SNCheck k => (SRes (if bool_decide (Exists (λ k', k' `prefix_of` k) (keys_of m)) then 1 else 0) NULL, m)
  | SNCaseCheck k =>
      (SRes (if bool_decide (Exists (λ k', str_lowercase k' `prefix_of` str_lowercase k) (keys_of m))
             then 1 else 0) NULL, m)
  end.

Fixpoint store_run (alloc : heap (dnode (cstr * ptr)) → loc) (s : osstore) (cs : list store_cmd) :
    option (list store_res * osstore) :=
  match cs with
  | [] => Some ([], s)
  | c :: cs => '(r, s) ← store_exec alloc s c; '(rs, s) ← store_run alloc s cs; Some (r :: rs, s)
  end.
Fixpoint smap_run (m : gmap cstr ptr) (cs : list store_cmd) : list store_res * gmap cstr ptr :=
  match cs with
  | [] => ([], m)
  | c :: cs => let '(r, m) := smap_exec m c in let '(rs, m) := smap_run m cs in (r :: rs, m)
  end.

Lemma st_rep_cur s m c : st_rep s m → st_rep (with_cur s c) m.
Proof. intros (ls & (? & ? & ?) & ? & ?). exists ls. split_and!; try done. Qed.

(** The three searches of a key. *)
Lemma st_rep_seek s m key :
  st_rep s m →
  ∃ cur, seek_from_first s (λ k, strcmp k key) =
           Some (cur, int32 (1 + below m key), if m !! key then true else false) ∧
         (∀ v, m !! key = Some v → ∃ n, load (os_nodes s) cur = Some n ∧ (dn_val n).2 = v).
Proof.
  intros (ls & Hl & Hso & ->). unfold seek_from_first, below. rewrite ksorted_keys_of by done.
  pose proof (st_seg s ls Hl) as Hs. pose proof (st_fuel s ls Hl) as Hf. destruct Hl as (_ & -> & _).
  destruct (seek_key _ _ _ _ key Hs Hf Hso) as (ls1 & ls2 & -> & H1 & -> & H2).
  exists (hd_ptr ls2 NULL).
  assert (List.filter (λ k, strcmp k key <? 0) ls1.*2.*1 = ls1.*2.*1) as Hf1.
  { apply filter_all. intros x Hx. apply Z.ltb_lt. by apply H1. }
  assert (∀ k, k ∈ ls2.*2.*1 → ¬ slt k key) as Hge.
  { intros k Hin Hlt. destruct ls2 as [|[l [k0 v0]] ls2]; [by apply not_elem_of_nil in Hin|].
    rewrite fmap_app in Hso. simpl in *. apply ksorted_app in Hso as (_ & [_ Hk]%ksorted_cons & _).
    assert (¬ slt k0 key) as Hk0.
    { destruct (strcmp k0 key =? 0); [subst; apply slt_irrefl|]. destruct H2 as [H2 _]. by apply slt_asym. }
    apply elem_of_cons in Hin as [->|Hin]; [done|]. apply Hk0. transitivity k; [by apply Hk|done]. }
  rewrite !fmap_app, List.filter_app, Hf1, (filter_none _ ls2.*2.*1), app_nil_r, !length_fmap.
  2: { intros x Hx. apply Z.ltb_ge. apply Hge in Hx. unfold slt in Hx. lia. }
  destruct ls2 as [|[l [k v]] ls2].
  - rewrite <-fmap_app, (not_elem_of_list_to_map_1 _ _ H2). done.
  - rewrite <-fmap_app. destruct (strcmp k key =? 0).
    + subst k.
      assert ((list_to_map (ls1 ++ (l, (key, v)) :: ls2).*2 : gmap cstr ptr) !! key = Some v) as ->.
      { apply elem_of_list_to_map_1; [by apply ksorted_NoDup|]. rewrite fmap_app, elem_of_app. right. by left. }
      split; [done|]. intros ? [= <-]. simpl. eexists. split; [by eapply dseg_lookup|done].
    + destruct H2 as [_ H2]. rewrite (not_elem_of_list_to_map_1 _ _ H2). done.
Qed.

Section run.
Context (alloc : heap (dnode (cstr * ptr)) → loc).
Context (alloc_fresh : ∀ h, h !! alloc h = None).

Lemma store_exec_sim s m c :
  st_rep s m →
  ∃ s', store_exec alloc s c = Some ((smap_exec m c).1, s') ∧ st_rep s' (smap_exec m c).2.
Proof using alloc_fresh.
  intros Hr. destruct c as [mem k d|k|k|k|k|k]; cbn [store_exec smap_exec].
  - destruct mem; [|by exists s].
    destruct (st_rep_put s m k d _ Hr (alloc_fresh _)) as (s' & -> & Hr' & _). by exists s'.
  - unfold OSStore_Get. destruct (st_rep_seek s m k Hr) as (cur & -> & Hv). cbn [mbind option_bind].
    destruct (m !! k) as [v|].
    + destruct (Hv v eq_refl) as (n & -> & <-). eexists. split; [done|]. by apply st_rep_cur.
    + eexists. split; [done|]. by apply st_rep_cur.
  - unfold OSStore_Check. destruct (st_rep_seek s m k Hr) as (cur & -> & _). cbn [mbind option_bind].
    eexists. split; [by destruct (m !! k)|]. by apply st_rep_cur.
  - unfold OSStore_GetPosition. destruct (st_rep_seek s m k Hr) as (cur & -> & _). cbn [mbind option_bind].
    eexists. split; [by destruct (m !! k)|]. by apply st_rep_cur.
  - pose proof Hr as (ls & Hl & Hso & ->). rewrite ksorted_keys_of by done.
    destruct (ncheck_spec s ls Hl Hso k) as [cur ->]. eexists. split; [done|]. by apply st_rep_cur.
  - pose proof Hr as (ls & Hl & Hso & ->). rewrite ksorted_keys_of by done.
    destruct (ncase_spec s ls Hl k) as [cur ->]. eexists. split; [done|]. by apply st_rep_cur.
Qed.

Lemma store_run_sim s m cs :
  st_rep s m → ∃ s', store_run alloc s cs = Some ((smap_run m cs).1, s') ∧ st_rep s' (smap_run m cs).2.
Proof using alloc_fresh.
  revert s m. induction cs as [|c cs IH]; intros s m Hr; simpl; [by exists s|].
  destruct (store_exec_sim s m c Hr) as (s1 & -> & Hr1). simpl.
  destruct (smap_exec m c) as [r m1]. simpl in *. destruct (IH s1 m1 Hr1) as (s2 & -> & Hr2). simpl.
  destruct (smap_run m1 cs) as [rs m2]. by exists s2.
Qed.
End run.

(** C25: Every sequence of insertions and searches of a new store is free of
    undefined behaviour and returns what the same calls return on a finite
    map: a present key is kept as it is, the position is the rank of the key,
    and the prefix checks, early exit included, find a stored key that is a
    prefix of the argument exactly when there is one. *)
Theorem OSStore_refines_map alloc cs :
  (∀ h : heap (dnode (cstr * ptr)), h !! alloc h = None) →
  ∃ s0 s, OSStore_Create true = Some s0 ∧ store_run alloc s0 cs = Some ((smap_run ∅ cs).1, s) ∧
          st_rep s (smap_run ∅ cs).2.
Proof.
  intros Ha. eexists. destruct (store_run_sim alloc Ha (OSStore NULL NULL NULL 0 0 false ∅) ∅ cs) as (s & H1 & H2).
  - exists []. split; [split; [apply dll_nil|done]|]. split; [constructor|done].
  - by exists s.
Qed.

Lemma OSStore_refines_map_witness :
  ∃ s0 s, OSStore_Create true = Some s0 ∧
    store_run (λ h, fresh (dom h)) s0
      [SPut true [98] NULL; SPut true [97; 98] (Some 5%positive); SPut false [99] NULL; SPut true [98] (Some 7%positive);
       SGet [97; 98]; SPosition [98]; SNCheck [97; 98; 99]; SNCaseCheck [66; 66]; SCheck [99]] =
    Some ([SRes 1 NULL; SRes 1 NULL; SRes 0 NULL; SRes 1 NULL; SRes 0 (Some 5%positive);
           SRes 2 NULL; SRes 1 NULL; SRes 1 NULL; SRes 0 NULL], s).
Proof.
  destruct (OSStore_refines_map (λ h, fresh (dom h))
    [SPut true [98] NULL; SPut true [97; 98] (Some 5%positive); SPut false [99] NULL; SPut true [98] (Some 7%positive);
     SGet [97; 98]; SPosition [98]; SNCheck [97; 98; 99]; SNCaseCheck [66; 66]; SCheck [99]]) as (s0 & s & H1 & H2 & _).
  - intros h. apply not_elem_of_dom, is_fresh.
  - exists s0, s. split; [exact H1|]. rewrite H2. vm_compute. reflexivity.
Defined.

(** * Sorting *)

(** A store through a pointer leaves the segments without its node alone. *)
Definition keeps_others {A} (x : loc) (h h' : heap (dnode A)) : Prop :=
  dom h' = dom h ∧ (∀ j, j ≠ x → h' !! j = h !! j) ∧
  (∀ q ls m, x ∉ ls.*1 → dseg h q ls m → dseg h' q ls m).

Lemma keeps_insert {A} x (h : heap (dnode A)) n n' : h !! x = Some n → keeps_others x h (<[x := n']> h).
Proof.
  intros Hx. split_and!.
  - by erewrite dom_store.
  - intros j Hj. by apply lookup_insert_ne.
  - intros q ls m Hni. by apply dseg_insert.
Qed.

Lemma store_last_next {A} (h : heap (dnode A)) p P e ea n n' :
  dseg h p (P ++ [(e, ea)]) n → e ∉ P.*1 →
  ∃ h', store h (Some e) (set_next n') = Some h' ∧ dseg h' p (P ++ [(e, ea)]) n' ∧ keeps_others e h h'.
Proof.
  intros Hs Hni. pose proof (dseg_lookup _ _ _ _ _ [] _ Hs) as He.
  rewrite (store_Some _ _ _ _ He). eexists. split; [done|]. split; [|by eapply keeps_insert].
  by eapply dseg_set_next.
Qed.

Lemma store_first_prev {A} (h : heap (dnode A)) p p' r rb R n :
  dseg h p ((r, rb) :: R) n → r ∉ R.*1 →
  ∃ h', store h (Some r) (set_prev p') = Some h' ∧ dseg h' p' ((r, rb) :: R) n ∧ keeps_others r h h'.
Proof.
  intros Hs Hni. pose proof Hs as [Hr _]. rewrite (store_Some _ _ _ _ Hr). eexists. split; [done|].
  split; [|by eapply keeps_insert]. simpl. rewrite lookup_insert_eq. split; [done|].
  apply dseg_insert; [done|]. by destruct Hs.
Qed.

Lemma last_split {A} (P : list (loc * A)) : P ≠ [] → ∃ P0 e ea, P = P0 ++ [(e, ea)].
Proof. intros Hne. destruct P as [|[e ea] P0 _] using rev_ind; [done|]. eauto. Qed.

(** The unlinking of the current node: [P] before it, [R] after it. *)
Lemma sort_unlink_spec s p P c a R n :
  dseg (os_nodes s) p P (Some c) → dseg (os_nodes s) (Some c) R NULL → P ≠ [] →
  NoDup (P ++ R).*1 → c ∉ (P ++ R).*1 →
  os_last s = last_ptr ((c, a) :: R) NULL →
  n = DNode (last_ptr P p) (hd_ptr R NULL) a →
  ∃ h, sort_unlink s n = Some (last_ptr R (last_ptr P p), h) ∧
    dseg h p P (hd_ptr R NULL) ∧ dseg h (last_ptr P p) R NULL ∧ dom h = dom (os_nodes s) ∧
    (∀ j, j ∉ (P ++ R).*1 → h !! j = os_nodes s !! j) ∧
    (∀ q ls m, (∀ j, j ∈ ls.*1 → j ∉ (P ++ R).*1) → dseg (os_nodes s) q ls m → dseg h q ls m).
Proof.
  intros HP HR Hne Hnd Hc Hla ->. destruct (last_split P Hne) as (P0 & e & ea & ->).
  rewrite !fmap_app in *. cbn [fmap list_fmap fst] in *. rewrite last_ptr_snoc in *.
  pose proof Hnd as (HndP & HndR & Hdj)%NoDup_app_inv. apply NoDup_snoc in HndP as [_ Hne0].
  assert (e ∉ R.*1) as HeR. { apply Hdj. rewrite elem_of_app. right. by left. }
  unfold sort_unlink. cbn [dn_prev dn_next].
  destruct (store_last_next _ _ _ _ _ _ (hd_ptr R NULL) HP Hne0) as (h1 & -> & HP1 & Hd1 & Hag1 & Hk1).
  cbn [mbind option_bind]. destruct R as [|[r rb] R].
  - cbn [hd_ptr]. exists h1. split; [done|]. split; [done|]. split; [done|]. split; [done|]. split.
    + intros j Hj. apply Hag1. intros ->. apply Hj. rewrite elem_of_app, elem_of_app. left. right. by left.
    + intros q ls m Hdis. apply Hk1. intros Hin. apply (Hdis e Hin). rewrite !elem_of_app. left. right. by left.
  - cbn [hd_ptr]. simpl in HndR. apply NoDup_cons in HndR as [HrR HndR].
    apply (Hk1 _ _ _ HeR) in HR. 
    destruct (store_first_prev _ _ (Some e) _ _ _ _ HR HrR) as (h2 & -> & HR2 & Hd2 & Hag2 & Hk2).
    cbn [mbind option_bind]. exists h2. split; [by rewrite Hla, !last_ptr_cons|].
    assert (r ∉ (P0 ++ [(e, ea)]).*1) as HrP.
    { rewrite fmap_app. intros Hin. apply (Hdj r Hin). by left. }
    split; [by apply Hk2|]. split; [done|]. split; [congruence|]. split.
    + intros j Hj. rewrite Hag2, Hag1; [done| |].
      * intros ->. apply Hj. rewrite !elem_of_app. left. right. by left.
      * intros ->. apply Hj. rewrite !elem_of_app. right. by left.
    + intros q ls m Hdis Hls. apply Hk2; [|apply Hk1; [|done]].
      * intros Hin. apply (Hdis r Hin). rewrite !elem_of_app. right. by left.
      * intros Hin. apply (Hdis e Hin). rewrite !elem_of_app. left. right. by left.
Qed.

Section sort.
Context (sort : ptr → ptr → bool).

Lemma sort_back_spec fuel h p P m data :
  dseg h p P m → (length P < fuel)%nat → p = NULL →
  ∃ P1 P2, P = P1 ++ P2 ∧ Forall (λ e, sort data e.2.2 = true) P2 ∧
    (∀ e, last P1 = Some e → sort data e.2.2 = false) ∧
    sort_back sort fuel h data (last_ptr P NULL) = Some (last_ptr P1 NULL).
Proof.
  intros Hs Hf ->. revert fuel m Hs Hf. induction P as [|[l [k v]] P IH] using rev_ind; intros fuel m Hs Hf.
  - exists [], []. split_and!; [done|constructor|done|]. by destruct fuel.
  - rewrite length_app in Hf. simpl in Hf. destruct fuel as [|fuel]; [lia|].
    rewrite last_ptr_snoc. cbn [sort_back load]. pose proof (dseg_lookup _ _ _ _ _ [] _ Hs) as Hl. rewrite Hl.
    cbn [mbind option_bind dn_val dn_prev snd]. destruct (sort data v) eqn:E.
    + apply dseg_app in Hs as [Hs _].
      destruct (IH fuel _ Hs ltac:(lia)) as (P1 & P2 & -> & H1 & H2 & Hb).
      exists P1, (P2 ++ [(l, (k, v))]). split_and!; [by rewrite app_assoc| |done|done].
      apply Forall_app. split; [done|]. by repeat constructor.
    + exists (P ++ [(l, (k, v))]), []. split_and!; [by rewrite app_nil_r|constructor| |by rewrite last_ptr_snoc].
      intros e. rewrite last_snoc. by intros [= <-].
Qed.

(** Relinking the node [c] between [q] and [f]. *)
Lemma relink_mid (h : heap (dnode (cstr * ptr))) P1 q qa f fa P2 c nc R :
  dseg h NULL (P1 ++ [(q, qa)]) (Some f) → dseg h (Some q) ((f, fa) :: P2) (hd_ptr R NULL) →
  dseg h (last_ptr ((f, fa) :: P2) NULL) R NULL → h !! c = Some nc →
  NoDup (((P1 ++ [(q, qa)]) ++ (f, fa) :: P2) ++ R).*1 → c ∉ (((P1 ++ [(q, qa)]) ++ (f, fa) :: P2) ++ R).*1 →
  ∃ h', (m ← load h (Some q);
         h ← store h (Some c) (set_next (dn_next m));
         h ← store h (Some c) (set_prev (Some q));
         h ← match dn_next m with
             | Some _ => store h (dn_next m) (set_prev (Some c))
             | None => Some h
             end;
         store h (Some q) (set_next (Some c))) = Some h' ∧ dom h' = dom h ∧
    dseg h' NULL ((P1 ++ [(q, qa)]) ++ (c, dn_val nc) :: ((f, fa) :: P2) ++ R) NULL.
Proof.
  intros HP1 HP2 HR Hc Hnd Hni. rewrite !fst_fmap_app in *. cbn [fmap list_fmap fst] in *.
  pose proof (dseg_lookup _ _ _ _ _ [] _ HP1) as Hq. cbn [load]. rewrite Hq. cbn [mbind option_bind dn_next hd_ptr].
  apply not_elem_of_app in Hni as [HniP HniR]. apply not_elem_of_app in HniP as [HniP HniP2].
  pose proof Hnd as (HndPP & HndR & HdjR)%NoDup_app_inv.
  pose proof HndPP as (HndP & HndP2 & HdjP)%NoDup_app_inv.
  apply NoDup_snoc in HndP as [_ Hqn]. pose proof HndP2 as [HfP2 HndP2']%NoDup_cons.
  assert (q ∈ P1.*1 ++ [q]) as Hqin by (rewrite elem_of_app; right; by left).
  rewrite (store_Some _ _ _ _ Hc). cbn [mbind option_bind].
  rewrite (store_Some (<[c := _]> h) c _ _ (lookup_insert_eq _ _ _)). cbn [mbind option_bind]. rewrite insert_insert_eq.
  set (h1 := <[c := _]> h).
  assert (dom h1 = dom h ∧ h1 !! c = Some (DNode (Some q) (Some f) (dn_val nc))) as [Hd1 Hc1].
  { split; [by unfold h1; erewrite dom_store|unfold h1; by rewrite lookup_insert_eq]. }
  assert (dseg h1 NULL (P1 ++ [(q, qa)]) (Some f)) as HP1' by (apply dseg_insert; [by rewrite fst_fmap_app|done]).
  assert (dseg h1 (Some q) ((f, fa) :: P2) (hd_ptr R NULL)) as HP2' by (by apply dseg_insert).
  assert (dseg h1 (last_ptr ((f, fa) :: P2) NULL) R NULL) as HR' by (by apply dseg_insert).
  clearbody h1.
  destruct (store_first_prev _ _ (Some c) _ _ _ _ HP2' HfP2) as (h2 & -> & HP2'' & Hd2 & Hag2 & Hk2).
  cbn [mbind option_bind].
  assert (f ∉ (P1 ++ [(q, qa)]).*1) as HfP.
  { rewrite fst_fmap_app. intros Hin. apply (HdjP f Hin). by left. }
  apply (Hk2 _ _ _ HfP) in HP1'.
  destruct (store_last_next _ _ _ _ _ _ (Some c) HP1' Hqn) as (h3 & -> & HP1'' & Hd3 & Hag3 & Hk3).
  exists h3. split; [done|]. split; [congruence|]. rewrite dseg_app. split; [done|].
  rewrite last_ptr_snoc. cbn [dseg]. split.
  - rewrite Hag3, Hag2; [done| |].
    + intros ->. apply HniP2. by left.
    + intros ->. done.
  - rewrite dseg_app. split.
    + apply Hk3; [|done]. by apply HdjP.
    + apply Hk3; [apply HdjR; rewrite elem_of_app; by left|]. apply Hk2; [apply HdjR; rewrite elem_of_app; right; by left|].
      by rewrite last_ptr_cons in *.
Qed.

(** Relinking the node [c] in front of the list. *)
Lemma relink_first (h : heap (dnode (cstr * ptr))) f fa P2 c nc R :
  dseg h NULL ((f, fa) :: P2) (hd_ptr R NULL) →
  dseg h (last_ptr ((f, fa) :: P2) NULL) R NULL → h !! c = Some nc →
  NoDup (((f, fa) :: P2) ++ R).*1 → c ∉ (((f, fa) :: P2) ++ R).*1 →
  ∃ h', (h ← store h (Some c) (set_prev NULL);
         h ← store h (Some c) (set_next (Some f));
         store h (Some f) (set_prev (Some c))) = Some h' ∧ dom h' = dom h ∧
    dseg h' NULL ((c, dn_val nc) :: ((f, fa) :: P2) ++ R) NULL.
Proof.
  intros HP2 HR Hc Hnd Hni. rewrite !fst_fmap_app in *. cbn [fmap list_fmap fst] in *.
  apply not_elem_of_app in Hni as [HniP2 HniR]. pose proof Hnd as (HndP2 & HndR & HdjR)%NoDup_app_inv.
  pose proof HndP2 as [HfP2 HndP2']%NoDup_cons.
  rewrite (store_Some _ _ _ _ Hc). cbn [mbind option_bind].
  rewrite (store_Some (<[c := _]> h) c _ _ (lookup_insert_eq _ _ _)). cbn [mbind option_bind]. rewrite insert_insert_eq.
  set (h1 := <[c := _]> h).
  assert (dom h1 = dom h ∧ h1 !! c = Some (DNode NULL (Some f) (dn_val nc))) as [Hd1 Hc1].
  { split; [by unfold h1; erewrite dom_store|unfold h1; by rewrite lookup_insert_eq]. }
  assert (dseg h1 NULL ((f, fa) :: P2) (hd_ptr R NULL)) as HP2' by (by apply dseg_insert).
  assert (dseg h1 (last_ptr ((f, fa) :: P2) NULL) R NULL) as HR' by (by apply dseg_insert).
  clearbody h1.
  destruct (store_first_prev _ _ (Some c) _ _ _ _ HP2' HfP2) as (h2 & -> & HP2'' & Hd2 & Hag2 & Hk2).
  exists h2. split; [done|]. split; [congruence|]. cbn [dseg]. split.
  - rewrite Hag2; [done|]. intros ->. apply HniP2. by left.
  - rewrite dseg_app. split; [done|]. apply Hk2; [apply HdjR; by left|]. by rewrite last_ptr_cons in *.
Qed.

(** The three cases of the body move the current node [c] over [P2]. *)
Lemma sort_body_spec fuel s P c a R :
  st_links s (P ++ (c, a) :: R) → os_cur s = Some c → (length P < fuel)%nat →
  ∃ P1 P2 s', P = P1 ++ P2 ∧ Forall (λ e, sort a.2 e.2.2 = true) P2 ∧
    (∀ e, last P1 = Some e → sort a.2 e.2.2 = false) ∧
    sort_body sort fuel s = Some s' ∧ st_links s' (P1 ++ (c, a) :: P2 ++ R) ∧
    os_cur s' = hd_ptr R NULL ∧ os_size s' = os_size s.
Proof.
  intros Hlk Hcur Hfu. pose proof Hlk as ((Hnd & Hd & Hs) & Hf & Hla). pose proof (dseg_lookup _ _ _ _ _ _ _ Hs) as Hc.
  pose proof Hs as [HsP [_ HsR]]%dseg_app. cbn [hd_ptr] in HsP.
  unfold sort_body. rewrite Hcur. cbn [load]. rewrite Hc. cbn [mbind option_bind dn_val dn_prev].
  destruct (sort_back_spec fuel _ _ _ _ a.2 HsP Hfu eq_refl) as (P1 & P2 & -> & H2 & H1 & ->).
  cbn [mbind option_bind]. exists P1, P2.
  rewrite fst_fmap_app in Hnd. simpl in Hnd. apply NoDup_middle in Hnd as (Hnd & HcP & HcR).
  destruct (decide (P2 = [])) as [->|Hne2].
  { (* the node stays *)
    rewrite !app_nil_r in *. exists (with_cur s (hd_ptr R NULL)). split_and!; try done.
    assert (match last_ptr P1 NULL with
            | Some _ => if ptr_eqb (last_ptr P1 NULL) (last_ptr P1 NULL) then Some s else None
            | None => if ptr_eqb (Some c) (os_first s) then Some s else None
            end = Some s) as Hstay.
    { destruct (last_ptr P1 NULL) as [q|] eqn:Eq; [by rewrite ptr_eqb_refl|].
      destruct P1 as [|[q qa] P1' _] using rev_ind; [|by rewrite last_ptr_snoc in Eq].
      rewrite Hf. simpl. by rewrite ptr_eqb_refl. }
    destruct (last_ptr P1 NULL) as [q|]; cbn iota.
    - rewrite ptr_eqb_refl. cbn [mbind option_bind]. rewrite Hcur. cbn [load]. by rewrite Hc.
    - destruct (ptr_eqb (Some c) (os_first s)); [|done]. cbn [mbind option_bind]. rewrite Hcur. cbn [load]. by rewrite Hc. }
  assert (last_ptr (P1 ++ P2) NULL = last_ptr P2 NULL ∧ ∃ e ea, last P2 = Some (e, ea)) as [Hlp (e & ea & Hlast)].
  { destruct (last_split P2 Hne2) as (P0 & e & ea & ->). rewrite app_assoc, !last_ptr_snoc, last_snoc. eauto. }
  assert (P1 ++ P2 ≠ []) as HneP by (intros [_ ?]%app_eq_nil; done).
  set (n := DNode (last_ptr (P1 ++ P2) NULL) (hd_ptr R NULL) a) in *.
  destruct (sort_unlink_spec s NULL (P1 ++ P2) c a R n HsP HsR HneP) as
    (h & Hun & HPh & HRh & Hdh & Hag & _); [by rewrite fst_fmap_app| |by rewrite Hla, last_ptr_app, !last_ptr_cons|done|].
  { rewrite fst_fmap_app. apply not_elem_of_app. by split. }
  pose proof HPh as [HP1 HP2]%dseg_app.
  assert (hd_ptr P2 (hd_ptr R NULL) = hd_ptr P2 NULL) as Hhd by (by destruct P2 as [|[]]). rewrite Hhd in HP1.
  destruct P2 as [|[f fa] P2]; [done|]. cbn [hd_ptr] in HP1.
  assert (c ∉ ((P1 ++ (f, fa) :: P2) ++ R).*1) as Hni.
  { rewrite fst_fmap_app. apply not_elem_of_app. by split. }
  assert (h !! c = Some n) as Hch by (by rewrite Hag).
  assert (NoDup ((P1 ++ (f, fa) :: P2) ++ R).*1) as HndA by (by rewrite fst_fmap_app).
  assert (dom h = list_to_set (P1 ++ (c, a) :: ((f, fa) :: P2) ++ R).*1) as HdA.
  { rewrite Hdh, Hd. rewrite !fst_fmap_app. simpl. rewrite !fst_fmap_app. set_solver. }
  assert (NoDup (P1 ++ (c, a) :: ((f, fa) :: P2) ++ R).*1) as HndB.
  { rewrite fst_fmap_app. simpl. rewrite <-app_assoc in HndA, Hni. rewrite fst_fmap_app in HndA, Hni. simpl in *.
    apply NoDup_middle. split; [done|]. by apply not_elem_of_app. }
  assert (last_ptr R (last_ptr (P1 ++ (f, fa) :: P2) NULL) =
          last_ptr (P1 ++ (c, a) :: ((f, fa) :: P2) ++ R) NULL) as HlaB.
  { by rewrite !last_ptr_app, !last_ptr_cons, last_ptr_app, last_ptr_cons. }
  assert (∀ h', dseg h' NULL (P1 ++ (c, a) :: ((f, fa) :: P2) ++ R) NULL →
    ∃ nd, h' !! e = Some nd ∧ dn_next nd = hd_ptr R NULL) as Hnext.
  { intros h' Hs'. destruct (last_split ((f, fa) :: P2) ltac:(done)) as (P0 & e' & ea' & Ep).
    rewrite Ep in Hlast, Hs'. rewrite last_snoc in Hlast. injection Hlast as -> ->.
    rewrite <-app_assoc in Hs'. simpl in Hs'. rewrite (app_comm_cons P0), app_assoc in Hs'.
    apply dseg_lookup in Hs'. eauto. }
  assert (last_ptr (P1 ++ (f, fa) :: P2) NULL = Some e) as Hprev.
  { rewrite Hlp. unfold last_ptr. by rewrite Hlast. }
  cbn [dn_prev] in *.
  destruct P1 as [|[q qa] P1 _] using rev_ind.
  - (* to the front *)
    cbn [last_ptr last app] in *. rewrite Hf. cbn [hd_ptr app].
    assert (ptr_eqb (Some c) (Some f) = false) as ->.
    { apply ptr_eqb_neq. intros [= ->]. apply HcP. by left. }
    rewrite Hun. cbn [mbind option_bind]. rewrite Hprev in HlaB |- *.
    destruct (relink_first h f fa P2 c n R HP2 HRh Hch HndA Hni) as (h' & Hre & Hd' & Hs').
    revert Hre. destruct (store h (Some c) (set_prev NULL)) as [h1|]; [|done]. cbn [mbind option_bind].
    destruct (store h1 (Some c) (set_next (Some f))) as [h2|]; [|done]. cbn [mbind option_bind]. intros ->.
    cbn [mbind option_bind with_list os_cur os_nodes load].
    destruct (Hnext h' Hs') as (nd & Hnd' & Hnx). rewrite Hnd'. cbn [mbind option_bind]. rewrite Hnx. eexists. split_and!; try done.
    split_and!; simpl; [|done|exact HlaB]. split_and!; [done|by rewrite Hd', HdA|done].
  - (* after movenode *)
    rewrite last_ptr_snoc.
    assert (ptr_eqb (Some q) (last_ptr ((P1 ++ [(q, qa)]) ++ (f, fa) :: P2) NULL) = false) as ->.
    { apply ptr_eqb_neq. rewrite Hprev. intros [= ->].
      rewrite !fst_fmap_app in HndA. apply NoDup_app_inv in HndA as (HndA & _). apply NoDup_app_inv in HndA as (_ & _ & Hdj).
      apply (Hdj e); [rewrite elem_of_app; right; by left|]. apply list_elem_of_fmap. exists (e, ea). split; [done|].
      apply last_Some in Hlast as [? ->]. apply elem_of_app. right. by left. }
    rewrite Hun. cbn [mbind option_bind]. rewrite Hprev in HlaB |- *. rewrite last_ptr_snoc in HP2.
    rewrite Hlp in HRh.
    destruct (relink_mid h P1 q qa f fa P2 c n R HP1 HP2 HRh Hch HndA Hni) as (h' & Hre & Hd' & Hs').
    revert Hre. destruct (load h (Some q)) as [m|]; [|done]. cbn [mbind option_bind].
    destruct (store h (Some c) (set_next (dn_next m))) as [h1|]; [|done]. cbn [mbind option_bind].
    destruct (store h1 (Some c) (set_prev (Some q))) as [h2|]; [|done]. cbn [mbind option_bind].
    destruct (match dn_next m with Some _ => _ | None => _ end) as [h3|]; [|done]. cbn [mbind option_bind]. intros ->.
    cbn [mbind option_bind]. cbn [with_list os_cur os_nodes load].
    destruct (Hnext h' Hs') as (nd & Hnd' & Hnx). rewrite Hnd'. cbn [mbind option_bind]. rewrite Hnx.
    eexists. split_and!; try done. split_and!; simpl; [|rewrite Hf; by destruct P1 as [|[]]|].
    + split_and!; [done|by rewrite Hd', HdA|done].
    + exact HlaB.
Qed.

(** A stable insertion sort on lists: [place a] puts [a] after the last
    element it does not go before. *)
Fixpoint place_rev (a : loc * (cstr * ptr)) (r : snodes) : snodes :=
  match r with
  | [] => [a]
  | e :: r' => if sort a.2.2 e.2.2 then e :: place_rev a r' else a :: e :: r'
  end.
Definition place (a : loc * (cstr * ptr)) (P : snodes) : snodes := rev (place_rev a (rev P)).
Definition isort (ls : snodes) : snodes := foldl (λ P a, place a P) [] ls.

Lemma place_split a P1 P2 :
  Forall (λ e, sort a.2.2 e.2.2 = true) P2 → (∀ e, last P1 = Some e → sort a.2.2 e.2.2 = false) →
  place a (P1 ++ P2) = P1 ++ a :: P2.
Proof.
  intros H2 H1. unfold place. rewrite rev_app_distr.
  assert (∀ r Q, Forall (λ e, sort a.2.2 e.2.2 = true) r →
    place_rev a (r ++ Q) = r ++ place_rev a Q) as Hskip.
  { intros r Q. induction 1 as [|e r He _ IH]; simpl; [done|]. by rewrite He, IH. }
  rewrite Hskip by (by apply Forall_rev). rewrite rev_app_distr, rev_involutive.
  destruct P1 as [|e P1 _] using rev_ind; [done|]. rewrite rev_app_distr. simpl.
  rewrite (H1 e) by apply last_snoc. simpl. rewrite rev_involutive, <-!app_assoc. done.
Qed.

Lemma sort_loop_spec inner : ∀ fuel s P R,
  st_links s (P ++ R) → os_cur s = hd_ptr R NULL → (length R < fuel)%nat → (length (P ++ R) < inner)%nat →
  ∃ s', sort_loop sort fuel inner s = Some s' ∧ st_links s' (foldl (λ P a, place a P) P R) ∧
        os_size s' = os_size s.
Proof.
  intros fuel s P R. revert fuel s P. induction R as [|[c a] R IH]; intros fuel s P Hl Hcur Hf Hi.
  - rewrite app_nil_r in Hl. exists s. destruct fuel; simpl; rewrite Hcur; done.
  - destruct fuel as [|fuel]; [simpl in Hf; lia|]. simpl in Hf. simpl. rewrite Hcur. cbn [hd_ptr].
    rewrite length_app in Hi. simpl in Hi.
    destruct (sort_body_spec inner s P c a R Hl Hcur ltac:(lia))
      as (P1 & P2 & s1 & -> & H2 & H1 & -> & Hl1 & Hc1 & Hs1). cbn [mbind option_bind].
    rewrite (place_split (c, a) P1 P2 H2 H1). rewrite <-Hs1. apply IH; [|done|lia|].
    + by rewrite <-app_assoc.
    + rewrite !length_app in *. simpl. lia.
Qed.

Context (asym : ∀ x y, sort x y = true → sort y x = false).
Context (ntrans : ∀ x y z, sort z y = false → sort y x = false → sort z x = false).
Definition goes_after (x y : loc * (cstr * ptr)) : Prop := sort y.2.2 x.2.2 = false.

Lemma ss_app {A} (R : A → A → Prop) xs ys :
  StronglySorted R (xs ++ ys) ↔
  StronglySorted R xs ∧ StronglySorted R ys ∧ (∀ x y, x ∈ xs → y ∈ ys → R x y).
Proof.
  induction xs as [|x xs IH]; simpl.
  - split; [intros H; split_and!; [constructor|done|by intros ? ? ?%not_elem_of_nil]|naive_solver].
  - split.
    + intros [H1 H2]%StronglySorted_inv. apply IH in H1 as (? & ? & H3). apply Forall_app in H2 as [? H2].
      rewrite Forall_forall in H2. split_and!; [by constructor|done|]. intros y z [->|]%elem_of_cons Hz; auto.
    + intros ([H1 H2]%StronglySorted_inv & H3 & H4). constructor.
      * apply IH. split_and!; [done|done|]. intros. apply H4; [by right|done].
      * apply Forall_app. split; [done|]. apply Forall_forall. intros. apply H4; [by left|done].
Qed.

Lemma place_sorted a P : StronglySorted goes_after P → StronglySorted goes_after (place a P).
Proof using asym ntrans.
  assert (∃ P1 P2, P = P1 ++ P2 ∧ Forall (λ e, sort a.2.2 e.2.2 = true) P2 ∧
    (∀ e, last P1 = Some e → sort a.2.2 e.2.2 = false)) as (P1 & P2 & -> & H2 & H1).
  { induction P as [|e P (P1 & P2 & -> & H2 & H1)] using rev_ind; [by exists [], []|].
    destruct (sort a.2.2 e.2.2) eqn:E.
    - exists P1, (P2 ++ [e]). split_and!; [by rewrite app_assoc| |done]. apply Forall_app. split; [done|]. by repeat constructor.
    - exists ((P1 ++ P2) ++ [e]), []. split_and!; [by rewrite app_nil_r|constructor|].
      intros e'. rewrite last_snoc. by intros [= <-]. }
  rewrite (place_split a P1 P2 H2 H1). intros (S1 & S2 & S12)%ss_app. rewrite Forall_forall in H2.
  apply ss_app. split_and!; [done| |].
  - constructor; [done|]. apply Forall_forall. intros e He. by apply asym, H2.
  - intros x y Hx [->|Hy]%elem_of_cons; [|by apply S12].
    destruct P1 as [|e P1 _] using rev_ind; [by apply not_elem_of_nil in Hx|].
    pose proof (H1 e (last_snoc _ _)) as He. unfold goes_after.
    apply elem_of_app in Hx as [Hx|Hx%list_elem_of_singleton]; [|by subst].
    apply (ntrans _ e.2.2); [done|]. apply ss_app in S1 as (_ & _ & S1). apply (S1 x e Hx). by left.
Qed.

Lemma isort_sorted ls : StronglySorted goes_after (isort ls).
Proof using asym ntrans.
  unfold isort. assert (StronglySorted goes_after []) as H by constructor. revert H.
  generalize ([] : snodes). induction ls as [|a ls IH]; intros P H; simpl; [done|].
  apply IH. by apply place_sorted.
Qed.
End sort.

Lemma place_perm sort a P : place sort a P ≡ₚ a :: P.
Proof.
  unfold place. assert (place_rev sort a (rev P) ≡ₚ a :: rev P) as H.
  { induction (rev P) as [|e r IH]; simpl; [done|]. destruct (sort a.2.2 e.2.2); [|done].
    rewrite IH. apply Permutation_swap. }
  rewrite <-Permutation_rev, H, <-Permutation_rev. done.
Qed.

Lemma isort_perm sort ls : isort sort ls ≡ₚ ls.
Proof.
  unfold isort. assert (∀ P, foldl (λ P a, place sort a P) P ls ≡ₚ P ++ ls) as H; [|apply (H [])].
  induction ls as [|a ls IH]; intros P; simpl; [by rewrite app_nil_r|].
  rewrite IH, place_perm. simpl. by rewrite Permutation_middle.
Qed.

(** [OSStore_Sort] ends and is a stable insertion sort of the nodes: no entry
    is lost, and with a comparison that is a strict weak order every entry is
    followed only by entries that do not go before it. *)
Theorem OSStore_Sort_correct sort s ls :
  (∀ x y, sort x y = true → sort y x = false) →
  (∀ x y z, sort z y = false → sort y x = false → sort z x = false) →
  st_links s ls →
  ∃ s', OSStore_Sort sort s = Some (1, s') ∧ st_links s' (isort sort ls) ∧
    isort sort ls ≡ₚ ls ∧ StronglySorted (goes_after sort) (isort sort ls) ∧ os_size s' = os_size s.
Proof.
  intros Ha Hn Hl. unfold OSStore_Sort. pose proof (st_fuel s ls Hl) as Hf.
  destruct (sort_loop_spec sort (S (size (os_nodes s))) (S (size (os_nodes s))) (with_cur s (os_first s)) [] ls)
    as (s' & -> & Hl' & Hs'); [done|by destruct Hl as (_ & ? & _)|done|done|].
  exists s'. split_and!; try done; [apply isort_perm|by apply isort_sorted].
Qed.

Lemma OSStore_Sort_correct_witness :
  let lt a b := match a, b with Some x, Some y => Pos.ltb x y | None, Some _ => true | _, None => false end in
  ∃ s s', put_all [(1, 30); (2, 20); (3, 10)] (OSStore NULL NULL NULL 0 0 false ∅) = Some s ∧
    OSStore_Sort lt s = Some (1, s') ∧ contents s' = [10; 20; 30].
Proof.
  intros lt. set (mk p n k v := DNode p n ([k], Some v) : dnode (cstr * ptr)).
  set (s := OSStore (Some 30%positive) (Some 10%positive) NULL 3 0 false
    (<[30%positive := mk NULL (Some 20%positive) 1 30%positive]>
     (<[20%positive := mk (Some 30%positive) (Some 10%positive) 2 20%positive]>
      (<[10%positive := mk (Some 20%positive) NULL 3 10%positive]> ∅)))).
  destruct (OSStore_Sort_correct lt s
    [(30%positive, ([1], Some 30%positive)); (20%positive, ([2], Some 20%positive)); (10%positive, ([3], Some 10%positive))])
    as (s' & H & _).
  - intros [x|] [y|]; simpl; try done. rewrite Pos.ltb_lt, Pos.ltb_ge. lia.
  - intros [x|] [y|] [z|]; simpl; try done. rewrite !Pos.ltb_ge. lia.
  - split; [|by split]. split; [|split; [vm_compute; reflexivity|repeat split; vm_compute; reflexivity]].
    simpl. rewrite !NoDup_cons, !not_elem_of_cons. split_and!; try done; try apply not_elem_of_nil. constructor.
  - exists s, s'. split; [vm_compute; reflexivity|]. split; [exact H|]. revert H. vm_compute. intros [= <-]. vm_compute. reflexivity.
Defined.
