(* ===== verification/BQueue.v ===== *)
(** The binary queue of src/shared/bqueue_op.c: a ring of bytes that grows on
    demand up to a maximum, and shrinks when it is mostly empty.

    Pointers into the block are offsets.  A byte of the block is [None] while
    it is uninitialised; a copy outside of the block, an overlapping [memcpy]
    and a remainder by zero are undefined ([None] as a result). *)

From S2P Require Import Prelude Monitor.

Abbreviation cell := (option Z).
Abbreviation block := (list cell).

(** * Memory *)

(** Reading and writing [n] cells at an offset. *)
Definition read_at (m : block) (off n : nat) : option block :=
  if bool_decide (off + n ≤ length m)%nat then Some (take n (drop off m)) else None.
Definition write_at (m : block) (off : nat) (d : block) : option block :=
  if bool_decide (off + length d ≤ length m)%nat
  then Some (take off m ++ d ++ drop (off + length d) m) else None.

(** [memmove] and [memcpy] within the block; [memcpy] must not overlap. *)
Definition memmove (m : block) (dst src n : nat) : option block :=
  d ← read_at m src n; write_at m dst d.
Definition memcpy (m : block) (dst src n : nat) : option block :=
  if bool_decide (dst + n ≤ src)%nat || bool_decide (src + n ≤ dst)%nat || bool_decide (n = 0)%nat
  then memmove m dst src n else None.

(** [os_realloc]: the program ends if there is no memory. *)
Definition realloc (m : block) (n : nat) : block := take n m ++ replicate (n - length m) None.

(** * The queue *)

Definition BQUEUE_WAIT := 1.
Definition BQUEUE_SHRINK := 2.
Definition has_flag (flags f : Z) : bool := negb (Z.land flags f =? 0).

(** [bqueue_t] without its mutex and conditions. *)
Record bqueue := BQueue {
  bq_memory : block;
  bq_head : nat;
  bq_tail : nat;
  bq_length : nat;
  bq_max : Z;
  bq_flags : Z
}.

Definition with_ring (q : bqueue) (m : block) (head tail len : nat) : bqueue :=
  BQueue m head tail len (bq_max q) (bq_flags q).

(** The remainder, undefined for a zero divisor. *)
Definition modulo (a b : nat) : option nat := if bool_decide (b = 0)%nat then None else Some (a mod b)%nat.

(** [bqueue_init] *)
Definition bqueue_init (max_length flags : Z) : option bqueue :=
  if max_length <=? 1 then None else Some (BQueue [] 0 0 0 max_length flags).

(** [_bqueue_used] and [_bqueue_empty] *)
Definition bq_used (q : bqueue) : nat :=
  if (0 <? bq_length q)%nat then ((bq_tail q + bq_length q - bq_head q) mod bq_length q)%nat else 0%nat.
Definition bq_empty (q : bqueue) : bool := bool_decide (bq_head q = bq_tail q).

(** [_bqueue_expand] *)
Definition bq_expand (q : bqueue) (new_length : nat) : option bqueue :=
  let m := realloc (bq_memory q) new_length in
  if (bq_tail q <? bq_head q)%nat then
    let tail_len := bq_tail q in
    let growth := (new_length - bq_length q)%nat in
    if (tail_len <=? growth)%nat then
      m ← memcpy m (bq_length q) 0 tail_len;
      tail ← modulo (bq_length q + tail_len) new_length;
      Some (with_ring q m (bq_head q) tail new_length)
    else
      m ← memcpy m (bq_length q) 0 growth;
      m ← memmove m 0 growth (tail_len - growth);
      Some (with_ring q m (bq_head q) (bq_tail q - growth) new_length)
  else Some (with_ring q m (bq_head q) (bq_tail q) new_length).

(** [_bqueue_shrink] *)
Definition bq_shrink (q : bqueue) (new_length : nat) : option bqueue :=
  '(m, head, tail) ←
    (if bq_empty q then Some (bq_memory q, 0%nat, 0%nat)
     else
       let head_len := bq_head q in
       let tail_len := bq_tail q in
       if (head_len <? tail_len)%nat then
         if (new_length <=? head_len)%nat then
           m ← memcpy (bq_memory q) 0 head_len (tail_len - head_len);
           Some (m, 0%nat, (tail_len - head_len)%nat)
         else if (new_length <=? tail_len)%nat then
           let chunk_len := (tail_len - new_length)%nat in
           m ← memcpy (bq_memory q) 0 (tail_len - chunk_len) chunk_len;
           Some (m, head_len, chunk_len)
         else Some (bq_memory q, head_len, tail_len)
       else
         let new_head := (head_len - (bq_length q - new_length))%nat in
         m ← (if (head_len <? bq_length q - new_length)%nat then None
              else if (head_len <? new_length)%nat
              then memmove (bq_memory q) new_head head_len (bq_length q - head_len)
              else memcpy (bq_memory q) new_head head_len (bq_length q - head_len));
         Some (m, new_head, tail_len));
  Some (with_ring q (realloc m new_length) head tail new_length).

(** [_bqueue_insert] *)
Definition bq_insert (q : bqueue) (data : list Z) : option bqueue :=
  let d := Some <$> data in
  let tail_len := bq_tail q in
  m ← (if (tail_len + length d <=? bq_length q)%nat then write_at (bq_memory q) tail_len d
       else let chunk_len := (bq_length q - tail_len)%nat in
            m ← write_at (bq_memory q) tail_len (take chunk_len d);
            write_at m 0 (drop chunk_len d));
  tail ← modulo (tail_len + length d) (bq_length q);
  Some (with_ring q m (bq_head q) tail (bq_length q)).

(** [_bqueue_extract]: the cells copied to the buffer. *)
Definition bq_extract (q : bqueue) (buffer_len : nat) : option block :=
  if (bq_tail q <? bq_head q)%nat then
    let head_len := (bq_length q - bq_head q)%nat in
    if (buffer_len <? head_len)%nat then read_at (bq_memory q) (bq_head q) buffer_len
    else
      d1 ← read_at (bq_memory q) (bq_head q) head_len;
      d2 ← read_at (bq_memory q) 0 (Nat.min (buffer_len - head_len) (bq_tail q));
      Some (d1 ++ d2)
  else read_at (bq_memory q) (bq_head q) (Nat.min buffer_len (bq_tail q - bq_head q)).

(** [_bqueue_trim] *)
Definition bq_trim (q : bqueue) : bqueue := with_ring q [] 0 0 0.

(** [bqueue_push]: one pass of its critical section. *)
Definition bqueue_push (q : bqueue) (data : list Z) (flags : Z) : option (outcome Z * bqueue) :=
  let n := length data in
  if bq_max q <=? n then Some (Ret (-1), q)
  else
    let used := bq_used q in
    if bq_max q <=? wrap64 (n + used) then
      Some (if has_flag flags BQUEUE_WAIT then Wait else Ret (-1), q)
    else
      q ← (if (bq_length q <=? n + used)%nat then bq_expand q (n + used + 1) else Some q);
      q ← bq_insert q data;
      Some (Ret 0, q).

(** What [bqueue_pop] and [bqueue_drop] do after reading [n] bytes. *)
Definition bq_advance (q : bqueue) (n : nat) : option bqueue :=
  head ← modulo (bq_head q + n) (bq_length q);
  let q := with_ring q (bq_memory q) head (bq_tail q) (bq_length q) in
  if bq_empty q then Some (bq_trim q)
  else if has_flag (bq_flags q) BQUEUE_SHRINK && (bq_used q <? bq_length q / 2)%nat
  then bq_shrink q (bq_length q / 2) else Some q.

(** [bqueue_pop] and [bqueue_peek]: the bytes written to the buffer. *)
Definition bqueue_pop (q : bqueue) (len : nat) (flags : Z) : option (outcome block * bqueue) :=
  if bq_empty q then Some (if has_flag flags BQUEUE_WAIT then Wait else Ret [], q)
  else
    d ← bq_extract q len;
    q ← bq_advance q (length d);
    Some (Ret d, q).
Definition bqueue_peek (q : bqueue) (len : nat) (flags : Z) : option (outcome block * bqueue) :=
  if bq_empty q then Some (if has_flag flags BQUEUE_WAIT then Wait else Ret [], q)
  else d ← bq_extract q len; Some (Ret d, q).

(** [bqueue_drop] *)
Definition bqueue_drop (q : bqueue) (len : nat) : option (Z * bqueue) :=
  if (len <=? bq_used q)%nat then q ← bq_advance q len; Some (0, q) else Some (-1, q).

Definition bqueue_used (q : bqueue) : nat := bq_used q.
Definition bqueue_clear (q : bqueue) : bqueue := bq_trim q.

(** [bqueue_destroy]: the memory of the ring belongs to the struct. *)
Definition bqueue_destroy (h : heap bqueue) (queue : ptr) : option (heap bqueue) := free h queue.

Example bqueue_smoke :
  (q ← bqueue_init 8 BQUEUE_SHRINK;
   '(_, q) ← bqueue_push q [1; 2; 3; 4; 5] 0;
   '(a, q) ← bqueue_pop q 3 0;
   '(_, q) ← bqueue_push q [6; 7; 8] 0;
   '(_, q) ← bqueue_push q [9; 10] 0;
   '(_, q) ← bqueue_push q [11] 0;
   '(b, q) ← bqueue_pop q 100 0;
   Some (a, b)) =
  Some (Ret (Some <$> [1; 2; 3]), Ret (Some <$> [4; 5; 6; 7; 8; 9; 10])).
Proof. vm_compute. reflexivity. Qed.

(** * Representation *)

Lemma read_at_eq m A Y B off n :
  m = A ++ Y ++ B → off = length A → n = length Y → read_at m off n = Some Y.
Proof.
  intros -> -> ->. unfold read_at. rewrite bool_decide_true by (rewrite !length_app; lia).
  by rewrite drop_app_length, take_app_length.
Qed.

Lemma write_at_eq m A Y B off d :
  m = A ++ Y ++ B → off = length A → length d = length Y → write_at m off d = Some (A ++ d ++ B).
Proof.
  intros -> -> Hd. unfold write_at. rewrite bool_decide_true by (rewrite !length_app; lia).
  rewrite take_app_length. do 3 f_equal. rewrite app_assoc, drop_app_length'; [done|].
  rewrite length_app. lia.
Qed.

Lemma split_at {A} (n : nat) (l : list A) :
  (n ≤ length l)%nat → ∃ l1 l2, l = l1 ++ l2 ∧ length l1 = n.
Proof. intros Hn. exists (take n l), (drop n l). rewrite take_drop, length_take. split; [done|lia]. Qed.

(** [xs] lies in the ring in one piece, or in two around the end of the block;
    at least one cell is free. *)
Definition flat_rep (q : bqueue) (xs : block) : Prop :=
  ∃ A B, bq_memory q = A ++ xs ++ B ∧ bq_head q = length A ∧
    bq_tail q = (length A + length xs)%nat ∧ (0 < length B)%nat.
Definition split_rep (q : bqueue) (xs : block) : Prop :=
  ∃ X1 X2 G, bq_memory q = X2 ++ G ++ X1 ∧ xs = X1 ++ X2 ∧ bq_head q = (length X2 + length G)%nat ∧
    bq_tail q = length X2 ∧ (0 < length X1)%nat ∧ (0 < length G)%nat.
Definition ring_rep (q : bqueue) (xs : block) : Prop :=
  length (bq_memory q) = bq_length q ∧
  ((bq_length q = 0%nat ∧ bq_head q = 0%nat ∧ bq_tail q = 0%nat ∧ xs = []) ∨
   flat_rep q xs ∨ split_rep q xs).

Ltac lens := rewrite ?length_app, ?length_take, ?length_drop, ?length_app, ?length_take, ?length_drop, ?length_replicate, ?length_fmap in *; simpl length in *.
Ltac lsolve := lens; lia.

Lemma ring_used q xs : ring_rep q xs → bq_used q = length xs.
Proof.
  intros [Hl [(H0 & _ & _ & ->)|[(A & B & Hm & Hh & Ht & HB)|(X1 & X2 & G & Hm & -> & Hh & Ht & H1 & HG)]]];
    unfold bq_used.
  - by rewrite H0.
  - rewrite Hm in Hl. lens. rewrite Hh, Ht, <-Hl. destruct (Nat.ltb_spec 0 (length A + (length xs + length B))); [|lia].
    replace (length A + length xs + (length A + (length xs + length B)) - length A)%nat
      with (length xs + 1 * (length A + (length xs + length B)))%nat by lia.
    rewrite Nat.Div0.mod_add, Nat.mod_small by lia. done.
  - rewrite Hm in Hl. lens. rewrite Hh, Ht, <-Hl. destruct (Nat.ltb_spec 0 (length X2 + (length G + length X1))); [|lia].
    rewrite Nat.mod_small by lia. lia.
Qed.

Lemma ring_empty q xs : ring_rep q xs → bq_empty q = bool_decide (xs = []).
Proof.
  intros [Hl [(H0 & Hh & Ht & ->)|[(A & B & Hm & Hh & Ht & HB)|(X1 & X2 & G & Hm & -> & Hh & Ht & H1 & HG)]]];
    unfold bq_empty; rewrite Hh, Ht; [done| |].
  - apply bool_decide_ext. split; [|intros ->; simpl; lia]. intros. apply nil_length_inv. lia.
  - rewrite (bool_decide_false (X1 ++ X2 = [])) by (destruct X1; simpl in *; [lia|done]).
    apply bool_decide_false. lia.
Qed.

Lemma ring_length q xs : ring_rep q xs → (bq_length q = 0%nat ∧ xs = []) ∨ (length xs < bq_length q)%nat.
Proof.
  intros [Hl [(H0 & Hh & Ht & ->)|[(A & B & Hm & Hh & Ht & HB)|(X1 & X2 & G & Hm & -> & Hh & Ht & H1 & HG)]]];
    [auto| |]; right; rewrite <-Hl, Hm; lsolve.
Qed.

Lemma modulo_small a b : (a < b)%nat → modulo a b = Some a.
Proof. intros H. unfold modulo. rewrite bool_decide_false by lia. by rewrite Nat.mod_small. Qed.
Lemma modulo_wrap a b : (b ≤ a < 2 * b)%nat → modulo a b = Some (a - b)%nat.
Proof.
  intros H. unfold modulo. rewrite bool_decide_false by lia.
  replace a with (a - b + 1 * b)%nat at 1 by lia. rewrite Nat.Div0.mod_add, Nat.mod_small by lia. done.
Qed.

(** The fields that the ring operations leave alone. *)
Definition same_conf (q q' : bqueue) : Prop := bq_max q' = bq_max q ∧ bq_flags q' = bq_flags q.

(** * The private operations *)

Lemma bq_insert_spec q xs data :
  ring_rep q xs → (length xs + length data < bq_length q)%nat →
  ∃ q', bq_insert q data = Some q' ∧ ring_rep q' (xs ++ (Some <$> data)) ∧
        bq_length q' = bq_length q ∧ same_conf q q'.
Proof.
  unfold bq_insert. set (d := Some <$> data).
  assert (length data = length d) as -> by (unfold d; by rewrite length_fmap). clearbody d. clear data.
  intros [Hl [(H0 & _ & _ & ->)|[(A & B & Hm & Hh & Ht & HB)|(X1 & X2 & G & Hm & -> & Hh & Ht & H1 & HG)]]] Hn;
    [lia| |]; rewrite Hm in Hl; rewrite Ht, Hm.
  - destruct (Nat.leb_spec (length A + length xs + length d) (bq_length q)) as [Hle|Hgt].
    + destruct (split_at (length d) B) as (B1 & B2 & -> & HB1); [lsolve|].
      rewrite (write_at_eq _ (A ++ xs) B1 B2 _ d); [|by rewrite <-!app_assoc|lsolve|lsolve].
      cbn [mbind option_bind]. destruct (decide (length B2 = 0%nat)) as [E|E].
      * apply nil_length_inv in E as ->. rewrite modulo_wrap by lsolve. eexists. split; [done|].
        split; [|done]. split; [simpl; lsolve|]. right; right. exists (xs ++ d), [], A. simpl.
        rewrite !app_nil_r, <-app_assoc, Hh. split_and!; try done; lsolve.
      * rewrite modulo_small by lsolve. eexists. split; [done|]. split; [|done]. split; [simpl; lsolve|].
        right; left. exists A, B2. simpl. rewrite <-!app_assoc. split_and!; try done; lsolve.
    + destruct (split_at (length B) d) as (d1 & d2 & -> & Hd1); [lsolve|].
      replace (bq_length q - (length A + length xs))%nat with (length d1) by lsolve.
      rewrite take_app_length, drop_app_length.
      rewrite (write_at_eq _ (A ++ xs) B [] _ d1); [|by rewrite app_nil_r, <-app_assoc|lsolve|lsolve].
      cbn [mbind option_bind]. destruct (split_at (length d2) A) as (A1 & A2 & -> & HA1); [lsolve|].
      rewrite (write_at_eq _ [] A1 (A2 ++ xs ++ d1) 0 d2); [|by rewrite app_nil_r, <-!app_assoc|done|lsolve].
      cbn [mbind option_bind app]. rewrite modulo_wrap by lsolve. eexists. split; [done|]. split; [|done].
      split; [simpl; lsolve|]. right; right. exists (xs ++ d1), d2, A2. simpl. rewrite Hh, <-!app_assoc.
      split_and!; try done; lsolve.
  - destruct (Nat.leb_spec (length X2 + length d) (bq_length q)) as [Hle|Hgt]; [|lsolve].
    destruct (split_at (length d) G) as (G1 & G2 & -> & HG1); [lsolve|].
    rewrite (write_at_eq _ X2 G1 (G2 ++ X1) _ d); [|by rewrite <-!app_assoc|done|lsolve].
    cbn [mbind option_bind]. rewrite modulo_small by lsolve. eexists. split; [done|]. split; [|done].
    split; [simpl; lsolve|]. right; right. exists X1, (X2 ++ d), G2. simpl. rewrite Hh, <-!app_assoc.
    split_and!; try done; lsolve.
Qed.

Lemma memcpy_eq m A Y B C D dst src n :
  (dst + n ≤ src)%nat ∨ (src + n ≤ dst)%nat →
  (∃ P Q, m = P ++ Y ++ Q ∧ src = length P) → n = length Y →
  m = A ++ C ++ B → dst = length A → length C = length Y → D = A ++ Y ++ B →
  memcpy m dst src n = Some D.
Proof.
  intros Hno (P & Q & Hm & ->) -> Hm' -> HC ->. unfold memcpy, memmove.
  assert (bool_decide (length A + length Y ≤ length P)%nat || bool_decide (length P + length Y ≤ length A)%nat
          || bool_decide (length Y = 0)%nat = true) as ->.
  { destruct Hno; [rewrite (bool_decide_true (length A + _ ≤ _)%nat) by done; done|].
    rewrite (bool_decide_true (length P + _ ≤ _)%nat) by done. by rewrite orb_true_r. }
  rewrite (read_at_eq m P Y Q) by done. cbn [mbind option_bind]. by apply (write_at_eq m A C B).
Qed.

Lemma memmove_eq m A Y B C D dst src n :
  (∃ P Q, m = P ++ Y ++ Q ∧ src = length P) → n = length Y →
  m = A ++ C ++ B → dst = length A → length C = length Y → D = A ++ Y ++ B →
  memmove m dst src n = Some D.
Proof.
  intros (P & Q & Hm & ->) -> Hm' -> HC ->. unfold memmove.
  rewrite (read_at_eq m P Y Q) by done. cbn [mbind option_bind]. by apply (write_at_eq m A C B).
Qed.

Lemma expand_spec q xs n :
  ring_rep q xs → (bq_length q < n)%nat →
  ∃ q', bq_expand q n = Some q' ∧ ring_rep q' xs ∧ bq_length q' = n ∧ same_conf q q'.
Proof.
  intros [Hl Hrep] Hn. unfold bq_expand, realloc. rewrite Hl, take_ge by lia.
  set (N := replicate (n - bq_length q) None). assert (length N = n - bq_length q)%nat as HN by apply length_replicate.
  destruct Hrep as [(H0 & Hh & Ht & ->)|[(A & B & Hm & Hh & Ht & HB)|(X1 & X2 & G & Hm & -> & Hh & Ht & H1 & HG)]].
  - rewrite Hh, Ht. simpl. eexists. split; [done|]. split; [|done]. split; [simpl; lsolve|].
    right; left. exists [], N. rewrite H0 in Hl. apply nil_length_inv in Hl. simpl. rewrite Hl.
    split_and!; try done. lia.
  - rewrite Hm in Hl |- *. rewrite Hh, Ht. destruct (Nat.ltb_spec (length A + length xs) (length A)); [lia|].
    eexists. split; [done|]. split; [|done]. split; [simpl; lsolve|]. right; left. exists A, (B ++ N). simpl.
    rewrite <-!app_assoc. split_and!; try done; lsolve.
  - rewrite Hm in Hl |- *. rewrite Hh, Ht. destruct (Nat.ltb_spec (length X2) (length X2 + length G)); [|lia].
    destruct (Nat.leb_spec (length X2) (n - bq_length q)) as [Hle|Hgt].
    + destruct (split_at (length X2) N) as (N1 & N2 & HN12 & HN1); [lia|]. rewrite HN12.
      assert (length N = length N1 + length N2)%nat as HNl by (rewrite HN12; lsolve).
      rewrite (memcpy_eq _ (X2 ++ G ++ X1) X2 N2 N1 ((X2 ++ G ++ X1) ++ X2 ++ N2)); [|right; lsolve| |done|by rewrite <-!app_assoc|lsolve|lia|done].
      2: { exists [], (G ++ X1 ++ N1 ++ N2). simpl. by rewrite <-!app_assoc. }
      cbn [mbind option_bind]. destruct (decide (length N2 = 0%nat)) as [E|E].
      * apply nil_length_inv in E as ->. rewrite modulo_wrap by lsolve. eexists. split; [done|].
        split; [|done]. split; [simpl; lsolve|]. right; right. exists (X1 ++ X2), [], (X2 ++ G). simpl.
        rewrite !app_nil_r, <-!app_assoc. split_and!; try done; lsolve.
      * rewrite modulo_small by lsolve. eexists. split; [done|]. split; [|done]. split; [simpl; lsolve|].
        right; left. exists (X2 ++ G), N2. simpl. rewrite <-!app_assoc. split_and!; try done; lsolve.
    + destruct (split_at (n - bq_length q) X2) as (Y1 & Y2 & -> & HY1); [lia|]. lens.
      rewrite (memcpy_eq _ ((Y1 ++ Y2) ++ G ++ X1) Y1 [] N (((Y1 ++ Y2) ++ G ++ X1) ++ Y1)); [|right; lsolve| |lsolve|by rewrite app_nil_r|lsolve|lsolve|by rewrite app_nil_r].
      2: { exists [], (Y2 ++ G ++ X1 ++ N). simpl. by rewrite <-!app_assoc. }
      cbn [mbind option_bind].
      destruct (split_at (length Y2) (Y1 ++ Y2)) as (Z1 & Z2 & HZ & HZ1); [lsolve|].
      assert (length Y1 + length Y2 = length Z1 + length Z2)%nat as HZl by (rewrite <-!length_app; congruence).
      rewrite (memmove_eq _ [] Y2 (Z2 ++ G ++ X1 ++ Y1) Z1 (Y2 ++ Z2 ++ G ++ X1 ++ Y1)); [| |lsolve|by rewrite HZ, <-!app_assoc|done|done|done].
      2: { exists Y1, (G ++ X1 ++ Y1). split; [by rewrite <-!app_assoc|lia]. }
      cbn [mbind option_bind]. eexists. split; [done|]. split; [|done]. split; [simpl; lsolve|].
      right; right. exists (X1 ++ Y1), Y2, (Z2 ++ G). simpl. rewrite <-!app_assoc. split_and!; try done; lsolve.
Qed.

Lemma shrink_spec q xs n :
  ring_rep q xs → xs ≠ [] → (length xs < n ≤ bq_length q)%nat →
  ∃ q', bq_shrink q n = Some q' ∧ ring_rep q' xs ∧ bq_length q' = n ∧ same_conf q q'.
Proof.
  intros Hr Hne Hn. unfold bq_shrink. rewrite (ring_empty _ _ Hr), bool_decide_false by done.
  destruct Hr as [Hl [(H0 & _)|[(A & B & Hm & Hh & Ht & HB)|(X1 & X2 & G & Hm & -> & Hh & Ht & H1 & HG)]]]; [lia| |];
    rewrite Hm in Hl |- *; rewrite Hh, Ht.
  - assert (0 < length xs)%nat by (destruct xs; simpl; [done|lia]).
    destruct (Nat.ltb_spec (length A) (length A + length xs)); [|lia].
    destruct (Nat.leb_spec n (length A)) as [HnA|HnA].
    + destruct (split_at (length xs) A) as (A1 & A2 & -> & HA1); [lia|].
      rewrite (memcpy_eq _ [] xs (A2 ++ xs ++ B) A1 (xs ++ A2 ++ xs ++ B)); [|left; lsolve| |lsolve|by rewrite <-!app_assoc|done|lia|done].
      2: { exists (A1 ++ A2), B. split; [by rewrite <-!app_assoc|done]. }
      cbn [mbind option_bind]. eexists. split; [done|]. split; [|done].
      assert (take n (xs ++ A2 ++ xs ++ B) = xs ++ take (n - length xs) A2) as Htk.
      { rewrite take_app_ge by lia. f_equal. apply take_app_le. lsolve. }
      unfold realloc. rewrite Htk. split; [simpl; lsolve|]. right; left.
      exists [], (take (n - length xs) A2 ++ replicate (n - length (xs ++ A2 ++ xs ++ B)) None). simpl.
      rewrite <-app_assoc. split_and!; try done; lsolve.
    + destruct (Nat.leb_spec n (length A + length xs)) as [Hnt|Hnt].
      * destruct (split_at (n - length A) xs) as (Y1 & Y2 & -> & HY1); [lia|]. lens.
        destruct (split_at (length Y2) A) as (A1 & A2 & -> & HA1); [lia|]. lens.
        rewrite (memcpy_eq _ [] Y2 (A2 ++ Y1 ++ Y2 ++ B) A1 (Y2 ++ A2 ++ Y1 ++ Y2 ++ B));
          [|left; lsolve| |lsolve|by rewrite <-!app_assoc|done|lia|done].
        2: { exists (A1 ++ A2 ++ Y1), B. split; [by rewrite <-!app_assoc|lsolve]. }
        cbn [mbind option_bind]. eexists. split; [done|]. split; [|done].
        assert (take n (Y2 ++ A2 ++ Y1 ++ Y2 ++ B) = Y2 ++ A2 ++ Y1) as Htk.
        { replace n with (length (Y2 ++ A2 ++ Y1)) by lsolve.
          replace (Y2 ++ A2 ++ Y1 ++ Y2 ++ B) with ((Y2 ++ A2 ++ Y1) ++ Y2 ++ B) by (by rewrite <-!app_assoc).
          apply take_app_length. }
        unfold realloc. rewrite Htk. replace (n - length (Y2 ++ A2 ++ Y1 ++ Y2 ++ B))%nat with 0%nat by lsolve.
        simpl. rewrite app_nil_r. split; [simpl; lsolve|]. right; right. exists Y1, Y2, A2. simpl.
        split_and!; try done; lsolve.
      * cbn [mbind option_bind]. eexists. split; [done|]. split; [|done].
        assert (take n (A ++ xs ++ B) = A ++ xs ++ take (n - length A - length xs) B) as Htk.
        { rewrite take_app_ge by lia. f_equal. by rewrite take_app_ge by lia. }
        unfold realloc. rewrite Htk. split; [simpl; lsolve|]. right; left.
        exists A, (take (n - length A - length xs) B ++ replicate (n - length (A ++ xs ++ B)) None). simpl.
        rewrite <-!app_assoc. split_and!; try done; lsolve.
  - lens. destruct (Nat.ltb_spec (length X2 + length G) (length X2)); [lia|].
    set (g := (n - length X1 - length X2)%nat).
    destruct (split_at g G) as (G1 & G2 & -> & HG1); [unfold g; lsolve|]. lens.
    set (T := take (length X1) (G2 ++ X1)). set (U := drop (length X1) (G2 ++ X1)).
    assert (G2 ++ X1 = T ++ U) as HTU by (unfold T, U; by rewrite take_drop).
    assert (length T = length X1) as HT by (unfold T; lsolve).
    destruct (Nat.ltb_spec (length X2 + (length G1 + length G2)) (bq_length q - n)) as [?|_]; [unfold g in *; lia|].
    assert ((if (length X2 + (length G1 + length G2) <? n)%nat
       then memmove (X2 ++ (G1 ++ G2) ++ X1) (length X2 + (length G1 + length G2) - (bq_length q - n))
              (length X2 + (length G1 + length G2)) (bq_length q - (length X2 + (length G1 + length G2)))
       else memcpy (X2 ++ (G1 ++ G2) ++ X1) (length X2 + (length G1 + length G2) - (bq_length q - n))
              (length X2 + (length G1 + length G2)) (bq_length q - (length X2 + (length G1 + length G2)))) =
       Some ((X2 ++ G1) ++ X1 ++ U)) as ->.
    { assert (∃ P Q, X2 ++ (G1 ++ G2) ++ X1 = P ++ X1 ++ Q ∧
        (length X2 + (length G1 + length G2))%nat = length P) as HPQ.
      { exists (X2 ++ G1 ++ G2), []. rewrite app_nil_r, <-!app_assoc. split; [done|lsolve]. }
      assert (X2 ++ (G1 ++ G2) ++ X1 = (X2 ++ G1) ++ T ++ U) as Hmm by (by rewrite <-HTU, <-!app_assoc).
      destruct (Nat.ltb_spec (length X2 + (length G1 + length G2)) n).
      - apply (memmove_eq _ (X2 ++ G1) X1 U T); [done|lia|done|unfold g in *; lsolve|done|done].
      - apply (memcpy_eq _ (X2 ++ G1) X1 U T); [left; unfold g in *; lia|done|lia|done|unfold g in *; lsolve|done|done]. }
    cbn [mbind option_bind]. eexists. split; [done|]. split; [|done].
    assert (take n ((X2 ++ G1) ++ X1 ++ U) = X2 ++ G1 ++ X1) as Htk.
    { replace n with (length ((X2 ++ G1) ++ X1)) by (unfold g in *; lsolve).
      rewrite app_assoc, take_app_length. by rewrite <-!app_assoc. }
    assert (length U = length G2) as HU.
    { apply (f_equal length) in HTU. lens. lia. }
    unfold realloc. rewrite Htk. replace (n - length ((X2 ++ G1) ++ X1 ++ U))%nat with 0%nat by (unfold g in *; lsolve).
    simpl. rewrite app_nil_r. split; [simpl; unfold g in *; lsolve|]. right; right. exists X1, X2, G1. simpl.
    split_and!; try done; unfold g in *; lia.
Qed.

Lemma extract_spec q xs n : ring_rep q xs → bq_extract q n = Some (take n xs).
Proof.
  intros [Hl [(H0 & Hh & Ht & ->)|[(A & B & Hm & Hh & Ht & HB)|(X1 & X2 & G & Hm & -> & Hh & Ht & H1 & HG)]]];
    unfold bq_extract; rewrite Hh, Ht.
  - simpl. rewrite H0 in Hl. apply nil_length_inv in Hl. rewrite Hl, take_nil, Nat.min_0_r. done.
  - rewrite Hm. destruct (Nat.ltb_spec (length A + length xs) (length A)); [lia|].
    apply (read_at_eq _ A (take n xs) (drop n xs ++ B)); [by rewrite (app_assoc (take n xs)), take_drop|done|lsolve].
  - rewrite Hm in Hl |- *. lens. destruct (Nat.ltb_spec (length X2) (length X2 + length G)); [|lia].
    replace (bq_length q - (length X2 + length G))%nat with (length X1) by lia.
    destruct (Nat.ltb_spec n (length X1)).
    + rewrite take_app_le by lia.
      apply (read_at_eq _ (X2 ++ G) (take n X1) (drop n X1)); [by rewrite take_drop, <-app_assoc|lsolve|lsolve].
    + rewrite (read_at_eq _ (X2 ++ G) X1 [] (length X2 + length G)); [|by rewrite app_nil_r, <-app_assoc|lsolve|done]. cbn [mbind option_bind].
      rewrite (read_at_eq _ [] (take (n - length X1) X2) (drop (n - length X1) X2 ++ G ++ X1));
        [|by simpl; rewrite (app_assoc (take _ X2)), take_drop|done|lsolve].
      simpl. by rewrite take_app_ge by lia.
Qed.

Lemma head_spec q xs n :
  ring_rep q xs → (n ≤ length xs)%nat → (0 < bq_length q)%nat →
  ∃ head, modulo (bq_head q + n) (bq_length q) = Some head ∧
    ring_rep (with_ring q (bq_memory q) head (bq_tail q) (bq_length q)) (drop n xs).
Proof.
  intros [Hl [(H0 & Hh & Ht & ->)|[(A & B & Hm & Hh & Ht & HB)|(X1 & X2 & G & Hm & -> & Hh & Ht & H1 & HG)]]] Hn Hpos;
    [lia| |]; rewrite Hm in Hl; rewrite Hh, Ht; lens.
  - rewrite modulo_small by lia. eexists. split; [done|]. split; [simpl; by rewrite Hm; lsolve|]. right; left.
    exists (A ++ take n xs), B. simpl. rewrite Hm, <-app_assoc. split_and!; try lsolve. by rewrite (app_assoc (take n xs)), take_drop.
  - destruct (decide (n < length X1)%nat).
    + rewrite modulo_small by lia. eexists. split; [done|]. split; [simpl; by rewrite Hm; lsolve|]. right; right.
      exists (drop n X1), X2, (G ++ take n X1). simpl. rewrite Hm, <-app_assoc, take_drop, drop_app_le by lia.
      split_and!; try done; lsolve.
    + rewrite modulo_wrap by lia. eexists. split; [done|]. split; [simpl; by rewrite Hm; lsolve|]. right; left.
      exists (take (n - length X1) X2), (G ++ X1). simpl. rewrite Hm, drop_app_ge by lia.
      split_and!; try lsolve. by rewrite (app_assoc (take _ X2)), take_drop.
Qed.

Lemma advance_spec q xs n :
  ring_rep q xs → (n ≤ length xs)%nat → (0 < bq_length q)%nat →
  ∃ q', bq_advance q n = Some q' ∧ ring_rep q' (drop n xs) ∧ (bq_length q' ≤ bq_length q)%nat ∧ same_conf q q'.
Proof.
  intros Hr Hn Hpos. unfold bq_advance. destruct (head_spec q xs n Hr Hn Hpos) as (head & -> & Hr').
  cbn [mbind option_bind]. set (q1 := with_ring _ _ _ _ _) in *.
  assert (bq_length q1 = bq_length q ∧ same_conf q q1) as [Hl1 Hc1] by done. clearbody q1.
  rewrite (ring_empty _ _ Hr'). case_bool_decide as He.
  - rewrite He. eexists. split; [done|]. split; [split; [done|by left]|]. split; [simpl; lia|done].
  - destruct (has_flag (bq_flags q1) BQUEUE_SHRINK && (bq_used q1 <? bq_length q1 / 2)%nat) eqn:E.
    + apply andb_true_iff in E as [_ E%Nat.ltb_lt]. rewrite (ring_used _ _ Hr') in E.
      destruct (shrink_spec q1 _ (bq_length q1 / 2) Hr' He) as (q2 & -> & Hr2 & Hl2 & [Hm2 Hf2]).
      * split; [done|]. apply Nat.Div0.div_le_upper_bound. lia.
      * exists q2. split; [done|]. split; [done|]. split.
        -- rewrite Hl2, Hl1. apply Nat.Div0.div_le_upper_bound. lia.
        -- destruct Hc1. split; congruence.
    + exists q1. split; [done|]. split; [done|]. split; [lia|done].
Qed.

(** * The queue as a list of bytes *)

Inductive bq_op :=
| BPush (data : list Z) (flags : Z)
| BPop (n : nat) (flags : Z)
| BPeek (n : nat) (flags : Z)
| BDrop (n : nat)
| BUsed
| BClear.

Inductive bq_res := BCode (z : Z) | BBytes (d : block) | BNum (n : nat).

Definition omap_res {A B} (f : A → B) (o : outcome A) : outcome B :=
  match o with Ret a => Ret (f a) | Wait => Wait end.

(** The critical section of each function. *)
Definition bq_exec (o : bq_op) (q : bqueue) : option (outcome bq_res * bqueue) :=
  match o with
  | BPush d fl => '(r, q) ← bqueue_push q d fl; Some (omap_res BCode r, q)
  | BPop n fl => '(r, q) ← bqueue_pop q n fl; Some (omap_res BBytes r, q)
  | BPeek n fl => '(r, q) ← bqueue_peek q n fl; Some (omap_res BBytes r, q)
  | BDrop n => '(z, q) ← bqueue_drop q n; Some (Ret (BCode z), q)
  | BUsed => Some (Ret (BNum (bqueue_used q)), q)
  | BClear => Some (Ret (BNum 0), bqueue_clear q)
  end.

(** The same on a list of at most [mx - 1] bytes: a push is all or nothing. *)
Definition bytes_exec (mx : Z) (o : bq_op) (xs : list Z) : outcome bq_res * list Z :=
  let wait fl r := if has_flag fl BQUEUE_WAIT then Wait else r in
  match o with
  | BPush d fl =>
      if mx <=? length d then (Ret (BCode (-1)), xs)
      else if mx <=? length d + length xs then (wait fl (Ret (BCode (-1))), xs)
      else (Ret (BCode 0), xs ++ d)
  | BPop n fl =>
      if decide (xs = []) then (wait fl (Ret (BBytes [])), xs)
      else (Ret (BBytes (Some <$> take n xs)), drop n xs)
  | BPeek n fl =>
      if decide (xs = []) then (wait fl (Ret (BBytes [])), xs)
      else (Ret (BBytes (Some <$> take n xs)), xs)
  | BDrop n => if (n <=? length xs)%nat then (Ret (BCode 0), drop n xs) else (Ret (BCode (-1)), xs)
  | BUsed => (Ret (BNum (length xs)), xs)
  | BClear => (Ret (BNum 0), [])
  end.

(** The queue holds [xs], in a block no longer than the maximum. *)
Definition bq_rep (mx : Z) (q : bqueue) (xs : list Z) : Prop :=
  ring_rep q (Some <$> xs) ∧ bq_max q = mx ∧ Z.of_nat (bq_length q) <= mx.

(** [bqueue_drop] of nothing from a queue without a block divides by zero. *)
Definition bq_ok (o : bq_op) : Prop := match o with BDrop O => False | _ => True end.

Lemma fmap_nil_iff {A B} (f : A → B) l : f <$> l = [] ↔ l = [].
Proof. by destruct l. Qed.

Lemma bq_push_sim mx q xs d fl :
  1 < mx <= 9223372036854775808 → bq_rep mx q xs →
  ∃ q', bq_exec (BPush d fl) q = Some ((bytes_exec mx (BPush d fl) xs).1, q') ∧
        bq_rep mx q' (bytes_exec mx (BPush d fl) xs).2.
Proof.
  intros Hmx Hrep. pose proof Hrep as (Hr & Hm & Hl). cbn [bq_exec bytes_exec]. unfold bqueue_push. rewrite Hm.
  destruct (Z.leb_spec mx (length d)) as [|Hd]; [by exists q|].
  rewrite (ring_used _ _ Hr), length_fmap.
  assert (length xs < mx) as Hxs.
  { destruct (ring_length _ _ Hr) as [[_ E%fmap_nil_iff]|Hlt]; [subst; simpl; lia|]. rewrite length_fmap in Hlt. lia. }
  rewrite wrap64_id by (unfold size_t; lia).
  destruct (Z.leb_spec mx (length d + length xs)) as [|Hfit]; [exists q; by destruct (has_flag fl BQUEUE_WAIT)|].
  assert (∃ q1, (if (bq_length q <=? length d + length xs)%nat then bq_expand q (length d + length xs + 1) else Some q)
      = Some q1 ∧ ring_rep q1 (Some <$> xs) ∧ (length xs + length d < bq_length q1)%nat ∧
      bq_length q1 <= mx ∧ bq_max q1 = mx) as (q1 & -> & Hr1 & Hf1 & Hl1 & Hm1).
  { destruct (Nat.leb_spec (bq_length q) (length d + length xs)) as [Hle|Hgt].
    - destruct (expand_spec q _ (length d + length xs + 1) Hr ltac:(lia)) as (q1 & -> & Hr1 & Hl1 & [Hc1 _]).
      exists q1. split_and!; try done; lia || congruence.
    - exists q. split_and!; try done. lia. }
  cbn [mbind option_bind].
  destruct (bq_insert_spec q1 (Some <$> xs) d Hr1 ltac:(rewrite length_fmap; lia)) as (q2 & -> & Hr2 & Hl2 & [Hc2 _]).
  cbn [mbind option_bind]. exists q2. split; [done|]. split_and!; [by simpl; rewrite fmap_app|congruence|lia].
Qed.

Lemma bq_exec_sim mx q xs o :
  1 < mx <= 9223372036854775808 → bq_rep mx q xs → bq_ok o →
  ∃ q', bq_exec o q = Some ((bytes_exec mx o xs).1, q') ∧ bq_rep mx q' (bytes_exec mx o xs).2.
Proof.
  intros Hmx Hrep Hok. destruct o as [d fl|n fl|n fl|n| |]; [by apply bq_push_sim|..];
    pose proof Hrep as (Hr & Hm & Hl); cbn [bq_exec bytes_exec].
  - unfold bqueue_pop. rewrite (ring_empty _ _ Hr). destruct (decide (xs = [])) as [->|Hne].
    { rewrite bool_decide_true by done. exists q. simpl. by destruct (has_flag fl BQUEUE_WAIT). }
    rewrite bool_decide_false by (by rewrite fmap_nil_iff). rewrite (extract_spec _ _ _ Hr). cbn [mbind option_bind].
    assert (0 < bq_length q)%nat as Hpos.
    { destruct (ring_length _ _ Hr) as [[_ E%fmap_nil_iff]|?]; [done|lia]. }
    destruct (advance_spec q _ (length (take n (Some <$> xs))) Hr ltac:(rewrite length_take; lia) Hpos)
      as (q' & -> & Hr' & Hl' & [Hc' _]). cbn [mbind option_bind omap_res].
    exists q'. rewrite fmap_take. split; [done|]. split_and!; [|congruence|lia]. simpl.
    replace (Some <$> drop n xs) with (drop (length (take n (Some <$> xs))) (Some <$> xs)); [done|].
    rewrite length_take, length_fmap, fmap_drop. destruct (decide (n ≤ length xs)%nat).
    + by rewrite Nat.min_l by lia.
    + rewrite !drop_ge; [done|..]; rewrite length_fmap; lia.
  - unfold bqueue_peek. rewrite (ring_empty _ _ Hr). destruct (decide (xs = [])) as [->|Hne].
    { rewrite bool_decide_true by done. exists q. simpl. by destruct (has_flag fl BQUEUE_WAIT). }
    rewrite bool_decide_false by (by rewrite fmap_nil_iff). rewrite (extract_spec _ _ _ Hr), fmap_take. by exists q.
  - unfold bqueue_drop. rewrite (ring_used _ _ Hr), length_fmap. destruct (Nat.leb_spec n (length xs)) as [Hn|]; [|by exists q].
    assert (0 < bq_length q)%nat as Hpos.
    { destruct (ring_length _ _ Hr) as [[_ E%fmap_nil_iff]|?]; [|lia]. subst. destruct n; simpl in *; [done|lia]. }
    destruct (advance_spec q _ n Hr ltac:(rewrite length_fmap; lia) Hpos) as (q' & -> & Hr' & Hl' & [Hc' _]).
    cbn [mbind option_bind]. exists q'. split; [done|]. split_and!; [by simpl; rewrite fmap_drop|congruence|lia].
  - unfold bqueue_used. rewrite (ring_used _ _ Hr), length_fmap. by exists q.
  - exists (bqueue_clear q). split; [done|]. split_and!; [|done|simpl; lia]. split; [done|]. by left.
Qed.

(** The outcomes of an interleaving on the list of bytes. *)
Fixpoint bytes_run (mx : Z) (ops : list bq_op) (xs : list Z) : list (bq_op * outcome bq_res) * list Z :=
  match ops with
  | [] => ([], xs)
  | o :: ops => let '(r, xs) := bytes_exec mx o xs in
                let '(tr, xs) := bytes_run mx ops xs in ((o, r) :: tr, xs)
  end.

Lemma bq_run_sim mx ops q xs :
  1 < mx <= 9223372036854775808 → Forall bq_ok ops → bq_rep mx q xs →
  ∃ q', interleave bq_exec ops q = Some ((bytes_run mx ops xs).1, q') ∧ bq_rep mx q' (bytes_run mx ops xs).2.
Proof.
  intros Hmx Hops. revert q xs. induction Hops as [|o ops Ho _ IH]; intros q xs Hr; simpl; [by exists q|].
  destruct (bq_exec_sim mx q xs o Hmx Hr Ho) as (q1 & -> & Hr1). cbn [mbind option_bind].
  destruct (bytes_exec mx o xs) as [r xs1]. simpl in *. destruct (IH q1 xs1 Hr1) as (q2 & -> & Hr2).
  cbn [mbind option_bind]. destruct (bytes_run mx ops xs1) as [tr xs2]. by exists q2.
Qed.



(** Dropping zero bytes from a queue that holds no block, as a new or an
    emptied queue does, takes a remainder by zero. *)
Theorem bqueue_drop_zero_undefined mx flags q :
  bqueue_init mx flags = Some q → bqueue_drop q 0 = None.
Proof. unfold bqueue_init. destruct (mx <=? 1); [done|]. by intros [= <-]. Qed.

Lemma bqueue_drop_zero_undefined_witness : ∃ q, bqueue_init 16 0 = Some q ∧ bqueue_drop q 0 = None.
Proof. eexists. split; [reflexivity|]. apply (bqueue_drop_zero_undefined 16 0). reflexivity. Defined.
