(* ===== verification/OrdIndex.v ===== *)
(** What the indexed queue needs of its index: a finite map from strings to
    pointers, ordered by key, that disposes of the values it drops.  The
    red-black tree of RBTree.v provides it. *)

From S2P Require Import Prelude Keyed RBTree RBMap RBDelete.

Class OrdIndex (T : Type) := {
  oi_init : T;
  oi_get : T → cstr → option ptr;
  oi_insert : loc → T → cstr → ptr → option (ptr * T);
  oi_delete : T → cstr → option (list ptr * Z * T);
  oi_keys : T → option (list cstr);
  oi_free : T → option (list ptr);
  (** [l] is not the address of a node of [t]. *)
  oi_fresh : T → loc → Prop;
  oi_rep : T → gmap cstr ptr → Prop;

  oi_init_rep : oi_rep oi_init ∅;
  oi_get_spec t m k : oi_rep t m → oi_get t k = Some (default NULL (m !! k));
  oi_insert_spec l t m k v :
    oi_rep t m → oi_fresh t l →
    match m !! k with
    | Some _ => oi_insert l t k v = Some (NULL, t)
    | None => ∃ t', oi_insert l t k v = Some (Some l, t') ∧ oi_rep t' (<[k := v]> m)
    end;
  oi_delete_spec t m k :
    oi_rep t m →
    match m !! k with
    | Some v => ∃ t', oi_delete t k = Some (disposed true v, 1, t') ∧ oi_rep t' (delete k m)
    | None => oi_delete t k = Some ([], 0, t)
    end;
  oi_keys_spec t m : oi_rep t m → oi_keys t = Some (keys_of m);
  oi_free_spec t m :
    oi_rep t m → ∃ ds, oi_free t = Some ds ∧ ds ≡ₚ (map_to_list m).*2 ≫= disposed true
}.

#[export] Program Instance rb_index : OrdIndex rb_tree := {|
  oi_init := rbtree_set_dispose rbtree_init true;
  oi_get := rbtree_get;
  oi_insert := rbtree_insert;
  oi_delete := rbtree_delete;
  oi_keys := rbtree_keys;
  oi_free t := '(ds, _) ← rbtree_destroy (Some t); Some ds;
  oi_fresh t l := rb_heap t !! l = None;
  oi_rep t m := rb_map t m ∧ rb_disp t = true
|}.
Next Obligation. split; [apply rb_map_init|done]. Qed.
Next Obligation. intros t m k [H _]. by apply rb_map_get. Qed.
Next Obligation.
  intros l t m k v [H Hd] Hl. pose proof (rb_map_insert l t m k v H Hl) as Hi.
  destruct (m !! k); [done|]. destruct Hi as (t' & ? & ? & ?). exists t'. split_and!; congruence || done.
Qed.
Next Obligation.
  intros t m k [H Hd]. pose proof (rb_map_delete t m k H) as Hi. rewrite Hd in Hi.
  destruct (m !! k); [|done]. destruct Hi as (t' & ? & ? & ?). exists t'. done.
Qed.
Next Obligation. intros t m [H _]. by apply rb_map_keys. Qed.
Next Obligation.
  intros t m [H Hd]. destruct (rbtree_destroy_spec t m H) as (ds & Hds & Hp). rewrite Hds, Hd in *. by exists ds.
Qed.
