(* ===== verification/IndexedQueue.v ===== *)
(** The indexed queue of src/shared/indexed_queue_op.c: a FIFO whose elements
    are also found, updated and removed by key.  It is the linked queue of
    LinkedQueue.v, an ordered index of entries (any [OrdIndex]; the program
    uses the red-black tree), and the heap of the entries, each of which points
    back to its queue node. *)

From S2P Require Import Prelude Keyed Dll Monitor LinkedQueue RBDelete OrdIndex.

(** [w_indexed_queue_entry_t] *)
Record iq_entry := IQEntry { ie_key : cstr; ie_data : ptr; ie_node : ptr }.

Section indexed_queue.
Context {T : Type} `{OrdIndex T}.

(** [w_indexed_queue_t], without its lock: [iq_dispose] says whether [dispose]
    is set, and [iq_get_key] is the [get_key] callback ([None]: not set). *)
Record iqueue := IQueue {
  iq_queue : lqueue;
  iq_index : T;
  iq_entries : heap iq_entry;
  iq_max : Z;
  iq_size : Z;
  iq_dispose : bool;
  iq_get_key : option (ptr → option cstr)
}.

Definition with_parts (q : iqueue) (lq : lqueue) (t : T) (es : heap iq_entry) (size : Z) : iqueue :=
  IQueue lq t es (iq_max q) size (iq_dispose q) (iq_get_key q).

(** [indexed_queue_entry_free] for each entry that the index drops. *)
Fixpoint free_entries (es : heap iq_entry) (ps : list ptr) : option (heap iq_entry) :=
  match ps with
  | [] => Some es
  | p :: ps => es ← free es p; free_entries es ps
  end.

(** [indexed_queue_init] and the setters *)
Definition indexed_queue_init (max_size : Z) : iqueue :=
  IQueue linked_queue_init oi_init ∅ max_size 0 false None.
Definition indexed_queue_set_dispose (q : iqueue) (d : bool) : iqueue :=
  IQueue (iq_queue q) (iq_index q) (iq_entries q) (iq_max q) (iq_size q) d (iq_get_key q).
Definition indexed_queue_set_get_key (q : iqueue) (f : option (ptr → option cstr)) : iqueue :=
  IQueue (iq_queue q) (iq_index q) (iq_entries q) (iq_max q) (iq_size q) (iq_dispose q) f.

Definition indexed_queue_empty (q : iqueue) : bool := iq_size q =? 0.
Definition indexed_queue_full (q : iqueue) : bool :=
  if iq_max q =? 0 then false else iq_max q <=? iq_size q.
Definition indexed_queue_size (q : iqueue) : Z := iq_size q.

(** [indexed_queue_push]: the addresses are those of the entry, of the queue
    node and of the tree node; [mem] is false when [strdup] fails. *)
Record iq_mem := IQMem { im_entry : loc; im_node : loc; im_tree : loc; im_ok : bool }.
Definition indexed_queue_push (a : iq_mem) (q : iqueue) (key : cstr) (data : ptr) :
    option (Z * iqueue) :=
  if is_null data then Some (-1, q)
  else if indexed_queue_full q then Some (-1, q)
  else
    found ← oi_get (iq_index q) key;
    if not_null found then Some (-1, q)
    else if negb (im_ok a) then Some (-1, q)
    else
      '(node, lq) ← linked_queue_push (im_node a) (iq_queue q) data;
      match node with
      | None => Some (-1, with_parts q lq (iq_index q) (iq_entries q) (iq_size q))
      | Some _ =>
          let es := <[im_entry a := IQEntry key data node]> (iq_entries q) in
          '(ins, t) ← oi_insert (im_tree a) (iq_index q) key (Some (im_entry a));
          match ins with
          | None =>
              '(_, lq) ← linked_queue_pop lq;
              es ← free es (Some (im_entry a));
              Some (-1, with_parts q lq t es (iq_size q))
          | Some _ => Some (0, with_parts q lq t es (wrap64 (iq_size q + 1)))
          end
      end.

(** The assignments to an entry and to its queue node. *)
Definition set_data (q : iqueue) (p : ptr) (data : ptr) : option iqueue :=
  e ← load (iq_entries q) p;
  es ← store (iq_entries q) p (λ e, IQEntry (ie_key e) data (ie_node e));
  h ← store (lq_nodes (iq_queue q)) (ie_node e) (set_val data);
  let lq := LQueue (lq_elements (iq_queue q)) (lq_first (iq_queue q)) (lq_last (iq_queue q)) h in
  Some (with_parts q lq (iq_index q) es (iq_size q)).

Definition disposes (q : iqueue) (p : ptr) : list ptr := if iq_dispose q then [p] else [].

(** [indexed_queue_upsert]: the data disposed of, the result, the queue. *)
Definition indexed_queue_upsert (a : iq_mem) (q : iqueue) (key : cstr) (data : ptr) :
    option (list ptr * Z * iqueue) :=
  if is_null data then Some ([], -1, q)
  else
    entry ← oi_get (iq_index q) key;
    match entry with
    | Some _ => e ← load (iq_entries q) entry;
                q' ← set_data q entry data;
                Some (disposes q (ie_data e), 0, q')
    | None => '(z, q) ← indexed_queue_push a q key data; Some ([], z, q)
    end.

(** [indexed_queue_get], [indexed_queue_peek], [indexed_queue_update] *)
Definition indexed_queue_get (q : iqueue) (key : cstr) : option ptr :=
  entry ← oi_get (iq_index q) key;
  match entry with
  | None => Some NULL
  | Some _ => e ← load (iq_entries q) entry; Some (ie_data e)
  end.
Definition indexed_queue_peek (q : iqueue) : option ptr :=
  if indexed_queue_empty q then Some NULL
  else match lq_first (iq_queue q) with
       | None => Some NULL
       | Some _ => n ← load (lq_nodes (iq_queue q)) (lq_first (iq_queue q)); Some (dn_val n)
       end.
Definition indexed_queue_update (q : iqueue) (key : cstr) (data : ptr) : option (ptr * iqueue) :=
  if is_null data then Some (NULL, q)
  else
    entry ← oi_get (iq_index q) key;
    match entry with
    | None => Some (NULL, q)
    | Some _ => e ← load (iq_entries q) entry; q' ← set_data q entry data; Some (ie_data e, q')
    end.

(** [rbtree_delete] on the index, with the entries it frees. *)
Definition index_delete (t : T) (es : heap iq_entry) (key : cstr) : option (T * heap iq_entry) :=
  '(ds, _, t) ← oi_delete t key;
  es ← free_entries es ds;
  Some (t, es).

(** The search by data of [indexed_queue_pop]: the first key of the index, in
    key order, whose entry has this data. *)
Fixpoint find_by_data (t : T) (es : heap iq_entry) (keys : list cstr) (data : ptr) :
    option (option cstr) :=
  match keys with
  | [] => Some None
  | k :: keys =>
      entry ← oi_get t k;
      hit ← match entry with
            | None => Some false
            | Some _ => e ← load es entry; Some (ptr_eqb (ie_data e) data)
            end;
      if (hit : bool) then Some (Some k) else find_by_data t es keys data
  end.

(** [indexed_queue_pop] *)
Definition indexed_queue_pop (q : iqueue) : option (ptr * iqueue) :=
  if indexed_queue_empty q then Some (NULL, q)
  else
    '(data, lq) ← linked_queue_pop (iq_queue q);
    match data with
    | None => Some (NULL, with_parts q lq (iq_index q) (iq_entries q) (iq_size q))
    | Some _ =>
        key ← match iq_get_key q with
              | Some f => Some (f data)
              | None => ks ← oi_keys (iq_index q); find_by_data (iq_index q) (iq_entries q) ks data
              end;
        '(t, es) ← match key with
                   | Some k => index_delete (iq_index q) (iq_entries q) k
                   | None => Some (iq_index q, iq_entries q)
                   end;
        Some (data, with_parts q lq t es (wrap64 (iq_size q - 1)))
    end.

(** [indexed_queue_delete]: the data disposed of, 1 or 0, the queue. *)
Definition indexed_queue_delete (q : iqueue) (key : cstr) : option (list ptr * Z * iqueue) :=
  entry ← oi_get (iq_index q) key;
  match entry with
  | None => Some ([], 0, q)
  | Some _ =>
      e ← load (iq_entries q) entry;
      let lq := iq_queue q in
      n ← load (lq_nodes lq) (ie_node e);
      '(first, h) ← match dn_prev n with
                    | Some _ => h ← store (lq_nodes lq) (dn_prev n) (set_next (dn_next n)); Some (lq_first lq, h)
                    | None => Some (dn_next n, lq_nodes lq)
                    end;
      '(last, h) ← match dn_next n with
                   | Some _ => h ← store h (dn_next n) (set_prev (dn_prev n)); Some (lq_last lq, h)
                   | None => Some (dn_prev n, h)
                   end;
      h ← free h (ie_node e);
      '(t, es) ← index_delete (iq_index q) (iq_entries q) key;
      Some (disposes q (ie_data e), 1,
            with_parts q (LQueue (wrap32 (lq_elements lq - 1)) first last h) t es (wrap64 (iq_size q - 1)))
  end.

(** [indexed_queue_free]: the data disposed of; the entries go with the index. *)
Fixpoint pop_all (fuel : nat) (lq : lqueue) : option (list ptr * lqueue) :=
  match fuel with
  | O => None
  | S f =>
      '(data, lq) ← linked_queue_pop lq;
      match data with
      | None => Some ([], lq)
      | Some _ => '(ds, lq) ← pop_all f lq; Some (data :: ds, lq)
      end
  end.
Definition indexed_queue_free (q : iqueue) : option (list ptr * heap iq_entry * heap (dnode ptr)) :=
  '(ds, lq) ← pop_all (S (size (lq_nodes (iq_queue q)))) (iq_queue q);
  dropped ← oi_free (iq_index q);
  es ← free_entries (iq_entries q) dropped;
  Some (if iq_dispose q then ds else [], es, linked_queue_free lq).

(** ** The locked variants: one pass of their critical sections *)

Definition indexed_queue_push_ex (a : iq_mem) (q : iqueue) (key : cstr) (data : ptr) :
    option (outcome Z * iqueue) :=
  if is_null data then Some (Ret (-1), q)
  else if indexed_queue_full q then Some (Wait, q)
  else '(z, q) ← indexed_queue_push a q key data; Some (Ret z, q).

(** [indexed_queue_upsert_ex] looks the key up once, before it waits; a pass
    after a wait ([resumed]) goes straight to the insertion. *)
Definition indexed_queue_upsert_ex (resumed : bool) (a : iq_mem) (q : iqueue) (key : cstr) (data : ptr) :
    option (list ptr * outcome Z * iqueue) :=
  if is_null data then Some ([], Ret (-1), q)
  else
    entry ← (if resumed then Some NULL else oi_get (iq_index q) key);
    match entry with
    | Some _ => e ← load (iq_entries q) entry;
                q' ← set_data q entry data;
                Some (disposes q (ie_data e), Ret 1, q')
    | None => if indexed_queue_full q then Some ([], Wait, q)
              else '(z, q) ← indexed_queue_push a q key data; Some ([], Ret z, q)
    end.

Definition indexed_queue_pop_ex (q : iqueue) : option (outcome ptr * iqueue) :=
  if indexed_queue_empty q then Some (Wait, q)
  else '(p, q) ← indexed_queue_pop q; Some (Ret p, q).

(** [rc] is what [pthread_cond_timedwait] returns in this pass. *)
Definition indexed_queue_pop_ex_timedwait (rc : Z) (q : iqueue) : option (outcome ptr * iqueue) :=
  if indexed_queue_empty q then
    Some (if rc =? 0 then Wait else Ret NULL, q)
  else '(p, q) ← indexed_queue_pop q; Some (Ret p, q).

Definition indexed_queue_get_ex := indexed_queue_get.
Definition indexed_queue_peek_ex := indexed_queue_peek.
Definition indexed_queue_delete_ex := indexed_queue_delete.
Definition indexed_queue_update_ex := indexed_queue_update.
End indexed_queue.
Arguments iqueue : clear implicits.
