(* ===== verification/IndexedSpec.v ===== *)
(** The indexed queue as a list of keyed elements, proved against the
    interface of its index. *)

From S2P Require Import Prelude Keyed Dll Monitor LinkedQueue RBDelete RBMap OrdIndex IndexedQueue.

(** One element: the addresses of its queue node and of its entry, its key
    and its data. *)
Record iel := IEl { el_node : loc; el_entry : loc; el_key : cstr; el_data : loc }.
#[export] Instance iel_eq_dec : EqDecision iel.
Proof. solve_decision. Defined.

Definition el_link (x : iel) : loc * ptr := (el_node x, Some (el_data x)).
Definition el_index (x : iel) : cstr * ptr := (el_key x, Some (el_entry x)).
Definition el_cell (x : iel) : loc * iq_entry :=
  (el_entry x, IQEntry (el_key x) (Some (el_data x)) (Some (el_node x))).
Definition el_kv (x : iel) : cstr * loc := (el_key x, el_data x).

(** The elements can be told apart by what [indexed_queue_pop] looks at: the
    key that the callback computes, or the data pointer. *)
Definition keyed_by (gk : option (ptr → option cstr)) (xs : list (cstr * loc)) : Prop :=
  match gk with
  | Some f => Forall (λ kv, f (Some kv.2) = Some kv.1) xs
  | None => NoDup xs.*2
  end.

(** ** The abstract queue: pairs in insertion order, one per key *)

Fixpoint kv_get (ys : list (cstr * loc)) (k : cstr) : ptr :=
  match ys with
  | [] => NULL
  | (k', d) :: ys => if decide (k' = k) then Some d else kv_get ys k
  end.
Definition kv_set (ys : list (cstr * loc)) (k : cstr) (d : loc) : list (cstr * loc) :=
  (λ kv, if decide (kv.1 = k) then (k, d) else kv) <$> ys.
Definition kv_del (ys : list (cstr * loc)) (k : cstr) : list (cstr * loc) :=
  filter (λ kv, kv.1 ≠ k) ys.

Lemma kv_absent ys k d :
  k ∉ ys.*1 → kv_get ys k = NULL ∧ kv_set ys k d = ys ∧ kv_del ys k = ys.
Proof.
  induction ys as [|[k' d'] ys IH]; intros Hn; [done|]. rewrite fmap_cons in Hn.
  apply not_elem_of_cons in Hn as [Hne Hn]. simpl in Hne. destruct (IH Hn) as (H1 & H2 & H3).
  unfold kv_set, kv_del in *. rewrite fmap_cons, filter_cons, H2, H3. cbn [kv_get fst].
  by rewrite !decide_False, decide_True by done.
Qed.

Lemma kv_present ys1 k d ys2 d' :
  NoDup (ys1 ++ (k, d) :: ys2).*1 →
  kv_get (ys1 ++ (k, d) :: ys2) k = Some d ∧
  kv_set (ys1 ++ (k, d) :: ys2) k d' = ys1 ++ (k, d') :: ys2 ∧
  kv_del (ys1 ++ (k, d) :: ys2) k = ys1 ++ ys2.
Proof.
  rewrite fmap_app, fmap_cons. intros (_ & H1 & H2)%NoDup_middle. simpl in *.
  destruct (kv_absent ys1 k d' H1) as (G1 & S1 & D1), (kv_absent ys2 k d' H2) as (G2 & S2 & D2).
  split_and!.
  - clear -G1. induction ys1 as [|[k1 d1] ys1 IH]; simpl in *; [by rewrite decide_True|].
    destruct (decide (k1 = k)); [done|]. auto.
  - unfold kv_set in *. rewrite fmap_app, fmap_cons, S1, S2. simpl. by rewrite decide_True.
  - unfold kv_del in *. rewrite filter_app, filter_cons, D1, D2. by rewrite decide_False by naive_solver.
Qed.

(** The calls, with whether [strdup] succeeds in those that allocate, and what
    they return: the data disposed of and the result. *)
Inductive iq_cmd :=
  | IPush (ok : bool) (k : cstr) (d : loc) | IUpsert (ok : bool) (k : cstr) (d : loc)
  | IUpdate (k : cstr) (d : loc) | IGet (k : cstr) | IPeek | IPop | IDelete (k : cstr) | ISize.
Inductive iq_ret := IZ (z : Z) | IP (p : ptr).

Definition ys_full (max : Z) (ys : list (cstr * loc)) : bool :=
  negb (max =? 0) && (max <=? length ys).
Definition ys_push (max : Z) (ok : bool) (ys : list (cstr * loc)) (k : cstr) (d : loc) :
    Z * list (cstr * loc) :=
  if ys_full max ys || bool_decide (k ∈ ys.*1) || negb ok then (-1, ys) else (0, ys ++ [(k, d)]).

Definition ys_exec (max : Z) (disp : bool) (ys : list (cstr * loc)) (c : iq_cmd) :
    list ptr * iq_ret * list (cstr * loc) :=
  match c with
  | IPush ok k d => let '(z, ys) := ys_push max ok ys k d in ([], IZ z, ys)
  | IUpsert ok k d =>
      if decide (k ∈ ys.*1) then (if disp then [kv_get ys k] else [], IZ 0, kv_set ys k d)
      else let '(z, ys) := ys_push max ok ys k d in ([], IZ z, ys)
  | IUpdate k d => ([], IP (kv_get ys k), kv_set ys k d)
  | IGet k => ([], IP (kv_get ys k), ys)
  | IPeek => ([], IP (snd <$> head ys), ys)
  | IPop => ([], IP (snd <$> head ys), tail ys)
  | IDelete k => if decide (k ∈ ys.*1) then (if disp then [kv_get ys k] else [], IZ 1, kv_del ys k)
                 else ([], IZ 0, ys)
  | ISize => ([], IZ (length ys), ys)
  end.

Section spec.
Context {T : Type} `{OrdIndex T}.
Implicit Types (q : iqueue T) (xs : list iel).

Record iq_rep (q : iqueue T) (xs : list iel) : Prop := {
  ir_queue : lq_rep (iq_queue q) (el_link <$> xs);
  ir_index : oi_rep (iq_index q) (list_to_map (el_index <$> xs));
  ir_cells : iq_entries q = list_to_map (el_cell <$> xs);
  ir_keys : NoDup (el_key <$> xs);
  ir_locs : NoDup (el_entry <$> xs);
  ir_size : iq_size q = length xs ∧ length xs < 18446744073709551616;
  ir_keyed : keyed_by (iq_get_key q) (el_kv <$> xs)
}.

Lemma idx_fst xs : (el_index <$> xs).*1 = el_key <$> xs.
Proof. rewrite <-list_fmap_compose. done. Qed.
Lemma cell_fst xs : (el_cell <$> xs).*1 = el_entry <$> xs.
Proof. rewrite <-list_fmap_compose. done. Qed.
Lemma kv_fst xs : (el_kv <$> xs).*1 = el_key <$> xs.
Proof. rewrite <-list_fmap_compose. done. Qed.
Lemma kv_snd xs : (el_kv <$> xs).*2 = el_data <$> xs.
Proof. rewrite <-list_fmap_compose. done. Qed.

(** The index at a key that is present: the element, and the maps without it. *)
Lemma split_key q xs1 x xs2 :
  iq_rep q (xs1 ++ x :: xs2) →
  list_to_map (el_index <$> xs1 ++ x :: xs2) =@{gmap cstr ptr}
    <[el_key x := Some (el_entry x)]> (list_to_map (el_index <$> xs1 ++ xs2)) ∧
  (list_to_map (el_index <$> xs1 ++ xs2) : gmap cstr ptr) !! el_key x = None ∧
  list_to_map (el_cell <$> xs1 ++ x :: xs2) =@{gmap loc iq_entry}
    <[el_entry x := IQEntry (el_key x) (Some (el_data x)) (Some (el_node x))]>
      (list_to_map (el_cell <$> xs1 ++ xs2)) ∧
  (list_to_map (el_cell <$> xs1 ++ xs2) : gmap loc iq_entry) !! el_entry x = None.
Proof.
  intros [_ _ _ Hk Hl _ _]. rewrite !fmap_app, !fmap_cons in *.
  destruct (list_to_map_middle (el_index <$> xs1) (el_index <$> xs2) (el_key x) (Some (el_entry x))) as [H1 H2].
  { rewrite fmap_app, fmap_cons, !idx_fst. done. }
  destruct (list_to_map_middle (el_cell <$> xs1) (el_cell <$> xs2) (el_entry x)
    (IQEntry (el_key x) (Some (el_data x)) (Some (el_node x)))) as [H3 H4].
  { rewrite fmap_app, fmap_cons, !cell_fst. done. }
  split_and!; done.
Qed.

Lemma find_key q xs key :
  iq_rep q xs →
  (∃ xs1 x xs2, xs = xs1 ++ x :: xs2 ∧ el_key x = key ∧
     oi_get (iq_index q) key = Some (Some (el_entry x)) ∧
     iq_entries q !! el_entry x = Some (IQEntry key (Some (el_data x)) (Some (el_node x)))) ∨
  (key ∉ el_key <$> xs ∧ oi_get (iq_index q) key = Some NULL ∧
   (list_to_map (el_index <$> xs) : gmap cstr ptr) !! key = None).
Proof.
  intros Hr. pose proof (oi_get_spec _ _ key (ir_index _ _ Hr)) as Hg.
  destruct (decide (key ∈ el_key <$> xs)) as [Hin|Hni].
  - left. apply list_elem_of_fmap in Hin as (x & -> & Hin). apply list_elem_of_split in Hin as (xs1 & xs2 & ->).
    destruct (split_key _ _ _ _ Hr) as (H1 & _ & H3 & _). exists xs1, x, xs2. split_and!; try done.
    + by rewrite Hg, H1, lookup_insert_eq.
    + by rewrite (ir_cells _ _ Hr), H3, lookup_insert_eq.
  - right. assert ((list_to_map (el_index <$> xs) : gmap cstr ptr) !! key = None) as Hn.
    { apply not_elem_of_list_to_map_1. by rewrite idx_fst. }
    split_and!; [done| |done]. by rewrite Hg, Hn.
Qed.

Lemma iq_full q xs :
  iq_rep q xs → indexed_queue_full q = negb (iq_max q =? 0) && (iq_max q <=? length xs).
Proof.
  intros Hr. unfold indexed_queue_full. destruct (ir_size _ _ Hr) as [-> _]. by destruct (iq_max q =? 0).
Qed.

Lemma iq_empty q xs : iq_rep q xs → indexed_queue_empty q = bool_decide (xs = []).
Proof.
  intros Hr. unfold indexed_queue_empty. destruct (ir_size _ _ Hr) as [-> _].
  destruct xs; [done|]. rewrite bool_decide_false by done. apply Z.eqb_neq. simpl. lia.
Qed.

(** The addresses that the allocator returns are unused. *)
Definition mem_fresh (a : iq_mem) (q : iqueue T) : Prop :=
  iq_entries q !! im_entry a = None ∧ lq_nodes (iq_queue q) !! im_node a = None ∧
  oi_fresh (iq_index q) (im_tree a).

(** The element [k], [d] may join [ys]. *)
Definition may_add (gk : option (ptr → option cstr)) (ys : list (cstr * loc)) (k : cstr) (d : loc) : Prop :=
  match gk with Some f => f (Some d) = Some k | None => d ∉ ys.*2 end.

Definition same_conf (q q' : iqueue T) : Prop :=
  iq_max q' = iq_max q ∧ iq_dispose q' = iq_dispose q ∧ iq_get_key q' = iq_get_key q.

Lemma push_sim a q xs k d :
  iq_rep q xs → mem_fresh a q → (k ∉ el_key <$> xs → may_add (iq_get_key q) (el_kv <$> xs) k d) →
  Z.of_nat (S (length xs)) < 18446744073709551616 →
  if indexed_queue_full q || bool_decide (k ∈ el_key <$> xs) || negb (im_ok a)
  then indexed_queue_push a q k (Some d) = Some (-1, q)
  else ∃ q' x, indexed_queue_push a q k (Some d) = Some (0, q') ∧ iq_rep q' (xs ++ [x]) ∧
         el_kv x = (k, d) ∧ same_conf q q'.
Proof.
  intros Hr (Hfe & Hfn & Hft) Hadd Hlen. unfold indexed_queue_push. cbn [is_null].
  destruct (indexed_queue_full q); [done|]. cbn [orb].
  destruct (find_key q xs k Hr) as [(xs1 & x & xs2 & -> & <- & -> & _)|(Hni & -> & Hidx)].
  { rewrite bool_decide_true; [done|]. rewrite fmap_app, elem_of_app. right. by left. }
  rewrite bool_decide_false by done. cbn [mbind option_bind not_null is_null negb orb].
  destruct (im_ok a); [|done]. cbn [negb].
  destruct (push_spec _ _ (im_node a) (Some d) (ir_queue _ _ Hr) Hfn) as (lq & -> & Hlq). cbn [mbind option_bind].
  pose proof (oi_insert_spec (im_tree a) _ _ k (Some (im_entry a)) (ir_index _ _ Hr) Hft) as Hins.
  rewrite Hidx in Hins. destruct Hins as (t & -> & Ht). cbn [mbind option_bind].
  set (x := IEl (im_node a) (im_entry a) k d). eexists _, x. split; [done|]. split; [|done].
  assert (im_entry a ∉ el_entry <$> xs) as Hea.
  { rewrite (ir_cells _ _ Hr) in Hfe. apply not_elem_of_list_to_map_2 in Hfe. by rewrite cell_fst in Hfe. }
  assert (NoDup (el_key <$> xs ++ [x]) ∧ NoDup (el_entry <$> xs ++ [x])) as [Hk Hl].
  { rewrite !fmap_app. split; apply NoDup_snoc; split; try done; [apply (ir_keys _ _ Hr)|apply (ir_locs _ _ Hr)]. }
  split; try done; cbn [iq_queue iq_index iq_entries iq_size iq_get_key with_parts].
  - rewrite fmap_app. exact Hlq.
  - replace (list_to_map (el_index <$> xs ++ [x])) with (<[k := Some (im_entry a)]> (list_to_map (el_index <$> xs)) : gmap cstr ptr);
      [done|]. rewrite fmap_app. simpl.
    pose proof (list_to_map_middle (el_index <$> xs) [] k (Some (im_entry a))) as Hmid. rewrite app_nil_r in Hmid.
    symmetry. apply Hmid. rewrite fmap_app, idx_fst. by rewrite fmap_app in Hk.
  - rewrite (ir_cells _ _ Hr), fmap_app. simpl.
    pose proof (list_to_map_middle (el_cell <$> xs) [] (im_entry a) (IQEntry k (Some d) (Some (im_node a)))) as Hmid.
    rewrite app_nil_r in Hmid. symmetry. apply Hmid. rewrite fmap_app, cell_fst. by rewrite fmap_app in Hl.
  - destruct (ir_size _ _ Hr) as [-> _]. rewrite length_app. simpl. split; [|lia].
    rewrite wrap64_id by (unfold size_t; lia). lia.
  - specialize (Hadd Hni). rewrite fmap_app. unfold keyed_by, may_add in *. pose proof (ir_keyed _ _ Hr) as Hky. unfold keyed_by in Hky.
    destruct (iq_get_key q).
    + apply Forall_app. split; [done|]. by repeat constructor.
    + rewrite fmap_app. apply NoDup_snoc. done.
Qed.

(** Overwriting the data of an element in place. *)
Lemma set_data_sim q xs1 x xs2 d :
  let x' := IEl (el_node x) (el_entry x) (el_key x) d in
  iq_rep q (xs1 ++ x :: xs2) → keyed_by (iq_get_key q) (el_kv <$> xs1 ++ x' :: xs2) →
  ∃ q', set_data q (Some (el_entry x)) (Some d) = Some q' ∧ iq_rep q' (xs1 ++ x' :: xs2) ∧ same_conf q q'.
Proof.
  intros x' Hr Hky. destruct (split_key _ _ _ _ Hr) as (H1 & H2 & H3 & H4).
  assert (iq_entries q !! el_entry x = Some (IQEntry (el_key x) (Some (el_data x)) (Some (el_node x)))) as He.
  { by rewrite (ir_cells _ _ Hr), H3, lookup_insert_eq. }
  unfold set_data. cbn [load]. rewrite He. cbn [mbind option_bind]. rewrite (store_Some _ _ _ _ He).
  cbn [mbind option_bind ie_node].
  pose proof (ir_queue _ _ Hr) as (Hd & Hf & Hla & Hel). rewrite fmap_app, fmap_cons in Hd.
  pose proof Hd as (_ & _ & Hs). apply dseg_lookup in Hs.
  pose proof (dll_set_val _ _ _ _ (Some d) _ Hd) as Hd'. change (el_link x) with (el_node x, Some (el_data x)) in *.
  rewrite (store_Some _ _ _ _ Hs). cbn [mbind option_bind]. eexists. split; [done|]. split; [|done].
  assert ((el_key <$> xs1 ++ x' :: xs2) = (el_key <$> xs1 ++ x :: xs2) ∧
          (el_entry <$> xs1 ++ x' :: xs2) = (el_entry <$> xs1 ++ x :: xs2)) as [Ek Ee].
  { by rewrite !fmap_app, !fmap_cons. }
  assert (length (xs1 ++ x' :: xs2) = length (xs1 ++ x :: xs2)) as El by (by rewrite !length_app).
  split; cbn [iq_queue iq_index iq_entries iq_size iq_get_key with_parts]; rewrite ?Ek, ?Ee, ?El; try done.
  - rewrite !fmap_app, !fmap_cons in *. split_and!; cbn [lq_nodes lq_first lq_last lq_elements].
    + exact Hd'.
    + rewrite Hf. by destruct xs1.
    + rewrite Hla, !last_ptr_app. change (el_link x') with (el_node x, Some d).
      change (el_link x) with (el_node x, Some (el_data x)). by rewrite !last_ptr_cons.
    + rewrite Hel, !length_app. done.
  - replace (el_index <$> xs1 ++ x' :: xs2) with (el_index <$> xs1 ++ x :: xs2); [apply (ir_index _ _ Hr)|].
    by rewrite !fmap_app, !fmap_cons.
  - rewrite (ir_cells _ _ Hr), H3, insert_insert_eq. symmetry. rewrite !fmap_app, !fmap_cons in *.
    apply (list_to_map_middle (el_cell <$> xs1) (el_cell <$> xs2) (el_entry x) (IQEntry (el_key x) (Some d) (Some (el_node x)))).
    rewrite fmap_app, fmap_cons, !cell_fst. pose proof (ir_locs _ _ Hr) as Hl. by rewrite fmap_app, fmap_cons in Hl.
  - apply (ir_keys _ _ Hr).
  - apply (ir_locs _ _ Hr).
  - apply (ir_size _ _ Hr).
Qed.

(** Removing an element from the index frees its entry. *)
Lemma index_delete_sim q xs1 x xs2 :
  iq_rep q (xs1 ++ x :: xs2) →
  ∃ t, index_delete (iq_index q) (iq_entries q) (el_key x) = Some (t, list_to_map (el_cell <$> xs1 ++ xs2)) ∧
       oi_rep t (list_to_map (el_index <$> xs1 ++ xs2)).
Proof.
  intros Hr. destruct (split_key _ _ _ _ Hr) as (H1 & H2 & H3 & H4). unfold index_delete.
  pose proof (oi_delete_spec _ _ (el_key x) (ir_index _ _ Hr)) as Hd. rewrite H1, lookup_insert_eq in Hd.
  destruct Hd as (t & -> & Ht). cbn [mbind option_bind disposed not_null is_null negb andb free_entries].
  unfold free. rewrite (ir_cells _ _ Hr), H3, lookup_insert_eq. cbn [mbind option_bind].
  rewrite !delete_insert_id in * by done. by exists t.
Qed.

(** What is left after the removal of one element. *)
Lemma iq_rep_remove q xs1 x xs2 lq t :
  iq_rep q (xs1 ++ x :: xs2) → lq_rep lq (el_link <$> xs1 ++ xs2) → oi_rep t (list_to_map (el_index <$> xs1 ++ xs2)) →
  iq_rep (with_parts q lq t (list_to_map (el_cell <$> xs1 ++ xs2)) (wrap64 (iq_size q - 1))) (xs1 ++ xs2).
Proof.
  intros [_ _ _ Hk Hl [Hs Hb] Hky] Hlq Ht. rewrite fmap_app, fmap_cons in Hk.
  rewrite fmap_app, fmap_cons in Hl. rewrite fmap_app, fmap_cons in Hky. rewrite length_app in Hs, Hb. simpl in Hs, Hb.
  split; try done; cbn [iq_size iq_get_key with_parts].
  - rewrite fmap_app. by apply NoDup_middle in Hk as [? _].
  - rewrite fmap_app. by apply NoDup_middle in Hl as [? _].
  - rewrite Hs, length_app. rewrite wrap64_id by (unfold size_t; lia). lia.
  - rewrite fmap_app. unfold keyed_by in *. destruct (iq_get_key q).
    + apply Forall_app in Hky as [? [_ ?]%Forall_cons]. by apply Forall_app.
    + rewrite fmap_app in *. simpl in Hky. by apply NoDup_middle in Hky as [? _].
Qed.

(** The search by data finds the key of the element that was popped. *)
Lemma find_by_data_sim q xs x ks :
  iq_rep q xs → x ∈ xs → NoDup (el_data <$> xs) → (∀ k, k ∈ ks → k ∈ el_key <$> xs) → el_key x ∈ ks →
  find_by_data (iq_index q) (iq_entries q) ks (Some (el_data x)) = Some (Some (el_key x)).
Proof.
  intros Hr Hx Hnd Hsub Hin. induction ks as [|k ks IH]; [by apply not_elem_of_nil in Hin|]. simpl.
  destruct (find_key q xs k Hr) as [(xs1 & y & xs2 & E & Ey & -> & He)|(Hni & _)].
  2: { exfalso. apply Hni, Hsub. by left. }
  cbn [mbind option_bind load]. rewrite He. cbn [mbind option_bind ie_data].
  assert (y ∈ xs) as Hy by (rewrite E, elem_of_app; right; by left).
  destruct (decide (y = x)) as [->|Hne].
  - rewrite ptr_eqb_refl. by rewrite Ey.
  - assert (ptr_eqb (Some (el_data y)) (Some (el_data x)) = false) as ->.
    { apply ptr_eqb_neq. intros [= Ed]. apply Hne. 
      apply list_elem_of_lookup in Hx as [i Hi], Hy as [j Hj].
      assert (i = j); [|congruence]. eapply (NoDup_lookup (el_data <$> xs)); [done| |].
      - rewrite list_lookup_fmap, Hi. done.
      - rewrite list_lookup_fmap, Hj. simpl. by rewrite Ed. }
    apply IH.
    + intros. apply Hsub. by right.
    + apply elem_of_cons in Hin as [E'|]; [|done]. exfalso. apply Hne.
      apply list_elem_of_lookup in Hx as [i Hi], Hy as [j Hj].
      assert (i = j); [|congruence]. eapply (NoDup_lookup (el_key <$> xs)); [apply (ir_keys _ _ Hr)| |].
      * rewrite list_lookup_fmap, Hi. done.
      * rewrite list_lookup_fmap, Hj. simpl. congruence.
Qed.

Lemma keys_of_index xs k :
  NoDup (el_key <$> xs) → k ∈ keys_of (list_to_map (el_index <$> xs)) ↔ k ∈ el_key <$> xs.
Proof.
  intros Hk. unfold keys_of. rewrite merge_sort_Permutation, map_to_list_to_map by (by rewrite idx_fst).
  by rewrite idx_fst.
Qed.

Lemma pop_sim q xs :
  iq_rep q xs →
  match xs with
  | [] => indexed_queue_pop q = Some (NULL, q)
  | x :: xs' => ∃ q', indexed_queue_pop q = Some (Some (el_data x), q') ∧ iq_rep q' xs' ∧ same_conf q q'
  end.
Proof.
  intros Hr. unfold indexed_queue_pop. rewrite (iq_empty _ _ Hr). destruct xs as [|x xs]; [done|].
  rewrite bool_decide_false by done. pose proof (pop_spec _ _ (ir_queue _ _ Hr)) as Hp. simpl in Hp.
  destruct Hp as (lq & -> & Hlq & _). cbn [mbind option_bind].
  assert ((match iq_get_key q with
           | Some f => Some (f (Some (el_data x)))
           | None => ks ← oi_keys (iq_index q); find_by_data (iq_index q) (iq_entries q) ks (Some (el_data x))
           end) = Some (Some (el_key x))) as ->.
  { pose proof (ir_keyed _ _ Hr) as Hky. unfold keyed_by in Hky. destruct (iq_get_key q) as [f|].
    - apply Forall_cons in Hky as [Hf _]. simpl in Hf. by rewrite Hf.
    - rewrite (oi_keys_spec _ _ (ir_index _ _ Hr)). cbn [mbind option_bind]. rewrite kv_snd in Hky.
      apply (find_by_data_sim q (x :: xs)); [done|by left|done| |].
      + intros k Hk. by apply keys_of_index in Hk; [|apply (ir_keys _ _ Hr)].
      + apply keys_of_index; [apply (ir_keys _ _ Hr)|by left]. }
  cbn [mbind option_bind]. destruct (index_delete_sim q [] x xs Hr) as (t & -> & Ht). cbn [mbind option_bind app] in *.
  eexists. split; [done|]. split; [|done]. by apply (iq_rep_remove q [] x xs).
Qed.

(** The unlinking of a queue node by its address. *)
Lemma unlink_sim lq ls1 l a ls2 :
  lq_rep lq (ls1 ++ (l, a) :: ls2) →
  ∃ n first last h1 h2 h3, lq_nodes lq !! l = Some n ∧
    match dn_prev n with
    | Some _ => h ← store (lq_nodes lq) (dn_prev n) (set_next (dn_next n)); Some (lq_first lq, h)
    | None => Some (dn_next n, lq_nodes lq)
    end = Some (first, h1) ∧
    match dn_next n with
    | Some _ => h ← store h1 (dn_next n) (set_prev (dn_prev n)); Some (lq_last lq, h)
    | None => Some (dn_prev n, h1)
    end = Some (last, h2) ∧ free h2 (Some l) = Some h3 ∧
    lq_rep (LQueue (wrap32 (lq_elements lq - 1)) first last h3) (ls1 ++ ls2).
Proof.
  intros (Hd & Hf & Hla & He). pose proof (dll_unlink _ _ _ _ _ Hd) as Hu. unfold unlink_heap in Hu.
  destruct Hd as (Hnd & _ & Hs). pose proof (dseg_lookup _ _ _ _ _ _ _ Hs) as Hl.
  rewrite fmap_app in Hnd. simpl in Hnd. apply NoDup_middle in Hnd as (Hnd & Hl1 & Hl2).
  assert (wrap32 (lq_elements lq - 1) = wrap32 (length (ls1 ++ ls2))) as Hel.
  { rewrite He, wrap32_sub_l, !length_app. f_equal. simpl. lia. }
  destruct ls1 as [|[r b] ls1 _] using rev_ind; destruct ls2 as [|[r2 b2] ls2]; simpl in *.
  - eexists _, _, _, _, _, _. split; [exact Hl|]. simpl. rewrite Hl. by split_and!.
  - pose proof Hs as [_ [Hr2 _]]. eexists _, _, _, _, _, _. split; [exact Hl|]. simpl. rewrite Hr2. simpl.
    split; [done|]. split; [done|]. apply not_elem_of_cons in Hl2 as [Hne _].
    rewrite lookup_insert_ne, Hl by done. split; [done|]. by split_and!.
  - rewrite last_ptr_snoc, last_snoc, removelast_last in *. rewrite <-app_assoc in Hs. simpl in Hs. apply dseg_lookup in Hs.
    apply notin_snoc in Hl1 as [_ Hne].
    eexists _, _, _, _, _, _. split; [exact Hl|]. simpl. rewrite Hs. simpl. split; [done|]. split; [done|].
    rewrite lookup_insert_ne, Hl by done. split; [done|]. split_and!; try done; simpl.
    + rewrite Hf, app_nil_r. by destruct ls1 as [|[]].
    + by rewrite app_nil_r, last_ptr_snoc.
  - rewrite last_ptr_snoc, last_snoc, removelast_last in *.
    pose proof (dseg_lookup _ _ ((ls1 ++ [(r, b)]) ++ [(l, a)]) _ _ ls2 _ ltac:(rewrite <-app_assoc; exact Hs)) as Hr2.
    rewrite last_ptr_snoc in Hr2.
    rewrite <-app_assoc in Hs. simpl in Hs. apply dseg_lookup in Hs.
    apply notin_snoc in Hl1 as [_ Hne]. apply not_elem_of_cons in Hl2 as [Hne2 _].
    assert (r ≠ r2) as Hrr.
    { rewrite fmap_app, <-app_assoc in Hnd. simpl in Hnd. apply NoDup_middle in Hnd as (_ & _ & Hn).
      apply not_elem_of_cons in Hn. tauto. }
    eexists _, _, _, _, _, _. split; [exact Hl|]. simpl. rewrite Hs. simpl. split; [done|].
    rewrite lookup_insert_ne, Hr2 by done. simpl. split; [done|].
    rewrite !lookup_insert_ne, Hl by done. split; [done|]. split_and!; try done; simpl.
    + rewrite Hf. by destruct ls1 as [|[]].
    + by rewrite Hla, !last_ptr_app, !last_ptr_cons.
Qed.

Lemma delete_sim q xs key :
  iq_rep q xs →
  (∃ xs1 x xs2 q', xs = xs1 ++ x :: xs2 ∧ el_key x = key ∧
     indexed_queue_delete q key = Some (disposes q (Some (el_data x)), 1, q') ∧ iq_rep q' (xs1 ++ xs2) ∧ same_conf q q') ∨
  (key ∉ el_key <$> xs ∧ indexed_queue_delete q key = Some ([], 0, q)).
Proof.
  intros Hr. unfold indexed_queue_delete.
  destruct (find_key q xs key Hr) as [(xs1 & x & xs2 & -> & <- & -> & He)|(Hni & -> & _)]; [left|by right].
  cbn [mbind option_bind load]. rewrite He. cbn [mbind option_bind ie_node ie_data load].
  pose proof (ir_queue _ _ Hr) as Hq. rewrite fmap_app, fmap_cons in Hq.
  destruct (unlink_sim _ _ _ _ _ Hq) as (n & first & last & h1 & h2 & h3 & Hn & E1 & E2 & E3 & Hq').
  change (el_link x).1 with (el_node x) in *. rewrite Hn. cbn [mbind option_bind]. rewrite E1. cbn [mbind option_bind].
  rewrite E2. cbn [mbind option_bind]. rewrite E3. cbn [mbind option_bind].
  destruct (index_delete_sim q xs1 x xs2 Hr) as (t & -> & Ht). cbn [mbind option_bind].
  exists xs1, x, xs2. eexists. split_and!; try done. apply (iq_rep_remove q xs1 x xs2); [done| |done].
  by rewrite fmap_app.
Qed.

Lemma kv_parts xs1 x xs2 : el_kv <$> xs1 ++ x :: xs2 = (el_kv <$> xs1) ++ (el_key x, el_data x) :: (el_kv <$> xs2).
Proof. by rewrite fmap_app. Qed.

Lemma kv_present_rep q xs1 x xs2 d :
  iq_rep q (xs1 ++ x :: xs2) →
  kv_get (el_kv <$> xs1 ++ x :: xs2) (el_key x) = Some (el_data x) ∧
  kv_set (el_kv <$> xs1 ++ x :: xs2) (el_key x) d =
    el_kv <$> xs1 ++ IEl (el_node x) (el_entry x) (el_key x) d :: xs2 ∧
  kv_del (el_kv <$> xs1 ++ x :: xs2) (el_key x) = el_kv <$> xs1 ++ xs2.
Proof.
  intros Hr. pose proof (ir_keys _ _ Hr) as Hk. rewrite <-kv_fst, kv_parts in Hk.
  rewrite !kv_parts, fmap_app. by apply kv_present.
Qed.

Lemma kv_absent_rep xs k d :
  k ∉ el_key <$> xs →
  kv_get (el_kv <$> xs) k = NULL ∧ kv_set (el_kv <$> xs) k d = el_kv <$> xs ∧ kv_del (el_kv <$> xs) k = el_kv <$> xs.
Proof. rewrite <-kv_fst. apply kv_absent. Qed.

(** Giving the element of key [k] the data [d] keeps the elements apart. *)
Lemma keyed_set q xs1 x xs2 d :
  iq_rep q (xs1 ++ x :: xs2) →
  may_add (iq_get_key q) (kv_del (el_kv <$> xs1 ++ x :: xs2) (el_key x)) (el_key x) d →
  keyed_by (iq_get_key q) (el_kv <$> xs1 ++ IEl (el_node x) (el_entry x) (el_key x) d :: xs2).
Proof.
  intros Hr. destruct (kv_present_rep _ _ _ _ d Hr) as (_ & _ & ->). pose proof (ir_keyed _ _ Hr) as Hky.
  rewrite kv_parts in *. rewrite fmap_app. unfold keyed_by, may_add in *. destruct (iq_get_key q).
  - apply Forall_app in Hky as [? [_ ?]%Forall_cons]. intros. by apply Forall_app; repeat constructor.
  - rewrite !fmap_app, !fmap_cons in *. apply NoDup_middle in Hky as (? & ? & ?). simpl.
    rewrite not_elem_of_app. intros [? ?]. by apply NoDup_middle.
Qed.

(** Overwriting by key, as [indexed_queue_update] and [indexed_queue_upsert] do. *)
Lemma overwrite_sim q xs k d :
  iq_rep q xs → may_add (iq_get_key q) (kv_del (el_kv <$> xs) k) k d → k ∈ el_key <$> xs →
  ∃ p e q' xs', oi_get (iq_index q) k = Some (Some p) ∧ iq_entries q !! p = Some e ∧
    ie_data e = kv_get (el_kv <$> xs) k ∧ set_data q (Some p) (Some d) = Some q' ∧
    iq_rep q' xs' ∧ el_kv <$> xs' = kv_set (el_kv <$> xs) k d ∧ same_conf q q'.
Proof.
  intros Hr Ha Hin. destruct (find_key q xs k Hr) as [(xs1 & x & xs2 & -> & <- & Hg & He)|(Hni & _)]; [|done].
  destruct (kv_present_rep _ _ _ _ d Hr) as (G & S & _).
  destruct (set_data_sim q xs1 x xs2 d Hr (keyed_set _ _ _ _ _ Hr Ha)) as (q' & Hs & Hr' & Hc).
  eexists _, _, q', _. split_and!; [exact Hg|exact He| |exact Hs|exact Hr'|done|done..]. by rewrite G.
Qed.


Lemma get_sim q xs k : iq_rep q xs → indexed_queue_get q k = Some (kv_get (el_kv <$> xs) k).
Proof.
  intros Hr. unfold indexed_queue_get.
  destruct (find_key q xs k Hr) as [(xs1 & x & xs2 & -> & <- & -> & He)|(Hni & -> & _)]; cbn [mbind option_bind load].
  - rewrite He. by destruct (kv_present_rep _ _ _ _ xH Hr) as (-> & _).
  - by destruct (kv_absent_rep _ _ xH Hni) as (-> & _).
Qed.

Lemma peek_sim q xs : iq_rep q xs → indexed_queue_peek q = Some (snd <$> head (el_kv <$> xs)).
Proof.
  intros Hr. unfold indexed_queue_peek. rewrite (iq_empty _ _ Hr). destruct xs as [|x xs]; [done|].
  rewrite bool_decide_false by done. destruct (ir_queue _ _ Hr) as ((_ & _ & Hs) & -> & _).
  rewrite fmap_cons in *. cbn. destruct Hs as [-> _]. done.
Qed.

(** ** Sequences of calls *)

(** The addresses of the entry, of the queue node and of the tree node. *)
Context (alloc : iqueue T → loc * loc * loc).
Definition iq_alloc (q : iqueue T) (ok : bool) : iq_mem :=
  let '(e, n, t) := alloc q in IQMem e n t ok.

Definition iq_exec (q : iqueue T) (c : iq_cmd) : option (list ptr * iq_ret * iqueue T) :=
  match c with
  | IPush ok k d => '(z, q) ← indexed_queue_push (iq_alloc q ok) q k (Some d); Some ([], IZ z, q)
  | IUpsert ok k d => '(ds, z, q) ← indexed_queue_upsert (iq_alloc q ok) q k (Some d); Some (ds, IZ z, q)
  | IUpdate k d => '(p, q) ← indexed_queue_update q k (Some d); Some ([], IP p, q)
  | IGet k => p ← indexed_queue_get q k; Some ([], IP p, q)
  | IPeek => p ← indexed_queue_peek q; Some ([], IP p, q)
  | IPop => '(p, q) ← indexed_queue_pop q; Some ([], IP p, q)
  | IDelete k => '(ds, z, q) ← indexed_queue_delete q k; Some (ds, IZ z, q)
  | ISize => Some ([], IZ (indexed_queue_size q), q)
  end.

Fixpoint iq_run (q : iqueue T) (cs : list iq_cmd) : option (list (list ptr * iq_ret) * iqueue T) :=
  match cs with
  | [] => Some ([], q)
  | c :: cs => '(ds, r, q) ← iq_exec q c; '(rs, q) ← iq_run q cs; Some ((ds, r) :: rs, q)
  end.
End spec.

Fixpoint ys_run (max : Z) (disp : bool) (ys : list (cstr * loc)) (cs : list iq_cmd) :
    list (list ptr * iq_ret) * list (cstr * loc) :=
  match cs with
  | [] => ([], ys)
  | c :: cs => let '(ds, r, ys) := ys_exec max disp ys c in
               let '(rs, ys) := ys_run max disp ys cs in ((ds, r) :: rs, ys)
  end.

(** What the caller of a command promises: the data that it stores under a key
    is the data of that key (with [get_key]), or of no other element. *)
Definition cmd_ok (gk : option (ptr → option cstr)) (ys : list (cstr * loc)) (c : iq_cmd) : Prop :=
  match c with
  | IPush _ k d | IUpsert _ k d | IUpdate k d => may_add gk (kv_del ys k) k d
  | _ => True
  end.
Fixpoint cmds_ok (max : Z) (disp : bool) gk (ys : list (cstr * loc)) (cs : list iq_cmd) : Prop :=
  match cs with
  | [] => True
  | c :: cs => cmd_ok gk ys c ∧ cmds_ok max disp gk (ys_exec max disp ys c).2 cs
  end.

#[export] Instance cmd_ok_dec ys c : Decision (cmd_ok None ys c).
Proof. destruct c; simpl; apply _. Defined.
#[export] Instance cmds_ok_dec max disp ys cs : Decision (cmds_ok max disp None ys cs).
Proof. revert ys. induction cs; intros ys; simpl; apply _. Defined.

Section run.
Context {T : Type} `{OrdIndex T}.
Context (alloc : iqueue T → loc * loc * loc).
Context (alloc_fresh : ∀ q ok, mem_fresh (iq_alloc alloc q ok) q).
Implicit Types (q : iqueue T) (xs : list iel).

Lemma push_exec q xs ok k d :
  iq_rep q xs → may_add (iq_get_key q) (kv_del (el_kv <$> xs) k) k d → Z.of_nat (S (length xs)) < 18446744073709551616 →
  let r := ys_push (iq_max q) ok (el_kv <$> xs) k d in
  ∃ q' xs', indexed_queue_push (iq_alloc alloc q ok) q k (Some d) = Some (r.1, q') ∧
    iq_rep q' xs' ∧ el_kv <$> xs' = r.2 ∧ same_conf q q'.
Proof using alloc_fresh.
  intros Hr Ha Hlen. pose proof (push_sim (iq_alloc alloc q ok) q xs k d Hr (alloc_fresh q ok)) as Hp.
  assert (im_ok (iq_alloc alloc q ok) = ok) as Eok by (unfold iq_alloc; by destruct (alloc q) as [[??]?]).
  rewrite Eok in Hp. unfold ys_push, ys_full. rewrite length_fmap, <-(iq_full _ _ Hr), kv_fst.
  destruct (indexed_queue_full q || bool_decide (k ∈ el_key <$> xs) || negb ok).
  - exists q, xs. split; [|done]. apply Hp; [|done]. intros Hni. by destruct (kv_absent_rep _ _ xH Hni) as (_ & _ & <-).
  - destruct Hp as (q' & x & Hp & Hr' & Hx & Hc); [|done|].
    + intros Hni. by destruct (kv_absent_rep _ _ xH Hni) as (_ & _ & <-).
    + exists q', (xs ++ [x]). split_and!; try done. rewrite fmap_app. simpl. by rewrite Hx.
Qed.

Lemma iq_exec_sim q xs c :
  iq_rep q xs → cmd_ok (iq_get_key q) (el_kv <$> xs) c → Z.of_nat (S (length xs)) < 18446744073709551616 →
  let r := ys_exec (iq_max q) (iq_dispose q) (el_kv <$> xs) c in
  ∃ q' xs', iq_exec alloc q c = Some (r.1, q') ∧ iq_rep q' xs' ∧ el_kv <$> xs' = r.2 ∧ same_conf q q'.
Proof using alloc_fresh.
  intros Hr Ha Hlen. destruct c as [ok k d|ok k d|k d|k| | |k|]; cbn [iq_exec ys_exec cmd_ok] in *.
  - destruct (push_exec q xs ok k d Hr Ha Hlen) as (q' & xs' & -> & Hr' & Hk & Hc).
    destruct (ys_push _ _ _ _ _) as [z ys]. by exists q', xs'.
  - unfold indexed_queue_upsert. cbn [is_null]. rewrite kv_fst. destruct (decide (k ∈ el_key <$> xs)) as [Hin|Hni].
    + destruct (overwrite_sim q xs k d Hr Ha Hin) as (p & e & q' & xs' & -> & He & Hd & Hs & Hr' & Hk & Hc).
      cbn [mbind option_bind load]. rewrite He. cbn [mbind option_bind]. rewrite Hs. cbn [mbind option_bind].
      exists q', xs'. rewrite Hd. done.
    + destruct (find_key q xs k Hr) as [(xs1 & x & xs2 & -> & <- & _)|(_ & -> & _)].
      { exfalso. apply Hni. rewrite fmap_app, elem_of_app. right. by left. }
      cbn [mbind option_bind]. destruct (push_exec q xs ok k d Hr Ha Hlen) as (q' & xs' & -> & Hr' & Hk & Hc).
      destruct (ys_push _ _ _ _ _) as [z ys]. by exists q', xs'.
  - unfold indexed_queue_update. cbn [is_null]. destruct (decide (k ∈ el_key <$> xs)) as [Hin|Hni].
    + destruct (overwrite_sim q xs k d Hr Ha Hin) as (p & e & q' & xs' & -> & He & Hd & Hs & Hr' & Hk & Hc).
      cbn [mbind option_bind load]. rewrite He. cbn [mbind option_bind]. rewrite Hs. cbn [mbind option_bind].
      exists q', xs'. rewrite Hd. done.
    + destruct (find_key q xs k Hr) as [(xs1 & x & xs2 & -> & <- & _)|(_ & -> & _)].
      { exfalso. apply Hni. rewrite fmap_app, elem_of_app. right. by left. }
      destruct (kv_absent_rep xs k d Hni) as (-> & -> & _). by exists q, xs.
  - rewrite (get_sim _ _ _ Hr). by exists q, xs.
  - rewrite (peek_sim _ _ Hr). by exists q, xs.
  - pose proof (pop_sim _ _ Hr) as Hp. destruct xs as [|x xs].
    + rewrite Hp. by exists q, [].
    + destruct Hp as (q' & -> & Hr' & Hc). by exists q', xs.
  - destruct (delete_sim q xs k Hr) as [(xs1 & x & xs2 & q' & -> & <- & -> & Hr' & Hc)|(Hni & ->)].
    + destruct (kv_present_rep _ _ _ _ xH Hr) as (-> & _ & ->).
      rewrite decide_True by (rewrite kv_fst, fmap_app, elem_of_app; right; by left).
      by exists q', (xs1 ++ xs2).
    + rewrite decide_False by (by rewrite kv_fst). by exists q, xs.
  - exists q, xs. unfold indexed_queue_size. destruct (ir_size _ _ Hr) as [-> _]. by rewrite length_fmap.
Qed.

Lemma ys_exec_length max disp ys c : (length (ys_exec max disp ys c).2 <= S (length ys))%nat.
Proof.
  assert (∀ ok k d, (length (ys_push max ok ys k d).2 <= S (length ys))%nat) as Hp.
  { intros. unfold ys_push. case_match; simpl; [lia|]. rewrite length_app. simpl. lia. }
  destruct c as [ok k d|ok k d|k d|k| | |k|]; cbn [ys_exec]; try (simpl; lia).
  - specialize (Hp ok k d). by destruct (ys_push _ _ _ _ _).
  - case_match; [simpl; unfold kv_set; rewrite length_fmap; lia|].
    specialize (Hp ok k d). by destruct (ys_push _ _ _ _ _).
  - simpl. unfold kv_set. rewrite length_fmap. lia.
  - destruct ys; simpl; lia.
  - case_match; simpl; [|lia]. unfold kv_del. pose proof (length_filter (λ kv, kv.1 ≠ k) ys). lia.
Qed.

Lemma iq_run_sim q xs cs :
  iq_rep q xs → cmds_ok (iq_max q) (iq_dispose q) (iq_get_key q) (el_kv <$> xs) cs →
  Z.of_nat (length xs + length cs) < 18446744073709551616 →
  let r := ys_run (iq_max q) (iq_dispose q) (el_kv <$> xs) cs in
  ∃ q' xs', iq_run alloc q cs = Some (r.1, q') ∧ iq_rep q' xs' ∧ el_kv <$> xs' = r.2 ∧ same_conf q q'.
Proof using alloc_fresh.
  revert q xs. induction cs as [|c cs IH]; intros q xs Hr Hok Hlen; [by exists q, xs|].
  destruct Hok as [Hc Hok]. cbn [length] in Hlen. cbn [iq_run ys_run].
  destruct (iq_exec_sim q xs c Hr Hc) as (q1 & xs1 & -> & Hr1 & Hk1 & Hm & Hd & Hg); [lia|].
  pose proof (ys_exec_length (iq_max q) (iq_dispose q) (el_kv <$> xs) c) as Hlen1.
  destruct (ys_exec _ _ _ _) as [[ds r] ys1]. cbn [mbind option_bind fst snd] in *. rewrite <-Hk1, !length_fmap in *.
  destruct (IH q1 xs1 Hr1) as (q2 & xs2 & -> & Hr2 & Hk2 & Hm2 & Hd2 & Hg2); [by rewrite Hm, Hd, Hg|lia|].
  rewrite Hm, Hd in *. destruct (ys_run _ _ _ _) as [rs ys2]. cbn [mbind option_bind fst snd] in *.
  exists q2, xs2. split_and!; try done. unfold same_conf. split_and!; congruence.
Qed.
End run.

(** ** Release *)

Lemma pop_all_spec lq ls fuel :
  lq_rep lq ls → Forall (λ p, not_null p = true) ls.*2 → (length ls < fuel)%nat →
  ∃ lq', pop_all fuel lq = Some (ls.*2, lq') ∧ lq_nodes lq' = ∅.
Proof.
  revert lq fuel. induction ls as [|[l a] ls IH]; intros lq [|fuel] Hr Hn Hf; try (simpl in Hf; lia).
  - simpl. rewrite (pop_spec _ _ Hr). simpl. exists lq. split; [done|].
    destruct Hr as ((_ & Hd & _) & _). by apply dom_empty_inv_L.
  - destruct (pop_spec _ _ Hr) as (lq1 & Hp & Hr1 & _). cbn [pop_all]. rewrite Hp. cbn [mbind option_bind].
    rewrite fmap_cons in Hn. apply Forall_cons in Hn as [Ha Hn]. destruct a as [a|]; [|done].
    destruct (IH lq1 fuel Hr1 Hn) as (lq' & -> & He); [simpl in Hf; lia|]. by exists lq'.
Qed.

Lemma free_entries_all (es : heap iq_entry) ps ls :
  ps ≡ₚ Some <$> ls → NoDup ls → dom es = list_to_set ls → free_entries es ps = Some ∅.
Proof.
  revert es ls. induction ps as [|p ps IH]; intros es ls Hp Hnd Hd; simpl.
  - apply Permutation_nil_l in Hp. destruct ls; [|done]. f_equal. by apply dom_empty_inv_L.
  - assert (p ∈ Some <$> ls) as (l & -> & (l1 & l2 & ->)%list_elem_of_split)%list_elem_of_fmap.
    { rewrite <-Hp. by left. }
    apply NoDup_middle in Hnd as (Hnd & H1 & H2). rewrite list_to_set_app_L in Hd. cbn [list_to_set] in Hd.
    assert (is_Some (es !! l)) as [e He] by (apply elem_of_dom; rewrite Hd; set_solver).
    unfold free. rewrite He. cbn [mbind option_bind]. apply (IH _ (l1 ++ l2)); [|done|].
    + rewrite fmap_app, fmap_cons, <-Permutation_middle in Hp. rewrite fmap_app. by apply Permutation_cons_inv in Hp.
    + rewrite dom_delete_L, Hd, list_to_set_app_L.
      assert (l ∉ (list_to_set l1 ∪ list_to_set l2 : gset loc)); [|set_solver].
      rewrite elem_of_union, !elem_of_list_to_set. tauto.
Qed.

Lemma free_sim {T} `{OrdIndex T} (q : iqueue T) xs :
  iq_rep q xs →
  indexed_queue_free q = Some (if iq_dispose q then Some ∘ el_data <$> xs else [], ∅, ∅).
Proof.
  intros Hr. unfold indexed_queue_free.
  assert ((el_link <$> xs).*2 = Some ∘ el_data <$> xs) as Hsnd by (by rewrite <-list_fmap_compose).
  destruct (pop_all_spec (iq_queue q) (el_link <$> xs) (S (size (lq_nodes (iq_queue q))))) as (lq & -> & He).
  - apply (ir_queue _ _ Hr).
  - rewrite Hsnd. apply Forall_fmap, Forall_true. done.
  - destruct (ir_queue _ _ Hr) as (Hd & _). rewrite (dll_size _ _ Hd). lia.
  - cbn [mbind option_bind]. destruct (oi_free_spec _ _ (ir_index _ _ Hr)) as (ds & -> & Hds). cbn [mbind option_bind].
    rewrite (free_entries_all _ ds (el_entry <$> xs)); [|
      rewrite Hds, map_to_list_to_map by (rewrite idx_fst; apply (ir_keys _ _ Hr))|apply (ir_locs _ _ Hr)|].
    + rewrite Hsnd. cbn [mbind option_bind]. unfold linked_queue_free. by rewrite He.
    + clear. induction xs as [|x xs IH]; [done|]. cbn. by rewrite IH.
    + by rewrite (ir_cells _ _ Hr), dom_list_to_map_L, cell_fst.
Qed.

Lemma iq_rep_init {T} `{OrdIndex T} (max : Z) disp gk :
  iq_rep (indexed_queue_set_get_key (indexed_queue_set_dispose (indexed_queue_init max) disp) gk) ([] : list iel).
Proof.
  split; try done; try constructor; cbn.
  - apply dll_nil.
  - done.
  - apply oi_init_rep.
  - destruct gk; constructor.
Qed.

(** * Claims *)

Definition iq_new {T} `{OrdIndex T} (max : Z) disp gk : iqueue T :=
  indexed_queue_set_get_key (indexed_queue_set_dispose (indexed_queue_init max) disp) gk.


(** A concrete allocator for the red-black tree index. *)
Definition rb_alloc (q : iqueue RBTree.rb_tree) : loc * loc * loc :=
  (next_addr (iq_entries q), next_addr (lq_nodes (iq_queue q)), next_addr (RBTree.rb_heap (iq_index q))).
Lemma rb_alloc_fresh q ok : mem_fresh (iq_alloc rb_alloc q ok) q.
Proof. split_and!; apply next_addr_fresh. Qed.


(** [indexed_queue_free] after any sequence of calls hands the remaining data
    to [dispose] (when it is set), oldest first, and leaves no entry and no
    queue node allocated. *)
Theorem indexed_queue_free_releases_all {T} `{OrdIndex T} (alloc : iqueue T → loc * loc * loc) max disp gk cs :
  (∀ q ok, mem_fresh (iq_alloc alloc q ok) q) →
  cmds_ok max disp gk [] cs → Z.of_nat (length cs) < 18446744073709551616 →
  ∃ rs q, iq_run alloc (iq_new max disp gk) cs = Some (rs, q) ∧
    indexed_queue_free q = Some (if disp then Some ∘ snd <$> (ys_run max disp [] cs).2 else [], ∅, ∅).
Proof.
  intros Ha Hok Hlen.
  destruct (iq_run_sim alloc Ha _ [] cs (iq_rep_init max disp gk) Hok Hlen) as (q & xs & Hq & Hr & Hk & _ & Hd & _).
  eexists _, q. split; [exact Hq|]. rewrite (free_sim _ _ Hr), Hd. cbn in Hk |- *.
  rewrite <-Hk, <-list_fmap_compose. done.
Qed.

Lemma indexed_queue_free_releases_all_witness :
  ∃ rs (q : iqueue RBTree.rb_tree),
    iq_run rb_alloc (iq_new 0 true None) [IPush true [98] 1%positive; IPush true [97] 2%positive] = Some (rs, q) ∧
    indexed_queue_free q = Some ([Some 1%positive; Some 2%positive], ∅, ∅).
Proof.
  destruct (indexed_queue_free_releases_all rb_alloc 0 true None
    [IPush true [98] 1%positive; IPush true [97] 2%positive] rb_alloc_fresh) as (rs & q & Hq & Hf).
  - by apply (bool_decide_unpack _); vm_compute.
  - done.
  - by exists rs, q.
Defined.

(** [indexed_queue_upsert_ex] does not look the key up again after it has
    waited for room: when another thread has inserted the key meanwhile, the
    upsert fails and stores nothing, where a fresh call would overwrite. *)
Theorem indexed_queue_upsert_ex_stale {T} `{OrdIndex T} (a : iq_mem) (q : iqueue T) xs k d :
  iq_rep q xs → k ∈ el_key <$> xs → may_add (iq_get_key q) (kv_del (el_kv <$> xs) k) k d →
  indexed_queue_full q = false →
  indexed_queue_upsert_ex true a q k (Some d) = Some ([], Ret (-1), q) ∧
  ∃ q', indexed_queue_upsert_ex false a q k (Some d) = Some (disposes q (kv_get (el_kv <$> xs) k), Ret 1, q').
Proof.
  intros Hr Hin Ha Hfull.
  destruct (overwrite_sim q xs k d Hr Ha Hin) as (p & e & q' & xs' & Hg & He & Hd & Hs & _).
  unfold indexed_queue_upsert_ex, indexed_queue_push. cbn [is_null mbind option_bind]. rewrite Hfull, Hg.
  split; [done|]. cbn [mbind option_bind load]. rewrite He. cbn [mbind option_bind]. rewrite Hs. exists q'. by rewrite <-Hd.
Qed.

Lemma indexed_queue_upsert_ex_stale_witness :
  ∃ rs (q : iqueue RBTree.rb_tree) a,
    iq_run rb_alloc (iq_new 2 true None) [IPush true [98] 1%positive; IPush true [97] 2%positive; IPop] = Some (rs, q) ∧
    indexed_queue_upsert_ex true a q [97] (Some 3%positive) = Some ([], Ret (-1), q).
Proof.
  set (cs := [IPush true [98] 1%positive; IPush true [97] 2%positive; IPop]).
  assert (∃ rs (q : iqueue RBTree.rb_tree) xs, iq_run rb_alloc (iq_new 2 true None) cs = Some (rs, q) ∧ iq_rep q xs ∧
    el_kv <$> xs = [([97], 2%positive)] ∧ iq_max q = 2 ∧ iq_get_key q = None) as (rs & q & xs & Hq & Hr & Hk & Hm & Hg).
  { destruct (iq_run_sim rb_alloc rb_alloc_fresh (iq_new 2 true None) [] cs (iq_rep_init 2 true None))
      as (q & xs & Hq & Hr & Hk & Hm & _ & Hg); [|done|].
    - by apply (bool_decide_unpack _); vm_compute.
    - eexists _, q, xs. split_and!; [exact Hq|exact Hr|rewrite Hk; reflexivity|exact Hm|exact Hg]. }
  exists rs, q, (iq_alloc rb_alloc q true). split; [done|].
  apply (indexed_queue_upsert_ex_stale _ q xs).
  - done.
  - rewrite <-kv_fst, Hk. by left.
  - rewrite Hk, Hg. cbn. apply not_elem_of_nil.
  - rewrite (iq_full _ _ Hr), Hm, <-(length_fmap el_kv), Hk. reflexivity.
Defined.

(** Without [get_key], [indexed_queue_pop] removes the first index entry in key
    order that has the data it popped.  When the same pointer was pushed under
    two keys, the entry that stays points to the freed queue node, and the next
    [indexed_queue_delete] of its key reads freed memory. *)
Theorem indexed_queue_pop_duplicates :
  (let q := iq_new 0 false None : iqueue RBTree.rb_tree in
   '(rs, q) ← iq_run rb_alloc q [IPush true [98] 1%positive; IPush true [97] 1%positive; IPop; IGet [97]; IGet [98]];
   Some (rs, indexed_queue_delete q [98])) =
  Some ([([], IZ 0); ([], IZ 0); ([], IP (Some 1%positive)); ([], IP NULL); ([], IP (Some 1%positive))], None).
Proof. vm_compute. reflexivity. Qed.
