(* ===== verification/B64.v ===== *)
(** Base64, src/shared/b64.c: the encoder and the decoder over bounded buffers,
    their round trip and their memory safety. *)

From S2P Require Import Prelude.

Definition encode (u : Z) : Z :=
  if u <? 26 then 65 + u
  else if u <? 52 then 97 + (u - 26)
  else if u <? 62 then 48 + (u - 52)
  else if u =? 62 then 43
  else 47.

Definition decode (c : Z) : Z :=
  if (65 <=? c) && (c <=? 90) then c - 65
  else if (97 <=? c) && (c <=? 122) then c - 97 + 26
  else if (48 <=? c) && (c <=? 57) then c - 48 + 52
  else if c =? 43 then 62
  else 63.

Definition is_base64 (c : Z) : bool :=
  ((65 <=? c) && (c <=? 90)) || ((97 <=? c) && (c <=? 122)) || ((48 <=? c) && (c <=? 57)) ||
  (c =? 43) || (c =? 47) || (c =? 61).

(** The loop of [encode_base64]: three bytes in, four characters out. *)
Fixpoint encode_loop (fuel : nat) (src : list Z) (size cap i : Z) (out : list Z) : option (list Z) :=
  match fuel with
  | O => None
  | S fuel =>
      if i <? size then
        b1 ← rd src i;
        b2 ← (if i + 1 <? size then rd src (i + 1) else Some 0);
        b3 ← (if i + 2 <? size then rd src (i + 2) else Some 0);
        let b4 := Z.shiftr b1 2 in
        let b5 := Z.lor (Z.shiftl (Z.land b1 3) 4) (Z.shiftr b2 4) in
        let b6 := Z.lor (Z.shiftl (Z.land b2 15) 2) (Z.shiftr b3 6) in
        let b7 := Z.land b3 63 in
        out ← put cap out (encode b4);
        out ← put cap out (encode b5);
        out ← put cap out (if i + 1 <? size then encode b6 else 61);
        out ← put cap out (if i + 2 <? size then encode b7 else 61);
        encode_loop fuel src size cap (i + 3) out
      else Some out
  end.

(** [strlen] of a memory block: the bytes before its first NUL. *)
Fixpoint block_strlen (src : list Z) : option Z :=
  match src with
  | [] => None
  | c :: src => if c =? 0 then Some 0 else n ← block_strlen src; Some (n + 1)
  end.

(** [encode_base64(size, src)]: [src] is the memory block, [mem] says whether
    [calloc] succeeds.  The result is the buffer: the bytes written, then zeros.
    [size * 4] is computed in [int]. *)
Definition encode_base64 (mem : bool) (size : Z) (src : option (list Z)) : option (option (list Z)) :=
  match src with
  | None => Some None
  | Some src =>
      size ← (if size =? 0 then n ← block_strlen src; Some (int32 n) else Some size);
      if (INT_MAX <? size * 4) || (size * 4 <? - INT_MAX - 1) then None
      else if negb mem then Some None
      else
        let cap := wrap64 (Z.quot (size * 4) 3 + 4) in
        out ← encode_loop (S (Z.to_nat size)) src size cap 0 [];
        Some (Some (out ++ replicate (Z.to_nat cap - length out) 0))
  end.

(** The first loop of [decode_base64]: the base64 characters go to [buf]. *)
Fixpoint collect (cap : Z) (src : list Z) (buf : list Z) : option (list Z) :=
  match src with
  | [] => Some buf
  | c :: src => if is_base64 c then buf ← put cap buf c; collect cap src buf else collect cap src buf
  end.

(** The second loop: four characters in, up to three bytes out. *)
Fixpoint decode_loop (fuel : nat) (buf : list Z) (cap k : Z) (out : list Z) : option (list Z) :=
  match fuel with
  | O => None
  | S fuel =>
      let l := Z.of_nat (length buf) in
      if k <? l then
        c1 ← rd buf k;
        c2 ← (if k + 1 <? l then rd buf (k + 1) else Some 65);
        c3 ← (if k + 2 <? l then rd buf (k + 2) else Some 65);
        c4 ← (if k + 3 <? l then rd buf (k + 3) else Some 65);
        let b1 := decode c1 in let b2 := decode c2 in let b3 := decode c3 in let b4 := decode c4 in
        out ← put cap out (Z.land (Z.lor (Z.shiftl b1 2) (Z.shiftr b2 4)) 255);
        out ← (if negb (c3 =? 61) then put cap out (Z.land (Z.lor (Z.shiftl (Z.land b2 15) 4) (Z.shiftr b3 2)) 255)
               else Some out);
        out ← (if negb (c4 =? 61) then put cap out (Z.land (Z.lor (Z.shiftl (Z.land b3 3) 6) b4) 255)
               else Some out);
        decode_loop fuel buf cap (k + 4) out
      else Some out
  end.

(** [decode_base64(src)]; [mem1] and [mem2] say whether the two allocations
    succeed.  A string whose length does not fit the [int] arithmetic is
    outside the model. *)
Definition decode_base64 (mem1 mem2 : bool) (src : option cstr) : option (option (list Z)) :=
  match src with
  | None | Some [] => Some None
  | Some src =>
      if INT_MAX <? strlen src + 14 then None
      else if negb mem1 || negb mem2 then Some None
      else
        let l := strlen src + 1 in
        buf ← collect l src [];
        out ← decode_loop (S (length buf)) buf (l + 13) 0 [];
        Some (Some (out ++ replicate (Z.to_nat (l + 13) - length out) 0))
  end.

(** * Reference: the codec on lists *)

Definition quad (b1 b2 b3 : Z) : list Z :=
  [encode (b1 / 4); encode (b1 mod 4 * 16 + b2 / 16); encode (b2 mod 16 * 4 + b3 / 64); encode (b3 mod 64)].

Fixpoint b64 (l : list Z) : list Z :=
  match l with
  | a :: b :: c :: r => quad a b c ++ b64 r
  | [a; b] => take 3 (quad a b 0) ++ [61]
  | [a] => take 2 (quad a 0 0) ++ [61; 61]
  | [] => []
  end.

(** Induction three elements at a time. *)
Lemma list3_ind {A} (P : list A → Prop) :
  P [] → (∀ a, P [a]) → (∀ a b, P [a; b]) → (∀ a b c r, P r → P (a :: b :: c :: r)) → ∀ l, P l.
Proof.
  intros H0 H1 H2 H3. fix IH 1. intros [|a [|b [|c r]]]; [done|apply H1|apply H2|]. apply H3, IH.
Qed.

(** Shifts and masks as arithmetic. *)
Lemma lor_shift a b n : 0 <= n → 0 <= b < 2 ^ n → Z.lor (Z.shiftl a n) b = a * 2 ^ n + b.
Proof.
  intros Hn Hb. rewrite Z.shiftl_mul_pow2 by done.
  assert (Z.land (a * 2 ^ n) b = 0) as H0.
  { apply Z.bits_inj'. intros m Hm. rewrite Z.land_spec, Z.bits_0.
    destruct (Z.ltb_spec m n); [by rewrite Z.mul_pow2_bits_low|].
    rewrite <-(Z.mod_small b (2 ^ n)) by done. rewrite Z.mod_pow2_bits_high by lia. apply andb_false_r. }
  rewrite <-Z.lxor_lor by done. symmetry. by apply Z.add_nocarry_lxor.
Qed.

(** The bytes of a group, as the loops compute them. *)
Lemma shift_arith b1 b2 b3 :
  byte b1 → byte b2 → byte b3 →
  Z.shiftr b1 2 = b1 / 4 ∧
  Z.lor (Z.shiftl (Z.land b1 3) 4) (Z.shiftr b2 4) = b1 mod 4 * 16 + b2 / 16 ∧
  Z.lor (Z.shiftl (Z.land b2 15) 2) (Z.shiftr b3 6) = b2 mod 16 * 4 + b3 / 64 ∧
  Z.land b3 63 = b3 mod 64.
Proof.
  unfold byte. intros. rewrite !Z.shiftr_div_pow2 by lia.
  change 3 with (Z.ones 2). change 15 with (Z.ones 4). change 63 with (Z.ones 6).
  rewrite !Z.land_ones by lia. rewrite !lor_shift by (simpl; Z.to_euclidean_division_equations; lia). done.
Qed.

Lemma unshift_arith u1 u2 u3 u4 :
  0 <= u1 < 64 → 0 <= u2 < 64 → 0 <= u3 < 64 → 0 <= u4 < 64 →
  Z.land (Z.lor (Z.shiftl u1 2) (Z.shiftr u2 4)) 255 = u1 * 4 + u2 / 16 ∧
  Z.land (Z.lor (Z.shiftl (Z.land u2 15) 4) (Z.shiftr u3 2)) 255 = u2 mod 16 * 16 + u3 / 4 ∧
  Z.land (Z.lor (Z.shiftl (Z.land u3 3) 6) u4) 255 = u3 mod 4 * 64 + u4.
Proof.
  intros. rewrite !Z.shiftr_div_pow2 by lia.
  change 3 with (Z.ones 2). change 15 with (Z.ones 4). change 255 with (Z.ones 8).
  rewrite !(Z.land_ones _ 2), !(Z.land_ones _ 4) by lia.
  rewrite !lor_shift by (simpl; Z.to_euclidean_division_equations; lia). rewrite !Z.land_ones by lia.
  simpl. split_and!; apply Z.mod_small; Z.to_euclidean_division_equations; lia.
Qed.

Lemma encode_decode u : 0 <= u < 64 → decode (encode u) = u ∧ is_base64 (encode u) = true ∧ encode u ≠ 61.
Proof.
  intros Hu. unfold decode, encode, is_base64.
  repeat match goal with
  | |- context [?a <? ?b] => destruct (Z.ltb_spec a b); try lia
  | |- context [?a <=? ?b] => destruct (Z.leb_spec a b); try lia
  | |- context [?a =? ?b] => destruct (Z.eqb_spec a b); try lia
  end; simpl; lia.
Qed.

Lemma quad_range b1 b2 b3 :
  byte b1 → byte b2 → byte b3 →
  0 <= b1 / 4 < 64 ∧ 0 <= b1 mod 4 * 16 + b2 / 16 < 64 ∧ 0 <= b2 mod 16 * 4 + b3 / 64 < 64 ∧ 0 <= b3 mod 64 < 64.
Proof. unfold byte. intros. Z.to_euclidean_division_equations. lia. Qed.

(** ** The encoder *)

Lemma b64_length l : Z.of_nat (length (b64 l)) = 4 * ((length l + 2) / 3).
Proof.
  induction l as [|a|a b|a b c r IH] using list3_ind; [done|done|done|].
  cbn [b64]. rewrite length_app, Nat2Z.inj_add, IH. cbn [length quad]. rewrite !Nat2Z.inj_succ.
  Z.to_euclidean_division_equations. lia.
Qed.

(** Four bytes are appended when they fit. *)
Lemma put4 {A} cap out c1 c2 c3 c4 (k : list Z → option A) :
  length out + 4 <= cap →
  (out ← put cap out c1; out ← put cap out c2; out ← put cap out c3; out ← put cap out c4; k out) =
  k (out ++ [c1; c2; c3; c4]).
Proof.
  intros. do 4 (rewrite put_ok by (rewrite ?length_app; simpl; lia); cbn [mbind option_bind]).
  by rewrite <-!app_assoc.
Qed.

Lemma encode_loop_spec l rest fuel pre out cap :
  Forall byte l → Z.of_nat (length out + length (b64 l)) <= cap → (length l < fuel)%nat →
  encode_loop fuel (pre ++ l ++ rest) (length (pre ++ l)) cap (length pre) out = Some (out ++ b64 l).
Proof.
  revert fuel pre out. induction l as [|a|a b|a b c r IH] using list3_ind; intros [|fuel] pre out Hb Hc Hf;
    try (simpl in Hf; lia); cbn [encode_loop].
  - rewrite (app_nil_r pre), Z.ltb_irrefl. by rewrite app_nil_r.
  - pose proof (rd_app pre ([a] ++ rest) 0) as R0. rewrite Z.add_0_r in R0. rewrite R0. cbn [app lookup list_lookup mbind option_bind].
    apply Forall_cons in Hb as [Ha _]. rewrite length_app in *.
    rewrite (proj2 (Z.ltb_lt _ _)), !(proj2 (Z.ltb_ge _ _)) by (simpl; lia). cbn [mbind option_bind].
    destruct (shift_arith a 0 0 Ha ltac:(done) ltac:(done)) as (-> & -> & _ & _).
    rewrite put4 by (simpl in Hc; lia). destruct fuel; [simpl in Hf; lia|]. cbn [encode_loop].
    by rewrite (proj2 (Z.ltb_ge _ _)) by (simpl; lia).
  - pose proof (rd_app pre ([a; b] ++ rest) 0) as R0. rewrite Z.add_0_r in R0. rewrite R0.
    pose proof (rd_app pre ([a; b] ++ rest) 1) as R1. change (Z.of_nat 1) with 1 in R1. rewrite R1.
    cbn [app lookup list_lookup mbind option_bind].
    apply Forall_cons in Hb as [Ha [Hb _]%Forall_cons]. rewrite length_app in *.
    rewrite (proj2 (Z.ltb_lt (length pre) _)) by (simpl; lia).
    rewrite !(proj2 (Z.ltb_lt (length pre + 1) _)), !(proj2 (Z.ltb_ge (length pre + 2) _)) by (simpl; lia).
    cbn [mbind option_bind]. destruct (shift_arith a b 0 Ha Hb ltac:(done)) as (-> & -> & -> & _).
    rewrite put4 by (simpl in Hc; lia). destruct fuel; [simpl in Hf; lia|]. cbn [encode_loop].
    by rewrite (proj2 (Z.ltb_ge _ _)) by (simpl; lia).
  - pose proof (rd_app pre ((a :: b :: c :: r) ++ rest) 0) as R0. rewrite Z.add_0_r in R0. rewrite R0.
    pose proof (rd_app pre ((a :: b :: c :: r) ++ rest) 1) as R1. change (Z.of_nat 1) with 1 in R1. rewrite R1.
    pose proof (rd_app pre ((a :: b :: c :: r) ++ rest) 2) as R2. change (Z.of_nat 2) with 2 in R2. rewrite R2.
    cbn [app lookup list_lookup mbind option_bind].
    apply Forall_cons in Hb as [Ha [Hb [Hc' Hr]%Forall_cons]%Forall_cons]. rewrite length_app in *.
    rewrite (proj2 (Z.ltb_lt (length pre) _)) by (simpl; lia).
    rewrite !(proj2 (Z.ltb_lt (length pre + 1) _)), !(proj2 (Z.ltb_lt (length pre + 2) _)) by (simpl; lia).
    cbn [mbind option_bind b64] in *. destruct (shift_arith a b c Ha Hb Hc') as (-> & -> & -> & ->). rewrite length_app in Hc. rewrite put4 by (simpl in Hc; lia).
    specialize (IH fuel (pre ++ [a; b; c]) (out ++ quad a b c) Hr).
    rewrite <-app_assoc, !length_app in IH. cbn [app length] in IH, Hc, Hf |- *.
    replace (length pre + 3) with (Z.of_nat (length pre + 3)) by lia. rewrite <-app_assoc in IH. cbn [app quad] in *.
    replace (length pre + S (S (S (length r))))%nat with (length pre + 3 + length r)%nat by lia.
    apply IH; cbn [length quad] in *; lia.
Qed.

(** ** The decoder *)

Definition trip (c1 c2 c3 c4 : Z) : list Z :=
  let b1 := decode c1 in let b2 := decode c2 in let b3 := decode c3 in let b4 := decode c4 in
  (b1 * 4 + b2 / 16) ::
  (if c3 =? 61 then [] else [b2 mod 16 * 16 + b3 / 4]) ++ (if c4 =? 61 then [] else [b3 mod 4 * 64 + b4]).

Fixpoint unb64 (l : list Z) : list Z :=
  match l with
  | c1 :: c2 :: c3 :: c4 :: r => trip c1 c2 c3 c4 ++ unb64 r
  | [c1; c2; c3] => trip c1 c2 c3 65
  | [c1; c2] => trip c1 c2 65 65
  | [c1] => trip c1 65 65 65
  | [] => []
  end.

Lemma list4_ind {A} (P : list A → Prop) :
  P [] → (∀ a, P [a]) → (∀ a b, P [a; b]) → (∀ a b c, P [a; b; c]) →
  (∀ a b c d r, P r → P (a :: b :: c :: d :: r)) → ∀ l, P l.
Proof.
  intros H0 H1 H2 H3 H4. fix IH 1. intros [|a [|b [|c [|d r]]]]; [done|apply H1|apply H2|apply H3|]. apply H4, IH.
Qed.

Lemma decode_range c : 0 <= decode c < 64.
Proof.
  unfold decode.
  repeat match goal with
  | |- context [?a <=? ?b] => destruct (Z.leb_spec a b)
  | |- context [?a =? ?b] => destruct (Z.eqb_spec a b)
  end; simpl; lia.
Qed.

Lemma trip_length c1 c2 c3 c4 : (1 <= length (trip c1 c2 c3 c4) <= 3)%nat.
Proof. unfold trip. destruct (c3 =? 61), (c4 =? 61); simpl; lia. Qed.

Lemma unb64_length l : (length (unb64 l) <= length l + 2)%nat.
Proof.
  induction l as [|a|a b|a b c|a b c d r IH] using list4_ind; cbn [unb64]; rewrite ?length_app;
    try match goal with |- context [trip ?a ?b ?c ?d] => pose proof (trip_length a b c d) end; simpl in *; lia.
Qed.

(** The writes of one group. *)
Lemma put_trip {A} cap out c1 c2 c3 c4 (k : list Z → option A) :
  length out + length (trip c1 c2 c3 c4) <= cap →
  let b1 := decode c1 in let b2 := decode c2 in let b3 := decode c3 in let b4 := decode c4 in
  (out ← put cap out (Z.land (Z.lor (Z.shiftl b1 2) (Z.shiftr b2 4)) 255);
   out ← (if negb (c3 =? 61) then put cap out (Z.land (Z.lor (Z.shiftl (Z.land b2 15) 4) (Z.shiftr b3 2)) 255)
          else Some out);
   out ← (if negb (c4 =? 61) then put cap out (Z.land (Z.lor (Z.shiftl (Z.land b3 3) 6) b4) 255) else Some out);
   k out) = k (out ++ trip c1 c2 c3 c4).
Proof.
  intros Hc b1 b2 b3 b4.
  destruct (unshift_arith b1 b2 b3 b4) as (-> & -> & ->); try apply decode_range.
  unfold trip in *. destruct (c3 =? 61), (c4 =? 61); simpl in Hc |- *;
    repeat (rewrite put_ok by (rewrite ?length_app; simpl; lia); cbn [mbind option_bind]);
    by rewrite <-?app_assoc.
Qed.

(** The tests of the loop, and the reads that they guard. *)
Lemma rd_guard pre l (j : nat) d :
  (if length pre + j <? length (pre ++ l) then rd (pre ++ l) (length pre + j) else Some d) =
  Some (default d (l !! j)).
Proof.
  rewrite rd_app, length_app. destruct (Z.ltb_spec (length pre + j) (length pre + length l)%nat).
  - destruct (lookup_lt_is_Some_2 l j) as [x ->]; [lia|done].
  - by rewrite lookup_ge_None_2 by lia.
Qed.

Lemma decode_step fuel pre a l out cap :
  let c j := default 65 ((a :: l) !! j) in
  length out + length (trip a (c 1%nat) (c 2%nat) (c 3%nat)) <= cap →
  decode_loop (S fuel) (pre ++ a :: l) cap (length pre) out =
  decode_loop fuel (pre ++ a :: l) cap (length pre + 4) (out ++ trip a (c 1%nat) (c 2%nat) (c 3%nat)).
Proof.
  intros c Hc. cbn [decode_loop].
  pose proof (rd_app pre (a :: l) 0) as R0. rewrite Z.add_0_r in R0. rewrite R0. cbn [lookup list_lookup].
  pose proof (rd_guard pre (a :: l) 1 65) as R1. change (Z.of_nat 1) with 1 in R1. rewrite R1.
  pose proof (rd_guard pre (a :: l) 2 65) as R2. change (Z.of_nat 2) with 2 in R2. rewrite R2.
  pose proof (rd_guard pre (a :: l) 3 65) as R3. change (Z.of_nat 3) with 3 in R3. rewrite R3.
  rewrite (proj2 (Z.ltb_lt _ _)) by (rewrite length_app; simpl; lia). cbn [mbind option_bind].
  by rewrite put_trip.
Qed.

Lemma decode_done fuel pre l cap out (n : Z) :
  length (pre ++ l) <= n → decode_loop (S fuel) (pre ++ l) cap n out = Some out.
Proof. intros. cbn [decode_loop]. by rewrite (proj2 (Z.ltb_ge _ _)). Qed.

Lemma decode_loop_spec l fuel pre out cap :
  Z.of_nat (length out + length (unb64 l)) <= cap → (length l < fuel)%nat →
  decode_loop fuel (pre ++ l) cap (length pre) out = Some (out ++ unb64 l).
Proof.
  revert fuel pre out. induction l as [|a|a b|a b c|a b c d r IH] using list4_ind; intros [|[|fuel]] pre out Hc Hf;
    try (simpl in Hf; lia).
  1,2: rewrite decode_done by (rewrite length_app; simpl; lia); by rewrite app_nil_r.
  1-3: rewrite decode_step by (simpl in Hc |- *; lia); by rewrite decode_done by (rewrite length_app; simpl; lia).
  cbn [unb64] in Hc |- *. rewrite length_app in Hc. rewrite decode_step by (simpl in Hc |- *; lia).
  specialize (IH (S fuel) (pre ++ [a; b; c; d]) (out ++ trip a b c d)).
  rewrite <-!app_assoc, !length_app in IH. cbn [app length lookup list_lookup default] in *.
  replace (length pre + 4) with (Z.of_nat (length pre + 4)) by lia. apply IH; lia.
Qed.

Lemma collect_spec cap src buf :
  Z.of_nat (length buf + length src) <= cap → collect cap src buf = Some (buf ++ filter (λ c, is_base64 c = true) src).
Proof.
  revert buf. induction src as [|c src IH]; intros buf Hc; [by rewrite app_nil_r|].
  cbn [collect length] in *. rewrite filter_cons. destruct (is_base64 c).
  - rewrite put_ok by lia. cbn [mbind option_bind]. rewrite IH by (rewrite length_app; simpl; lia).
    rewrite decide_True by done. by rewrite <-app_assoc.
  - rewrite IH by lia. by rewrite decide_False.
Qed.

(** [decode_base64] on lists. *)
Lemma decode_base64_spec src :
  src ≠ [] → strlen src + 14 <= INT_MAX →
  let d := unb64 (filter (λ c, is_base64 c = true) src) in
  (length d <= length src + 2)%nat ∧
  decode_base64 true true (Some src) = Some (Some (d ++ replicate (length src + 14 - length d) 0)).
Proof.
  intros Hne Hl d. unfold decode_base64. destruct src as [|c src]; [done|]. set (s := c :: src) in *. clearbody s.
  rewrite (proj2 (Z.ltb_ge _ _)) by lia. cbn [negb orb]. unfold strlen in *.
  pose proof (length_filter (λ c, is_base64 c = true) s) as Hf.
  pose proof (unb64_length (filter (λ c, is_base64 c = true) s)) as Hu.
  split; [unfold d; lia|]. rewrite collect_spec by (simpl; lia). cbn [mbind option_bind app].
  pose proof (decode_loop_spec (filter (λ c, is_base64 c = true) s)
    (S (length (filter (λ c, is_base64 c = true) s))) [] [] (length s + 1 + 13)) as Hd.
  cbn [app length] in Hd. change (Z.of_nat 0) with 0 in Hd. rewrite Hd by (simpl; lia).
  cbn [mbind option_bind app]. fold d. do 4 f_equal. lia.
Qed.

(** ** Round trip *)

Lemma trip_quad a b c :
  byte a → byte b → byte c →
  trip (encode (a / 4)) (encode (a mod 4 * 16 + b / 16)) (encode (b mod 16 * 4 + c / 64)) (encode (c mod 64)) = [a; b; c] ∧
  trip (encode (a / 4)) (encode (a mod 4 * 16 + b / 16)) (encode (b mod 16 * 4)) 61 = [a; b] ∧
  trip (encode (a / 4)) (encode (a mod 4 * 16)) 61 61 = [a].
Proof.
  intros Ha Hb Hc.
  destruct (quad_range a b c Ha Hb Hc) as (R1 & R2 & R3 & R4).
  assert (0 <= b mod 16 * 4 < 64) as R3' by (Z.to_euclidean_division_equations; lia).
  assert (0 <= a mod 4 * 16 < 64) as R2' by (Z.to_euclidean_division_equations; lia).
  destruct (encode_decode _ R1) as (D1 & _ & _), (encode_decode _ R2) as (D2 & _ & _),
    (encode_decode _ R3) as (D3 & _ & N3), (encode_decode _ R4) as (D4 & _ & N4),
    (encode_decode _ R3') as (D3' & _ & N3'), (encode_decode _ R2') as (D2' & _ & _).
  unfold trip, byte in *. rewrite D1, D2, D3, D4, D3', D2'.
  rewrite !(proj2 (Z.eqb_neq _ _)) by done. cbn [app Z.eqb Pos.eqb].
  split_and!; repeat f_equal; Z.to_euclidean_division_equations; lia.
Qed.

Lemma unb64_b64 l : Forall byte l → unb64 (b64 l) = l ∧ Forall (λ c, is_base64 c = true) (b64 l).
Proof.
  induction l as [|a|a b|a b c r IH] using list3_ind; intros Hb.
  - by split; [|constructor].
  - apply Forall_cons in Hb as [Ha _]. cbn [b64 take app quad unb64].
    replace (a mod 4 * 16 + 0 / 16) with (a mod 4 * 16) by (change (0 / 16) with 0; lia).
    destruct (trip_quad a 0 0) as (_ & _ & ->); try done. split; [done|].
    pose proof (quad_range a 0 0 Ha ltac:(done) ltac:(done)) as (R1 & R2 & _).
    replace (a mod 4 * 16 + 0 / 16) with (a mod 4 * 16) in R2 by (change (0 / 16) with 0; lia).
    repeat constructor; apply encode_decode; lia.
  - apply Forall_cons in Hb as [Ha [Hb _]%Forall_cons]. cbn [b64 take app quad unb64].
    replace (b mod 16 * 4 + 0 / 64) with (b mod 16 * 4) by (change (0 / 64) with 0; lia).
    destruct (trip_quad a b 0) as (_ & -> & _); try done. split; [done|].
    pose proof (quad_range a b 0 Ha Hb ltac:(done)) as (R1 & R2 & R3 & _).
    replace (b mod 16 * 4 + 0 / 64) with (b mod 16 * 4) in R3 by (change (0 / 64) with 0; lia).
    repeat constructor; apply encode_decode; lia.
  - apply Forall_cons in Hb as [Ha [Hb [Hc Hr]%Forall_cons]%Forall_cons]. destruct (IH Hr) as [IH1 IH2].
    cbn [b64 app quad unb64]. destruct (trip_quad a b c) as (-> & _ & _); try done. rewrite IH1. split; [done|].
    pose proof (quad_range a b c Ha Hb Hc) as (R1 & R2 & R3 & R4).
    repeat (constructor; [apply encode_decode; lia|]). done.
Qed.

(** [encode_base64] on lists. *)
Lemma encode_base64_spec src rest :
  Forall byte src → src ≠ [] → length src * 4 <= INT_MAX →
  ∃ pad, encode_base64 true (length src) (Some (src ++ rest)) = Some (Some (b64 src ++ replicate (S pad) 0)).
Proof.
  intros Hb Hne Hl. unfold encode_base64. destruct (Z.eqb_spec (length src) 0) as [E|_].
  { destruct src; [done|simpl in E; lia]. }
  cbn [mbind option_bind]. unfold INT_MAX in *.
  rewrite !(proj2 (Z.ltb_ge _ _)) by lia. cbn [orb negb].
  rewrite Z.quot_div_nonneg by lia. rewrite wrap64_id by (unfold size_t; Z.to_euclidean_division_equations; lia).
  set (cap := length src * 4 / 3 + 4). pose proof (b64_length src) as Hlen.
  assert (length (b64 src) < cap) as Hcap by (unfold cap; Z.to_euclidean_division_equations; lia).
  pose proof (encode_loop_spec src rest (S (Z.to_nat (length src))) [] [] cap Hb) as He.
  cbn [app length] in He. change (Z.of_nat 0) with 0 in He. rewrite He by (simpl; lia). cbn [mbind option_bind].
  exists (Z.to_nat cap - length (b64 src) - 1)%nat. do 4 f_equal. lia.
Qed.

Lemma base64_nonzero c : is_base64 c = true → c ≠ 0.
Proof. intros H ->. done. Qed.

(** * Claims *)

(** C28: The string that [encode_base64] returns for [size] bytes decodes to these
    bytes, also after characters that are not base64 (line breaks, blanks) were
    inserted anywhere in it; neither call reads or writes out of bounds. *)
Theorem base64_roundtrip src rest :
  Forall byte src → src ≠ [] → length src * 4 <= INT_MAX →
  ∃ buf, encode_base64 true (length src) (Some (src ++ rest)) = Some (Some buf) ∧
    ∀ text, filter (λ c, is_base64 c = true) text = cstring buf → strlen text + 14 <= INT_MAX →
      ∃ pad, decode_base64 true true (Some text) = Some (Some (src ++ replicate (S pad) 0)).
Proof.
  intros Hb Hne Hl. destruct (encode_base64_spec src rest Hb Hne Hl) as [pad He].
  eexists. split; [exact He|]. intros text Ht Htl. destruct (unb64_b64 src Hb) as [Hu Hf].
  cbn [replicate] in Ht. rewrite cstring_app in Ht by (eapply Forall_impl; [exact Hf|]; intros; by apply base64_nonzero).
  assert (text ≠ []) as Htn.
  { intros ->. cbn in Ht. symmetry in Ht. rewrite Ht in Hu. by subst. }
  destruct (decode_base64_spec text Htn Htl) as [Hd ->]. rewrite Ht, Hu in *.
  exists (length text + 13 - length src)%nat. do 4 f_equal. lia.
Qed.

Lemma base64_roundtrip_witness :
  ∃ buf pad, encode_base64 true 4 (Some [0; 255; 16; 7; 0]) = Some (Some buf) ∧
    decode_base64 true true (Some [65; 80; 56; 10; 81; 66; 119; 61; 61]) = Some (Some ([0; 255; 16; 7] ++ replicate (S pad) 0)).
Proof.
  destruct (base64_roundtrip [0; 255; 16; 7] [0]) as (buf & He & Hd);
    [repeat constructor; done|done|done|].
  destruct (Hd [65; 80; 56; 10; 81; 66; 119; 61; 61]) as [pad Hp]; [|done|].
  - injection He as <-. reflexivity.
  - by exists buf, pad.
Defined.

(** Whatever the string, [decode_base64] stays within its two buffers and
    leaves a terminating NUL after the data. *)
Theorem decode_base64_safe src :
  src ≠ [] → strlen src + 14 <= INT_MAX →
  ∃ data pad, decode_base64 true true (Some src) = Some (Some (data ++ replicate (S pad) 0)) ∧
    strlen data <= strlen src + 2.
Proof.
  intros Hne Hl. destruct (decode_base64_spec src Hne Hl) as [Hd ->].
  set (d := unb64 _) in *. exists d, (length src + 13 - length d)%nat. split; [|unfold strlen; lia].
  do 4 f_equal. lia.
Qed.

Lemma decode_base64_safe_witness :
  ∃ data pad, decode_base64 true true (Some [61; 33; 61; 61; 61; 200]) = Some (Some (data ++ replicate (S pad) 0)).
Proof.
  destruct (decode_base64_safe [61; 33; 61; 61; 61; 200]) as (d & pad & H & _); [done|done|]. by exists d, pad.
Defined.
