(* ===== verification/Utf8.v ===== *)
(** UTF-8, src/shared/utf8_op.c: validation and filtering of strings, against
    the definition of the encoding by code points. *)

From S2P Require Import Prelude.

(** Reading [x[j]] of a string: its terminator is readable, what follows is
    not. *)
Definition at_ (s : cstr) (j : nat) : option Z :=
  if (j =? length s)%nat then Some 0 else s !! j.

(** [&&] and [||] evaluate their second operand only when it matters. *)
Definition and_then (a b : option bool) : option bool := a ← a; if (a : bool) then b else Some false.
Definition or_else (a b : option bool) : option bool := a ← a; if (a : bool) then Some true else b.
Infix "&&?" := and_then (at level 40, left associativity).
Infix "||?" := or_else (at level 50, left associativity).

(** [(x)[j] op k] on the byte, and on the signed [char]. *)
Definition test (s : cstr) (j : nat) (f : Z → bool) : option bool := c ← at_ s j; Some (f c).
Definition masked (m v c : Z) : bool := Z.land c m =? v.

Definition valid_1 (x : cstr) : option bool := test x 0 (masked 128 0).
Definition valid_2 (x : cstr) : option bool :=
  test x 0 (masked 224 192) &&? test x 0 (λ c, schar 194 <=? schar c) &&? test x 1 (masked 192 128).
Definition valid_3 (x : cstr) : option bool :=
  test x 0 (masked 240 224) &&? test x 1 (masked 192 128) &&? test x 2 (masked 192 128) &&?
  (test x 0 (λ c, negb (c =? 224)) ||? test x 1 (λ c, 160 <=? c)) &&?
  (test x 0 (λ c, negb (c =? 237)) ||? test x 1 (λ c, c <? 160)) &&?
  (test x 0 (λ c, negb (c =? 239)) ||? test x 1 (λ c, c <=? 191)).
Definition valid_4 (x : cstr) : option bool :=
  test x 0 (masked 248 240) &&? test x 0 (λ c, c <=? 244) &&?
  test x 1 (masked 192 128) &&? test x 2 (masked 192 128) &&? test x 3 (masked 192 128) &&?
  (test x 0 (λ c, negb (c =? 240)) ||? test x 1 (λ c, 144 <=? c)) &&?
  (test x 0 (λ c, negb (c =? 244)) ||? test x 1 (λ c, c <=? 143)).

(** [string += n]: the pointer does not leave the string. *)
Definition advance (n : nat) (s : cstr) : option cstr :=
  if (n <=? length s)%nat then Some (drop n s) else None.

(** [w_utf8_drop]: the suffix from the first byte that is not UTF-8. *)
Fixpoint drop_loop (fuel : nat) (s : cstr) : option cstr :=
  match fuel with
  | O => None
  | S fuel =>
      match s with
      | [] => Some []
      | _ =>
          v1 ← valid_1 s; if (v1 : bool) then s ← advance 1 s; drop_loop fuel s else
          v2 ← valid_2 s; if (v2 : bool) then s ← advance 2 s; drop_loop fuel s else
          v3 ← valid_3 s; if (v3 : bool) then s ← advance 3 s; drop_loop fuel s else
          v4 ← valid_4 s; if (v4 : bool) then s ← advance 4 s; drop_loop fuel s else
          Some s
      end
  end.
Definition w_utf8_drop (s : cstr) : option cstr := drop_loop (S (length s)) s.

Definition w_utf8_valid (s : cstr) : option bool :=
  s ← w_utf8_drop s; Some (match s with [] => true | _ => false end).

(** [copy[i++] = *valid++], [n] times, in a buffer of [size] bytes. *)
Fixpoint copy_n (n : nat) (size : Z) (copy : list Z) (s : cstr) : option (list Z * cstr) :=
  match n with
  | O => Some (copy, s)
  | S n => c ← at_ s 0; copy ← put size copy c; s ← advance 1 s; copy_n n size copy s
  end.

Definition REPLACEMENT_INC : Z := 4096.

(** The loop of [w_utf8_filter]. *)
Fixpoint filter_loop (fuel : nat) (replacement : bool) (s : cstr) (copy : list Z) (size repl : Z) :
    option (list Z * Z) :=
  match fuel with
  | O => None
  | S fuel =>
      match s with
      | [] => Some (copy, size)
      | _ =>
          v1 ← valid_1 s;
          if (v1 : bool) then '(copy, s) ← copy_n 1 size copy s; filter_loop fuel replacement s copy size repl else
          v2 ← valid_2 s;
          if (v2 : bool) then '(copy, s) ← copy_n 2 size copy s; filter_loop fuel replacement s copy size repl else
          v3 ← valid_3 s;
          if (v3 : bool) then '(copy, s) ← copy_n 3 size copy s; filter_loop fuel replacement s copy size repl else
          v4 ← valid_4 s;
          if (v4 : bool) then '(copy, s) ← copy_n 4 size copy s; filter_loop fuel replacement s copy size repl else
          if replacement then
            let '(size, repl) := if repl <? 3 then (wrap64 (size + REPLACEMENT_INC), wrap64 (repl + REPLACEMENT_INC))
                                 else (size, repl) in
            copy ← put size copy 239; copy ← put size copy 191; copy ← put size copy 189;
            s ← advance 1 s;
            filter_loop fuel replacement s copy size (wrap64 (repl - 3))
          else s ← advance 1 s; filter_loop fuel replacement s copy size repl
      end
  end.

(** [w_utf8_filter]: the returned string.  [copy[i] = 0] ends it. *)
Definition w_utf8_filter (s : cstr) (replacement : bool) : option cstr :=
  valid ← w_utf8_drop s;
  match valid with
  | [] => Some s
  | _ =>
      let size := wrap64 (strlen s + 1) in
      let i := (length s - length valid)%nat in
      '(copy, size) ← filter_loop (S (length valid)) replacement valid (take i s) size 0;
      _ ← put size copy 0;
      Some copy
  end.

(** * The encoding of code points *)

Definition scalar (c : Z) : Prop := 0 < c < 1114112 ∧ ¬ (55296 <= c < 57344).

Definition utf8 (c : Z) : list Z :=
  if c <? 128 then [c]
  else if c <? 2048 then [192 + c / 64; 128 + c mod 64]
  else if c <? 65536 then [224 + c / 4096; 128 + c / 64 mod 64; 128 + c mod 64]
  else [240 + c / 262144; 128 + c / 4096 mod 64; 128 + c / 64 mod 64; 128 + c mod 64].

(** The bytes of a C string *)
Definition cbyte (c : Z) : Prop := 0 < c < 256.

(** ** The tests as ranges *)

(** A property of bytes that a computation over all of them decides. *)
Lemma all_bytes (P : Z → Prop) `{∀ c, Decision (P c)} :
  forallb (λ n, bool_decide (P (Z.of_nat n))) (seq 0 256) = true → ∀ c, byte c → P c.
Proof.
  intros Hf c Hc. rewrite forallb_forall in Hf. specialize (Hf (Z.to_nat c)).
  rewrite Z2Nat.id, bool_decide_eq_true in Hf by (unfold byte in Hc; lia). apply Hf, in_seq.
  unfold byte in Hc. lia.
Qed.

Lemma masks c :
  byte c →
  masked 128 0 c = (c <? 128) ∧ masked 224 192 c = (192 <=? c) && (c <? 224) ∧
  masked 192 128 c = (128 <=? c) && (c <? 192) ∧ masked 240 224 c = (224 <=? c) && (c <? 240) ∧
  masked 248 240 c = (240 <=? c) && (c <? 248) ∧
  (masked 224 192 c = true → (schar 194 <=? schar c) = (194 <=? c)).
Proof. revert c. apply (all_bytes _). vm_compute. reflexivity. Qed.

Definition cont (c : Z) : bool := (128 <=? c) && (c <? 192).
Definition is_2 (a b : Z) : bool := (194 <=? a) && (a <? 224) && cont b.
Definition is_3 (a b c : Z) : bool :=
  (224 <=? a) && (a <? 240) && cont b && cont c &&
  (negb (a =? 224) || (160 <=? b)) && (negb (a =? 237) || (b <? 160)).
Definition is_4 (a b c d : Z) : bool :=
  (240 <=? a) && (a <=? 244) && cont b && cont c && cont d &&
  (negb (a =? 240) || (144 <=? b)) && (negb (a =? 244) || (b <=? 143)).

(** The byte at [j], 0 past the end. *)
Definition nth0 (s : cstr) (j : nat) : Z := default 0 (s !! j).

Lemma cbyte_byte c : cbyte c → byte c.
Proof. unfold cbyte, byte. lia. Qed.

Lemma valid_1_spec a r : cbyte a → valid_1 (a :: r) = Some (a <? 128).
Proof. intros Ha%cbyte_byte. cbn. destruct (masks a Ha) as (E & _). by rewrite E. Qed.

Lemma valid_2_spec a r :
  cbyte a → Forall cbyte r → valid_2 (a :: r) = Some (is_2 a (nth0 r 0)).
Proof.
  intros Ha%cbyte_byte Hr. destruct (masks a Ha) as (_ & E & _ & _ & _ & Es).
  unfold valid_2, is_2, and_then, test. cbn [at_ length Nat.eqb lookup list_lookup mbind option_bind].
  destruct (masked 224 192 a) eqn:Em; cbn [mbind option_bind].
  - rewrite (Es eq_refl). symmetry in E. apply andb_prop in E as [E1 E2]. rewrite E2, andb_true_r.
    destruct (194 <=? a); [|done]. destruct Hr as [|b r Hb _]; [done|].
    destruct (masks b (cbyte_byte _ Hb)) as (_ & _ & Eb & _). cbn. by rewrite Eb.
  - destruct (Z.leb_spec 192 a), (Z.ltb_spec a 224), (Z.leb_spec 194 a); simpl in E; try done; lia.
Qed.

Lemma or_negb s i j f g a b :
  at_ s i = Some a → at_ s j = Some b → test s i f ||? test s j g = Some (f a || g b).
Proof. intros Hi Hj. unfold test. rewrite Hi, Hj. simpl. by destruct (f a). Qed.

Lemma and_Some a b : Some a &&? Some b = Some (a && b).
Proof. by destruct a. Qed.

Lemma test_at s j f c : at_ s j = Some c → test s j f = Some (f c).
Proof. unfold test. by intros ->. Qed.

Lemma valid_3_spec a r :
  cbyte a → Forall cbyte r → valid_3 (a :: r) = Some (is_3 a (nth0 r 0) (nth0 r 1)).
Proof.
  intros Ha%cbyte_byte Hr. destruct (masks a Ha) as (_ & _ & _ & E & _).
  unfold valid_3, is_3. rewrite (test_at _ 0 _ a) by done. rewrite E.
  destruct ((224 <=? a) && (a <? 240)); [|done].
  destruct Hr as [|b r Hb Hr]; [done|]. destruct (masks b (cbyte_byte _ Hb)) as (_ & _ & Eb & _).
  rewrite (test_at _ 1 _ b), Eb by done. cbn [nth0 lookup list_lookup default from_option id].
  change ((128 <=? b) && (b <? 192)) with (cont b). destruct (cont b) eqn:Cb; [|done].
  destruct Hr as [|c r Hc Hr]; [done|]. destruct (masks c (cbyte_byte _ Hc)) as (_ & _ & Ec & _).
  rewrite (test_at _ 2 _ c), Ec by done. rewrite !(or_negb _ 0 1 _ _ a b) by done. rewrite !and_Some.
  assert ((b <=? 191) = true) as ->.
  { unfold cont in Cb. apply andb_prop in Cb as [_ H]. apply Z.ltb_lt in H. apply Z.leb_le. lia. }
  by rewrite orb_true_r, andb_true_r.
Qed.

Lemma valid_4_spec a r :
  cbyte a → Forall cbyte r → valid_4 (a :: r) = Some (is_4 a (nth0 r 0) (nth0 r 1) (nth0 r 2)).
Proof.
  intros Ha%cbyte_byte Hr. destruct (masks a Ha) as (_ & _ & _ & _ & E & _).
  unfold valid_4, is_4. rewrite (test_at _ 0 (masked 248 240) a), (test_at _ 0 (λ c, c <=? 244) a) by done.
  rewrite E, and_Some.
  replace ((240 <=? a) && (a <? 248) && (a <=? 244)) with ((240 <=? a) && (a <=? 244)).
  2: { destruct (Z.leb_spec 240 a), (Z.ltb_spec a 248), (Z.leb_spec a 244); done || lia. }
  destruct ((240 <=? a) && (a <=? 244)); [|done].
  destruct Hr as [|b r Hb Hr]; [done|]. destruct (masks b (cbyte_byte _ Hb)) as (_ & _ & Eb & _).
  rewrite (test_at _ 1 _ b), Eb by done. cbn [nth0 lookup list_lookup default from_option id].
  change ((128 <=? b) && (b <? 192)) with (cont b). destruct (cont b); [|done].
  destruct Hr as [|c r Hc Hr]; [done|]. destruct (masks c (cbyte_byte _ Hc)) as (_ & _ & Ec & _).
  rewrite (test_at _ 2 _ c), Ec by done. cbn [nth0 lookup list_lookup default from_option id].
  change ((128 <=? c) && (c <? 192)) with (cont c). destruct (cont c); [|done].
  destruct Hr as [|d r Hd Hr]; [done|]. destruct (masks d (cbyte_byte _ Hd)) as (_ & _ & Ed & _).
  rewrite (test_at _ 3 _ d), Ed by done. rewrite !(or_negb _ 0 1 _ _ a b) by done. by rewrite !and_Some.
Qed.

(** ** Characters *)

(** The length of the character at the head of a string, 0 when there is none. *)
Definition utf8_len (s : cstr) : nat :=
  match s with
  | [] => 0
  | a :: r =>
      if a <? 128 then 1
      else if is_2 a (nth0 r 0) then 2
      else if is_3 a (nth0 r 0) (nth0 r 1) then 3
      else if is_4 a (nth0 r 0) (nth0 r 1) (nth0 r 2) then 4
      else 0
  end.

(** A byte past the end is no continuation. *)
Lemma nth0_cont r j : cont (nth0 r j) = true → (j < length r)%nat.
Proof.
  unfold nth0. destruct (decide (j < length r)%nat); [done|]. rewrite lookup_ge_None_2 by lia. done.
Qed.

Lemma utf8_len_le s : (utf8_len s <= length s)%nat.
Proof.
  destruct s as [|a r]; [done|]. unfold utf8_len.
  destruct (a <? 128); [simpl; lia|].
  destruct (is_2 _ _) eqn:E2; [unfold is_2 in E2; apply andb_prop in E2 as [_ E2]; apply nth0_cont in E2; simpl; lia|].
  destruct (is_3 _ _ _) eqn:E3.
  { unfold is_3 in E3. apply andb_prop in E3 as [E3 _], E3 as [E3 _], E3 as [_ E3].
    apply nth0_cont in E3. simpl. lia. }
  destruct (is_4 _ _ _ _) eqn:E4; [|simpl; lia].
  unfold is_4 in E4. apply andb_prop in E4 as [E4 _], E4 as [E4 _], E4 as [_ E4]. apply nth0_cont in E4. simpl. lia.
Qed.

Lemma cont_spec c : cont c = true ↔ 128 <= c < 192.
Proof. unfold cont. rewrite andb_true_iff, Z.leb_le, Z.ltb_lt. lia. Qed.

Lemma is_2_spec a b : is_2 a b = true ↔ 194 <= a < 224 ∧ 128 <= b < 192.
Proof. unfold is_2. rewrite !andb_true_iff, cont_spec, Z.leb_le, Z.ltb_lt. lia. Qed.

Lemma imp_spec a k p : negb (a =? k) || p = true ↔ (a = k → p = true).
Proof. destruct (Z.eqb_spec a k), p; simpl; naive_solver. Qed.

Lemma is_3_spec a b c :
  is_3 a b c = true ↔ 224 <= a < 240 ∧ 128 <= b < 192 ∧ 128 <= c < 192 ∧ (a = 224 → 160 <= b) ∧ (a = 237 → b < 160).
Proof. unfold is_3. rewrite !andb_true_iff, !imp_spec, !cont_spec, !Z.leb_le, !Z.ltb_lt. lia. Qed.

Lemma is_4_spec a b c d :
  is_4 a b c d = true ↔ 240 <= a <= 244 ∧ 128 <= b < 192 ∧ 128 <= c < 192 ∧ 128 <= d < 192 ∧
    (a = 240 → 144 <= b) ∧ (a = 244 → b <= 143).
Proof. unfold is_4. rewrite !andb_true_iff, !imp_spec, !cont_spec, !Z.leb_le. lia. Qed.

Ltac divs := Z.to_euclidean_division_equations; lia.

Lemma utf8_len_utf8 c r : scalar c → utf8_len (utf8 c ++ r) = length (utf8 c).
Proof.
  intros [Hc Hs]. unfold utf8.
  destruct (Z.ltb_spec c 128); [cbn; by rewrite (proj2 (Z.ltb_lt _ _))|].
  assert (∀ a b, is_2 a b = false ↔ ¬ (194 <= a < 224 ∧ 128 <= b < 192)) as N2.
  { intros. by rewrite <-is_2_spec, not_true_iff_false. }
  assert (∀ a b c, is_3 a b c = false ↔ ¬ (224 <= a < 240 ∧ 128 <= b < 192 ∧ 128 <= c < 192 ∧ (a = 224 → 160 <= b) ∧ (a = 237 → b < 160))) as N3.
  { intros. by rewrite <-is_3_spec, not_true_iff_false. }
  destruct (Z.ltb_spec c 2048); [|destruct (Z.ltb_spec c 65536)];
    cbn [app utf8_len nth0 lookup list_lookup default from_option id length].
  - rewrite (proj2 (Z.ltb_ge _ _)) by divs. by rewrite (proj2 (is_2_spec _ _)) by divs.
  - rewrite (proj2 (Z.ltb_ge _ _)) by divs. rewrite (proj2 (N2 _ _)) by divs.
    by rewrite (proj2 (is_3_spec _ _ _)) by divs.
  - rewrite (proj2 (Z.ltb_ge _ _)) by divs. rewrite (proj2 (N2 _ _)) by divs. rewrite (proj2 (N3 _ _ _)) by divs.
    by rewrite (proj2 (is_4_spec _ _ _ _)) by divs.
Qed.

Lemma utf8_len_inv s :
  Forall cbyte s → utf8_len s ≠ 0%nat → ∃ c r, scalar c ∧ s = utf8 c ++ r.
Proof.
  intros Hs Hn. pose proof (utf8_len_le s) as Hle. destruct s as [|a r]; [done|]. apply Forall_cons in Hs as [Ha Hr].
  unfold utf8_len, cbyte in *. destruct (Z.ltb_spec a 128).
  { exists a, r. unfold utf8, scalar. rewrite (proj2 (Z.ltb_lt _ _)) by lia. split; [lia|done]. }
  destruct (is_2 _ _) eqn:E2.
  { destruct r as [|b r]; [simpl in Hle; lia|]. apply is_2_spec in E2. cbn in E2.
    exists ((a - 192) * 64 + (b - 128)), r. unfold utf8, scalar. split; [divs|].
    rewrite (proj2 (Z.ltb_ge _ _)), (proj2 (Z.ltb_lt _ _)) by divs. simpl. f_equal; [divs|]. f_equal. divs. }
  destruct (is_3 _ _ _) eqn:E3.
  { destruct r as [|b [|c r]]; [simpl in Hle; lia..|]. apply is_3_spec in E3. cbn in E3.
    exists ((a - 224) * 4096 + (b - 128) * 64 + (c - 128)), r. unfold utf8, scalar. split; [lia|].
    rewrite !(proj2 (Z.ltb_ge _ _)), (proj2 (Z.ltb_lt _ _)) by divs. simpl.
    f_equal; [divs|]. f_equal; [divs|]. f_equal. divs. }
  destruct (is_4 _ _ _ _) eqn:E4; [|done].
  destruct r as [|b [|c [|d r]]]; [simpl in Hle; lia..|]. apply is_4_spec in E4. cbn in E4.
  exists ((a - 240) * 262144 + (b - 128) * 4096 + (c - 128) * 64 + (d - 128)), r. unfold utf8, scalar. split; [lia|].
  rewrite !(proj2 (Z.ltb_ge _ _)) by divs. simpl.
  f_equal; [divs|]. f_equal; [divs|]. f_equal; [divs|]. f_equal. divs.
Qed.

(** ** The loops *)

Lemma advance_ok n s : (n <= length s)%nat → advance n s = Some (drop n s).
Proof. intros. unfold advance. by rewrite (proj2 (Nat.leb_le _ _)). Qed.

Lemma drop_loop_step fuel a r :
  cbyte a → Forall cbyte r →
  drop_loop (S fuel) (a :: r) =
  match utf8_len (a :: r) with O => Some (a :: r) | n => drop_loop fuel (drop n (a :: r)) end.
Proof.
  intros Ha Hr. cbn [drop_loop]. pose proof (utf8_len_le (a :: r)) as Hle.
  rewrite (valid_1_spec _ _ Ha), (valid_2_spec _ _ Ha Hr), (valid_3_spec _ _ Ha Hr), (valid_4_spec _ _ Ha Hr).
  unfold utf8_len in *. cbn [mbind option_bind].
  destruct (a <? 128); [by rewrite advance_ok|]. destruct (is_2 _ _); [by rewrite advance_ok|].
  destruct (is_3 _ _ _); [by rewrite advance_ok|]. destruct (is_4 _ _ _ _); [by rewrite advance_ok|done].
Qed.

Lemma copy_n_ok n size copy s :
  Forall cbyte s → (n <= length s)%nat → Z.of_nat (length copy + n) <= size →
  copy_n n size copy s = Some (copy ++ take n s, drop n s).
Proof.
  revert copy s. induction n as [|n IH]; intros copy s Hs Hn Hc; [by rewrite take_0, app_nil_r|].
  destruct Hs as [|c s Hc' Hs]; [simpl in Hn; lia|]. simpl in Hn. cbn [copy_n at_ length Nat.eqb lookup list_lookup mbind option_bind].
  rewrite put_ok by lia. cbn [mbind option_bind]. rewrite advance_ok by (simpl; lia). cbn [mbind option_bind drop].
  rewrite drop_0, IH by (done || lia || (rewrite length_app; simpl; lia)). by rewrite <-app_assoc.
Qed.

Lemma filter_loop_step fuel rep a r copy size repl :
  cbyte a → Forall cbyte r → Z.of_nat (length copy + utf8_len (a :: r)) <= size →
  filter_loop (S fuel) rep (a :: r) copy size repl =
  match utf8_len (a :: r) with
  | O => if rep then
           let '(size, repl) := if repl <? 3 then (wrap64 (size + REPLACEMENT_INC), wrap64 (repl + REPLACEMENT_INC))
                                else (size, repl) in
           copy ← put size copy 239; copy ← put size copy 191; copy ← put size copy 189;
           filter_loop fuel rep r copy size (wrap64 (repl - 3))
         else filter_loop fuel rep r copy size repl
  | n => filter_loop fuel rep (drop n (a :: r)) (copy ++ take n (a :: r)) size repl
  end.
Proof.
  intros Ha Hr Hc. cbn [filter_loop]. pose proof (utf8_len_le (a :: r)) as Hle.
  rewrite (valid_1_spec _ _ Ha), (valid_2_spec _ _ Ha Hr), (valid_3_spec _ _ Ha Hr), (valid_4_spec _ _ Ha Hr).
  unfold utf8_len in *. cbn [mbind option_bind].
  assert (Forall cbyte (a :: r)) as Hs by by constructor.
  destruct (a <? 128); [by rewrite copy_n_ok|]. destruct (is_2 _ _); [by rewrite copy_n_ok|].
  destruct (is_3 _ _ _); [by rewrite copy_n_ok|]. destruct (is_4 _ _ _ _); [by rewrite copy_n_ok|].
  rewrite !advance_ok by (simpl; lia). done.
Qed.

(** ** Specification *)

(** No character starts [s]. *)
Definition no_char (s : cstr) : Prop := ∀ c r, scalar c → s ≠ utf8 c ++ r.

(** The longest prefix of characters: what [w_utf8_drop] skips. *)
Inductive decoded : cstr → list Z → cstr → Prop :=
  | decoded_stop s : s = [] ∨ no_char s → decoded s [] s
  | decoded_char c s cs s' : scalar c → decoded s cs s' → decoded (utf8 c ++ s) (c :: cs) s'.

Lemma utf8_len_0 s : s ≠ [] → Forall cbyte s → utf8_len s = 0%nat ↔ no_char s.
Proof.
  intros Hne Hs. split.
  - intros H0 c r Hc ->. rewrite utf8_len_utf8 in H0 by done. unfold utf8 in H0.
    repeat case_match; simpl in H0; lia.
  - intros Hn. destruct (decide (utf8_len s = 0%nat)) as [|H0]; [done|].
    destruct (utf8_len_inv s Hs H0) as (c & r & Hc & E). by destruct (Hn c r Hc).
Qed.

(** A string splits at its first character, or has none. *)
Lemma char_cases a r :
  cbyte a → Forall cbyte r →
  (utf8_len (a :: r) = 0%nat ∧ no_char (a :: r)) ∨
  ∃ c s n, scalar c ∧ a :: r = utf8 c ++ s ∧ utf8_len (a :: r) = S n ∧ length (utf8 c) = S n ∧
    take (S n) (a :: r) = utf8 c ∧ drop (S n) (a :: r) = s ∧ Forall cbyte s ∧ (length s <= length r)%nat.
Proof.
  intros Ha Hr. assert (Forall cbyte (a :: r)) as Hs by by constructor.
  destruct (decide (utf8_len (a :: r) = 0%nat)) as [H0|Hn].
  - left. split; [done|]. by apply utf8_len_0.
  - right. destruct (utf8_len_inv _ Hs Hn) as (c & s & Hc & E).
    pose proof (utf8_len_utf8 c s Hc) as Hl. rewrite <-E in Hl. destruct (utf8_len (a :: r)) as [|n] eqn:En; [done|].
    exists c, s, n. split_and!; try done.
    + rewrite E, Hl. apply take_app_length.
    + rewrite E, Hl. apply drop_app_length.
    + rewrite E in Hs. apply Forall_app in Hs. tauto.
    + assert (length (a :: r) = length (utf8 c ++ s)) as Hlen by by rewrite E. rewrite length_app in Hlen. simpl in *. lia.
Qed.

Lemma drop_loop_spec fuel s :
  Forall cbyte s → (length s < fuel)%nat → ∃ cs s', drop_loop fuel s = Some s' ∧ decoded s cs s'.
Proof.
  revert s. induction fuel as [|fuel IH]; intros s Hs Hf; [lia|].
  destruct Hs as [|a r Ha Hr]; [exists [], []; split; [done|]; constructor; by left|].
  rewrite drop_loop_step by done.
  destruct (char_cases a r Ha Hr) as [[-> Hn]|(c & s & n & Hc & E & -> & _ & _ & Hd & Hs & Hl)].
  - exists [], (a :: r). split; [done|]. constructor. by right.
  - rewrite Hd. destruct (IH s Hs) as (cs & s' & -> & Hdec); [simpl in Hf; lia|].
    exists (c :: cs), s'. split; [done|]. rewrite E. by constructor.
Qed.

Lemma decoded_concat s cs s' : decoded s cs s' → Forall scalar cs ∧ s = (cs ≫= utf8) ++ s' ∧ (s' = [] ∨ no_char s').
Proof.
  induction 1 as [s Hs|c s cs s' Hc Hd (IH1 & IH2 & IH3)]; [done|]. split_and!; [by constructor| |done].
  rewrite IH2. cbn. by rewrite app_assoc.
Qed.

(** Characters can be read off the head in one way. *)
Lemma utf8_inj c1 c2 s1 s2 : scalar c1 → scalar c2 → utf8 c1 ++ s1 = utf8 c2 ++ s2 → c1 = c2 ∧ s1 = s2.
Proof.
  intros H1 H2 E. assert (length (utf8 c1) = length (utf8 c2)) as Hl.
  { rewrite <-(utf8_len_utf8 c1 s1 H1), <-(utf8_len_utf8 c2 s2 H2). by rewrite E. }
  apply app_inj_1 in E as [E ->]; [|done]. split; [|done]. clear Hl. unfold scalar, utf8 in *.
  destruct (Z.ltb_spec c1 128), (Z.ltb_spec c2 128); try (injection E; intros; divs); try discriminate.
  all: destruct (Z.ltb_spec c1 2048), (Z.ltb_spec c2 2048); try (injection E; intros; divs); try discriminate.
  all: destruct (Z.ltb_spec c1 65536), (Z.ltb_spec c2 65536); try (injection E; intros; divs); try discriminate.
Qed.

Lemma decoded_all cs s cs' s' : Forall scalar cs → decoded s cs' s' → s = cs ≫= utf8 → s' = [].
Proof.
  intros Hcs Hd. revert cs Hcs. induction Hd as [s Hs|c s cs' s' Hc Hd IH]; intros cs Hcs E.
  - destruct Hs as [|Hn]; [done|]. destruct Hcs as [|c cs Hc Hcs]; [done|]. exfalso. by apply (Hn c (cs ≫= utf8)).
  - destruct Hcs as [|c' cs Hc' Hcs].
    + cbn in E. unfold utf8 in E. repeat case_match; discriminate.
    + cbn in E. apply utf8_inj in E as [-> ->]; try done. by apply (IH cs).
Qed.

(** What [w_utf8_filter] keeps: the characters, and U+FFFD for each byte that
    starts none when [rep] is set. *)
Inductive filtered (rep : bool) : cstr → list Z → Prop :=
  | filtered_nil : filtered rep [] []
  | filtered_char c s cs : scalar c → filtered rep s cs → filtered rep (utf8 c ++ s) (c :: cs)
  | filtered_bad b s cs :
      no_char (b :: s) → filtered rep s cs → filtered rep (b :: s) ((if rep then [65533] else []) ++ cs).

(** The loop of [w_utf8_filter]: the bytes still to read, and those reserved
    for replacements, always fit the buffer. *)
Lemma filter_loop_spec fuel rep s copy size repl :
  Forall cbyte s → (length s < fuel)%nat → 0 <= repl < 18446744073709551616 →
  length copy + length s + 1 + repl <= size → size + 4096 * length s < 18446744073709551616 →
  ∃ cs size', filter_loop fuel rep s copy size repl = Some (copy ++ (cs ≫= utf8), size') ∧
    filtered rep s cs ∧ length copy + length (cs ≫= utf8) < size'.
Proof.
  revert s copy size repl. induction fuel as [|fuel IH]; intros s copy size repl Hs Hf Hr Hi Hsz; [lia|].
  destruct Hs as [|a r Ha Hs].
  { exists [], size. cbn. rewrite app_nil_r. split_and!; [done|constructor|simpl in *; lia]. }
  pose proof (utf8_len_le (a :: r)) as Hle. cbn [length] in Hf, Hi, Hsz.
  rewrite filter_loop_step by (done || (simpl in *; lia)).
  destruct (char_cases a r Ha Hs) as [[-> Hn]|(c & s & n & Hc & E & -> & Hlen & Ht & Hdr & Hs' & Hl)].
  - destruct rep.
    + assert (∃ size' repl', (if repl <? 3 then (wrap64 (size + REPLACEMENT_INC), wrap64 (repl + REPLACEMENT_INC))
          else (size, repl)) = (size', repl') ∧ 3 <= repl' < 18446744073709551616 ∧
          size' - repl' = size - repl ∧ size' <= size + 4096) as (size' & repl' & -> & Hr' & Hd & Hsz').
      { destruct (Z.ltb_spec repl 3); [|by eexists _, _; split_and!; try done; lia].
        unfold REPLACEMENT_INC. rewrite !wrap64_id by (unfold size_t; lia). eexists _, _. split_and!; try done; lia. }
      do 3 (rewrite put_ok by (rewrite ?length_app; simpl; lia); cbn [mbind option_bind]).
      rewrite wrap64_id by (unfold size_t; lia). rewrite <-!app_assoc. cbn [app].
      destruct (IH r (copy ++ [239; 191; 189]) size' (repl' - 3)) as (cs & sz & -> & Hfi & Hb);
        [done|lia|lia|rewrite length_app; simpl; lia|lia|].
      exists (65533 :: cs), sz. split_and!.
      * rewrite <-app_assoc. done.
      * by apply (filtered_bad true).
      * rewrite length_app in Hb. cbn in *. rewrite ?length_app in *. simpl in *. lia.
    + destruct (IH r copy size repl) as (cs & sz & -> & Hfi & Hb); [done|lia..|].
      exists cs, sz. split_and!; [done|by apply (filtered_bad false)|done].
  - cbv zeta. rewrite Hdr, Ht. destruct (IH s (copy ++ utf8 c) size repl) as (cs & sz & -> & Hfi & Hb); [done|lia|lia| |lia|].
    { assert (length (a :: r) = length (utf8 c ++ s)) as Hl' by by rewrite E.
      rewrite length_app in *. simpl in *. lia. }
    exists (c :: cs), sz. split_and!.
    + rewrite <-app_assoc. done.
    + rewrite E. by constructor.
    + cbn. rewrite length_app in *. lia.
Qed.

Lemma filtered_scalar rep s cs : filtered rep s cs → Forall scalar cs.
Proof.
  induction 1; [constructor|by constructor|]. destruct rep; [|done]. constructor; [|done]. unfold scalar. lia.
Qed.

Lemma filtered_decoded rep s cs s' cs' : decoded s cs s' → filtered rep s' cs' → filtered rep s (cs ++ cs').
Proof. induction 1; intros; [done|]. simpl. constructor; eauto. Qed.

Lemma w_utf8_filter_spec s rep :
  Forall cbyte s → 4097 * (strlen s + 1) < 18446744073709551616 →
  ∃ cs, w_utf8_filter s rep = Some (cs ≫= utf8) ∧ filtered rep s cs.
Proof.
  intros Hs Hl. unfold w_utf8_filter, w_utf8_drop, strlen in *.
  destruct (drop_loop_spec (S (length s)) s Hs) as (cs & s' & -> & Hd); [lia|]. cbn [mbind option_bind].
  pose proof (decoded_concat _ _ _ Hd) as (Hcs & E & _). destruct s' as [|b t] eqn:Es'.
  - exists cs. rewrite E at 1. rewrite app_nil_r. split; [done|].
    rewrite <-(app_nil_r cs). eapply filtered_decoded; [exact Hd|constructor].
  - rewrite <-Es' in *. clear Es' b t. assert (Forall cbyte s') as Hs' by (rewrite E in Hs; by apply Forall_app in Hs as [_ ?]).
    assert (length s = (length (cs ≫= utf8) + length s')%nat) as Hlen by (by rewrite E at 1; rewrite length_app).
    rewrite wrap64_id by (unfold size_t; lia).
    destruct (filter_loop_spec (S (length s')) rep s' (take (length s - length s') s) (length s + 1) 0)
      as (cs' & sz & -> & Hfi & Hb); [done|lia|lia|rewrite length_take; lia|lia|].
    cbn [mbind option_bind]. rewrite put_ok by (rewrite length_app; lia). cbn [mbind option_bind].
    exists (cs ++ cs'). split; [|by eapply filtered_decoded]. rewrite bind_app. do 2 f_equal.
    rewrite E at 2. by rewrite take_app_length' by lia.
Qed.

(** * Claims *)

(** C29: [w_utf8_valid] returns for every string, without reading past its
    terminator, and answers whether the string is the UTF-8 encoding of a
    sequence of code points (no overlong forms, no surrogates, nothing above
    U+10FFFF). *)
Theorem w_utf8_valid_correct s :
  Forall cbyte s → ∃ b, w_utf8_valid s = Some b ∧ (b = true ↔ ∃ cs, Forall scalar cs ∧ s = cs ≫= utf8).
Proof.
  intros Hs. unfold w_utf8_valid, w_utf8_drop.
  destruct (drop_loop_spec (S (length s)) s Hs) as (cs & s' & -> & Hd); [lia|]. cbn [mbind option_bind].
  eexists. split; [done|]. pose proof (decoded_concat _ _ _ Hd) as (Hcs & E & _). split.
  - destruct s'; [|done]. intros _. exists cs. by rewrite app_nil_r in E.
  - intros (cs2 & Hcs2 & E2). by rewrite (decoded_all _ _ _ _ Hcs2 Hd E2).
Qed.

Lemma w_utf8_valid_correct_witness :
  ∃ b, w_utf8_valid [226; 130; 172; 237; 160; 128] = Some b ∧ b = false.
Proof.
  destruct (w_utf8_valid_correct [226; 130; 172; 237; 160; 128]) as (b & Hb & _);
    [repeat constructor; unfold cbyte; lia|]. exists b. split; [exact Hb|]. injection Hb as <-. reflexivity.
Defined.

(** C30: [w_utf8_filter] returns the characters of the string in order, each byte
    that starts none dropped or replaced by U+FFFD; it writes within the buffer
    it grows, the result is valid UTF-8, and a valid string comes back as it is. *)
Theorem w_utf8_filter_correct s rep :
  Forall cbyte s → 4097 * (strlen s + 1) < 18446744073709551616 →
  ∃ cs, w_utf8_filter s rep = Some (cs ≫= utf8) ∧ filtered rep s cs ∧
    Forall scalar cs ∧ (w_utf8_valid s = Some true → cs ≫= utf8 = s).
Proof.
  intros Hs Hl. destruct (w_utf8_filter_spec s rep Hs Hl) as (cs & Hf & Hfi). exists cs.
  split_and!; [done|done|by eapply filtered_scalar|]. intros Hv. unfold w_utf8_filter, w_utf8_valid in *.
  destruct (w_utf8_drop s) as [[|]|]; [|discriminate..]. by injection Hf as <-.
Qed.

Lemma w_utf8_filter_correct_witness :
  ∃ cs, w_utf8_filter [65; 255; 226; 130; 172] true = Some (cs ≫= utf8) ∧ cs ≫= utf8 = [65; 239; 191; 189; 226; 130; 172].
Proof.
  destruct (w_utf8_filter_correct [65; 255; 226; 130; 172] true) as (cs & Hf & _);
    [repeat constructor; unfold cbyte; lia|done|]. exists cs. split; [exact Hf|]. injection Hf as <-. reflexivity.
Defined.
