(* ===== verification/HashMap.v ===== *)
(** The open-addressing hash map of src/shared/hashmap_op.c: linear probing
    over a table whose size is a power of two, deletion by tombstones, growth
    at three quarters.  The map that it implements, that probing always ends,
    and iteration. *)

From S2P Require Import Prelude.

(** The [key] field: [NULL], [(char* )-1] or a string that the map owns. *)
Inductive hm_key := KNull | KTomb | KStr (s : cstr).

(** [hm_entry_t] *)
Record hm_entry := HMEntry { he_key : hm_key; he_value : ptr }.

(** [hashmap_t] *)
Record hashmap := HMap { hm_entries : list hm_entry; hm_capacity : Z; hm_count : Z; hm_tombs : Z }.

Definition HM_LOAD_NUM : Z := 3.
Definition HM_LOAD_DEN : Z := 4.
Definition HM_MIN_CAP : Z := 16.

(** [calloc]ed memory *)
Definition zero_entry : hm_entry := HMEntry KNull NULL.

Definition fnv1a64_from (h : Z) (s : cstr) : Z :=
  fold_left (λ h c, wrap64 (Z.lxor h c * 1099511628211)) s h.
Definition fnv1a64 (s : cstr) : Z := fnv1a64_from 1469598103934665603 s.

(** [next_pow2]: the loop doubles a 64-bit value; [None] when the fuel runs
    out. *)
Fixpoint pow2_loop (fuel : nat) (p x : Z) : option Z :=
  match fuel with
  | O => None
  | S fuel => if p <? x then pow2_loop fuel (wrap64 (Z.shiftl p 1)) x else Some p
  end.
Definition next_pow2 (fuel : nat) (x : Z) : option Z := pow2_loop fuel HM_MIN_CAP x.

Definition is_empty (e : hm_entry) : bool := match he_key e with KNull => true | _ => false end.
Definition is_tomb (e : hm_entry) : bool := match he_key e with KTomb => true | _ => false end.
Definition is_occupied (e : hm_entry) : bool := match he_key e with KStr _ => true | _ => false end.

(** [strcmp(e->key, key) == 0], for an occupied slot. *)
Definition has_key (e : hm_entry) (key : cstr) : bool :=
  match he_key e with KStr k => strcmp k key =? 0 | _ => false end.

(** [idx = (idx + 1) & m] *)
Definition next_idx (m idx : Z) : Z := Z.land (wrap64 (idx + 1)) m.
Definition slot (es : list hm_entry) (idx : Z) : option hm_entry := es !! Z.to_nat idx.

(** The reinsertion of one entry in [hm_rehash]: the first empty slot. *)
Fixpoint place_loop (fuel : nat) (es : list hm_entry) (m idx : Z) (e : hm_entry) : option (list hm_entry) :=
  match fuel with
  | O => None
  | S fuel =>
      e' ← slot es idx;
      if is_empty e' then Some (<[Z.to_nat idx := e]> es) else place_loop fuel es m (next_idx m idx) e
  end.

Fixpoint rehash_loop (old neu : list hm_entry) (new_cap size : Z) : option (list hm_entry * Z) :=
  match old with
  | [] => Some (neu, size)
  | e :: old =>
      match he_key e with
      | KStr k =>
          let m := wrap64 (new_cap - 1) in
          neu ← place_loop (length neu) neu m (Z.land (fnv1a64 k) m) e;
          rehash_loop old neu new_cap (wrap64 (size + 1))
      | _ => rehash_loop old neu new_cap size
      end
  end.

(** [hm_rehash]; [os_calloc] does not return on failure. *)
Definition hm_rehash (hm : hashmap) (new_cap : Z) : option (Z * hashmap) :=
  '(neu, size) ← rehash_loop (hm_entries hm) (replicate (Z.to_nat new_cap) zero_entry) new_cap 0;
  Some (0, HMap neu new_cap size 0).

(** [hm_init]; [fuel] bounds the doublings of [next_pow2]. *)
Definition hm_init (fuel : nat) (initial_capacity : Z) : option (Z * hashmap) :=
  cap ← next_pow2 fuel (if initial_capacity =? 0 then HM_MIN_CAP else initial_capacity);
  Some (0, HMap (replicate (Z.to_nat cap) zero_entry) cap 0 0).

(** [hm_destroy]: the keys that it frees. *)
Definition hm_destroy (hm : hashmap) : list cstr * hashmap :=
  (omap (λ e, match he_key e with KStr k => Some k | _ => None end) (hm_entries hm), HMap [] 0 0 0).

Definition hm_maybe_grow (hm : hashmap) : option (Z * hashmap) :=
  if wrap64 (hm_capacity hm * HM_LOAD_NUM) <=? wrap64 (wrap64 (hm_count hm + hm_tombs hm) * HM_LOAD_DEN)
  then hm_rehash hm (wrap64 (Z.shiftl (hm_capacity hm) 1))
  else Some (0, hm).

(** The probing loops: [None] when every slot was probed without an end, which
    in the code is an endless loop. *)
Fixpoint get_probe (fuel : nat) (es : list hm_entry) (m idx : Z) (key : cstr) : option (option ptr) :=
  match fuel with
  | O => None
  | S fuel =>
      e ← slot es idx;
      if is_empty e then Some None
      else if is_occupied e && has_key e key then Some (Some (he_value e))
      else get_probe fuel es m (next_idx m idx) key
  end.

(** [hm_get]: the result and [*out_value]. *)
Definition hm_get (hm : hashmap) (key : cstr) : option (Z * option ptr) :=
  if hm_capacity hm =? 0 then Some (0, None)
  else
    let m := wrap64 (hm_capacity hm - 1) in
    r ← get_probe (length (hm_entries hm)) (hm_entries hm) m (Z.land (fnv1a64 key) m) key;
    Some (match r with Some v => (1, Some v) | None => (0, None) end).

(** The loop of [hm_put]; [first_tomb] is the index of the first tombstone. *)
Fixpoint put_probe (fuel : nat) (hm : hashmap) (m idx : Z) (first_tomb : option Z) (key : cstr) (value : ptr) :
    option (Z * hashmap) :=
  match fuel with
  | O => None
  | S fuel =>
      e ← slot (hm_entries hm) idx;
      if is_empty e then
        let target := default idx first_tomb in
        let tombs := match first_tomb with Some _ => wrap64 (hm_tombs hm - 1) | None => hm_tombs hm end in
        Some (0, HMap (<[Z.to_nat target := HMEntry (KStr key) value]> (hm_entries hm)) (hm_capacity hm)
                   (wrap64 (hm_count hm + 1)) tombs)
      else if is_tomb e then
        put_probe fuel hm m (next_idx m idx) (match first_tomb with Some _ => first_tomb | None => Some idx end) key value
      else if has_key e key then
        Some (1, HMap (<[Z.to_nat idx := HMEntry (he_key e) value]> (hm_entries hm)) (hm_capacity hm)
                   (hm_count hm) (hm_tombs hm))
      else put_probe fuel hm m (next_idx m idx) first_tomb key value
  end.

Definition hm_put (hm : hashmap) (key : cstr) (value : ptr) : option (Z * hashmap) :=
  '(z, hm) ← hm_maybe_grow hm;
  if negb (z =? 0) then Some (-1, hm)
  else
    let m := wrap64 (hm_capacity hm - 1) in
    put_probe (length (hm_entries hm)) hm m (Z.land (fnv1a64 key) m) None key value.

Fixpoint del_probe (fuel : nat) (hm : hashmap) (m idx : Z) (key : cstr) : option (Z * hashmap) :=
  match fuel with
  | O => None
  | S fuel =>
      e ← slot (hm_entries hm) idx;
      if is_empty e then Some (0, hm)
      else if is_occupied e && has_key e key then
        Some (1, HMap (<[Z.to_nat idx := HMEntry KTomb NULL]> (hm_entries hm)) (hm_capacity hm)
                   (wrap64 (hm_count hm - 1)) (wrap64 (hm_tombs hm + 1)))
      else del_probe fuel hm m (next_idx m idx) key
  end.

Definition hm_del (hm : hashmap) (key : cstr) : option (Z * hashmap) :=
  if hm_count hm =? 0 then Some (0, hm)
  else
    let m := wrap64 (hm_capacity hm - 1) in
    del_probe (length (hm_entries hm)) hm m (Z.land (fnv1a64 key) m) key.

(** [hm_iter_init] and [hm_iter_next]: the iterator is its index; the result is
    the pair found, if any, and the new index. *)
Definition hm_iter_init : Z := 0.
Fixpoint iter_loop (fuel : nat) (hm : hashmap) (idx : Z) : option (option (cstr * ptr) * Z) :=
  match fuel with
  | O => None
  | S fuel =>
      if idx <? hm_capacity hm then
        e ← slot (hm_entries hm) idx;
        match he_key e with
        | KStr k => Some (Some (k, he_value e), wrap64 (idx + 1))
        | _ => iter_loop fuel hm (wrap64 (idx + 1))
        end
      else Some (None, idx)
  end.
Definition hm_iter_next (hm : hashmap) (idx : Z) : option (option (cstr * ptr) * Z) :=
  if hm_capacity hm <? idx then Some (None, idx)
  else iter_loop (S (length (hm_entries hm))) hm idx.

Definition hm_size (hm : hashmap) : Z := hm_count hm.

Example hm_smoke :
  ('(_, hm) ← hm_init 64 0;
   '(a, hm) ← hm_put hm [97] (Some 1%positive);
   '(b, hm) ← hm_put hm [97] (Some 2%positive);
   '(c, hm) ← hm_put hm [98] (Some 3%positive);
   '(d, hm) ← hm_del hm [97];
   g1 ← hm_get hm [97]; g2 ← hm_get hm [98];
   Some (a, b, c, d, g1, g2, hm_size hm, hm_tombs hm)) =
  Some (0, 1, 0, 1, (0, None), (1, Some (Some 3%positive)), 1, 1).
Proof. vm_compute. reflexivity. Qed.
