(* ===== verification/HashMapSpec.v ===== *)
(** The open-addressing hash map as a finite map. *)

From S2P Require Import Prelude Keyed HashMap.

Implicit Types (es : list hm_entry) (k : cstr) (v : ptr).

(** The live pairs of a table, in table order, and its tombstones. *)
Definition entry_kv (e : hm_entry) : option (cstr * ptr) :=
  match he_key e with KStr k => Some (k, he_value e) | _ => None end.
Definition live es : list (cstr * ptr) := omap entry_kv es.
Definition tombs es : nat := length (filter (λ e, is_tomb e = true) es).

(** The [j]-th slot that is probed for a hash [h]. *)
Definition pidx (cap h : Z) (j : nat) : Z := (h + j) mod cap.
Definition pos (cap h : Z) (j : nat) : nat := Z.to_nat (pidx cap h j).

Definition occupied_at es (i : nat) : Prop := ∃ e, es !! i = Some e ∧ is_empty e = false.

(** Every live key is found by probing: no empty slot comes before it. *)
Definition reachable (cap : Z) es : Prop :=
  ∀ i e k, es !! i = Some e → he_key e = KStr k →
    ∃ j, i = pos cap (fnv1a64 k) j ∧ ∀ j', (j' < j)%nat → occupied_at es (pos cap (fnv1a64 k) j').

Definition table_ok (cap : Z) es : Prop :=
  (∃ p : nat, (4 <= p <= 61)%nat ∧ cap = 2 ^ p) ∧ Z.of_nat (length es) = cap ∧
  NoDup (live es).*1 ∧ reachable cap es ∧ Z.of_nat (length (live es) + tombs es) < cap.

Definition hm_rep (hm : hashmap) (m : gmap cstr ptr) : Prop :=
  table_ok (hm_capacity hm) (hm_entries hm) ∧ m = list_to_map (live (hm_entries hm)) ∧
  hm_count hm = length (live (hm_entries hm)) ∧ hm_tombs hm = tombs (hm_entries hm).

(** ** Indices *)

Lemma cap_range (p : nat) : (4 <= p <= 61)%nat → 16 <= 2 ^ p <= 2305843009213693952.
Proof.
  intros Hp. change 16 with (2 ^ 4). change 2305843009213693952 with (2 ^ 61).
  split; apply Z.pow_le_mono_r; lia.
Qed.

Section index.
Context (cap : Z) (p : nat) (Hp : (4 <= p <= 61)%nat) (Hcap : cap = 2 ^ p).
Let Hr : 16 <= cap <= 2305843009213693952.
Proof. rewrite Hcap. by apply cap_range. Qed.

Lemma mask_mod x : Z.land x (wrap64 (cap - 1)) = x mod cap.
Proof using Hr Hp Hcap.
  rewrite wrap64_id by (unfold size_t; lia). rewrite Hcap, Z.sub_1_r, <-Z.ones_equiv. apply Z.land_ones. lia.
Qed.

Lemma pidx_range h j : 0 <= pidx cap h j < cap.
Proof using Hr. apply Z.mod_pos_bound. lia. Qed.

Lemma next_pidx h j : next_idx (wrap64 (cap - 1)) (pidx cap h j) = pidx cap h (S j).
Proof using Hr Hp Hcap.
  pose proof (pidx_range h j). unfold next_idx. rewrite mask_mod, wrap64_id by (unfold size_t; lia).
  unfold pidx. rewrite Zplus_mod_idemp_l. f_equal. lia.
Qed.

Lemma first_pidx h : Z.land h (wrap64 (cap - 1)) = pidx cap h 0.
Proof using Hr Hp Hcap. rewrite mask_mod. unfold pidx. by rewrite Z.add_0_r. Qed.

Lemma pos_lt h j : Z.of_nat (pos cap h j) < cap.
Proof using Hr. unfold pos. pose proof (pidx_range h j). lia. Qed.

(** Probing reaches every slot. *)
Lemma pos_onto h (i : nat) : Z.of_nat i < cap → ∃ j, Z.of_nat j < cap ∧ pos cap h j = i.
Proof using Hr.
  intros Hi. exists (Z.to_nat ((i - h) mod cap)). pose proof (Z.mod_pos_bound (i - h) cap ltac:(lia)).
  split; [lia|]. unfold pos, pidx. rewrite Z2Nat.id by lia. rewrite Zplus_mod_idemp_r.
  replace (h + (i - h)) with (Z.of_nat i) by lia. rewrite Z.mod_small by lia. lia.
Qed.
End index.

(** ** Tables *)

Lemma live_app es1 es2 : live (es1 ++ es2) = live es1 ++ live es2.
Proof. apply omap_app. Qed.

Lemma tombs_app es1 es2 : tombs (es1 ++ es2) = (tombs es1 + tombs es2)%nat.
Proof. unfold tombs. by rewrite filter_app, length_app. Qed.

Lemma elem_of_live es k v : (k, v) ∈ live es ↔ ∃ i e, es !! i = Some e ∧ he_key e = KStr k ∧ he_value e = v.
Proof.
  unfold live. rewrite list_elem_of_omap. unfold entry_kv. split.
  - intros (e & (i & Hi)%list_elem_of_lookup & He). exists i, e. split; [done|]. by destruct (he_key e); simplify_eq.
  - intros (i & e & Hi & Hk & <-). exists e. split; [by eapply list_elem_of_lookup_2|]. by rewrite Hk.
Qed.

(** Overwriting a slot. *)
Lemma table_insert es i e e' :
  es !! i = Some e → ∃ es1 es2, es = es1 ++ e :: es2 ∧ i = length es1 ∧ <[i := e']> es = es1 ++ e' :: es2.
Proof.
  intros Hi. exists (take i es), (drop (S i) es). pose proof (lookup_lt_Some _ _ _ Hi).
  split_and!; [by rewrite take_drop_middle|rewrite length_take; lia|]. by apply insert_take_drop.
Qed.

Lemma lookup_insert_cases es i e e' (j : nat) x :
  es !! i = Some e → <[i := e']> es !! j = Some x → (j = i ∧ x = e') ∨ (j ≠ i ∧ es !! j = Some x).
Proof.
  intros Hi Hj. pose proof (lookup_lt_Some _ _ _ Hi). destruct (decide (i = j)) as [->|].
  - rewrite list_lookup_insert_eq in Hj by done. left. naive_solver.
  - rewrite list_lookup_insert_ne in Hj by done. by right.
Qed.

Lemma occupied_insert es i e e' j :
  es !! i = Some e → is_empty e' = false → occupied_at es j → occupied_at (<[i := e']> es) j.
Proof.
  intros Hi He (x & Hx & Hne). pose proof (lookup_lt_Some _ _ _ Hi). destruct (decide (i = j)) as [->|].
  - exists e'. by rewrite list_lookup_insert_eq.
  - exists x. by rewrite list_lookup_insert_ne.
Qed.

Lemma key_not_empty e k : he_key e = KStr k → is_empty e = false.
Proof. unfold is_empty. by intros ->. Qed.

(** A new key in the first free slot of its probe sequence, or a tombstone
    before it. *)
Lemma reachable_fill cap es k v j e :
  reachable cap es → es !! pos cap (fnv1a64 k) j = Some e →
  (∀ j', (j' < j)%nat → occupied_at es (pos cap (fnv1a64 k) j')) →
  reachable cap (<[pos cap (fnv1a64 k) j := HMEntry (KStr k) v]> es).
Proof.
  intros Hr Hj Hb i x k' Hi Hk. destruct (lookup_insert_cases _ _ _ _ _ _ Hj Hi) as [[-> ->]|[Hne Hi']].
  - injection Hk as ->. exists j. split; [done|]. intros j' Hj'. by eapply occupied_insert; eauto.
  - destruct (Hr i x k' Hi' Hk) as (j0 & -> & H0). exists j0. split; [done|].
    intros j' Hj'. by eapply occupied_insert; eauto.
Qed.

(** Changing the value of a slot, or making it a tombstone. *)
Lemma reachable_update cap es i e e' :
  reachable cap es → es !! i = Some e → is_empty e' = false →
  (∀ k, he_key e' = KStr k → he_key e = KStr k) → reachable cap (<[i := e']> es).
Proof.
  intros Hr Hi He Hk i0 x k0 Hi0 Hk0. destruct (lookup_insert_cases _ _ _ _ _ _ Hi Hi0) as [[-> ->]|[Hne Hx]].
  - destruct (Hr i e k0 Hi (Hk _ Hk0)) as (j & -> & Hj). exists j. split; [done|].
    intros. by eapply occupied_insert; eauto.
  - destruct (Hr i0 x k0 Hx Hk0) as (j & -> & Hj). exists j. split; [done|].
    intros. by eapply occupied_insert; eauto.
Qed.

(** ** Probing *)

Lemma has_key_spec e k : has_key e k = true ↔ he_key e = KStr k.
Proof.
  unfold has_key. destruct (he_key e) as [| |k']; [done..|]. rewrite Z.eqb_eq, strcmp_eq. naive_solver.
Qed.

Lemma exists_empty es :
  (length (live es) + tombs es < length es)%nat → ∃ i e, es !! i = Some e ∧ is_empty e = true.
Proof.
  induction es as [|e es IH]; [simpl; lia|]. intros Hc. destruct (is_empty e) eqn:Ee; [by exists 0%nat, e|].
  destruct IH as (i & e' & Hi & He'); [|by exists (S i), e'].
  change (e :: es) with ([e] ++ es) in Hc. rewrite live_app, tombs_app, !length_app in Hc.
  unfold live, tombs, is_empty, is_tomb, entry_kv in *. destruct e as [[| |k'] v']; [done|simpl in Hc..]; lia.
Qed.

Lemma least (P : nat → Prop) `{∀ n, Decision (P n)} n : P n → ∃ m, (m <= n)%nat ∧ P m ∧ ∀ m', (m' < m)%nat → ¬ P m'.
Proof.
  assert ((∃ m, (m <= n)%nat ∧ P m ∧ ∀ m', (m' < m)%nat → ¬ P m') ∨ ∀ m, (m <= n)%nat → ¬ P m) as [|Hno]; [|done|].
  - induction n as [|n [(m & ? & ? & ?)|IH]].
    + destruct (decide (P 0%nat)); [left; exists 0%nat; split_and!; done || lia|].
      right. intros m Hm. by replace m with 0%nat by lia.
    + left. exists m. split_and!; done || lia.
    + destruct (decide (P (S n))) as [|HS]; [left; exists (S n); split_and!; [done..|]; intros; apply IH; lia|].
      right. intros m Hm. destruct (decide (m = S n)) as [->|]; [done|]. apply IH. lia.
  - intros Hn. by destruct (Hno n).
Qed.

(** The first slot of a probe sequence that satisfies [f], when an empty slot
    does: the ones before are occupied. *)
Lemma probe_first cap es (h : Z) (f : hm_entry → bool) :
  table_ok cap es → (∀ e, is_empty e = true → f e = true) →
  ∃ J e, (J < length es)%nat ∧ es !! pos cap h J = Some e ∧ f e = true ∧
    ∀ j, (j < J)%nat → ∃ e', es !! pos cap h j = Some e' ∧ f e' = false.
Proof.
  intros ((p & Hp & Hcap) & Hlen & _ & _ & Hc) Hf.
  destruct (exists_empty es) as (i & e & Hi & He); [lia|].
  destruct (pos_onto cap p Hp Hcap h i) as (j & Hj & Hpos); [apply lookup_lt_Some in Hi; lia|].
  destruct (least (λ j, (f <$> es !! pos cap h j) = Some true) j) as (J & HJ & PJ & Hmin); [rewrite Hpos, Hi; simpl; by rewrite Hf|].
  destruct (es !! pos cap h J) as [eJ|] eqn:EJ; [|done]. exists J, eJ. split_and!; [lia|done|by injection PJ|].
  intros j' Hj'. pose proof (pos_lt cap p Hp Hcap h j').
  destruct (lookup_lt_is_Some_2 es (pos cap h j')) as [e' He']; [lia|]. exists e'. split; [done|].
  specialize (Hmin j' Hj'). rewrite He' in Hmin. simpl in Hmin. by destruct (f e').
Qed.

(** Where a search for a key ends. *)
Definition stops (k : cstr) (e : hm_entry) : bool := is_empty e || has_key e k.

Lemma stops_cases cap es k :
  table_ok cap es →
  ∃ J e, (J < length es)%nat ∧ es !! pos cap (fnv1a64 k) J = Some e ∧
    (∀ j, (j < J)%nat → ∃ e', es !! pos cap (fnv1a64 k) j = Some e' ∧ stops k e' = false) ∧
    ((is_empty e = true ∧ k ∉ (live es).*1) ∨
     (he_key e = KStr k ∧ (k, he_value e) ∈ live es)).
Proof.
  intros Hok. destruct (probe_first cap es (fnv1a64 k) (stops k) Hok) as (J & e & HJ & He & Hs & Hb).
  { unfold stops. by intros e ->. }
  exists J, e. split_and!; [done..|]. apply orb_prop in Hs as [Hs|Hs].
  - left. split; [done|]. intros ([k' v] & -> & Hin)%list_elem_of_fmap. apply elem_of_live in Hin as (i & e' & Hi & Hk & _).
    simpl in *. destruct Hok as (_ & _ & _ & Hr & _). destruct (Hr i e' k' Hi Hk) as (j & -> & Hj).
    destruct (lt_eq_lt_dec j J) as [[Hlt|Heq]|Hgt].
    + destruct (Hb j Hlt) as (e2 & He2 & Hst). assert (e2 = e') as -> by congruence.
      unfold stops in Hst. rewrite (proj2 (has_key_spec _ _) Hk), orb_true_r in Hst. done.
    + subst. assert (e = e') as -> by congruence. by rewrite (key_not_empty _ _ Hk) in Hs.
    + destruct (Hj J Hgt) as (e2 & He2 & Hne). assert (e2 = e) as -> by congruence. congruence.
  - right. apply has_key_spec in Hs. split; [done|]. apply elem_of_live. eauto.
Qed.

Section probing.
Context (cap : Z) (es : list hm_entry) (k : cstr).
Context (p : nat) (Hp : (4 <= p <= 61)%nat) (Hcap : cap = 2 ^ p).
Context (J : nat) (e : hm_entry) (HJ : es !! pos cap (fnv1a64 k) J = Some e).
Let m := wrap64 (cap - 1).
Let ix := pidx cap (fnv1a64 k).

Lemma get_probe_spec fuel j :
  (∀ j, (j < J)%nat → ∃ e', es !! pos cap (fnv1a64 k) j = Some e' ∧ stops k e' = false) → stops k e = true →
  (j <= J)%nat → (J - j < fuel)%nat →
  get_probe fuel es m (ix j) k = Some (if is_empty e then None else Some (he_value e)).
Proof using Hp Hcap HJ.
  intros Hb Hs. revert j. induction fuel as [|fuel IH]; intros j Hj Hf; [lia|]. cbn [get_probe].
  change (slot es (ix j)) with (es !! pos cap (fnv1a64 k) j). destruct (decide (j = J)) as [->|Hne].
  - rewrite HJ. cbn [mbind option_bind]. unfold stops in Hs. destruct (is_empty e) eqn:Ee; [done|].
    cbn [orb] in Hs. rewrite Hs. apply has_key_spec in Hs. unfold is_occupied. by rewrite Hs.
  - destruct (Hb j) as (e' & -> & Hst); [lia|]. cbn [mbind option_bind]. unfold stops in Hst.
    apply orb_false_elim in Hst as [-> ->]. rewrite andb_false_r. unfold m, ix. rewrite (next_pidx cap p Hp Hcap).
    apply IH; lia.
Qed.

Lemma del_probe_spec hm fuel j :
  hm_entries hm = es →
  (∀ j, (j < J)%nat → ∃ e', es !! pos cap (fnv1a64 k) j = Some e' ∧ stops k e' = false) → stops k e = true →
  (j <= J)%nat → (J - j < fuel)%nat →
  del_probe fuel hm m (ix j) k =
  Some (if is_empty e then (0, hm)
        else (1, HMap (<[pos cap (fnv1a64 k) J := HMEntry KTomb NULL]> es) (hm_capacity hm)
                   (wrap64 (hm_count hm - 1)) (wrap64 (hm_tombs hm + 1)))).
Proof using Hp Hcap HJ.
  intros Hes Hb Hs. revert j. induction fuel as [|fuel IH]; intros j Hj Hf; [lia|]. cbn [del_probe]. rewrite Hes.
  change (slot es (ix j)) with (es !! pos cap (fnv1a64 k) j). destruct (decide (j = J)) as [->|Hne].
  - rewrite HJ. cbn [mbind option_bind]. unfold stops in Hs. destruct (is_empty e) eqn:Ee; [done|].
    cbn [orb] in Hs. rewrite Hs. apply has_key_spec in Hs. unfold is_occupied. by rewrite Hs.
  - destruct (Hb j) as (e' & -> & Hst); [lia|]. cbn [mbind option_bind]. unfold stops in Hst.
    apply orb_false_elim in Hst as [-> ->]. rewrite andb_false_r. unfold m, ix. rewrite (next_pidx cap p Hp Hcap).
    apply IH; lia.
Qed.

Lemma place_loop_spec fuel j x :
  (∀ j, (j < J)%nat → ∃ e', es !! pos cap (fnv1a64 k) j = Some e' ∧ is_empty e' = false) → is_empty e = true →
  (j <= J)%nat → (J - j < fuel)%nat →
  place_loop fuel es m (ix j) x = Some (<[pos cap (fnv1a64 k) J := x]> es).
Proof using Hp Hcap HJ.
  intros Hb Hs. revert j. induction fuel as [|fuel IH]; intros j Hj Hf; [lia|]. cbn [place_loop].
  change (slot es (ix j)) with (es !! pos cap (fnv1a64 k) j). destruct (decide (j = J)) as [->|Hne].
  - rewrite HJ. cbn [mbind option_bind]. by rewrite Hs.
  - destruct (Hb j) as (e' & -> & Hst); [lia|]. cbn [mbind option_bind]. rewrite Hst.
    unfold m, ix. rewrite (next_pidx cap p Hp Hcap). apply IH; lia.
Qed.

(** [hm_put] ends at [J]; a new key goes to the first tombstone before it. *)
Lemma put_probe_spec hm fuel j ft v :
  hm_entries hm = es →
  (∀ j, (j < J)%nat → ∃ e', es !! pos cap (fnv1a64 k) j = Some e' ∧ stops k e' = false) → stops k e = true →
  (j <= J)%nat → (J - j < fuel)%nat →
  (∀ t, ft = Some t → ∃ jt e', (jt < J)%nat ∧ t = ix jt ∧ es !! pos cap (fnv1a64 k) jt = Some e' ∧ is_tomb e' = true) →
  if is_empty e then
    ∃ jt e', (jt <= J)%nat ∧ es !! pos cap (fnv1a64 k) jt = Some e' ∧ is_occupied e' = false ∧
      put_probe fuel hm m (ix j) ft k v =
      Some (0, HMap (<[pos cap (fnv1a64 k) jt := HMEntry (KStr k) v]> es) (hm_capacity hm)
                 (wrap64 (hm_count hm + 1)) (if is_tomb e' then wrap64 (hm_tombs hm - 1) else hm_tombs hm))
  else put_probe fuel hm m (ix j) ft k v =
       Some (1, HMap (<[pos cap (fnv1a64 k) J := HMEntry (KStr k) v]> es) (hm_capacity hm) (hm_count hm) (hm_tombs hm)).
Proof using Hp Hcap HJ.
  intros Hes Hb Hs. revert j ft. induction fuel as [|fuel IH]; intros j ft Hj Hf Hft; [lia|]. cbn [put_probe].
  rewrite Hes. change (slot es (ix j)) with (es !! pos cap (fnv1a64 k) j). destruct (decide (j = J)) as [->|Hne].
  - rewrite HJ. cbn [mbind option_bind]. destruct (is_empty e) eqn:Ee.
    + destruct ft as [t|]; cbn [default from_option].
      * destruct (Hft t eq_refl) as (jt & e' & Hjt & -> & He' & Ht). exists jt, e'. rewrite Ht. split_and!; [lia|done| |done].
        unfold is_tomb, is_occupied in *. by destruct (he_key e').
      * exists J, e. split_and!; [done..| |].
        -- unfold is_empty, is_occupied in *. by destruct (he_key e).
        -- replace (is_tomb e) with false; [done|]. unfold is_empty, is_tomb in *. by destruct (he_key e).
    + unfold stops in Hs. rewrite Ee in Hs. cbn [orb] in Hs. rewrite Hs. apply has_key_spec in Hs.
      unfold is_tomb. by rewrite Hs.
  - destruct (Hb j) as (e' & He' & Hst); [lia|]. rewrite He'. cbn [mbind option_bind]. unfold stops in Hst.
    apply orb_false_elim in Hst as [-> ->]. unfold m, ix. rewrite (next_pidx cap p Hp Hcap).
    destruct (is_tomb e') eqn:Et; [|apply IH; done || lia].
    apply IH; [lia|lia|]. destruct ft as [t|]; [done|]. intros t [= <-]. exists j, e'. split_and!; [lia|done..].
Qed.
End probing.

(** ** The map of a table *)

Lemma live_cons e es : live (e :: es) = match entry_kv e with Some kv => kv :: live es | None => live es end.
Proof. unfold live. simpl. by destruct (entry_kv e). Qed.

Lemma tombs_cons e es : tombs (e :: es) = ((if is_tomb e then 1 else 0) + tombs es)%nat.
Proof. unfold tombs. rewrite filter_cons. by destruct (is_tomb e). Qed.

(** A new key fills a slot that held none. *)
Lemma live_fill es i e k v :
  es !! i = Some e → is_occupied e = false →
  let es' := <[i := HMEntry (KStr k) v]> es in
  live es' ≡ₚ (k, v) :: live es ∧ tombs es = (tombs es' + (if is_tomb e then 1 else 0))%nat ∧ length es' = length es.
Proof.
  intros Hi Ho es'. unfold es'. rewrite length_insert.
  destruct (table_insert es i e (HMEntry (KStr k) v) Hi) as (es1 & es2 & -> & -> & ->).
  rewrite !live_app, !tombs_app, !live_cons, !tombs_cons. cbn [entry_kv he_key he_value is_tomb].
  assert (entry_kv e = None) as ->. { unfold entry_kv, is_occupied in *. by destruct (he_key e). }
  split_and!; [by rewrite Permutation_middle|lia|done].
Qed.

(** A slot that holds the key [k]: its value is changed, or it is deleted. *)
Lemma live_at es i e k v :
  es !! i = Some e → he_key e = KStr k → NoDup (live es).*1 →
  let es1 := <[i := HMEntry (KStr k) v]> es in let es2 := <[i := HMEntry KTomb NULL]> es in
  ((live es1).*1 = (live es).*1 ∧ tombs es1 = tombs es ∧
   list_to_map (live es1) =@{gmap cstr ptr} <[k := v]> (list_to_map (live es))) ∧
  (NoDup (live es2).*1 ∧ S (length (live es2)) = length (live es) ∧ tombs es2 = S (tombs es) ∧
   list_to_map (live es2) =@{gmap cstr ptr} delete k (list_to_map (live es))).
Proof.
  intros Hi Hk Hnd es1 es2. unfold es1, es2.
  destruct (table_insert es i e (HMEntry (KStr k) v) Hi) as (a & b & -> & -> & ->).
  clear es1 es2. replace (<[length a := HMEntry KTomb NULL]> (a ++ e :: b)) with (a ++ HMEntry KTomb NULL :: b)
    by (rewrite insert_app_r_alt, Nat.sub_diag by lia; done).
  rewrite !live_app, !tombs_app, !live_cons, !tombs_cons in *.
  assert (entry_kv e = Some (k, he_value e)) as Ee by (unfold entry_kv; by rewrite Hk).
  assert (is_tomb e = false) as Et by (unfold is_tomb; by rewrite Hk).
  rewrite Ee, Et in *. cbn [entry_kv he_key he_value is_tomb] in *.
  destruct (list_to_map_middle _ _ _ _ Hnd) as [Hm1 Hn1].
  assert (NoDup ((live a ++ (k, v) :: live b).*1)) as Hnd' by (rewrite fmap_app, fmap_cons in *; done).
  destruct (list_to_map_middle _ _ _ _ Hnd') as [Hm2 _].
  rewrite Hm1, Hm2, insert_insert_eq, delete_insert_id by done.
  rewrite fmap_app, fmap_cons in Hnd. apply NoDup_middle in Hnd as (Hnd & _ & _).
  rewrite !fmap_app, !fmap_cons, !length_app. simpl. split_and!; try done; lia.
Qed.

Lemma lookup_live es k : NoDup (live es).*1 → ∀ v, (list_to_map (live es) : gmap cstr ptr) !! k = Some v ↔ (k, v) ∈ live es.
Proof. intros Hnd v. symmetry. by apply elem_of_list_to_map. Qed.

Lemma lookup_not_live es k : k ∉ (live es).*1 → (list_to_map (live es) : gmap cstr ptr) !! k = None.
Proof. apply not_elem_of_list_to_map_1. Qed.

Lemma stops_true k e : is_empty e = true ∨ he_key e = KStr k → stops k e = true.
Proof. unfold stops. intros [->|H]; [done|]. apply has_key_spec in H as ->. apply orb_true_r. Qed.

(** ** The operations *)

Lemma cap_nonzero cap es : table_ok cap es → (cap =? 0) = false.
Proof. intros ((p & Hp & ->) & _). pose proof (cap_range p Hp). apply Z.eqb_neq. lia. Qed.

Lemma get_spec hm m k :
  hm_rep hm m → hm_get hm k = Some (match m !! k with Some v => (1, Some v) | None => (0, None) end).
Proof.
  intros (Hok & -> & _). unfold hm_get. rewrite (cap_nonzero _ _ Hok).
  destruct (stops_cases _ _ k Hok) as (J & e & HJ & He & Hb & Hc). pose proof Hok as ((p & Hp & Hcap) & _ & Hnd & _).
  rewrite (first_pidx _ p Hp Hcap). rewrite (get_probe_spec _ _ _ p Hp Hcap J e He); [|done| |lia|lia].
  - cbn [mbind option_bind]. destruct Hc as [[-> Hn]|[Hk Hin]].
    + by rewrite lookup_not_live.
    + rewrite (key_not_empty _ _ Hk). apply lookup_live in Hin as ->; done.
  - apply stops_true. destruct Hc as [[? _]|[? _]]; auto.
Qed.

Lemma del_spec hm m k :
  hm_rep hm m →
  ∃ hm', hm_del hm k = Some (match m !! k with Some _ => 1 | None => 0 end, hm') ∧ hm_rep hm' (delete k m) ∧
    hm_capacity hm' = hm_capacity hm ∧ hm_count hm' + hm_tombs hm' = hm_count hm + hm_tombs hm.
Proof.
  intros Hr. pose proof Hr as (Hok & Hm & Hcnt & Htb). unfold hm_del.
  destruct (Z.eqb_spec (hm_count hm) 0) as [E|_].
  { exists hm. assert (m = ∅) as ->. { rewrite Hm. destruct (live (hm_entries hm)); [done|simpl in Hcnt; lia]. }
    rewrite lookup_empty, delete_empty. done. }
  destruct (stops_cases _ _ k Hok) as (J & e & HJ & He & Hb & Hc).
  pose proof Hok as ((p & Hp & Hcap) & Hlen & Hnd & Hre & Hroom).
  rewrite (first_pidx _ p Hp Hcap). rewrite (del_probe_spec _ (hm_entries hm) _ p Hp Hcap J e He); [|done|done| |lia|lia].
  2: { apply stops_true. destruct Hc as [[? _]|[? _]]; auto. }
  destruct Hc as [[-> Hn]|[Hk Hin]].
  - exists hm. assert (m !! k = None) as Hmk by (subst m; by apply lookup_not_live).
    rewrite Hmk, delete_id by done. done.
  - rewrite (key_not_empty _ _ Hk). eexists.
    assert (m !! k = Some (he_value e)) as -> by (subst m; by apply lookup_live). split; [done|].
    destruct (live_at _ _ e k NULL He Hk Hnd) as (_ & Hnd2 & Hl2 & Ht2 & Hm2).
    pose proof (cap_range p Hp) as Hcr. rewrite <-Hcap in Hcr.
    split; [|cbn; split; [done|]; rewrite !wrap64_id by (unfold size_t; lia); lia].
    split; [|cbn [hm_entries hm_count hm_tombs]; rewrite !wrap64_id by (unfold size_t; lia); split_and!; [by rewrite Hm|lia..]].
    cbn [hm_entries hm_capacity]. split_and!; [by exists p|by rewrite length_insert|done| |lia].
    eapply reachable_update; [done|exact He|done|done].
Qed.

Lemma zero_counts n : live (replicate n zero_entry) = [] ∧ tombs (replicate n zero_entry) = 0%nat.
Proof. induction n as [|n [IH1 IH2]]; [done|]. cbn [replicate]. by rewrite live_cons, tombs_cons, IH1, IH2. Qed.

Lemma table_ok_zero (p : nat) : (4 <= p <= 61)%nat → table_ok (2 ^ p) (replicate (Z.to_nat (2 ^ p)) zero_entry).
Proof.
  intros Hp. pose proof (cap_range p Hp) as Hr.
  destruct (zero_counts (Z.to_nat (2 ^ p))) as [H1 H2]. split_and!.
  - by exists p.
  - rewrite length_replicate. lia.
  - rewrite H1. constructor.
  - intros i e k [-> _]%lookup_replicate [=].
  - rewrite H1, H2. simpl. lia.
Qed.

(** A key that is not there is placed in a table with room. *)
Lemma table_ok_fill cap es k v j e :
  table_ok cap es → es !! pos cap (fnv1a64 k) j = Some e → is_occupied e = false →
  (∀ j', (j' < j)%nat → occupied_at es (pos cap (fnv1a64 k) j')) → k ∉ (live es).*1 →
  Z.of_nat (S (length (live es) + tombs es)) < cap →
  table_ok cap (<[pos cap (fnv1a64 k) j := HMEntry (KStr k) v]> es).
Proof.
  intros (Hcap & Hlen & Hnd & Hre & _) He Ho Hb Hn Hroom.
  destruct (live_fill _ _ e k v He Ho) as (Hl & Ht & Hlen').
  split_and!; [done|by rewrite Hlen'| |by eapply reachable_fill|rewrite Hl; simpl; lia].
  rewrite Hl. simpl. by constructor.
Qed.

Lemma place_spec cap es k v :
  table_ok cap es → k ∉ (live es).*1 → tombs es = 0%nat → Z.of_nat (S (length (live es))) < cap →
  ∃ es', place_loop (length es) es (wrap64 (cap - 1)) (Z.land (fnv1a64 k) (wrap64 (cap - 1))) (HMEntry (KStr k) v) = Some es' ∧
    table_ok cap es' ∧ live es' ≡ₚ (k, v) :: live es ∧ tombs es' = 0%nat ∧ length es' = length es.
Proof.
  intros Hok Hn Ht Hroom. destruct (probe_first cap es (fnv1a64 k) is_empty Hok) as (J & e & HJ & He & Hs & Hb); [done|].
  pose proof Hok as ((p & Hp & Hcap) & _). rewrite (first_pidx _ p Hp Hcap).
  rewrite (place_loop_spec cap es k p Hp Hcap J e He) by (done || lia).
  assert (is_occupied e = false) as Ho by (unfold is_empty, is_occupied in *; by destruct (he_key e)).
  destruct (live_fill _ _ e k v He Ho) as (Hl & Ht' & Hlen). eexists. split_and!; [done| |done|lia|done].
  eapply table_ok_fill; [done|exact He|done| |done|lia].
  intros j' Hj'. destruct (Hb j' Hj') as (e' & ? & ?). by exists e'.
Qed.

Lemma rehash_spec old neu cap (size : Z) :
  table_ok cap neu → tombs neu = 0%nat → NoDup ((live old).*1 ++ (live neu).*1) →
  Z.of_nat (length (live old) + length (live neu)) < cap → size = length (live neu) →
  ∃ neu' size', rehash_loop old neu cap size = Some (neu', size') ∧ table_ok cap neu' ∧ tombs neu' = 0%nat ∧
    live neu' ≡ₚ live old ++ live neu ∧ size' = length (live neu').
Proof.
  revert neu size. induction old as [|[key v] old IH]; intros neu size Hok Ht Hnd Hroom ->; [by eexists _, _|].
  destruct key as [| |k]; rewrite live_cons in *; cbn [rehash_loop entry_kv he_key he_value] in *; [by apply IH..|].
  rewrite fmap_cons in Hnd. cbn [app fst] in Hnd. apply NoDup_cons in Hnd as [Hn Hnd].
  apply not_elem_of_app in Hn as [Hno Hnn]. cbn [length] in Hroom.
  destruct (place_spec cap neu k v Hok Hnn Ht) as (neu1 & -> & Hok1 & Hl1 & Ht1 & _); [lia|]. cbn [mbind option_bind].
  pose proof Hok as ((p & Hp & Hcap) & _). pose proof (cap_range p Hp) as Hcr. rewrite <-Hcap in Hcr.
  assert (length (live neu1) = S (length (live neu))) as Hll by (by rewrite Hl1).
  destruct (IH neu1 (wrap64 (length (live neu) + 1))) as (neu' & size' & -> & Hok' & Ht' & Hl' & Hs').
  - done.
  - done.
  - rewrite Hl1. simpl. rewrite <-Permutation_middle. constructor; [|done]. by apply not_elem_of_app.
  - lia.
  - rewrite Hll, wrap64_id by (unfold size_t; lia). lia.
  - exists neu', size'. split_and!; try done. by rewrite Hl', Hl1, <-Permutation_middle.
Qed.

(** [hm_maybe_grow]: the same map, with room for one more key. *)
Lemma grow_spec hm m :
  hm_rep hm m → hm_capacity hm <= 2 ^ 60 →
  ∃ hm', hm_maybe_grow hm = Some (0, hm') ∧ hm_rep hm' m ∧ hm_count hm' = hm_count hm ∧
    hm_count hm' + hm_tombs hm' <= hm_count hm + hm_tombs hm ∧
    hm_count hm' + hm_tombs hm' + 1 < hm_capacity hm' ∧
    (hm_capacity hm' = hm_capacity hm ∨
     hm_capacity hm' = 2 * hm_capacity hm ∧ 3 * hm_capacity hm <= 4 * (hm_count hm + hm_tombs hm)).
Proof.
  intros Hr Hmax. pose proof Hr as (Hok & Hm & Hcnt & Htb). pose proof Hok as ((p & Hp & Hcap) & Hlen & Hnd & Hre & Hroom).
  pose proof (cap_range p Hp) as Hcr. rewrite <-Hcap in Hcr. change (2 ^ 60) with 1152921504606846976 in Hmax.
  unfold hm_maybe_grow, HM_LOAD_NUM, HM_LOAD_DEN. rewrite !wrap64_id by (rewrite ?wrap64_id; unfold size_t; lia).
  destruct (Z.leb_spec (hm_capacity hm * 3) ((hm_count hm + hm_tombs hm) * 4)) as [Hg|Hg].
  - assert (wrap64 (Z.shiftl (hm_capacity hm) 1) = 2 * hm_capacity hm) as ->.
    { rewrite Z.shiftl_mul_pow2, wrap64_id by (unfold size_t; lia). lia. }
    assert (p < 61)%nat as Hp'.
    { apply Nat2Z.inj_lt, (Z.pow_lt_mono_r_iff 2); [lia..|]. rewrite <-Hcap. simpl. lia. }
    assert (2 * hm_capacity hm = 2 ^ S p) as H2 by (rewrite Hcap, Nat2Z.inj_succ, Z.pow_succ_r; lia).
    unfold hm_rehash. pose proof (table_ok_zero (S p) ltac:(lia)) as Hz. rewrite <-H2 in Hz.
    set (z := replicate (Z.to_nat (2 * hm_capacity hm)) zero_entry) in *.
    destruct (zero_counts (Z.to_nat (2 * hm_capacity hm))) as [Hlz Htz]. fold z in Hlz, Htz.
    destruct (rehash_spec (hm_entries hm) z (2 * hm_capacity hm) 0 Hz Htz) as (neu & size & -> & Hok' & Ht' & Hl' & ->).
    + rewrite Hlz. simpl. by rewrite app_nil_r.
    + rewrite Hlz. simpl. lia.
    + by rewrite Hlz.
    + cbn [mbind option_bind]. eexists. split; [done|]. rewrite Hlz, app_nil_r in Hl'.
      assert (length (live neu) = length (live (hm_entries hm))) as Hll by (by rewrite Hl').
      cbn [hm_count hm_tombs hm_capacity]. split_and!; try lia.
      split_and!; cbn [hm_count hm_tombs hm_capacity hm_entries]; try done; try lia.
      rewrite Hm. symmetry. apply list_to_map_proper; [|done]. rewrite Hl'. done.
  - exists hm. split_and!; try done; lia.
Qed.

Lemma put_spec hm m k v :
  hm_rep hm m → hm_capacity hm <= 2 ^ 60 →
  ∃ hm', hm_put hm k v = Some (match m !! k with Some _ => 1 | None => 0 end, hm') ∧ hm_rep hm' (<[k := v]> m) ∧
    hm_count hm' + hm_tombs hm' <= hm_count hm + hm_tombs hm + 1 ∧
    (hm_capacity hm' = hm_capacity hm ∨
     hm_capacity hm' = 2 * hm_capacity hm ∧ 3 * hm_capacity hm <= 4 * (hm_count hm + hm_tombs hm)).
Proof.
  intros Hr0 Hmax. unfold hm_put.
  destruct (grow_spec hm m Hr0 Hmax) as (hm1 & -> & Hr & Hc1 & Hct & Hroom1 & Hcap1). cbn [mbind option_bind Z.eqb negb].
  pose proof Hr as (Hok & Hm & Hcnt & Htb). pose proof Hok as ((p & Hp & Hcap) & Hlen & Hnd & Hre & Hroom).
  pose proof (cap_range p Hp) as Hcr. rewrite <-Hcap in Hcr.
  destruct (stops_cases _ _ k Hok) as (J & e & HJ & He & Hb & Hc).
  assert (stops k e = true) as Hst by (apply stops_true; destruct Hc as [[? _]|[? _]]; auto).
  pose proof (put_probe_spec _ (hm_entries hm1) k p Hp Hcap J e He hm1 (length (hm_entries hm1)) 0 None v
    eq_refl Hb Hst ltac:(lia) ltac:(lia) ltac:(done)) as Hput.
  rewrite (first_pidx _ p Hp Hcap). destruct Hc as [[Hem Hn]|[Hk Hin]].
  - rewrite Hem in Hput. destruct Hput as (jt & e' & Hjt & He' & Ho & ->). eexists.
    assert (m !! k = None) as Hmk by (subst m; by apply lookup_not_live). rewrite Hmk. split; [done|].
    destruct (live_fill _ _ e' k v He' Ho) as (Hl & Ht & Hlen'). cbn [hm_count hm_tombs hm_capacity].
    assert ((if is_tomb e' then wrap64 (hm_tombs hm1 - 1) else hm_tombs hm1) =
      tombs (<[pos (hm_capacity hm1) (fnv1a64 k) jt:=HMEntry (KStr k) v]> (hm_entries hm1))) as ->.
    { destruct (is_tomb e'); rewrite ?wrap64_id by (unfold size_t; lia); lia. }
    rewrite wrap64_id by (unfold size_t; lia).
    split_and!; [|destruct (is_tomb e'); lia|done]. split_and!; cbn [hm_count hm_tombs hm_capacity hm_entries].
    + eapply table_ok_fill; [done|exact He'|done| |done|lia].
      intros j' Hj'. destruct (Hb j') as (e2 & He2 & Hs2); [lia|]. exists e2. split; [done|].
      unfold stops in Hs2. by apply orb_false_elim in Hs2 as [? _].
    + rewrite Hm. symmetry. transitivity (list_to_map ((k, v) :: live (hm_entries hm1)) : gmap cstr ptr); [|done].
      apply list_to_map_proper; [|done]. rewrite Hl. simpl. by constructor.
    + rewrite Hl. simpl. lia.
    + done.
  - rewrite (key_not_empty _ _ Hk) in Hput. rewrite Hput. eexists.
    assert (m !! k = Some (he_value e)) as -> by (subst m; by apply lookup_live). split; [done|].
    destruct (live_at _ _ e k v He Hk Hnd) as ((Hk1 & Ht1 & Hm1) & _).
    assert (length (live (<[pos (hm_capacity hm1) (fnv1a64 k) J:=HMEntry (KStr k) v]> (hm_entries hm1))) = length (live (hm_entries hm1))) as Hl1.
    { by rewrite <-(length_fmap fst), Hk1, length_fmap. }
    cbn [hm_count hm_tombs hm_capacity]. split_and!; [|lia|done].
    split_and!; cbn [hm_count hm_tombs hm_capacity hm_entries]; [|by rewrite Hm, Hm1|lia|lia].
    split_and!; [by exists p|by rewrite length_insert|by rewrite Hk1| |lia].
    eapply reachable_update; [done|exact He|done|]. intros k' [= <-]. done.
Qed.

(** ** Construction *)

Lemma pow2_loop_spec fuel (j : nat) x :
  (4 <= j <= 60)%nat → x <= 2 ^ 60 → (60 - j < fuel)%nat →
  ∃ p : nat, pow2_loop fuel (2 ^ j) x = Some (2 ^ p) ∧ (4 <= p <= 60)%nat ∧ x <= 2 ^ p.
Proof.
  revert j. induction fuel as [|fuel IH]; intros j Hj Hx Hf; [lia|]. cbn [pow2_loop].
  destruct (Z.ltb_spec (2 ^ j) x); [|by exists j].
  assert (j < 60)%nat as Hj'. { apply Nat2Z.inj_lt, (Z.pow_lt_mono_r_iff 2); [lia..|]. simpl. lia. }
  assert (wrap64 (Z.shiftl (2 ^ j) 1) = 2 ^ S j) as ->; [|apply IH; lia].
  pose proof (cap_range j ltac:(lia)). rewrite Z.shiftl_mul_pow2, wrap64_id by (unfold size_t; lia).
  rewrite Nat2Z.inj_succ, Z.pow_succ_r; lia.
Qed.

Lemma init_spec fuel x :
  0 <= x <= 2 ^ 60 → (56 < fuel)%nat →
  ∃ hm, hm_init fuel x = Some (0, hm) ∧ hm_rep hm ∅ ∧ x <= hm_capacity hm <= 2 ^ 60 ∧ hm_count hm + hm_tombs hm = 0.
Proof.
  intros Hx Hf. unfold hm_init, next_pow2, HM_MIN_CAP.
  destruct (pow2_loop_spec fuel 4 (if x =? 0 then 16 else x)) as (p & Hpw & Hp & Hle); [lia|case_match; lia|lia|].
  change (2 ^ 4%nat) with 16 in Hpw. rewrite Hpw. cbn [mbind option_bind]. eexists. split; [done|].
  destruct (zero_counts (Z.to_nat (2 ^ p))) as [H1 H2]. cbn [hm_capacity hm_count hm_tombs].
  split_and!; [|destruct (Z.eqb_spec x 0); lia|apply Z.pow_le_mono_r; lia|lia].
  split_and!; cbn [hm_entries hm_capacity hm_count hm_tombs]; [|by rewrite H1|by rewrite H1|by rewrite H2].
  apply table_ok_zero. lia.
Qed.

(** ** Sequences of calls *)

Inductive hm_cmd := HPut (k : cstr) (v : ptr) | HGet (k : cstr) | HDel (k : cstr) | HSize.
Inductive hm_res := HZ (z : Z) | HV (z : Z) (v : option ptr).

Definition hm_exec (hm : hashmap) (c : hm_cmd) : option (hm_res * hashmap) :=
  match c with
  | HPut k v => '(z, hm) ← hm_put hm k v; Some (HZ z, hm)
  | HGet k => '(z, v) ← hm_get hm k; Some (HV z v, hm)
  | HDel k => '(z, hm) ← hm_del hm k; Some (HZ z, hm)
  | HSize => Some (HZ (hm_size hm), hm)
  end.
Definition gm_exec (m : gmap cstr ptr) (c : hm_cmd) : hm_res * gmap cstr ptr :=
  match c with
  | HPut k v => (HZ (match m !! k with Some _ => 1 | None => 0 end), <[k := v]> m)
  | HGet k => (match m !! k with Some v => HV 1 (Some v) | None => HV 0 None end, m)
  | HDel k => (HZ (match m !! k with Some _ => 1 | None => 0 end), delete k m)
  | HSize => (HZ (size m), m)
  end.

Fixpoint hm_run (hm : hashmap) (cs : list hm_cmd) : option (list hm_res * hashmap) :=
  match cs with
  | [] => Some ([], hm)
  | c :: cs => '(r, hm) ← hm_exec hm c; '(rs, hm) ← hm_run hm cs; Some (r :: rs, hm)
  end.
Fixpoint gm_run (m : gmap cstr ptr) (cs : list hm_cmd) : list hm_res * gmap cstr ptr :=
  match cs with
  | [] => ([], m)
  | c :: cs => let '(r, m) := gm_exec m c in let '(rs, m) := gm_run m cs in (r :: rs, m)
  end.

Lemma hm_rep_perm hm m : hm_rep hm m → map_to_list m ≡ₚ live (hm_entries hm).
Proof. intros ((_ & _ & Hnd & _) & -> & _). by apply map_to_list_to_map. Qed.

Lemma hm_exec_sim hm m c (n : nat) :
  hm_rep hm m → hm_capacity hm <= 2 ^ 60 → hm_count hm + hm_tombs hm <= n → Z.of_nat n <= 2 ^ 58 →
  ∃ hm', hm_exec hm c = Some ((gm_exec m c).1, hm') ∧ hm_rep hm' (gm_exec m c).2 ∧
    hm_capacity hm' <= 2 ^ 60 ∧ hm_count hm' + hm_tombs hm' <= S n.
Proof.
  intros Hr Hcap Hn Hmax. change (2 ^ 58) with 288230376151711744 in Hmax. change (2 ^ 60) with 1152921504606846976 in *.
  destruct c as [k v|k|k|]; cbn [hm_exec gm_exec].
  - destruct (put_spec hm m k v Hr) as (hm' & -> & Hr' & Hct & Hc); [done|]. exists hm'. split_and!; done || lia.
  - rewrite (get_spec _ _ _ Hr). exists hm. cbn [mbind option_bind]. split_and!; try done; try lia. by destruct (m !! k).
  - destruct (del_spec hm m k Hr) as (hm' & -> & Hr' & Hc & Hct). exists hm'. split_and!; done || lia.
  - exists hm. split_and!; try done; try lia. unfold hm_size. pose proof (hm_rep_perm _ _ Hr) as Hp.
    destruct Hr as (_ & _ & -> & _). by rewrite <-Hp, length_map_to_list.
Qed.

Lemma hm_run_sim hm m cs (n : nat) :
  hm_rep hm m → hm_capacity hm <= 2 ^ 60 → hm_count hm + hm_tombs hm <= n → Z.of_nat (n + length cs) <= 2 ^ 58 →
  ∃ hm', hm_run hm cs = Some ((gm_run m cs).1, hm') ∧ hm_rep hm' (gm_run m cs).2.
Proof.
  revert hm m n. induction cs as [|c cs IH]; intros hm m n Hr Hcap Hn Hmax; [by exists hm|]. cbn [length] in Hmax.
  cbn [hm_run gm_run]. destruct (hm_exec_sim hm m c n Hr Hcap Hn) as (hm1 & -> & Hr1 & Hcap1 & Hn1); [lia|].
  destruct (gm_exec m c) as [r m1]. cbn [mbind option_bind fst snd] in *.
  destruct (IH hm1 m1 (S n) Hr1 Hcap1 Hn1) as (hm2 & -> & Hr2); [lia|].
  destruct (gm_run m1 cs) as [rs m2]. by exists hm2.
Qed.

(** ** Iteration *)

Fixpoint hm_iterate (fuel : nat) (hm : hashmap) (idx : Z) : option (list (cstr * ptr)) :=
  match fuel with
  | O => None
  | S fuel => '(r, idx) ← hm_iter_next hm idx;
              match r with
              | None => Some []
              | Some kv => kvs ← hm_iterate fuel hm idx; Some (kv :: kvs)
              end
  end.

Lemma iter_loop_spec hm pre rest fuel :
  hm_entries hm = pre ++ rest → hm_capacity hm = length (hm_entries hm) → hm_capacity hm <= 2 ^ 61 →
  (length rest < fuel)%nat →
  match live rest with
  | [] => iter_loop fuel hm (length pre) = Some (None, hm_capacity hm)
  | kv :: kvs => ∃ pre' rest', iter_loop fuel hm (length pre) = Some (Some kv, Z.of_nat (length pre')) ∧
                   hm_entries hm = pre' ++ rest' ∧ live rest' = kvs ∧ (length pre < length pre')%nat
  end.
Proof.
  intros He Hcap Hmax. change (2 ^ 61) with 2305843009213693952 in Hmax. revert pre fuel He.
  induction rest as [|e rest IH]; intros pre fuel He Hf; (destruct fuel as [|fuel]; [lia|]); cbn [iter_loop].
  - simpl. rewrite He, app_nil_r in Hcap. rewrite Hcap, Z.ltb_irrefl. done.
  - cbn [length] in Hf. pose proof He as Hlen. apply (f_equal length) in Hlen. rewrite length_app in Hlen. simpl in Hlen.
    assert (slot (hm_entries hm) (length pre) = Some e) as ->.
    { unfold slot. rewrite Nat2Z.id, He, lookup_app_r, Nat.sub_diag by lia. done. }
    rewrite (proj2 (Z.ltb_lt _ _)) by lia. cbn [mbind option_bind]. rewrite live_cons. unfold entry_kv.
    assert (wrap64 (length pre + 1) = Z.of_nat (length (pre ++ [e]))) as ->.
    { rewrite length_app, wrap64_id by (unfold size_t; lia). simpl. lia. }
    assert (hm_entries hm = (pre ++ [e]) ++ rest) as He' by (by rewrite <-app_assoc).
    destruct (he_key e) as [| |k].
    1,2: specialize (IH (pre ++ [e]) fuel He' ltac:(lia)); destruct (live rest); [done|];
         destruct IH as (p' & r' & ? & ? & ? & Hlt); exists p', r'; split_and!; try done;
         rewrite length_app in Hlt; simpl in Hlt; lia.
    exists (pre ++ [e]), rest. split_and!; try done. rewrite length_app. simpl. lia.
Qed.

Lemma hm_iterate_spec hm pre rest fuel :
  hm_entries hm = pre ++ rest → hm_capacity hm = length (hm_entries hm) → hm_capacity hm <= 2 ^ 61 →
  (length (live rest) < fuel)%nat → hm_iterate fuel hm (length pre) = Some (live rest).
Proof.
  revert pre rest. induction fuel as [|fuel IH]; intros pre rest He Hcap Hmax Hf; [lia|]. cbn [hm_iterate].
  unfold hm_iter_next. rewrite (proj2 (Z.ltb_ge _ _)) by (rewrite Hcap, He, length_app; lia).
  pose proof (iter_loop_spec hm pre rest (S (length (hm_entries hm))) He Hcap Hmax) as Hi.
  assert (length rest < S (length (hm_entries hm)))%nat as Hl by (rewrite He, length_app; lia). specialize (Hi Hl).
  destruct (live rest) as [|kv kvs]; [by rewrite Hi|].
  destruct Hi as (pre' & rest' & -> & He' & <- & _). cbn [mbind option_bind]. simpl in Hf.
  rewrite (IH pre' rest') by (done || lia). done.
Qed.

Lemma live_keys es : omap (λ e, match he_key e with KStr k => Some k | _ => None end) es = (live es).*1.
Proof. induction es as [|[[| |k] v] es IH]; [done|exact IH..|]. rewrite live_cons. cbn. by rewrite IH. Qed.

Lemma iterate_all hm m :
  hm_rep hm m →
  ∃ kvs, hm_iterate (S (length (hm_entries hm))) hm hm_iter_init = Some kvs ∧ kvs ≡ₚ map_to_list m ∧
    (hm_destroy hm).1 ≡ₚ (map_to_list m).*1.
Proof.
  intros Hr. pose proof (hm_rep_perm _ _ Hr) as Hp. pose proof Hr as ((( p & Hp' & Hcap) & Hlen & _ & _ & Hroom) & _).
  exists (live (hm_entries hm)). split_and!; [|done|].
  - apply (hm_iterate_spec hm [] (hm_entries hm)); [done|lia| |].
    + rewrite Hcap. apply Z.pow_le_mono_r; lia.
    + lia.
  - rewrite Hp. by rewrite <-live_keys.
Qed.

(** * Claims *)

(** C14: Every sequence of calls on a new hash map terminates and answers as a
    finite map does, through collisions, tombstones and growth: the codes of
    [hm_put] and [hm_del], the values that [hm_get] finds, and the size. *)
Theorem hashmap_refines_map x cs :
  0 <= x <= 2 ^ 60 → Z.of_nat (length cs) <= 2 ^ 58 →
  ∃ hm0 hm, hm_init 64 x = Some (0, hm0) ∧ x <= hm_capacity hm0 ∧
    hm_run hm0 cs = Some ((gm_run ∅ cs).1, hm) ∧ hm_rep hm (gm_run ∅ cs).2.
Proof.
  intros Hx Hcs. destruct (init_spec 64 x Hx) as (hm0 & Hi & Hr & Hcap & Hc); [lia|].
  destruct (hm_run_sim hm0 ∅ cs 0 Hr) as (hm & Hrun & Hr'); [lia|lia|done|]. exists hm0, hm. split_and!; done || lia.
Qed.

Lemma hashmap_refines_map_witness :
  let cs := [HPut [97] (Some 1%positive); HPut [98] NULL; HDel [97]; HPut [99] (Some 2%positive);
             HGet [97]; HGet [98]; HPut [99] NULL; HSize] in
  ∃ hm0 hm, hm_init 64 5 = Some (0, hm0) ∧
    hm_run hm0 cs = Some ([HZ 0; HZ 0; HZ 1; HZ 0; HV 0 None; HV 1 (Some NULL); HZ 1; HZ 2], hm).
Proof.
  intros cs. destruct (hashmap_refines_map 5 cs) as (hm0 & hm & Hi & _ & Hr & _); [lia|done|].
  exists hm0, hm. split; [exact Hi|]. rewrite Hr. vm_compute. reflexivity.
Defined.

(** Iterating from [hm_iter_init] until [hm_iter_next] returns 0 visits every
    pair of the map exactly once; [hm_destroy] frees every key once, and the
    map it leaves holds none. *)
Theorem hashmap_iteration_complete hm m :
  hm_rep hm m →
  ∃ kvs, hm_iterate (S (length (hm_entries hm))) hm hm_iter_init = Some kvs ∧ kvs ≡ₚ map_to_list m ∧
    (hm_destroy hm).1 ≡ₚ (map_to_list m).*1 ∧ ∀ k, hm_get (hm_destroy hm).2 k = Some (0, None).
Proof. intros Hr. destruct (iterate_all hm m Hr) as (kvs & H1 & H2 & H3). by exists kvs. Qed.

Lemma hashmap_iteration_complete_witness :
  ∃ hm kvs, ('(_, hm) ← hm_init 64 0; '(_, hm) ← hm_put hm [97] NULL; '(_, hm) ← hm_put hm [98] NULL;
             '(_, hm) ← hm_del hm [97]; Some hm) = Some hm ∧
    hm_iterate (S (length (hm_entries hm))) hm hm_iter_init = Some kvs ∧ kvs ≡ₚ [([98], NULL)].
Proof.
  destruct (init_spec 64 0) as (hm0 & Hi & Hr0 & Hc0 & Hn0); [lia|lia|].
  destruct (hm_run_sim hm0 ∅ [HPut [97] NULL; HPut [98] NULL; HDel [97]] 0 Hr0) as (hm & Hrun & Hr); [lia|lia|done|].
  destruct (hashmap_iteration_complete hm _ Hr) as (kvs & Hk & Hp & _). exists hm, kvs. split_and!.
  - rewrite Hi. cbn [mbind option_bind]. cbn [hm_run hm_exec] in Hrun.
    destruct (hm_put hm0 [97] NULL) as [[z1 h1]|]; [|discriminate]. cbn [mbind option_bind] in *.
    destruct (hm_put h1 [98] NULL) as [[z2 h2]|]; [|discriminate]. cbn [mbind option_bind] in *.
    destruct (hm_del h2 [97]) as [[z3 h3]|]; [|discriminate]. cbn [mbind option_bind] in *. by injection Hrun as _ _ _ ->.
  - exact Hk.
  - rewrite Hp. reflexivity.
Defined.

(** For more than [2^63] slots [next_pow2] does not end: the doubled capacity
    overflows to 0 and stays there. *)
Theorem next_pow2_diverges fuel x : 2 ^ 63 < x → next_pow2 fuel x = None.
Proof.
  intros Hx. change (2 ^ 63) with 9223372036854775808 in Hx. unfold next_pow2, HM_MIN_CAP.
  assert (∀ fuel, pow2_loop fuel 0 x = None) as H0.
  { clear fuel. induction fuel as [|fuel IH]; [done|]. cbn [pow2_loop]. by rewrite (proj2 (Z.ltb_lt _ _)) by lia. }
  assert (∀ (j : nat) fuel, (j <= 63)%nat → pow2_loop fuel (2 ^ j) x = None) as H; [|by apply (H 4%nat); lia].
  intros j. remember (63 - j)%nat as d eqn:Ed. revert j Ed.
  induction d as [|d IH]; intros j Ed fu Hj; (destruct fu as [|fu]; [done|]); cbn [pow2_loop].
  - assert (j = 63%nat) as -> by lia. change (2 ^ 63%nat) with 9223372036854775808.
    rewrite (proj2 (Z.ltb_lt _ _)) by lia. apply H0.
  - assert (2 ^ j < x) as Hlt.
    { eapply Z.le_lt_trans; [|exact Hx]. change 9223372036854775808 with (2 ^ 63). apply Z.pow_le_mono_r; lia. }
    rewrite (proj2 (Z.ltb_lt _ _)) by done.
    replace (wrap64 (Z.shiftl (2 ^ j) 1)) with (2 ^ S j); [apply IH; lia|].
    rewrite Z.shiftl_mul_pow2 by lia. rewrite Nat2Z.inj_succ, Z.pow_succ_r by lia. rewrite wrap64_id; [lia|].
    assert (2 * 2 ^ j <= 2 ^ 63); [|change (2 ^ 63) with 9223372036854775808 in *; unfold size_t; lia].
    rewrite <-Z.pow_succ_r by lia. apply Z.pow_le_mono_r; lia.
Qed.

Lemma next_pow2_diverges_witness : next_pow2 100 (2 ^ 63 + 1) = None.
Proof. apply next_pow2_diverges. lia. Defined.
