(* ===== verification/BatchQueue.v ===== *)
(** The round-robin batch queue of src/shared/batch_queue_op.c: one linked
    queue per agent, a hash map from agent keys to slots (HashMap.v), and a
    circular list of the slots that have items.  A function is divided where
    it releases the ring mutex with work left to do, so that the interleavings
    of several threads are sequences of these parts. *)

From S2P Require Import Prelude Dll Monitor LinkedQueue HashMap.

(** [w_rr_agent_slot_t] *)
Record rslot := RSlot { sl_key : cstr; sl_q : lqueue; sl_next : ptr; sl_in_ring : bool }.

Definition set_slot_next (p : ptr) (s : rslot) : rslot := RSlot (sl_key s) (sl_q s) p (sl_in_ring s).
Definition set_slot_ring (b : bool) (s : rslot) : rslot := RSlot (sl_key s) (sl_q s) (sl_next s) b.
Definition set_slot_q (q : lqueue) (s : rslot) : rslot := RSlot (sl_key s) q (sl_next s) (sl_in_ring s).

(** [w_rr_queue_t], without its locks, and the heap of the slots.
    [rr_dispose] says whether [dispose] is set. *)
Record rrq := RRQ {
  rr_head : ptr;
  rr_tail : ptr;
  rr_cursor : ptr;
  rr_prev : ptr;
  rr_index : hashmap;
  rr_ring_slots : Z;
  rr_max_global : Z;
  rr_max_agent : Z;
  rr_items : Z;
  rr_dispose : bool;
  rr_slots : heap rslot
}.

Definition with_ring (s : rrq) (head tail cursor prev : ptr) (n : Z) (h : heap rslot) : rrq :=
  RRQ head tail cursor prev (rr_index s) n (rr_max_global s) (rr_max_agent s) (rr_items s) (rr_dispose s) h.
Definition with_slots (s : rrq) (h : heap rslot) : rrq :=
  with_ring s (rr_head s) (rr_tail s) (rr_cursor s) (rr_prev s) (rr_ring_slots s) h.
Definition with_index (s : rrq) (hm : hashmap) : rrq :=
  RRQ (rr_head s) (rr_tail s) (rr_cursor s) (rr_prev s) hm (rr_ring_slots s) (rr_max_global s) (rr_max_agent s)
      (rr_items s) (rr_dispose s) (rr_slots s).
Definition add_items (s : rrq) (n : Z) : rrq :=
  RRQ (rr_head s) (rr_tail s) (rr_cursor s) (rr_prev s) (rr_index s) (rr_ring_slots s) (rr_max_global s)
      (rr_max_agent s) (wrap64 (rr_items s + n)) (rr_dispose s) (rr_slots s).

Definition EINVAL : Z := 22.
Definition ENOSPC : Z := 28.
Definition ENOMEM : Z := 12.

(** [ring_append] *)
Definition ring_append (s : rrq) (slot : ptr) : option rrq :=
  s ← match rr_head s with
      | None =>
          h ← store (rr_slots s) slot (set_slot_next slot);
          Some (with_ring s slot slot slot slot (rr_ring_slots s) h)
      | Some _ =>
          h ← store (rr_slots s) slot (set_slot_next (rr_head s));
          h ← store h (rr_tail s) (set_slot_next slot);
          let prev := if ptr_eqb (rr_cursor s) (rr_head s) then slot else rr_prev s in
          Some (with_ring s (rr_head s) slot (rr_cursor s) prev (rr_ring_slots s) h)
      end;
  h ← store (rr_slots s) slot (set_slot_ring true);
  Some (with_ring s (rr_head s) (rr_tail s) (rr_cursor s) (rr_prev s) (wrap64 (rr_ring_slots s + 1)) h).

(** [ring_remove_node] *)
Definition ring_remove_node (s : rrq) (node prev : ptr) : option rrq :=
  if is_null (rr_head s) || is_null node || is_null prev then Some s
  else if ptr_eqb node prev then
    h ← store (rr_slots s) node (set_slot_ring false);
    h ← store h node (set_slot_next NULL);
    Some (with_ring s NULL NULL NULL NULL 0 h)
  else
    n ← load (rr_slots s) node;
    let next := sl_next n in
    h ← store (rr_slots s) prev (set_slot_next next);
    let head := if ptr_eqb node (rr_head s) then next else rr_head s in
    let tail := if ptr_eqb node (rr_tail s) then prev else rr_tail s in
    let cursor := if ptr_eqb (rr_cursor s) node then next else rr_cursor s in
    let prevc := if ptr_eqb (rr_prev s) node then prev else rr_prev s in
    h ← store h node (set_slot_ring false);
    h ← store h node (set_slot_next NULL);
    Some (with_ring s head tail cursor prevc
            (if rr_ring_slots s =? 0 then 0 else wrap64 (rr_ring_slots s - 1)) h).

Definition batch_queue_ring_size (s : rrq) : Z := rr_ring_slots s.

(** A chain of nodes that is consumed and freed from its first node: the data
    in order and what is left of the heap. *)
Fixpoint consume_chain (fuel : nat) (h : heap (dnode ptr)) (n : ptr) : option (list ptr * heap (dnode ptr)) :=
  match n with
  | None => Some ([], h)
  | Some _ =>
      match fuel with
      | O => None
      | S fuel =>
          nd ← load h n;
          h ← free h n;
          '(ds, h) ← consume_chain fuel h (dn_next nd);
          Some (dn_val nd :: ds, h)
      end
  end.

(** [steal_chain]: the first node and the count. *)
Definition steal_chain (q : lqueue) : ptr * Z * lqueue :=
  (lq_first q, lq_elements q, LQueue 0 NULL NULL (lq_nodes q)).

(** [make_slot]: the allocators do not return on failure. *)
Definition make_slot (agent_key : cstr) : rslot := RSlot agent_key linked_queue_init NULL false.

Definition dispose_all (s : rrq) (ds : list ptr) : list ptr := if rr_dispose s then ds else [].

(** [free_slot]: what it disposes of. *)
Definition free_slot (s : rrq) (slot : ptr) (adjust_global : bool) : option (list ptr * rrq) :=
  match slot with
  | None => Some ([], s)
  | Some _ =>
      sl ← load (rr_slots s) slot;
      let '(chain, n, q) := steal_chain (sl_q sl) in
      '(ds, _) ← consume_chain (size (lq_nodes q)) (lq_nodes q) chain;
      let s' := if adjust_global && negb (n =? 0) then add_items s (- n) else s in
      h ← free (rr_slots s) slot;
      Some (dispose_all s ds, with_slots s' h)
  end.

(** [batch_queue_init] and the setters *)
Definition batch_queue_init (max_items_global : Z) : option rrq :=
  '(z, hm) ← hm_init 64 64;
  if negb (z =? 0) then None
  else Some (RRQ NULL NULL NULL NULL hm 0 max_items_global 0 0 false ∅).
Definition batch_queue_set_dispose (s : rrq) (d : bool) : rrq :=
  RRQ (rr_head s) (rr_tail s) (rr_cursor s) (rr_prev s) (rr_index s) (rr_ring_slots s) (rr_max_global s)
      (rr_max_agent s) (rr_items s) d (rr_slots s).
Definition batch_queue_set_agent_max (s : rrq) (n : Z) : rrq :=
  RRQ (rr_head s) (rr_tail s) (rr_cursor s) (rr_prev s) (rr_index s) (rr_ring_slots s) (rr_max_global s)
      n (rr_items s) (rr_dispose s) (rr_slots s).

(** [batch_queue_free]: the slots in the order of the index. *)
Fixpoint free_loop (fuel : nat) (s : rrq) (idx : Z) : option (list ptr * rrq) :=
  match fuel with
  | O => None
  | S fuel =>
      '(r, idx) ← hm_iter_next (rr_index s) idx;
      match r with
      | None => Some ([], s)
      | Some (_, slot) => '(ds, s) ← free_slot s slot false; '(ds', s) ← free_loop fuel s idx; Some (ds ++ ds', s)
      end
  end.
Definition batch_queue_free (s : rrq) : option (list ptr * list cstr * heap rslot) :=
  '(ds, s) ← free_loop (S (length (hm_entries (rr_index s)))) s hm_iter_init;
  Some (ds, (hm_destroy (rr_index s)).1, rr_slots s).

(** ** [batch_queue_enqueue_ex] *)

(** Where an enqueue stands after its first part: finished, or with the slot
    to be appended to the ring. *)
Inductive enq_state := EDone (code : Z) | EAppend (slot : ptr).

(** Addresses for a new slot and for the queue node. *)
Record rr_mem := RRMem { rm_slot : loc; rm_node : loc }.

(** The insertion at the end of the agent's queue, written out in the code. *)
Definition slot_push (l : loc) (q : lqueue) (data : ptr) : option lqueue :=
  let h := <[l := DNode NULL NULL data]> (lq_nodes q) in
  match lq_last q with
  | Some _ =>
      h ← store h (Some l) (set_prev (lq_last q));
      h ← store h (lq_last q) (set_next (Some l));
      Some (LQueue (wrap32 (lq_elements q + 1)) (lq_first q) (Some l) h)
  | None => Some (LQueue (wrap32 (lq_elements q + 1)) (Some l) (Some l) h)
  end.

(** The part under [ring_mu] and the lock of the agent's queue: the data
    disposed of, the state of the enqueue, the scheduler. *)
Definition enqueue_push (a : rr_mem) (s : rrq) (agent_key : cstr) (data : ptr) :
    option (list ptr * enq_state * rrq) :=
  if is_null data then Some ([], EDone (- EINVAL), s)
  else
    let prev := rr_items s in
    let s := add_items s 1 in
    if negb (rr_max_global s =? 0) && (rr_max_global s <? wrap64 (prev + 1)) then
      Some (dispose_all s [data], EDone (- ENOSPC), add_items s (-1))
    else
      '(found, val) ← hm_get (rr_index s) agent_key;
      '(ok, slot, s) ←
        (if negb (found =? 0) then slot ← val; Some (true, slot, s)
         else
           let h := <[rm_slot a := make_slot agent_key]> (rr_slots s) in
           '(z, hm) ← hm_put (rr_index s) agent_key (Some (rm_slot a));
           let s := with_index (with_slots s h) hm in
           if negb (z =? 0) then '(_, s) ← free_slot s (Some (rm_slot a)) false; Some (false, NULL, s)
           else Some (true, Some (rm_slot a), s));
      if negb (ok : bool) then Some (dispose_all s [data], EDone (- ENOMEM), add_items s (-1))
      else
        sl ← load (rr_slots s) slot;
        let q := sl_q sl in
        let need_ring_append := lq_elements q =? 0 in
        if negb (rr_max_agent s =? 0) && (rr_max_agent s <=? lq_elements q) then
          Some (dispose_all s [data], EDone (- ENOSPC), add_items s (-1))
        else
          q ← slot_push (rm_node a) q data;
          h ← store (rr_slots s) slot (set_slot_q q);
          Some ([], if need_ring_append then EAppend slot else EDone 0, with_slots s h).

(** The second part under [ring_mu]. *)
Definition enqueue_append (s : rrq) (slot : ptr) : option rrq :=
  sl ← load (rr_slots s) slot;
  if sl_in_ring sl then Some s else ring_append s slot.

Definition batch_queue_enqueue_ex (a : rr_mem) (s : rrq) (agent_key : cstr) (data : ptr) :
    option (list ptr * Z * rrq) :=
  '(ds, st, s) ← enqueue_push a s agent_key data;
  match st with
  | EDone code => Some (ds, code, s)
  | EAppend slot => s ← enqueue_append s slot; Some (ds, 0, s)
  end.

(** ** [batch_queue_drain_next_ex] *)

(** The data consumed, with the agent's key. *)
Definition drained : Type := cstr * list ptr.

(** One pass; [rc] is what [pthread_cond_timedwait] returns, [None] for the
    wait without a time limit.  The chain is consumed after the locks are
    released, and the global counter is adjusted at the end. *)
Definition batch_queue_drain_next_ex (rc : option Z) (s : rrq) : option (outcome (option drained) * rrq) :=
  match rr_cursor s with
  | None => Some (match rc with Some r => if r =? 0 then Wait else Ret None | None => Wait end, s)
  | Some _ =>
      let slot := rr_cursor s in
      let prev := match rr_prev s with Some _ => rr_prev s | None => rr_tail s end in
      sl ← load (rr_slots s) slot;
      let s := with_ring s (rr_head s) (rr_tail s) (sl_next sl) prev (rr_ring_slots s) (rr_slots s) in
      s ← ring_remove_node s slot prev;
      sl ← load (rr_slots s) slot;
      let q := sl_q sl in
      '(ds, nodes) ← consume_chain (size (lq_nodes q)) (lq_nodes q) (lq_first q);
      h ← store (rr_slots s) slot (set_slot_q (LQueue 0 NULL NULL nodes));
      let s := with_slots s h in
      let s := if (length ds =? 0)%nat then s else add_items s (- length ds) in
      Some (Ret (Some (sl_key sl, ds)), s)
  end.

(** ** Queries and removal *)

Definition batch_queue_empty (s : rrq) : bool := is_null (rr_cursor s).
Definition batch_queue_size (s : rrq) : Z := rr_items s.
Definition batch_queue_agent_size (s : rrq) (agent_key : cstr) : option Z :=
  '(found, val) ← hm_get (rr_index s) agent_key;
  if found =? 0 then Some 0 else slot ← val; sl ← load (rr_slots s) slot; Some (lq_elements (sl_q sl)).

(** [ring_find_prev] *)
Fixpoint find_prev_loop (fuel : nat) (s : rrq) (slot p : ptr) : option ptr :=
  match fuel with
  | O => None
  | S fuel =>
      n ← load (rr_slots s) p;
      let nx := sl_next n in
      if ptr_eqb nx slot then Some p
      else if not_null nx && negb (ptr_eqb nx (rr_head s)) then find_prev_loop fuel s slot nx
      else Some NULL
  end.
Definition ring_find_prev (s : rrq) (slot : ptr) : option ptr :=
  if is_null (rr_head s) || is_null slot then Some NULL
  else find_prev_loop (size (rr_slots s)) s slot (rr_head s).

(** [batch_queue_drop_agent]: the data disposed of and the result. *)
Definition batch_queue_drop_agent (s : rrq) (agent_key : cstr) : option (list ptr * Z * rrq) :=
  '(found, val) ← hm_get (rr_index s) agent_key;
  if found =? 0 then Some ([], 0, s)
  else
    slot ← val;
    sl ← load (rr_slots s) slot;
    '(ok, s) ←
      (if sl_in_ring sl then
         prev ← ring_find_prev s slot;
         match prev with
         | None => Some (false, s)
         | Some _ => s ← ring_remove_node s slot prev; Some (true, s)
         end
       else Some (true, s));
    if negb (ok : bool) then Some ([], 0, s)
    else
      '(_, hm) ← hm_del (rr_index s) agent_key;
      let s := with_index s hm in
      '(ds, s) ← free_slot s slot true;
      Some (ds, 1, s).

Example batch_queue_smoke :
  let P := @Some positive in
  (s ← batch_queue_init 0;
   let s := batch_queue_set_dispose s true in
   '(_, a, s) ← batch_queue_enqueue_ex (RRMem 1 1) s [97] (P 10%positive);
   '(_, b, s) ← batch_queue_enqueue_ex (RRMem 2 1) s [98] (P 20%positive);
   '(_, c, s) ← batch_queue_enqueue_ex (RRMem 3 2) s [97] (P 11%positive);
   '(_, d, s) ← batch_queue_enqueue_ex (RRMem 3 1) s [99] (P 30%positive);
   '(r1, s) ← batch_queue_drain_next_ex None s;
   '(ds, z, s) ← batch_queue_drop_agent s [98];
   '(r2, s) ← batch_queue_drain_next_ex None s;
   '(r3, s) ← batch_queue_drain_next_ex None s;
   Some (a, b, c, d, r1, ds, z, r2, r3, batch_queue_size s)) =
  Some (0, 0, 0, 0, Ret (Some ([97], [P 10%positive; P 11%positive])), [P 20%positive], 1,
        Ret (Some ([99], [P 30%positive])), Wait, 0).
Proof. vm_compute. reflexivity. Qed.
