(* ===== verification/BatchSpec.v ===== *)
(** The batch queue as a first-in first-out ring of agents with a list of items
    for each agent. *)

From S2P Require Import Prelude Keyed Dll Monitor LinkedQueue HashMap HashMapSpec BatchQueue.

(** ** Circular lists

    [links nx rs last]: following [nx] from the head of [rs] visits [rs] in
    order and then [last]. *)
Fixpoint links (nx : gmap loc ptr) (rs : list loc) (last : ptr) : Prop :=
  match rs with
  | [] => True
  | l :: rs => nx !! l = Some (match rs with l' :: _ => Some l' | [] => last end) ∧ links nx rs last
  end.

Definition hd_loc (rs : list loc) (d : ptr) : ptr := match rs with l :: _ => Some l | [] => d end.

Lemma links_app nx rs1 rs2 p : links nx (rs1 ++ rs2) p ↔ links nx rs1 (hd_loc rs2 p) ∧ links nx rs2 p.
Proof.
  induction rs1 as [|l rs1 IH]; simpl; [tauto|]. rewrite IH. destruct rs1; simpl; [|tauto].
  destruct rs2; simpl; tauto.
Qed.

Lemma links_insert nx rs p l q : l ∉ rs → links (<[l := q]> nx) rs p ↔ links nx rs p.
Proof.
  induction rs as [|r rs IH]; intros Hl; [done|]. apply not_elem_of_cons in Hl as [? ?]. simpl.
  rewrite IH, lookup_insert_ne by done. done.
Qed.

Lemma links_last nx rs l p q : l ∉ rs → links nx (rs ++ [l]) p → links (<[l := q]> nx) (rs ++ [l]) q.
Proof.
  intros Hl. rewrite !links_app. simpl. intros [H1 _]. rewrite lookup_insert_eq. split; [|done].
  by apply links_insert.
Qed.

(** ** The three fields of the slots *)

Record view (h : heap rslot) (nx : gmap loc ptr) (fl : gmap loc bool) (co : gmap loc (cstr * lqueue)) : Prop := {
  v_nx : sl_next <$> h = nx;
  v_fl : sl_in_ring <$> h = fl;
  v_co : (λ sl, (sl_key sl, sl_q sl)) <$> h = co
}.

Lemma view_load h nx fl co l :
  view h nx fl co → is_Some (co !! l) →
  ∃ k q p b, h !! l = Some (RSlot k q p b) ∧ nx !! l = Some p ∧ fl !! l = Some b ∧ co !! l = Some (k, q).
Proof.
  intros [<- <- <-] Hl. rewrite !lookup_fmap in *. destruct (h !! l) as [[k q p b]|]; [|by destruct Hl].
  by exists k, q, p, b.
Qed.

(** A store to one field. *)
Lemma view_store h nx fl co l f :
  view h nx fl co → is_Some (co !! l) →
  ∃ sl h', h !! l = Some sl ∧ store h (Some l) f = Some h' ∧
    view h' (<[l := sl_next (f sl)]> nx) (<[l := sl_in_ring (f sl)]> fl) (<[l := (sl_key (f sl), sl_q (f sl))]> co).
Proof.
  intros Hv Hl. destruct (view_load _ _ _ _ _ Hv Hl) as (k & q & p & b & Hh & _).
  eexists _, _. split; [exact Hh|]. split; [apply (store_Some _ _ _ _ Hh)|]. destruct Hv as [<- <- <-].
  split; by rewrite fmap_insert.
Qed.

Lemma view_set_next h nx fl co l p :
  view h nx fl co → is_Some (co !! l) →
  ∃ h', store h (Some l) (set_slot_next p) = Some h' ∧ view h' (<[l := p]> nx) fl co.
Proof.
  intros Hv Hl. destruct (view_store h nx fl co l (set_slot_next p) Hv Hl) as (sl & h' & Hh & Hs & Hv').
  destruct (view_load _ _ _ _ _ Hv Hl) as (k & q & p' & b & Hh' & _ & Hf & Hc). assert (sl = RSlot k q p' b) as -> by congruence.
  exists h'. split; [done|]. cbn in Hv'. rewrite !(insert_id fl), !(insert_id co) in Hv' by done. done.
Qed.

Lemma view_set_ring h nx fl co l b :
  view h nx fl co → is_Some (co !! l) →
  ∃ h', store h (Some l) (set_slot_ring b) = Some h' ∧ view h' nx (<[l := b]> fl) co.
Proof.
  intros Hv Hl. destruct (view_store h nx fl co l (set_slot_ring b) Hv Hl) as (sl & h' & Hh & Hs & Hv').
  destruct (view_load _ _ _ _ _ Hv Hl) as (k & q & p' & b' & Hh' & Hn & Hf & Hc). assert (sl = RSlot k q p' b') as -> by congruence.
  exists h'. split; [done|]. cbn in Hv'. rewrite !(insert_id nx), !(insert_id co) in Hv' by done. done.
Qed.

Lemma view_set_q h nx fl co l k q q' :
  view h nx fl co → co !! l = Some (k, q) →
  ∃ h', store h (Some l) (set_slot_q q') = Some h' ∧ view h' nx fl (<[l := (k, q')]> co).
Proof.
  intros Hv Hl. destruct (view_store h nx fl co l (set_slot_q q') Hv) as (sl & h' & Hh & Hs & Hv'); [eauto|].
  destruct (view_load h nx fl co l Hv) as (k' & q2 & p' & b' & Hh' & Hn & Hf & Hc); [eauto|].
  assert (sl = RSlot k' q2 p' b') as -> by congruence. assert (k' = k) as -> by congruence.
  exists h'. split; [done|]. cbn in Hv'. rewrite !(insert_id nx), !(insert_id fl) in Hv' by done. done.
Qed.

Lemma view_free h nx fl co l :
  view h nx fl co → is_Some (co !! l) →
  ∃ h', free h (Some l) = Some h' ∧ view h' (delete l nx) (delete l fl) (delete l co).
Proof.
  intros Hv Hl. destruct (view_load _ _ _ _ _ Hv Hl) as (k & q & p & b & Hh & _).
  eexists. split; [apply (free_Some _ _ _ Hh)|]. destruct Hv as [<- <- <-]. split; by rewrite fmap_delete.
Qed.

(** ** The ring *)

(** The cursor is always at the head: the ring is a queue of slots. *)
Definition ring_ok (s : rrq) (nx : gmap loc ptr) (rs : list loc) : Prop :=
  links nx rs (head rs) ∧ NoDup rs ∧
  rr_head s = head rs ∧ rr_tail s = last rs ∧ rr_cursor s = head rs ∧ rr_prev s = last rs ∧
  rr_ring_slots s = length rs.

(** What the ring operations leave alone. *)
Definition same_rest (s s' : rrq) : Prop :=
  rr_index s' = rr_index s ∧ rr_max_global s' = rr_max_global s ∧ rr_max_agent s' = rr_max_agent s ∧
  rr_items s' = rr_items s ∧ rr_dispose s' = rr_dispose s.

Lemma last_in {A} (l : list A) x : last l = Some x → ∃ l', l = l' ++ [x].
Proof. destruct l as [|y l _] using rev_ind; [done|]. rewrite last_snoc. intros [= ->]. eauto. Qed.

Lemma ring_append_spec s nx fl co rs l :
  view (rr_slots s) nx fl co → ring_ok s nx rs → (∀ r, r ∈ rs → is_Some (co !! r)) → is_Some (co !! l) → l ∉ rs →
  Z.of_nat (S (length rs)) < 18446744073709551616 →
  ∃ s' nx', ring_append s (Some l) = Some s' ∧ view (rr_slots s') nx' (<[l := true]> fl) co ∧
    ring_ok s' nx' (rs ++ [l]) ∧ same_rest s s'.
Proof.
  intros Hv (Hlk & Hnd & Hh & Ht & Hc & Hp & Hn) Hco Hl Hni Hlen. unfold ring_append. rewrite Hh.
  destruct rs as [|r rs].
  - cbn [head]. destruct (view_set_next _ _ _ _ _ (Some l) Hv Hl) as (h1 & -> & Hv1). cbn [mbind option_bind with_ring rr_slots].
    destruct (view_set_ring _ _ _ _ _ true Hv1 Hl) as (h2 & -> & Hv2). cbn [mbind option_bind].
    eexists _, _. split; [done|]. split; [exact Hv2|]. split; [|done]. split_and!; try done.
    + split; [|done]. by rewrite lookup_insert_eq.
    + apply NoDup_singleton.
    + cbn. rewrite Hn. done.
  - cbn [head]. destruct (last (r :: rs)) as [t|] eqn:El; [|by rewrite last_None in El].
    destruct (last_in _ _ El) as [rs0 E]. rewrite Ht.
    assert (t ∈ r :: rs) as Htin by (rewrite E, elem_of_app; right; by left).
    destruct (view_set_next _ _ _ _ _ (Some r) Hv Hl) as (h1 & -> & Hv1). cbn [mbind option_bind].
    destruct (view_set_next _ _ _ _ t (Some l) Hv1 (Hco t Htin)) as (h2 & -> & Hv2).
    cbn [mbind option_bind with_ring rr_slots].
    destruct (view_set_ring _ _ _ _ _ true Hv2 Hl) as (h3 & -> & Hv3). cbn [mbind option_bind].
    eexists _, _. split; [done|]. split; [exact Hv3|]. split; [|done].
    assert (t ≠ l) as Htl by (intros ->; done).
    split_and!; cbn [with_ring rr_head rr_tail rr_cursor rr_prev rr_ring_slots head app]; try done.
    + change (r :: rs ++ [l]) with ((r :: rs) ++ [l]). rewrite links_app.
      split; [|split; [|done]; cbn [head app]; by rewrite lookup_insert_ne, lookup_insert_eq].
      cbn [hd_loc]. rewrite E in Hnd, Hlk, Hni |- *.
      assert (t ∉ rs0) as Ht0 by (apply NoDup_snoc in Hnd; tauto).
      eapply links_last; [done|]. rewrite links_insert; [exact Hlk|done].
    + change (r :: rs ++ [l]) with ((r :: rs) ++ [l]). by apply NoDup_snoc.
    + change (r :: rs ++ [l]) with ((r :: rs) ++ [l]). by rewrite last_snoc.
    + rewrite Hc, ptr_eqb_refl. change (r :: rs ++ [l]) with ((r :: rs) ++ [l]). by rewrite last_snoc.
    + rewrite Hn. simpl. rewrite length_app. simpl. rewrite wrap64_id by (unfold size_t; simpl in Hlen; lia). lia.
Qed.

(** The predecessor of a slot in the ring. *)
Definition pred_of (a : list loc) (l : loc) (b : list loc) : loc :=
  default l (last (l :: b ++ a)).

Lemma ptr_eqb_sym p q : ptr_eqb p q = ptr_eqb q p.
Proof. unfold ptr_eqb. by apply bool_decide_ext. Qed.

(** Taking a slot out of the circular list: the links, the head, the tail and
    the cursor after the assignments of [ring_remove_node]. *)
Lemma ring_unlink nx a l b pr p cur :
  links nx (a ++ l :: b) (head (a ++ l :: b)) → NoDup (a ++ b) → l ∉ a → l ∉ b → last (b ++ a) = Some pr →
  nx !! l = Some p → pr ≠ l → cur = head (a ++ l :: b) ∨ a = [] ∧ cur = hd_loc b (Some l) →
  links (<[l := NULL]> (<[pr := p]> nx)) (a ++ b) (head (a ++ b)) ∧
  (if ptr_eqb (Some l) (head (a ++ l :: b)) then p else head (a ++ l :: b)) = head (a ++ b) ∧
  (if ptr_eqb (Some l) (last (a ++ l :: b)) then Some pr else last (a ++ l :: b)) = last (a ++ b) ∧
  (if ptr_eqb cur (Some l) then p else cur) = head (a ++ b).
Proof.
  intros Hlk Hnd Hla Hlb Hpr Hnx Hne Hcur. rewrite links_app in Hlk. destruct Hlk as [Hlka [Hlkl Hlkb]].
  rewrite Hnx in Hlkl. injection Hlkl as Hlkl.
  rewrite links_insert by (by apply not_elem_of_app). destruct (last_in _ _ Hpr) as [c Ec].
  destruct a as [|x a].
  - rewrite app_nil_r in Ec. cbn [app head] in *. rewrite ptr_eqb_refl. destruct b as [|y b]; [by destruct c|].
    cbn [head]. split_and!.
    + rewrite Ec in Hlkb, Hnd |- *. rewrite Hlkl. apply NoDup_snoc in Hnd as [_ Hc]. by eapply links_last.
    + done.
    + rewrite last_cons_cons. rewrite Ec, last_snoc. by rewrite (proj2 (ptr_eqb_neq _ _)) by congruence.
    + destruct Hcur as [->|[_ ->]]; [by rewrite ptr_eqb_refl|]. cbn [hd_loc]. apply not_elem_of_cons in Hlb as [? _].
      by rewrite (proj2 (ptr_eqb_neq _ _)) by congruence.
  - rewrite last_app_cons in Hpr. destruct (last_in _ _ Hpr) as [a0 Ea]. apply not_elem_of_cons in Hla as [Hlx Hla].
    cbn [app head] in *. rewrite (proj2 (ptr_eqb_neq (Some l) (Some x))) by congruence.
    destruct Hcur as [->|[? _]]; [|done]. rewrite (proj2 (ptr_eqb_neq (Some x) (Some l))) by congruence.
    split_and!; try done.
    + change (x :: a ++ b) with ((x :: a) ++ b) in *. rewrite links_app. rewrite Ea in Hlka, Hnd |- *.
      apply NoDup_app in Hnd as (Hnd1 & Hd & _). apply NoDup_snoc in Hnd1 as [_ Hpa].
      assert (pr ∉ b) as Hprb by (apply Hd, elem_of_app; right; by left). split.
      * replace (hd_loc b (Some x)) with p by (rewrite Hlkl; by destruct b). by eapply links_last.
      * by apply links_insert.
    + change (x :: a ++ l :: b) with ((x :: a) ++ l :: b). change (x :: a ++ b) with ((x :: a) ++ b).
      rewrite last_app_cons. destruct b as [|y b].
      * simpl. rewrite ptr_eqb_refl, app_nil_r. done.
      * rewrite last_cons_cons, last_app_cons. rewrite (proj2 (ptr_eqb_neq _ _)); [done|].
        intros E. apply Hlb. symmetry in E. destruct (last_in _ _ E) as [b0 ->]. rewrite elem_of_app. right. by left.
Qed.

Lemma ring_remove_spec s nx fl co a l b cur :
  view (rr_slots s) nx fl co → ring_ok s nx (a ++ l :: b) → (∀ r, r ∈ a ++ l :: b → is_Some (co !! r)) →
  cur = head (a ++ l :: b) ∨ a = [] ∧ cur = hd_loc b (Some l) → Z.of_nat (length (a ++ l :: b)) < 18446744073709551616 →
  let s0 := with_ring s (rr_head s) (rr_tail s) cur (rr_prev s) (rr_ring_slots s) (rr_slots s) in
  ∃ s' nx', ring_remove_node s0 (Some l) (Some (pred_of a l b)) = Some s' ∧
    view (rr_slots s') nx' (<[l := false]> fl) co ∧ ring_ok s' nx' (a ++ b) ∧ same_rest s s'.
Proof.
  intros Hv (Hlk & Hnd & Hh & Ht & _ & Hp & Hn) Hco Hcur Hlen s0. unfold ring_remove_node, s0, pred_of.
  cbn [with_ring rr_head rr_tail rr_cursor rr_prev rr_ring_slots rr_slots]. rewrite Hh, Ht, Hp.
  assert (is_Some (co !! l)) as Hl by (apply Hco, elem_of_app; right; by left).
  assert (is_null (head (a ++ l :: b)) = false) as -> by (by destruct a). cbn [is_null orb].
  destruct (last (b ++ a)) as [pr|] eqn:Epr.
  2: { apply last_None, app_nil in Epr as [-> ->]. cbn [last app default from_option id]. rewrite ptr_eqb_refl.
    destruct (view_set_ring _ _ _ _ _ false Hv Hl) as (h1 & -> & Hv1). cbn [mbind option_bind].
    destruct (view_set_next _ _ _ _ _ NULL Hv1 Hl) as (h2 & -> & Hv2). cbn [mbind option_bind].
    eexists _, _. split; [done|]. split; [exact Hv2|]. split; [|done]. split_and!; try done. constructor. }
  assert (last (l :: b ++ a) = Some pr) as -> by (rewrite last_cons, Epr; done). cbn [default from_option id].
  apply NoDup_middle in Hnd as (Hnd & Hla & Hlb).
  assert (pr ∈ b ++ a) as Hin by (destruct (last_in _ _ Epr) as [x ->]; rewrite elem_of_app; right; by left).
  assert (pr ≠ l) as Hne by (intros ->; apply elem_of_app in Hin as [|]; done).
  assert (is_Some (co !! pr)) as Hpr.
  { apply Hco. apply elem_of_app in Hin as [|]; rewrite elem_of_app; [right; by right|by left]. }
  rewrite (proj2 (ptr_eqb_neq _ _)) by congruence.
  destruct (view_load _ _ _ _ _ Hv Hl) as (kk & q & p & fb & Hh0 & Hnx & _). cbn [load]. rewrite Hh0. cbn [mbind option_bind sl_next].
  destruct (view_set_next _ _ _ _ pr p Hv Hpr) as (h1 & -> & Hv1). cbn [mbind option_bind].
  destruct (view_set_ring _ _ _ _ _ false Hv1 Hl) as (h2 & -> & Hv2). cbn [mbind option_bind].
  destruct (view_set_next _ _ _ _ _ NULL Hv2 Hl) as (h3 & -> & Hv3). cbn [mbind option_bind].
  eexists _, _. split; [done|]. split; [exact Hv3|]. split; [|done].
  rewrite Hn. rewrite (proj2 (Z.eqb_neq _ 0)) by (rewrite length_app; simpl; lia).
  destruct (ring_unlink nx a l b pr p cur) as (U1 & U2 & U3 & U4); try done.
  split_and!; cbn [with_ring rr_head rr_tail rr_cursor rr_prev rr_ring_slots]; try done.
  - rewrite ptr_eqb_sym. done.
  - rewrite !length_app in *. simpl in *. rewrite wrap64_id by (unfold size_t; lia). lia.
Qed.

(** [ring_find_prev] walks from the head to the slot whose successor is [t]. *)
Lemma find_prev_spec s nx fl co w x t fuel :
  view (rr_slots s) nx fl co → links nx (w ++ [x]) (Some t) → (∀ r, r ∈ w ++ [x] → is_Some (co !! r)) →
  (∀ r, r ∈ tail (w ++ [x]) → r ≠ t ∧ Some r ≠ rr_head s) → (length w < fuel)%nat →
  find_prev_loop fuel s (Some t) (head (w ++ [x])) = Some (Some x).
Proof.
  intros Hv. revert fuel. induction w as [|y w IH]; intros [|fuel] Hlk Hco Htl Hf; try (simpl in Hf; lia); cbn [app head].
  - destruct Hlk as [Hx _]. cbn [find_prev_loop load].
    destruct (view_load _ _ _ _ x Hv) as (k & q & p & b & -> & Hn & _); [apply Hco; by left|].
    cbn [mbind option_bind sl_next]. assert (p = Some t) as -> by congruence. by rewrite ptr_eqb_refl.
  - destruct Hlk as [Hy Hlk]. cbn [find_prev_loop load].
    destruct (view_load _ _ _ _ y Hv) as (k & q & p & b & -> & Hn & _); [apply Hco; by left|].
    cbn [mbind option_bind sl_next app tail] in *. destruct (w ++ [x]) as [|z zs] eqn:Ew; [by destruct w|].
    assert (p = Some z) as -> by congruence. destruct (Htl z) as [Hzt Hzh]; [by left|].
    rewrite (proj2 (ptr_eqb_neq _ (Some t))), (proj2 (ptr_eqb_neq _ (rr_head s))) by congruence. cbn [not_null is_null negb andb].
    apply IH; [done| | |simpl in Hf; lia].
    + intros r Hr. apply Hco. by right.
    + intros r Hr. apply Htl. by right.
Qed.

Lemma ring_find_prev_spec s nx fl co a l b :
  view (rr_slots s) nx fl co → ring_ok s nx (a ++ l :: b) → (∀ r, r ∈ a ++ l :: b → is_Some (co !! r)) →
  (length (a ++ l :: b) <= size (rr_slots s))%nat → ring_find_prev s (Some l) = Some (Some (pred_of a l b)).
Proof.
  intros Hv (Hlk & Hnd & Hh & _) Hco Hsz. unfold ring_find_prev, pred_of.
  assert (is_null (rr_head s) = false) as -> by (rewrite Hh; by destruct a). cbn [is_null orb]. rewrite Hh.
  assert (∀ r, r ∈ tail (a ++ l :: b) → Some r ≠ head (a ++ l :: b)) as Hhd.
  { destruct (a ++ l :: b) as [|x xs]; [done|]. apply NoDup_cons in Hnd as [? _]. simpl. intros r Hr [= ->]. done. }
  rewrite length_app in Hsz. destruct a as [|x a'] using rev_ind; [|clear IHa'].
  - cbn [app] in *. destruct (last_in (l :: b) (default l (last (l :: b)))) as [w Ew]; [rewrite last_cons; by destruct (last b)|].
    rewrite app_nil_r. assert (links nx (w ++ [default l (last (l :: b))]) (Some l)) as Hw by (rewrite <-Ew; exact Hlk).
    pose proof (find_prev_spec s nx fl co w _ l (size (rr_slots s)) Hv Hw) as Hf. rewrite <-Ew in Hf.
    apply Hf; [done| |].
    + intros r Hr. split; [|rewrite Hh; by apply Hhd]. intros ->. apply NoDup_cons in Hnd as [? _]. done.
    + assert (length (l :: b) = length (w ++ [default l (last (l :: b))])) as E by (by rewrite <-Ew).
      rewrite length_app in E. simpl in *. lia.
  - rewrite !app_assoc, last_cons, last_snoc. cbn [default from_option id].
    pose proof Hlk as Hlk'. rewrite links_app in Hlk'. destruct Hlk' as [Ha _].
    pose proof (find_prev_spec s nx fl co a' x l (size (rr_slots s)) Hv Ha) as Hf.
    replace (head ((a' ++ [x]) ++ l :: b)) with (head (a' ++ [x])) by (by destruct a'). apply Hf.
    + intros r Hr. apply Hco. rewrite elem_of_app. by left.
    + intros r Hr. rewrite Hh. split; [|apply Hhd; destruct a'; simpl in *; [by apply not_elem_of_nil in Hr|]; rewrite elem_of_app; by left].
      intros ->. apply NoDup_middle in Hnd as (_ & Hn & _). apply Hn. destruct a'; simpl in *; [by apply not_elem_of_nil in Hr|]. by right.
    + rewrite length_app in Hsz. simpl in *. lia.
Qed.

(** ** Queues of items *)

Lemma consume_chain_spec h p ls fuel :
  NoDup ls.*1 → dseg h p ls None → (length ls <= fuel)%nat →
  ∃ h', consume_chain fuel h (hd_ptr ls None) = Some (ls.*2, h') ∧ dom h' = dom h ∖ list_to_set ls.*1.
Proof.
  revert h p fuel. induction ls as [|[l a] ls IH]; intros h p fuel Hnd Hs Hf.
  - exists h. destruct fuel; (split; [done|]); cbn; set_solver.
  - destruct fuel as [|fuel]; [simpl in Hf; lia|]. destruct Hs as [Hl Hs]. apply NoDup_cons in Hnd as [Hni Hnd].
    cbn [hd_ptr consume_chain load]. rewrite Hl. cbn [mbind option_bind]. rewrite (free_Some _ _ _ Hl).
    cbn [mbind option_bind dn_next dn_val].
    destruct (IH (delete l h) (Some l) fuel Hnd) as (h' & -> & Hd); [by apply dseg_delete|simpl in Hf; lia|].
    exists h'. split; [done|]. rewrite Hd, dom_delete_L, !fmap_cons. cbn. set_solver.
Qed.

Lemma lq_consume q ls :
  lq_rep q ls → ∃ h', consume_chain (size (lq_nodes q)) (lq_nodes q) (lq_first q) = Some (ls.*2, h') ∧ h' = ∅.
Proof.
  intros (Hd & -> & _). pose proof (dll_size _ _ Hd) as Hsz. destruct Hd as (Hnd & Hdom & Hs).
  destruct (consume_chain_spec _ _ _ (size (lq_nodes q)) Hnd Hs) as (h' & Hc & Hd'); [lia|].
  exists h'. split; [done|]. apply dom_empty_inv_L. rewrite Hd', Hdom. set_solver.
Qed.

Lemma slot_push_spec q ls l d :
  lq_rep q ls → lq_nodes q !! l = None → ∃ q', slot_push l q d = Some q' ∧ lq_rep q' (ls ++ [(l, d)]).
Proof.
  intros (Hd & Hf & Hla & He) Hl. unfold slot_push. rewrite Hf, Hla.
  pose proof (dll_snoc _ _ l d Hd Hl) as Hsn. pose proof (dll_fresh _ _ _ Hd Hl) as Hfr.
  assert (wrap32 (lq_elements q + 1) = wrap32 (length (ls ++ [(l, d)]))) as Hel.
  { rewrite He, wrap32_add_l, length_app. f_equal. simpl. lia. }
  destruct ls as [|[r b] ls' _] using rev_ind.
  - simpl in *. eexists. split; [done|]. by split_and!.
  - rewrite last_ptr_snoc, last_snoc, removelast_last in *. destruct Hd as (_ & _ & Hs). apply dseg_lookup in Hs.
    apply notin_snoc in Hfr as [_ Hne]. erewrite store_Some by apply lookup_insert_eq. cbn [mbind option_bind].
    assert (<[l:=set_prev (Some r) (DNode NULL NULL d)]> (<[l:=DNode NULL NULL d]> (lq_nodes q)) !! r
      = Some (DNode (last_ptr ls' None) (hd_ptr [] None) b)) as Hr by (rewrite !lookup_insert_ne by done; done).
    rewrite (store_Some _ _ _ _ Hr). cbn [mbind option_bind]. eexists. split; [done|]. rewrite insert_insert_eq.
    split_and!; cbn [lq_nodes lq_first lq_last lq_elements]; try done.
    + by destruct ls' as [|[]].
    + by rewrite last_ptr_snoc.
Qed.

(** ** The number of items *)

Definition total (qs : gmap cstr (list ptr)) : nat := sum_list (length <$> (map_to_list qs).*2).

Lemma sum_list_perm (a b : list nat) : a ≡ₚ b → sum_list a = sum_list b.
Proof. induction 1; simpl; lia. Qed.

Lemma total_new qs k q : qs !! k = None → total (<[k := q]> qs) = (length q + total qs)%nat.
Proof.
  intros Hk. unfold total. erewrite sum_list_perm.
  2: { apply fmap_Permutation, fmap_Permutation, map_to_list_insert. done. }
  done.
Qed.

Lemma total_delete qs k q : qs !! k = Some q → total qs = (length q + total (delete k qs))%nat.
Proof. intros Hk. rewrite <-(total_new _ _ _ (lookup_delete_eq qs k)). by rewrite insert_delete_id. Qed.

Lemma total_update qs k q q' : qs !! k = Some q → (total (<[k := q']> qs) + length q = total qs + length q')%nat.
Proof.
  intros Hk. rewrite (total_delete qs k q Hk), <-(insert_delete_eq qs k q').
  rewrite total_new by apply lookup_delete_eq. lia.
Qed.

(** ** Representation *)

(** The slot [l] of agent [k]. *)
Definition slot_ok (rs ps : list loc) (qs : gmap cstr (list ptr)) (fl : gmap loc bool) (l : loc) (k : cstr) (q : lqueue) : Prop :=
  ∃ ls, lq_rep q ls ∧ qs !! k = Some ls.*2 ∧ Forall (λ p, not_null p = true) ls.*2 ∧
    (ls = [] ↔ l ∉ rs ++ ps) ∧ fl !! l = Some (bool_decide (l ∈ rs)).

Record core_ok (idx : gmap cstr loc) (co : gmap loc (cstr * lqueue)) (fl : gmap loc bool) (rs ps : list loc)
    (qs : gmap cstr (list ptr)) : Prop := {
  co_slots : ∀ l k q, co !! l = Some (k, q) → idx !! k = Some l ∧ slot_ok rs ps qs fl l k q;
  co_idx : ∀ k l, idx !! k = Some l → ∃ q, co !! l = Some (k, q);
  co_qs : ∀ k, is_Some (qs !! k) → is_Some (idx !! k);
  co_nodup : NoDup (rs ++ ps);
  co_locs : ∀ l, l ∈ rs ++ ps → is_Some (co !! l)
}.

(** The scheduler [s], after at most [n] calls: the slots of the agents, those
    in the ring [rs], those with an append pending [ps], the items. *)
Record rr_rep (s : rrq) (n : nat) (idx : gmap cstr loc) (rs ps : list loc) (qs : gmap cstr (list ptr)) : Prop := {
  rep_core : ∃ nx fl co, view (rr_slots s) nx fl co ∧ ring_ok s nx rs ∧ core_ok idx co fl rs ps qs;
  rep_index : hm_rep (rr_index s) (Some <$> idx) ∧ hm_capacity (rr_index s) <= 2 ^ 60 ∧
              hm_count (rr_index s) + hm_tombs (rr_index s) <= n;
  rep_items : rr_items s = total qs;
  rep_bound : (total qs <= n)%nat ∧ (length (rs ++ ps) <= n)%nat ∧ Z.of_nat n < 4294967296
}.

Lemma rr_get s n idx rs ps qs k :
  rr_rep s n idx rs ps qs →
  hm_get (rr_index s) k = Some (match idx !! k with Some l => (1, Some (Some l)) | None => (0, None) end).
Proof.
  intros Hr. destruct (rep_index _ _ _ _ _ _ Hr) as (Hm & _). rewrite (get_spec _ _ k Hm), lookup_fmap.
  by destruct (idx !! k).
Qed.

Lemma core_in_ring idx co fl rs ps qs :
  core_ok idx co fl rs ps qs → ∀ r, r ∈ rs → is_Some (co !! r).
Proof. intros H r Hr. apply (co_locs _ _ _ _ _ _ H), elem_of_app. by left. Qed.

Lemma length_le_size (h : heap rslot) nx fl co (rs : list loc) :
  view h nx fl co → NoDup rs → (∀ r, r ∈ rs → is_Some (co !! r)) → (length rs <= size h)%nat.
Proof.
  intros Hv Hnd Hco. rewrite <-size_dom, <-(size_list_to_set (C:=gset loc) rs) by done.
  apply subseteq_size. intros r Hr%elem_of_list_to_set. destruct (Hco r Hr) as [[k q] Hc].
  destruct Hv as [_ _ <-]. rewrite lookup_fmap in Hc. apply elem_of_dom. by destruct (h !! r).
Qed.

(** Elements of the two parts of a core keep their description when another
    slot changes. *)
Lemma slot_ok_ext rs ps qs fl rs' ps' qs' fl' l k q :
  slot_ok rs ps qs fl l k q → qs' !! k = qs !! k → fl' !! l = fl !! l →
  (l ∈ rs' ↔ l ∈ rs) → (l ∈ ps' ↔ l ∈ ps) → slot_ok rs' ps' qs' fl' l k q.
Proof.
  intros (ls & H1 & H2 & H3 & H4 & H5) Eq Ef Er Ep. exists ls. rewrite Eq, Ef. split_and!; try done.
  - rewrite H4, !elem_of_app. tauto.
  - rewrite H5. f_equal. by apply bool_decide_ext.
Qed.

(** ** The second part of an enqueue *)

Lemma append_sim s n idx rs ps1 l ps2 qs :
  rr_rep s n idx rs (ps1 ++ l :: ps2) qs →
  ∃ s', enqueue_append s (Some l) = Some s' ∧ rr_rep s' n idx (rs ++ [l]) (ps1 ++ ps2) qs ∧ same_rest s s'.
Proof.
  intros [(nx & fl & co & Hv & Hring & Hcore) Hidx Hit (Hb1 & Hb2 & Hb3)].
  pose proof (co_nodup _ _ _ _ _ _ Hcore) as Hnd.
  assert (rs ++ ps1 ++ l :: ps2 ≡ₚ l :: rs ++ ps1 ++ ps2) as Hperm by (by rewrite <-!Permutation_middle).
  pose proof Hnd as Hnd2. rewrite Hperm in Hnd2. apply NoDup_cons in Hnd2 as [Hl Hnd2].
  assert (is_Some (co !! l)) as Hlc by (apply (co_locs _ _ _ _ _ _ Hcore); rewrite Hperm; by left).
  destruct (view_load _ _ _ _ _ Hv Hlc) as (k & q & p & b & Hh & _ & Hf & Hc).
  unfold enqueue_append. cbn [load]. rewrite Hh. cbn [mbind option_bind sl_in_ring].
  destruct (co_slots _ _ _ _ _ _ Hcore l k q Hc) as (Hik & ls & _ & _ & _ & _ & Hfl).
  assert (l ∉ rs) as Hlr by (intros ?; apply Hl, elem_of_app; by left).
  rewrite bool_decide_false in Hfl by done. assert (b = false) as -> by congruence.
  rewrite Hperm in Hb2. cbn [length] in Hb2. rewrite length_app in Hb2.
  destruct (ring_append_spec s nx fl co rs l Hv Hring (core_in_ring _ _ _ _ _ _ Hcore) Hlc Hlr) as (s' & nx' & -> & Hv' & Hring' & Hsame); [lia|].
  exists s'. split; [done|]. split; [|done]. destruct Hsame as (Ei & _ & _ & Em & _).
  assert ((rs ++ [l]) ++ ps1 ++ ps2 ≡ₚ rs ++ ps1 ++ l :: ps2) as Hperm2.
  { rewrite Hperm, <-app_assoc. simpl. by rewrite Permutation_middle. }
  split; [|by rewrite Ei|by rewrite Em|split_and!; try done; rewrite Hperm2, Hperm; simpl; rewrite length_app; lia].
  exists nx', (<[l:=true]> fl), co. split_and!; try done. destruct Hcore as [C1 C2 C3 C4 C5]. split; try done.
  - intros l' k' q' Hc'. destruct (C1 l' k' q' Hc') as [Hi Hs]. split; [done|].
    destruct Hs as (ls' & S1 & S2 & S3 & S4 & S5). exists ls'. split_and!; try done.
    + rewrite S4. by rewrite Hperm2.
    + destruct (decide (l' = l)) as [->|Hne].
      * rewrite lookup_insert_eq, bool_decide_true; [done|]. rewrite elem_of_app. right. by left.
      * rewrite lookup_insert_ne, S5 by done. f_equal. apply bool_decide_ext. rewrite elem_of_app, list_elem_of_singleton. tauto.
  - by rewrite Hperm2.
  - intros r Hr. apply C5. by rewrite <-Hperm2.
Qed.

(** ** Draining *)

Definition same_conf (s s' : rrq) : Prop :=
  rr_max_global s' = rr_max_global s ∧ rr_max_agent s' = rr_max_agent s ∧ rr_dispose s' = rr_dispose s.

(** A slot of the ring leaves it with its queue emptied. *)
Lemma core_drain idx co fl a l b ps qs k q q' :
  core_ok idx co fl (a ++ l :: b) ps qs → co !! l = Some (k, q) → lq_rep q' [] →
  core_ok idx (<[l := (k, q')]> co) (<[l := false]> fl) (a ++ b) ps (<[k := []]> qs).
Proof.
  intros [C1 C2 C3 C4 C5] Hl Hq'. destruct (C1 l k q Hl) as [Hi _].
  assert ((a ++ l :: b) ++ ps ≡ₚ l :: (a ++ b) ++ ps) as Hperm by (by rewrite <-!Permutation_middle).
  pose proof C4 as C4'. rewrite Hperm in C4'. apply NoDup_cons in C4' as [Hn C4'].
  split.
  - intros l' k' q2 Hc'. destruct (decide (l' = l)) as [->|Hne].
    + rewrite lookup_insert_eq in Hc'. injection Hc' as <- <-. split; [done|]. exists [].
      rewrite !lookup_insert_eq. split_and!; try done. f_equal. symmetry. apply bool_decide_false.
      intros Hin. apply Hn, elem_of_app. by left.
    + rewrite lookup_insert_ne in Hc' by done. destruct (C1 l' k' q2 Hc') as [Hi' Hs]. split; [done|].
      assert (k' ≠ k) as Hk by (intros ->; congruence).
      eapply slot_ok_ext; [exact Hs|by rewrite lookup_insert_ne|by rewrite lookup_insert_ne| |done].
      rewrite !elem_of_app, elem_of_cons. naive_solver.
  - intros k' l' Hi'. destruct (decide (l' = l)) as [->|Hne].
    + destruct (C2 k' l Hi') as [q2 Hq2]. assert (k' = k) as -> by congruence. rewrite lookup_insert_eq. eauto.
    + rewrite lookup_insert_ne by done. eauto.
  - intros k' Hk'. destruct (decide (k' = k)) as [->|]; [eauto|]. rewrite lookup_insert_ne in Hk' by done. auto.
  - done.
  - intros r Hr. destruct (decide (r = l)) as [->|Hne]; [rewrite lookup_insert_eq; eauto|].
    rewrite lookup_insert_ne by done. apply C5. rewrite Hperm. by right.
Qed.

Lemma ring_ok_same s s' nx rs :
  ring_ok s nx rs → rr_head s' = rr_head s → rr_tail s' = rr_tail s → rr_cursor s' = rr_cursor s →
  rr_prev s' = rr_prev s → rr_ring_slots s' = rr_ring_slots s → ring_ok s' nx rs.
Proof. unfold ring_ok. intros H -> -> -> -> ->. done. Qed.

Lemma lq_rep_empty : lq_rep (LQueue 0 NULL NULL ∅) [].
Proof. split_and!; [apply dll_nil|done..]. Qed.

Lemma drain_sim rc s n idx rs ps qs :
  rr_rep s n idx rs ps qs →
  match rs with
  | [] => batch_queue_drain_next_ex rc s =
          Some (match rc with Some r => if r =? 0 then Wait else Ret None | None => Wait end, s)
  | l :: rs' => ∃ k q s', idx !! k = Some l ∧ qs !! k = Some q ∧ q ≠ [] ∧
      batch_queue_drain_next_ex rc s = Some (Ret (Some (k, q)), s') ∧
      rr_rep s' n idx rs' ps (<[k := []]> qs) ∧ same_conf s s'
  end.
Proof.
  intros [(nx & fl & co & Hv & Hring & Hcore) Hidx Hit (Hb1 & Hb2 & Hb3)]. unfold batch_queue_drain_next_ex.
  pose proof Hring as (Hlk & Hnd & Hh & Ht & Hc & Hp & Hn). rewrite Hc. destruct rs as [|l rs]; [done|]. cbn [head].
  assert (is_Some (co !! l)) as Hl by (apply (core_in_ring _ _ _ _ _ _ Hcore); by left).
  destruct (view_load _ _ _ _ _ Hv Hl) as (k & q & p & b & Hload & Hnx & _ & Hco).
  assert (rr_prev s = Some (pred_of [] l rs)) as Hprev.
  { rewrite Hp. unfold pred_of. rewrite app_nil_r. by destruct (last (l :: rs)) eqn:E; [|rewrite last_None in E]. }
  rewrite Hprev. cbn [load]. rewrite Hload. cbn [mbind option_bind sl_next].
  assert (p = hd_loc rs (Some l)) as ->. { destruct Hlk as [Hlk _]. rewrite Hnx in Hlk. by destruct rs; injection Hlk. }
  rewrite <-Hprev. rewrite length_app in Hb2.
  destruct (ring_remove_spec s nx fl co [] l rs (hd_loc rs (Some l)) Hv Hring (core_in_ring _ _ _ _ _ _ Hcore)) as (s1 & nx' & Hrm & Hv1 & Hring1 & Hsame);
    [by right|simpl in *; lia|].
  rewrite Hprev in *. rewrite Hrm. cbn [mbind option_bind].
  destruct (view_load _ _ _ _ _ Hv1 Hl) as (k1 & q1 & p1 & b1 & Hload1 & _ & _ & Hco1).
  assert (k1 = k ∧ q1 = q) as [-> ->] by (split; congruence). rewrite Hload1. cbn [mbind option_bind sl_q sl_key].
  destruct (co_slots _ _ _ _ _ _ Hcore l k q Hco) as (Hik & ls & Hls & Hqs & Hnn & Hne & _).
  destruct (lq_consume q ls Hls) as (h' & -> & ->). cbn [mbind option_bind].
  destruct (view_set_q _ _ _ _ l k q (LQueue 0 NULL NULL ∅) Hv1 Hco) as (h2 & -> & Hv2). cbn [mbind option_bind].
  assert (ls ≠ []) as Hls0 by (intros E; apply Hne in E; apply E; by left).
  assert (ls.*2 ≠ []) as Hq0 by (by destruct ls). rewrite (proj2 (Nat.eqb_neq _ _)) by (by destruct (ls.*2)).
  exists k, ls.*2. eexists. split_and!; [done|done|done|done| |].
  2: { destruct Hsame as (_ & ? & ? & _ & ?). done. }
  destruct Hsame as (Ei & Eg & Ea & Em & Ed). pose proof (total_update qs k ls.*2 [] Hqs) as Htot. simpl in Htot.
  split.
  - exists nx', (<[l:=false]> fl), (<[l:=(k, LQueue 0 NULL NULL ∅)]> co). split_and!.
    + exact Hv2.
    + by eapply ring_ok_same.
    + apply (core_drain idx co fl [] l rs ps qs k q); [done|done|apply lq_rep_empty].
  - cbn. rewrite Ei. done.
  - cbn. rewrite Em, Hit, wrap64_id by (unfold size_t; lia). lia.
  - simpl in *. rewrite length_app. split_and!; lia.
Qed.

(** ** The first part of an enqueue *)

(** A new agent gets a slot with an empty queue. *)
Lemma core_create idx co fl rs ps qs k l :
  core_ok idx co fl rs ps qs → idx !! k = None → co !! l = None →
  core_ok (<[k := l]> idx) (<[l := (k, linked_queue_init)]> co) (<[l := false]> fl) rs ps (<[k := []]> qs).
Proof.
  intros [C1 C2 C3 C4 C5] Hk Hl.
  assert (l ∉ rs ++ ps) as Hni by (intros Hin; destruct (C5 l Hin); congruence).
  split; try done.
  - intros l' k' q' Hc. destruct (decide (l' = l)) as [->|Hne].
    + rewrite lookup_insert_eq in Hc. injection Hc as <- <-. rewrite lookup_insert_eq. split; [done|]. exists [].
      rewrite !lookup_insert_eq. split_and!; try done; [apply lq_rep_empty|]. f_equal. symmetry. apply bool_decide_false.
      intros Hin. apply Hni, elem_of_app. by left.
    + rewrite lookup_insert_ne in Hc by done. destruct (C1 l' k' q' Hc) as [Hi Hs].
      assert (k' ≠ k) by (intros ->; congruence). rewrite lookup_insert_ne by done. split; [done|].
      eapply slot_ok_ext; [exact Hs|by rewrite lookup_insert_ne|by rewrite lookup_insert_ne|done|done].
  - intros k' l' Hi. destruct (decide (k' = k)) as [->|Hne].
    + rewrite lookup_insert_eq in Hi. injection Hi as <-. rewrite lookup_insert_eq. eauto.
    + rewrite lookup_insert_ne in Hi by done. destruct (C2 k' l' Hi) as [q Hq].
      rewrite lookup_insert_ne by congruence. eauto.
  - intros k' Hk'. destruct (decide (k' = k)) as [->|]; [rewrite lookup_insert_eq; eauto|].
    rewrite lookup_insert_ne in Hk' by done. rewrite lookup_insert_ne by done. auto.
  - intros r Hr. destruct (decide (r = l)) as [->|]; [done|]. rewrite lookup_insert_ne by done. auto.
Qed.

(** An item joins the queue of a slot; an empty queue makes the slot pending. *)
Definition pend_after {A B} (q : list B) (ps : list A) (l : A) : list A := match q with [] => ps ++ [l] | _ => ps end.

Lemma core_push idx co fl rs ps qs k l q ls nd d q' :
  core_ok idx co fl rs ps qs → co !! l = Some (k, q) → lq_rep q ls → qs !! k = Some ls.*2 →
  lq_rep q' (ls ++ [(nd, d)]) → not_null d = true →
  core_ok idx (<[l := (k, q')]> co) fl rs (pend_after ls ps l) (<[k := ls.*2 ++ [d]]> qs).
Proof.
  intros [C1 C2 C3 C4 C5] Hc Hq Hqs Hq' Hd. destruct (C1 l k q Hc) as (Hi & ls0 & S1 & S2 & S3 & S4 & S5).
  assert (ls = [] ↔ l ∉ rs ++ ps) as Hl.
  { rewrite <-S4. assert (ls.*2 = ls0.*2) as E by congruence. by destruct ls, ls0. }
  assert (ls0.*2 = ls.*2) as E0 by congruence. rewrite E0 in S3.
  assert (∀ r, r ≠ l → (r ∈ pend_after ls ps l ↔ r ∈ ps)) as Hoth.
  { intros r Hr. destruct ls; simpl; [|done]. rewrite elem_of_app, list_elem_of_singleton. tauto. }
  assert (l ∈ rs ++ pend_after ls ps l) as Hin.
  { destruct ls; simpl; [rewrite !elem_of_app, list_elem_of_singleton; tauto|].
    destruct (decide (l ∈ rs ++ ps)) as [|Hn]; [done|]. by apply Hl in Hn. }
  split.
  - intros l' k' q2 Hc'. destruct (decide (l' = l)) as [->|Hne].
    + rewrite lookup_insert_eq in Hc'. injection Hc' as <- <-. split; [done|]. exists (ls ++ [(nd, d)]).
      rewrite lookup_insert_eq, fmap_app. split_and!; try done.
      * apply Forall_app. split; [done|]. by apply Forall_singleton.
      * split; [by destruct ls|]. intros Hx. by destruct Hx.
    + rewrite lookup_insert_ne in Hc' by done. destruct (C1 l' k' q2 Hc') as [Hi' Hs]. split; [done|].
      assert (k' ≠ k) by (intros ->; congruence).
      eapply slot_ok_ext; [exact Hs|by rewrite lookup_insert_ne|done|done|by apply Hoth].
  - intros k' l' Hi'. destruct (decide (l' = l)) as [->|Hne].
    + destruct (C2 k' l Hi') as [q2 Hq2]. assert (k' = k) as -> by congruence. rewrite lookup_insert_eq. eauto.
    + rewrite lookup_insert_ne by done. eauto.
  - intros k' Hk'. destruct (decide (k' = k)) as [->|]; [eauto|]. rewrite lookup_insert_ne in Hk' by done. auto.
  - destruct ls; simpl; [|done]. rewrite app_assoc. apply NoDup_snoc. split; [done|]. by apply Hl.
  - intros r Hr. destruct (decide (r = l)) as [->|Hne]; [rewrite lookup_insert_eq; eauto|].
    rewrite lookup_insert_ne by done. apply C5. rewrite elem_of_app in *. destruct Hr as [|Hr]; [by left|]. right. by apply Hoth.
Qed.

(** Fresh addresses. *)
Definition mem_ok (a : rr_mem) (s : rrq) : Prop :=
  rr_slots s !! rm_slot a = None ∧
  map_Forall (λ _ sl, lq_nodes (sl_q sl) !! rm_node a = None) (rr_slots s).

Lemma items_back s (z : Z) : 0 <= rr_items s < 4294967296 → -4294967296 < z < 4294967296 → add_items (add_items s z) (- z) = s.
Proof.
  intros H Hz. destruct s; unfold add_items; cbn in *. f_equal. unfold wrap64. rewrite Zplus_mod_idemp_l, Z.mod_small by lia. lia.
Qed.

Lemma rr_rep_mono s n m idx rs ps qs :
  rr_rep s n idx rs ps qs → (n <= m)%nat → Z.of_nat m < 4294967296 → rr_rep s m idx rs ps qs.
Proof. intros [H1 H2 H3 H4] Hle Hm. split; [done| |done|]; split_and!; try tauto; lia. Qed.

Lemma rr_slot s n idx rs ps qs k l :
  rr_rep s n idx rs ps qs → idx !! k = Some l →
  ∃ sl ls, rr_slots s !! l = Some sl ∧ sl_key sl = k ∧ lq_rep (sl_q sl) ls ∧ qs !! k = Some ls.*2 ∧
    (ls = [] ↔ l ∉ rs ++ ps) ∧ lq_elements (sl_q sl) = length ls.*2 ∧ sl_in_ring sl = bool_decide (l ∈ rs).
Proof.
  intros [(nx & fl & co & Hv & _ & [C1 C2 _ _ _]) _ _ (Hb & _ & Hn)] Hi. destruct (C2 k l Hi) as [q Hq].
  destruct (view_load _ _ _ _ l Hv) as (k' & q' & p & b & Hh & _ & Hf & Hc); [eauto|].
  assert (k' = k ∧ q' = q) as [-> ->] by (split; congruence).
  destruct (C1 l k q Hq) as (_ & ls & S1 & S2 & S3 & S4 & S5). exists (RSlot k q p b), ls. cbn. split_and!; try done.
  - destruct S1 as (_ & _ & _ & ->). pose proof (total_delete qs k _ S2) as Ht. rewrite length_fmap in *.
    apply wrap32_id. unfold uint32. lia.
  - congruence.
Qed.

Lemma create_sim s n idx rs ps qs k l :
  rr_rep s n idx rs ps qs → idx !! k = None → rr_slots s !! l = None → Z.of_nat (S n) < 4294967296 →
  ∃ hm, hm_put (rr_index s) k (Some l) = Some (0, hm) ∧
    rr_rep (with_index (with_slots s (<[l := make_slot k]> (rr_slots s))) hm) (S n) (<[k := l]> idx) rs ps (<[k := []]> qs).
Proof.
  intros [(nx & fl & co & Hv & Hring & Hcore) (Hm & Hcap & Hct) Hit (Hb1 & Hb2 & Hb3)] Hk Hl Hn.
  destruct (put_spec _ _ k (Some l) Hm Hcap) as (hm & Hput & Hm' & Hct' & Hcap'). rewrite lookup_fmap, Hk in Hput.
  exists hm. split; [exact Hput|].
  assert (co !! l = None) as Hcl by (destruct Hv as [_ _ <-]; by rewrite lookup_fmap, Hl).
  assert (qs !! k = None) as Hqk.
  { destruct (qs !! k) eqn:E; [|done]. destruct (co_qs _ _ _ _ _ _ Hcore k) as [x Hx]; [eauto|congruence]. }
  change (2 ^ 60) with 1152921504606846976 in *. split.
  - exists (<[l := NULL]> nx), (<[l := false]> fl), (<[l := (k, linked_queue_init)]> co). split_and!.
    + cbn. destruct Hv as [<- <- <-]. split; by rewrite fmap_insert.
    + destruct Hring as (R1 & R2 & R3). split; [|split; done]. apply links_insert; [|done].
      intros Hin. destruct (core_in_ring _ _ _ _ _ _ Hcore l Hin). congruence.
    + by apply core_create.
  - cbn. rewrite fmap_insert. split_and!; [done| |lia]. lia.
  - cbn. by rewrite Hit, total_new.
  - rewrite total_new by done. simpl. lia.
Qed.

(** The rest of [enqueue_push], once the agent has a slot. *)
Definition push_tail (a : rr_mem) (s : rrq) (slot data : ptr) : option (list ptr * enq_state * rrq) :=
  sl ← load (rr_slots s) slot;
  let q := sl_q sl in
  let need_ring_append := lq_elements q =? 0 in
  if negb (rr_max_agent s =? 0) && (rr_max_agent s <=? lq_elements q) then
    Some (dispose_all s [data], EDone (- ENOSPC), add_items s (-1))
  else
    q ← slot_push (rm_node a) q data;
    h ← store (rr_slots s) slot (set_slot_q q);
    Some ([], if need_ring_append then EAppend slot else EDone 0, with_slots s h).

Lemma push_tail_sim a s n idx rs ps qs k l q d :
  rr_rep s n idx rs ps qs → idx !! k = Some l → qs !! k = Some q → not_null d = true → Z.of_nat (S n) < 4294967296 →
  (∀ sl, rr_slots s !! l = Some sl → lq_nodes (sl_q sl) !! rm_node a = None) →
  if negb (rr_max_agent s =? 0) && (rr_max_agent s <=? length q) then
    push_tail a (add_items s 1) (Some l) d = Some (dispose_all s [d], EDone (- ENOSPC), s)
  else
    ∃ s', push_tail a (add_items s 1) (Some l) d = Some ([], match q with [] => EAppend (Some l) | _ => EDone 0 end, s') ∧
      rr_rep s' (S n) idx rs (pend_after q ps l) (<[k := q ++ [d]]> qs) ∧ same_conf s s'.
Proof.
  intros Hrep Hi Hqs Hd Hn Hfresh. destruct (rr_slot _ _ _ _ _ _ _ _ Hrep Hi) as (sl & ls & Hh & Hk & Hq & Hqs' & _ & Hel & _).
  assert (q = ls.*2) as -> by congruence. unfold push_tail. cbn [add_items load rr_slots rr_max_agent]. rewrite Hh.
  cbn [mbind option_bind]. rewrite Hel. pose proof Hrep as [(nx & fl & co & Hv & Hring & Hcore) Hidx Hit (Hb1 & Hb2 & Hb3)].
  destruct (negb _ && _).
  - fold (add_items s 1). change (-1) with (- (1)). rewrite items_back by lia. done.
  - destruct (slot_push_spec _ _ (rm_node a) d Hq (Hfresh sl Hh)) as (q' & -> & Hq'). cbn [mbind option_bind].
    assert (co !! l = Some (k, sl_q sl)) as Hco by (destruct Hv as [_ _ <-]; rewrite lookup_fmap, Hh, <-Hk; done).
    destruct (view_set_q _ _ _ _ l k _ q' Hv Hco) as (h' & -> & Hv'). cbn [mbind option_bind].
    exists (with_slots (add_items s 1) h'). split; [by destruct ls|]. split; [split|done].
    + exists nx, fl, (<[l := (k, q')]> co). split_and!; [exact Hv'|by eapply ring_ok_same|].
      replace (pend_after ls.*2 ps l) with (pend_after ls ps l) by (by destruct ls). by eapply core_push.
    + cbn. destruct Hidx as (? & ? & ?). split_and!; [done|done|lia].
    + cbn. pose proof (total_update qs k _ (ls.*2 ++ [d]) Hqs') as Ht. rewrite length_app in Ht. simpl in Ht.
      rewrite Hit, wrap64_id by (unfold size_t; lia). lia.
    + pose proof (total_update qs k _ (ls.*2 ++ [d]) Hqs') as Ht. rewrite length_app in Ht. simpl in Ht.
      split_and!; try lia. destruct ls; simpl; rewrite !length_app in *; simpl; lia.
Qed.

(** [enqueue_push] on every branch: rejected at the global limit, rejected at
    the limit of the agent, accepted for an agent with items, accepted for an
    agent without, known or new. *)
Lemma enqueue_push_sim a s n idx rs ps qs k d :
  rr_rep s n idx rs ps qs → mem_ok a s → not_null d = true → 0 <= rr_max_agent s → Z.of_nat (S (S n)) < 4294967296 →
  let q := default [] (qs !! k) in
  if negb (rr_max_global s =? 0) && (rr_max_global s <? total qs + 1) then
    enqueue_push a s k d = Some (dispose_all s [d], EDone (- ENOSPC), s)
  else if negb (rr_max_agent s =? 0) && (rr_max_agent s <=? length q) then
    enqueue_push a s k d = Some (dispose_all s [d], EDone (- ENOSPC), s)
  else
    ∃ s' idx' l, idx ⊆ idx' ∧ idx' !! k = Some l ∧
      enqueue_push a s k d = Some ([], match q with [] => EAppend (Some l) | _ => EDone 0 end, s') ∧
      rr_rep s' (S (S n)) idx' rs (pend_after q ps l) (<[k := q ++ [d]]> qs) ∧ same_conf s s'.
Proof.
  intros Hrep [Hslot Hnode] Hd Hma Hn q. unfold enqueue_push. assert (is_null d = false) as -> by (by destruct d).
  pose proof (rep_items _ _ _ _ _ _ Hrep) as Hit. pose proof (rep_bound _ _ _ _ _ _ Hrep) as (Hb1 & Hb2 & Hb3).
  assert (wrap64 (rr_items s + 1) = total qs + 1) as -> by (rewrite Hit; apply wrap64_id; unfold size_t; lia).
  cbn [add_items rr_max_global]. fold (add_items s 1).
  destruct (negb _ && _).
  { change (-1) with (- (1)). rewrite items_back by lia. done. }
  change (rr_index (add_items s 1)) with (rr_index s). rewrite (rr_get _ _ _ _ _ _ k Hrep).
  destruct (idx !! k) as [l|] eqn:Ek; cbn [mbind option_bind Z.eqb negb].
  - fold (push_tail a (add_items s 1) (Some l) d).
    destruct (rr_slot _ _ _ _ _ _ _ _ Hrep Ek) as (sl & ls & _ & _ & _ & Hqs & _).
    assert (qs !! k = Some q) as Hq by (unfold q; by rewrite Hqs).
    pose proof (push_tail_sim a s n idx rs ps qs k l q d Hrep Ek Hq Hd ltac:(lia) (Hnode l)) as Ht.
    destruct (negb _ && _); [exact Ht|]. destruct Ht as (s' & He & Hr & Hs). exists s', idx, l.
    split_and!; try done. eapply rr_rep_mono; [exact Hr|lia|lia].
  - destruct (create_sim s n idx rs ps qs k (rm_slot a) Hrep Ek Hslot ltac:(lia)) as (hm & Hput & Hr1).
    change (rr_slots (add_items s 1)) with (rr_slots s). rewrite Hput. cbn [mbind option_bind Z.eqb negb].
    set (s1 := with_index (with_slots s (<[rm_slot a := make_slot k]> (rr_slots s))) hm) in *.
    change (with_index (with_slots (add_items s 1) (<[rm_slot a := make_slot k]> (rr_slots s))) hm) with (add_items s1 1).
    fold (push_tail a (add_items s1 1) (Some (rm_slot a)) d).
    assert (q = []) as ->.
    { unfold q. destruct (qs !! k) eqn:E; [|done]. destruct (rep_core _ _ _ _ _ _ Hrep) as (nx & fl & co & _ & _ & Hc).
      destruct (co_qs _ _ _ _ _ _ Hc k) as [x Hx]; [eauto|congruence]. }
    pose proof (push_tail_sim a s1 (S n) _ rs ps _ k (rm_slot a) [] d Hr1 (lookup_insert_eq _ _ _) (lookup_insert_eq _ _ _) Hd ltac:(lia)) as Ht.
    change (rr_max_agent s1) with (rr_max_agent s) in Ht.
    destruct (Z.leb_spec (rr_max_agent s) (length (@nil ptr))) as [Hle|Hgt].
    + assert (rr_max_agent s = 0) as E by (simpl in Hle; lia). rewrite E in *. cbn [Z.eqb negb andb] in *.
      destruct Ht as (s' & He & Hr & Hs); [intros sl; cbn; rewrite lookup_insert_eq; by intros [= <-]|].
      exists s', (<[k := rm_slot a]> idx), (rm_slot a). rewrite insert_insert_eq in Hr.
      split_and!; [by apply insert_subseteq|apply lookup_insert_eq|done|exact Hr|done].
    + rewrite andb_false_r in *.
      destruct Ht as (s' & He & Hr & Hs); [intros sl; cbn; rewrite lookup_insert_eq; by intros [= <-]|].
      exists s', (<[k := rm_slot a]> idx), (rm_slot a). rewrite insert_insert_eq in Hr.
      split_and!; [by apply insert_subseteq|apply lookup_insert_eq|done|exact Hr|done].
Qed.

(** ** Removal of an agent *)

Lemma links_delete nx rs p l : l ∉ rs → links (delete l nx) rs p ↔ links nx rs p.
Proof.
  induction rs as [|r rs IH]; intros Hl; [done|]. apply not_elem_of_cons in Hl as [? ?]. simpl.
  rewrite IH, lookup_delete_ne by done. done.
Qed.

Definition without (l : loc) (rs : list loc) : list loc := filter (λ r, r ≠ l) rs.

Lemma without_out l rs : l ∉ rs → without l rs = rs.
Proof.
  intros Hl. induction rs as [|r rs IH]; [done|]. apply not_elem_of_cons in Hl as [? ?].
  unfold without. rewrite filter_cons_True by done. f_equal. by apply IH.
Qed.

Lemma without_in l a b : l ∉ a → l ∉ b → without l (a ++ l :: b) = a ++ b.
Proof.
  intros Ha Hb. unfold without. rewrite filter_app, filter_cons_False by auto.
  fold (without l a) (without l b). by rewrite !without_out.
Qed.

Lemma core_delete idx co fl rs ps qs k l q :
  core_ok idx co fl rs ps qs → co !! l = Some (k, q) → l ∉ ps →
  core_ok (delete k idx) (delete l co) (delete l fl) (without l rs) ps (delete k qs).
Proof.
  intros [C1 C2 C3 C4 C5] Hl Hps. destruct (C1 l k q Hl) as [Hi _].
  assert (∀ r, r ∈ without l rs ↔ r ≠ l ∧ r ∈ rs) as Hw by (intros r; unfold without; by rewrite list_elem_of_filter).
  split.
  - intros l' k' q' Hc. apply lookup_delete_Some in Hc as [Hne Hc]. destruct (C1 l' k' q' Hc) as [Hi' Hs].
    assert (k' ≠ k) by (intros ->; congruence). rewrite lookup_delete_ne by done. split; [done|].
    eapply slot_ok_ext; [exact Hs|by rewrite lookup_delete_ne|by rewrite lookup_delete_ne| |done].
    rewrite Hw. naive_solver.
  - intros k' l' Hi'. apply lookup_delete_Some in Hi' as [Hne Hi']. destruct (C2 k' l' Hi') as [q' Hq'].
    exists q'. rewrite lookup_delete_ne by congruence. done.
  - intros k' [x Hx]. apply lookup_delete_Some in Hx as [Hne Hx]. rewrite lookup_delete_ne by done. eauto.
  - apply NoDup_app in C4 as (N1 & N2 & N3). apply NoDup_app. split_and!; [by apply NoDup_filter| |done].
    intros r [_ Hr]%Hw. auto.
  - intros r Hr. assert (r ≠ l ∧ r ∈ rs ++ ps) as [Hne Hin].
    { rewrite elem_of_app in *. destruct Hr as [[? ?]%Hw|?]; [tauto|]. split; [by intros ->|tauto]. }
    rewrite lookup_delete_ne by done. auto.
Qed.

(** Freeing the slot of an agent that has left the ring. *)
Lemma free_slot_spec s sl l ls :
  rr_slots s !! l = Some sl → lq_rep (sl_q sl) ls → lq_elements (sl_q sl) = length ls.*2 →
  Z.of_nat (length ls) <= rr_items s < 4294967296 →
  free_slot s (Some l) true =
    Some (dispose_all s ls.*2,
          RRQ (rr_head s) (rr_tail s) (rr_cursor s) (rr_prev s) (rr_index s) (rr_ring_slots s) (rr_max_global s)
              (rr_max_agent s) (rr_items s - length ls) (rr_dispose s) (delete l (rr_slots s))).
Proof.
  intros Hl Hq Hel Hit. unfold free_slot, steal_chain. cbn [load]. rewrite Hl. cbn [mbind option_bind lq_nodes].
  destruct (lq_consume _ _ Hq) as (h' & -> & _). cbn [mbind option_bind]. rewrite (free_Some _ _ _ Hl). cbn [mbind option_bind].
  rewrite Hel, length_fmap. cbn [andb]. destruct (Z.eqb_spec (length ls) 0) as [E|E]; cbn [negb].
  - rewrite E, Z.sub_0_r. done.
  - unfold add_items, with_slots, with_ring. cbn. rewrite wrap64_id by (unfold size_t; lia). done.
Qed.

Lemma without_NoDup_split l rs : NoDup rs → l ∈ rs → ∃ a b, rs = a ++ l :: b ∧ without l rs = a ++ b.
Proof.
  intros Hnd Hin. apply list_elem_of_split in Hin as (a & b & ->). exists a, b. split; [done|].
  apply NoDup_middle in Hnd as (_ & ? & ?). by apply without_in.
Qed.

(** The slot is taken out of the ring if it is in it. *)
Lemma unring_sim s n idx rs ps qs k l sl :
  rr_rep s n idx rs ps qs → idx !! k = Some l → rr_slots s !! l = Some sl →
  ∃ s' nx fl co,
    (if sl_in_ring sl then
       prev ← ring_find_prev s (Some l);
       match prev with None => Some (false, s) | Some _ => s ← ring_remove_node s (Some l) prev; Some (true, s) end
     else Some (true, s)) = Some (true, s') ∧
    view (rr_slots s') nx fl co ∧ ring_ok s' nx (without l rs) ∧ same_rest s s' ∧
    ∃ fl0, core_ok idx co fl0 rs ps qs ∧ delete l fl = delete l fl0.
Proof.
  intros Hrep Hi Hsl. destruct (rr_slot _ _ _ _ _ _ _ _ Hrep Hi) as (sl' & ls & Hh & Hk & _ & _ & _ & _ & Hb).
  assert (sl' = sl) as -> by congruence. rewrite Hb.
  destruct Hrep as [(nx & fl & co & Hv & Hring & Hcore) _ _ (_ & Hb2 & Hn)]. rewrite length_app in Hb2.
  case_bool_decide as Hin.
  - pose proof Hring as (_ & Hnd & _). destruct (without_NoDup_split l rs Hnd Hin) as (a & b & -> & ->).
    pose proof (core_in_ring _ _ _ _ _ _ Hcore) as Hir.
    rewrite (ring_find_prev_spec s nx fl co a l b Hv Hring Hir) by (by eapply length_le_size). cbn [mbind option_bind].
    destruct (ring_remove_spec s nx fl co a l b (rr_cursor s) Hv Hring Hir) as (s' & nx' & Hrm & Hv' & Hring' & Hsame);
      [left; apply Hring|lia|].
    replace (with_ring s (rr_head s) (rr_tail s) (rr_cursor s) (rr_prev s) (rr_ring_slots s) (rr_slots s)) with s in Hrm by (by destruct s).
    rewrite Hrm. cbn [mbind option_bind]. exists s', nx', (<[l:=false]> fl), co. split_and!; try done.
    exists fl. split; [done|]. by rewrite delete_insert_eq.
  - exists s, nx, fl, co. rewrite without_out by done. split_and!; try done. by exists fl.
Qed.

Lemma drop_sim s n idx rs ps qs k :
  rr_rep s n idx rs ps qs →
  match idx !! k with
  | None => batch_queue_drop_agent s k = Some ([], 0, s)
  | Some l => l ∉ ps → ∃ q s', qs !! k = Some q ∧ batch_queue_drop_agent s k = Some (dispose_all s q, 1, s') ∧
      rr_rep s' n (delete k idx) (without l rs) ps (delete k qs) ∧ same_conf s s'
  end.
Proof.
  intros Hrep. unfold batch_queue_drop_agent. rewrite (rr_get _ _ _ _ _ _ k Hrep).
  destruct (idx !! k) as [l|] eqn:Ek; [|done]. intros Hps. cbn [mbind option_bind Z.eqb].
  destruct (rr_slot _ _ _ _ _ _ _ _ Hrep Ek) as (sl & ls & Hh & _ & Hq & Hqs & _ & Hel & _). cbn [load]. rewrite Hh.
  cbn [mbind option_bind].
  destruct (unring_sim _ _ _ _ _ _ _ _ _ Hrep Ek Hh) as (s1 & nx & fl & co & Hun & Hv & Hring & (Ei & Eg & Ea & Em & Ed) & fl0 & Hcore & Hfl).
  rewrite Hun. cbn [mbind option_bind negb].
  destruct (rep_index _ _ _ _ _ _ Hrep) as (Hm & Hcap & Hct). rewrite <-Ei in Hm, Hcap, Hct.
  destruct (del_spec _ _ k Hm) as (hm & -> & Hm' & Hcap' & Hct'). cbn [mbind option_bind].
  destruct (co_idx _ _ _ _ _ _ Hcore k l Ek) as [q Hco].
  destruct (view_load _ _ _ _ l Hv) as (k1 & q1 & p1 & b1 & Hl1 & _ & _ & Hco1); [eauto|].
  assert (k1 = k ∧ q1 = q) as [-> ->] by (split; congruence).
  destruct (co_slots _ _ _ _ _ _ Hcore l k q Hco) as (_ & ls1 & Hq1 & Hqs1 & _).
  assert (ls1.*2 = ls.*2) as El by congruence.
  pose proof (rep_items _ _ _ _ _ _ Hrep) as Hit. pose proof (rep_bound _ _ _ _ _ _ Hrep) as (Hb1 & Hb2 & Hb3).
  pose proof (total_delete qs k _ Hqs1) as Htot. rewrite length_fmap in Htot.
  rewrite (free_slot_spec (with_index s1 hm) _ l ls1 Hl1); cbn [sl_q].
  2: exact Hq1.
  2: { destruct Hq1 as (_ & _ & _ & ->). rewrite length_fmap. apply wrap32_id. unfold uint32. lia. }
  2: { cbn. rewrite Em, Hit. lia. }
  cbn [mbind option_bind]. exists ls.*2. eexists. split; [done|]. rewrite El.
  split; [unfold dispose_all; cbn; by rewrite Ed|]. split; [|by split_and!].
  pose proof (core_delete _ _ _ _ _ _ _ _ _ Hcore Hco Hps) as Hcd. rewrite <-Hfl in Hcd.
  split; cbn.
  - exists (delete l nx), (delete l fl), (delete l co). split_and!; [|destruct Hring as (R1 & R2 & R3); split; [|split; done]|exact Hcd].
    + destruct Hv as [<- <- <-]. split; by rewrite fmap_delete.
    + apply links_delete; [|done]. unfold without. rewrite list_elem_of_filter. by intros [? _].
  - rewrite fmap_delete. split_and!; [done|lia|lia].
  - rewrite Em, Hit. lia.
  - split_and!; [lia| |done]. rewrite !length_app in *. pose proof (length_filter (λ r, r ≠ l) rs). unfold without. lia.
Qed.

(** ** The abstract scheduler

    A ring of agents in the order in which they will be served, the agents
    whose producer has still to append them to the ring, and the items. *)
Record ring_st := RingSt { ra_ring : list cstr; ra_pend : list cstr; ra_qs : gmap cstr (list ptr) }.

(** The steps of the threads: the two parts of an enqueue, a pass of a drain,
    the removal of an agent, the queries.  [BAppend i] is the second part of
    the [i]-th producer that has one left. *)
Inductive bq_cmd :=
  | BPush (k : cstr) (d : loc) | BAppend (i : nat) | BDrain (rc : option Z) | BDrop (k : cstr)
  | BSize | BAgentSize (k : cstr) | BEmpty | BRingSize.
Inductive bq_ret := BZ (z : Z) | BMore | BNone | BDrained (o : outcome (option drained)) | BBool (b : bool).

Definition idle (rc : option Z) : outcome (option drained) :=
  match rc with Some r => if r =? 0 then Wait else Ret None | None => Wait end.
Definition drop_key (k : cstr) (ks : list cstr) : list cstr := filter (λ k', k' ≠ k) ks.
Definition over (limit n : Z) : bool := negb (limit =? 0) && (limit <? n).

Section abstract.
Context (max_global max_agent : Z) (disp : bool).

Definition ra_push (st : ring_st) (k : cstr) (d : loc) : list ptr * bq_ret * ring_st :=
  let q := default [] (ra_qs st !! k) in
  if over max_global (total (ra_qs st) + 1) || over max_agent (length q + 1)
  then (if disp then [Some d] else [], BZ (- ENOSPC), st)
  else ([], match q with [] => BMore | _ => BZ 0 end,
        RingSt (ra_ring st) (pend_after q (ra_pend st) k) (<[k := q ++ [Some d]]> (ra_qs st))).

Definition ra_exec (st : ring_st) (c : bq_cmd) : list ptr * bq_ret * ring_st :=
  match c with
  | BPush k d => ra_push st k d
  | BAppend i =>
      match ra_pend st !! i with
      | None => ([], BNone, st)
      | Some k => ([], BZ 0, RingSt (ra_ring st ++ [k]) (delete i (ra_pend st)) (ra_qs st))
      end
  | BDrain rc =>
      match ra_ring st with
      | [] => ([], BDrained (idle rc), st)
      | k :: ks => ([], BDrained (Ret (Some (k, default [] (ra_qs st !! k)))), RingSt ks (ra_pend st) (<[k := []]> (ra_qs st)))
      end
  | BDrop k =>
      match ra_qs st !! k with
      | None => ([], BZ 0, st)
      | Some q => (if disp then q else [], BZ 1, RingSt (drop_key k (ra_ring st)) (ra_pend st) (delete k (ra_qs st)))
      end
  | BSize => ([], BZ (total (ra_qs st)), st)
  | BAgentSize k => ([], BZ (length (default [] (ra_qs st !! k))), st)
  | BEmpty => ([], BBool (match ra_ring st with [] => true | _ => false end), st)
  | BRingSize => ([], BZ (length (ra_ring st)), st)
  end.

Fixpoint ra_run (st : ring_st) (cs : list bq_cmd) : list (list ptr * bq_ret) * ring_st :=
  match cs with
  | [] => ([], st)
  | c :: cs => let '(r, st) := ra_exec st c in let '(rs, st) := ra_run st cs in (r :: rs, st)
  end.

(** No agent is dropped between the two parts of one of its enqueues. *)
Fixpoint bq_ok (st : ring_st) (cs : list bq_cmd) : Prop :=
  match cs with
  | [] => True
  | c :: cs => match c with BDrop k => k ∉ ra_pend st | _ => True end ∧ bq_ok (ra_exec st c).2 cs
  end.

#[export] Instance bq_ok_dec st cs : Decision (bq_ok st cs).
Proof. revert st. induction cs as [|c cs IH]; intros st; cbn; [apply _|]. destruct c; apply _. Defined.
End abstract.

(** The scheduler with the producers that have their second part left. *)
Definition bq_exec (alloc : rrq → rr_mem) (t : rrq * list ptr) (c : bq_cmd) : option (list ptr * bq_ret * (rrq * list ptr)) :=
  let '(s, ps) := t in
  match c with
  | BPush k d =>
      '(ds, st, s) ← enqueue_push (alloc s) s k (Some d);
      Some (match st with
            | EDone z => (ds, BZ z, (s, ps))
            | EAppend slot => (ds, BMore, (s, ps ++ [slot]))
            end)
  | BAppend i =>
      match ps !! i with
      | None => Some ([], BNone, t)
      | Some slot => s ← enqueue_append s slot; Some ([], BZ 0, (s, delete i ps))
      end
  | BDrain rc => '(o, s) ← batch_queue_drain_next_ex rc s; Some ([], BDrained o, (s, ps))
  | BDrop k => '(ds, z, s) ← batch_queue_drop_agent s k; Some (ds, BZ z, (s, ps))
  | BSize => Some ([], BZ (batch_queue_size s), t)
  | BAgentSize k => z ← batch_queue_agent_size s k; Some ([], BZ z, t)
  | BEmpty => Some ([], BBool (batch_queue_empty s), t)
  | BRingSize => Some ([], BZ (batch_queue_ring_size s), t)
  end.

Fixpoint bq_run (alloc : rrq → rr_mem) (t : rrq * list ptr) (cs : list bq_cmd) :
    option (list (list ptr * bq_ret) * (rrq * list ptr)) :=
  match cs with
  | [] => Some ([], t)
  | c :: cs => '(r, t) ← bq_exec alloc t c; '(rs, t) ← bq_run alloc t cs; Some (r :: rs, t)
  end.

(** ** Simulation *)

Definition at_key (idx : gmap cstr loc) (k : cstr) (l : loc) : Prop := idx !! k = Some l.

Definition bq_sim (mg ma : Z) (disp : bool) (n : nat) (t : rrq * list ptr) (st : ring_st) : Prop :=
  rr_max_global t.1 = mg ∧ rr_max_agent t.1 = ma ∧ rr_dispose t.1 = disp ∧
  ∃ idx rs ps, t.2 = Some <$> ps ∧ rr_rep t.1 n idx rs ps (ra_qs st) ∧
    Forall2 (at_key idx) (ra_ring st) rs ∧ Forall2 (at_key idx) (ra_pend st) ps.

Lemma rr_inj s n idx rs ps qs k k' l :
  rr_rep s n idx rs ps qs → idx !! k = Some l → idx !! k' = Some l → k = k'.
Proof.
  intros [(nx & fl & co & _ & _ & [_ C2 _ _ _]) _ _ _] Hk Hk'. destruct (C2 k l Hk) as [q Hq].
  destruct (C2 k' l Hk') as [q' Hq']. congruence.
Qed.

Lemma rr_idx_qs s n idx rs ps qs k : rr_rep s n idx rs ps qs → idx !! k = None → qs !! k = None.
Proof.
  intros [(nx & fl & co & _ & _ & Hc) _ _ _] Hk. destruct (qs !! k) eqn:E; [|done].
  destruct (co_qs _ _ _ _ _ _ Hc k) as [x Hx]; [eauto|congruence].
Qed.

Lemma at_key_mono idx idx' ks ls : idx ⊆ idx' → Forall2 (at_key idx) ks ls → Forall2 (at_key idx') ks ls.
Proof. intros Hs Hf. eapply Forall2_impl; [exact Hf|]. intros k l Hk. by apply (lookup_weaken _ _ _ _ Hk). Qed.

Lemma at_key_drop idx k l ks ls :
  (∀ k', idx !! k' = Some l → k' = k) → idx !! k = Some l → Forall2 (at_key idx) ks ls →
  Forall2 (at_key (delete k idx)) (drop_key k ks) (without l ls).
Proof.
  intros Hinj Hk Hf. unfold drop_key, without. induction Hf as [|k' l' ks ls Ha Hf IH]; [done|]. unfold at_key in Ha.
  destruct (decide (k' = k)) as [->|Hne].
  - assert (l' = l) as -> by congruence. rewrite !filter_cons_False by auto. done.
  - assert (l' ≠ l) by (intros ->; auto). rewrite !filter_cons_True by done. constructor; [|done].
    unfold at_key. by rewrite lookup_delete_ne.
Qed.

Lemma at_key_out idx k l ks ls : idx !! k = Some l → k ∉ ks → Forall2 (at_key idx) ks ls → (∀ k', idx !! k' = Some l → k' = k) → l ∉ ls.
Proof.
  intros Hk Hn Hf Hinj Hin. apply list_elem_of_lookup in Hin as [i Hi].
  destruct (Forall2_lookup_r _ _ _ _ _ Hf Hi) as (k' & Hk' & Ha). apply Hn. rewrite <-(Hinj k' Ha). by eapply list_elem_of_lookup_2.
Qed.

Lemma at_key_drop_out idx k ks ls : k ∉ ks → Forall2 (at_key idx) ks ls → Forall2 (at_key (delete k idx)) ks ls.
Proof.
  intros Hn Hf. induction Hf as [|k' l' ks ls Ha Hf IH]; [done|]. apply not_elem_of_cons in Hn as [? ?].
  constructor; [|auto]. unfold at_key. by rewrite lookup_delete_ne.
Qed.

Section sim.
Context (alloc : rrq → rr_mem) (alloc_fresh : ∀ s, mem_ok (alloc s) s).
Context (mg ma : Z) (disp : bool) (ma_pos : 0 <= ma).

(** What each command of the abstract scheduler has to match. *)
Definition step_ok (n : nat) (t : rrq * list ptr) (st : ring_st) (c : bq_cmd) : Prop :=
  let r := ra_exec mg ma disp st c in
  ∃ t', bq_exec alloc t c = Some (r.1, t') ∧ bq_sim mg ma disp (S (S n)) t' r.2.

Lemma bq_sim_mono n m t st : bq_sim mg ma disp n t st → (n <= m)%nat → Z.of_nat m < 4294967296 → bq_sim mg ma disp m t st.
Proof.
  intros (E1 & E2 & E3 & idx & rs & ps & H1 & H2 & H3) Hle Hm. split_and!; try done.
  exists idx, rs, ps. split_and!; try done; [|tauto|tauto]. by eapply rr_rep_mono.
Qed.

Lemma step_push n t st k d :
  bq_sim mg ma disp n t st → Z.of_nat (S (S n)) < 4294967296 → step_ok n t st (BPush k d).
Proof using alloc_fresh ma_pos.
  intros Hsim Hn. pose proof Hsim as (E1 & E2 & E3 & idx & rs & ps & Hps & Hrep & Hring & Hpend). destruct t as [s tp].
  cbn [fst snd] in *. pose proof (enqueue_push_sim (alloc s) s n idx rs ps _ k (Some d) Hrep (alloc_fresh s) eq_refl) as Hp.
  rewrite E2 in Hp. specialize (Hp ma_pos Hn). cbn beta zeta in Hp.
  unfold step_ok. cbn [ra_exec]. unfold ra_push, over. cbn beta zeta. rewrite E1 in Hp.
  replace (ma <? length (default [] (ra_qs st !! k)) + 1) with (ma <=? length (default [] (ra_qs st !! k))) by lia.
  unfold dispose_all in Hp. rewrite E3 in Hp.
  destruct (negb (mg =? 0) && (mg <? total (ra_qs st) + 1)).
  { cbn [orb fst snd]. cbn [bq_exec]. rewrite Hp. eexists. split; [reflexivity|]. by eapply bq_sim_mono; [exact Hsim|lia|]. }
  cbn [orb]. destruct (negb (ma =? 0) && _).
  { cbn [fst snd bq_exec]. rewrite Hp. eexists. split; [reflexivity|]. by eapply bq_sim_mono; [exact Hsim|lia|]. }
  destruct Hp as (s' & idx' & l & Hsub & Hk & He & Hr & (Ec1 & Ec2 & Ec3)). cbn [bq_exec]. rewrite He. cbn [mbind option_bind fst snd].
  set (q := default [] (ra_qs st !! k)) in *.
  exists (s', pend_after q tp (Some l)). split; [by destruct q|]. split_and!; cbn [fst snd]; [congruence..|].
  exists idx', rs, (pend_after q ps l). split_and!; [|exact Hr|by eapply at_key_mono|].
  - rewrite Hps. destruct q; [|done]. cbn. by rewrite fmap_app.
  - apply (at_key_mono idx idx') in Hpend; [|done]. destruct q; [|done]. cbn. apply Forall2_app; [done|]. by constructor.
Qed.

Lemma step_append n t st i :
  bq_sim mg ma disp n t st → Z.of_nat (S (S n)) < 4294967296 → step_ok n t st (BAppend i).
Proof using Type.
  intros Hsim Hn. pose proof Hsim as (E1 & E2 & E3 & idx & rs & ps & Hps & Hrep & Hring & Hpend). destruct t as [s tp].
  cbn [fst snd] in *. unfold step_ok. cbn [ra_exec bq_exec]. rewrite Hps, list_lookup_fmap.
  destruct (ra_pend st !! i) as [k|] eqn:Ei; cycle 1.
  { assert (ps !! i = None) as ->.
    { apply lookup_ge_None in Ei. apply lookup_ge_None. by rewrite <-(Forall2_length _ _ _ Hpend). }
    cbn [fmap option_fmap option_map fst snd]. eexists. split; [reflexivity|].
    rewrite <-Hps. by eapply bq_sim_mono; [exact Hsim|lia|]. }
  destruct (Forall2_lookup_l _ _ _ _ _ Hpend Ei) as (l & Hl & Ha). rewrite Hl. cbn [fmap option_fmap option_map fst snd].
  rewrite <-(take_drop_middle ps i l Hl) in Hrep.
  destruct (append_sim _ _ _ _ _ _ _ _ Hrep) as (s' & -> & Hr & (_ & Ec1 & Ec2 & _ & Ec3)). cbn [mbind option_bind].
  eexists. split; [reflexivity|]. split_and!; cbn [fst snd]; [congruence..|].
  exists idx, (rs ++ [l]), (delete i ps). split_and!.
  - by rewrite !delete_take_drop, fmap_app, fmap_take, fmap_drop.
  - rewrite delete_take_drop. eapply rr_rep_mono; [exact Hr|lia|done].
  - cbn [ra_ring]. apply Forall2_app; [done|]. by constructor.
  - cbn [ra_pend]. rewrite !delete_take_drop. apply Forall2_app; [by apply Forall2_take|by apply Forall2_drop].
Qed.

Lemma step_drain n t st rc :
  bq_sim mg ma disp n t st → Z.of_nat (S (S n)) < 4294967296 → step_ok n t st (BDrain rc).
Proof using Type.
  intros Hsim Hn. pose proof Hsim as (E1 & E2 & E3 & idx & rs & ps & Hps & Hrep & Hring & Hpend). destruct t as [s tp].
  cbn [fst snd] in *. unfold step_ok. cbn [ra_exec bq_exec]. pose proof (drain_sim rc _ _ _ _ _ _ Hrep) as Hd.
  destruct Hring as [|k l ks ls Ha Hring]; cbn [fst snd].
  - rewrite Hd. eexists. split; [reflexivity|]. by eapply bq_sim_mono; [exact Hsim|lia|].
  - destruct Hd as (k' & q & s' & Hk' & Hq & _ & -> & Hr & (Ec1 & Ec2 & Ec3)).
    assert (k' = k) as -> by (by eapply rr_inj). rewrite Hq. cbn [mbind option_bind default from_option id].
    eexists. split; [reflexivity|]. split_and!; cbn [fst snd]; [congruence..|].
    exists idx, ls, ps. split_and!; try done. eapply rr_rep_mono; [exact Hr|lia|done].
Qed.

Lemma step_drop n t st k :
  bq_sim mg ma disp n t st → k ∉ ra_pend st → Z.of_nat (S (S n)) < 4294967296 → step_ok n t st (BDrop k).
Proof using Type.
  intros Hsim Hk Hn. pose proof Hsim as (E1 & E2 & E3 & idx & rs & ps & Hps & Hrep & Hring & Hpend). destruct t as [s tp].
  cbn [fst snd] in *. unfold step_ok. cbn [ra_exec bq_exec]. pose proof (drop_sim _ _ _ _ _ _ k Hrep) as Hd.
  destruct (idx !! k) as [l|] eqn:Ek.
  - assert (∀ k', idx !! k' = Some l → k' = k) as Hinj by (intros k' Hk'; by eapply rr_inj).
    destruct Hd as (q & s' & Hq & -> & Hr & (Ec1 & Ec2 & Ec3)); [by eapply at_key_out|]. rewrite Hq. cbn [mbind option_bind fst snd].
    eexists. split; [unfold dispose_all; by rewrite E3|]. split_and!; cbn [fst snd]; [congruence..|].
    exists (delete k idx), (without l rs), ps. split_and!; [done|eapply rr_rep_mono; [exact Hr|lia|done]|by apply at_key_drop|].
    by apply at_key_drop_out.
  - rewrite (rr_idx_qs _ _ _ _ _ _ _ Hrep Ek), Hd. eexists. split; [reflexivity|]. by eapply bq_sim_mono; [exact Hsim|lia|].
Qed.

Lemma step_query n t st c :
  bq_sim mg ma disp n t st → Z.of_nat (S (S n)) < 4294967296 →
  match c with BSize | BAgentSize _ | BEmpty | BRingSize => True | _ => False end → step_ok n t st c.
Proof using Type.
  intros Hsim Hn Hc. pose proof Hsim as (E1 & E2 & E3 & idx & rs & ps & Hps & Hrep & Hring & Hpend). destruct t as [s tp].
  cbn [fst snd] in *. unfold step_ok. assert (bq_sim mg ma disp (S (S n)) (s, tp) st) as Hm by (by eapply bq_sim_mono; [exact Hsim|lia|]).
  pose proof Hrep as [(nx & fl & co & Hv & (_ & _ & _ & _ & Hcur & _ & Hlen) & Hcore) Hidx Hit Hb].
  destruct c; try done; cbn [ra_exec bq_exec fst snd]; eexists; (split; [|exact Hm]).
  - unfold batch_queue_size. by rewrite Hit.
  - unfold batch_queue_agent_size. rewrite (rr_get _ _ _ _ _ _ k Hrep). destruct (idx !! k) as [l|] eqn:Ek.
    + destruct (rr_slot _ _ _ _ _ _ _ _ Hrep Ek) as (sl & ls & Hh & _ & _ & Hqs & _ & Hel & _).
      cbn [mbind option_bind Z.eqb load]. rewrite Hh. cbn [mbind option_bind]. by rewrite Hel, Hqs.
    + by rewrite (rr_idx_qs _ _ _ _ _ _ k Hrep Ek).
  - unfold batch_queue_empty. rewrite Hcur. by destruct Hring.
  - unfold batch_queue_ring_size. rewrite Hlen. by rewrite (Forall2_length _ _ _ Hring).
Qed.

Lemma batch_exec_sim n t st c :
  bq_sim mg ma disp n t st → match c with BDrop k => k ∉ ra_pend st | _ => True end → Z.of_nat (S (S n)) < 4294967296 →
  step_ok n t st c.
Proof using alloc_fresh ma_pos.
  intros Hs Hc Hn. destruct c;
    [by apply step_push|by apply step_append|by apply step_drain|by apply step_drop|by apply step_query..].
Qed.

Lemma batch_run_sim n t st cs :
  bq_sim mg ma disp n t st → bq_ok mg ma disp st cs → Z.of_nat (n + 2 * length cs) < 4294967296 →
  let r := ra_run mg ma disp st cs in
  ∃ t', bq_run alloc t cs = Some (r.1, t') ∧ bq_sim mg ma disp (n + 2 * length cs) t' r.2.
Proof using alloc_fresh ma_pos.
  revert n t st. induction cs as [|c cs IH]; intros n t st Hs Hok Hn.
  - exists t. split; [done|]. simpl. by rewrite Nat.add_0_r.
  - destruct Hok as [Hc Hok]. cbn [length] in Hn. destruct (batch_exec_sim n t st c Hs Hc) as (t1 & He & Hs1); [lia|].
    cbn [ra_run bq_run] in *. destruct (ra_exec mg ma disp st c) as [r1 st1]. cbn [fst snd] in *. rewrite He. cbn [mbind option_bind].
    destruct (IH (S (S n)) t1 st1 Hs1 Hok) as (t2 & Hr & Hs2); [lia|]. destruct (ra_run mg ma disp st1 cs) as [rs2 st2].
    cbn [fst snd] in *. rewrite Hr. cbn [mbind option_bind]. exists t2. split; [done|].
    replace (n + 2 * length (c :: cs))%nat with (S (S n) + 2 * length cs)%nat by (simpl; lia). done.
Qed.
End sim.
