(* ===== verification/BatchClaims.v ===== *)
(** What the batch queue promises, for every interleaving of its producers,
    its consumer and the removal of agents. *)

From S2P Require Import Prelude Keyed Dll Monitor LinkedQueue HashMap HashMapSpec BatchQueue BatchSpec.

(** A new scheduler with its limits and its dispose function set. *)
Definition bq_new (mg ma : Z) (disp : bool) : option rrq :=
  s ← batch_queue_init mg; Some (batch_queue_set_agent_max (batch_queue_set_dispose s disp) ma).

Definition ring_empty : ring_st := RingSt [] [] ∅.

Lemma bq_new_sim mg ma disp : ∃ s, bq_new mg ma disp = Some s ∧ bq_sim mg ma disp 0 (s, []) ring_empty.
Proof.
  unfold bq_new, batch_queue_init. destruct (init_spec 64 64) as (hm & -> & Hm & Hc & Ht); [lia..|].
  cbn [mbind option_bind Z.eqb negb]. eexists. split; [reflexivity|]. split_and!; [done..|]. exists ∅, [], []. split_and!; try done.
  split; cbn; try done.
  - exists ∅, ∅, ∅. split_and!; [by split|split_and!; done || constructor|]. split.
    + done.
    + done.
    + by intros k [? ?].
    + constructor.
    + intros l Hl. by apply not_elem_of_nil in Hl.
  - rewrite fmap_empty. split_and!; [done|tauto|lia].
Qed.

Lemma bq_new_run alloc mg ma disp cs :
  (∀ s, mem_ok (alloc s) s) → 0 <= ma → bq_ok mg ma disp ring_empty cs → Z.of_nat (2 * length cs) < 4294967296 →
  ∃ s t, bq_new mg ma disp = Some s ∧ bq_run alloc (s, []) cs = Some ((ra_run mg ma disp ring_empty cs).1, t) ∧
    bq_sim mg ma disp (2 * length cs) t (ra_run mg ma disp ring_empty cs).2.
Proof.
  intros Ha Hm Hok Hlen. destruct (bq_new_sim mg ma disp) as (s & Hs & Hsim).
  destruct (batch_run_sim alloc Ha mg ma disp Hm 0 (s, []) ring_empty cs Hsim Hok) as (t & Hr & Ht); [lia|]. by exists s, t.
Qed.

(** A concrete allocator. *)
Definition bq_alloc (s : rrq) : rr_mem :=
  RRMem (fresh (dom (rr_slots s))) (fresh (⋃ ((λ x, dom (lq_nodes (sl_q x.2))) <$> map_to_list (rr_slots s)))).

Lemma bq_alloc_fresh s : mem_ok (bq_alloc s) s.
Proof.
  unfold bq_alloc. split; cbn [rm_slot rm_node].
  - apply not_elem_of_dom, is_fresh.
  - intros l sl Hl. apply not_elem_of_dom. intros Hin.
    eapply (is_fresh (⋃ ((λ x, dom (lq_nodes (sl_q x.2))) <$> map_to_list (rr_slots s)))).
    apply elem_of_union_list. exists (dom (lq_nodes (sl_q sl))). split; [|exact Hin].
    apply list_elem_of_fmap. exists (l, sl). split; [done|]. by apply elem_of_map_to_list.
Qed.



(** ** First in, first out for each agent *)

(** The items of agent [k] that were accepted and those that were drained. *)
Definition accepted (k : cstr) (c : bq_cmd) (r : bq_ret) : list ptr :=
  match c, r with
  | BPush k' d, BMore => if decide (k' = k) then [Some d] else []
  | BPush k' d, BZ z => if decide (k' = k ∧ z = 0) then [Some d] else []
  | _, _ => []
  end.
Definition batch_of (k : cstr) (r : bq_ret) : list ptr :=
  match r with BDrained (Ret (Some (k', q))) => if decide (k' = k) then q else [] | _ => [] end.
Fixpoint all_accepted (k : cstr) (cs : list bq_cmd) (rs : list (list ptr * bq_ret)) : list ptr :=
  match cs, rs with c :: cs, r :: rs => accepted k c r.2 ++ all_accepted k cs rs | _, _ => [] end.
Definition all_drained (k : cstr) (rs : list (list ptr * bq_ret)) : list ptr := rs ≫= λ r, batch_of k r.2.

Definition items (st : ring_st) (k : cstr) : list ptr := default [] (ra_qs st !! k).

Lemma items_insert st ring pend k k' q :
  items (RingSt ring pend (<[k' := q]> (ra_qs st))) k = if decide (k' = k) then q else items st k.
Proof. unfold items. cbn. case_decide as E; [subst; by rewrite lookup_insert_eq|by rewrite lookup_insert_ne]. Qed.

Lemma exec_items mg ma disp st c k :
  c ≠ BDrop k →
  items st k ++ accepted k c (ra_exec mg ma disp st c).1.2 =
  batch_of k (ra_exec mg ma disp st c).1.2 ++ items (ra_exec mg ma disp st c).2 k.
Proof.
  intros Hc. destruct c as [k' d|i|rc|k'| |k'| |]; cbn [ra_exec accepted]; rewrite ?app_nil_r; try done.
  - unfold ra_push. destruct (_ || _); cbn [fst snd batch_of app].
    + rewrite decide_False by (intros [_ ?]; done). by rewrite app_nil_r.
    + rewrite items_insert. fold (items st k'). destruct (decide (k' = k)) as [->|Hne].
      * destruct (items st k); [done|rewrite decide_True by done; done].
      * destruct (items st k'); [by rewrite app_nil_r|]. rewrite decide_False by tauto. by rewrite app_nil_r.
  - by destruct (ra_pend st !! i).
  - destruct (ra_ring st) as [|k' ks]; cbn [fst snd batch_of].
    + unfold idle. by destruct rc as [r|]; [destruct (r =? 0)|].
    + rewrite items_insert. fold (items st k'). case_decide as E; [subst; by rewrite app_nil_r|done].
  - destruct (ra_qs st !! k') as [q|] eqn:Eq; cbn [fst snd batch_of app]; [|done]. unfold items. cbn.
    by rewrite lookup_delete_ne by congruence.
Qed.

Lemma run_items mg ma disp st cs k :
  BDrop k ∉ cs →
  items st k ++ all_accepted k cs (ra_run mg ma disp st cs).1 =
  all_drained k (ra_run mg ma disp st cs).1 ++ items (ra_run mg ma disp st cs).2 k.
Proof.
  revert st. induction cs as [|c cs IH]; intros st Hc; [by rewrite app_nil_r|]. apply not_elem_of_cons in Hc as [Hc Hcs].
  cbn [ra_run]. pose proof (exec_items mg ma disp st c k ltac:(done)) as He. destruct (ra_exec mg ma disp st c) as [r st1].
  specialize (IH st1 Hcs). destruct (ra_run mg ma disp st1 cs) as [rs st2]. cbn [fst snd all_accepted] in *.
  unfold all_drained in *. cbn [mbind list_bind]. rewrite app_assoc, He, <-app_assoc, IH. by rewrite app_assoc.
Qed.

Lemma sim_agent_size mg ma disp n t st k :
  bq_sim mg ma disp n t st → batch_queue_agent_size t.1 k = Some (Z.of_nat (length (items st k))).
Proof.
  intros (_ & _ & _ & idx & rs & ps & _ & Hrep & _). unfold batch_queue_agent_size. rewrite (rr_get _ _ _ _ _ _ k Hrep).
  unfold items. destruct (idx !! k) as [l|] eqn:Ek.
  - destruct (rr_slot _ _ _ _ _ _ _ _ Hrep Ek) as (sl & ls & Hh & _ & _ & Hqs & _ & Hel & _).
    cbn [mbind option_bind Z.eqb load]. rewrite Hh. cbn [mbind option_bind]. by rewrite Hel, Hqs.
  - by rewrite (rr_idx_qs _ _ _ _ _ _ k Hrep Ek).
Qed.

(** Per-agent order and no loss: in every interleaving, the items that
    were accepted for an agent that is not dropped are, in order, those of the
    batches drained for it followed by those that batch_queue_agent_size still
    counts; none is lost, repeated or given to another agent. *)
Theorem batch_queue_fifo alloc mg ma disp cs k :
  (∀ s, mem_ok (alloc s) s) → 0 <= ma → bq_ok mg ma disp ring_empty cs → Z.of_nat (2 * length cs) < 4294967296 →
  BDrop k ∉ cs →
  ∃ s rs t q, bq_new mg ma disp = Some s ∧ bq_run alloc (s, []) cs = Some (rs, t) ∧
    all_accepted k cs rs = all_drained k rs ++ q ∧ batch_queue_agent_size t.1 k = Some (Z.of_nat (length q)).
Proof.
  intros Ha Hm Hok Hlen Hd. destruct (bq_new_run alloc mg ma disp cs Ha Hm Hok Hlen) as (s & t & Hs & Hr & Hsim).
  exists s. eexists _, t, _. split; [exact Hs|]. split; [exact Hr|]. split; [|by eapply sim_agent_size].
  exact (run_items mg ma disp ring_empty cs k Hd).
Qed.

Lemma batch_queue_fifo_witness :
  let cs := [BPush [97] 1%positive; BPush [97] 2%positive; BAppend 0; BDrain None; BPush [98] 3%positive; BPush [97] 4%positive] in
  ∃ s rs t q, bq_new 0 0 true = Some s ∧ bq_run bq_alloc (s, []) cs = Some (rs, t) ∧
    all_accepted [97] cs rs = all_drained [97] rs ++ q ∧ batch_queue_agent_size t.1 [97] = Some (Z.of_nat (length q)).
Proof.
  intros cs. apply (batch_queue_fifo bq_alloc 0 0 true cs [97] bq_alloc_fresh); [lia| |by vm_compute|].
  - apply (bool_decide_unpack _). vm_compute. exact I.
  - unfold cs. rewrite !not_elem_of_cons. split_and!; try discriminate. apply not_elem_of_nil.
Defined.

(** ** Fairness *)

Definition is_drain (c : bq_cmd) : bool := match c with BDrain _ => true | _ => false end.
Definition drains (cs : list bq_cmd) : nat := length (filter is_drain cs).

Lemma drains_cons c cs : drains (c :: cs) = ((if is_drain c then 1 else 0) + drains cs)%nat.
Proof. unfold drains. rewrite filter_cons. by destruct c. Qed.

Lemma drop_key_split k k' a b :
  k' ≠ k → ∃ a' b', drop_key k' (a ++ k :: b) = a' ++ k :: b' ∧ (length a' <= length a)%nat.
Proof.
  intros Hne. unfold drop_key. rewrite filter_app, filter_cons_True by done. eexists _, _. split; [reflexivity|]. apply length_filter.
Qed.

Lemma exec_waiting mg ma disp st c k a b :
  c ≠ BDrop k → ra_ring st = a ++ k :: b → items st k ≠ [] →
  let r := ra_exec mg ma disp st c in
  (∃ q, q ≠ [] ∧ r.1.2 = BDrained (Ret (Some (k, q)))) ∨
  (∃ a' b', ra_ring r.2 = a' ++ k :: b' ∧ items r.2 k ≠ [] ∧
    (length a' + (if is_drain c then 1 else 0) <= length a)%nat).
Proof.
  intros Hc Hring Hne. destruct c as [k' d|i|rc|k'| |k'| |]; cbn [ra_exec];
    try (right; exists a, b; cbn; split_and!; [done|done|lia]).
  - right. exists a, b. unfold ra_push. destruct (_ || _); cbn; [split_and!; [done|done|lia]|].
    rewrite items_insert. split_and!; [done| |lia]. case_decide; [|done]. by destruct (default [] (ra_qs st !! k')).
  - right. destruct (ra_pend st !! i) as [k'|]; cbn; [exists a, (b ++ [k'])|exists a, b]; rewrite Hring, <-?app_assoc; split_and!; done || lia.
  - rewrite Hring. destruct a as [|k' a]; cbn.
    + left. exists (items st k). done.
    + destruct (decide (k' = k)) as [->|Hk]; [left; by exists (items st k)|]. right. exists a, b. rewrite items_insert, decide_False by done.
      split_and!; [done|done|lia].
  - right. destruct (ra_qs st !! k') as [q|] eqn:Eq; cbn; [|exists a, b; split_and!; done || lia]. rewrite Hring.
    destruct (drop_key_split k k' a b) as (a' & b' & Hd & Hl); [congruence|]. exists a', b'. split_and!; [done| |lia].
    unfold items. cbn. by rewrite lookup_delete_ne by congruence.
Qed.

Lemma run_waiting mg ma disp cs st k a b :
  BDrop k ∉ cs → ra_ring st = a ++ k :: b → items st k ≠ [] → (length a < drains cs)%nat →
  ∃ ds q, q ≠ [] ∧ (ds, BDrained (Ret (Some (k, q)))) ∈ (ra_run mg ma disp st cs).1.
Proof.
  revert st a b. induction cs as [|c cs IH]; intros st a b Hd Hring Hne Hlen; [unfold drains in Hlen; cbn in Hlen; lia|].
  apply not_elem_of_cons in Hd as [Hc Hd].
  pose proof (exec_waiting mg ma disp st c k a b ltac:(done) Hring Hne) as Hx. cbn [ra_run] in *.
  destruct (ra_exec mg ma disp st c) as [[ds r] st1]. cbn [fst snd] in Hx.
  rewrite drains_cons in Hlen.
  destruct Hx as [(q & Hq & ->)|(a' & b' & Hr' & Hn' & Hl')].
  - exists ds, q. destruct (ra_run mg ma disp st1 cs). split; [done|]. by left.
  - destruct (IH st1 a' b' Hd Hr' Hn') as (ds' & q & Hq & Hin); [lia|]. exists ds', q. split; [done|].
    destruct (ra_run mg ma disp st1 cs). cbn [fst] in *. by right.
Qed.

Lemma ra_run_app mg ma disp st cs1 cs2 :
  ra_run mg ma disp st (cs1 ++ cs2) =
  ((ra_run mg ma disp st cs1).1 ++ (ra_run mg ma disp (ra_run mg ma disp st cs1).2 cs2).1,
   (ra_run mg ma disp (ra_run mg ma disp st cs1).2 cs2).2).
Proof.
  revert st. induction cs1 as [|c cs1 IH]; intros st; cbn [app ra_run fst snd]; [by destruct (ra_run mg ma disp st cs2)|].
  destruct (ra_exec mg ma disp st c) as [r st1]. rewrite IH. destruct (ra_run mg ma disp st1 cs1) as [rs st2]. cbn [fst snd].
  by destruct (ra_run mg ma disp st2 cs2).
Qed.

Lemma bq_ok_app mg ma disp st cs1 cs2 :
  bq_ok mg ma disp st (cs1 ++ cs2) ↔ bq_ok mg ma disp st cs1 ∧ bq_ok mg ma disp (ra_run mg ma disp st cs1).2 cs2.
Proof.
  revert st. induction cs1 as [|c cs1 IH]; intros st; cbn [app ra_run bq_ok]; [cbn; tauto|]. rewrite IH.
  destruct (ra_exec mg ma disp st c) as [r st1]. cbn [fst snd].
  destruct (ra_run mg ma disp st1 cs1) as [rs st2]. cbn [fst snd]. tauto.
Qed.

(** An agent with items is in the ring or about to be appended to it. *)
Lemma sim_scheduled mg ma disp n t st k :
  bq_sim mg ma disp n t st → items st k ≠ [] → k ∈ ra_ring st ++ ra_pend st.
Proof.
  intros (_ & _ & _ & idx & rs & ps & _ & Hrep & Hring & Hpend) Hi. unfold items in Hi.
  destruct (idx !! k) as [l|] eqn:Ek; [|by rewrite (rr_idx_qs _ _ _ _ _ _ k Hrep Ek) in Hi].
  destruct (rr_slot _ _ _ _ _ _ _ _ Hrep Ek) as (sl & ls & _ & _ & _ & Hqs & Hin & _). rewrite Hqs in Hi. cbn in Hi.
  assert (l ∈ rs ++ ps) as Hl.
  { destruct (decide (l ∈ rs ++ ps)) as [|Hn]; [done|]. apply Hin in Hn. subst. done. }
  pose proof (Forall2_app Hring Hpend) as Hf. apply list_elem_of_lookup in Hl as [i Hi'].
  destruct (Forall2_lookup_r _ _ _ _ _ Hf Hi') as (k' & Hk' & Ha). assert (k' = k) as -> by (by eapply rr_inj).
  by eapply list_elem_of_lookup_2.
Qed.



(** ** Dropping an agent during an enqueue *)

(** When an agent is dropped between the two parts of an enqueue for it,
    the producer's second part reads the slot that was freed. *)
Theorem batch_queue_drop_race :
  (s ← bq_new 0 0 true;
   '(_, st, s) ← enqueue_push (bq_alloc s) s [97] (Some 1%positive);
   '(_, z, s) ← batch_queue_drop_agent s [97];
   match st with EAppend slot => Some (z, enqueue_append s slot) | EDone _ => None end) = Some (1, None).
Proof. vm_compute. reflexivity. Qed.

(** ** [batch_queue_free] *)

(** The slots freed one after the other. *)
Fixpoint free_all (s : rrq) (ps : list ptr) : option (list ptr * rrq) :=
  match ps with
  | [] => Some ([], s)
  | p :: ps => '(ds, s) ← free_slot s p false; '(ds', s) ← free_all s ps; Some (ds ++ ds', s)
  end.

Lemma free_slot_false s l sl ls :
  rr_slots s !! l = Some sl → lq_rep (sl_q sl) ls →
  free_slot s (Some l) false = Some (dispose_all s ls.*2, with_slots s (delete l (rr_slots s))).
Proof.
  intros Hl Hq. unfold free_slot, steal_chain. cbn [load]. rewrite Hl. cbn [mbind option_bind lq_nodes andb].
  destruct (lq_consume _ _ Hq) as (h' & -> & _). cbn [mbind option_bind]. by rewrite (free_Some _ _ _ Hl).
Qed.

Lemma free_loop_iterate fuel s idx kvs :
  hm_iterate fuel (rr_index s) idx = Some kvs →
  Forall (λ l, ∃ sl ls, rr_slots s !! l = Some sl ∧ lq_rep (sl_q sl) ls) (omap snd kvs) → NoDup (omap snd kvs) →
  Forall (λ kv, is_Some kv.2) kvs → free_loop fuel s idx = free_all s kvs.*2.
Proof.
  revert s idx kvs. induction fuel as [|fuel IH]; intros s idx kvs Hi Hall Hnd Hs; [done|]. cbn [hm_iterate free_loop] in *.
  destruct (hm_iter_next (rr_index s) idx) as [[[[k p]|] idx']|]; cbn [mbind option_bind] in *; try done; cycle 1.
  { by injection Hi as <-. }
  destruct (hm_iterate fuel (rr_index s) idx') as [kvs'|] eqn:Ei; cbn [mbind option_bind] in Hi; [|done]. injection Hi as <-.
  apply Forall_cons in Hs as [[l Hl] Hs]. cbn in Hl. subst p.
  change (omap snd ((k, Some l) :: kvs')) with (l :: omap snd kvs') in Hall, Hnd.
  apply Forall_cons in Hall as [(sl & ls & Hsl & Hq) Hall]. apply NoDup_cons in Hnd as [Hni Hnd].
  cbn [fmap list_fmap free_all snd]. rewrite (free_slot_false _ _ _ _ Hsl Hq). cbn [mbind option_bind].
  rewrite (IH _ idx' kvs'); [done|exact Ei| |done|done].
  apply Forall_forall. intros r Hr. rewrite Forall_forall in Hall. destruct (Hall r Hr) as (sl' & ls' & H1 & H2).
  exists sl', ls'. cbn. rewrite lookup_delete_ne by (intros ->; done). done.
Qed.

(** What is freed and disposed of, when the slot of each key has its items. *)
Lemma free_all_spec s (kls : list (cstr * loc)) (qs : cstr → list ptr) :
  NoDup kls.*2 →
  Forall (λ kl, ∃ sl ls, rr_slots s !! kl.2 = Some sl ∧ lq_rep (sl_q sl) ls ∧ ls.*2 = qs kl.1) kls →
  ∃ s', free_all s (Some <$> kls.*2) = Some (dispose_all s (kls.*1 ≫= qs), s') ∧ rr_dispose s' = rr_dispose s ∧
    rr_index s' = rr_index s ∧ dom (rr_slots s') = dom (rr_slots s) ∖ list_to_set kls.*2.
Proof.
  revert s. induction kls as [|[k l] kls IH]; intros s Hnd Hall.
  - exists s. split_and!; try done; [unfold dispose_all; by destruct (rr_dispose s)|]. cbn. by rewrite difference_empty_L.
  - apply NoDup_cons in Hnd as [Hni Hnd]. apply Forall_cons in Hall as [(sl & ls & Hsl & Hq & Els) Hall]. cbn [fst snd] in *.
    cbn [fmap list_fmap free_all fst snd]. rewrite (free_slot_false _ _ _ _ Hsl Hq). cbn [mbind option_bind].
    destruct (IH (with_slots s (delete l (rr_slots s))) Hnd) as (s' & He & Hd & Hx & Hdom).
    { apply Forall_forall. intros [k' l'] Hr. rewrite Forall_forall in Hall. destruct (Hall _ Hr) as (sl' & ls' & H1 & H2).
      exists sl', ls'. cbn in *. rewrite lookup_delete_ne; [done|]. intros ->. apply Hni, list_elem_of_fmap. by exists (k', l'). }
    change (@list_fmap) with (@fmap list _) in *.
    rewrite He. cbn [mbind option_bind]. exists s'. split_and!; [|by rewrite Hd|by rewrite Hx|].
    + unfold dispose_all. cbn. rewrite Els. by destruct (rr_dispose s).
    + rewrite Hdom. cbn. rewrite dom_delete_L. set_solver.
Qed.

Lemma concat_items (qs : gmap cstr (list ptr)) :
  concat (map_to_list qs).*2 = (map_to_list qs).*1 ≫= λ k, default [] (qs !! k).
Proof.
  assert (Forall (λ kq, qs !! kq.1 = Some kq.2) (map_to_list qs)) as Hall.
  { apply Forall_forall. intros [k q] Hin. by apply elem_of_map_to_list in Hin. }
  induction (map_to_list qs) as [|[k q] l IH]; [done|]. apply Forall_cons in Hall as [Hk Hall]. cbn in *. rewrite Hk. cbn.
  f_equal. by apply IH.
Qed.

Lemma elem_of_keys {A} (m : gmap cstr A) k : k ∈ (map_to_list m).*1 ↔ is_Some (m !! k).
Proof.
  rewrite list_elem_of_fmap. split.
  - intros ([k' x] & -> & Hin). apply elem_of_map_to_list in Hin. eauto.
  - intros [x Hx]. exists (k, x). split; [done|]. by apply elem_of_map_to_list.
Qed.

Lemma rr_dom_perm s n idx rs ps qs : rr_rep s n idx rs ps qs → (map_to_list idx).*1 ≡ₚ (map_to_list qs).*1.
Proof.
  intros Hrep. apply NoDup_Permutation; [apply NoDup_fst_map_to_list..|]. intros k. rewrite !elem_of_keys. split.
  - intros [l Hl]. destruct (rr_slot _ _ _ _ _ _ _ _ Hrep Hl) as (sl & ls & _ & _ & _ & Hqs & _). eauto.
  - intros [q Hq]. destruct (idx !! k) eqn:E; [eauto|]. rewrite (rr_idx_qs _ _ _ _ _ _ k Hrep E) in Hq. done.
Qed.

Lemma bq_free_sim mg ma disp n t st :
  bq_sim mg ma disp n t st →
  ∃ ds ks, batch_queue_free t.1 = Some (ds, ks, ∅) ∧ ks ≡ₚ (map_to_list (ra_qs st)).*1 ∧
    ds ≡ₚ if disp then concat (map_to_list (ra_qs st)).*2 else [].
Proof.
  intros (_ & _ & Hdisp & idx & rs & ps & _ & Hrep & _). destruct t as [s tp]. cbn [fst] in *.
  destruct (rep_index _ _ _ _ _ _ Hrep) as (Hm & _). destruct (iterate_all _ _ Hm) as (kvs & Hit & Hp & Hks).
  rewrite map_to_list_fmap in Hp, Hks. apply Permutation_map_inv in Hp as (kls & -> & Hp).
  assert (∀ k l, (k, l) ∈ kls → idx !! k = Some l) as Hin by (intros k l; rewrite <-Hp; apply elem_of_map_to_list).
  assert (NoDup kls.*2) as Hnd.
  { apply NoDup_fmap_2_strong; [|rewrite <-Hp; apply NoDup_map_to_list]. intros [k1 l1] [k2 l2] H1 H2 E. cbn in E. subst l2.
    f_equal. eapply rr_inj; [exact Hrep|by apply Hin..]. }
  assert (Forall (λ kl, ∃ sl ls, rr_slots s !! kl.2 = Some sl ∧ lq_rep (sl_q sl) ls ∧ ls.*2 = items st kl.1) kls) as Hall.
  { apply Forall_forall. intros [k l] Hkl. apply Hin in Hkl.
    destruct (rr_slot _ _ _ _ _ _ _ _ Hrep Hkl) as (sl & ls & H1 & _ & H2 & H3 & _). exists sl, ls. unfold items. cbn. by rewrite H3. }
  assert (omap snd (map (prod_map id Some) kls) = kls.*2) as Eo.
  { clear. induction kls as [|[k l] kls IH]; [done|]. cbn. by rewrite <-IH. }
  assert ((map (prod_map id Some) kls).*2 = Some <$> kls.*2 :> list ptr) as Es.
  { clear. induction kls as [|[k l] kls IH]; [done|]. cbn. by f_equal. }
  unfold batch_queue_free. rewrite (free_loop_iterate _ s _ _ Hit); rewrite ?Eo, ?Es; [|..|done|]; cycle 1.
  { apply Forall_fmap. eapply Forall_impl; [exact Hall|]. intros [k l] (sl & ls & H1 & H2 & _). exists sl, ls. done. }
  { apply Forall_map, Forall_forall. intros [k l] _. by eexists. }
  destruct (free_all_spec s kls (items st) Hnd Hall) as (s' & -> & _ & Hx & Hdom). cbn [mbind option_bind].
  assert (rr_slots s' = ∅) as ->.
  { apply dom_empty_inv_L. rewrite Hdom. apply subseteq_empty_difference_L. intros l Hl. apply elem_of_dom in Hl as [sl Hl].
    apply elem_of_list_to_set, list_elem_of_fmap. destruct (rep_core _ _ _ _ _ _ Hrep) as (nx & fl & co & Hv & _ & Hc).
    assert (co !! l = Some (sl_key sl, sl_q sl)) as Hco by (destruct Hv as [_ _ <-]; by rewrite lookup_fmap, Hl).
    destruct (co_slots _ _ _ _ _ _ Hc _ _ _ Hco) as [Hi _]. exists (sl_key sl, l). split; [done|].
    rewrite <-Hp. by apply elem_of_map_to_list. }
  eexists _, _. split; [reflexivity|]. rewrite Hx. pose proof (rr_dom_perm _ _ _ _ _ _ Hrep) as Hdp. split.
  - rewrite Hks, <-Hdp. by rewrite <-list_fmap_compose.
  - unfold dispose_all. rewrite Hdisp. destruct disp; [|done]. rewrite concat_items, <-Hdp, Hp. done.
Qed.

(** Every slot, key and item is released once: after any interleaving,
    batch_queue_free leaves no slot allocated, frees the key of each agent
    once and hands the items that are still queued to dispose once each. *)
Theorem batch_queue_free_releases_all alloc mg ma disp cs :
  (∀ s, mem_ok (alloc s) s) → 0 <= ma → bq_ok mg ma disp ring_empty cs → Z.of_nat (2 * length cs) < 4294967296 →
  let qs := ra_qs (ra_run mg ma disp ring_empty cs).2 in
  ∃ s rs t ds ks, bq_new mg ma disp = Some s ∧ bq_run alloc (s, []) cs = Some (rs, t) ∧
    batch_queue_free t.1 = Some (ds, ks, ∅) ∧ ks ≡ₚ (map_to_list qs).*1 ∧
    ds ≡ₚ if disp then concat (map_to_list qs).*2 else [].
Proof.
  intros Ha Hm Hok Hlen qs. destruct (bq_new_run alloc mg ma disp cs Ha Hm Hok Hlen) as (s & t & Hs & Hr & Hsim).
  destruct (bq_free_sim _ _ _ _ _ _ Hsim) as (ds & ks & Hf & Hk & Hd). exists s. eexists _, t, ds, ks. done.
Qed.

Lemma batch_queue_free_releases_all_witness :
  let cs := [BPush [97] 1%positive; BPush [98] 2%positive; BAppend 1; BPush [97] 3%positive; BDrain None] in
  ∃ s rs t ds ks, bq_new 0 0 true = Some s ∧ bq_run bq_alloc (s, []) cs = Some (rs, t) ∧
    batch_queue_free t.1 = Some (ds, ks, ∅) ∧ length ks = 2%nat ∧ ds ≡ₚ [Some 1%positive; Some 3%positive].
Proof.
  intros cs. destruct (batch_queue_free_releases_all bq_alloc 0 0 true cs bq_alloc_fresh)
    as (s & rs & t & ds & ks & Hs & Hr & Hf & Hk & Hd); [lia| |by vm_compute|].
  - apply (bool_decide_unpack _). vm_compute. exact I.
  - exists s, rs, t, ds, ks. split_and!; [exact Hs|exact Hr|exact Hf| |].
    + rewrite Hk. vm_compute. reflexivity.
    + rewrite Hd. vm_compute. reflexivity.
Defined.
