(* ===== verification/OsMatch.v ===== *)
(** The fast matcher of src/os_regex (os_match_compile.c, os_match_execute.c,
    os_match.c, os_match_free_pattern.c): alternatives separated by [|], each
    anchored by [^] or [$] or neither, compared without regard to case. *)

From S2P Require Import Prelude OsMaps.

Definition OS_CASE_SENSITIVE : Z := 256.
Definition OS_PATTERN_MAXSIZE : Z := 20480.
Definition OS_REGEX_PATTERN_NULL : Z := 2.
Definition OS_REGEX_MAXSIZE : Z := 3.
Definition OS_REGEX_STR_NULL : Z := 5.
Definition BEGINREGEX : Z := 94.
Definition ENDREGEX : Z := 36.
Definition OR : Z := 124.

(** The memory of a string: its bytes and the terminator. *)
Definition mem (s : cstr) : list Z := s ++ [0].

(** The functions that [match_fp] points to. *)
Inductive match_fp := F_strcmp | F_strmatch | F_strcmp_last | F_strncmp | F_OS_Match.

(** [OSMatch]: a null array is [None]; the arrays end in a null entry. *)
Record OSMatch := MkOSMatch {
  om_error : Z;
  om_negate : bool;
  om_raw : option cstr;
  om_patterns : option (list (option cstr));
  om_size : option (list Z);
  om_fp : option (list (option match_fp))
}.

(** [OSMatch_FreePattern]: the strings of [patterns] that it frees. *)
Fixpoint free_patterns (ps : list (option cstr)) : option (list cstr) :=
  match ps with
  | [] => None
  | None :: _ => Some []
  | Some p :: ps => r ← free_patterns ps; Some (p :: r)
  end.
Definition OSMatch_FreePattern (reg : OSMatch) : option (list cstr * OSMatch) :=
  freed ← match om_patterns reg with None => Some [] | Some ps => free_patterns ps end;
  Some (freed, MkOSMatch (om_error reg) (om_negate reg) None None None None).

(** ** [OSMatch_Compile] *)

(** The first loop: lower case unless the flag is set, and the number of [|]. *)
Definition case_sensitive (flags : Z) : bool := negb (Z.land flags OS_CASE_SENSITIVE =? 0).
Fixpoint count_or (flags : Z) (s : cstr) : cstr * Z :=
  match s with
  | [] => ([], 0)
  | c :: s =>
      let c := if case_sensitive flags then c else charmap_at c in
      let '(s, n) := count_or flags s in
      (c :: s, if c =? OR then wrap64 (n + 1) else n)
  end.

(** [p[n] = '\0'] in a string of its own. *)
Definition cut (p : cstr) (n : Z) : option cstr :=
  if (0 <=? n) && (n <=? strlen p) then Some (take (Z.to_nat n) p) else None.

(** One sub pattern, between [new_str] and [pt], at which the terminator was
    written: its string, its function and its size. *)
Definition sub_pattern (buf : list Z) (new_str pt : Z) : option (cstr * match_fp * Z) :=
  c0 ← rd buf new_str;
  let first := c0 =? BEGINREGEX in
  let dup := cstring (drop (Z.to_nat (if first then new_str + 1 else new_str)) buf) in
  both ← (if first then l ← rd buf (pt - 1); Some (l =? ENDREGEX) else Some false);
  if both : bool then
    let size := wrap64 (strlen dup - 1) in
    p ← cut dup size; Some (p, F_strcmp, size)
  else if strlen (cstring (drop (Z.to_nat new_str) buf)) =? 0 then Some (dup, F_strmatch, 0)
  else
    l ← rd buf (pt - 1);
    if l =? ENDREGEX then
      let size := wrap64 (strlen dup - 1) in
      p ← cut dup size; Some (p, F_strcmp_last, size)
    else if first then Some (dup, F_strncmp, strlen dup)
    else Some (dup, F_OS_Match, strlen dup).

(** Writing entry [i] of an array. *)
Definition set_entry {A} (l : list A) (i : Z) (x : A) : option (list A) :=
  if (0 <=? i) && (i <? Z.of_nat (length l)) then Some (<[Z.to_nat i := x]> l) else None.

(** The second loop. *)
Fixpoint sub_loop (fuel : nat) (buf : list Z) (new_str pt i : Z)
    (ps : list (option cstr)) (fs : list (option match_fp)) (zs : list Z) :
    option (list (option cstr) * list (option match_fp) * list Z) :=
  match fuel with
  | O => None
  | S fuel =>
      c ← rd buf pt;
      if (c =? OR) || (c =? 0) then
        let buf := <[Z.to_nat pt := 0]> buf in
        '(p, f, z) ← sub_pattern buf new_str pt;
        ps ← set_entry ps i (Some p);
        fs ← set_entry fs i (Some f);
        zs ← set_entry zs i z;
        if c =? 0 then Some (ps, fs, zs) else sub_loop fuel buf (pt + 1) (pt + 1) (i + 1) ps fs zs
      else sub_loop fuel buf new_str (pt + 1) i ps fs zs
  end.

(** [OSMatch_Compile]: the returned flag and the structure.  [strdup] and
    [calloc] are taken to succeed. *)
Definition OSMatch_Compile (pattern : option cstr) (flags : Z) : option (bool * OSMatch) :=
  match pattern with
  | None =>
      '(_, reg) ← OSMatch_FreePattern (MkOSMatch OS_REGEX_PATTERN_NULL false None None None None);
      Some (false, reg)
  | Some pattern =>
      if OS_PATTERN_MAXSIZE <? strlen pattern then
        '(_, reg) ← OSMatch_FreePattern (MkOSMatch OS_REGEX_MAXSIZE false (Some pattern) None None None);
        Some (false, reg)
      else
        let '(negate, rest) := match pattern with 33 :: r => (true, r) | _ => (false, pattern) end in
        let '(new_str, count) := count_or flags rest in
        let count := wrap64 (count + 1) in
        let n := Z.to_nat (count + 1) in
        '(ps, fs, zs) ← sub_loop (S (length new_str)) (mem new_str) 0 0 0
                          (replicate n None) (replicate n None) (replicate n 0);
        Some (true, MkOSMatch 0 negate (Some pattern) (Some ps) (Some zs) (Some fs))
  end.

(** ** [OSMatch_Execute] *)

(** The comparison of the rest of the pattern: matched, end of the string, or
    a difference. *)
Inductive cmp_end := CMatch | CEnd | CDiff.
Fixpoint match_rest (fuel : nat) (pattern str : cstr) (pt j : Z) : option cmp_end :=
  match fuel with
  | O => None
  | S fuel =>
      p ← rd (mem pattern) pt;
      if p =? 0 then Some CMatch
      else
        c ← rd (mem str) j;
        if c =? 0 then Some CEnd
        else if negb (schar p =? charmap_at c) then Some CDiff
        else match_rest fuel pattern str (pt + 1) (j + 1)
  end.

Fixpoint match_loop (fuel : nat) (pattern str : cstr) (i size : Z) : option bool :=
  match fuel with
  | O => None
  | S fuel =>
      c ← rd (mem str) i;
      p ← rd (mem pattern) 0;
      r ← (if charmap_at c =? schar p then match_rest (S (length pattern)) pattern str 1 (i + 1) else Some CDiff);
      match r with
      | CMatch => Some true
      | CEnd => Some false
      | CDiff => if i + 1 <=? size then match_loop fuel pattern str (i + 1) size else Some false
      end
  end.
Definition _OS_Match (pattern str : cstr) (str_len size : Z) : option bool :=
  if str_len <? size then Some false
  else match_loop (S (length str)) pattern str 0 (str_len - size).

(** [strcasecmp] *)
Definition strcasecmp (a b : cstr) : Z := strcmp (str_lowercase a) (str_lowercase b).

Definition _os_strncmp (pattern str : cstr) (str_len size : Z) : option bool :=
  Some (strncasecmp pattern str (Z.to_nat size) =? 0).
Definition _os_strcmp (pattern str : cstr) (str_len size : Z) : option bool :=
  Some (strcasecmp pattern str =? 0).
Definition _os_strmatch (pattern str : cstr) (str_len size : Z) : option bool := Some true.
Definition _os_strcmp_last (pattern str : cstr) (str_len size : Z) : option bool :=
  if str_len <? size then Some false
  else if strlen str <? str_len - size then None
  else Some (strcasecmp pattern (drop (Z.to_nat (str_len - size)) str) =? 0).

Definition run_fp (f : match_fp) : cstr → cstr → Z → Z → option bool :=
  match f with
  | F_strcmp => _os_strcmp | F_strmatch => _os_strmatch | F_strcmp_last => _os_strcmp_last
  | F_strncmp => _os_strncmp | F_OS_Match => _OS_Match
  end.

(** The loop over the sub patterns; its index is a [short int]. *)
Definition int16 (z : Z) : Z := (z + 32768) mod 65536 - 32768.
Definition entry {A} (l : list A) (i : Z) : option A := if i <? 0 then None else l !! Z.to_nat i.
Fixpoint execute_loop (fuel : nat) (ps : list (option cstr)) (fs : list (option match_fp)) (zs : list Z)
    (str : cstr) (str_len : Z) (i : Z) : option bool :=
  match fuel with
  | O => None
  | S fuel =>
      p ← entry ps i;
      match p with
      | None => Some false
      | Some p =>
          f ← entry fs i; f ← f; z ← entry zs i;
          r ← run_fp f p str str_len z;
          if r : bool then Some true else execute_loop fuel ps fs zs str str_len (int16 (i + 1))
      end
  end.

(** [OSMatch_Execute]: the result and the error code. *)
Definition OSMatch_Execute (str : option cstr) (str_len : Z) (reg : OSMatch) : option (bool * Z) :=
  match str with
  | None => Some (false, OS_REGEX_STR_NULL)
  | Some str =>
      ps ← om_patterns reg; fs ← om_fp reg; zs ← om_size reg;
      r ← execute_loop (length ps) ps fs zs str str_len 0;
      Some (if r : bool then negb (om_negate reg) else om_negate reg, om_error reg)
  end.

(** [OS_Match2] *)
Definition OS_Match2 (pattern : option cstr) (str : cstr) : option bool :=
  '(ok, reg) ← OSMatch_Compile pattern 0;
  if ok : bool then
    '(r, _) ← OSMatch_Execute (Some str) (strlen str) reg;
    _ ← OSMatch_FreePattern reg;
    Some r
  else Some false.

Example os_match_smoke :
  let go p s := OS_Match2 (Some p) s in
  (* "ab", "^ab", "ab$", "^ab$", "x|", "!ab" *)
  go [97; 98] [120; 65; 66; 121] = Some true ∧ go [94; 97; 98] [120; 97; 98] = Some false ∧
  go [97; 98; 36] [120; 97; 66] = Some true ∧ go [94; 97; 98; 36] [65; 98] = Some true ∧
  go [120; 124] [121] = Some true ∧ go [33; 97; 98] [97; 98] = Some false.
Proof. vm_compute. done. Qed.
