(* ===== verification/OsMatchSpec.v ===== *)
(** The language of the fast matcher, and that compiling and executing a
    pattern decides it. *)

From S2P Require Import Prelude OsMaps OsMatch.

(** ** The language *)

Fixpoint split_on (c : Z) (s : cstr) : list cstr :=
  match s with
  | [] => [[]]
  | x :: s =>
      if x =? c then [] :: split_on c s
      else match split_on c s with p :: ps => (x :: p) :: ps | [] => [] end
  end.

(** The anchors of an alternative and what is between them. *)
Definition anchors (p : cstr) : bool * cstr * bool :=
  let '(b, p) := match p with c :: r => if c =? BEGINREGEX then (true, r) else (false, p) | [] => (false, p) end in
  match last p with
  | Some c => if c =? ENDREGEX then (b, removelast p, true) else (b, p, false)
  | None => (b, p, false)
  end.

Definition ascii7 (c : Z) : Prop := c < 128.

(** [y] is the text of the alternative.  An anchored one is compared by
    [strcasecmp]; one without anchors is compared with the lower case of [y],
    and a byte above 127 in it equals no byte. *)
Definition same_text (anchored : bool) (m y : cstr) : Prop :=
  if anchored then str_lowercase y = str_lowercase m else str_lowercase y = m ∧ Forall ascii7 m.

Definition alt_matches (p s : cstr) : Prop :=
  let '(b, m, e) := anchors p in
  ∃ x y z, s = x ++ y ++ z ∧ (b = true → x = []) ∧ (e = true → z = []) ∧ same_text (b || e) m y.

Definition fold_case (flags : Z) (s : cstr) : cstr := if case_sensitive flags then s else str_lowercase s.
Definition negation (pattern : cstr) : bool * cstr :=
  match pattern with 33 :: r => (true, r) | _ => (false, pattern) end.
Definition pattern_matches (flags : Z) (pattern s : cstr) : Prop :=
  ∃ p, p ∈ split_on OR (fold_case flags (negation pattern).2) ∧ alt_matches p s.

(** Bytes other than the terminator. *)
Definition char_ok (c : Z) : Prop := 0 < c < 256.

(** ** Lists and strings *)

Lemma strcasecmp_eq a b : (strcasecmp a b =? 0) = true ↔ str_lowercase a = str_lowercase b.
Proof. unfold strcasecmp. rewrite Z.eqb_eq. apply strcmp_eq. Qed.

Lemma last_removelast {A} (l : list A) x : last l = Some x → l = removelast l ++ [x].
Proof. destruct l as [|y l _] using rev_ind; [done|]. rewrite last_snoc, removelast_last. by intros [= ->]. Qed.

Lemma split_on_ne c s : split_on c s ≠ [].
Proof. destruct s as [|x s]; cbn; [done|]. destruct (x =? c); [done|]. induction s as [|y s IH]; cbn; [done|].
  destruct (y =? c); [done|]. by destruct (split_on c s). Qed.

Lemma split_on_app c a s p ps :
  c ∉ a → split_on c s = p :: ps → split_on c (a ++ s) = (a ++ p) :: ps.
Proof.
  intros Ha Hs. induction a as [|x a IH]; [done|]. apply not_elem_of_cons in Ha as [Hx Ha]. cbn.
  rewrite (proj2 (Z.eqb_neq x c)) by congruence. by rewrite IH.
Qed.

Lemma split_on_forall c s (P : Z → Prop) : Forall P s → Forall (Forall P) (split_on c s).
Proof.
  induction 1 as [|x s Hx _ IH]; cbn; [by repeat constructor|]. destruct (x =? c); [by constructor|].
  destruct (split_on c s); [done|]. apply Forall_cons in IH as [? ?]. by repeat constructor.
Qed.

Lemma set_entry_app {A} (l1 l2 : list A) x y : set_entry (l1 ++ x :: l2) (length l1) y = Some (l1 ++ y :: l2).
Proof.
  unfold set_entry. rewrite length_app. cbn [length]. rewrite (proj2 (Z.leb_le _ _)), (proj2 (Z.ltb_lt _ _)) by lia. cbn [andb].
  rewrite Nat2Z.id, <-(Nat.add_0_r (length l1)). by rewrite insert_app_r.
Qed.

(** ** One sub pattern *)

Definition sub_compile (cur : cstr) : cstr * match_fp * Z :=
  let '(b, m, e) := anchors cur in
  (m, if b && e then F_strcmp
      else match cur with
           | [] => F_strmatch
           | _ => if e then F_strcmp_last else if b then F_strncmp else F_OS_Match
           end, strlen m).

Lemma cut_last p : last p = Some ENDREGEX → strlen p < 18446744073709551616 →
  wrap64 (strlen p - 1) = strlen (removelast p) ∧ cut p (strlen (removelast p)) = Some (removelast p).
Proof.
  intros Hl Hb. pose proof (last_removelast _ _ Hl) as E. unfold cut, strlen in *.
  assert (length p = S (length (removelast p))) as El by (rewrite E at 1; rewrite length_app; simpl; lia).
  rewrite wrap64_id by (unfold size_t; lia). split; [lia|].
  rewrite (proj2 (Z.leb_le 0 _)), (proj2 (Z.leb_le _ _)) by lia. cbn [andb]. rewrite Nat2Z.id. rewrite E at 2. by rewrite take_app_length.
Qed.

Lemma rd_last pre cur post c : last cur = Some c → rd (pre ++ cur ++ post) (length pre + length cur - 1) = Some c.
Proof.
  intros Hl. rewrite (last_removelast _ _ Hl) at 1.
  assert (length cur = S (length (removelast cur))) as El by (rewrite (last_removelast _ _ Hl) at 1; rewrite length_app; simpl; lia).
  replace (Z.of_nat (length pre) + Z.of_nat (length cur) - 1) with (Z.of_nat (length (pre ++ removelast cur)) + 0%nat) by (rewrite length_app; lia).
  rewrite <-!app_assoc, app_assoc. by rewrite rd_app.
Qed.

Lemma rd_mid pre l c post : rd (pre ++ l ++ c :: post) (length pre + length l) = Some c.
Proof.
  rewrite app_assoc. replace (Z.of_nat (length pre) + length l) with (Z.of_nat (length (pre ++ l)) + 0%nat) by (rewrite length_app; lia).
  by rewrite rd_app.
Qed.

Lemma rd_here pre c post : rd (pre ++ c :: post) (length pre) = Some c.
Proof. pose proof (rd_mid pre [] c post) as H. cbn [app length] in H. by rewrite Z.add_0_r in H. Qed.

Lemma sub_pattern_spec pre cur post :
  Forall char_ok cur → strlen cur < 18446744073709551616 →
  sub_pattern (pre ++ cur ++ 0 :: post) (length pre) (length pre + length cur) = Some (sub_compile cur).
Proof.
  intros Hok Hlen. assert (Forall (λ c, c ≠ 0) cur) as Hnz by (eapply Forall_impl; [exact Hok|]; unfold char_ok; cbn; lia).
  unfold sub_pattern, sub_compile, anchors.
  assert (rd (pre ++ cur ++ 0 :: post) (length pre) = (cur ++ 0 :: post) !! 0%nat) as Hrd.
  { rewrite <-(rd_app pre). f_equal. lia. }
  rewrite Hrd. assert (drop (Z.to_nat (length pre)) (pre ++ cur ++ 0 :: post) = cur ++ 0 :: post) as Hd.
  { rewrite Nat2Z.id. apply drop_app_length. }
  destruct cur as [|c r].
  - cbn [app lookup list_lookup mbind option_bind]. cbn [Z.eqb BEGINREGEX app] in *. rewrite Hd. reflexivity.
  - cbn [app lookup list_lookup mbind option_bind]. apply Forall_cons in Hnz as [Hc Hr].
    assert (strlen (cstring (drop (Z.to_nat (length pre)) (pre ++ c :: r ++ 0 :: post))) =? 0 = false) as ->.
    { change (c :: r ++ 0 :: post) with ((c :: r) ++ 0 :: post). rewrite Hd, cstring_app by (by constructor). done. }
    destruct (last (c :: r)) as [lc|] eqn:El; [|by rewrite last_None in El].
    pose proof (rd_last pre (c :: r) (0 :: post) lc El) as Hl. cbn [app] in Hl. rewrite Hl.
    destruct (Z.eqb_spec c BEGINREGEX) as [->|Hne]; cbn [mbind option_bind].
    + assert (cstring (drop (Z.to_nat (length pre + 1)) (pre ++ BEGINREGEX :: r ++ 0 :: post)) = r) as ->.
      { replace (Z.to_nat (length pre + 1)) with (length pre + 1)%nat by lia. rewrite <-drop_drop, drop_app_length. cbn [drop].
        by apply cstring_app. }
      destruct r as [|c2 r2].
      * cbn in El. injection El as <-. reflexivity.
      * rewrite last_cons_cons in El. rewrite El. destruct (Z.eqb_spec lc ENDREGEX) as [->|]; cbn [andb].
        -- destruct (cut_last (c2 :: r2) El) as [-> ->]; [unfold strlen in *; cbn [length] in *; lia|]. done.
        -- done.
    + change (c :: r ++ 0 :: post) with ((c :: r) ++ 0 :: post). rewrite Hd, cstring_app by (by constructor). rewrite El.
      destruct (Z.eqb_spec lc ENDREGEX) as [->|]; cbn [andb].
      * destruct (cut_last (c :: r) El Hlen) as [-> ->]. done.
      * done.
Qed.

(** ** The loop over the sub patterns *)

Definition d_pat (t : cstr * match_fp * Z) : option cstr := Some t.1.1.
Definition d_fp (t : cstr * match_fp * Z) : option match_fp := Some t.1.2.

Lemma sub_loop_spec rest : ∀ fuel pre cur d,
  Forall char_ok cur → OR ∉ cur → Forall char_ok rest → (length rest < fuel)%nat →
  Z.of_nat (length (pre ++ cur ++ rest)) < 18446744073709551616 →
  let k := length (split_on OR rest) in
  let d' := d ++ (sub_compile <$> split_on OR (cur ++ rest)) in
  sub_loop fuel (pre ++ cur ++ mem rest) (length pre) (length pre + length cur) (length d)
    ((d_pat <$> d) ++ replicate (S k) None) ((d_fp <$> d) ++ replicate (S k) None) (d.*2 ++ replicate (S k) 0) =
  Some ((d_pat <$> d') ++ [None], (d_fp <$> d') ++ [None], d'.*2 ++ [0]).
Proof.
  unfold mem. induction rest as [|c rest IH]; intros fuel pre cur d Hcur Hor Hrest Hf Hlen; cbn zeta;
    (destruct fuel as [|fuel]; [lia|]); cbn [sub_loop].
  - assert (rd (pre ++ cur ++ [] ++ [0]) (length pre + length cur) = Some 0) as ->.
    { rewrite app_assoc. replace (Z.of_nat (length pre) + length cur) with (Z.of_nat (length (pre ++ cur)) + 0%nat) by (rewrite length_app; lia).
      by rewrite rd_app. }
    cbn [mbind option_bind Z.eqb orb OR].
    assert (<[Z.to_nat (length pre + length cur) := 0]> (pre ++ cur ++ [] ++ [0]) = pre ++ cur ++ [0]) as ->.
    { replace (Z.to_nat (length pre + length cur)) with (length (pre ++ cur) + 0)%nat by (rewrite length_app; lia).
      cbn [app]. rewrite (app_assoc pre cur), insert_app_r. first [done|by rewrite <-app_assoc]. }
    rewrite (sub_pattern_spec pre cur []) by (try done; unfold strlen; rewrite !length_app in Hlen; lia).
    destruct (sub_compile cur) as [[p f] z] eqn:Es. cbn [mbind option_bind].
    cbn [split_on length replicate]. rewrite !app_nil_r. rewrite <-(length_fmap d_pat d) at 1.
    rewrite (set_entry_app (d_pat <$> d)). cbn [mbind option_bind].
    rewrite <-(length_fmap d_fp d) at 1. rewrite set_entry_app. cbn [mbind option_bind].
    rewrite <-(length_fmap snd d) at 1. rewrite set_entry_app. cbn [mbind option_bind].
    assert (split_on OR cur = [cur]) as ->.
    { pose proof (split_on_app OR cur [] [] [] Hor eq_refl) as E. by rewrite !app_nil_r in E. }
    cbn. rewrite Es, !fmap_app, <-!app_assoc. done.
  - apply Forall_cons in Hrest as [Hc Hrest]. cbn [app length] in *.
    assert (rd (pre ++ cur ++ c :: rest ++ [0]) (length pre + length cur) = Some c) as ->.
    { rewrite app_assoc. replace (Z.of_nat (length pre) + length cur) with (Z.of_nat (length (pre ++ cur)) + 0%nat) by (rewrite length_app; lia).
      by rewrite rd_app. }
    cbn [mbind option_bind]. rewrite (proj2 (Z.eqb_neq c 0)) by (unfold char_ok in Hc; lia). rewrite orb_false_r.
    rewrite !length_app in Hlen. cbn [length] in Hlen.
    destruct (Z.eqb_spec c OR) as [->|Hne].
    + assert (<[Z.to_nat (length pre + length cur) := 0]> (pre ++ cur ++ OR :: rest ++ [0]) = pre ++ cur ++ 0 :: rest ++ [0]) as ->.
      { replace (Z.to_nat (length pre + length cur)) with (length (pre ++ cur) + 0)%nat by (rewrite length_app; lia).
        rewrite (app_assoc pre cur), insert_app_r. first [done|by rewrite <-app_assoc]. }
      rewrite sub_pattern_spec by (try done; unfold strlen; lia).
      destruct (sub_compile cur) as [[p f] z] eqn:Es. cbn [mbind option_bind].
      cbn [split_on]. rewrite Z.eqb_refl. cbn [length replicate].
      rewrite <-(length_fmap d_pat d) at 1. rewrite set_entry_app. cbn [mbind option_bind].
      rewrite <-(length_fmap d_fp d) at 1. rewrite set_entry_app. cbn [mbind option_bind].
      rewrite <-(length_fmap snd d) at 1. rewrite set_entry_app. cbn [mbind option_bind].
      specialize (IH fuel (pre ++ cur ++ [0]) [] (d ++ [(p, f, z)])). cbn beta zeta in IH. cbn [app length] in IH.
      assert (split_on OR (cur ++ OR :: rest) = cur :: split_on OR rest) as ->.
      { rewrite <-(app_nil_r cur) at 2. by apply split_on_app. }
      replace (pre ++ cur ++ 0 :: rest ++ [0]) with ((pre ++ cur ++ [0]) ++ rest ++ [0]) by (rewrite <-!app_assoc; done).
      replace (Z.of_nat (length pre) + length cur + 1) with (Z.of_nat (length (pre ++ cur ++ [0]))) by (rewrite !length_app; cbn; lia).
      replace (Z.of_nat (length d) + 1) with (Z.of_nat (length (d ++ [(p, f, z)]))) by (rewrite length_app; cbn; lia).
      rewrite !Z.add_0_r in IH. rewrite fmap_cons, Es.
      replace (d ++ (p, f, z) :: (sub_compile <$> split_on OR rest)) with ((d ++ [(p, f, z)]) ++ (sub_compile <$> split_on OR rest))
        by (by rewrite <-app_assoc).
      rewrite !fmap_app, <-!app_assoc in IH. rewrite !fmap_app, <-!app_assoc.
      apply IH; [constructor|apply not_elem_of_nil|done|lia|].
      rewrite !length_app. cbn. lia.
    + specialize (IH fuel pre (cur ++ [c]) d). cbn beta zeta in IH.
      replace (Z.of_nat (length pre) + length cur + 1) with (Z.of_nat (length pre) + length (cur ++ [c])) by (rewrite length_app; cbn; lia).
      cbn [split_on]. rewrite (proj2 (Z.eqb_neq c OR)) by done.
      destruct (split_on OR rest) as [|q qs] eqn:Eq; [by apply split_on_ne in Eq|]. cbn [length] in *.
      rewrite <-!app_assoc in IH. cbn [app] in IH. apply IH; [|..|done|lia|].
      * apply Forall_app. split; [done|]. by constructor.
      * rewrite not_elem_of_app. split; [done|]. rewrite list_elem_of_singleton. congruence.
      * rewrite !length_app. cbn. lia.
Qed.

(** ** Searching *)

Definition ceq (p c : Z) : bool := schar p =? charmap_at c.

(** [m] matches at the start of [s]. *)
Fixpoint prefix_ok (m s : cstr) : bool :=
  match m, s with
  | [], _ => true
  | p :: m, c :: s => ceq p c && prefix_ok m s
  | _ :: _, [] => false
  end.

Lemma rd_mem_app a b (k : nat) : rd (mem (a ++ b)) (length a + k) = mem b !! k.
Proof. unfold mem. rewrite <-app_assoc. apply rd_app. Qed.

Lemma rd_mem_mid a b : rd (mem (a ++ b)) (length a) = mem b !! 0%nat.
Proof. rewrite <-(rd_mem_app a b). f_equal. lia. Qed.

Lemma match_rest_spec m2 : ∀ fuel m1 s1 s2,
  Forall char_ok m2 → Forall char_ok s2 → (length m2 <= length s2)%nat → (length m2 < fuel)%nat →
  match_rest fuel (m1 ++ m2) (s1 ++ s2) (length m1) (length s1) = Some (if prefix_ok m2 s2 then CMatch else CDiff).
Proof.
  induction m2 as [|p m2 IH]; intros fuel m1 s1 s2 Hm Hs Hl Hf; (destruct fuel as [|fuel]; [lia|]); cbn [match_rest].
  - rewrite (rd_mem_mid m1 []). reflexivity.
  - apply Forall_cons in Hm as [Hp Hm]. destruct s2 as [|c s2]; [cbn in Hl; lia|]. apply Forall_cons in Hs as [Hc Hs].
    assert (rd (mem (m1 ++ p :: m2)) (length m1) = Some p) as ->.
    { by rewrite rd_mem_mid. }
    assert (rd (mem (s1 ++ c :: s2)) (length s1) = Some c) as ->.
    { by rewrite rd_mem_mid. }
    unfold char_ok in Hp, Hc. cbn [mbind option_bind]. rewrite !(proj2 (Z.eqb_neq _ 0)) by lia. cbn [prefix_ok]. unfold ceq.
    destruct (schar p =? charmap_at c); cbn [negb andb]; [|done].
    specialize (IH fuel (m1 ++ [p]) (s1 ++ [c]) s2 Hm Hs ltac:(cbn in Hl; lia) ltac:(cbn in Hf; lia)).
    rewrite <-!app_assoc, !length_app in IH. cbn [app length] in IH.
    replace (Z.of_nat (length m1) + 1) with (Z.of_nat (length m1 + 1)) by lia.
    replace (Z.of_nat (length s1) + 1) with (Z.of_nat (length s1 + 1)) by lia. exact IH.
Qed.

Lemma match_loop_spec p m s : ∀ fuel (i : nat),
  Forall char_ok (p :: m) → Forall char_ok s → (i + length (p :: m) <= length s)%nat → (length s < i + length (p :: m) + fuel)%nat →
  ∃ b, match_loop fuel (p :: m) s i (Z.of_nat (length s) - length (p :: m)) = Some b ∧
    (b = true ↔ ∃ k, (i <= k)%nat ∧ (k + length (p :: m) <= length s)%nat ∧ prefix_ok (p :: m) (drop k s) = true).
Proof.
  induction fuel as [|fuel IH]; intros i Hm Hs Hi Hf; [lia|]. cbn [match_loop].
  pose proof (take_drop i s) as Es. destruct (drop i s) as [|c t] eqn:Ed.
  { apply (f_equal length) in Ed. rewrite length_drop in Ed. cbn in *. lia. }
  assert (length (take i s) = i) as Hti by (rewrite length_take; cbn in *; lia).
  assert (rd (mem s) i = Some c) as ->.
  { rewrite <-Es. rewrite <-Hti at 2. by rewrite rd_mem_mid. }
  change (rd (mem (p :: m)) 0) with (Some p). cbn [mbind option_bind].
  assert ((if charmap_at c =? schar p then match_rest (S (length (p :: m))) (p :: m) s 1 (i + 1) else Some CDiff) =
          Some (if prefix_ok (p :: m) (c :: t) then CMatch else CDiff)) as ->.
  { cbn [prefix_ok]. unfold ceq. rewrite (Z.eqb_sym (schar p)). destruct (charmap_at c =? schar p); cbn [andb]; [|done].
    assert (Forall char_ok t) as Ht by (rewrite <-Es in Hs; apply Forall_app in Hs as [_ Hs]; by apply Forall_cons in Hs as [_ ?]).
    apply Forall_cons in Hm as [_ Hm].
    assert (length t + i + 1 = length s)%nat as Hlt by (rewrite <-Es, length_app, Hti; cbn; lia).
    pose proof (match_rest_spec m (S (length (p :: m))) [p] (take i s ++ [c]) t Hm Ht ltac:(cbn in Hi; lia) ltac:(cbn; lia)) as Hr.
    rewrite <-app_assoc, length_app, Hti in Hr. cbn [app] in Hr. rewrite Es in Hr. cbn [length] in *.
    replace (Z.of_nat (i + 1)) with (Z.of_nat i + 1) in Hr by lia. exact Hr. }
  cbn [mbind option_bind]. destruct (prefix_ok (p :: m) (c :: t)) eqn:Ep.
  - exists true. split; [done|]. split; [|done]. intros _. exists i. rewrite Ed. split_and!; [lia|done|done].
  - destruct (Z.leb_spec (Z.of_nat i + 1) (Z.of_nat (length s) - length (p :: m))).
    + destruct (IH (S i) Hm Hs ltac:(lia) ltac:(lia)) as (b & Hb & Hiff). replace (Z.of_nat i + 1) with (Z.of_nat (S i)) by lia.
      exists b. split; [exact Hb|]. rewrite Hiff. split.
      * intros (k & ? & ? & ?). exists k. split_and!; [lia|done|done].
      * intros (k & Hk & ? & Hpk). exists k. split_and!; [|done|done]. destruct (decide (k = i)) as [->|]; [congruence|lia].
    + exists false. split; [done|]. split; [done|]. intros (k & Hk & Hkl & Hpk). assert (k = i) as -> by lia. congruence.
Qed.

Lemma ceq_spec p c : char_ok p → char_ok c → ceq p c = true ↔ tolower c = p ∧ ascii7 p.
Proof.
  unfold char_ok, ceq, ascii7, schar. intros Hp Hc. rewrite charmap_tolower by (unfold byte; lia). rewrite Z.eqb_eq.
  pose proof (tolower_byte c ltac:(unfold byte; lia)) as Hb. unfold byte in Hb. destruct (Z.ltb_spec p 128); lia.
Qed.

Lemma prefix_ok_spec m s :
  Forall char_ok m → Forall char_ok s →
  prefix_ok m s = true ↔ ∃ y z, s = y ++ z ∧ length y = length m ∧ str_lowercase y = m ∧ Forall ascii7 m.
Proof.
  intros Hm. revert s. induction Hm as [|p m Hp Hm IH]; intros s Hs.
  - cbn. split; [|done]. intros _. exists [], s. repeat split. constructor.
  - destruct s as [|c s]; cbn [prefix_ok].
    + split; [done|]. intros (y & z & E & Hl & _). destruct y; [|done]. cbn in Hl. lia.
    + apply Forall_cons in Hs as [Hc Hs]. rewrite andb_true_iff, (ceq_spec p c Hp Hc), (IH s Hs). split.
      * intros [[E1 E2] (y & z & -> & Hl & E3 & E4)]. exists (c :: y), z. split_and!; [done| | |by constructor].
        -- cbn. lia.
        -- change (tolower c :: str_lowercase y = p :: m). by rewrite E1, E3.
      * intros (y & z & E & Hl & E3 & E4). destruct y as [|c' y]; [cbn in Hl; lia|]. injection E as <- ->. cbn in E3.
        injection E3 as E1 E3. apply Forall_cons in E4 as [? ?]. split; [done|]. exists y, z. cbn in Hl. split_and!; try done. lia.
Qed.

Lemma str_lowercase_length s : length (str_lowercase s) = length s.
Proof. apply length_fmap. Qed.

Lemma OS_Match_spec m s :
  m ≠ [] → Forall char_ok m → Forall char_ok s →
  ∃ b, _OS_Match m s (strlen s) (strlen m) = Some b ∧
    (b = true ↔ ∃ x y z, s = x ++ y ++ z ∧ str_lowercase y = m ∧ Forall ascii7 m).
Proof.
  intros Hne Hm Hs. unfold _OS_Match, strlen. destruct (Z.ltb_spec (length s) (length m)) as [Hl|Hl].
  - exists false. split; [done|]. split; [done|]. intros (x & y & z & -> & E & _). apply (f_equal length) in E.
    rewrite str_lowercase_length in E. rewrite !length_app in Hl. lia.
  - destruct m as [|p m]; [done|]. destruct (match_loop_spec p m s (S (length s)) 0 Hm Hs) as (b & Hb & Hiff); [lia|lia|].
    exists b. split; [exact Hb|]. rewrite Hiff. split.
    + intros (k & _ & Hk & Hp). apply prefix_ok_spec in Hp as (y & z & E & _ & E1 & E2); [|done|by apply Forall_drop].
      exists (take k s), y, z. rewrite <-E, take_drop. done.
    + intros (x & y & z & -> & E & E2). exists (length x). split_and!; [lia| |].
      * rewrite !length_app, <-E, str_lowercase_length. lia.
      * rewrite drop_app_length. apply prefix_ok_spec; [done|by apply Forall_app in Hs as [_ ?]|]. exists y, z. split_and!; try done.
        by rewrite <-E, str_lowercase_length.
Qed.

(** ** Executing one alternative *)

Lemma lowercase_same_length y m : str_lowercase y = str_lowercase m → length y = length m.
Proof. intros E. apply (f_equal length) in E. by rewrite !str_lowercase_length in E. Qed.

Lemma strncasecmp_spec m s :
  (strncasecmp m s (length m) =? 0) = true ↔ ∃ y z, s = y ++ z ∧ str_lowercase y = str_lowercase m.
Proof.
  unfold strncasecmp. rewrite Z.eqb_eq, strcmp_eq, take_ge by lia. split.
  - intros E. exists (take (length m) s), (drop (length m) s). by rewrite take_drop.
  - intros (y & z & -> & E). assert (length y = length m) as El by (by apply lowercase_same_length).
    by rewrite <-El, take_app_length.
Qed.

Lemma removelast_forall {A} (P : A → Prop) l : Forall P l → Forall P (removelast l).
Proof. destruct l as [|x l _] using rev_ind; [done|]. rewrite removelast_last. intros H. by apply Forall_app in H as [? _]. Qed.

Lemma anchors_forall (P : Z → Prop) p : Forall P p → Forall P (anchors p).1.2.
Proof.
  intros Hp. destruct p as [|c r]; [done|]. unfold anchors. destruct (c =? BEGINREGEX).
  - apply Forall_cons in Hp as [_ Hp]. destruct (last r) as [l|]; [|done]. destruct (l =? ENDREGEX); [by apply removelast_forall|done].
  - destruct (last (c :: r)) as [l|]; [|done]. destruct (l =? ENDREGEX); [by apply (removelast_forall P (c :: r))|done].
Qed.

Lemma alt_run_spec p s :
  Forall char_ok p → Forall char_ok s →
  ∃ b, run_fp (sub_compile p).1.2 (sub_compile p).1.1 s (strlen s) (sub_compile p).2 = Some b ∧ (b = true ↔ alt_matches p s).
Proof.
  intros Hp Hs. unfold sub_compile, alt_matches.
  pose proof (anchors_forall char_ok p Hp) as Hm.
  assert (p = [] → anchors p = (false, [], false)) as Hnil by (by intros ->).
  destruct (anchors p) as [[b m] e] eqn:Ea. cbn [fst snd] in *.
  destruct b, e; cbn [andb orb same_text].
  - eexists. split; [reflexivity|]. rewrite strcasecmp_eq. split.
    + intros E. exists [], s, []. rewrite app_nil_r. done.
    + intros (x & y & z & -> & Hx & Hz & E). rewrite (Hx eq_refl), (Hz eq_refl), app_nil_r. done.
  - destruct p as [|c r]; [by injection (Hnil eq_refl)|]. cbn [run_fp]. unfold _os_strncmp, strlen. eexists. split; [reflexivity|].
    rewrite Nat2Z.id, strncasecmp_spec. split.
    + intros (y & z & -> & E). by exists [], y, z.
    + intros (x & y & z & -> & Hx & _ & E). rewrite (Hx eq_refl). by exists y, z.
  - destruct p as [|c r]; [by injection (Hnil eq_refl)|]. cbn [run_fp]. unfold _os_strcmp_last, strlen.
    destruct (Z.ltb_spec (length s) (length m)) as [Hl|Hl].
    + exists false. split; [done|]. split; [done|]. intros (x & y & z & -> & _ & Hz & E). apply (f_equal length) in E.
      rewrite !str_lowercase_length in E. rewrite !length_app in Hl. lia.
    + rewrite (proj2 (Z.ltb_ge _ _)) by lia. eexists. split; [reflexivity|]. rewrite strcasecmp_eq.
      replace (Z.to_nat (Z.of_nat (length s) - Z.of_nat (length m))) with (length s - length m)%nat by lia. split.
      * intros E. exists (take (length s - length m) s), (drop (length s - length m) s), []. rewrite app_nil_r, take_drop. done.
      * intros (x & y & z & -> & _ & Hz & E). rewrite (Hz eq_refl), app_nil_r in *.
        assert (length y = length m) as El by (by apply lowercase_same_length).
        rewrite length_app, El. replace (length x + length m - length m)%nat with (length x) by lia. by rewrite drop_app_length.
  - destruct p as [|c r].
    + injection (Hnil eq_refl) as ->. exists true. split; [done|]. split; [|done]. intros _. exists [], [], s. by repeat split.
    + destruct m as [|mc m].
      { exfalso. unfold anchors in Ea. destruct (c =? BEGINREGEX); destruct (last _); try case_match; done. }
      cbn [run_fp]. destruct (OS_Match_spec (mc :: m) s) as (b & Hb & Hiff); [done..|]. exists b. split; [exact Hb|]. rewrite Hiff.
      split; [intros (x & y & z & E & E2 & E3); exists x, y, z; done|]. intros (x & y & z & E & _ & _ & E2 & E3). by exists x, y, z.
Qed.

(** ** Executing a compiled pattern *)

Lemma entry_at {A} (l1 l2 : list A) (i : nat) : i = length l1 → entry (l1 ++ l2) i = l2 !! 0%nat.
Proof.
  intros ->. unfold entry. rewrite (proj2 (Z.ltb_ge _ _)) by lia. rewrite Nat2Z.id, lookup_app_r by lia. f_equal. lia.
Qed.

Lemma execute_loop_spec s d2 : ∀ fuel d1,
  Forall char_ok s → Forall (Forall char_ok) d2 → (length d2 < fuel)%nat → Z.of_nat (length (d1 ++ d2)) < 32768 →
  let d := sub_compile <$> d1 ++ d2 in
  ∃ b, execute_loop fuel ((d_pat <$> d) ++ [None]) ((d_fp <$> d) ++ [None]) (d.*2 ++ [0]) s (strlen s) (length d1) = Some b ∧
    (b = true ↔ ∃ p, p ∈ d2 ∧ alt_matches p s).
Proof.
  induction d2 as [|p d2 IH]; intros fuel d1 Hs Hd Hf Hlen; cbn zeta; (destruct fuel as [|fuel]; [lia|]); cbn [execute_loop].
  - rewrite !entry_at by (by rewrite !length_fmap, app_nil_r). exists false. split; [done|]. split; [done|]. intros (p & Hp & _). by apply not_elem_of_nil in Hp.
  - apply Forall_cons in Hd as [Hp Hd]. rewrite !fmap_app. cbn [fmap list_fmap]. change (@list_fmap) with (@fmap list _).
    rewrite <-!app_assoc. cbn [app].
    rewrite !entry_at by (by rewrite !length_fmap). cbn [lookup list_lookup mbind option_bind d_pat d_fp].
    destruct (alt_run_spec p s Hp Hs) as (b & -> & Hb). cbn [mbind option_bind]. destruct b.
    + exists true. split; [done|]. split; [|done]. intros _. exists p. split; [by left|]. by apply Hb.
    + assert (int16 (length d1 + 1) = length (d1 ++ [p])) as ->.
      { unfold int16. rewrite !length_app in *. cbn [length] in *. rewrite Z.mod_small by lia. lia. }
      specialize (IH fuel (d1 ++ [p]) Hs Hd ltac:(cbn in Hf; lia)). rewrite <-!app_assoc in IH. cbn [app] in IH.
      destruct (IH Hlen) as (b & Hb' & Hiff). rewrite !fmap_app in Hb'. cbn [fmap list_fmap] in Hb'. change (@list_fmap) with (@fmap list _) in Hb'.
      rewrite <-!app_assoc in Hb'. cbn [app] in Hb'. exists b. split; [exact Hb'|]. rewrite Hiff. split.
      * intros (q & Hq & Ha). exists q. split; [by right|done].
      * intros (q & Hq & Ha). apply elem_of_cons in Hq as [->|Hq]; [by apply Hb in Ha|]. eauto.
Qed.

Lemma fold_case_ok flags s : Forall char_ok s → Forall char_ok (fold_case flags s).
Proof.
  intros H. unfold fold_case. destruct (case_sensitive flags); [done|]. unfold str_lowercase. apply Forall_fmap.
  eapply Forall_impl; [exact H|]. unfold char_ok, tolower, compose. intros c Hc.
  destruct (Z.leb_spec 65 c), (Z.leb_spec c 90); cbn; lia.
Qed.

Lemma count_or_spec flags s :
  Forall char_ok s → strlen s < 18446744073709551615 →
  count_or flags s = (fold_case flags s, Z.of_nat (length (split_on OR (fold_case flags s))) - 1) ∧
  (length (split_on OR (fold_case flags s)) <= S (length s))%nat.
Proof.
  unfold strlen. induction 1 as [|c s Hc _ IH]; intros Hlen.
  - unfold fold_case. destruct (case_sensitive flags); cbn; split; done || lia.
  - cbn [length count_or] in *. destruct IH as [-> Hle]; [lia|].
    assert ((if case_sensitive flags then c else charmap_at c) :: fold_case flags s = fold_case flags (c :: s)) as E.
    { unfold fold_case. destruct (case_sensitive flags); [done|]. rewrite charmap_tolower by (unfold byte, char_ok in *; lia). done. }
    rewrite <-E. cbn [split_on]. destruct (_ =? OR).
    + cbn [length]. rewrite wrap64_id by (unfold size_t; lia). split; [f_equal; lia|lia].
    + pose proof (split_on_ne OR (fold_case flags s)). destruct (split_on OR (fold_case flags s)); [done|]. cbn [length] in *. split; [done|lia].
Qed.

Lemma free_patterns_spec d : free_patterns ((d_pat <$> d) ++ [None]) = Some d.*1.*1.
Proof. induction d as [|[[p f] z] d IH]; [done|]. cbn in *. by rewrite IH. Qed.

Lemma compile_spec flags pattern :
  Forall char_ok pattern → strlen pattern <= OS_PATTERN_MAXSIZE →
  let alts := split_on OR (fold_case flags (negation pattern).2) in
  let d := sub_compile <$> alts in
  OSMatch_Compile (Some pattern) flags =
    Some (true, MkOSMatch 0 (negation pattern).1 (Some pattern) (Some ((d_pat <$> d) ++ [None])) (Some (d.*2 ++ [0]))
                  (Some ((d_fp <$> d) ++ [None]))) ∧
  Forall (Forall char_ok) alts ∧ Z.of_nat (length alts) <= 20481.
Proof.
  intros Hok Hlen. cbn zeta. unfold OSMatch_Compile. rewrite (proj2 (Z.ltb_ge _ _)) by done.
  change (match pattern with 33 :: r => (true, r) | _ => (false, pattern) end) with (negation pattern).
  assert (Forall char_ok (negation pattern).2 ∧ (length (negation pattern).2 <= length pattern)%nat) as [Hok2 Hl2].
  { unfold negation. destruct pattern as [|c r]; [done|]. apply Forall_cons in Hok as Hok'.
    repeat (case_match; try done). cbn. split; [tauto|lia]. }
  destruct (negation pattern) as [neg rest]. cbn [fst snd] in *. unfold strlen, OS_PATTERN_MAXSIZE in *.
  destruct (count_or_spec flags rest Hok2) as [-> Hle]; [unfold strlen; lia|].
  pose proof (fold_case_ok flags rest Hok2) as Hokf.
  set (p := fold_case flags rest) in *. set (alts := split_on OR p) in *.
  assert (length p = length rest) as Hlp.
  { unfold p, fold_case. destruct (case_sensitive flags); [done|apply str_lowercase_length]. }
  assert (Z.to_nat (wrap64 (Z.of_nat (length alts) - 1 + 1) + 1) = S (length alts)) as ->.
  { pose proof (split_on_ne OR p). rewrite wrap64_id by (unfold size_t; lia). lia. }
  pose proof (sub_loop_spec p (S (length p)) [] [] [] (Forall_nil_2 _) (not_elem_of_nil _) Hokf ltac:(lia) ltac:(cbn; lia)) as Hs.
  cbn [app length fmap list_fmap] in Hs. change (Z.of_nat 0 + Z.of_nat 0) with 0 in Hs. change (Z.of_nat 0) with 0 in Hs.
  fold alts in Hs. rewrite Hs. cbn [mbind option_bind]. split; [done|]. split; [by apply split_on_forall|lia].
Qed.

Lemma match_spec flags pattern s :
  Forall char_ok pattern → Forall char_ok s → strlen pattern <= OS_PATTERN_MAXSIZE →
  ∃ reg b, OSMatch_Compile (Some pattern) flags = Some (true, reg) ∧
    OSMatch_Execute (Some s) (strlen s) reg = Some (b, 0) ∧
    (b = true ↔ if (negation pattern).1 then ¬ pattern_matches flags pattern s else pattern_matches flags pattern s) ∧
    om_patterns reg = Some ((d_pat <$> (sub_compile <$> split_on OR (fold_case flags (negation pattern).2))) ++ [None]).
Proof.
  intros Hp Hs Hlen. destruct (compile_spec flags pattern Hp Hlen) as (Hc & Halts & Hn).
  set (alts := split_on OR (fold_case flags (negation pattern).2)) in *.
  destruct (execute_loop_spec s alts (length ((d_pat <$> (sub_compile <$> alts)) ++ [None])) [] Hs Halts) as (b & Hb & Hiff).
  { rewrite length_app, !length_fmap. cbn. lia. }
  { cbn. lia. }
  cbn [app length] in Hb. change (Z.of_nat 0) with 0 in Hb.
  eexists _, (if b then negb (negation pattern).1 else (negation pattern).1). split; [exact Hc|].
  cbn [OSMatch_Execute om_patterns om_fp om_size om_negate om_error mbind option_bind]. rewrite Hb. split; [reflexivity|].
  split; [|reflexivity]. change (b = true ↔ pattern_matches flags pattern s) in Hiff.
  destruct (negation pattern).1, b; cbn [negb]; rewrite <-Hiff; split; done.
Qed.

(** * Claims *)



(** Texts that do not match themselves: with OS_CASE_SENSITIVE the pattern
    keeps its upper-case letters but the text is still put in lower case, so
    "A" does not match "A"; and in either mode a byte above 127 in an
    alternative without anchors matches nothing, since a plain char is signed,
    although the same bytes match behind an anchor. *)
Theorem OSMatch_misses :
  let go flags p s := '(_, reg) ← OSMatch_Compile (Some p) flags; '(b, _) ← OSMatch_Execute (Some s) (strlen s) reg; Some b in
  go OS_CASE_SENSITIVE [65] [65] = Some false ∧ go 0 [65] [65] = Some true ∧
  go 0 [195; 169] [195; 169] = Some false ∧ go 0 [94; 195; 169] [195; 169] = Some true.
Proof. vm_compute. done. Qed.
