(* ===== verification/OsStr.v ===== *)
(** The string functions of src/os_regex: word matching (os_regex_match.c),
    splitting (os_regex_strbreak.c), and the small tests of os_regex_str.c and
    os_regex_startswith.c. *)

From S2P Require Import Prelude OsMaps OsMatch OsMatchSpec.

(** ** [OS_WordMatch] *)

(** The comparison after the first character. *)
Fixpoint word_rest (fuel : nat) (pm sm : list Z) (pt st last_char : Z) : option cmp_end :=
  match fuel with
  | O => None
  | S fuel =>
      p ← rd pm pt;
      if p =? last_char then Some CMatch
      else
        c ← rd sm st;
        if c =? 0 then Some CEnd
        else if negb (charmap_at p =? charmap_at c) then Some CDiff
        else word_rest fuel pm sm (pt + 1) (st + 1) last_char
  end.

(** The search; it is entered with [*st] other than NUL. *)
Fixpoint word_search (fuel : nat) (pm sm : list Z) (pattern st last_char : Z) : option bool :=
  match fuel with
  | O => None
  | S fuel =>
      c ← rd sm st; p ← rd pm pattern;
      r ← (if charmap_at c =? charmap_at p then word_rest (length pm) pm sm (pattern + 1) (st + 1) last_char else Some CDiff);
      match r with
      | CMatch => Some true
      | CEnd => Some false
      | CDiff => c ← rd sm (st + 1); if c =? 0 then Some false else word_search fuel pm sm pattern (st + 1) last_char
      end
  end.

(** [_InternalMatch]: [pattern] is an index in [pm]. *)
Definition _InternalMatch (pm : list Z) (pattern : Z) (str : option cstr) (pattern_size : Z) : option bool :=
  last_char ← rd pm (pattern + pattern_size);
  match str with
  | None => Some false
  | Some s =>
      p ← rd pm pattern;
      if p =? 0 then Some true
      else if p =? 94 then
        Some (strncasecmp (cstring (drop (Z.to_nat (pattern + 1)) pm)) s (Z.to_nat (wrap64 (pattern_size - 1))) =? 0)
      else
        c ← rd (mem s) 0;
        if c =? 0 then Some false else word_search (length (mem s)) pm (mem s) pattern 0 last_char
  end.

Fixpoint word_loop (fuel : nat) (pm : list Z) (pattern count : Z) (str : option cstr) : option bool :=
  match fuel with
  | O => None
  | S fuel =>
      let next pattern count :=
        (c ← rd pm (pattern + count);
         if c =? 0 then _InternalMatch pm pattern str count else word_loop fuel pm pattern count str) in
      c ← rd pm (pattern + count);
      if c =? 124 then
        m ← _InternalMatch pm pattern str count;
        if m : bool then Some true else next (pattern + count + 1) 0
      else next pattern (wrap64 (count + 1))
  end.
Definition OS_WordMatch (pattern : cstr) (str : option cstr) : option bool :=
  c ← rd (mem pattern) 0;
  if c =? 0 then Some false else word_loop (length pattern) (mem pattern) 0 0 str.

(** ** os_regex_str.c and os_regex_startswith.c *)

Fixpoint isnum_loop (s : cstr) : bool :=
  match s with
  | [] => true
  | c :: s => if negb ((48 <=? schar c) && (schar c <=? 57)) then false else isnum_loop s
  end.
Definition OS_StrIsNum (str : option cstr) : bool := match str with None => false | Some s => isnum_loop s end.

Fixpoint closed_loop (fuel : nat) (m1 m2 : list Z) (count : Z) : option Z :=
  match fuel with
  | O => None
  | S fuel =>
      a ← rd m1 count; b ← rd m2 count;
      if negb (a =? b) then Some count
      else
        let count := wrap64 (count + 1) in
        a ← rd m1 count;
        if a =? 0 then Some count
        else b ← rd m2 count; if b =? 0 then Some count else closed_loop fuel m1 m2 count
  end.
Definition OS_StrHowClosedMatch (str1 str2 : option cstr) : option Z :=
  match str1, str2 with
  | Some a, Some b => closed_loop (S (length a)) (mem a) (mem b) 0
  | _, _ => Some 0
  end.

Fixpoint starts_loop (fuel : nat) (sm pm : list Z) (str pattern : Z) : option bool :=
  match fuel with
  | O => None
  | S fuel =>
      p ← rd pm pattern;
      if p =? 0 then Some true
      else c ← rd sm str; if negb (p =? c) then Some false else starts_loop fuel sm pm (str + 1) (pattern + 1)
  end.
Definition OS_StrStartsWith (str pattern : cstr) : option bool :=
  starts_loop (S (length pattern)) (mem str) (mem pattern) 0 0.

(** ** [OS_StrBreak] *)

(** The backslash before [str] is taken out: [strncpy] of [i - 2] characters
    into a block of [strlen(tmp_str) + 1] bytes, [strcat], [strcpy] back. *)
Definition unescape (buf : list Z) (tmp_str str i : Z) : option (list Z) :=
  let t := cstring (drop (Z.to_nat tmp_str) buf) in
  let n := wrap64 (i - 2) in
  if strlen t + 1 <? n then None
  else
    let aux := take (Z.to_nat n) t ++ cstring (drop (Z.to_nat str) buf) in
    if strlen t <? strlen aux then None
    else Some (take (Z.to_nat tmp_str) buf ++ mem aux ++ drop (Z.to_nat tmp_str + length (mem aux)) buf).

(** [ret] holds the [count] strings made so far; the array has [size + 1]
    entries. *)
Definition add_piece (size : Z) (ret : list cstr) (p : cstr) : option (list cstr) :=
  if length ret <? size + 1 then Some (ret ++ [p]) else None.

Fixpoint break_loop (fuel : nat) (m : Z) (size : Z) (buf : list Z) (tmp_str str i : Z) (str_ant : option Z)
    (ret : list cstr) : option (list cstr * list Z * Z * Z) :=
  match fuel with
  | O => None
  | S fuel =>
      c ← rd buf str;
      if c =? 0 then Some (ret, buf, tmp_str, i)
      else
        let i := wrap64 (i + 1) in
        let here := (length ret <? wrap64 (size - 1)) && (c =? m) in
        esc ← (if here then match str_ant with None => Some false | Some a => b ← rd buf a; Some (b =? 92) end
               else Some false);
        if esc : bool then
          buf ← unescape buf tmp_str str i;
          break_loop fuel m size buf tmp_str (tmp_str + i - 1) (wrap64 (i - 1)) (Some (tmp_str + i - 2)) ret
        else if here then
          ret ← add_piece size ret (take (Z.to_nat (i - 1)) (cstring (drop (Z.to_nat tmp_str) buf)));
          break_loop fuel m size buf (str + 1) (str + 1) 0 (Some str) ret
        else break_loop fuel m size buf tmp_str (str + 1) i (Some str) ret
  end.

(** The result is [None] for [NULL]; the allocators are taken to succeed. *)
Definition OS_StrBreak (m : Z) (str : option cstr) (size : Z) : option (option (list cstr)) :=
  match str with
  | None => Some None
  | Some s =>
      '(ret, buf, tmp_str, i) ← break_loop (S (length s)) m size (mem s) 0 0 0 None [];
      if length ret <? size then
        ret ← add_piece size ret (take (Z.to_nat i) (cstring (drop (Z.to_nat tmp_str) buf)));
        Some (Some ret)
      else Some None
  end.

Example os_str_smoke :
  (* "ab|^c" in "xABy", "c" *)
  OS_WordMatch [97; 98; 124; 94; 99] (Some [120; 65; 66; 121]) = Some true ∧
  OS_WordMatch [97; 98; 124; 94; 99] (Some [120; 99]) = Some false ∧
  (* "a,b\,c,d" *)
  OS_StrBreak 44 (Some [97; 44; 98; 92; 44; 99; 44; 100]) 5 = Some (Some [[97]; [98; 44; 99]; [100]]) ∧
  OS_StrBreak 44 (Some [97; 44; 98; 44; 99]) 2 = Some (Some [[97]; [98; 44; 99]]) ∧
  OS_StrBreak 44 (Some [97; 44; 98; 44; 99]) 0 = None ∧
  OS_StrBreak 92 (Some [97; 92; 92]) 5 = None ∧
  OS_StrHowClosedMatch (Some [97; 98; 99]) (Some [97; 98; 100]) = Some 2 ∧
  OS_StrHowClosedMatch (Some []) (Some []) = None ∧
  OS_StrStartsWith [97; 98] [97] = Some true.
Proof. vm_compute. done. Qed.
