(* ===== verification/OsStrSpec.v ===== *)
(** What the string functions of os_regex compute. *)

From S2P Require Import Prelude OsMaps OsMatch OsMatchSpec OsStr.

(** ** Splitting *)

(** At most [n] splits at [m]; [m] after a backslash is an ordinary character
    and loses the backslash. *)
Fixpoint break_ref (m : Z) (n : nat) (cur s : cstr) : list cstr :=
  match s with
  | [] => [cur]
  | c :: s =>
      if c =? m then
        match n with
        | O => break_ref m n (cur ++ [c]) s
        | S n' =>
            match last cur with
            | Some 92 => break_ref m n (removelast cur ++ [c]) s
            | _ => cur :: break_ref m n' [] s
            end
        end
      else break_ref m n (cur ++ [c]) s
  end.

(** A piece without the separator is taken as it is. *)
Lemma break_word m n p cur s :
  Forall (λ c, c ≠ m) p → last (cur ++ p) ≠ Some 92 → break_ref m (S n) cur (p ++ m :: s) = (cur ++ p) :: break_ref m n [] s.
Proof.
  intros Hp. revert cur. induction Hp as [|c p Hc _ IH]; intros cur Hl; cbn [app break_ref].
  - rewrite Z.eqb_refl, app_nil_r in *. destruct (last cur) as [x|]; [|done]. destruct (decide (x = 92)) as [->|Hx]; [done|].
    by repeat (destruct x as [|x|x]; try done).
  - rewrite (proj2 (Z.eqb_neq _ _)) by done. rewrite IH by (by rewrite <-app_assoc). by rewrite <-app_assoc.
Qed.
Lemma break_end m n p cur : Forall (λ c, c ≠ m) p → break_ref m n cur p = [cur ++ p].
Proof.
  intros Hp. revert cur. induction Hp as [|c p Hc _ IH]; intros cur; cbn [break_ref]; [by rewrite app_nil_r|].
  rewrite (proj2 (Z.eqb_neq _ _)) by done. by rewrite IH, <-app_assoc.
Qed.

(** Where [str_ant] points when [cur] has been read since [tmp_str]. *)
Definition ant_ok (m : Z) (pre cur : list Z) (ant : option Z) : Prop :=
  match ant with
  | None => cur = []
  | Some a => a = Z.of_nat (length pre) + length cur - 1 ∧ (cur = [] → last pre = Some m)
  end.

Lemma ant_esc m pre cur rest ant :
  m ≠ 92 → ant_ok m pre cur ant →
  match ant with None => Some false | Some a => b ← rd (pre ++ cur ++ rest) a; Some (b =? 92) end =
  Some (match last cur with Some c => c =? 92 | None => false end).
Proof.
  intros Hm Ha. destruct ant as [a|].
  - destruct Ha as [-> Hl]. destruct (last cur) as [c|] eqn:El.
    + by rewrite (rd_last pre cur rest c El).
    + apply last_None in El as ->. cbn [app length]. pose proof (rd_last [] pre rest m (Hl eq_refl)) as Hr. cbn [app length] in Hr.
      replace (Z.of_nat (length pre) + 0%nat - 1) with (Z.of_nat 0 + Z.of_nat (length pre) - 1) by lia. rewrite Hr. cbn [mbind option_bind].
      by rewrite (proj2 (Z.eqb_neq m 92)).
  - cbn in Ha. by rewrite Ha.
Qed.

Lemma cstring_mid pre s post : Forall char_ok s → cstring (drop (Z.to_nat (length pre)) (pre ++ s ++ 0 :: post)) = s.
Proof.
  intros Hs. rewrite Nat2Z.id, drop_app_length. apply cstring_app. eapply Forall_impl; [exact Hs|]. unfold char_ok. cbn. lia.
Qed.

Lemma unescape_spec pre cur c rest junk :
  Forall char_ok (cur ++ [92; c] ++ rest) → Z.of_nat (length cur + length rest) < 18446744073709551000 →
  unescape (pre ++ (cur ++ [92]) ++ (c :: rest) ++ 0 :: junk) (length pre) (length pre + S (length cur)) (length cur + 2) =
  Some (pre ++ (cur ++ [c]) ++ rest ++ 0 :: (0 :: junk)).
Proof.
  intros Hok Hlen. unfold unescape.
  assert (Forall char_ok (c :: rest)) as Hcr by (apply Forall_app in Hok as [_ H]; cbn in H; by apply Forall_cons in H as [_ ?]).
  replace (pre ++ (cur ++ [92]) ++ (c :: rest) ++ 0 :: junk) with (pre ++ (cur ++ [92; c] ++ rest) ++ 0 :: junk)
    by (rewrite <-!app_assoc; done).
  rewrite (cstring_mid pre _ junk Hok).
  replace (Z.of_nat (length pre) + Z.of_nat (S (length cur))) with (Z.of_nat (length (pre ++ cur ++ [92]))) by (rewrite !length_app; cbn; lia).
  replace (pre ++ (cur ++ [92; c] ++ rest) ++ 0 :: junk) with ((pre ++ cur ++ [92]) ++ (c :: rest) ++ 0 :: junk)
    by (rewrite <-!app_assoc; done).
  rewrite (cstring_mid _ _ junk Hcr). unfold strlen. rewrite !length_app. cbn [length app].
  rewrite wrap64_id by (unfold size_t; lia).
  rewrite (proj2 (Z.ltb_ge _ _)) by lia.
  replace (Z.to_nat (Z.of_nat (length cur) + 2 - 2)) with (length cur) by lia. rewrite take_app_length.
  rewrite (proj2 (Z.ltb_ge _ _)) by lia. f_equal. rewrite Nat2Z.id, <-app_assoc, take_app_length. f_equal.
  unfold mem. rewrite !length_app. cbn [length]. rewrite <-drop_drop, drop_app_length. rewrite <-!app_assoc. cbn [app].
  f_equal. f_equal. f_equal. f_equal.
  replace (cur ++ 92 :: c :: rest ++ 0 :: junk) with ((cur ++ 92 :: c :: rest) ++ 0 :: junk) by (by rewrite <-app_assoc).
  replace (length cur + S (length rest) + 1)%nat with (length (cur ++ 92 :: c :: rest)) by (rewrite length_app; cbn; lia).
  apply drop_app_length.
Qed.

(** The loop invariant, and the step that ends a piece. *)
Definition break_inv (m size : Z) (rest : cstr) : Prop := ∀ fuel pre cur junk ant ret,
  m ≠ 92 → m ≠ 0 → Forall char_ok cur → Forall char_ok rest → ant_ok m pre cur ant →
  Z.of_nat (length (pre ++ cur ++ rest)) < 18446744073709551000 → 1 <= size < 18446744073709551615 →
  Z.of_nat (length ret) < size → (length rest < fuel)%nat →
  ∃ ret' pre' cur' junk',
    break_loop fuel m size (pre ++ cur ++ rest ++ 0 :: junk) (length pre) (length pre + length cur) (length cur) ant ret =
      Some (ret', pre' ++ cur' ++ 0 :: junk', Z.of_nat (length pre'), Z.of_nat (length cur')) ∧
    Forall char_ok cur' ∧ Z.of_nat (length ret') < size ∧
    ret' ++ [cur'] = ret ++ break_ref m (Z.to_nat size - 1 - length ret) cur rest.

Lemma break_split m size fuel pre cur rest junk ret n :
  m ≠ 92 → m ≠ 0 → Forall char_ok cur → char_ok m → Forall char_ok rest →
  Z.of_nat (length pre + (length cur + S (length rest))) < 18446744073709551000 → 1 <= size < 18446744073709551615 →
  Z.of_nat (length ret) < size - 1 → (Z.to_nat size - 1 - length ret)%nat = S n → (length rest < fuel)%nat →
  break_inv m size rest →
  ∃ ret' pre' cur' junk',
    (ret ← add_piece size ret (take (Z.to_nat (Z.of_nat (length cur) + 1 - 1))
             (cstring (drop (Z.to_nat (length pre)) (pre ++ cur ++ m :: rest ++ 0 :: junk))));
     break_loop fuel m size (pre ++ cur ++ m :: rest ++ 0 :: junk) (Z.of_nat (length pre) + length cur + 1)
       (Z.of_nat (length pre) + length cur + 1) 0 (Some (Z.of_nat (length pre) + length cur)) ret) =
      Some (ret', pre' ++ cur' ++ 0 :: junk', Z.of_nat (length pre'), Z.of_nat (length cur')) ∧
    Forall char_ok cur' ∧ Z.of_nat (length ret') < size ∧ ret' ++ [cur'] = ret ++ cur :: break_ref m n [] rest.
Proof.
  intros Hm Hm0 Hcur Hc Hrest Hlen Hsize Hroom En Hf IH.
  change (pre ++ cur ++ m :: rest ++ 0 :: junk) with (pre ++ cur ++ (m :: rest) ++ 0 :: junk). rewrite (app_assoc cur).
  rewrite cstring_mid by (apply Forall_app; split; [done|]; by constructor).
  replace (Z.to_nat (Z.of_nat (length cur) + 1 - 1)) with (length cur) by lia. rewrite take_app_length.
  unfold add_piece. rewrite (proj2 (Z.ltb_lt _ _)) by lia. cbn [mbind option_bind].
  destruct (IH fuel (pre ++ cur ++ [m]) [] junk (Some (Z.of_nat (length pre) + length cur)) (ret ++ [cur]) Hm Hm0 (Forall_nil_2 _) Hrest) as (r & p & q & j & Hl & H1 & H2 & H3).
  { split; [rewrite !length_app; cbn; lia|]. intros _. by rewrite app_assoc, last_snoc. }
  { rewrite !length_app. cbn. lia. }
  { done. }
  { rewrite length_app. cbn. lia. }
  { done. }
  exists r, p, q, j. split; [|split; [done|split; [done|]]].
  - rewrite <-Hl. rewrite <-!app_assoc. cbn [app length]. rewrite !length_app. cbn [length]. f_equal; lia.
  - rewrite H3, <-app_assoc. cbn [app]. rewrite length_app. cbn [length].
    by replace (Z.to_nat size - 1 - (length ret + 1))%nat with n by lia.
Qed.

Lemma break_loop_spec m size rest : break_inv m size rest.
Proof.
  induction rest as [|c rest IH]; intros fuel pre cur junk ant ret Hm Hm0 Hcur Hrest Hant Hlen Hsize Hret Hf;
    (destruct fuel as [|fuel]; [lia|]); cbn [break_loop].
  - cbn [app]. rewrite rd_mid. cbn [mbind option_bind Z.eqb]. exists ret, pre, cur, junk. done.
  - apply Forall_cons in Hrest as [Hc Hrest]. cbn [app]. rewrite rd_mid. cbn [mbind option_bind].
    rewrite !length_app in Hlen. cbn [length] in Hlen, Hf. rewrite (proj2 (Z.eqb_neq c 0)) by (unfold char_ok in Hc; lia).
    rewrite !wrap64_id by (unfold size_t; lia).
    assert (Z.of_nat (length cur) + 1 = Z.of_nat (length (cur ++ [c]))) as Ecur by (rewrite length_app; cbn; lia).
    destruct ((Z.of_nat (length ret) <? size - 1) && (c =? m)) eqn:Ehere.
    + apply andb_true_iff in Ehere as [Hroom ->%Z.eqb_eq]. apply Z.ltb_lt in Hroom.
      rewrite (ant_esc m pre cur (m :: rest ++ 0 :: junk) ant Hm Hant). cbn [mbind option_bind break_ref]. rewrite Z.eqb_refl.
      destruct (Z.to_nat size - 1 - length ret)%nat as [|n] eqn:En; [lia|].
      destruct (last cur) as [lc|] eqn:El; [destruct (Z.eqb_spec lc 92) as [->|Hlc]|].
      * pose proof (last_removelast _ _ El) as E. set (cu := removelast cur) in *. rewrite E in Hcur, Hlen |- *.
        rewrite length_app in Hlen |- *. cbn [length] in Hlen |- *.
        change ((cu ++ [92]) ++ m :: rest ++ 0 :: junk) with ((cu ++ [92]) ++ (m :: rest) ++ 0 :: junk).
        replace (Z.of_nat (length cu + 1) + 1) with (Z.of_nat (length cu) + 2) by lia.
        replace (Z.of_nat (length pre) + Z.of_nat (length cu + 1)) with (Z.of_nat (length pre) + Z.of_nat (S (length cu))) by lia.
        apply Forall_app in Hcur as [Hcu H92].
        rewrite unescape_spec.
        2: { apply Forall_app. split; [done|]. cbn. apply Forall_cons in H92 as [? _]. constructor; [done|]. by constructor. }
        2: lia.
        cbn [mbind option_bind].
        assert (Forall char_ok (cu ++ [m])) as Hcum by (apply Forall_app; split; [done|]; by constructor).
        destruct (IH fuel pre (cu ++ [m]) (0 :: junk) (Some (Z.of_nat (length pre) + (Z.of_nat (length cu) + 2) - 2)) ret Hm Hm0 Hcum Hrest) as (ret' & pre' & cur' & junk' & Hl & H1 & H2 & H3).
        { split; [rewrite length_app; cbn; lia|]. by destruct cu. }
        { rewrite !length_app. cbn. lia. }
        { done. }
        { done. }
        { lia. }
        exists ret', pre', cur', junk'. split; [|split; [done|split; [done|rewrite En in H3; exact H3]]].
        rewrite <-Hl. rewrite length_app. cbn [length]. f_equal; lia.
      * destruct (break_split m size fuel pre cur rest junk ret n Hm Hm0 Hcur Hc Hrest ltac:(lia) Hsize Hroom En ltac:(lia) IH) as (r & p & q & j & Hl & H1 & H2 & H3).
        exists r, p, q, j. split; [exact Hl|]. split; [done|]. split; [done|]. rewrite H3. f_equal.
        destruct lc as [|lc|lc]; try done. repeat (destruct lc as [lc|lc|]; try done).
      * destruct (break_split m size fuel pre cur rest junk ret n Hm Hm0 Hcur Hc Hrest ltac:(lia) Hsize Hroom En ltac:(lia) IH) as (r & p & q & j & Hl & H1 & H2 & H3).
        exists r, p, q, j. done.
    + cbn [mbind option_bind].
      assert (Forall char_ok (cur ++ [c])) as Hcc by (apply Forall_app; split; [done|]; by constructor).
      destruct (IH fuel pre (cur ++ [c]) junk (Some (Z.of_nat (length pre) + length cur)) ret Hm Hm0 Hcc Hrest) as (r & p & q & j & Hl & H1 & H2 & H3).
      { split; [rewrite length_app; cbn; lia|]. by destruct cur. }
      { rewrite !length_app. cbn. lia. }
      { done. }
      { done. }
      { lia. }
      exists r, p, q, j. rewrite <-app_assoc in Hl. cbn [app] in Hl. split; [rewrite <-Hl; f_equal; lia|]. split; [done|]. split; [done|].
      rewrite H3. f_equal. cbn [break_ref]. destruct (Z.eqb_spec c m) as [->|]; [|done]. rewrite andb_true_r in Ehere. apply Z.ltb_ge in Ehere.
      by replace (Z.to_nat size - 1 - length ret)%nat with 0%nat by lia.
Qed.

Lemma break_spec m s size :
  m ≠ 92 → m ≠ 0 → Forall char_ok s → strlen s < 18446744073709551000 → 1 <= size < 18446744073709551615 →
  OS_StrBreak m (Some s) size = Some (Some (break_ref m (Z.to_nat size - 1) [] s)).
Proof.
  intros Hm Hm0 Hs Hlen Hsize. unfold OS_StrBreak, mem.
  destruct (break_loop_spec m size s (S (length s)) [] [] [] None [] Hm Hm0 (Forall_nil_2 _) Hs eq_refl) as (r & p & q & j & Hl & Hq & Hr & E);
    [done|done|cbn; lia|lia|].
  cbn [app length] in Hl. change (Z.of_nat 0 + Z.of_nat 0) with 0 in Hl. change (Z.of_nat 0) with 0 in Hl. rewrite Hl. cbn [mbind option_bind].
  rewrite (proj2 (Z.ltb_lt _ _)) by done. rewrite (cstring_mid p q j Hq), Nat2Z.id, take_ge by lia.
  unfold add_piece. rewrite (proj2 (Z.ltb_lt _ _)) by lia. cbn [mbind option_bind]. rewrite E. cbn. by rewrite Nat.sub_0_r.
Qed.

(** ** Joining *)

Definition escape (m : Z) (p : cstr) : cstr := p ≫= λ c, if c =? m then [92; c] else [c].
Fixpoint join (m : Z) (ps : list cstr) : cstr :=
  match ps with
  | [] => []
  | [p] => escape m p
  | p :: ps => escape m p ++ m :: join m ps
  end.

Lemma break_escape m n p : ∀ cur rest,
  m ≠ 92 → break_ref m (S n) cur (escape m p ++ rest) = break_ref m (S n) (cur ++ p) rest.
Proof.
  induction p as [|c p IH]; intros cur rest Hm; [by rewrite app_nil_r|].
  change (escape m (c :: p)) with ((if c =? m then [92; c] else [c]) ++ escape m p). destruct (Z.eqb_spec c m) as [->|Hne].
  - cbn [app break_ref]. rewrite (proj2 (Z.eqb_neq 92 m)) by congruence. rewrite Z.eqb_refl, last_snoc, removelast_last.
    rewrite IH by done. by rewrite <-app_assoc.
  - cbn [app break_ref]. rewrite (proj2 (Z.eqb_neq c m)) by done. rewrite IH by done. by rewrite <-app_assoc.
Qed.

Lemma break_join m ps : ∀ n,
  m ≠ 92 → ps ≠ [] → (length ps <= n)%nat → Forall (λ p, last p ≠ Some 92) (removelast ps) →
  break_ref m n [] (join m ps) = ps.
Proof.
  induction ps as [|p ps IH]; intros n Hm Hne Hn Hl; [done|]. destruct n as [|n]; [cbn in Hn; lia|].
  destruct ps as [|p2 ps].
  - cbn [join]. rewrite <-(app_nil_r (escape m p)), break_escape by done. done.
  - change (join m (p :: p2 :: ps)) with (escape m p ++ m :: join m (p2 :: ps)). rewrite break_escape by done.
    change (removelast (p :: p2 :: ps)) with (p :: removelast (p2 :: ps)) in Hl. apply Forall_cons in Hl as [Hp Hl].
    cbn [break_ref app]. rewrite Z.eqb_refl. rewrite (IH n) by (done || (cbn in *; lia)).
    destruct (last p) as [[|l|l]|] eqn:El; try done. repeat (destruct l as [l|l|]; try done).
Qed.

Lemma escape_ok m p : char_ok m → Forall char_ok p → Forall char_ok (escape m p).
Proof.
  intros Hm. induction 1 as [|c p Hc _ IH]; [constructor|]. change (escape m (c :: p)) with ((if c =? m then [92; c] else [c]) ++ escape m p).
  apply Forall_app. split; [|done]. destruct (c =? m); repeat (constructor; [first [done|unfold char_ok; lia]|]); constructor.
Qed.

Lemma join_ok m ps : char_ok m → Forall (Forall char_ok) ps → Forall char_ok (join m ps).
Proof.
  intros Hm. induction 1 as [|p ps Hp _ IH]; [constructor|]. destruct ps as [|p2 ps]; [by apply escape_ok|].
  change (join m (p :: p2 :: ps)) with (escape m p ++ m :: join m (p2 :: ps)). apply Forall_app. split; [by apply escape_ok|]. by constructor.
Qed.

(** ** Word matching *)

Definition fold_eq (p c : Z) : bool := tolower p =? tolower c.
Fixpoint prefix_fold (m s : cstr) : bool :=
  match m, s with
  | [], _ => true
  | p :: m, c :: s => fold_eq p c && prefix_fold m s
  | _ :: _, [] => false
  end.

Lemma prefix_fold_spec m s :
  prefix_fold m s = true ↔ ∃ y z, s = y ++ z ∧ str_lowercase y = str_lowercase m.
Proof.
  revert s. induction m as [|p m IH]; intros s.
  - split; [|done]. intros _. by exists [], s.
  - destruct s as [|c s]; cbn [prefix_fold].
    + split; [done|]. intros (y & z & E & El). destruct y; done.
    + unfold fold_eq. rewrite andb_true_iff, IH, Z.eqb_eq. split.
      * intros [E (y & z & -> & E2)]. exists (c :: y), z. split; [done|]. cbn. unfold str_lowercase in *. cbn. congruence.
      * intros (y & z & E & El). destruct y as [|c' y]; [done|]. injection E as <- ->. unfold str_lowercase in *. cbn in El.
        injection El as E1 E2. split; [done|]. eauto.
Qed.

(** The pattern's memory around one alternative [a], from [p2] of it on. *)
Lemma word_rest_spec p2 : ∀ fuel pre p1 lc post s1 s2,
  Forall char_ok p2 → lc ∉ p2 → Forall char_ok s2 → (length p2 < fuel)%nat →
  ∃ r, word_rest fuel (pre ++ (p1 ++ p2) ++ lc :: post) (mem (s1 ++ s2)) (length pre + length p1) (length s1) lc = Some r ∧
    (r = CMatch ↔ prefix_fold p2 s2 = true) ∧ (r = CEnd → (length s2 < length p2)%nat).
Proof.
  induction p2 as [|p p2 IH]; intros fuel pre p1 lc post s1 s2 Hp Hlc Hs Hf; (destruct fuel as [|fuel]; [lia|]); cbn [word_rest].
  - rewrite app_nil_r, rd_mid. cbn [mbind option_bind]. rewrite Z.eqb_refl. by exists CMatch.
  - apply Forall_cons in Hp as [Hp0 Hp]. apply not_elem_of_cons in Hlc as [Hlc0 Hlc].
    assert (rd (pre ++ (p1 ++ p :: p2) ++ lc :: post) (length pre + length p1) = Some p) as ->.
    { rewrite <-app_assoc. cbn [app]. apply rd_mid. }
    cbn [mbind option_bind]. rewrite (proj2 (Z.eqb_neq p lc)) by congruence. rewrite (rd_mem_mid s1 s2).
    destruct s2 as [|c s2].
    { cbn. exists CEnd. split_and!; try done. intros _. cbn. lia. }
    apply Forall_cons in Hs as [Hc Hs]. cbn [mem app lookup list_lookup mbind option_bind].
    unfold char_ok in *. rewrite (proj2 (Z.eqb_neq c 0)) by lia. rewrite !charmap_tolower by (unfold byte; lia).
    cbn [prefix_fold]. unfold fold_eq. destruct (tolower p =? tolower c); cbn [negb andb]; [|by exists CDiff].
    destruct (IH fuel pre (p1 ++ [p]) lc post (s1 ++ [c]) s2 Hp Hlc Hs ltac:(cbn in Hf; lia)) as (r & Hr & H1 & H2).
    rewrite <-!app_assoc, !length_app in Hr. cbn [app length] in Hr. exists r. rewrite <-!app_assoc. cbn [app].
    split; [|split; [done|intros E; specialize (H2 E); cbn; lia]]. rewrite <-Hr. f_equal; lia.
Qed.

Lemma word_search_spec pre p m lc post s2 : ∀ fuel s1,
  Forall char_ok (p :: m) → lc ∉ m → Forall char_ok s2 → s2 ≠ [] → (length s2 <= fuel)%nat →
  ∃ b, word_search fuel (pre ++ (p :: m) ++ lc :: post) (mem (s1 ++ s2)) (length pre) (length s1) lc = Some b ∧
    (b = true ↔ ∃ x y, s2 = x ++ y ∧ prefix_fold (p :: m) y = true).
Proof.
  induction s2 as [|c s2 IH]; intros fuel s1 Hp Hlc Hs Hne Hf; [done|]. destruct fuel as [|fuel]; [cbn in Hf; lia|]. cbn [word_search].
  rewrite (rd_mem_mid s1 (c :: s2)). cbn [mem app lookup list_lookup mbind option_bind].
  assert (rd (pre ++ p :: m ++ lc :: post) (length pre) = Some p) as ->.
  { apply rd_here. }
  cbn [mbind option_bind]. apply Forall_cons in Hp as [Hp0 Hp]. apply Forall_cons in Hs as [Hc Hs].
  unfold char_ok in Hp0, Hc. rewrite !charmap_tolower by (unfold byte; lia).
  assert (∃ r, (if tolower c =? tolower p then word_rest (length (pre ++ p :: m ++ lc :: post)) (pre ++ p :: m ++ lc :: post)
              (mem (s1 ++ c :: s2)) (length pre + 1) (length s1 + 1) lc else Some CDiff) = Some r ∧
            (r = CMatch ↔ prefix_fold (p :: m) (c :: s2) = true) ∧ (r = CEnd → (length (c :: s2) < length (p :: m))%nat)) as (r & -> & Hr1 & Hr2).
  { cbn [prefix_fold]. unfold fold_eq. rewrite (Z.eqb_sym (tolower p)). destruct (tolower c =? tolower p); cbn [andb]; [|by exists CDiff].
    destruct (word_rest_spec m (length (pre ++ p :: m ++ lc :: post)) pre [p] lc post (s1 ++ [c]) s2 Hp Hlc Hs) as (r & Hr & H1 & H2).
    { rewrite !length_app. cbn [length]. rewrite length_app. cbn. lia. }
    rewrite <-(app_assoc s1), (length_app s1 [c]) in Hr. cbn [app length] in Hr. exists r. split; [|split; [done|intros E; specialize (H2 E); cbn; lia]].
    rewrite <-Hr. f_equal; lia. }
  cbn [mbind option_bind]. destruct r.
  - exists true. split; [done|]. split; [|done]. intros _. exists [], (c :: s2). split; [done|]. by apply Hr1.
  - exists false. split; [done|]. split; [done|]. intros (x & y & E & Hy). specialize (Hr2 eq_refl). apply prefix_fold_spec in Hy as (y1 & z & -> & El).
    apply lowercase_same_length in El. apply (f_equal length) in E. rewrite !length_app in E. lia.
  - replace (rd (mem (s1 ++ c :: s2)) (length s1 + 1)) with (mem s2 !! 0%nat).
    2: { replace (s1 ++ c :: s2) with ((s1 ++ [c]) ++ s2) by (by rewrite <-app_assoc).
         replace (Z.of_nat (length s1) + 1) with (Z.of_nat (length (s1 ++ [c]))) by (rewrite length_app; cbn; lia). by rewrite rd_mem_mid. }
    assert (¬ prefix_fold (p :: m) (c :: s2) = true) as Hno by (rewrite <-Hr1; done).
    destruct s2 as [|c2 s2].
    + exists false. split; [done|]. split; [done|]. intros (x & y & E & Hy). destruct x as [|x0 x]; cbn in E; [by subst y|].
      injection E as <- E. symmetry in E. apply app_nil in E as [-> ->]. done.
    + cbn [mem app lookup list_lookup mbind option_bind]. pose proof Hs as Hs'. apply Forall_cons in Hs' as [Hc2 _]. unfold char_ok in Hc2.
      rewrite (proj2 (Z.eqb_neq c2 0)) by lia.
      destruct (IH fuel (s1 ++ [c])) as (b & Hb & Hiff); [by constructor|done|done|done|cbn in *; lia|].
      rewrite <-app_assoc, length_app in Hb. cbn [app length] in Hb. exists b.
      replace (Z.of_nat (length s1) + 1) with (Z.of_nat (length s1 + 1)) by lia. split; [exact Hb|]. rewrite Hiff. split.
      * intros (x & y & E & Hy). exists (c :: x), y. cbn. by rewrite E.
      * intros (x & y & E & Hy). destruct x as [|x0 x]; cbn in E; [by subst y|]. injection E as <- E. eauto.
Qed.

(** One alternative: empty, anchored by [^], or anywhere in the string. *)
Definition word_alt (a s : cstr) : Prop :=
  match a with
  | [] => True
  | c :: r =>
      if c =? 94 then ∃ y z, s = y ++ z ∧ str_lowercase y = str_lowercase r
      else ∃ x y z, s = x ++ y ++ z ∧ str_lowercase y = str_lowercase a
  end.

Lemma cstring_take r t : Forall char_ok r → take (length r) (cstring (r ++ t)) = r.
Proof.
  induction 1 as [|c r Hc _ IH]; [done|]. cbn. unfold char_ok in Hc. rewrite (proj2 (Z.eqb_neq c 0)) by lia. cbn. by rewrite IH.
Qed.

Lemma internal_match_spec pre a lc post s :
  Forall char_ok a → lc ∉ a → Forall char_ok s → (a = [] → lc = 0) → strlen a < 18446744073709551616 →
  ∃ b, _InternalMatch (pre ++ a ++ lc :: post) (length pre) (Some s) (length a) = Some b ∧ (b = true ↔ word_alt a s).
Proof.
  intros Ha Hlc Hs Hnil Hlen. unfold _InternalMatch. rewrite rd_mid. cbn [mbind option_bind].
  destruct a as [|c r].
  { rewrite (Hnil eq_refl). pose proof (rd_mid pre [] 0 post) as Hr. cbn [app length] in Hr |- *. rewrite Z.add_0_r in Hr.
    rewrite Hr. by exists true. }
  apply Forall_cons in Ha as Ha'. destruct Ha' as [Hc Hr]. unfold char_ok in Hc. cbn [app].
  assert (rd (pre ++ c :: r ++ lc :: post) (length pre) = Some c) as ->.
  { apply rd_here. }
  cbn [mbind option_bind]. rewrite (proj2 (Z.eqb_neq c 0)) by lia. unfold word_alt. destruct (Z.eqb_spec c 94) as [->|Hne].
  - eexists. split; [reflexivity|]. unfold strlen in Hlen. cbn [length] in *. rewrite wrap64_id by (unfold size_t; lia).
    replace (Z.to_nat (Z.of_nat (S (length r)) - 1)) with (length r) by lia.
    replace (Z.to_nat (Z.of_nat (length pre) + 1)) with (length pre + 1)%nat by lia. rewrite <-drop_drop, drop_app_length. cbn [drop]. rewrite drop_0.
    rewrite <-strncasecmp_spec. unfold strncasecmp. rewrite cstring_take by done. by rewrite (take_ge r) by lia.
  - destruct s as [|s0 s'] eqn:Es.
    + cbn. exists false. split; [done|]. split; [done|]. intros (x & y & z & E & El). symmetry in E. apply app_nil in E as [_ E].
      apply app_nil in E as [-> _]. done.
    + rewrite <-Es in *. assert (rd (mem s) 0 = Some s0) as -> by (by rewrite Es). cbn [mbind option_bind].
      assert (char_ok s0) as Hs0 by (rewrite Es in Hs; by apply Forall_cons in Hs as [? _]). unfold char_ok in Hs0.
      rewrite (proj2 (Z.eqb_neq s0 0)) by lia. apply not_elem_of_cons in Hlc as [_ Hlc].
      destruct (word_search_spec pre c r lc post s (length (mem s)) [] Ha Hlc Hs) as (b & Hb & Hiff); [by rewrite Es| |].
      { unfold mem. rewrite length_app. lia. }
      cbn [app length] in Hb. exists b. split; [exact Hb|]. rewrite Hiff. split.
      * intros (x & y & E & Hy). apply prefix_fold_spec in Hy as (y1 & z & -> & El). by exists x, y1, z.
      * intros (x & y & z & E & El). exists x, (y ++ z). split; [done|]. apply prefix_fold_spec. by exists y, z.
Qed.

(** Every alternative but the last has a character. *)
Definition no_empty (ps : list cstr) : Prop := Forall (λ p, p ≠ []) (removelast ps).

Lemma no_empty_cons p ps : ps ≠ [] → no_empty (p :: ps) ↔ p ≠ [] ∧ no_empty ps.
Proof. intros H. unfold no_empty. destruct ps as [|q ps]; [done|]. change (removelast (p :: q :: ps)) with (p :: removelast (q :: ps)).
  by rewrite Forall_cons. Qed.

(** The test at the end of the loop, and what follows. *)
Definition word_next (fuel : nat) (pm : list Z) (pattern count : Z) (str : option cstr) : option bool :=
  c ← rd pm (pattern + count);
  if c =? 0 then _InternalMatch pm pattern str count else word_loop fuel pm pattern count str.

Lemma word_next_spec rest s : ∀ fuel pre cur,
  Forall char_ok (cur ++ rest) → 124 ∉ cur → Forall char_ok s → no_empty (split_on 124 (cur ++ rest)) →
  Z.of_nat (length (pre ++ cur ++ rest)) < 18446744073709551615 → (length rest <= fuel)%nat →
  ∃ b, word_next fuel (pre ++ cur ++ mem rest) (length pre) (length cur) (Some s) = Some b ∧
    (b = true ↔ ∃ a, a ∈ split_on 124 (cur ++ rest) ∧ word_alt a s).
Proof.
  unfold mem. induction rest as [|c rest IH]; intros fuel pre cur Hok Hcur Hs Hne Hlen Hf; unfold word_next.
  - cbn [app]. rewrite rd_mid. cbn [mbind option_bind Z.eqb]. rewrite app_nil_r in *.
    assert (0 ∉ cur) as H0. { intros Hin. rewrite Forall_forall in Hok. specialize (Hok 0 Hin). unfold char_ok in Hok. lia. }
    destruct (internal_match_spec pre cur 0 [] s Hok H0 Hs) as (b & Hb & Hiff); [done|unfold strlen; rewrite length_app in Hlen; lia|].
    exists b. split; [exact Hb|]. rewrite Hiff.
    pose proof (split_on_app 124 cur [] [] [] Hcur eq_refl) as E. rewrite !app_nil_r in E. rewrite E. split.
    + intros Ha. exists cur. split; [by left|done].
    + intros (a & Ha & Hw). apply list_elem_of_singleton in Ha as ->. done.
  - destruct fuel as [|fuel]; [cbn in Hf; lia|]. cbn [app word_loop]. rewrite !rd_mid. cbn [mbind option_bind].
    apply Forall_app in Hok as Hok'. destruct Hok' as [Hokc Hokr]. apply Forall_cons in Hokr as [Hc Hokr]. unfold char_ok in Hc.
    rewrite (proj2 (Z.eqb_neq c 0)) by lia. rewrite !length_app in Hlen. cbn [length] in Hlen, Hf.
    destruct (Z.eqb_spec c 124) as [->|Hcn].
    + assert (split_on 124 (cur ++ 124 :: rest) = cur :: split_on 124 rest) as Esp.
      { rewrite <-(app_nil_r cur) at 2. by apply split_on_app. }
      rewrite Esp in Hne |- *. apply no_empty_cons in Hne as [Hcne Hne]; [|apply split_on_ne].
      destruct (internal_match_spec pre cur 124 (rest ++ [0]) s Hokc Hcur Hs) as (b & Hb & Hiff); [done|unfold strlen; lia|].
      rewrite Hb. cbn [mbind option_bind]. destruct b.
      { exists true. split; [done|]. split; [|done]. intros _. exists cur. split; [by left|by apply Hiff]. }
      destruct (IH fuel (pre ++ cur ++ [124]) []) as (b & Hb' & Hiff'); [done|apply not_elem_of_nil|done|done|rewrite !length_app; cbn; lia|lia|].
      exists b. rewrite <-!app_assoc, !length_app in Hb'. cbn [app length] in Hb'. unfold word_next in Hb'.
      replace (Z.of_nat (length pre) + Z.of_nat (length cur) + 1) with (Z.of_nat (length pre + (length cur + 1))) by lia.
      split; [exact Hb'|]. cbn [app] in Hiff'. rewrite Hiff'. split.
      * intros (a & Ha & Hw). exists a. split; [by right|done].
      * intros (a & Ha & Hw). apply elem_of_cons in Ha as [->|Ha]; [by apply Hiff in Hw|]. eauto.
    + rewrite wrap64_id by (unfold size_t; lia).
      destruct (IH fuel pre (cur ++ [c])) as (b & Hb' & Hiff').
      * by rewrite <-app_assoc.
      * rewrite not_elem_of_app, list_elem_of_singleton. split; [done|congruence].
      * done.
      * by rewrite <-app_assoc.
      * rewrite !length_app. cbn. lia.
      * lia.
      * exists b. rewrite <-!app_assoc, !length_app in Hb'. cbn [app length] in Hb'. unfold word_next in Hb'.
        replace (Z.of_nat (length cur) + 1) with (Z.of_nat (length cur + 1)) by lia. split; [exact Hb'|].
        rewrite Hiff', <-app_assoc. done.
Qed.

(** * Claims *)

(** OS_WordMatch terminates within its buffers and says whether one of the
    alternatives of a non-empty pattern is in the string without regard to
    case, at its start when the alternative begins with a caret, provided that
    only the last alternative may be empty. *)
Theorem OS_WordMatch_correct pattern s :
  Forall char_ok pattern → Forall char_ok s → pattern ≠ [] → no_empty (split_on 124 pattern) →
  strlen pattern < 18446744073709551615 →
  ∃ b, OS_WordMatch pattern (Some s) = Some b ∧ (b = true ↔ ∃ a, a ∈ split_on 124 pattern ∧ word_alt a s).
Proof.
  intros Hp Hs Hne Hno Hlen.
  destruct (word_next_spec pattern s (length pattern) [] [] Hp (not_elem_of_nil _) Hs Hno) as (b & Hb & Hiff); [exact Hlen|lia|].
  exists b. split; [|exact Hiff]. cbn [app length] in Hb. destruct pattern as [|c r]; [done|]. apply Forall_cons in Hp as [Hc _]. unfold char_ok in Hc.
  unfold word_next in Hb. unfold OS_WordMatch. change (rd (mem (c :: r)) (0%nat + 0%nat)) with (Some c) in Hb. change (rd (mem (c :: r)) 0) with (Some c).
  cbn [mbind option_bind] in *. rewrite (proj2 (Z.eqb_neq c 0)) in * by lia. exact Hb.
Qed.

Lemma OS_WordMatch_correct_witness :
  (* "ab|^C" against "xAB" *)
  let pattern := [97; 98; 124; 94; 67] in let s := [120; 65; 66] in
  ∃ b, OS_WordMatch pattern (Some s) = Some b ∧ (b = true ↔ ∃ a, a ∈ split_on 124 pattern ∧ word_alt a s).
Proof.
  intros pattern s. apply (OS_WordMatch_correct pattern s).
  - unfold pattern. repeat (constructor; [unfold char_ok; lia|]). constructor.
  - unfold s. repeat (constructor; [unfold char_ok; lia|]). constructor.
  - done.
  - vm_compute. repeat (constructor; [done|]). constructor.
  - by vm_compute.
Defined.

(** OS_StrBreak undoes joining: the pieces joined by a separator, with a
    backslash before each separator inside of a piece, are split into the
    pieces again, when there is room for one more and no piece but the last
    ends in a backslash. *)
Theorem OS_StrBreak_roundtrip m ps size :
  char_ok m → m ≠ 92 → ps ≠ [] → Forall (Forall char_ok) ps → Forall (λ p, last p ≠ Some 92) (removelast ps) →
  strlen (join m ps) < 18446744073709551000 → Z.of_nat (length ps) < size < 18446744073709551615 →
  OS_StrBreak m (Some (join m ps)) size = Some (Some ps).
Proof.
  intros Hm Hm2 Hne Hok Hl Hlen Hsize. unfold char_ok in Hm. rewrite break_spec; [|done|lia|by apply join_ok|done|lia].
  by rewrite break_join by (done || lia).
Qed.

Lemma OS_StrBreak_roundtrip_witness :
  OS_StrBreak 44 (Some [97; 44; 98; 92; 44; 99; 44; 92]) 4 = Some (Some [[97]; [98; 44; 99]; [92]]).
Proof.
  apply (OS_StrBreak_roundtrip 44 [[97]; [98; 44; 99]; [92]] 4).
  - unfold char_ok. lia.
  - done.
  - done.
  - repeat (constructor; [repeat (constructor; [unfold char_ok; lia|]); constructor|]). constructor.
  - cbn. repeat (constructor; [done|]). constructor.
  - by vm_compute.
  - cbn. lia.
Defined.

(** Accesses out of bounds: OS_StrBreak with a size of 0 writes past its
    array when the separator occurs, and with a backslash as separator it
    copies past its block at two backslashes in a row; OS_StrHowClosedMatch
    reads past the terminator of two empty strings. *)
Theorem os_str_out_of_bounds :
  OS_StrBreak 44 (Some [44; 44]) 0 = None ∧ OS_StrBreak 92 (Some [97; 92; 92]) 5 = None ∧
  OS_StrHowClosedMatch (Some []) (Some []) = None.
Proof. vm_compute. done. Qed.
