(* ===== verification/OsRegex.v ===== *)
(** The regular expressions of src/os_regex (os_regex_compile.c,
    os_regex_execute.c, os_regex.c, os_regex_free_pattern.c).  A compiled
    pattern keeps a backslash before the code of a class; pointers into the
    pattern and the string are indices, and every read is checked. *)

From S2P Require Import Prelude OsMaps OsMatch.

Definition OS_RETURN_SUBSTRING : Z := 128.
Definition BEGIN_SET : Z := 128.
Definition END_SET : Z := 256.
Definition OS_REGEX_BADREGEX : Z := 6.
Definition OS_REGEX_BADPARENTHESIS : Z := 7.
Definition BACKSLASH : Z := 92.

Definition has (flags bit : Z) : bool := negb (Z.land flags bit =? 0).
Definition isPlus (c : Z) : bool := (c =? 43) || (c =? 42).
Definition prts (c : Z) : bool := c =? 40.

(** [OSRegex]: the patterns with their flags; the positions of the parentheses
    of each, when substrings are asked for; the pointers [d_prts_str] that the
    execution fills, and the substrings, which hold at most [or_nsub] entries
    and the null at the end. *)
Record OSRegex := MkOSRegex {
  or_error : Z;
  or_raw : option cstr;
  or_patterns : list cstr;
  or_flags : list Z;
  or_closure : option (list (list Z));
  or_prts_str : list (list (option Z));
  or_nsub : Z;
  or_sub_strings : list cstr
}.
Definition regex_empty (error : Z) (raw : option cstr) : OSRegex := MkOSRegex error raw [] [] None [] 0 [].

(** [OSRegex_FreePattern]: [os_free] also sets the pointers to null; the size
    of the substrings stays. *)
Definition OSRegex_FreePattern (reg : OSRegex) : OSRegex := MkOSRegex (or_error reg) None [] [] None [] (or_nsub reg) [].

(** ** [OSRegex_Compile] *)

Definition class_code (c : Z) : option Z :=
  match c with
  | 100 => Some 1 | 119 => Some 2 | 115 => Some 3 | 112 => Some 4 | 40 => Some 5 | 41 => Some 6 | 92 => Some 7
  | 68 => Some 8 | 87 => Some 9 | 83 => Some 10 | 46 => Some 11 | 116 => Some 12 | 36 => Some 13 | 124 => Some 14
  | 60 => Some 15 | _ => None
  end.

(** The first loop: the rewritten pattern, the number of [|] and of closed
    parentheses, or the error. *)
Fixpoint scan (flags : Z) (s : cstr) (parenthesis : Z) : Z + (cstr * Z * Z) :=
  match s with
  | [] => if negb (parenthesis =? 0) then inl OS_REGEX_BADPARENTHESIS else inr ([], 0, 0)
  | c :: s =>
      if c =? BACKSLASH then
        match s with
        | [] => inl OS_REGEX_BADREGEX
        | d :: s =>
            match class_code d with
            | None => inl OS_REGEX_BADREGEX
            | Some k =>
                match scan flags s parenthesis with
                | inl e => inl e
                | inr (out, count, prts_size) => inr (BACKSLASH :: k :: out, count, prts_size)
                end
            end
        end
      else
        let parenthesis := if c =? 40 then parenthesis + 1 else if c =? 41 then parenthesis - 1 else parenthesis in
        let closed := if c =? 40 then 0 else if c =? 41 then 1 else 0 in
        let c := if c =? 41 then 40 else c in
        if negb (parenthesis =? 0) && negb (parenthesis =? 1) then inl OS_REGEX_BADPARENTHESIS
        else
          let c := if has flags OS_CASE_SENSITIVE then c else charmap_at c in
          if (c =? OR) && negb (parenthesis =? 0) then inl OS_REGEX_BADPARENTHESIS
          else
            match scan flags s parenthesis with
            | inl e => inl e
            | inr (out, count, prts_size) => inr (c :: out, if c =? OR then count + 1 else count, prts_size + closed)
            end
  end.

(** A sub pattern between [new_str] and [pt]: its string and its flags. *)
Definition regex_sub (buf : list Z) (new_str pt : Z) : option (cstr * Z) :=
  c ← rd buf new_str;
  let '(new_str, f) := if c =? BEGINREGEX then (new_str + 1, BEGIN_SET) else (new_str, 0) in
  '(buf, f) ←
    (if new_str <? pt then
       l ← rd buf (pt - 1);
       Some (if l =? ENDREGEX then (<[Z.to_nat (pt - 1) := 0]> buf, Z.lor f END_SET) else (buf, f))
     else Some (buf, f));
  Some (cstring (drop (Z.to_nat new_str) buf), f).

(** The positions of the parentheses. *)
Fixpoint paren_from (i : Z) (p : cstr) : list Z :=
  match p with
  | [] => []
  | c :: p => if prts c then i :: paren_from (i + 1) p else paren_from (i + 1) p
  end.

(** The second loop; [room] entries of the arrays are left. *)
Fixpoint regex_subs (fuel : nat) (buf : list Z) (new_str pt room : Z) : option (list (cstr * Z)) :=
  match fuel with
  | O => None
  | S fuel =>
      c ← rd buf pt;
      if (c =? OR) || (c =? 0) then
        let buf := <[Z.to_nat pt := 0]> buf in
        q ← regex_sub buf new_str pt;
        if room <=? 0 then None
        else if c =? 0 then Some [q]
        else qs ← regex_subs fuel buf (pt + 1) (pt + 1) (room - 1); Some (q :: qs)
      else regex_subs fuel buf new_str (pt + 1) room
  end.

(** [OSRegex_Compile]; the allocators are taken to succeed. *)
Definition OSRegex_Compile (pattern : option cstr) (flags : Z) : option (bool * OSRegex) :=
  match pattern with
  | None => Some (false, OSRegex_FreePattern (regex_empty OS_REGEX_PATTERN_NULL None))
  | Some pattern =>
      if OS_PATTERN_MAXSIZE <? strlen pattern then Some (false, OSRegex_FreePattern (regex_empty OS_REGEX_MAXSIZE (Some pattern)))
      else
        match scan flags pattern 0 with
        | inl e => Some (false, OSRegex_FreePattern (regex_empty e (Some pattern)))
        | inr (new_str, count, prts_size) =>
            qs ← regex_subs (S (length new_str)) (mem new_str) 0 0 (count + 1);
            let cl := paren_from 0 <$> qs.*1 in
            let sub := (0 <? prts_size) && has flags OS_RETURN_SUBSTRING in
            Some (true, MkOSRegex 0 (Some pattern) qs.*1 qs.*2 (if sub then Some cl else None)
                          (if sub then (λ c, replicate (S (length c)) None) <$> cl else [])
                          (if sub then Z.of_nat (foldr Nat.max 0%nat (length <$> cl)) else 0) [])
        end
  end.

(** ** [_OS_Regex] *)

(** [pt_error] and [pt_error_str]: the four places to go back to. *)
Record errs := Errs { pe0 : option (Z * Z); pe1 : option (Z * Z); pe2 : option (Z * Z); pe3 : option (Z * Z) }.
Definition no_errs : errs := Errs None None None None.
Definition push_err (e : errs) (v : Z * Z) : errs :=
  match pe0 e with
  | None => Errs (Some v) (pe1 e) (pe2 e) (pe3 e)
  | Some _ =>
      match pe1 e with
      | None => Errs (pe0 e) (Some v) (pe2 e) (pe3 e)
      | Some _ =>
          match pe2 e with
          | None => Errs (pe0 e) (pe1 e) (Some v) (pe3 e)
          | Some _ => match pe3 e with None => Errs (pe0 e) (pe1 e) (pe2 e) (Some v) | Some _ => e end
          end
      end
  end.
Definition pop_err (e : errs) : option (Z * Z * errs) :=
  match pe3 e with
  | Some v => Some (v, Errs (pe0 e) (pe1 e) (pe2 e) None)
  | None =>
      match pe2 e with
      | Some v => Some (v, Errs (pe0 e) (pe1 e) None (pe3 e))
      | None =>
          match pe1 e with
          | Some v => Some (v, Errs (pe0 e) None (pe2 e) (pe3 e))
          | None => match pe0 e with Some v => Some (v, Errs None (pe1 e) (pe2 e) (pe3 e)) | None => None end
          end
      end
  end.

(** The local variables. *)
Record rx := Rx {
  x_st : Z; x_pt : Z; x_rcode : option Z; x_matched : bool; x_sterr : option Z; x_errs : errs; x_prts : list (option Z)
}.

Section regex.
Context (pattern str : cstr) (closure : option (list Z)) (flags : Z).

Definition at_end (c : Z) : bool := negb (has flags END_SET) || (has flags END_SET && (c =? 0)).

(** [prts_str[k] = v] for the parenthesis at [pos]. *)
Fixpoint index_of (pos : Z) (cl : list Z) : option nat :=
  match cl with [] => None | x :: cl => if x =? pos then Some 0%nat else S <$> index_of pos cl end.
Definition set_prt (pos v : Z) (ps : list (option Z)) : option (list (option Z)) :=
  match closure with
  | None => Some ps
  | Some cl =>
      match index_of pos cl with
      | None => Some ps
      | Some j => if (j <? length ps)%nat then Some (<[j := Some v]> ps) else None
      end
  end.

(** How an iteration ends: go on (with [++st]), return, or the error handling. *)
Inductive verdict := VNext (x : rx) | VRet (r : option Z) (ps : list (option Z)) | VErr (x : rx).

(** The switch on [*pt]. *)
Definition rx_switch (x : rx) (c : Z) : option (rx + option Z * list (option Z)) :=
  let 'Rx st pt rc m se pe ps := x in
  p ← rd (mem pattern) pt;
  if p =? 0 then Some (if at_end c then inr (rc, ps) else inl x)
  else if prts p then
    ps ← set_prt pt st ps;
    let pt := pt + 1 in
    p ← rd (mem pattern) pt;
    Some (if (p =? 0) && at_end c then inr (rc, ps) else inl (Rx st pt rc m se pe ps))
  else Some (inl x).

Definition mark_error (se : option Z) (st : Z) : option Z := match se with None => Some st | Some _ => se end.

(** A class with [+] or [*] that has matched before: look at what follows.
    [ok_here] is -1 for no match. *)
Definition look_ahead (m : bool) (next_pt c : Z) : option (Z * bool) :=
  q ← rd (mem pattern) next_pt;
  if q =? 0 then Some (1, m)
  else if q =? BACKSLASH then
    k ← rd (mem pattern) (next_pt + 1);
    y ← Regex k c;
    if y : bool then z ← rd (mem pattern) (next_pt + 2); Some (if isPlus z then 0 else 2, m) else Some (-1, m)
  else if schar q =? charmap_at c then Some (1, false)
  else Some (-1, m).

Definition rx_repeat (x : rx) (next_pt c : Z) : option verdict :=
  let 'Rx st pt rc m se pe ps := x in
  let next_pt := next_pt + 1 in
  q ← rd (mem pattern) next_pt;
  let next_pt := if prts q then next_pt + 1 else next_pt in
  '(ok_here, m) ← look_ahead m next_pt c;
  if 0 <=? ok_here then
    before ← rd (mem pattern) (next_pt - 1);
    ps ← (if prts before then set_prt (next_pt - 1) (if m && (ok_here =? 1) then st + 1 else st) ps else Some ps);
    q ← rd (mem pattern) next_pt;
    if q =? 0 then Some (VNext (Rx st pt rc m se pe ps))
    else Some (VNext (Rx st (next_pt + ok_here) (Some st) m se (push_err pe (pt, st)) ps))
  else Some (VNext (Rx st pt (Some st) m se pe ps)).

(** The class at [pt] matched [*st]. *)
Definition rx_class (x : rx) (c : Z) : option verdict :=
  let 'Rx st pt rc m se pe ps := x in
  let next_pt := pt + 2 in
  n ← rd (mem pattern) next_pt;
  if negb (isPlus n) then Some (VNext (Rx st next_pt (Some st) m (mark_error se st) pe ps))
  else
    let m := if n =? 42 then true else m in
    if m then rx_repeat (Rx st pt rc m se pe ps) next_pt c
    else
      let next_pt := next_pt + 1 in
      q ← rd (mem pattern) next_pt;
      ps ← (match closure with
            | Some _ =>
                if prts q then
                  d ← rd (mem str) (st + 1);
                  set_prt next_pt (if d =? 0 then st + 1 else st) ps
                else Some ps
            | None => Some ps
            end);
      Some (VNext (Rx st pt (Some st) true se pe ps)).

(** The class at [pt] did not match. *)
Definition rx_noclass (x : rx) (c : Z) : option verdict :=
  let 'Rx st pt rc m se pe ps := x in
  a ← rd (mem pattern) (pt + 2);
  last ← (if a =? 0 then Some true else b ← rd (mem pattern) (pt + 3); Some (b =? 0));
  if last && m && (match rc with Some _ => true | None => false end) then
    Some (if at_end c then VRet (Some st) ps else VErr (Rx st pt (Some st) false se pe ps))
  else if (a =? 43) && m then Some (VNext (Rx (st - 1) (pt + 3) rc false se pe ps))
  else if a =? 42 then Some (VNext (Rx (st - 1) (pt + 3) (Some (st - 1)) false se pe ps))
  else Some (VErr (Rx st pt rc false se pe ps)).

(** One iteration with [*st = c]. *)
Definition rx_body (x : rx) (c : Z) : option verdict :=
  r ← rx_switch x c;
  match r with
  | inr (rc, ps) => Some (VRet rc ps)
  | inl x =>
      let 'Rx st pt rc m se pe ps := x in
      p ← rd (mem pattern) pt;
      if p =? BACKSLASH then
        k ← rd (mem pattern) (pt + 1);
        y ← Regex k c;
        if y : bool then rx_class x c else rx_noclass x c
      else if schar p =? charmap_at c then Some (VNext (Rx st (pt + 1) (Some st) m (mark_error se st) pe ps))
      else Some (VErr x)
  end.

(** The error handling. *)
Definition rx_error (x : rx) : verdict :=
  let 'Rx st pt rc m se pe ps := x in
  match pop_err pe with
  | Some (pt', st', pe') => VNext (Rx st' pt' rc m se pe' ps)
  | None =>
      if has flags BEGIN_SET then VRet None ps
      else VNext (Rx (match se with Some e => e | None => st end) 0 None m None pe ps)
  end.

(** What ends the loop: undefined behaviour, a return, or the end of the
    string. *)
Inductive rx_end := EUndef | ERet (r : option Z) (ps : list (option Z)) | EExit (x : rx).

Definition rx_step (x : rx) : rx + rx_end :=
  match rd (mem str) (x_st x) with
  | None => inr EUndef
  | Some c =>
      if c =? 0 then inr (EExit x)
      else
        match rx_body x c with
        | None => inr EUndef
        | Some v =>
            match (match v with VErr x => rx_error x | _ => v end) with
            | VNext (Rx st pt rc m se pe ps) => inl (Rx (st + 1) pt rc m se pe ps)
            | VRet r ps => inr (ERet r ps)
            | VErr _ => inr EUndef
            end
        end
  end.

(** After the loop: the last parenthesis. *)
Fixpoint skip_stars (fuel : nat) (pt : Z) : option Z :=
  match fuel with
  | O => None
  | S fuel =>
      p ← rd (mem pattern) pt;
      if negb (prts p) && negb (p =? 0) then
        if p =? BACKSLASH then
          q ← rd (mem pattern) (pt + 2);
          if q =? 42 then skip_stars fuel (pt + 3) else Some pt
        else Some pt
      else Some pt
  end.

(** [ENDOFFILE(x)]: the result and the new [x]. *)
Definition endoffile (pt : Z) : option (bool * Z) :=
  p ← rd (mem pattern) pt;
  let pt := if prts p then pt + 1 else pt in
  p ← rd (mem pattern) pt;
  Some (p =? 0, pt).

(** [*pt == BACKSLASH && (pt += 2) && *pt == '*' && pt++ && ENDOFFILE(pt)] *)
Definition last_star (pt : Z) : option (bool * Z) :=
  p ← rd (mem pattern) pt;
  if p =? BACKSLASH then
    let pt := pt + 2 in
    q ← rd (mem pattern) pt;
    if q =? 42 then endoffile (pt + 1) else Some (false, pt)
  else Some (false, pt).

Definition rx_cleanup (pt : Z) (m : bool) : option bool :=
  '(b, pt) ← endoffile pt;
  if b : bool then Some true
  else
    p ← rd (mem pattern) pt;
    '(b, pt) ←
      (if (p =? BACKSLASH) && m then
         let pt := pt + 2 in
         q ← rd (mem pattern) pt;
         if isPlus q then
           '(b, pt) ← endoffile (pt + 1);
           if b : bool then Some (true, pt) else last_star pt
         else Some (false, pt)
       else Some (false, pt));
    if b : bool then Some true else '(b, _) ← last_star pt; Some b.

Definition rx_finish (x : rx) : option (option Z * list (option Z)) :=
  let 'Rx st pt rc m se pe ps := x in
  '(pt, ps) ←
    (match closure with
     | None => Some (pt, ps)
     | Some _ =>
         pt ← skip_stars (S (length pattern)) pt;
         p ← rd (mem pattern) pt;
         ps ← (if prts p then set_prt pt st ps else Some ps);
         Some (pt, ps)
     end);
  b ← rx_cleanup pt m;
  Some (if b : bool then rc else None, ps).

(** A bound on the number of iterations: the sequences of seven positions in
    the string and the pattern. *)
Definition rx_base : Z := Z.of_nat (length str + length pattern) + 2.
Definition rx_bits : nat := 7 * S (Z.to_nat (Z.log2 rx_base)).

Definition _OS_Regex (ps : list (option Z)) : option (option Z * list (option Z)) :=
  match loop rx_step rx_bits (Rx 0 0 (Some 0) false None no_errs ps) with
  | inl _ => None
  | inr EUndef => None
  | inr (ERet r ps) => Some (r, ps)
  | inr (EExit x) => rx_finish x
  end.
End regex.

(** ** [OSRegex_Execute], without an external context *)

(** The substrings of a match: [None] is a copy out of bounds; [Some None] is
    a failed [malloc]. *)
Fixpoint sub_copy (str : cstr) (ps : list (option Z)) (room : Z) : option (option (list cstr)) :=
  match ps with
  | Some a :: Some b :: ps =>
      let n := b - a in
      if room <=? 0 then None
      else if n =? -1 then None
      else if n <? 0 then Some None
      else
        r ← sub_copy str ps (room - 1);
        Some (match r with None => None | Some r => Some (take (Z.to_nat n) (drop (Z.to_nat a) str) :: r) end)
  | _ => Some (Some [])
  end.

Fixpoint execute_subs (str : cstr) (qs : list (cstr * Z)) (cl : list (list Z)) (nsub : Z) :
    option (option Z * list cstr) :=
  match qs, cl with
  | (p, f) :: qs, c :: cl =>
      '(r, ps) ← _OS_Regex p str (Some c) f (replicate (S (length c)) None);
      match r with
      | Some z =>
          subs ← sub_copy str ps nsub;
          Some (match subs with None => (None, []) | Some l => (Some z, l) end)
      | None => execute_subs str qs cl nsub
      end
  | [], _ => Some (None, [])
  | _ :: _, [] => None
  end.

Fixpoint execute_plain (str : cstr) (qs : list (cstr * Z)) : option (option Z) :=
  match qs with
  | [] => Some None
  | (p, f) :: qs =>
      '(r, _) ← _OS_Regex p str None f [];
      match r with Some z => Some (Some z) | None => execute_plain str qs end
  end.

(** The result and the substrings. *)
Definition OSRegex_Execute (str : option cstr) (reg : OSRegex) : option (option Z * list cstr) :=
  match str with
  | None => Some (None, [])
  | Some str =>
      let qs := zip (or_patterns reg) (or_flags reg) in
      match or_closure reg with
      | Some cl => execute_subs str qs cl (or_nsub reg)
      | None => r ← execute_plain str qs; Some (r, [])
      end
  end.

(** [OS_Regex] *)
Definition OS_Regex (pattern : option cstr) (str : cstr) : option bool :=
  '(ok, reg) ← OSRegex_Compile pattern 0;
  if ok : bool then '(r, _) ← OSRegex_Execute (Some str) reg; Some (match r with Some _ => true | None => false end)
  else Some false.

Example os_regex_smoke :
  (* "^\d+ \w+$" against "12 ab", "a1" against "xA1y" *)
  OS_Regex (Some [94; 92; 100; 43; 32; 92; 119; 43; 36]) [49; 50; 32; 97; 98] = Some true ∧
  OS_Regex (Some [97; 49]) [120; 65; 49; 121] = Some true ∧
  (* "user (\w+) x" against "user bob x" *)
  ('(_, reg) ← OSRegex_Compile (Some [117; 115; 101; 114; 32; 40; 92; 119; 43; 41; 32; 120]) OS_RETURN_SUBSTRING;
   OSRegex_Execute (Some [117; 115; 101; 114; 32; 98; 111; 98; 32; 120]) reg) = Some (Some 9, [[98; 111; 98]]) ∧
  (* "\d+\w\s+x" matches "12x" *)
  OS_Regex (Some [92; 100; 43; 92; 119; 92; 115; 43; 120]) [49; 50; 120] = Some true ∧
  (* "\.*(\d+)$" against "2b2" *)
  ('(_, reg) ← OSRegex_Compile (Some [92; 46; 42; 40; 92; 100; 43; 41; 36]) OS_RETURN_SUBSTRING;
   OSRegex_Execute (Some [50; 98; 50]) reg) = None.
Proof. vm_compute. done. Qed.
