(* ===== verification/OsRegexSpec.v ===== *)
(** The regular expressions: compiled patterns are well formed, the matcher
    ends and stays within its buffers, and on patterns without repetition it
    is a left-to-right search. *)

From S2P Require Import Prelude OsMaps OsMatch OsMatchSpec OsRegex.

(** ** Well-formed patterns *)

(** A backslash is followed by the code of a class. *)
Fixpoint wfp (p : cstr) : Prop :=
  match p with
  | [] => True
  | c :: r =>
      if c =? BACKSLASH then match r with k :: r => 1 <= k <= 15 ∧ wfp r | [] => False end
      else char_ok c ∧ wfp r
  end.

(** The three cases of a well-formed pattern. *)
Lemma wfp_cases p :
  wfp p → p = [] ∨ (∃ k r, p = BACKSLASH :: k :: r ∧ 1 <= k <= 15 ∧ wfp r) ∨
          (∃ c r, p = c :: r ∧ c ≠ BACKSLASH ∧ char_ok c ∧ wfp r).
Proof.
  destruct p as [|c r]; [auto|]. cbn. destruct (Z.eqb_spec c BACKSLASH) as [->|Hc].
  - destruct r as [|k r]; [done|]. intros [? ?]. right. left. eauto 6.
  - intros [? ?]. right. right. eauto 6.
Qed.

Lemma wfp_ind (P : cstr → Prop) :
  P [] → (∀ k r, 1 <= k <= 15 → wfp r → P r → P (BACKSLASH :: k :: r)) →
  (∀ c r, c ≠ BACKSLASH → char_ok c → wfp r → P r → P (c :: r)) → ∀ p, wfp p → P p.
Proof.
  intros H0 H1 H2 p. induction p as [p IH] using (induction_ltof1 _ length). unfold ltof in IH. intros Hp.
  destruct (wfp_cases p Hp) as [->|[(k & r & -> & Hk & Hr)|(c & r & -> & Hc & Hok & Hr)]].
  - done.
  - apply H1; try done. apply IH; [cbn; lia|done].
  - apply H2; try done. apply IH; [cbn; lia|done].
Qed.

Lemma class_code_range c k : class_code c = Some k → 1 <= k <= 15.
Proof. unfold class_code. repeat (case_match; try done); intros [= <-]; lia. Qed.

Lemma charmap_ok c : char_ok c → char_ok (charmap_at c) ∧ (charmap_at c = 92 ↔ c = 92).
Proof.
  unfold char_ok. intros Hc. rewrite charmap_tolower by (unfold byte; lia). unfold tolower.
  destruct (Z.leb_spec 65 c), (Z.leb_spec c 90); cbn; lia.
Qed.

(** The first loop of the compiler makes a well-formed pattern and counts its
    separators. *)
Lemma regex_scan_spec flags n : ∀ s par out count ps,
  (length s <= n)%nat → Forall char_ok s → scan flags s par = inr (out, count, ps) →
  wfp out ∧ count = Z.of_nat (length (split_on OR out)) - 1 ∧ (length out <= length s)%nat.
Proof.
  induction n as [|n IH]; intros s par out count ps Hn Hs.
  - destruct s; [|cbn in Hn; lia]. cbn. destruct (negb (par =? 0)); [done|]. by intros [= <- <- <-].
  - destruct s as [|c s]; cbn [scan].
    { destruct (negb (par =? 0)); [done|]. by intros [= <- <- <-]. }
    cbn in Hn. apply Forall_cons in Hs as [Hc Hs]. destruct (Z.eqb_spec c BACKSLASH) as [->|Hcb].
    + destruct s as [|d s]; [done|]. destruct (class_code d) as [k|] eqn:Ek; [|done]. apply Forall_cons in Hs as [_ Hs].
      destruct (scan flags s par) as [|[[o1 c1] p1]] eqn:E; [done|]. intros [= <- <- <-].
      destruct (IH s par o1 c1 p1 ltac:(cbn in Hn; lia) Hs E) as (Hw & -> & Hl). apply class_code_range in Ek.
      split; [done|]. cbn [split_on length]. change (BACKSLASH =? OR) with false. cbn iota. rewrite (proj2 (Z.eqb_neq k OR)) by (unfold OR; lia).
      pose proof (split_on_ne OR o1). destruct (split_on OR o1); [done|]. cbn. split; [done|lia].
    + cbn zeta. set (par' := if c =? 40 then par + 1 else if c =? 41 then par - 1 else par).
      set (c1 := if c =? 41 then 40 else c). set (c2 := if has flags OS_CASE_SENSITIVE then c1 else charmap_at c1).
      assert (char_ok c2 ∧ c2 ≠ BACKSLASH) as [Hok2 Hne2].
      { assert (char_ok c1 ∧ c1 ≠ 92) as [Hok1 Hn1] by (unfold c1; destruct (c =? 41); [unfold char_ok; lia|done]).
        unfold c2. destruct (has flags OS_CASE_SENSITIVE); [done|]. destruct (charmap_ok c1 Hok1) as [? E]. split; [done|]. by rewrite E. }
      destruct (negb (par' =? 0) && negb (par' =? 1)); [done|]. destruct ((c2 =? OR) && negb (par' =? 0)); [done|].
      destruct (scan flags s par') as [|[[o1 n1] p1]] eqn:E; [done|]. intros [= <- <- <-].
      destruct (IH s par' o1 n1 p1 ltac:(lia) Hs E) as (Hw & -> & Hl). cbn [wfp split_on length].
      rewrite (proj2 (Z.eqb_neq c2 BACKSLASH)) by done. split; [done|]. pose proof (split_on_ne OR o1).
      destruct (c2 =? OR); [cbn; split; lia|]. destruct (split_on OR o1); [done|]. cbn. split; [done|lia].
Qed.

Lemma scan_error flags n : ∀ s par e,
  (length s <= n)%nat → scan flags s par = inl e → e = OS_REGEX_BADREGEX ∨ e = OS_REGEX_BADPARENTHESIS.
Proof.
  induction n as [|n IH]; intros s par e Hn.
  - destruct s; [|cbn in Hn; lia]. cbn. destruct (negb (par =? 0)); [|done]. intros [= <-]. auto.
  - destruct s as [|c s]; cbn [scan].
    { destruct (negb (par =? 0)); [|done]. intros [= <-]. auto. }
    cbn in Hn. destruct (c =? BACKSLASH).
    + destruct s as [|d s]; [intros [= <-]; auto|]. destruct (class_code d); [|intros [= <-]; auto].
      destruct (scan flags s par) as [e1|[[? ?] ?]] eqn:E; [|done]. intros [= <-]. apply (IH s par); [cbn in Hn; lia|done].
    + cbn zeta. destruct (_ && _); [intros [= <-]; auto|]. destruct (_ && _); [intros [= <-]; auto|].
      match goal with |- context [scan flags s ?p] => destruct (scan flags s p) as [e1|[[? ?] ?]] eqn:E; [|done] end.
      intros [= <-]. eapply (IH s); [lia|exact E].
Qed.

Lemma wfp_split p : wfp p → Forall wfp (split_on OR p).
Proof.
  revert p. apply wfp_ind.
  - by constructor.
  - intros k r Hk Hr IH. cbn [split_on]. change (BACKSLASH =? OR) with false. cbn iota. rewrite (proj2 (Z.eqb_neq k OR)) by (unfold OR; lia).
    destruct (split_on OR r) as [|q qs]; [done|]. apply Forall_cons in IH as [? ?]. by constructor.
  - intros c r Hc Hok Hr IH. cbn [split_on]. destruct (c =? OR); [by constructor|].
    destruct (split_on OR r) as [|q qs]; [done|]. apply Forall_cons in IH as [? ?]. constructor; [|done]. cbn.
    by rewrite (proj2 (Z.eqb_neq c BACKSLASH)).
Qed.

Lemma wfp_removelast p : wfp p → last p = Some ENDREGEX → wfp (removelast p).
Proof.
  revert p. apply (wfp_ind (λ p, last p = Some ENDREGEX → wfp (removelast p))).
  - done.
  - intros k r Hk Hr IH. destruct r as [|d r]; [cbn; intros [= E]; unfold ENDREGEX in E; lia|].
    rewrite !last_cons_cons. intros Hl. split; [done|]. by apply IH.
  - intros c r Hc Hok Hr IH. destruct r as [|d r]; [done|]. rewrite last_cons_cons. intros Hl.
    change (wfp (c :: removelast (d :: r))). cbn [wfp]. rewrite (proj2 (Z.eqb_neq c BACKSLASH)) by done. split; [done|]. by apply IH.
Qed.

Lemma wfp_char_ok p : wfp p → Forall char_ok p.
Proof.
  revert p. apply wfp_ind; [constructor| |].
  - intros k r Hk _ IH. constructor; [unfold char_ok, BACKSLASH; lia|]. constructor; [unfold char_ok; lia|done].
  - intros c r _ Hok _ IH. by constructor.
Qed.

(** A sub pattern without its anchors, with its flags. *)
Definition regex_alt (cur : cstr) : cstr * Z :=
  let '(b, m, e) := anchors cur in (m, Z.lor (if b then BEGIN_SET else 0) (if e then END_SET else 0)).

Lemma regex_alt_wf cur : wfp cur → wfp (regex_alt cur).1.
Proof.
  intros Hw. unfold regex_alt, anchors. destruct cur as [|c r]; [done|]. cbn [wfp] in Hw.
  destruct (Z.eqb_spec c BEGINREGEX) as [->|Hc].
  - destruct Hw as [_ Hw]. destruct (last r) as [l|] eqn:El; [|done]. destruct (Z.eqb_spec l ENDREGEX) as [->|]; [|done]. by apply wfp_removelast.
  - destruct (last (c :: r)) as [l|] eqn:El; [|done]. destruct (Z.eqb_spec l ENDREGEX) as [->|]; [|done]. by apply (wfp_removelast (c :: r)).
Qed.

Lemma cstring_at pre s post : Forall char_ok s → cstring (drop (length pre) (pre ++ s ++ 0 :: post)) = s.
Proof.
  intros Hs. rewrite drop_app_length. apply cstring_app. eapply Forall_impl; [exact Hs|]. unfold char_ok. cbn. lia.
Qed.

(** The end of a sub pattern [r] that starts at [pre]. *)
Lemma regex_sub_end pre r post f :
  Forall char_ok r →
  ('(buf, f) ←
     (if Z.of_nat (length pre) <? Z.of_nat (length pre) + length r then
        l ← rd (pre ++ r ++ 0 :: post) (Z.of_nat (length pre) + length r - 1);
        Some (if l =? ENDREGEX then (<[Z.to_nat (Z.of_nat (length pre) + length r - 1) := 0]> (pre ++ r ++ 0 :: post), Z.lor f END_SET)
              else (pre ++ r ++ 0 :: post, f))
      else Some (pre ++ r ++ 0 :: post, f));
   Some (cstring (drop (length pre) buf), f)) =
  Some (match last r with
        | Some c => if c =? ENDREGEX then (removelast r, Z.lor f END_SET) else (r, f)
        | None => (r, f)
        end).
Proof.
  intros Hr. destruct (last r) as [c|] eqn:El.
  - pose proof (last_removelast _ _ El) as E.
    assert (length r = S (length (removelast r))) as Elen by (rewrite E at 1; rewrite length_app; cbn; lia).
    rewrite (proj2 (Z.ltb_lt _ _)) by lia. rewrite (rd_last pre r (0 :: post) c El). cbn [mbind option_bind].
    destruct (c =? ENDREGEX).
    + cbn [mbind option_bind]. f_equal. f_equal.
      replace (Z.to_nat (Z.of_nat (length pre) + length r - 1)) with (length (pre ++ removelast r) + 0)%nat by (rewrite length_app; lia).
      rewrite E at 2. rewrite <-(app_assoc (removelast r)), (app_assoc pre), insert_app_r. cbn [app insert list_insert].
      rewrite <-app_assoc. apply cstring_at. by apply removelast_forall.
    + cbn [mbind option_bind]. by rewrite cstring_at.
  - apply last_None in El as ->. cbn [length]. rewrite (proj2 (Z.ltb_ge _ _)) by lia. cbn [mbind option_bind].
    by rewrite (cstring_at pre []) by constructor.
Qed.

Lemma regex_sub_spec pre cur post :
  Forall char_ok cur → regex_sub (pre ++ cur ++ 0 :: post) (length pre) (length pre + length cur) = Some (regex_alt cur).
Proof.
  intros Hok. unfold regex_sub, regex_alt, anchors. destruct cur as [|c r].
  - assert (rd (pre ++ [] ++ 0 :: post) (length pre) = Some 0) as ->.
    { apply rd_here. }
    cbn [mbind option_bind]. change (0 =? BEGINREGEX) with false. cbn iota zeta. rewrite Nat2Z.id.
    exact (regex_sub_end pre [] post 0 (Forall_nil_2 _)).
  - assert (rd (pre ++ (c :: r) ++ 0 :: post) (length pre) = Some c) as ->.
    { apply rd_here. }
    cbn [mbind option_bind]. destruct (Z.eqb_spec c BEGINREGEX) as [->|Hc]; cbn iota zeta.
    + apply Forall_cons in Hok as [_ Hr]. pose proof (regex_sub_end (pre ++ [BEGINREGEX]) r post BEGIN_SET Hr) as He.
      rewrite <-app_assoc, length_app in He. cbn [app length] in He.
      replace (Z.of_nat (length pre) + 1) with (Z.of_nat (length pre + 1)) by lia. cbn [length app].
      replace (Z.of_nat (length pre) + Z.of_nat (S (length r))) with (Z.of_nat (length pre + 1) + length r) by lia.
      rewrite Nat2Z.id. rewrite He. destruct (last r) as [l|]; [|done]. by destruct (l =? ENDREGEX).
    + rewrite Nat2Z.id. pose proof (regex_sub_end pre (c :: r) post 0 Hok) as He. rewrite He.
      destruct (last (c :: r)) as [l|]; [|done]. by destruct (l =? ENDREGEX).
Qed.

Lemma regex_subs_spec rest : ∀ fuel pre cur room,
  Forall char_ok cur → OR ∉ cur → Forall char_ok rest → (length rest < fuel)%nat →
  Z.of_nat (length (split_on OR rest)) <= room →
  regex_subs fuel (pre ++ cur ++ mem rest) (length pre) (length pre + length cur) room =
  Some (regex_alt <$> split_on OR (cur ++ rest)).
Proof.
  unfold mem. induction rest as [|c rest IH]; intros fuel pre cur room Hcur Hor Hrest Hf Hroom;
    (destruct fuel as [|fuel]; [lia|]); cbn [regex_subs].
  - cbn [app]. rewrite rd_mid. cbn [mbind option_bind Z.eqb orb OR].
    assert (<[Z.to_nat (length pre + length cur) := 0]> (pre ++ cur ++ [0]) = pre ++ cur ++ [0]) as ->.
    { replace (Z.to_nat (length pre + length cur)) with (length (pre ++ cur) + 0)%nat by (rewrite length_app; lia).
      rewrite (app_assoc pre cur), insert_app_r. done. }
    rewrite regex_sub_spec by done. cbn [mbind option_bind]. cbn in Hroom. rewrite (proj2 (Z.leb_gt _ _)) by lia.
    pose proof (split_on_app OR cur [] [] [] Hor eq_refl) as E. by rewrite E, app_nil_r.
  - apply Forall_cons in Hrest as [Hc Hrest]. cbn [app length] in *. rewrite rd_mid. cbn [mbind option_bind].
    rewrite (proj2 (Z.eqb_neq c 0)) by (unfold char_ok in Hc; lia). rewrite orb_false_r. destruct (Z.eqb_spec c OR) as [->|Hne].
    + assert (<[Z.to_nat (length pre + length cur) := 0]> (pre ++ cur ++ OR :: rest ++ [0]) = pre ++ cur ++ 0 :: rest ++ [0]) as ->.
      { replace (Z.to_nat (length pre + length cur)) with (length (pre ++ cur) + 0)%nat by (rewrite length_app; lia).
        rewrite (app_assoc pre cur), insert_app_r. first [done|by rewrite <-app_assoc]. }
      rewrite regex_sub_spec by done. cbn [mbind option_bind].
      cbn [split_on] in Hroom. rewrite Z.eqb_refl in Hroom. cbn [length] in Hroom. rewrite (proj2 (Z.leb_gt _ _)) by lia.
      pose proof (IH fuel (pre ++ cur ++ [0]) [] (room - 1) (Forall_nil_2 _) (not_elem_of_nil _) Hrest ltac:(lia) ltac:(lia)) as E.
      rewrite <-!app_assoc, !length_app in E. cbn [app length] in E. rewrite Z.add_0_r in E.
      replace (Z.of_nat (length pre) + Z.of_nat (length cur) + 1) with (Z.of_nat (length pre + (length cur + 1))) by lia. rewrite E.
      cbn [mbind option_bind]. assert (split_on OR (cur ++ OR :: rest) = cur :: split_on OR rest) as ->; [|done].
      rewrite <-(app_nil_r cur) at 2. by apply split_on_app.
    + pose proof (IH fuel pre (cur ++ [c]) room) as E. rewrite <-!app_assoc, length_app in E. cbn [app length] in E.
      replace (Z.of_nat (length pre) + Z.of_nat (length cur) + 1) with (Z.of_nat (length pre) + Z.of_nat (length cur + 1)) by lia.
      apply E; [|..|done|lia|].
      * apply Forall_app. split; [done|]. by constructor.
      * rewrite not_elem_of_app, list_elem_of_singleton. split; [done|congruence].
      * cbn [split_on] in Hroom. rewrite (proj2 (Z.eqb_neq c OR)) in Hroom by done.
        pose proof (split_on_ne OR rest). destruct (split_on OR rest); done.
Qed.

(** ** Positions in a pattern *)

Section total.
Context (pattern str : cstr) (closure : option (list Z)) (flags : Z).
Context (Hwf : wfp pattern) (Hstr : Forall char_ok str).

(** A position between two items. *)
Definition bd (q : Z) : Prop := 0 <= q <= Z.of_nat (length pattern) ∧ wfp (drop (Z.to_nat q) pattern).

Lemma rd_drop (q : Z) (j : nat) :
  0 <= q <= Z.of_nat (length pattern) → rd (mem pattern) (q + j) = mem (drop (Z.to_nat q) pattern) !! j.
Proof.
  intros Hq. rewrite <-(take_drop (Z.to_nat q) pattern) at 1.
  replace (q + j) with (Z.of_nat (length (take (Z.to_nat q) pattern)) + j) by (rewrite length_take; lia). apply rd_mem_app.
Qed.

Lemma bd_drop q r (j : nat) : bd q → drop (Z.to_nat q + j) pattern = r → wfp r → (length (drop (Z.to_nat q) pattern) >= j)%nat → bd (q + j).
Proof.
  intros [Hq _] Hd Hr Hl. rewrite length_drop in Hl. split; [lia|]. replace (Z.to_nat (q + j)) with (Z.to_nat q + j)%nat by lia. by rewrite Hd.
Qed.

(** What is at a position: the end, a class, or a character. *)
Lemma bd_cases q :
  bd q →
  (rd (mem pattern) q = Some 0) ∨
  (∃ k, rd (mem pattern) q = Some BACKSLASH ∧ rd (mem pattern) (q + 1) = Some k ∧ 1 <= k <= 15 ∧ bd (q + 2)) ∨
  (∃ c, rd (mem pattern) q = Some c ∧ char_ok c ∧ c ≠ BACKSLASH ∧ bd (q + 1)).
Proof.
  intros Hb. pose proof Hb as [Hq Hw]. pose proof (rd_drop q 0 Hq) as H0. rewrite Z.add_0_r in H0. pose proof (rd_drop q 1 Hq) as H1.
  destruct (wfp_cases _ Hw) as [E|[(k & r & E & Hk & Hr)|(c & r & E & Hc & Hok & Hr)]]; rewrite E in H0, H1.
  - left. exact H0.
  - right. left. exists k. split_and!; try done; try lia. apply (bd_drop q r 2); [done| |done|rewrite E; cbn; lia].
    by rewrite <-drop_drop, E.
  - right. right. exists c. split_and!; try done. apply (bd_drop q r 1); [done| |done|rewrite E; cbn; lia]. by rewrite <-drop_drop, E.
Qed.

Lemma bd_rd q : bd q → ∃ c, rd (mem pattern) q = Some c ∧ (c ≠ 0 → c ≠ BACKSLASH → bd (q + 1)).
Proof.
  intros Hb. destruct (bd_cases q Hb) as [E|[(k & E & _)|(c & E & _ & _ & Hb')]]; eexists; (split; [exact E|]); done.
Qed.

Lemma bd_class q : bd q → rd (mem pattern) q = Some BACKSLASH → ∃ k, rd (mem pattern) (q + 1) = Some k ∧ 1 <= k <= 15 ∧ bd (q + 2).
Proof.
  intros Hb E. destruct (bd_cases q Hb) as [E'|[(k & _ & ? & ? & ?)|(c & E' & _ & ? & _)]]; [by rewrite E in E'|eauto|congruence].
Qed.

Lemma bd_plus q c : bd q → rd (mem pattern) q = Some c → isPlus c = true → bd (q + 1).
Proof.
  intros Hb E Hp. unfold isPlus in Hp. destruct (bd_rd q Hb) as (c' & E' & H). assert (c' = c) as -> by congruence.
  apply H; intros ->; done.
Qed.

Lemma bd_prts q c : bd q → rd (mem pattern) q = Some c → prts c = true → bd (q + 1).
Proof.
  intros Hb E Hp. unfold prts in Hp. destruct (bd_rd q Hb) as (c' & E' & H). assert (c' = c) as -> by congruence.
  apply H; intros ->; done.
Qed.

Lemma bd_zero : bd 0.
Proof. split; [lia|]. done. Qed.

(** The places to go back to are a stack. *)
Definition errs_of (l : list (Z * Z)) : errs := Errs (l !! 0%nat) (l !! 1%nat) (l !! 2%nat) (l !! 3%nat).

Lemma push_errs l v : (length l <= 4)%nat → push_err (errs_of l) v = errs_of (if (length l <? 4)%nat then l ++ [v] else l).
Proof. intros H. do 5 (destruct l as [|? l]; [done|]). cbn in H. lia. Qed.

Lemma pop_errs l v : (length l < 4)%nat → pop_err (errs_of (l ++ [v])) = Some (v, errs_of l).
Proof. intros H. do 4 (destruct l as [|? l]; [by destruct v|]). cbn in H. lia. Qed.

Lemma set_prt_ok pos v ps : (∀ cl, closure = Some cl → (length cl < length ps)%nat) →
  ∃ ps', set_prt closure pos v ps = Some ps' ∧ length ps' = length ps.
Proof.
  intros H. unfold set_prt. destruct closure as [cl|]; [|eauto]. destruct (index_of pos cl) as [j|] eqn:Ej; [|eauto].
  assert (j < length cl)%nat as Hj.
  { clear H. revert j Ej. induction cl as [|x cl IH]; intros j; [done|]. cbn. destruct (x =? pos); [intros [= <-]; lia|].
    destruct (index_of pos cl); cbn; [|done]. intros [= <-]. specialize (IH _ eq_refl). lia. }
  specialize (H cl eq_refl). rewrite (proj2 (Nat.ltb_lt _ _)) by lia. eexists. split; [done|]. apply length_insert.
Qed.

(** ** One iteration *)

Definition clo_ok (ps : list (option Z)) : Prop := ∀ cl, closure = Some cl → (length cl < length ps)%nat.

Lemma clo_ok_length ps ps' : clo_ok ps → length ps' = length ps → clo_ok ps'.
Proof. unfold clo_ok. intros H ->. done. Qed.

(** From [x] to [x']: advance, advance and remember where to go back to, or
    skip an item of the pattern at the same character. *)
Definition next_ok (x x' : rx) : Prop :=
  bd (x_pt x') ∧ length (x_prts x') = length (x_prts x) ∧
  ((x_st x' = x_st x ∧ x_errs x' = x_errs x ∧
      (x_sterr x' = x_sterr x ∨ x_sterr x' = mark_error (x_sterr x) (x_st x))) ∨
   (x_st x' = x_st x ∧ (∃ q, bd q ∧ x_errs x' = push_err (x_errs x) (q, x_st x)) ∧ x_sterr x' = x_sterr x) ∨
   (x_st x' = x_st x - 1 ∧ x_errs x' = x_errs x ∧ x_sterr x' = x_sterr x ∧ x_pt x < x_pt x')).

Definition err_ok (x x' : rx) : Prop :=
  x_st x' = x_st x ∧ x_errs x' = x_errs x ∧ x_sterr x' = x_sterr x ∧ length (x_prts x') = length (x_prts x).

Definition verdict_ok (x : rx) (v : verdict) : Prop :=
  match v with
  | VNext x' => next_ok x x'
  | VRet _ ps => length ps = length (x_prts x)
  | VErr x' => err_ok x x'
  end.

Lemma switch_ok st pt rc m se pe ps c :
  bd pt → clo_ok ps →
  ∃ r, rx_switch pattern closure flags (Rx st pt rc m se pe ps) c = Some r ∧
    match r with
    | inr (_, ps') => length ps' = length ps
    | inl x' => ∃ pt' ps', x' = Rx st pt' rc m se pe ps' ∧ bd pt' ∧ pt <= pt' ∧ length ps' = length ps
    end.
Proof.
  intros Hb Hc. unfold rx_switch. destruct (bd_rd pt Hb) as (p & E & Hp). rewrite E. cbn [mbind option_bind].
  destruct (p =? 0).
  - eexists. split; [reflexivity|]. destruct (at_end flags c); [done|]. exists pt, ps. split_and!; done || lia.
  - destruct (prts p) eqn:Epr.
    + destruct (set_prt_ok pt st ps Hc) as (ps' & -> & Hl). cbn [mbind option_bind]. pose proof (bd_prts pt p Hb E Epr) as Hb'.
      destruct (bd_rd (pt + 1) Hb') as (p2 & -> & _). cbn [mbind option_bind]. eexists. split; [reflexivity|].
      destruct (_ && _); [done|]. exists (pt + 1), ps'. split_and!; done || lia.
    + eexists. split; [reflexivity|]. exists pt, ps. split_and!; done || lia.
Qed.

Lemma look_ahead_ok m q c :
  bd q → byte c →
  ∃ ok m', look_ahead pattern m q c = Some (ok, m') ∧
    (0 <= ok → rd (mem pattern) q = Some 0 ∨ bd (q + ok)).
Proof.
  intros Hb Hc. unfold look_ahead. destruct (bd_rd q Hb) as (p & E & Hp). rewrite E. cbn [mbind option_bind].
  destruct (Z.eqb_spec p 0) as [->|Hp0]; [eexists _, _; split; [reflexivity|]; by left|].
  destruct (Z.eqb_spec p BACKSLASH) as [->|Hpb].
  - destruct (bd_class q Hb E) as (k & -> & Hk & Hb2). cbn [mbind option_bind]. rewrite Regex_class by done. cbn [mbind option_bind].
    destruct (class_of k c); [|eexists _, _; split; [reflexivity|]; lia].
    destruct (bd_rd (q + 2) Hb2) as (z & -> & _). cbn [mbind option_bind]. eexists _, _. split; [reflexivity|]. intros _. right.
    destruct (isPlus z); [by rewrite Z.add_0_r|done].
  - destruct (schar p =? charmap_at c); eexists _, _; (split; [reflexivity|]); [|lia]. intros _. right. by apply Hp.
Qed.

Lemma repeat_ok st pt rc m se pe ps q n c :
  bd pt → bd q → rd (mem pattern) q = Some n → isPlus n = true → clo_ok ps → byte c →
  ∃ v, rx_repeat pattern closure (Rx st pt rc m se pe ps) q c = Some v ∧ verdict_ok (Rx st pt rc m se pe ps) v.
Proof.
  intros Hpt Hb En Hn Hc Hby. unfold rx_repeat. pose proof (bd_plus q n Hb En Hn) as Hb1. destruct (bd_rd (q + 1) Hb1) as (p & E & Hp).
  rewrite E. cbn [mbind option_bind]. set (q2 := if prts p then q + 1 + 1 else q + 1).
  assert (bd q2 ∧ ∃ b, rd (mem pattern) (q2 - 1) = Some b) as [Hb2 (b & Eb)].
  { unfold q2. destruct (prts p) eqn:Ep.
    - split; [by eapply bd_prts|]. exists p. rewrite <-E. f_equal. lia.
    - split; [done|]. exists n. rewrite <-En. f_equal. lia. }
  destruct (look_ahead_ok m q2 c Hb2 Hby) as (ok & m' & -> & Hok). cbn [mbind option_bind].
  destruct (Z.leb_spec 0 ok) as [H0|H0].
  - rewrite Eb. cbn [mbind option_bind].
    assert (∃ ps', (if prts b then set_prt closure (q2 - 1) (if m' && (ok =? 1) then st + 1 else st) ps else Some ps) = Some ps' ∧ length ps' = length ps)
      as (ps' & -> & Hl) by (destruct (prts b); [by apply set_prt_ok|eauto]).
    cbn [mbind option_bind]. destruct (bd_rd q2 Hb2) as (p3 & E3 & _). rewrite E3. cbn [mbind option_bind].
    destruct (Z.eqb_spec p3 0) as [->|Hp3]; eexists; (split; [reflexivity|]); (split; [|split; [done|]]); cbn.
    + done.
    + left. auto.
    + destruct (Hok H0) as [E4|?]; [congruence|done].
    + right. left. split_and!; try done. by exists pt.
  - eexists. split; [reflexivity|]. split; [done|]. split; [done|]. left. cbn. auto.
Qed.

Lemma class_ok st pt rc m se pe ps c :
  bd pt → rd (mem pattern) pt = Some BACKSLASH → clo_ok ps → byte c → 0 <= st < Z.of_nat (length str) →
  ∃ v, rx_class pattern str closure (Rx st pt rc m se pe ps) c = Some v ∧ verdict_ok (Rx st pt rc m se pe ps) v.
Proof.
  intros Hpt E Hc Hby Hst. unfold rx_class. destruct (bd_class pt Hpt E) as (k & _ & _ & Hb2).
  destruct (bd_rd (pt + 2) Hb2) as (n & En & _). rewrite En. cbn [mbind option_bind]. destruct (isPlus n) eqn:Ep; cbn [negb].
  - destruct (if n =? 42 then true else m) eqn:Em.
    + destruct (repeat_ok st pt rc true se pe ps (pt + 2) n c Hpt Hb2 En Ep Hc Hby) as (v & -> & Hv). exists v. done.
    + pose proof (bd_plus _ _ Hb2 En Ep) as Hb3. destruct (bd_rd (pt + 2 + 1) Hb3) as (q & -> & _). cbn [mbind option_bind].
      assert (∃ ps', (match closure with
              | Some _ => if prts q then d ← rd (mem str) (st + 1); set_prt closure (pt + 2 + 1) (if d =? 0 then st + 1 else st) ps else Some ps
              | None => Some ps end) = Some ps' ∧ length ps' = length ps) as (ps' & -> & Hl).
      { destruct closure as [cl|] eqn:Ecl; [|eauto]. destruct (prts q); [|eauto].
        assert (∃ d, rd (mem str) (st + 1) = Some d) as (d & ->).
        { unfold rd. rewrite (proj2 (Z.ltb_ge _ _)) by lia. apply lookup_lt_is_Some_2. unfold mem. rewrite length_app. cbn. lia. }
        cbn [mbind option_bind]. rewrite <-Ecl. by apply set_prt_ok. }
      cbn [mbind option_bind]. eexists. split; [reflexivity|]. split; [done|]. split; [done|]. left. cbn. auto.
  - eexists. split; [reflexivity|]. split; [done|]. split; [done|]. left. cbn. auto.
Qed.

Lemma noclass_ok st pt rc m se pe ps c :
  bd pt → rd (mem pattern) pt = Some BACKSLASH →
  ∃ v, rx_noclass pattern flags (Rx st pt rc m se pe ps) c = Some v ∧ verdict_ok (Rx st pt rc m se pe ps) v.
Proof.
  intros Hpt E. unfold rx_noclass. destruct (bd_class pt Hpt E) as (k & _ & _ & Hb2).
  destruct (bd_rd (pt + 2) Hb2) as (a & Ea & Ha). rewrite Ea. cbn [mbind option_bind].
  assert (∃ l, (if a =? 0 then Some true else b ← rd (mem pattern) (pt + 3); Some (b =? 0)) = Some l) as (l & ->).
  { destruct (Z.eqb_spec a 0) as [->|Ha0]; [eauto|]. destruct (bd_cases _ Hb2) as [E0|[(k2 & E2 & E3 & _)|(c2 & E2 & _ & _ & Hb3)]].
    - congruence.
    - replace (pt + 3) with (pt + 2 + 1) by lia. rewrite E3. cbn. eauto.
    - replace (pt + 3) with (pt + 2 + 1) by lia. destruct (bd_rd _ Hb3) as (d & -> & _). cbn. eauto. }
  cbn [mbind option_bind]. destruct (l && m && _).
  { destruct (at_end flags c); eexists; (split; [reflexivity|]); done. }
  destruct (Z.eqb_spec a 43) as [->|H43]; cbn [andb].
  - assert (bd (pt + 3)) as Hb3 by (replace (pt + 3) with (pt + 2 + 1) by lia; by apply Ha).
    destruct m; [|eexists; (split; [reflexivity|]); done]. eexists. split; [reflexivity|]. split; [done|]. split; [done|]. right. right. cbn. split_and!; done || lia.
  - destruct (Z.eqb_spec a 42) as [->|H42]; [|eexists; (split; [reflexivity|]); done].
    assert (bd (pt + 3)) as Hb3 by (replace (pt + 3) with (pt + 2 + 1) by lia; by apply Ha).
    eexists. split; [reflexivity|]. split; [done|]. split; [done|]. right. right. cbn. split_and!; done || lia.
Qed.

Lemma body_ok x c :
  bd (x_pt x) → clo_ok (x_prts x) → 0 <= x_st x < Z.of_nat (length str) → char_ok c →
  ∃ v, rx_body pattern str closure flags x c = Some v ∧ verdict_ok x v.
Proof.
  destruct x as [st pt rc m se pe ps]. cbn [x_pt x_prts x_st]. intros Hpt Hc Hst Hok. unfold rx_body.
  assert (byte c) as Hby by (unfold char_ok in Hok; unfold byte; lia).
  destruct (switch_ok st pt rc m se pe ps c Hpt Hc) as (r & -> & Hr). cbn [mbind option_bind]. destruct r as [x'|[rc' ps']]; [|by eexists].
  destruct Hr as (pt' & ps' & -> & Hb & Hle & Hl). pose proof (clo_ok_length _ _ Hc Hl) as Hc'.
  assert (∀ v, verdict_ok (Rx st pt' rc m se pe ps') v → verdict_ok (Rx st pt rc m se pe ps) v) as Hv.
  { intros [x'|r' ps2|x'] Hx; cbn in *.
    - destruct Hx as (H1 & H2 & H3). split; [done|]. cbn in *. split; [congruence|]. destruct H3 as [H3|[H3|(H4 & H5 & H6 & H7)]]; [by left|by right; left|].
      right. right. split_and!; done || lia.
    - congruence.
    - destruct Hx as (H1 & H2 & H3 & H4). split_and!; cbn in *; congruence. }
  destruct (bd_rd pt' Hb) as (p & E & Hp). rewrite E. cbn [mbind option_bind]. destruct (Z.eqb_spec p BACKSLASH) as [->|Hpb].
  - destruct (bd_class pt' Hb E) as (k & -> & Hk & _). cbn [mbind option_bind]. rewrite Regex_class by done. cbn [mbind option_bind].
    destruct (class_of k c).
    + destruct (class_ok st pt' rc m se pe ps' c Hb E Hc' Hby Hst) as (v & -> & ?). eauto.
    + destruct (noclass_ok st pt' rc m se pe ps' c Hb E) as (v & -> & ?). eauto.
  - destruct (schar p =? charmap_at c) eqn:Ec; [|eexists; split; [reflexivity|]; by apply Hv].
    eexists. split; [reflexivity|]. apply Hv. split; [|split; [done|left; cbn; auto]]. cbn. apply Hp; [|done].
    intros ->. rewrite charmap_tolower in Ec by done. apply Z.eqb_eq in Ec.
    unfold schar, tolower, char_ok in *. destruct (Z.leb_spec 65 c), (Z.leb_spec c 90); cbn in Ec; lia.
Qed.

(** ** The number of iterations *)

(** Sequences of digits, compared from the left. *)
Fixpoint num (B : Z) (acc : Z) (l : list Z) : Z := match l with [] => acc | d :: l => num B (acc * B + d) l end.

Lemma num_bounds B l : 0 < B → Forall (λ d, 0 <= d < B) l → ∀ acc, acc * B ^ length l <= num B acc l < (acc + 1) * B ^ length l.
Proof.
  intros HB Hl. induction Hl as [|d l Hd _ IH]; intros acc; [cbn; lia|]. cbn [num length]. specialize (IH (acc * B + d)).
  rewrite Nat2Z.inj_succ, Z.pow_succ_r by lia. assert (0 < B ^ length l) by (apply Z.pow_pos_nonneg; lia). nia.
Qed.

Lemma num_lt B p a b l1 l2 : ∀ acc,
  0 < B → Forall (λ d, 0 <= d < B) l1 → Forall (λ d, 0 <= d < B) l2 → length l1 = length l2 → a < b →
  num B acc (p ++ a :: l1) < num B acc (p ++ b :: l2).
Proof.
  induction p as [|d p IH]; intros acc HB H1 H2 Hlen Hab; cbn [app num]; [|by apply IH].
  pose proof (num_bounds B l1 HB H1 (acc * B + a)) as Hb1. pose proof (num_bounds B l2 HB H2 (acc * B + b)) as Hb2. rewrite Hlen in Hb1.
  assert (0 < B ^ length l2) by (apply Z.pow_pos_nonneg; lia). nia.
Qed.

Definition start_of (se : option Z) (l : list (Z * Z)) (st : Z) : Z :=
  match se with Some e => e | None => match l with (_, s) :: _ => s | [] => st end end.

(** Where the attempt started, where to go back to, the character, the item. *)
Definition stack_digits (l : list (Z * Z)) (st : Z) : list Z := l.*2 ++ st :: replicate (4 - length l) 0.
Definition digits (se : option Z) (l : list (Z * Z)) (st pt : Z) : list Z :=
  start_of se l st :: stack_digits l st ++ [pt].

Definition rx_inv (L : nat) (x : rx) : Prop :=
  ∃ l, x_errs x = errs_of l ∧ (length l <= 4)%nat ∧ bd (x_pt x) ∧ length (x_prts x) = L ∧
    0 <= x_st x <= Z.of_nat (length str) ∧
    Forall (λ e, bd e.1 ∧ 0 <= e.2 < Z.of_nat (length str)) l ∧
    (∀ q s l', l = (q, s) :: l' → s <= x_st x ∧ Forall (λ e, s <= e.2) l') ∧
    (∀ e, x_sterr x = Some e → 0 <= e < Z.of_nat (length str)).

Definition measure (se : option Z) (l : list (Z * Z)) (st pt : Z) : Z :=
  rx_base pattern str ^ 7 - num (rx_base pattern str) 0 (digits se l st pt).

Definition stack_of (e : errs) : list (Z * Z) := omap id [pe0 e; pe1 e; pe2 e; pe3 e].
Lemma stack_errs l : (length l <= 4)%nat → stack_of (errs_of l) = l.
Proof. intros H. do 5 (destruct l as [|? l]; [done|]). cbn in H. lia. Qed.

Definition mu (x : rx) : Z := measure (x_sterr x) (stack_of (x_errs x)) (x_st x) (x_pt x).

Definition digit_ok (d : Z) : Prop := 0 <= d < rx_base pattern str.

Lemma digits_ok se l st pt :
  (length l <= 4)%nat → bd pt → 0 <= st <= Z.of_nat (length str) →
  Forall (λ e : Z * Z, bd e.1 ∧ 0 <= e.2 < Z.of_nat (length str)) l → (∀ e, se = Some e → 0 <= e < Z.of_nat (length str)) →
  Forall digit_ok (digits se l st pt) ∧ length (digits se l st pt) = 7%nat.
Proof.
  intros Hl [Hpt _] Hst Hall Hse. unfold digits, stack_digits, digit_ok, rx_base. split.
  - constructor; [|repeat (apply Forall_app; split)].
    + unfold start_of. destruct se as [e|]; [specialize (Hse e eq_refl); lia|]. destruct l as [|[q s] l]; [lia|].
      apply Forall_cons in Hall as [[_ ?] _]. cbn in *. lia.
    + apply Forall_fmap. eapply Forall_impl; [exact Hall|]. intros [q s] [_ ?]. cbn in *. lia.
    + constructor; [lia|]. apply Forall_replicate. lia.
    + constructor; [lia|constructor].
  - cbn. rewrite !length_app, length_fmap. cbn. rewrite length_replicate. lia.
Qed.

Lemma measure_lt se l st pt se' l' st' pt' p a b r1 r2 :
  digits se l st pt = p ++ a :: r1 → digits se' l' st' pt' = p ++ b :: r2 → a < b →
  Forall digit_ok (digits se l st pt) ∧ length (digits se l st pt) = 7%nat →
  Forall digit_ok (digits se' l' st' pt') ∧ length (digits se' l' st' pt') = 7%nat →
  0 <= measure se' l' st' pt' < measure se l st pt.
Proof.
  intros E E' Hab [H1 L1] [H2 L2]. unfold measure. set (B := rx_base pattern str) in *.
  assert (0 < B) as HB by (unfold B, rx_base; lia).
  assert (num B 0 (digits se l st pt) < num B 0 (digits se' l' st' pt')) as Hlt.
  { rewrite E, E' in *. apply Forall_app in H1 as [_ H1]. apply Forall_cons in H1 as [_ H1]. apply Forall_app in H2 as [_ H2].
    apply Forall_cons in H2 as [_ H2]. apply num_lt; try done. rewrite length_app in L1, L2. cbn in L1, L2. lia. }
  pose proof (num_bounds B _ HB H2 0) as Hb. rewrite L2 in Hb. change (Z.of_nat 7) with 7 in Hb. lia.
Qed.

Lemma measure_advance se se' l st pt pt' :
  (length l <= 4)%nat → bd pt → bd pt' → 0 <= st < Z.of_nat (length str) →
  Forall (λ e : Z * Z, bd e.1 ∧ 0 <= e.2 < Z.of_nat (length str)) l →
  (∀ q s l', l = (q, s) :: l' → s <= st ∧ Forall (λ e : Z * Z, s <= e.2) l') → (∀ e, se = Some e → 0 <= e < Z.of_nat (length str)) →
  se' = se ∨ se' = mark_error se st →
  0 <= measure se' l (st + 1) pt' < measure se l st pt.
Proof.
  intros Hl Hb Hb' Hst Hall Hord Hse Hcase.
  assert (∀ e, se' = Some e → 0 <= e < Z.of_nat (length str)) as Hse'.
  { intros e He. destruct Hcase as [->| ->]; [auto|]. destruct se; cbn in He; [auto|]. by injection He as <-. }
  pose proof (digits_ok se l st pt Hl Hb ltac:(lia) Hall Hse) as D1. pose proof (digits_ok se' l (st + 1) pt' Hl Hb' ltac:(lia) Hall Hse') as D2.
  assert (start_of se l st < start_of se' l (st + 1) ∨ start_of se l st = start_of se' l (st + 1)) as [Hlt|Heq].
  { destruct Hcase as [->| ->].
    - unfold start_of. destruct se; [auto|]. destruct l as [|[q s] l]; [left; lia|auto].
    - unfold start_of, mark_error. destruct se; [auto|]. destruct l as [|[q s] l]; [auto|]. destruct (Hord q s l eq_refl). lia. }
  - unfold digits in *. eapply (measure_lt se l st pt se' l (st + 1) pt' []); [reflexivity|reflexivity|exact Hlt|exact D1|exact D2].
  - eapply (measure_lt se l st pt se' l (st + 1) pt' (start_of se l st :: l.*2) st (st + 1)); [| |lia|exact D1|exact D2].
    + unfold digits, stack_digits. rewrite <-app_assoc. reflexivity.
    + unfold digits, stack_digits. rewrite <-Heq, <-app_assoc. reflexivity.
Qed.

Lemma measure_push se l st pt pt' q :
  (length l < 4)%nat → bd pt → bd pt' → bd q → 0 <= st < Z.of_nat (length str) →
  Forall (λ e : Z * Z, bd e.1 ∧ 0 <= e.2 < Z.of_nat (length str)) l → (∀ e, se = Some e → 0 <= e < Z.of_nat (length str)) →
  0 <= measure se (l ++ [(q, st)]) (st + 1) pt' < measure se l st pt.
Proof.
  intros Hl Hb Hb' Hq Hst Hall Hse.
  pose proof (digits_ok se l st pt ltac:(lia) Hb ltac:(lia) Hall Hse) as D1.
  assert (Forall (λ e : Z * Z, bd e.1 ∧ 0 <= e.2 < Z.of_nat (length str)) (l ++ [(q, st)])) as Hall'.
  { apply Forall_app. split; [done|]. constructor; [done|constructor]. }
  pose proof (digits_ok se (l ++ [(q, st)]) (st + 1) pt' ltac:(rewrite length_app; cbn; lia) Hb' ltac:(lia) Hall' Hse) as D2.
  assert (start_of se (l ++ [(q, st)]) (st + 1) = start_of se l st) as Hs.
  { unfold start_of. destruct se; [done|]. by destruct l as [|[q0 s0] l]. }
  eapply (measure_lt se l st pt se _ _ pt' (start_of se l st :: l.*2 ++ [st]) 0 (st + 1)); [| |lia|exact D1|exact D2].
  - unfold digits, stack_digits. replace (4 - length l)%nat with (S (3 - length l)) by lia. cbn [replicate]. rewrite <-!app_assoc. cbn [app].
    rewrite <-!app_assoc. cbn [app]. reflexivity.
  - unfold digits, stack_digits. rewrite Hs, fmap_app, <-!app_assoc. cbn [app fmap list_fmap snd]. rewrite <-!app_assoc. cbn [app]. reflexivity.
Qed.

Lemma measure_pop se l q s st pt :
  (length l < 4)%nat → bd pt → 0 <= st <= Z.of_nat (length str) →
  Forall (λ e : Z * Z, bd e.1 ∧ 0 <= e.2 < Z.of_nat (length str)) (l ++ [(q, s)]) → (∀ e, se = Some e → 0 <= e < Z.of_nat (length str)) →
  0 <= measure se l (s + 1) q < measure se (l ++ [(q, s)]) st pt.
Proof.
  intros Hl Hb Hst Hall Hse. pose proof Hall as Hall'. apply Forall_app in Hall' as [Hall' Hqs]. apply Forall_cons in Hqs as [[Hq Hs] _]. cbn in Hq, Hs.
  pose proof (digits_ok se (l ++ [(q, s)]) st pt ltac:(rewrite length_app; cbn; lia) Hb Hst Hall Hse) as D1.
  pose proof (digits_ok se l (s + 1) q ltac:(lia) Hq ltac:(lia) Hall' Hse) as D2.
  assert (start_of se (l ++ [(q, s)]) st < start_of se l (s + 1) ∨ start_of se (l ++ [(q, s)]) st = start_of se l (s + 1)) as [Hlt|Heq].
  { unfold start_of. destruct se; [auto|]. destruct l as [|[q0 s0] l]; cbn; [left; lia|auto]. }
  - unfold digits in *. eapply (measure_lt se (l ++ [(q, s)]) st pt se l (s + 1) q []); [reflexivity|reflexivity|exact Hlt|exact D1|exact D2].
  - eapply (measure_lt se (l ++ [(q, s)]) st pt se l (s + 1) q (start_of se l (s + 1) :: l.*2) s (s + 1)); [| |lia|exact D1|exact D2].
    + unfold digits, stack_digits. rewrite Heq, fmap_app, <-!app_assoc. cbn [app fmap list_fmap snd]. reflexivity.
    + unfold digits, stack_digits. rewrite <-!app_assoc. cbn [app]. reflexivity.
Qed.

(** The end of an iteration. *)
Definition end_ok (L : nat) (e : rx_end) : Prop :=
  match e with
  | EUndef => False
  | ERet _ ps => length ps = L
  | EExit x => bd (x_pt x) ∧ length (x_prts x) = L
  end.

Lemma next_inv L x x' :
  rx_inv L x → x_st x < Z.of_nat (length str) → next_ok x x' →
  let x1 := Rx (x_st x' + 1) (x_pt x') (x_rcode x') (x_matched x') (x_sterr x') (x_errs x') (x_prts x') in
  rx_inv L x1 ∧ 0 <= mu x1 < mu x.
Proof.
  intros (l & El & Hl & Hb & HL & Hst & Hall & Hord & Hse) Hlt (Hb' & HL' & Hcase). cbn zeta. unfold mu, rx_inv. cbn [x_st x_pt x_sterr x_errs x_prts].
  rewrite El, stack_errs by done.
  assert (∀ q s l', l = (q, s) :: l' → s <= x_st x + 1 ∧ Forall (λ e : Z * Z, s <= e.2) l') as Hord'.
  { intros q s l' E. destruct (Hord q s l' E). split; [lia|done]. }
  destruct Hcase as [(Es & Ee & Hse')|[(Es & (q & Hq & Ee) & Ese)|(Es & Ee & Ese & Hpt)]].
  - rewrite Es, Ee, El, stack_errs by done. split; [|by apply measure_advance; try done; lia].
    exists l. split_and!; try done; try lia. intros e He. destruct Hse' as [E|E]; rewrite E in He; [auto|].
    destruct (x_sterr x); cbn in He; [auto|]. injection He as <-. lia.
  - rewrite Es, Ee, El, push_errs, Ese by done. destruct (Nat.ltb_spec (length l) 4) as [H4|H4].
    + rewrite stack_errs by (rewrite length_app; cbn; lia). split; [|by apply measure_push; try done; lia].
      exists (l ++ [(q, x_st x)]). split_and!; try done; try lia; [rewrite length_app; cbn; lia| |].
      * apply Forall_app. split; [done|]. constructor; [cbn; split; [done|lia]|constructor].
      * intros q0 s0 l' E. destruct l as [|[q1 s1] l1]; cbn in E; injection E as -> -> <-.
        -- split; [lia|constructor].
        -- destruct (Hord q0 s0 l1 eq_refl) as [? ?]. split; [lia|]. apply Forall_app. split; [done|]. constructor; [cbn; lia|constructor].
    + rewrite stack_errs by done. split; [|by apply measure_advance; try done; try lia; left].
      exists l. split_and!; try done; lia.
  - rewrite Es, Ee, El, Ese, stack_errs by done. replace (x_st x - 1 + 1) with (x_st x) by lia. split; [exists l; split_and!; try done; lia|].
    pose proof (digits_ok (x_sterr x) l (x_st x) (x_pt x) Hl Hb Hst Hall Hse) as D1.
    pose proof (digits_ok (x_sterr x) l (x_st x) (x_pt x') Hl Hb' Hst Hall Hse) as D2.
    eapply (measure_lt _ l _ _ _ l _ _ (start_of (x_sterr x) l (x_st x) :: stack_digits l (x_st x)) (x_pt x) (x_pt x') [] []);
      [reflexivity|reflexivity|done|exact D1|exact D2].
Qed.

Lemma error_inv L x x' :
  rx_inv L x → x_st x < Z.of_nat (length str) → err_ok x x' →
  match rx_error flags x' with
  | VNext (Rx st pt rc m se pe ps) =>
      let x1 := Rx (st + 1) pt rc m se pe ps in rx_inv L x1 ∧ 0 <= mu x1 < mu x
  | VRet _ ps => length ps = L
  | VErr _ => False
  end.
Proof.
  intros (l & El & Hl & Hb & HL & Hst & Hall & Hord & Hse) Hlt (Es & Ee & Ese & HL'). destruct x' as [st pt rc m se pe ps].
  cbn [x_st x_errs x_sterr x_prts] in *. unfold rx_error. rewrite Ee, El. unfold mu, rx_inv. cbn [x_st x_pt x_sterr x_errs x_prts]. subst st se.
  rewrite El, stack_errs by done. destruct l as [|[q s] l _] using rev_ind.
  - change (pop_err (errs_of [])) with (@None (Z * Z * errs)). cbn iota. destruct (has flags BEGIN_SET); [lia|].
    change (stack_of (errs_of [])) with (@nil (Z * Z)).
    assert (0 <= (match x_sterr x with Some e => e | None => x_st x end) < Z.of_nat (length str)) as Hn.
    { destruct (x_sterr x) as [e|] eqn:E; [by apply Hse|lia]. }
    split.
    { exists []. split_and!; try done; try lia. apply bd_zero. }
    pose proof (digits_ok (x_sterr x) [] (x_st x) (x_pt x) ltac:(cbn; lia) Hb ltac:(lia) Hall Hse) as D1.
    assert (∀ e, @None Z = Some e → 0 <= e < Z.of_nat (length str)) as Hnone by done.
    pose proof (digits_ok None [] ((match x_sterr x with Some e => e | None => x_st x end) + 1) 0 ltac:(cbn; lia) bd_zero ltac:(lia) Hall Hnone) as D2.
    eapply (measure_lt _ [] _ _ None [] _ _ []); [reflexivity|reflexivity| |exact D1|exact D2]. unfold start_of. destruct (x_sterr x); lia.
  - rewrite length_app in Hl. cbn in Hl. rewrite pop_errs by lia. cbn iota. rewrite stack_errs by lia.
    pose proof Hall as Hall'. apply Forall_app in Hall' as [Hall' Hqs]. apply Forall_cons in Hqs as [[Hq Hs] _]. cbn in Hq, Hs.
    split; [|apply measure_pop; try done; lia]. exists l. split_and!; try done; try lia.
    intros q0 s0 l' ->. destruct (Hord q0 s0 (l' ++ [(q, s)]) eq_refl) as [? Hf]. apply Forall_app in Hf as [? Hf]. apply Forall_cons in Hf as [? _].
    cbn in *. split; [lia|done].
Qed.

Lemma step_ok L x :
  (∀ cl, closure = Some cl → (length cl < L)%nat) → rx_inv L x →
  match rx_step pattern str closure flags x with
  | inl x' => rx_inv L x' ∧ 0 <= mu x' < mu x
  | inr e => end_ok L e
  end.
Proof.
  intros Hcl Hinv. pose proof Hinv as (l & El & Hl & Hb & HL & Hst & _). unfold rx_step.
  assert (∃ c, rd (mem str) (x_st x) = Some c ∧ (c = 0 ∨ char_ok c ∧ x_st x < Z.of_nat (length str))) as (c & -> & Hc).
  { unfold rd. rewrite (proj2 (Z.ltb_ge _ _)) by lia. unfold mem. destruct (decide (x_st x = Z.of_nat (length str))) as [->|Hne].
    - exists 0. rewrite Nat2Z.id, lookup_app_r, Nat.sub_diag by lia. auto.
    - rewrite lookup_app_l by lia. destruct (str !! Z.to_nat (x_st x)) as [c|] eqn:E; [|apply lookup_ge_None in E; lia].
      exists c. split; [done|]. right. split; [|lia]. by eapply Forall_lookup_1. }
  destruct (Z.eqb_spec c 0) as [->|Hc0]; [by split|]. destruct Hc as [?|[Hok Hlt]]; [done|].
  destruct (body_ok x c Hb) as (v & -> & Hv); [by intros cl Ecl; rewrite HL; auto|lia|done|].
  destruct v as [x'|r ps|x'].
  - pose proof (next_inv L x x' Hinv Hlt Hv) as Hn. by destruct x'.
  - cbn in *. congruence.
  - pose proof (error_inv L x x' Hinv Hlt Hv) as He. destruct (rx_error flags x') as [[]| |]; done.
Qed.

(** ** After the loop *)

Lemma skip_stars_ok fuel pt :
  bd pt → (Z.to_nat (Z.of_nat (length pattern) - pt) < fuel)%nat → ∃ pt', skip_stars pattern fuel pt = Some pt' ∧ bd pt'.
Proof.
  revert pt. induction fuel as [|fuel IH]; intros pt Hb Hf; [lia|]. cbn [skip_stars]. destruct (bd_rd pt Hb) as (p & E & _). rewrite E.
  cbn [mbind option_bind]. destruct (_ && _); [|eauto]. destruct (Z.eqb_spec p BACKSLASH) as [->|]; [|eauto].
  destruct (bd_class pt Hb E) as (k & _ & _ & Hb2). destruct (bd_rd (pt + 2) Hb2) as (q & Eq & Hq). rewrite Eq. cbn [mbind option_bind].
  destruct (Z.eqb_spec q 42) as [->|]; [|eauto]. assert (bd (pt + 3)) as Hb3 by (replace (pt + 3) with (pt + 2 + 1) by lia; by apply Hq).
  apply IH; [done|]. destruct Hb3 as [? _]. lia.
Qed.

Lemma endoffile_ok pt : bd pt → ∃ b pt', endoffile pattern pt = Some (b, pt') ∧ bd pt'.
Proof.
  intros Hb. unfold endoffile. destruct (bd_rd pt Hb) as (p & E & _). rewrite E. cbn [mbind option_bind].
  assert (bd (if prts p then pt + 1 else pt)) as Hb' by (destruct (prts p) eqn:Ep; [by eapply bd_prts|done]).
  destruct (bd_rd _ Hb') as (p2 & -> & _). cbn [mbind option_bind]. eauto.
Qed.

Lemma last_star_ok pt : bd pt → ∃ b pt', last_star pattern pt = Some (b, pt') ∧ bd pt'.
Proof.
  intros Hb. unfold last_star. destruct (bd_rd pt Hb) as (p & E & _). rewrite E. cbn [mbind option_bind].
  destruct (Z.eqb_spec p BACKSLASH) as [->|]; [|eauto]. destruct (bd_class pt Hb E) as (k & _ & _ & Hb2).
  destruct (bd_rd (pt + 2) Hb2) as (q & Eq & Hq). rewrite Eq. cbn [mbind option_bind].
  destruct (Z.eqb_spec q 42) as [->|]; [|eauto]. apply endoffile_ok. by apply Hq.
Qed.

Lemma cleanup_ok pt m : bd pt → ∃ b, rx_cleanup pattern pt m = Some b.
Proof.
  intros Hb. unfold rx_cleanup. destruct (endoffile_ok pt Hb) as (b & pt1 & -> & Hb1). cbn [mbind option_bind]. destruct b; [eauto|].
  destruct (bd_rd pt1 Hb1) as (p & E & _). rewrite E. cbn [mbind option_bind].
  assert (∃ b2 pt2, (if (p =? BACKSLASH) && m then
         q ← rd (mem pattern) (pt1 + 2);
         if isPlus q then '(b, pt) ← endoffile pattern (pt1 + 2 + 1); if b : bool then Some (true, pt) else last_star pattern pt
         else Some (false, pt1 + 2)
       else Some (false, pt1)) = Some (b2, pt2) ∧ bd pt2) as (b2 & pt2 & -> & Hb2).
  { destruct (Z.eqb_spec p BACKSLASH) as [->|]; cbn [andb]; [|eauto]. destruct m; [|eauto].
    destruct (bd_class pt1 Hb1 E) as (k & _ & _ & Hb2). destruct (bd_rd (pt1 + 2) Hb2) as (q & Eq & _). rewrite Eq. cbn [mbind option_bind].
    destruct (isPlus q) eqn:Ep; [|eauto]. pose proof (bd_plus _ _ Hb2 Eq Ep) as Hb3.
    destruct (endoffile_ok _ Hb3) as (b3 & pt3 & -> & Hb4). cbn [mbind option_bind]. destruct b3; [eauto|]. by apply last_star_ok. }
  cbn [mbind option_bind]. destruct b2; [eauto|]. destruct (last_star_ok pt2 Hb2) as (b3 & pt3 & -> & _). cbn. eauto.
Qed.

Lemma finish_ok L x :
  (∀ cl, closure = Some cl → (length cl < L)%nat) → bd (x_pt x) → length (x_prts x) = L →
  ∃ r ps, rx_finish pattern closure x = Some (r, ps) ∧ length ps = L.
Proof.
  intros Hcl Hb HL. destruct x as [st pt rc m se pe ps]. cbn [x_pt x_prts] in *. unfold rx_finish.
  assert (∃ pt' ps', (match closure with
     | None => Some (pt, ps)
     | Some _ => pt ← skip_stars pattern (S (length pattern)) pt; p ← rd (mem pattern) pt;
                 ps ← (if prts p then set_prt closure pt st ps else Some ps); Some (pt, ps)
     end) = Some (pt', ps') ∧ bd pt' ∧ length ps' = L) as (pt' & ps' & -> & Hb' & HL').
  { destruct closure as [cl|] eqn:Ecl; [|eauto]. destruct (skip_stars_ok (S (length pattern)) pt Hb) as (pt' & -> & Hb'); [destruct Hb; lia|].
    cbn [mbind option_bind]. destruct (bd_rd pt' Hb') as (p & -> & _). cbn [mbind option_bind]. rewrite <-Ecl in *.
    assert (∃ ps', (if prts p then set_prt closure pt' st ps else Some ps) = Some ps' ∧ length ps' = length ps) as (ps' & -> & Hl).
    { destruct (prts p); [|eauto]. apply set_prt_ok. by rewrite HL. }
    cbn [mbind option_bind]. exists pt', ps'. split_and!; congruence || done. }
  cbn [mbind option_bind]. destruct (cleanup_ok pt' m Hb') as (b & ->). cbn. eauto.
Qed.

(** The fuel is enough. *)
Lemma mu_bound L x : rx_inv L x → mu x < 2 ^ rx_bits pattern str.
Proof.
  intros (l & El & Hl & Hb & HL & Hst & Hall & Hord & Hse). unfold mu. rewrite El, stack_errs by done.
  pose proof (digits_ok (x_sterr x) l (x_st x) (x_pt x) Hl Hb Hst Hall Hse) as [D1 D2].
  unfold measure. set (B := rx_base pattern str) in *. assert (2 <= B) as HB by (unfold B, rx_base; lia).
  pose proof (num_bounds B _ ltac:(lia) D1 0) as [Hlo _]. rewrite D2 in Hlo.
  assert (B ^ 7 < 2 ^ rx_bits pattern str) as Hlt; [|lia].
  unfold rx_bits. fold B. pose proof (Z.log2_spec B ltac:(lia)) as [_ Hb2]. pose proof (Z.log2_nonneg B).
  replace (Z.of_nat (7 * S (Z.to_nat (Z.log2 B)))) with (Z.succ (Z.log2 B) * 7) by lia. rewrite Z.pow_mul_r by lia.
  apply Z.pow_lt_mono_l; lia.
Qed.

Lemma rx_inv_init ps : rx_inv (length ps) (Rx 0 0 (Some 0) false None no_errs ps).
Proof. exists []. cbn. split_and!; try done; try lia. apply bd_zero. Qed.

(** The matcher returns. *)
Lemma regex_total ps :
  (∀ cl, closure = Some cl → (length cl < length ps)%nat) →
  ∃ r ps', _OS_Regex pattern str closure flags ps = Some (r, ps') ∧ length ps' = length ps.
Proof.
  intros Hcl. unfold _OS_Regex. set (x0 := Rx 0 0 (Some 0) false None no_errs ps).
  assert (rx_inv (length ps) x0) as Hinv by apply rx_inv_init.
  destruct (loop_total (rx_step pattern str closure flags) (rx_inv (length ps)) (end_ok (length ps)) mu (λ x, step_ok (length ps) x Hcl)
    (rx_bits pattern str) x0 Hinv) as (e & He & Hok).
  { by apply (mu_bound (length ps)). }
  rewrite He. destruct e as [|r ps'|x]; cbn in Hok; [done|eauto|]. destruct Hok as [Hb HL]. by apply finish_ok.
Qed.
End total.

Lemma compile_cases flags pattern :
  Forall char_ok pattern → strlen pattern <= OS_PATTERN_MAXSIZE →
  match scan flags pattern 0 with
  | inl e => OSRegex_Compile (Some pattern) flags = Some (false, regex_empty e None) ∧ (e = OS_REGEX_BADREGEX ∨ e = OS_REGEX_BADPARENTHESIS)
  | inr (out, _, prts_size) =>
      let qs := regex_alt <$> split_on OR out in
      let cl := paren_from 0 <$> qs.*1 in
      let sub := (0 <? prts_size) && has flags OS_RETURN_SUBSTRING in
      wfp out ∧ Forall wfp qs.*1 ∧
      OSRegex_Compile (Some pattern) flags =
        Some (true, MkOSRegex 0 (Some pattern) qs.*1 qs.*2 (if sub then Some cl else None)
                      (if sub then (λ c, replicate (S (length c)) None) <$> cl else [])
                      (if sub then Z.of_nat (foldr Nat.max 0%nat (length <$> cl)) else 0) [])
  end.
Proof.
  intros Hok Hlen. unfold OSRegex_Compile. rewrite (proj2 (Z.ltb_ge _ _)) by done.
  destruct (scan flags pattern 0) as [e|[[out count] ps]] eqn:Es.
  - split; [done|]. by eapply (scan_error flags (length pattern) pattern 0).
  - destruct (regex_scan_spec flags (length pattern) pattern 0 out count ps (le_n _) Hok Es) as (Hw & -> & Hl).
    pose proof (regex_subs_spec out (S (length out)) [] [] (Z.of_nat (length (split_on OR out)) - 1 + 1) (Forall_nil_2 _) (not_elem_of_nil _)
      (wfp_char_ok _ Hw) ltac:(lia) ltac:(lia)) as Hq.
    cbn [app length] in Hq. change (Z.of_nat 0 + Z.of_nat 0) with 0 in Hq. change (Z.of_nat 0) with 0 in Hq. rewrite Hq. cbn [mbind option_bind].
    split_and!; try done. rewrite <-list_fmap_compose. apply Forall_fmap. eapply Forall_impl; [by apply wfp_split|].
    intros cur Hcur. by apply regex_alt_wf.
Qed.

(** * Claims *)

(** C34: Compilation either fails with one of its two error codes and leaves
    nothing allocated, or gives well-formed alternatives: a backslash is always
    followed by the code of a class, the flags are those of the anchors, the
    closures list the parentheses of each alternative, and d_prts_str and the
    substrings have room for them. *)
Theorem OSRegex_Compile_wf flags pattern :
  Forall char_ok pattern → strlen pattern <= OS_PATTERN_MAXSIZE →
  (∃ e, OSRegex_Compile (Some pattern) flags = Some (false, regex_empty e None) ∧
        (e = OS_REGEX_BADREGEX ∨ e = OS_REGEX_BADPARENTHESIS)) ∨
  (∃ reg, OSRegex_Compile (Some pattern) flags = Some (true, reg) ∧ or_patterns reg ≠ [] ∧
     Forall wfp (or_patterns reg) ∧ length (or_flags reg) = length (or_patterns reg) ∧
     Forall (λ f, f ∈ [0; BEGIN_SET; END_SET; Z.lor BEGIN_SET END_SET]) (or_flags reg) ∧
     match or_closure reg with
     | None => True
     | Some cl => cl = paren_from 0 <$> or_patterns reg ∧ length <$> or_prts_str reg = S ∘ length <$> cl ∧
                  Forall (λ c, Z.of_nat (length c) <= or_nsub reg) cl
     end).
Proof.
  intros Hok Hlen. pose proof (compile_cases flags pattern Hok Hlen) as Hc.
  destruct (scan flags pattern 0) as [e|[[out count] ps]]; [left; by exists e|right].
  destruct Hc as (Hw & Hws & ->). eexists. split; [reflexivity|]. cbn [or_patterns or_flags or_closure or_prts_str or_nsub]. split_and!.
  - pose proof (split_on_ne OR out). by destruct (split_on OR out).
  - done.
  - by rewrite !length_fmap.
  - rewrite <-list_fmap_compose. apply Forall_fmap, Forall_forall. intros cur _. cbn. unfold regex_alt.
    destruct (anchors cur) as [[b m] e]. destruct b, e; cbn; set_solver.
  - destruct ((0 <? ps) && has flags OS_RETURN_SUBSTRING); [|done]. split_and!; [done| |].
    + rewrite <-list_fmap_compose. apply list_fmap_ext. intros i c _. cbn. by rewrite length_replicate.
    + apply Forall_forall. intros c Hc. induction (paren_from 0 <$> (regex_alt <$> split_on OR out).*1) as [|d l IH]; [by apply not_elem_of_nil in Hc|].
      cbn. apply elem_of_cons in Hc as [->|Hc]; [lia|]. specialize (IH Hc). lia.
Qed.

Lemma OSRegex_Compile_wf_witness :
  (* "^a(\d+)|b$" *)
  let pattern := [94; 97; 40; 92; 100; 43; 41; 124; 98; 36] in
  ∃ reg, OSRegex_Compile (Some pattern) OS_RETURN_SUBSTRING = Some (true, reg) ∧ Forall wfp (or_patterns reg) ∧
    or_flags reg = [BEGIN_SET; END_SET] ∧ or_closure reg = Some [[1; 5]; []].
Proof.
  intros pattern. destruct (OSRegex_Compile_wf OS_RETURN_SUBSTRING pattern) as [(e & He & _)|(reg & Hc & _ & Hw & _)].
  - unfold pattern. repeat (constructor; [unfold char_ok; lia|]). constructor.
  - by vm_compute.
  - exfalso. vm_compute in He. discriminate.
  - exists reg. split; [exact Hc|]. split; [exact Hw|]. vm_compute in Hc. injection Hc as <-. done.
Defined.

(** C16: The matcher terminates and stays within its buffers: on every string, for
    every alternative that OSRegex_Compile can produce, with or without the
    places of its parentheses, _OS_Regex returns after a bounded number of
    iterations, all its reads of the pattern and of the string and its writes
    to prts_str being in bounds; so OSRegex_Execute without substrings always
    returns. *)
Theorem OSRegex_Execute_total flags pattern reg s :
  Forall char_ok pattern → Forall char_ok s → strlen pattern <= OS_PATTERN_MAXSIZE →
  OSRegex_Compile (Some pattern) flags = Some (true, reg) →
  (∀ p f, p ∈ or_patterns reg → ∃ r ps,
     _OS_Regex p s (Some (paren_from 0 p)) f (replicate (S (length (paren_from 0 p))) None) = Some (r, ps)) ∧
  (or_closure reg = None → ∃ r, OSRegex_Execute (Some s) reg = Some (r, [])).
Proof.
  intros Hok Hs Hlen Hc. assert (Forall wfp (or_patterns reg)) as Hw.
  { pose proof (compile_cases flags pattern Hok Hlen) as Hcs. destruct (scan flags pattern 0) as [e|[[out count] ps]].
    - destruct Hcs as [E _]. congruence.
    - destruct Hcs as (_ & Hw & E). rewrite Hc in E. injection E as ->. exact Hw. }
  split.
  - intros p f Hp. rewrite Forall_forall in Hw.
    destruct (regex_total p s (Some (paren_from 0 p)) f (Hw p Hp) Hs (replicate (S (length (paren_from 0 p))) None)) as (r & ps & Hr & _); [|eauto].
    intros cl [= <-]. rewrite length_replicate. lia.
  - intros Hn. cbn [OSRegex_Execute]. rewrite Hn.
    assert (∃ r, execute_plain s (zip (or_patterns reg) (or_flags reg)) = Some r) as (r & ->); [|by eexists].
    revert Hw. generalize (or_flags reg). induction (or_patterns reg) as [|p ps IH]; intros fs Hw; [by eexists|]. destruct fs as [|f fs]; [by eexists|].
    apply Forall_cons in Hw as [Hp Hw]. cbn [zip zip_with execute_plain].
    destruct (regex_total p s None f Hp Hs []) as (r & ps' & -> & _); [done|]. cbn [mbind option_bind]. destruct r; [by eexists|]. by apply IH.
Qed.

Lemma OSRegex_Execute_total_witness :
  (* "\w+@\d*x|y" against "a@12" *)
  let pattern := [92; 119; 43; 64; 92; 100; 42; 120; 124; 121] in
  ∃ reg r, OSRegex_Compile (Some pattern) 0 = Some (true, reg) ∧ OSRegex_Execute (Some [97; 64; 49; 50]) reg = Some (r, []).
Proof.
  intros pattern. assert (∃ reg, OSRegex_Compile (Some pattern) 0 = Some (true, reg) ∧ or_closure reg = None) as (reg & Hc & Hn).
  { eexists. split; [vm_compute; reflexivity|reflexivity]. }
  destruct (OSRegex_Execute_total 0 pattern reg [97; 64; 49; 50]) as [_ Hx].
  - unfold pattern. repeat (constructor; [unfold char_ok; lia|]). constructor.
  - repeat (constructor; [unfold char_ok; lia|]). constructor.
  - by vm_compute.
  - exact Hc.
  - destruct (Hx Hn) as (r & Hr). exists reg, r. split; [exact Hc|exact Hr].
Defined.
