(* ===== verification/OsRegexSearch.v ===== *)
(** On patterns of characters and classes without repetition or parentheses
    the matcher of os_regex_execute.c is a search from left to right; and the
    cases in which it departs from what its patterns mean. *)

From S2P Require Import Prelude OsMaps OsMatch OsMatchSpec OsRegex OsRegexSpec.

(** ** Patterns as items *)

Inductive item := Lit (p : Z) | Cls (k : Z).

Definition encode1 (it : item) : cstr := match it with Lit p => [p] | Cls k => [BACKSLASH; k] end.
Definition encode (l : list item) : cstr := l ≫= encode1.

(** What an item stands for. *)
Definition imatch (it : item) (c : Z) : bool :=
  match it with Lit p => (tolower c =? p) && (p <? 128) | Cls k => class_of k c end.
Fixpoint match_at (l : list item) (s : cstr) : bool :=
  match l, s with
  | [], _ => true
  | it :: l, c :: s => imatch it c && match_at l s
  | _ :: _, [] => false
  end.

(** A class is not followed by a plus or a star. *)
Definition item_ok (it : item) (l : list item) : Prop :=
  match it with
  | Lit p => char_ok p ∧ p ≠ BACKSLASH ∧ p ≠ 40
  | Cls k => 1 <= k <= 15 ∧ match l with Lit p :: _ => isPlus p = false | _ => True end
  end.
Fixpoint simple (l : list item) : Prop := match l with [] => True | it :: l => item_ok it l ∧ simple l end.

Lemma encode_app a b : encode (a ++ b) = encode a ++ encode b.
Proof. unfold encode. apply bind_app. Qed.

Lemma simple_wfp l : simple l → wfp (encode l).
Proof.
  induction l as [|it l IH]; [done|]. intros [Hi Hl]. specialize (IH Hl). destruct it as [p|k]; cbn in *.
  - destruct Hi as (? & ? & ?). by rewrite (proj2 (Z.eqb_neq p BACKSLASH)).
  - tauto.
Qed.

Lemma simple_app a b : simple (a ++ b) → simple b.
Proof. induction a as [|it a IH]; [done|]. intros [_ H]. auto. Qed.

Lemma match_at_snoc l it s c r : length l = length s → match_at (l ++ [it]) (s ++ c :: r) = match_at l s && imatch it c.
Proof.
  revert s. induction l as [|i l IH]; intros [|d s] Hl; try done; cbn in *.
  - by rewrite andb_true_r.
  - rewrite IH by lia. by rewrite andb_assoc.
Qed.

Lemma match_at_length l s : match_at l s = true → (length l <= length s)%nat.
Proof.
  revert s. induction l as [|i l IH]; intros [|d s]; cbn; try done; try lia. intros [_ H]%andb_true_iff. apply IH in H. lia.
Qed.

Lemma match_at_app l1 l2 s1 s2 : length l1 = length s1 → match_at (l1 ++ l2) (s1 ++ s2) = match_at l1 s1 && match_at l2 s2.
Proof.
  revert s1. induction l1 as [|i l1 IH]; intros [|d s1] Hl; try done; cbn in *. rewrite IH by lia. by rewrite andb_assoc.
Qed.

Section search.
Context (l : list item) (s : cstr) (flags : Z).
Context (Hne : l ≠ []) (Hl : simple l) (Hs : Forall char_ok s).

(** A match that starts at [i]. *)
Definition hit (i : nat) : Prop :=
  match_at l (drop i s) = true ∧ (has flags END_SET = true → (i + length l = length s)%nat) ∧ (has flags BEGIN_SET = true → i = 0%nat).

Definition answer (r : option Z) : Prop :=
  match r with
  | Some z => ∃ i, z = Z.of_nat i + length l - 1 ∧ hit i ∧ ∀ j, (j < i)%nat → ¬ hit j
  | None => ∀ i, ¬ hit i
  end.

(** [k] items have matched from [i] on; no match starts before [i]. *)
Definition search_inv (x : rx) : Prop :=
  ∃ i l1 l2 s1 s2, l = l1 ++ l2 ∧ drop i s = s1 ++ s2 ∧ (i <= length s)%nat ∧ length l1 = length s1 ∧ match_at l1 s1 = true ∧
    (∀ j, (j < i)%nat → ¬ hit j) ∧ (has flags BEGIN_SET = true → i = 0%nat) ∧
    x = Rx (Z.of_nat i + length s1) (Z.of_nat (length (encode l1)))
           (match l1 with [] => match i with O => Some 0 | _ => None end | _ => Some (Z.of_nat i + length s1 - 1) end)
           false (match l1 with [] => None | _ => Some (Z.of_nat i) end) no_errs [].

Definition search_end (e : rx_end) : Prop :=
  match e with
  | EUndef => False
  | ERet r ps => ps = [] ∧ answer r
  | EExit x => search_inv x ∧ x_st x = Z.of_nat (length s)
  end.

Lemma rd_item l1 l2 (j : nat) : rd (mem (encode (l1 ++ l2))) (Z.of_nat (length (encode l1)) + j) = mem (encode l2) !! j.
Proof. rewrite encode_app. apply rd_mem_app. Qed.

Lemma rd_item0 l1 l2 : rd (mem (encode (l1 ++ l2))) (Z.of_nat (length (encode l1))) = mem (encode l2) !! 0%nat.
Proof. rewrite encode_app. apply rd_mem_mid. Qed.

Lemma rd_str (i : nat) s1 s2 : drop i s = s1 ++ s2 → (i <= length s)%nat → rd (mem s) (Z.of_nat i + length s1) = mem s2 !! 0%nat.
Proof.
  intros Hd Hi. rewrite <-(take_drop i s) at 1. rewrite Hd, app_assoc.
  replace (Z.of_nat i + Z.of_nat (length s1)) with (Z.of_nat (length (take i s ++ s1))) by (rewrite length_app, length_take; lia).
  apply rd_mem_mid.
Qed.

(** What happens when the character or the end of the string is not what the
    pattern asks for. *)
Lemma fail_step i l1 l2 s1 c s2 rc m :
  l = l1 ++ l2 → drop i s = s1 ++ c :: s2 → length l1 = length s1 → (∀ j, (j < i)%nat → ¬ hit j) →
  (has flags BEGIN_SET = true → i = 0%nat) → ¬ hit i →
  match rx_error flags (Rx (Z.of_nat i + length s1) m rc false (match l1 with [] => None | _ => Some (Z.of_nat i) end) no_errs []) with
  | VNext (Rx st pt rc m se pe ps) => search_inv (Rx (st + 1) pt rc m se pe ps)
  | VRet r ps => ps = [] ∧ answer r
  | VErr _ => False
  end.
Proof.
  intros El Hd Hlen Hno Hb Hi. assert (i < length s)%nat as Hil.
  { apply (f_equal length) in Hd. rewrite length_drop, length_app in Hd. cbn in Hd. lia. }
  cbn [rx_error]. change (pop_err no_errs) with (@None (Z * Z * errs)). cbn iota. destruct (has flags BEGIN_SET) eqn:EB.
  - split; [done|]. intros j Hj. assert (j = 0%nat) as -> by (by apply Hj). specialize (Hb eq_refl). by subst i.
  - replace ((match (match l1 with [] => None | _ => Some (Z.of_nat i) end) with Some e => e | None => Z.of_nat i + length s1 end))
      with (Z.of_nat i) by (destruct l1; [destruct s1; [cbn; lia|done]|done]).
    exists (S i), [], l, [], (drop (S i) s). split_and!; try done; try lia.
    + intros j Hj. destruct (decide (j = i)) as [->|]; [done|]. apply Hno. lia.
    + by rewrite EB.
    + cbn. f_equal; lia.
Qed.

(** The next item and the next character. *)
Lemma item_step i l1 it l2 s1 c s2 rc se :
  l = l1 ++ it :: l2 → drop i s = s1 ++ c :: s2 → length l1 = length s1 →
  let x := Rx (Z.of_nat i + length s1) (Z.of_nat (length (encode l1))) rc false se no_errs [] in
  rx_body (encode l) s None flags x c =
  Some (if imatch it c
        then VNext (Rx (Z.of_nat i + length s1) (Z.of_nat (length (encode (l1 ++ [it])))) (Some (Z.of_nat i + length s1)) false
                       (mark_error se (Z.of_nat i + length s1)) no_errs [])
        else VErr x).
Proof.
  intros El Hd Hlen x. assert (char_ok c) as Hc.
  { pose proof (Forall_drop _ i _ Hs) as Hds. rewrite Hd in Hds. apply Forall_app in Hds as [_ Hds]. by apply Forall_cons in Hds as [? _]. }
  assert (byte c) as Hby by (unfold char_ok in Hc; unfold byte; lia).
  assert (simple (it :: l2)) as [Hit Hl2] by (apply (simple_app l1); by rewrite <-El).
  unfold rx_body, x, rx_switch. rewrite El, rd_item0. destruct it as [p|k]; cbn [encode] in *.
  - destruct Hit as (Hp & Hpb & Hp4). change (mem (encode (Lit p :: l2)) !! 0%nat) with (Some p). cbn [mbind option_bind]. unfold char_ok in Hp.
    rewrite (proj2 (Z.eqb_neq p 0)) by lia. unfold prts. rewrite (proj2 (Z.eqb_neq p 40)) by done. cbn [mbind option_bind].
    rewrite rd_item0. change (mem (encode (Lit p :: l2)) !! 0%nat) with (Some p). cbn [mbind option_bind].
    rewrite (proj2 (Z.eqb_neq p BACKSLASH)) by done. cbn [imatch].
    replace (schar p =? charmap_at c) with ((tolower c =? p) && (p <? 128)).
    2: { rewrite charmap_tolower by done. pose proof (tolower_byte c Hby) as Ht. unfold byte in Ht. unfold schar.
         destruct (Z.ltb_spec p 128); [rewrite andb_true_r; apply Z.eqb_sym|]. rewrite andb_false_r. symmetry. apply Z.eqb_neq. lia. }
    destruct (_ && _); [|done]. rewrite encode_app, length_app. cbn. do 3 f_equal. lia.
  - destruct Hit as [Hk Hnp]. change (mem (encode (Cls k :: l2)) !! 0%nat) with (Some BACKSLASH). cbn [mbind option_bind].
    change (BACKSLASH =? 0) with false. change (prts BACKSLASH) with false. cbn [mbind option_bind].
    rewrite rd_item0. change (mem (encode (Cls k :: l2)) !! 0%nat) with (Some BACKSLASH). cbn [mbind option_bind]. rewrite Z.eqb_refl.
    pose proof (rd_item l1 (Cls k :: l2) 1) as H1. change (mem (encode (Cls k :: l2)) !! 1%nat) with (Some k) in H1. change (Z.of_nat 1) with 1 in H1.
    rewrite H1. cbn [mbind option_bind]. rewrite Regex_class by done. cbn [mbind option_bind imatch].
    pose proof (rd_item l1 (Cls k :: l2) 2) as H2. change (mem (encode (Cls k :: l2)) !! 2%nat) with (mem (encode l2) !! 0%nat) in H2. change (Z.of_nat 2) with 2 in H2.
    pose proof (rd_item l1 (Cls k :: l2) 3) as H3. change (mem (encode (Cls k :: l2)) !! 3%nat) with (mem (encode l2) !! 1%nat) in H3. change (Z.of_nat 3) with 3 in H3.
    assert (∃ n, mem (encode l2) !! 0%nat = Some n ∧ isPlus n = false ∧ (n ≠ 0 → ∃ b, mem (encode l2) !! 1%nat = Some b)) as (n & En & Hn & Hb).
    { destruct l2 as [|[p|k'] l2]; [by exists 0| |by exists BACKSLASH; eauto]. exists p. split_and!; [done|done|]. intros _.
      change (mem (encode (Lit p :: l2)) !! 1%nat) with (mem (encode l2) !! 0%nat). unfold mem. destruct (encode l2); cbn; eauto. }
    rewrite En in H2. destruct (class_of k c).
    + unfold rx_class. rewrite H2. cbn [mbind option_bind]. rewrite Hn. cbn [negb]. rewrite encode_app, length_app. cbn. do 3 f_equal. lia.
    + unfold rx_noclass. rewrite H2. cbn [mbind option_bind].
      assert (∃ z, (if n =? 0 then Some true else b ← rd (mem (encode (l1 ++ Cls k :: l2))) (Z.of_nat (length (encode l1)) + 3); Some (b =? 0)) = Some z) as (z & ->).
      { destruct (Z.eqb_spec n 0) as [->|Hn0]; [eauto|]. rewrite H3. destruct (Hb Hn0) as (b & ->). cbn. eauto. }
      cbn [mbind option_bind]. rewrite !andb_false_r. cbn [andb]. unfold isPlus in Hn. apply orb_false_iff in Hn as [_ ->]. done.
Qed.

Lemma search_step x :
  search_inv x → match rx_step (encode l) s None flags x with inl x' => search_inv x' | inr e => search_end e end.
Proof.
  intros (i & l1 & l2 & s1 & s2 & El & Hd & Hi & Hlen & Hm & Hno & Hb & Ex). pose proof Ex as Ex0. subst x. unfold rx_step. cbn [x_st].
  rewrite (rd_str i s1 s2 Hd Hi). destruct s2 as [|c s2].
  { cbn. split; [|rewrite app_nil_r in Hd; apply (f_equal length) in Hd; rewrite length_drop in Hd; cbn; lia].
    exists i, l1, l2, s1, []. split_and!; done. }
  assert (char_ok c) as Hc.
  { pose proof (Forall_drop _ i _ Hs) as Hds. rewrite Hd in Hds. apply Forall_app in Hds as [_ Hds]. by apply Forall_cons in Hds as [? _]. }
  change (mem (c :: s2) !! 0%nat) with (Some c). cbn iota. unfold char_ok in Hc. rewrite (proj2 (Z.eqb_neq c 0)) by lia.
  set (rc := match l1 with [] => match i with O => Some 0 | _ => None end | _ => Some (Z.of_nat i + length s1 - 1) end) in *.
  set (se := match l1 with [] => None | _ => Some (Z.of_nat i) end) in *.
  destruct l2 as [|it l2].
  - rewrite app_nil_r in El. destruct l1 as [|it0 l0] eqn:El1; [done|]. rewrite <-El1 in *.
    assert (match_at l (drop i s) = true) as Hfull.
    { rewrite El, Hd. pose proof (match_at_app l1 [] s1 (c :: s2) Hlen) as E. rewrite app_nil_r in E. rewrite E, Hm. done. }
    assert (rd (mem (encode l)) (Z.of_nat (length (encode l1))) = Some 0) as Hrd by (rewrite El, <-(app_nil_r l1) at 1; by rewrite rd_item0).
    unfold rx_body, rx_switch. rewrite Hrd. cbn [mbind option_bind Z.eqb]. unfold at_end. rewrite (proj2 (Z.eqb_neq c 0)) by lia. rewrite andb_false_r, orb_false_r.
    destruct (has flags END_SET) eqn:EE; cbn [negb mbind option_bind].
    + rewrite Hrd. cbn [mbind option_bind]. change (0 =? BACKSLASH) with false. cbn iota.
      rewrite charmap_tolower by (unfold byte; lia).
      assert (schar 0 =? tolower c = false) as ->.
      { apply Z.eqb_neq. unfold schar, tolower. destruct (Z.leb_spec 65 c), (Z.leb_spec c 90); cbn; lia. }
      assert (¬ hit i) as Hnh.
      { intros (_ & He & _). specialize (He EE). apply (f_equal length) in Hd. rewrite length_drop, length_app in Hd. cbn in Hd. rewrite El in He. lia. }
      assert (l = l1 ++ []) as El' by (by rewrite app_nil_r).
      pose proof (fail_step i l1 [] s1 c s2 rc (Z.of_nat (length (encode l1))) El' Hd Hlen Hno Hb Hnh) as Hf.
      unfold se. rewrite El1 in *. destruct (rx_error _ _) as [[]| |]; exact Hf.
    + assert (rc = Some (Z.of_nat i + length s1 - 1)) as -> by done. split; [done|]. exists i. split; [rewrite El, Hlen; done|]. split; [|done]. split; [done|]. split; [by rewrite EE|done].
  - rewrite (item_step i l1 it l2 s1 c s2 rc se El Hd Hlen). destruct (imatch it c) eqn:Ei.
    + exists i, (l1 ++ [it]), l2, (s1 ++ [c]), s2. rewrite <-!app_assoc. cbn [app]. split_and!; try done.
      * rewrite !length_app. cbn. lia.
      * rewrite match_at_snoc by done. by rewrite Hm, Ei.
      * unfold se, rc. rewrite length_app. cbn [length]. destruct l1 as [|i0 l0]; cbn [app mark_error].
        -- destruct s1; [|done]. cbn. f_equal; try (f_equal; lia); lia.
        -- f_equal; try (f_equal; lia); lia.
    + assert (¬ hit i) as Hnh.
      { intros [Hf _]. rewrite El, Hd, match_at_app in Hf by done. cbn in Hf. rewrite Ei in Hf. by rewrite andb_false_r in Hf. }
      pose proof (fail_step i l1 (it :: l2) s1 c s2 rc (Z.of_nat (length (encode l1))) El Hd Hlen Hno Hb Hnh) as Hf.
      unfold se. destruct (rx_error _ _) as [[]| |]; exact Hf.
Qed.

Lemma search_start : search_inv (Rx 0 0 (Some 0) false None no_errs []).
Proof. exists 0%nat, [], l, [], s. split_and!; done || lia. Qed.

(** At the end of the string. *)
Lemma search_finish x :
  search_inv x → x_st x = Z.of_nat (length s) → ∃ r, rx_finish (encode l) None x = Some (r, []) ∧ answer r.
Proof.
  intros (i & l1 & l2 & s1 & s2 & El & Hd & Hi & Hlen & Hm & Hno & Hb & ->) Hst. cbn [x_st] in Hst.
  assert (s2 = []) as ->.
  { apply nil_length_inv. apply (f_equal length) in Hd. rewrite length_drop, length_app in Hd. lia. }
  rewrite app_nil_r in Hd. unfold rx_finish, rx_cleanup, endoffile. cbn [mbind option_bind]. rewrite El, rd_item0. destruct l2 as [|it l2].
  - cbn [encode mbind list_bind mem app lookup list_lookup option_bind]. change (prts 0) with false. cbn iota. rewrite rd_item0. cbn.
    eexists. split; [done|]. rewrite app_nil_r in El. destruct l1; [done|]. exists i. split; [rewrite El, Hlen; done|]. split; [|done].
    split; [by rewrite El, Hd|]. split; [|done]. intros _. rewrite El, Hlen. lia.
  - assert (simple (it :: l2)) as [Hit Hl2] by (apply (simple_app l1); by rewrite <-El).
    assert (answer None) as Hnone.
    { intros j Hj. destruct (decide (j < i)%nat); [by apply (Hno j)|]. destruct Hj as [Hj _]. apply match_at_length in Hj.
      rewrite length_drop, El, length_app in Hj. cbn in Hj. lia. }
    exists None. split; [|done]. destruct it as [p|k].
    + destruct Hit as (Hp & Hpb & Hp4). pose proof (rd_item0 l1 (Lit p :: l2)) as H0.
      change (mem (encode (Lit p :: l2)) !! 0%nat) with (Some p) in H0 |- *. unfold char_ok in Hp.
      repeat (cbn [mbind option_bind]; unfold prts, last_star; rewrite ?H0, ?(proj2 (Z.eqb_neq p 40)), ?(proj2 (Z.eqb_neq p 0)),
        ?(proj2 (Z.eqb_neq p BACKSLASH)), ?andb_false_r by done || lia). done.
    + destruct Hit as [Hk Hnp]. pose proof (rd_item0 l1 (Cls k :: l2)) as H0. pose proof (rd_item l1 (Cls k :: l2) 2) as H2.
      change (mem (encode (Cls k :: l2)) !! 0%nat) with (Some BACKSLASH) in H0 |- *.
      change (mem (encode (Cls k :: l2)) !! 2%nat) with (mem (encode l2) !! 0%nat) in H2. change (Z.of_nat 2) with 2 in H2.
      assert (∃ n, mem (encode l2) !! 0%nat = Some n ∧ (n =? 42) = false) as (n & En & Hn).
      { destruct l2 as [|[p|k'] l2]; [by exists 0| |by exists BACKSLASH]. exists p. split; [done|]. unfold isPlus in Hnp. by apply orb_false_iff in Hnp as []. }
      rewrite En in H2. unfold last_star.
      repeat (cbn [mbind option_bind]; change (prts BACKSLASH) with false; change (BACKSLASH =? 0) with false; cbn iota;
        rewrite ?H0, ?H2, ?Hn, ?Z.eqb_refl, ?andb_false_r). done.
Qed.

Lemma search_total : ∃ r, _OS_Regex (encode l) s None flags [] = Some (r, []) ∧ answer r.
Proof.
  pose proof (simple_wfp l Hl) as Hwf. set (x0 := Rx 0 0 (Some 0) false None no_errs []).
  destruct (loop_total (rx_step (encode l) s None flags) (λ x, rx_inv (encode l) s 0 x ∧ search_inv x) search_end (mu (encode l) s))
    with (d := rx_bits (encode l) s) (s := x0) as (e & He & Hok).
  - intros x [Hi Hx]. pose proof (step_ok (encode l) s None flags Hwf Hs 0 x ltac:(done) Hi) as H1. pose proof (search_step x Hx) as H2.
    destruct (rx_step _ _ _ _ x); [tauto|done].
  - split; [exact (rx_inv_init (encode l) s Hwf [])|apply search_start].
  - apply (mu_bound (encode l) s 0). exact (rx_inv_init (encode l) s Hwf []).
  - unfold _OS_Regex. fold x0. rewrite He. destruct e as [|r ps|x]; cbn in Hok; [done| |].
    + destruct Hok as [-> ?]. eauto.
    + destruct Hok as [? ?]. by apply search_finish.
Qed.
End search.

(** ** Patterns as text *)

Definition letter (k : Z) : Z := nth (Z.to_nat (k - 1)) [100; 119; 115; 112; 40; 41; 92; 68; 87; 83; 46; 116; 36; 124; 60] 0.
Definition text1 (it : item) : cstr := match it with Lit p => [p] | Cls k => [BACKSLASH; letter k] end.
Definition lower (it : item) : item := match it with Lit p => Lit (tolower p) | Cls k => Cls k end.

(** An alternative: its anchors and its items. *)
Record alt := Alt { a_begin : bool; a_items : list item; a_end : bool }.
Definition alt_lits (a : alt) : list item :=
  (if a_begin a then [Lit BEGINREGEX] else []) ++ a_items a ++ (if a_end a then [Lit ENDREGEX] else []).
Definition alt_text (a : alt) : cstr := alt_lits a ≫= text1.
Fixpoint join_or (ps : list cstr) : cstr := match ps with [] => [] | [p] => p | p :: ps => p ++ OR :: join_or ps end.
Definition pattern_text (alts : list alt) : cstr := join_or (alt_text <$> alts).

Definition lit_ok (it : item) : Prop :=
  match it with Lit p => char_ok p ∧ p ∉ [40; 41; OR; BACKSLASH] | Cls k => 1 <= k <= 15 end.
Definition alt_ok (a : alt) : Prop :=
  a_items a ≠ [] ∧ simple (lower <$> a_items a) ∧ Forall lit_ok (a_items a) ∧
  (a_begin a = false → head (a_items a) ≠ Some (Lit BEGINREGEX)) ∧ (a_end a = false → last (a_items a) ≠ Some (Lit ENDREGEX)).

(** The reference: some place of the string at which the items match, at the
    anchors if there are any. *)
Definition alt_finds (a : alt) (s : cstr) : bool :=
  existsb (λ i, match_at (lower <$> a_items a) (drop i s) && (negb (a_end a) || (i + length (a_items a) =? length s)%nat) &&
                (negb (a_begin a) || (i =? 0)%nat)) (seq 0 (S (length s))).

Lemma letter_code k : 1 <= k <= 15 → class_code (letter k) = Some k ∧ char_ok (letter k).
Proof.
  intros Hk. assert (k ∈ [1; 2; 3; 4; 5; 6; 7; 8; 9; 10; 11; 12; 13; 14; 15]) as Hin by (rewrite !elem_of_cons; lia).
  repeat (apply elem_of_cons in Hin as [->|Hin]; [done|]). by apply not_elem_of_nil in Hin.
Qed.

Lemma tolower_ne c d : tolower c = d → ¬ (97 <= d <= 122) → c = d.
Proof. unfold tolower. destruct (Z.leb_spec 65 c), (Z.leb_spec c 90); cbn; lia. Qed.

Lemma scan_item it rest :
  lit_ok it → scan 0 (text1 it ++ rest) 0 =
  match scan 0 rest 0 with inl e => inl e | inr (o, c, p) => inr (encode1 (lower it) ++ o, c, p) end.
Proof.
  destruct it as [p|k]; cbn [lit_ok text1 encode1 lower app scan].
  - rewrite !not_elem_of_cons. intros (Hp & H1 & H2 & H3 & H4 & _). rewrite !(proj2 (Z.eqb_neq p _)) by done.
    change (has 0 OS_CASE_SENSITIVE) with false. cbn [Z.eqb negb andb]. rewrite charmap_tolower by (unfold char_ok in Hp; unfold byte; lia).
    rewrite (proj2 (Z.eqb_neq (tolower p) OR)) by (intros E%tolower_ne; [done|unfold OR; lia]).
    cbn [andb]. destruct (scan 0 rest 0) as [|[[o c] q]]; [done|]. by rewrite Z.add_0_r.
  - intros Hk. rewrite Z.eqb_refl. destruct (letter_code k Hk) as [-> _]. by destruct (scan 0 rest 0) as [|[[o c] q]].
Qed.

Lemma scan_items l rest :
  Forall lit_ok l → scan 0 ((l ≫= text1) ++ rest) 0 =
  match scan 0 rest 0 with inl e => inl e | inr (o, c, p) => inr (encode (lower <$> l) ++ o, c, p) end.
Proof.
  induction l as [|it l IH]; intros Hl; [cbn; by destruct (scan 0 rest 0) as [|[[o c] q]]|]. apply Forall_cons in Hl as [Hi Hl].
  cbn [mbind list_bind]. rewrite <-app_assoc, scan_item by done. rewrite IH by done. destruct (scan 0 rest 0) as [|[[o c] q]]; [done|].
  cbn. by rewrite app_assoc.
Qed.

Lemma alt_lits_ok a : alt_ok a → Forall lit_ok (alt_lits a).
Proof.
  intros (_ & _ & Hl & _). unfold alt_lits. assert (lit_ok (Lit BEGINREGEX) ∧ lit_ok (Lit ENDREGEX)) as [H1 H2].
  { unfold lit_ok, char_ok, BEGINREGEX, ENDREGEX, OR, BACKSLASH. rewrite !not_elem_of_cons. split_and!; try lia; apply not_elem_of_nil. }
  apply Forall_app. split; [destruct (a_begin a); [by apply Forall_singleton|constructor]|]. apply Forall_app. split; [done|].
  destruct (a_end a); [by apply Forall_singleton|constructor].
Qed.

Lemma scan_alts alts :
  alts ≠ [] → Forall alt_ok alts →
  ∃ c p, scan 0 (pattern_text alts) 0 = inr (join_or ((λ a, encode (lower <$> alt_lits a)) <$> alts), c, p).
Proof.
  unfold pattern_text. induction alts as [|a alts IH]; intros Hne Ha; [done|]. apply Forall_cons in Ha as [Ha Has].
  pose proof (alt_lits_ok a Ha) as Hl. destruct alts as [|b alts].
  - cbn [fmap list_fmap join_or]. pose proof (scan_items (alt_lits a) [] Hl) as E. rewrite !app_nil_r in E. unfold alt_text. rewrite E.
    cbn. rewrite app_nil_r. eauto.
  - destruct (IH ltac:(done) Has) as (c & p & E). cbn [fmap list_fmap join_or] in *. unfold alt_text at 1. rewrite scan_items by done.
    set (t := join_or (alt_text b :: (alt_text <$> alts))) in *. cbn [scan]. change (OR =? BACKSLASH) with false. cbn iota.
    change (OR =? 40) with false. change (OR =? 41) with false. change (has 0 OS_CASE_SENSITIVE) with false. cbn [Z.eqb negb andb].
    change (charmap_at OR) with OR. rewrite Z.eqb_refl. cbn [andb]. cbn [fmap list_fmap] in E. rewrite E. eauto.
Qed.

Lemma encode_no_or l : Forall lit_ok l → OR ∉ encode (lower <$> l).
Proof.
  induction 1 as [|it l Hi _ IH]; [apply not_elem_of_nil|]. cbn. rewrite not_elem_of_app. split; [|done].
  destruct it as [p|k]; cbn in *.
  - destruct Hi as [_ Hp]. rewrite !not_elem_of_cons in Hp. rewrite list_elem_of_singleton. intros E. symmetry in E.
    apply tolower_ne in E; [|unfold OR; lia]. tauto.
  - rewrite !not_elem_of_cons. split_and!; [done|unfold OR; lia|apply not_elem_of_nil].
Qed.

Lemma split_join ps : ps ≠ [] → Forall (λ p, OR ∉ p) ps → split_on OR (join_or ps) = ps.
Proof.
  induction ps as [|p ps IH]; intros Hne Hps; [done|]. apply Forall_cons in Hps as [Hp Hps]. destruct ps as [|q ps].
  - cbn [join_or]. rewrite <-(app_nil_r p) at 1. rewrite (split_on_app OR p [] [] [] Hp eq_refl). by rewrite app_nil_r.
  - cbn [join_or]. change (match ps with [] => q | _ => q ++ OR :: join_or ps end) with (join_or (q :: ps)).
    rewrite (split_on_app OR p (OR :: join_or (q :: ps)) [] (q :: ps) Hp); [by rewrite app_nil_r|].
    cbn [split_on]. rewrite Z.eqb_refl. f_equal. by apply IH.
Qed.

Definition alt_flags (a : alt) : Z := Z.lor (if a_begin a then BEGIN_SET else 0) (if a_end a then END_SET else 0).

Lemma head_encode l c r :
  encode (lower <$> l) = c :: r → Forall lit_ok l → head l ≠ Some (Lit BEGINREGEX) → c ≠ BEGINREGEX.
Proof.
  destruct l as [|[p|k] l]; [done| |]; cbn; intros [= <- _] _ Hh E.
  - apply tolower_ne in E; [|unfold BEGINREGEX; lia]. by subst p.
  - done.
Qed.

Lemma last_encode l c :
  last (encode (lower <$> l)) = Some c → Forall lit_ok l → last l ≠ Some (Lit ENDREGEX) → c ≠ ENDREGEX.
Proof.
  destruct l as [|it l _] using rev_ind; [done|]. rewrite fmap_app, encode_app, last_snoc. intros Hc Hl Hne E. subst c.
  apply Forall_app in Hl as [_ [Hl _]%Forall_cons]. destruct it as [p|k]; cbn in Hc.
  - rewrite last_snoc in Hc. injection Hc as E. apply tolower_ne in E; [|unfold ENDREGEX; lia]. by subst p.
  - change (last (encode (lower <$> l) ++ [BACKSLASH] ++ [k]) = Some ENDREGEX) in Hc. rewrite app_assoc, last_snoc in Hc.
    injection Hc as ->. cbn in Hl. unfold ENDREGEX in Hl. lia.
Qed.

(** Without its anchors an alternative is its items. *)
Lemma regex_alt_text a : alt_ok a → regex_alt (encode (lower <$> alt_lits a)) = (encode (lower <$> a_items a), alt_flags a).
Proof.
  intros (Hne & _ & Hl & Hb & He). unfold alt_lits, alt_flags. rewrite !fmap_app, !encode_app.
  set (mid := encode (lower <$> a_items a)). assert (mid ≠ []) as Hm.
  { unfold mid. destruct (a_items a) as [|[]]; done. }
  unfold regex_alt, anchors.
  assert (∀ b : bool, match last (mid ++ encode (lower <$> (if a_end a then [Lit ENDREGEX] else []))) with
    | Some c => if c =? ENDREGEX then (b, removelast (mid ++ encode (lower <$> (if a_end a then [Lit ENDREGEX] else []))), true)
                else (b, mid ++ encode (lower <$> (if a_end a then [Lit ENDREGEX] else [])), false)
    | None => (b, mid ++ encode (lower <$> (if a_end a then [Lit ENDREGEX] else [])), false)
    end = (b, mid, a_end a)) as Htail.
  { intros b. destruct (a_end a).
    - change (encode (lower <$> [Lit ENDREGEX])) with [ENDREGEX]. rewrite last_snoc, Z.eqb_refl, removelast_last. done.
    - change (encode (lower <$> [])) with (@nil Z). rewrite app_nil_r. destruct (last mid) as [c|] eqn:El; [|done].
      by rewrite (proj2 (Z.eqb_neq c _)) by (by eapply last_encode; eauto). }
  destruct (a_begin a).
  - change (encode (lower <$> [Lit BEGINREGEX])) with [BEGINREGEX]. cbn [app]. rewrite Z.eqb_refl. by rewrite Htail.
  - change (encode (lower <$> [])) with (@nil Z). cbn [app]. destruct mid as [|c r] eqn:Em; [done|]. cbn [app].
    rewrite (proj2 (Z.eqb_neq c _)) by (eapply head_encode; [exact Em|done|by apply Hb]). rewrite Htail. done.
Qed.

Lemma alt_flags_has a : has (alt_flags a) BEGIN_SET = a_begin a ∧ has (alt_flags a) END_SET = a_end a.
Proof. unfold alt_flags. by destruct (a_begin a), (a_end a). Qed.

(** The search answers for one alternative. *)
Lemma answer_finds a s r :
  alt_ok a → answer (lower <$> a_items a) s (alt_flags a) r → alt_finds a s = bool_decide (is_Some r).
Proof.
  intros (Hne & _). destruct (alt_flags_has a) as [EB EE].
  assert (∀ i, hit (lower <$> a_items a) s (alt_flags a) i ↔ (i <= length s)%nat ∧
     match_at (lower <$> a_items a) (drop i s) && (negb (a_end a) || (i + length (a_items a) =? length s)%nat) && (negb (a_begin a) || (i =? 0)%nat) = true) as Hhit.
  { intros i. unfold hit. rewrite EB, EE, length_fmap, !andb_true_iff, !orb_true_iff, !negb_true_iff, !Nat.eqb_eq. split.
    - intros (H1 & H2 & H3). split_and!; [|done|destruct (a_end a); auto|destruct (a_begin a); auto].
      apply match_at_length in H1. rewrite length_fmap, length_drop in H1. destruct (a_items a); [done|]. cbn in H1. lia.
    - intros (_ & (H1 & H2) & H3). split_and!; [done|destruct H2; congruence|destruct H3; congruence]. }
  unfold alt_finds. destruct r as [z|]; cbn [answer].
  - intros (i & _ & Hi & _). apply Hhit in Hi as [Hle Hi]. transitivity true; [|by rewrite bool_decide_eq_true_2].
    apply existsb_exists. exists i. split; [|done]. apply in_seq. lia.
  - intros Hno. rewrite bool_decide_eq_false_2 by (by intros [? ?]). apply not_true_iff_false. rewrite existsb_exists. intros (i & Hin & Hi).
    apply in_seq in Hin. apply (Hno i), Hhit. split; [lia|done].
Qed.

Lemma execute_alts alts s :
  Forall alt_ok alts → Forall char_ok s →
  ∃ r, execute_plain s (zip ((λ a, encode (lower <$> a_items a)) <$> alts) (alt_flags <$> alts)) = Some r ∧
       existsb (λ a, alt_finds a s) alts = bool_decide (is_Some r).
Proof.
  intros Ha Hs. induction Ha as [|a alts Ha Has IH]; [by exists None|]. cbn [fmap list_fmap zip zip_with execute_plain existsb].
  pose proof Ha as (Hne & Hsim & _). destruct (search_total (lower <$> a_items a) s (alt_flags a)) as (r & -> & Hr); [by destruct (a_items a)|done|done|].
  rewrite (answer_finds a s r Ha Hr). cbn [mbind option_bind]. destruct r as [z|]; [by exists (Some z)|]. exact IH.
Qed.

Lemma text_char_ok alts : Forall alt_ok alts → Forall char_ok (pattern_text alts).
Proof.
  unfold pattern_text. induction 1 as [|a alts Ha _ IH]; [constructor|]. assert (Forall char_ok (alt_text a)) as Ht.
  { unfold alt_text. induction (alt_lits_ok a Ha) as [|it l Hi _ IHl]; [constructor|]. cbn. apply Forall_app. split; [|done].
    destruct it as [p|k]; cbn in *; [by apply Forall_singleton; destruct Hi|]. apply Forall_cons. split; [done|]. apply Forall_singleton.
    apply (letter_code k Hi). }
  cbn [fmap list_fmap join_or]. destruct (alt_text <$> alts) as [|t ts]; [done|]. apply Forall_app. split; [done|]. by constructor.
Qed.

(** * Claims *)




(** What the matcher reads otherwise than its documentation: "\d+\w\s+x"
    matches "12x", which has no space; "(a)(b)" does not match "ab" but matches
    "a(b", the second of two adjacent parentheses being read as a character; and
    "$" does not match "abc", although "^$" matches the empty string. *)
Theorem OSRegex_misreads :
  OS_Regex (Some [92; 100; 43; 92; 119; 92; 115; 43; 120]) [49; 50; 120] = Some true ∧
  OS_Regex (Some [40; 97; 41; 40; 98; 41]) [97; 98] = Some false ∧
  OS_Regex (Some [40; 97; 41; 40; 98; 41]) [97; 40; 98] = Some true ∧
  OS_Regex (Some [36]) [97; 98; 99] = Some false ∧ OS_Regex (Some [94; 36]) [] = Some true.
Proof. split_and!; vm_compute; reflexivity. Qed.
