(* ===== verification/Xml.v ===== *)
(** The XML parser of src/os_xml (os_xml.c) and the access to its nodes
    (os_xml_node_access.c).  The arrays el, ct, tp, rl, ck and ln, which grow
    together, are one list of records.  A buffer is the list of the characters
    written since [count] was set to 0, and every write to it is checked. *)

From S2P Require Import Prelude CLib OsMatch.

Definition XML_MAXSIZE : Z := 20480.
Definition XML_STASH_LEN : Z := 2.
Definition LEOF : Z := -2.
Definition R_CONFS : Z := 60.
Definition R_CONFE : Z := 62.
Definition R_COM : Z := 33.
Definition SLASH : Z := 47.
Definition XML_VAR : cstr := [118; 97; 114].

Inductive XML_TYPE := XML_ATTR | XML_ELEM | XML_VARIABLE_BEGIN.
#[export] Instance xml_type_eq_dec : EqDecision XML_TYPE.
Proof. solve_decision. Defined.

(** One index of the arrays. *)
Record xitem := XItem { it_el : cstr; it_ct : option cstr; it_tp : XML_TYPE; it_rl : Z; it_ck : bool; it_ln : Z }.

(** The messages of [xml_error]. *)
Inductive xml_err :=
| ErrRecursion | ErrOverflow | ErrComment | ErrNotOpened | ErrNotClosed (el : cstr) | ErrEof | ErrFile
| ErrAttrOverflow (a : cstr) | ErrAttrNotClosed (a : cstr) | ErrAttrNoValue (a : cstr) | ErrAttrDefined (a : cstr)
| ErrAttrQuote (a : cstr) | ErrAttrClosing (a v : cstr) | ErrAttrEof.

(** [OS_XML]: [x_file] tells which of [fp] and [string] is set; [x_in] is what
    is left of the file, or the memory from [string] on. *)
Record OS_XML := Xml {
  x_items : list xitem; x_fol : Z; x_err : option xml_err; x_err_line : Z; x_line : Z; x_stash : list Z; x_file : bool; x_in : list Z
}.

Definition with_in (x : OS_XML) (line : Z) (stash inp : list Z) : OS_XML :=
  Xml (x_items x) (x_fol x) (x_err x) (x_err_line x) line stash (x_file x) inp.
Definition with_items (x : OS_XML) (l : list xitem) : OS_XML :=
  Xml l (x_fol x) (x_err x) (x_err_line x) (x_line x) (x_stash x) (x_file x) (x_in x).
Definition xml_error (e : xml_err) (x : OS_XML) : OS_XML :=
  Xml (x_items x) (x_fol x) (Some e) (x_line x) (x_line x) (x_stash x) (x_file x) (x_in x).

(** [EOF], or the terminator of the string. *)
Definition x_cmp (x : OS_XML) : Z := if x_file x then -1 else 0.

(** [(char) c] as a byte. *)
Definition uchar (c : Z) : Z := c mod 256.

(** [xml_getc_fun]: [_xml_fgetc] or [_xml_sgetc]; a string is read as signed
    characters, and reading past its terminator is undefined. *)
Definition newline (c line : Z) (d : Z) : Z := if c =? 10 then wrap32 (line + d) else line.
Definition xml_getc (x : OS_XML) : option (Z * OS_XML) :=
  match x_stash x with
  | c :: st => Some (c, with_in x (newline c (x_line x) 1) st (x_in x))
  | [] =>
      match x_in x with
      | b :: r =>
          let c := if x_file x then b else schar b in
          Some (c, with_in x (newline c (x_line x) 1) [] r)
      | [] => if x_file x then Some (-1, x) else None
      end
  end.

(** [_xml_ungetc]; the stash holds [char]s, and a full one drops the character. *)
Definition xml_ungetc (c : Z) (x : OS_XML) : OS_XML :=
  if XML_STASH_LEN <=? Z.of_nat (length (x_stash x)) then x
  else with_in x (newline c (x_line x) (-1)) (schar (uchar c) :: x_stash x) (x_in x).

(** [_oscomment] *)
Fixpoint comment_loop (fuel : nat) (delim : Z) (x : OS_XML) : option (Z * OS_XML) :=
  match fuel with
  | O => None
  | S fuel =>
      '(c, x) ← xml_getc x;
      if c =? delim then Some (-1, x)
      else if c =? R_COM then
        '(c, x) ← xml_getc x;
        if c =? R_CONFE then Some (1, x) else comment_loop fuel delim (xml_ungetc c x)
      else if c =? 45 then
        '(c, x) ← xml_getc x;
        if c =? 45 then
          '(c, x) ← xml_getc x;
          if c =? R_CONFE then Some (1, x) else comment_loop fuel delim (xml_ungetc c (xml_ungetc c x))
        else comment_loop fuel delim (xml_ungetc c x)
      else comment_loop fuel delim x
  end.
(** The characters that are left. *)
Definition x_left (x : OS_XML) : nat := (length (x_stash x) + length (x_in x))%nat.
Definition _oscomment (x : OS_XML) (delim : Z) : option (Z * OS_XML) :=
  '(c, x) ← xml_getc x;
  if c =? R_COM then comment_loop (S (x_left x)) delim x else Some (0, xml_ungetc c x).

(** [_writememory]: [str] is cut to [size - 1] characters. *)
Definition _writememory (str : cstr) (type : XML_TYPE) (size parent : Z) (x : OS_XML) : OS_XML :=
  let it := XItem (take (Z.to_nat (size - 1)) str) None
              (if strcasecmp XML_VAR str =? 0 then XML_VARIABLE_BEGIN else type) parent
              (match type with XML_ATTR => true | _ => false end) (x_line x) in
  with_items x (x_items x ++ [it]).

(** [_writecontent] and [_lxml->ck[i] = 1] *)
Definition _writecontent (str : cstr) (i : Z) (x : OS_XML) : option OS_XML :=
  it ← x_items x !! Z.to_nat i;
  Some (with_items x (<[Z.to_nat i := XItem (it_el it) (Some str) (it_tp it) (it_rl it) (it_ck it) (it_ln it)]> (x_items x))).
Definition set_ck (i : Z) (x : OS_XML) : option OS_XML :=
  it ← x_items x !! Z.to_nat i;
  Some (with_items x (<[Z.to_nat i := XItem (it_el it) (it_ct it) (it_tp it) (it_rl it) true (it_ln it)]> (x_items x))).

(** ** [_getattributes] *)

(** The search for an attribute with the same name, from the last item back. *)
Fixpoint attr_defined (parent : Z) (attr : cstr) (back : list xitem) : bool :=
  match back with
  | [] => false
  | it :: back =>
      if (it_rl it =? parent) && bool_decide (it_tp it = XML_ATTR) then
        if strcmp (it_el it) attr =? 0 then true else attr_defined parent attr back
      else false
  end.

(** The spaces before the quote: the character that ends them. *)
Fixpoint skip_spaces (fuel : nat) (delim : Z) (x : OS_XML) : option (Z * OS_XML) :=
  match fuel with
  | O => None
  | S fuel => '(c, x) ← xml_getc x; if c =? delim then Some (c, x) else if isspace c then skip_spaces fuel delim x else Some (c, x)
  end.
Definition is_quote (c : Z) : bool := (c =? 34) || (c =? 39).

(** [buf] is [attr] at location 0 and [value] at location 1; a recursive call
    starts again with empty buffers. *)
Fixpoint attr_loop (fuel : nat) (parent : Z) (flag_truncate : bool) (delim : Z)
    (loc1 : bool) (attr buf : list Z) (c_to_match : Z) (x : OS_XML) : option (Z * OS_XML) :=
  match fuel with
  | O => None
  | S fuel =>
      '(c, x) ← xml_getc x;
      if c =? delim then Some (-1, xml_error ErrAttrEof x)
      else if XML_MAXSIZE <=? Z.of_nat (length buf) then
        if flag_truncate && loc1 then Some (0, x)
        else Some (-1, xml_error (ErrAttrOverflow (if loc1 then cstring attr else cstring (take (length buf - 1) buf))) x)
      else if (c =? R_CONFE) || (negb loc1 && (c =? SLASH)) then
        if loc1 then Some (-1, xml_error (ErrAttrNotClosed (cstring attr)) x)
        else if (0 <? length buf)%nat then Some (-1, xml_error (ErrAttrNoValue (cstring buf)) x)
        else if c =? SLASH then Some (c, x)
        else Some (0, x)
      else if negb loc1 && (c =? 61) then
        if attr_defined parent (cstring buf) (rev (x_items x)) then Some (-1, xml_error (ErrAttrDefined (cstring buf)) x)
        else
          '(c, x) ← xml_getc x;
          '(c, x) ← (if is_quote c then Some (c, x)
                     else if isspace c then skip_spaces (S (x_left x)) delim x
                     else Some (c, x));
          if is_quote c then attr_loop fuel parent flag_truncate delim true buf [] c x
          else Some (-1, xml_error (ErrAttrQuote (cstring buf)) x)
      else if negb loc1 && isspace c then
        if (length buf =? 0)%nat then attr_loop fuel parent flag_truncate delim loc1 attr buf c_to_match x
        else Some (-1, xml_error (ErrAttrNoValue (cstring buf)) x)
      else if loc1 && (c =? c_to_match) then
        let x := _writememory (cstring attr) XML_ATTR (strlen (cstring attr) + 1) parent x in
        x ← _writecontent (cstring buf) (Z.of_nat (length (x_items x)) - 1) x;
        '(c, x) ← xml_getc x;
        if isspace c then attr_loop fuel parent flag_truncate delim false [] [] 0 x
        else if c =? R_CONFE then Some (0, x)
        else if c =? SLASH then Some (c, x)
        else Some (-1, xml_error (ErrAttrClosing (cstring attr) (cstring buf)) x)
      else
        buf ← put (XML_MAXSIZE + 1) buf (uchar c);
        attr_loop fuel parent flag_truncate delim loc1 attr buf c_to_match x
  end.
Definition _getattributes (parent : Z) (x : OS_XML) (flag_truncate : bool) (delim : Z) : option (Z * OS_XML) :=
  attr_loop (S (x_left x)) parent flag_truncate delim false [] [] 0 x.

(** ** [_ReadElem] *)

(** The local variables: [location], [prevv] (as: is it 1), [ignore_content],
    [_currentlycont], the strings in [elem] and [cont], and the characters
    written since [count] is 0. *)
Inductive location := LNone | LElem | LCont | LClose.
Record rvars := RVars {
  v_loc : location; v_prevv : bool; v_ignore : bool; v_cc : Z; v_elem : cstr; v_cont : cstr; v_buf : list Z
}.
Definition v_start : rvars := RVars LNone true false 0 [] [] [].

(** [memset] of the buffers and the reset of the variables when an element
    ends. *)
Definition v_reset (v : rvars) : rvars := RVars LNone (v_prevv v) (v_ignore v) 0 [] [] [].

(** What an iteration does: go on, return, or read a child first. *)
Inductive outcome_x := XNext (v : rvars) (x : OS_XML) | XRet (r : Z) (x : OS_XML) | XChild (v : rvars) (x : OS_XML).

(** The end of an element: [/] or [>] after its name or attributes. *)
Definition close_elem (parent : Z) (v : rvars) (content : cstr) (cc : Z) (x : OS_XML) : option outcome_x :=
  x ← _writecontent content cc x;
  x ← set_ck cc x;
  Some (if 0 <? parent then XRet 0 x else XNext (v_reset v) x).

(** The name of an element is complete. *)
Definition open_elem (parent : Z) (flag_truncate : bool) (cmp c : Z) (v : rvars) (x : OS_XML) : option outcome_x :=
  let 'RVars loc prevv ignore _ _ cont buf := v in
  if XML_MAXSIZE <? Z.of_nat (length buf) then None
  else
    let ge := bool_decide (last buf = Some SLASH) in
    let elem := cstring (if ge then removelast buf else buf) in
    let x := _writememory elem XML_ELEM (Z.of_nat (length buf) + 1) parent x in
    let cc := Z.of_nat (length (x_items x)) - 1 in
    '(ga, x) ← (if isspace c then _getattributes parent x flag_truncate cmp else Some (0, x));
    if ga <? 0 then Some (XRet (-1) x)
    else if ge || (ga =? SLASH) then close_elem parent v [] cc x
    else Some (XNext (RVars LCont prevv ignore cc elem cont []) x).

(** Any other character goes to the buffer of the location. *)
Definition other_char (c : Z) (v : rvars) (x : OS_XML) : option outcome_x :=
  let 'RVars loc prevv ignore cc elem cont buf := v in
  buf ← (match loc with
         | LElem | LClose => put (XML_MAXSIZE + 1) buf (uchar c)
         | LCont => if ignore then Some buf else put (XML_MAXSIZE + 1) buf (uchar c)
         | LNone => Some buf
         end);
  Some (XNext (RVars loc (if c =? R_CONFS then true else prevv) ignore cc elem cont buf) x).

(** The checks after those for the size and for comments. *)
Definition elem_real (parent : Z) (flag_truncate : bool) (cmp c : Z) (v : rvars) (x : OS_XML) : option outcome_x :=
  let 'RVars loc prevv ignore cc elem cont buf := v in
  match loc with
  | LNone =>
      if prevv then
        if c =? R_CONFS then
          '(c, x) ← xml_getc x;
          if c =? SLASH then Some (XRet (-1) (xml_error ErrNotOpened x))
          else Some (XNext (RVars LElem prevv ignore cc elem cont buf) (xml_ungetc c x))
        else Some (XNext v x)
      else other_char c v x
  | LElem => if (c =? R_CONFE) || isspace c then open_elem parent flag_truncate cmp c v x else other_char c v x
  | LClose =>
      if c =? R_CONFE then
        if XML_MAXSIZE <? Z.of_nat (length buf) then None
        else if negb (strcmp (cstring buf) elem =? 0) then Some (XRet (-1) (xml_error (ErrNotClosed elem) x))
        else close_elem parent v cont cc x
      else other_char c v x
  | LCont =>
      if (c =? R_CONFS) && prevv then
        '(c, x) ← xml_getc x;
        if c =? SLASH then
          if XML_MAXSIZE <? Z.of_nat (length buf) then None
          else Some (XNext (RVars LClose prevv false cc elem (cstring buf) []) x)
        else Some (XChild (RVars loc prevv ignore cc elem cont []) (xml_ungetc R_CONFS (xml_ungetc c x)))
      else other_char c v x
  end.

(** One iteration, after [c] was read. *)
Definition elem_step (parent : Z) (flag_truncate : bool) (cmp c : Z) (v : rvars) (x : OS_XML) : option outcome_x :=
  let 'RVars loc prevv ignore cc elem cont buf := v in
  let prevv := if c =? 92 then negb prevv else if negb (c =? R_CONFS) && negb prevv then true else prevv in
  let full := XML_MAXSIZE <=? Z.of_nat (length buf) in
  let cut := flag_truncate && (match loc with LCont => true | _ => false end) in
  if full && negb cut then Some (XRet (-1) (xml_error ErrOverflow x))
  else
    let v := RVars loc prevv (if full then true else ignore) cc elem cont buf in
    '(r, x) ← (if c =? R_CONFS then _oscomment x cmp else Some (0, x));
    if r <? 0 then Some (XRet (-1) (xml_error ErrComment x))
    else if r =? 1 then Some (XNext v x)
    else elem_real parent flag_truncate cmp c v x.

(** The loop of [_ReadElem]; a child is a recursive call at the next level. *)
Fixpoint read_loop (fuel : nat) (flag_truncate : bool) (cmp parent recursion_level : Z) (v : rvars) (x : OS_XML) :
    option (Z * OS_XML) :=
  match fuel with
  | O => None
  | S fuel =>
      '(c, x) ← xml_getc x;
      if c =? cmp then Some (match v_loc v with LNone => LEOF | _ => -1 end, xml_error ErrEof x)
      else
        o ← elem_step parent flag_truncate cmp c v x;
        match o with
        | XNext v x => read_loop fuel flag_truncate cmp parent recursion_level v x
        | XRet r x => Some (r, x)
        | XChild v x =>
            if 1024 <? recursion_level + 1 then Some (-1, xml_error ErrRecursion x)
            else
              '(r, x) ← read_loop fuel flag_truncate cmp (parent + 1) (recursion_level + 1) v_start x;
              if r <? 0 then Some (-1, x) else read_loop fuel flag_truncate cmp parent recursion_level v x
        end
  end.

(** [_ReadElem(0, _lxml, 0, flag_truncate)]: an iteration that reads a child
    leaves the input as long as it was, but the child's first one does not. *)
Definition _ReadElem (x : OS_XML) (flag_truncate : bool) : option (Z * OS_XML) :=
  read_loop (2 * x_left x + 2) flag_truncate (x_cmp x) 0 1 v_start x.

Fixpoint not_closed (l : list xitem) : option cstr :=
  match l with [] => None | it :: l => if it_ck it then not_closed l else Some (it_el it) end.

Definition ParseXML (x : OS_XML) (flag_truncate : bool) : option (Z * OS_XML) :=
  let x := with_in x 1 [] (x_in x) in
  '(r, x) ← _ReadElem x flag_truncate;
  if (r <? 0) && negb (r =? LEOF) then Some (-1, x)
  else match not_closed (x_items x) with Some el => Some (-1, xml_error (ErrNotClosed el) x) | None => Some (0, x) end.

Definition OS_ReadXMLString_Ex (string : cstr) (flag_truncate : bool) : option (Z * OS_XML) :=
  ParseXML (Xml [] 0 None 0 0 [] false (mem string)) flag_truncate.
Definition OS_ReadXMLString (string : cstr) : option (Z * OS_XML) := OS_ReadXMLString_Ex string false.

(** [OS_ReadXML_Ex]: the bytes of the file, if it can be opened. *)
Definition OS_ReadXML_Ex (file : option (list Z)) (flag_truncate : bool) : option (Z * OS_XML) :=
  match file with
  | None => Some (-2, xml_error ErrFile (Xml [] 0 None 0 0 [] false []))
  | Some bytes => ParseXML (Xml [] 0 None 0 0 [] true bytes) flag_truncate
  end.
Definition OS_ReadXML (file : option (list Z)) : option (Z * OS_XML) := OS_ReadXML_Ex file false.

(** [OS_ClearXML]: the names and contents that it frees, and what is left. *)
Definition OS_ClearXML (x : OS_XML) : list cstr * OS_XML :=
  (x_items x ≫= λ it, it_el it :: match it_ct it with Some c => [c] | None => [] end,
   Xml [] 0 None 0 0 [] (x_file x) (x_in x)).

(** ** [OS_GetElementsbyNode] *)

Record xml_node := XNode { xn_key : Z; xn_element : cstr; xn_content : option cstr; xn_attributes : list cstr; xn_values : list cstr }.

(** The attributes of a node, from index [l] on. *)
Fixpoint node_attrs (m : Z) (l : list xitem) : list (cstr * cstr) :=
  match l with
  | XItem el (Some ct) XML_ATTR rl _ _ :: l => if rl =? m then (el, ct) :: node_attrs m l else []
  | _ => []
  end.

Fixpoint nodes_loop (top : bool) (m i : Z) (l : list xitem) : list xml_node :=
  match l with
  | [] => []
  | it :: l =>
      match it_tp it with
      | XML_ELEM =>
          if it_rl it =? m then
            let ats := node_attrs m l in
            XNode i (it_el it) (it_ct it) ats.*1 ats.*2 :: nodes_loop top m (i + 1) l
          else if it_rl it <? m then if top then nodes_loop top m (i + 1) l else []
          else nodes_loop top m (i + 1) l
      | _ => nodes_loop top m (i + 1) l
      end
  end.

Definition OS_GetElementsbyNode (x : OS_XML) (node : option xml_node) : option (list xml_node) :=
  match node with
  | None => Some (nodes_loop true 0 0 (x_items x))
  | Some n =>
      it ← x_items x !! Z.to_nat (xn_key n);
      Some (nodes_loop false (it_rl it + 1) (xn_key n + 1) (drop (Z.to_nat (xn_key n + 1)) (x_items x)))
  end.

(** [OS_ClearNode]: the strings that it frees. *)
Definition OS_ClearNode (node : option (list xml_node)) : list cstr :=
  match node with
  | None => []
  | Some ns => ns ≫= λ n, xn_element n :: (match xn_content n with Some c => [c] | None => [] end) ++ xn_attributes n ++ xn_values n
  end.

(** [w_get_attr_val_by_name] *)
Fixpoint attr_val (name : cstr) (l : list (cstr * cstr)) : option cstr :=
  match l with [] => None | (a, v) :: l => if strcmp a name =? 0 then Some v else attr_val name l end.
Definition w_get_attr_val_by_name (node : option xml_node) (name : option cstr) : option cstr :=
  match node, name with
  | Some n, Some name => attr_val name (zip (xn_attributes n) (xn_values n))
  | _, _ => None
  end.

Example xml_smoke :
  (* <a b="c"><d/>x</a> *)
  ('(r, x) ← OS_ReadXMLString [60; 97; 32; 98; 61; 34; 99; 34; 62; 60; 100; 47; 62; 120; 60; 47; 97; 62];
   ns ← OS_GetElementsbyNode x None;
   ns2 ← OS_GetElementsbyNode x (head ns);
   Some (r, ns, ns2)) =
  Some (0, [XNode 0 [97] (Some [120]) [[98]] [[99]]], [XNode 2 [100] (Some []) [] []]) ∧
  (* <a>  -  not closed, <!-- -- x --><a>\<</a> *)
  fst <$> OS_ReadXMLString [60; 97; 62] = Some (-1) ∧
  ('(r, x) ← OS_ReadXMLString [60; 33; 45; 45; 32; 45; 45; 32; 120; 45; 45; 62; 60; 97; 62; 92; 60; 60; 47; 97; 62];
   ns ← OS_GetElementsbyNode x None; Some (r, ns)) = Some (0, [XNode 0 [97] (Some [92; 60]) [] []]).
Proof. vm_compute. done. Qed.
