(* ===== verification/XmlSpec.v ===== *)
(** The XML parser is total: on every string and on every file it returns, it
    never reads past the end of the string nor writes past its buffers, and
    the items it leaves are those of a tree. *)

From S2P Require Import Prelude CLib OsMatch OsMatchSpec Xml.

(** ** The characters to come *)

Definition stream (x : OS_XML) : list Z := x_stash x ++ (if x_file x then x_in x else schar <$> x_in x).
Fixpoint avail (d : Z) (s : list Z) : nat := match s with [] => O | c :: s => if c =? d then O else S (avail d s) end.

(** The number of characters before the delimiter. *)
Definition left_of (x : OS_XML) : nat := avail (x_cmp x) (stream x).

(** The stash fits, and a string has its terminator in front of it. *)
Definition x_ok (x : OS_XML) : Prop :=
  (length (x_stash x) <= 2)%nat ∧ (x_file x = true ∨ x_cmp x ∈ stream x).

Definition moved (x x' : OS_XML) : Prop := x_file x' = x_file x ∧ x_items x' = x_items x.

#[export] Instance moved_preorder : PreOrder moved.
Proof. split; [by intros x|]. intros x y z [? ?] [? ?]. split; congruence. Qed.

Ltac mv := unfold moved in *; destruct_and?; split; congruence.

Lemma moved_cmp x x' : moved x x' → x_cmp x' = x_cmp x.
Proof. intros [E _]. unfold x_cmp. by rewrite E. Qed.

Lemma avail_length d s : (avail d s <= length s)%nat.
Proof. induction s as [|c s IH]; cbn; [lia|]. destruct (c =? d); lia. Qed.

Lemma getc_ok x :
  x_ok x → ∃ c x', xml_getc x = Some (c, x') ∧ moved x x' ∧ (length (x_stash x') = length (x_stash x) - 1)%nat ∧
    (c = x_cmp x ∨ c ≠ x_cmp x ∧ x_ok x' ∧ left_of x = S (left_of x')).
Proof.
  intros [Hst Hd]. unfold xml_getc, left_of, x_ok, stream, moved in *. destruct x as [its fol err el ln st fl inp]. cbn in *.
  change (x_cmp (Xml its fol err el ln st fl inp)) with (if fl then -1 else 0) in *. set (d := if fl then -1 else 0) in *.
  destruct st as [|c st]; cbn in *.
  - destruct inp as [|b inp].
    + destruct fl; cbn in *; [|destruct Hd as [?|Hd]; [done|by apply not_elem_of_nil in Hd]].
      exists (-1), (Xml its fol err el ln [] true []). split_and!; try done. by left.
    + eexists _, _. split; [reflexivity|]. cbn. split; [done|]. split; [done|]. change (x_cmp (with_in _ _ _ _)) with d.
      destruct fl; cbn in *.
      * destruct (Z.eqb_spec b d) as [->|Hne]; [by left|]. right. split_and!; [done|lia|by left|done].
      * destruct (Z.eqb_spec (schar b) d) as [E|Hne]; [by left|]. right. split_and!; [done|lia| |done].
        right. destruct Hd as [?|Hd]; [done|]. apply elem_of_cons in Hd as [?|?]; [congruence|done].
  - eexists _, _. split; [reflexivity|]. cbn. split; [done|]. split; [lia|]. change (x_cmp (with_in _ _ _ _)) with d.
    destruct (Z.eqb_spec c d) as [->|Hne]; [by left|]. right. split_and!; [done|lia| |done].
    destruct Hd as [?|Hd]; [by left|]. right. apply elem_of_cons in Hd as [?|?]; [congruence|done].
Qed.

Lemma schar_uchar_cmp x : schar (uchar (x_cmp x)) = x_cmp x.
Proof. unfold x_cmp. by destruct (x_file x). Qed.

(** Putting a character back; the delimiter stays one. *)
Lemma ungetc_ok c x :
  (length (x_stash x) < 2)%nat → x_ok x ∨ c = x_cmp x →
  let x' := xml_ungetc c x in
  x_ok x' ∧ moved x x' ∧ length (x_stash x') = S (length (x_stash x)) ∧ (left_of x' <= S (left_of x))%nat ∧
  (c = x_cmp x → left_of x' = 0%nat) ∧ (schar (uchar c) ≠ x_cmp x → left_of x' = S (left_of x)).
Proof.
  intros Hs Hc x'. unfold x', xml_ungetc. rewrite (proj2 (Z.leb_gt _ _)) by (unfold XML_STASH_LEN; lia).
  unfold x_ok, left_of, stream, moved in *. cbn. change (x_cmp (with_in _ _ _ _)) with (x_cmp x). split_and!; try done; try lia.
  - destruct Hc as [[_ [?|?]]| ->]; [by left|right; by right|right]. rewrite schar_uchar_cmp. by left.
  - destruct (_ =? _); lia.
  - intros ->. by rewrite schar_uchar_cmp, Z.eqb_refl.
  - intros Hne. by rewrite (proj2 (Z.eqb_neq _ _)).
Qed.

(** Looking at the next character. *)
Lemma peek_ok x :
  x_ok x → (length (x_stash x) <= 1)%nat →
  ∃ c x1, xml_getc x = Some (c, x1) ∧ moved x x1 ∧ (length (x_stash x1) = 0)%nat ∧ (x_ok x1 ∨ c = x_cmp x1) ∧
    (c ≠ x_cmp x → x_ok x1 ∧ left_of x = S (left_of x1)) ∧
    x_ok (xml_ungetc c x1) ∧ moved x (xml_ungetc c x1) ∧ (left_of (xml_ungetc c x1) <= left_of x)%nat ∧ length (x_stash (xml_ungetc c x1)) = 1%nat.
Proof.
  intros Hx Hs. destruct (getc_ok x Hx) as (c & x1 & E & Hm & Hl & Hc). exists c, x1. pose proof (moved_cmp x x1 Hm) as Ec.
  assert (x_ok x1 ∨ c = x_cmp x1) as Hor by (rewrite Ec; destruct Hc as [?|(_ & ? & _)]; auto).
  destruct (ungetc_ok c x1 ltac:(lia) Hor) as (Hok & Hm2 & Hl2 & Hle & Hz & _).
  split_and!; try done; try lia.
  - intros Hne. destruct Hc as [?|(_ & ? & ?)]; done.
  - mv.
Qed.

(** ** Comments *)

Lemma comment_loop_ok fuel : ∀ x,
  x_ok x → (left_of x < fuel)%nat →
  ∃ r x', comment_loop fuel (x_cmp x) x = Some (r, x') ∧ moved x x' ∧ (r = -1 ∨ r = 1 ∧ x_ok x' ∧ (left_of x' <= left_of x)%nat).
Proof.
  induction fuel as [|fuel IH]; intros x Hx Hf; [lia|]. cbn [comment_loop].
  destruct (getc_ok x Hx) as (c & x1 & -> & Hm1 & Hl1 & Hc). cbn [mbind option_bind]. pose proof Hx as [Hs2 _].
  destruct (Z.eqb_spec c (x_cmp x)) as [->|Hne]; [exists (-1), x1; auto|]. destruct Hc as [?|(_ & Hx1 & El1)]; [done|].
  pose proof (moved_cmp _ _ Hm1) as E1.
  assert (∀ y, moved x y → x_ok y → (left_of y < left_of x)%nat →
    ∃ r x', comment_loop fuel (x_cmp x) y = Some (r, x') ∧ moved x x' ∧ (r = -1 ∨ r = 1 ∧ x_ok x' ∧ (left_of x' <= left_of x)%nat)) as Hrec.
  { intros y Hm Hy Hlt. rewrite <-(moved_cmp x y Hm). destruct (IH y Hy ltac:(lia)) as (r & x' & -> & Hm' & Hr). exists r, x'.
    split; [done|]. split; [mv|]. destruct Hr as [?|(? & ? & ?)]; [by left|]. right. split_and!; [done|done|lia]. }
  destruct (c =? R_COM); [|destruct (c =? 45); [|apply Hrec; [done|done|lia]]].
  - destruct (peek_ok x1 Hx1 ltac:(lia)) as (c2 & x2 & -> & Hm2 & Hl2 & _ & Hc2 & Hok & Hmu & Hle & _). cbn [mbind option_bind].
    destruct (Z.eqb_spec c2 R_CONFE) as [->|_]; [|apply Hrec; [mv|done|lia]].
    exists 1, x2. split; [done|]. split; [mv|]. right. destruct Hc2 as [? ?]; [unfold x_cmp; by destruct (x_file x1)|]. split_and!; [done|done|lia].
  - destruct (getc_ok x1 Hx1) as (c2 & x2 & E2 & Hm2 & Hl2 & Hc2).
    destruct (peek_ok x1 Hx1 ltac:(lia)) as (c2' & x2' & E2' & _ & _ & _ & _ & Hok & Hmu & Hle & _). rewrite E2 in E2'. injection E2' as <- <-.
    rewrite E2. cbn [mbind option_bind]. destruct (Z.eqb_spec c2 45) as [->|_]; [|apply Hrec; [mv|done|lia]].
    destruct Hc2 as [Hd|(_ & Hx2 & El2)]; [unfold x_cmp in Hd; by destruct (x_file x1)|].
    destruct (peek_ok x2 Hx2 ltac:(lia)) as (c3 & x3 & -> & Hm3 & Hl3 & _ & Hc3 & Hok3 & Hmu3 & Hle3 & Hs3). cbn [mbind option_bind].
    destruct (Z.eqb_spec c3 R_CONFE) as [->|_].
    + exists 1, x3. split; [done|]. split; [mv|]. right.
      destruct Hc3 as [? ?]; [unfold x_cmp; by destruct (x_file x2)|]. split_and!; [done|done|lia].
    + destruct (ungetc_ok c3 (xml_ungetc c3 x3) ltac:(lia) (or_introl Hok3)) as (Hok4 & Hm4 & _ & Hle4 & _).
      apply Hrec; [mv|done|lia].
Qed.

Lemma left_x_left x : (left_of x <= x_left x)%nat.
Proof.
  unfold left_of, x_left. etransitivity; [apply avail_length|]. unfold stream. rewrite length_app. destruct (x_file x); [lia|]. rewrite length_fmap. lia.
Qed.

Lemma oscomment_ok x :
  x_ok x → (length (x_stash x) <= 1)%nat →
  ∃ r x', _oscomment x (x_cmp x) = Some (r, x') ∧ moved x x' ∧
    (r = -1 ∨ r = 1 ∧ x_ok x' ∧ (left_of x' <= left_of x)%nat ∨ r = 0 ∧ x_ok x' ∧ (left_of x' <= left_of x)%nat ∧ length (x_stash x') = 1%nat).
Proof.
  intros Hx Hs. unfold _oscomment. destruct (peek_ok x Hx Hs) as (c & x1 & -> & Hm & Hl & _ & Hc & Hok & Hmu & Hle & Hs1). cbn [mbind option_bind].
  destruct (Z.eqb_spec c R_COM) as [->|_]; [|exists 0, (xml_ungetc c x1); split_and!; auto 8].
  destruct Hc as [Hx1 El]; [unfold x_cmp; by destruct (x_file x)|]. pose proof (left_x_left x1).
  rewrite <-(moved_cmp x x1 Hm). destruct (comment_loop_ok (S (x_left x1)) x1 Hx1 ltac:(lia)) as (r & x' & -> & Hm' & Hr).
  exists r, x'. split; [done|]. split; [mv|]. destruct Hr as [?|(? & ? & ?)]; [by left|]. right; left. split_and!; [done|done|lia].
Qed.

(** ** The items *)

(** A depth is at most one more than the one before it. *)
Fixpoint depth_path (prev : Z) (l : list Z) : Prop :=
  match l with [] => True | r :: l => 0 <= r <= prev + 1 ∧ depth_path r l end.

Definition wf_item (it : xitem) : Prop :=
  0 <= it_rl it <= 1023 ∧ strlen (it_el it) <= XML_MAXSIZE ∧ (∀ c, it_ct it = Some c → strlen c <= XML_MAXSIZE) ∧
  (it_ck it = true → it_ct it ≠ None).
Definition items_ok (l : list xitem) : Prop := Forall wf_item l ∧ depth_path (-1) (it_rl <$> l).
Definition deepest (l : list xitem) : Z := default (-1) (last (it_rl <$> l)).

Lemma depth_path_snoc l r : ∀ p, depth_path p (l ++ [r]) ↔ depth_path p l ∧ 0 <= r <= default p (last l) + 1.
Proof.
  induction l as [|a l IH]; intros p; cbn [depth_path app]; [cbn; tauto|]. rewrite IH. destruct l as [|b l]; [cbn; tauto|].
  rewrite last_cons_cons. destruct (last (b :: l)) eqn:E; [cbn; tauto|]. by apply last_None in E.
Qed.

Lemma items_ok_snoc l it : items_ok l → wf_item it → it_rl it <= deepest l + 1 → items_ok (l ++ [it]) ∧ deepest (l ++ [it]) = it_rl it.
Proof.
  intros [Hf Hd] Hw Hr. unfold items_ok, deepest in *. rewrite fmap_app. cbn. rewrite last_snoc. split; [|done]. split.
  - apply Forall_app. split; [done|]. by apply Forall_singleton.
  - apply depth_path_snoc. split; [done|]. destruct Hw as [? _]. lia.
Qed.

(** Changing an item without its depth. *)
Lemma items_ok_set l i it it' :
  items_ok l → l !! i = Some it → wf_item it' → it_rl it' = it_rl it → items_ok (<[i := it']> l) ∧ deepest (<[i := it']> l) = deepest l.
Proof.
  intros [Hf Hd] Hi Hw Hr. assert (it_rl <$> <[i := it']> l = it_rl <$> l) as E.
  { rewrite list_fmap_insert. apply list_insert_id. by rewrite list_lookup_fmap, Hi, Hr. }
  unfold items_ok, deepest. rewrite E. split; [|done]. split; [|done]. by apply Forall_insert.
Qed.

Lemma cstring_length s : (length (cstring s) <= length s)%nat.
Proof. induction s as [|c s IH]; cbn; [lia|]. destruct (c =? 0); cbn; lia. Qed.

Lemma wf_lookup l i it : items_ok l → l !! i = Some it → wf_item it.
Proof. intros [Hf _] Hi. by eapply Forall_lookup_1. Qed.

Lemma writememory_ok str type size parent x :
  items_ok (x_items x) → 0 <= parent <= 1023 → parent <= deepest (x_items x) + 1 → size - 1 <= XML_MAXSIZE → type ≠ XML_ATTR →
  let x' := _writememory str type size parent x in
  items_ok (x_items x') ∧ deepest (x_items x') = parent ∧ length (x_items x') = S (length (x_items x)).
Proof.
  intros Hi Hp Hd Hs Ht x'. unfold x', _writememory. cbn [x_items with_items]. match goal with |- items_ok (_ ++ [?it]) ∧ _ => pose proof (items_ok_snoc (x_items x) it Hi) as H end.
  destruct H as [H1 H2].
  - split_and!; cbn; try done; try lia; [|by destruct type]. unfold strlen, XML_MAXSIZE in *. rewrite length_take. lia.
  - done.
  - split_and!; [done|done|]. rewrite length_app. cbn. lia.
Qed.

(** A complete attribute. *)
Lemma write_attr_ok attr value parent x :
  items_ok (x_items x) → 0 <= parent <= 1023 → deepest (x_items x) = parent → strlen attr <= XML_MAXSIZE → strlen value <= XML_MAXSIZE →
  let x1 := _writememory attr XML_ATTR (strlen attr + 1) parent x in
  ∃ x', _writecontent value (Z.of_nat (length (x_items x1)) - 1) x1 = Some x' ∧
    items_ok (x_items x') ∧ deepest (x_items x') = parent ∧ x_items x `prefix_of` x_items x' ∧
    x_file x' = x_file x ∧ x_stash x' = x_stash x ∧ x_in x' = x_in x.
Proof.
  intros Hi Hp Hd Ha Hv x1. unfold x1, _writememory, _writecontent. cbn [x_items with_items]. rewrite length_app. cbn [length].
  replace (Z.to_nat (Z.of_nat (length (x_items x) + 1) - 1)) with (length (x_items x)) by lia.
  rewrite lookup_app_r, Nat.sub_diag by lia. cbn [lookup list_lookup mbind option_bind]. eexists. split; [reflexivity|]. cbn [x_items with_items x_file x_stash x_in].
  rewrite insert_app_r_alt, Nat.sub_diag by lia. cbn [insert list_insert it_el it_ct it_tp it_rl it_ck it_ln].
  match goal with |- items_ok (_ ++ [?it]) ∧ _ => pose proof (items_ok_snoc (x_items x) it Hi) as H end. destruct H as [H1 H2].
  - split_and!; cbn; try done; try lia. + unfold strlen in *. rewrite length_take. lia. + by intros c [= <-].
  - cbn. lia.
  - split_and!; try done. by eexists.
Qed.

(** ** Attributes *)

Lemma skip_spaces_ok fuel : ∀ x,
  x_ok x → (left_of x < fuel)%nat →
  ∃ c x', skip_spaces fuel (x_cmp x) x = Some (c, x') ∧ moved x x' ∧ (c = x_cmp x ∨ x_ok x' ∧ (left_of x' <= left_of x)%nat).
Proof.
  induction fuel as [|fuel IH]; intros x Hx Hf; [lia|]. cbn [skip_spaces]. destruct (getc_ok x Hx) as (c & x1 & -> & Hm & _ & Hc). cbn [mbind option_bind].
  destruct (Z.eqb_spec c (x_cmp x)) as [->|Hne]; [exists (x_cmp x), x1; auto|]. destruct Hc as [?|(_ & Hx1 & El)]; [done|].
  destruct (isspace c); [|exists c, x1; split_and!; auto with lia]. rewrite <-(moved_cmp x x1 Hm).
  destruct (IH x1 Hx1 ltac:(lia)) as (c2 & x2 & -> & Hm2 & Hc2). exists c2, x2. split; [done|]. split; [mv|].
  rewrite (moved_cmp x x1 Hm) in *. destruct Hc2 as [?|[? ?]]; [by left|]. right. split; [done|lia].
Qed.

(** What the caller of [_getattributes] gets. *)
Definition attr_res (parent : Z) (x : OS_XML) (r : Z) (x' : OS_XML) : Prop :=
  x_file x' = x_file x ∧ items_ok (x_items x') ∧ deepest (x_items x') = parent ∧ x_items x `prefix_of` x_items x' ∧
  (r = -1 ∨ (r = 0 ∨ r = SLASH) ∧ x_ok x' ∧ (left_of x' <= left_of x)%nat).

Lemma cmp_cases x : x_cmp x = 0 ∨ x_cmp x = -1.
Proof. unfold x_cmp. destruct (x_file x); auto. Qed.

Lemma put_xml buf c : Z.of_nat (length buf) < XML_MAXSIZE → put (XML_MAXSIZE + 1) buf c = Some (buf ++ [c]).
Proof. intros H. apply put_ok. lia. Qed.

Lemma attr_loop_ok trunc parent : 0 <= parent <= 1023 → ∀ fuel x loc1 attr buf cm,
  x_ok x → (left_of x < fuel)%nat → items_ok (x_items x) → deepest (x_items x) = parent →
  Z.of_nat (length buf) <= XML_MAXSIZE → Z.of_nat (length attr) <= XML_MAXSIZE →
  ∃ r x', attr_loop fuel parent trunc (x_cmp x) loc1 attr buf cm x = Some (r, x') ∧ attr_res parent x r x'.
Proof.
  intros Hp. induction fuel as [|fuel IH]; intros x loc1 attr buf cm Hx Hf Hi Hd Hb Ha; [lia|]. cbn [attr_loop].
  destruct (getc_ok x Hx) as (c & x1 & -> & Hm & _ & Hc). cbn [mbind option_bind]. pose proof Hm as [Ef Eit].
  assert (∀ e, ∃ r x', Some (-1, xml_error e x1) = Some (r, x') ∧ attr_res parent x r x') as Herr.
  { intros e. eexists _, _. split; [reflexivity|]. unfold attr_res. cbn. rewrite Eit. split_and!; auto. }
  destruct (Z.eqb_spec c (x_cmp x)) as [->|Hne]; [apply Herr|]. destruct Hc as [?|(_ & Hx1 & El)]; [done|].
  assert (∀ r, r = 0 ∨ r = SLASH → ∃ r' x', Some (r, x1) = Some (r', x') ∧ attr_res parent x r' x') as Hret.
  { intros r Hr. eexists _, _. split; [reflexivity|]. unfold attr_res. rewrite Eit. split_and!; auto. right. split_and!; [done|done|lia]. }
  assert (∀ y loc1 attr buf cm, x_file y = x_file x → x_ok y → (left_of y < left_of x)%nat → items_ok (x_items y) → deepest (x_items y) = parent →
    x_items x `prefix_of` x_items y → Z.of_nat (length buf) <= XML_MAXSIZE → Z.of_nat (length attr) <= XML_MAXSIZE →
    ∃ r x', attr_loop fuel parent trunc (x_cmp x) loc1 attr buf cm y = Some (r, x') ∧ attr_res parent x r x') as Hrec.
  { intros y l1 at1 b1 cm1 Hfy Hy Hly Hiy Hdy Hpy Hb1 Ha1. replace (x_cmp x) with (x_cmp y) by (unfold x_cmp; by rewrite Hfy).
    destruct (IH y l1 at1 b1 cm1 Hy ltac:(lia) Hiy Hdy Hb1 Ha1) as (r & x' & -> & (? & ? & ? & ? & Hr)). exists r, x'. split; [done|].
    unfold attr_res. split_and!; [congruence|done|done|by etransitivity|]. destruct Hr as [?|(? & ? & ?)]; [by left|]. right. split_and!; [done|done|lia]. }
  assert (items_ok (x_items x1) ∧ deepest (x_items x1) = parent) as [Hi1 Hd1] by (by rewrite Eit).
  assert (x_items x `prefix_of` x_items x1) as Hp1 by (by rewrite Eit).
  destruct (Z.leb_spec XML_MAXSIZE (length buf)) as [Hfull|Hfull]; [destruct (trunc && loc1); [apply Hret; auto|apply Herr]|].
  destruct ((c =? R_CONFE) || (negb loc1 && (c =? SLASH))).
  { destruct loc1; [apply Herr|]. destruct (0 <? length buf)%nat; [apply Herr|]. destruct (Z.eqb_spec c SLASH) as [->|]; apply Hret; auto. }
  destruct (negb loc1 && (c =? 61)).
  { destruct (attr_defined _ _ _); [apply Herr|]. destruct (getc_ok x1 Hx1) as (c2 & x2 & -> & Hm2 & _ & Hc2). cbn [mbind option_bind].
    assert (∃ c3 x3, (if is_quote c2 then Some (c2, x2) else if isspace c2 then skip_spaces (S (x_left x2)) (x_cmp x) x2 else Some (c2, x2)) = Some (c3, x3) ∧
      moved x x3 ∧ (is_quote c3 = false ∨ x_ok x3 ∧ (left_of x3 < left_of x)%nat)) as (c3 & x3 & -> & Hm3 & Hc3).
    { rewrite (moved_cmp x x1 Hm) in Hc2. destruct (cmp_cases x) as [Ecmp|Ecmp]; rewrite Ecmp in *;
        (destruct (is_quote c2) eqn:Eq; [exists c2, x2; split_and!; [done|mv|]; right; destruct Hc2 as [->|(_ & ? & ?)]; [done|split; [done|lia]]|];
         destruct (isspace c2) eqn:Es; [|exists c2, x2; split_and!; [done|mv|auto]];
         destruct Hc2 as [->|(_ & Hx2 & El2)]; [done|]; pose proof (left_x_left x2);
         destruct (skip_spaces_ok (S (x_left x2)) x2 Hx2 ltac:(lia)) as (c3 & x3 & E3 & Hm3 & Hc3);
         rewrite (moved_cmp x1 x2 Hm2), (moved_cmp x x1 Hm), Ecmp in E3, Hc3; exists c3, x3; split_and!; [done|mv|];
         destruct Hc3 as [->|[? ?]]; [by left|right; split; [done|lia]]). }
    cbn [mbind option_bind]. pose proof Hm3 as [Ef3 Eit3]. destruct (is_quote c3).
    - destruct Hc3 as [?|[Hx3 Hl3]]; [done|]. apply Hrec; try done; try lia; by rewrite Eit3.
    - eexists _, _. split; [reflexivity|]. unfold attr_res. cbn. rewrite Ef3, Eit3. split_and!; auto. }
  destruct (negb loc1 && isspace c).
  { destruct (_ =? _)%nat; [|apply Herr]. apply Hrec; try done; lia. }
  destruct (loc1 && (c =? cm)).
  { pose proof (cstring_length attr). pose proof (cstring_length buf).
    destruct (write_attr_ok (cstring attr) (cstring buf) parent x1 Hi1 Hp Hd1) as (x2 & -> & Hi2 & Hd2 & Hp2 & Ef2 & Es2 & Ein2); [unfold strlen; lia..|].
    cbn [mbind option_bind]. assert (x_cmp x2 = x_cmp x) as Ec2 by (unfold x_cmp; by rewrite Ef2, Ef).
    assert (stream x2 = stream x1) as Est by (unfold stream; by rewrite Es2, Ein2, Ef2).
    assert (x_ok x2) as Hx2. { destruct Hx1 as [? Hor]. split; [by rewrite Es2|]. rewrite Est, Ef2. unfold x_cmp in *. by rewrite Ef2. }
    assert (left_of x2 = left_of x1) as El2 by (unfold left_of, x_cmp; by rewrite Est, Ef2).
    destruct (getc_ok x2 Hx2) as (c3 & x3 & -> & [Ef3 Eit3] & _ & Hc3). cbn [mbind option_bind]. rewrite Ec2 in Hc3.
    assert (x_items x `prefix_of` x_items x3) as Hp3 by (rewrite Eit3; rewrite <-Eit; done).
    assert (∀ r, r = 0 ∨ r = SLASH → c3 ≠ x_cmp x → ∃ r' x', Some (r, x3) = Some (r', x') ∧ attr_res parent x r' x') as Hret3.
    { intros r Hr Hne3. destruct Hc3 as [?|(_ & ? & ?)]; [done|]. eexists _, _. split; [reflexivity|]. unfold attr_res. rewrite Ef3, Ef2.
      split_and!; try done; try (by rewrite Eit3). right. split_and!; [done|done|lia]. }
    assert (∀ k, (k = 62 ∨ k = 47) → c3 = k → c3 ≠ x_cmp x) as Hk by (intros k Hk ->; destruct (cmp_cases x) as [->| ->]; lia).
    destruct (isspace c3) eqn:Es3.
    - destruct Hc3 as [->|(_ & Hx3 & El3)]; [by destruct (cmp_cases x) as [E|E]; rewrite E in Es3|].
      apply Hrec; try done; try lia; try (by rewrite Eit3). congruence.
    - destruct (Z.eqb_spec c3 R_CONFE) as [->|]; [apply Hret3; [auto|]; apply (Hk 62); auto|].
      destruct (Z.eqb_spec c3 SLASH) as [->|]; [apply Hret3; [auto|]; apply (Hk 47); auto|].
      eexists _, _. split; [reflexivity|]. unfold attr_res. cbn. rewrite Ef3, Ef2. split_and!; auto; by rewrite Eit3. }
  rewrite put_xml by lia. cbn [mbind option_bind]. apply Hrec; try done; try lia. rewrite length_app. cbn. lia.
Qed.

(** ** Elements *)

Definition small (s : list Z) : Prop := Z.of_nat (length s) <= XML_MAXSIZE.

(** The variables of a level at depth [parent]. *)
Definition v_ok (parent : Z) (v : rvars) (x : OS_XML) : Prop :=
  small (v_buf v) ∧ small (v_elem v) ∧ small (v_cont v) ∧
  match v_loc v with
  | LCont | LClose => 0 <= v_cc v < Z.of_nat (length (x_items x)) ∧ parent <= deepest (x_items x)
  | _ => True
  end.

(** What an iteration or a level does to the items, which hold at least the
    parent of the level. *)
Definition grows (parent : Z) (x x' : OS_XML) : Prop :=
  x_file x' = x_file x ∧ items_ok (x_items x') ∧ parent - 1 <= deepest (x_items x') ∧ (length (x_items x) <= length (x_items x'))%nat.

Definition step_res (parent : Z) (v : rvars) (x : OS_XML) (o : outcome_x) : Prop :=
  match o with
  | XNext v' x' => grows parent x x' ∧ x_ok x' ∧ (left_of x' <= left_of x)%nat ∧ v_ok parent v' x'
  | XRet r x' => grows parent x x' ∧ (r = -1 ∨ r = 0 ∧ x_ok x' ∧ (left_of x' <= left_of x)%nat)
  | XChild v' x' =>
      v_loc v = LCont ∧ v_loc v' = LCont ∧ grows parent x x' ∧ x_ok x' ∧ (1 <= left_of x' <= S (left_of x))%nat ∧ v_ok parent v' x'
  end.

Lemma small_nil : small [].
Proof. unfold small, XML_MAXSIZE. cbn. lia. Qed.
Lemma small_cstring s : small s → small (cstring s).
Proof. unfold small. pose proof (cstring_length s). lia. Qed.

Lemma grows_moved parent x x' :
  moved x x' → items_ok (x_items x) → parent - 1 <= deepest (x_items x) → grows parent x x'.
Proof. intros [E1 E2] ? ?. unfold grows. rewrite E2. split_and!; done || lia. Qed.

Lemma v_ok_moved parent v x x' : moved x x' → v_ok parent v x → v_ok parent v x'.
Proof. intros [_ E]. unfold v_ok. by rewrite E. Qed.

(** Writing the content of an element and marking it as closed. *)
Lemma close_elem_ok parent v v0 content cc x x0 :
  grows parent x0 x → x_ok x → (left_of x <= left_of x0)%nat → 0 <= cc < Z.of_nat (length (x_items x)) → small content →
  ∃ o, close_elem parent v content cc x = Some o ∧ step_res parent v0 x0 o.
Proof.
  intros (Hf & Hi & Hd & Hl) Hx Hle Hcc Hsm. unfold close_elem, _writecontent, set_ck.
  destruct (lookup_lt_is_Some_2 (x_items x) (Z.to_nat cc)) as [it Hit]; [lia|]. rewrite Hit. cbn [mbind option_bind x_items with_items].
  rewrite list_lookup_insert_eq by lia. cbn [mbind option_bind]. rewrite list_insert_insert_eq. cbn [it_el it_ct it_tp it_rl it_ck it_ln].
  set (it' := XItem (it_el it) (Some content) (it_tp it) (it_rl it) true (it_ln it)). eexists. split; [reflexivity|].
  destruct (wf_lookup _ _ _ Hi Hit) as (H1 & H2 & _). assert (wf_item it') as Hw.
  { split_and!; cbn; [lia..|done| |done]. by intros c [= <-]. }
  destruct (items_ok_set _ _ _ _ Hi Hit Hw eq_refl) as [Hi' Hd']. set (x' := with_items _ _).
  assert (grows parent x0 x') as Hg by (unfold grows, x'; cbn; rewrite length_insert, Hd'; done).
  assert (x_ok x' ∧ left_of x' = left_of x) as [Hx' Hl'] by done. clearbody x'.
  destruct (0 <? parent); cbn [step_res]; [split; [done|]; right; split_and!; [done|done|lia]|].
  split_and!; [done|done|lia|apply small_nil..|done].
Qed.

Lemma open_elem_ok parent trunc c v x :
  0 <= parent <= 1023 → x_ok x → items_ok (x_items x) → parent - 1 <= deepest (x_items x) → v_ok parent v x →
  ∃ o, open_elem parent trunc (x_cmp x) c v x = Some o ∧ step_res parent v x o.
Proof.
  intros Hp Hx Hi Hd (Hb & He & Hc & _). unfold open_elem. destruct v as [loc prevv ig cc0 el0 cont buf]. cbn [v_buf v_elem v_cont] in *.
  unfold small in Hb. rewrite (proj2 (Z.ltb_ge _ _)) by done. cbn zeta. set (ge := bool_decide (last buf = Some SLASH)).
  set (elem := cstring (if ge then removelast buf else buf)).
  assert (small elem) as Hse.
  { apply small_cstring. unfold small. destruct ge; [|done]. rewrite removelast_firstn_len, length_take. lia. }
  destruct (writememory_ok elem XML_ELEM (length buf + 1) parent x Hi Hp ltac:(lia) ltac:(lia) ltac:(done)) as (Hi1 & Hd1 & Hl1).
  set (x1 := _writememory _ _ _ _ _) in *. assert (x_ok x1 ∧ left_of x1 = left_of x ∧ x_file x1 = x_file x) as (Hx1 & El1 & Ef1) by done.
  set (cc := Z.of_nat (length (x_items x1)) - 1).
  assert (∃ ga x2, (if isspace c then _getattributes parent x1 trunc (x_cmp x) else Some (0, x1)) = Some (ga, x2) ∧ attr_res parent x1 ga x2) as (ga & x2 & -> & Hr).
  { destruct (isspace c).
    - pose proof (left_x_left x1). apply (attr_loop_ok trunc parent Hp (S (x_left x1)) x1); try done; try lia; unfold XML_MAXSIZE; cbn; lia.
    - eexists _, _. split; [reflexivity|]. unfold attr_res. split_and!; try done. right. split_and!; auto. }
  cbn [mbind option_bind]. destruct Hr as (Ef2 & Hi2 & Hd2 & Hpre & Hr). apply prefix_length in Hpre.
  assert (grows parent x x2) as Hg by (unfold grows; split_and!; [congruence|done|lia|lia]).
  destruct (Z.ltb_spec ga 0) as [Hneg|Hpos]; [eexists; split; [reflexivity|]; cbn; auto|]. destruct Hr as [?|(_ & Hx2 & Hle2)]; [lia|].
  destruct (ge || (ga =? SLASH)).
  - apply close_elem_ok; try done; unfold cc; lia.
  - eexists. split; [reflexivity|]. cbn [step_res]. split_and!; try done; try lia. split_and!; cbn [v_buf v_elem v_cont v_loc v_cc]; try done; unfold cc; lia.
Qed.

Lemma elem_real_ok parent trunc c v x :
  0 <= parent <= 1023 → x_ok x → (length (x_stash x) <= 1)%nat → items_ok (x_items x) → parent - 1 <= deepest (x_items x) →
  v_ok parent v x → (Z.of_nat (length (v_buf v)) < XML_MAXSIZE ∨ v_loc v = LCont ∧ v_ignore v = true) →
  ∃ o, elem_real parent trunc (x_cmp x) c v x = Some o ∧ step_res parent v x o.
Proof.
  intros Hp Hx Hs Hi Hd Hv Hroom. pose proof (grows_moved parent x x ltac:(done) Hi Hd) as Hg0.
  unfold elem_real. destruct v as [loc prevv ig cc el cont buf]. pose proof Hv as (Hb & He & Hc & Hcc). cbn [v_buf v_elem v_cont v_loc v_cc v_ignore] in *.
  assert (∃ o, other_char c (RVars loc prevv ig cc el cont buf) x = Some o ∧ step_res parent (RVars loc prevv ig cc el cont buf) x o) as Hother.
  { unfold other_char. assert (∃ buf', (match loc with LElem | LClose => put (XML_MAXSIZE + 1) buf (uchar c)
       | LCont => if ig then Some buf else put (XML_MAXSIZE + 1) buf (uchar c) | LNone => Some buf end) = Some buf' ∧ small buf') as (buf' & -> & Hb').
    { assert (Z.of_nat (length buf) < XML_MAXSIZE → ∃ buf', put (XML_MAXSIZE + 1) buf (uchar c) = Some buf' ∧ small buf') as Hput.
      { intros Hlt. rewrite put_xml by done. eexists. split; [done|]. unfold small. rewrite length_app. cbn. lia. }
      destruct loc; [eauto| | |]; try (destruct ig; [eauto|]); apply Hput; destruct Hroom as [?|[? ?]]; done. }
    cbn [mbind option_bind]. eexists. split; [reflexivity|]. cbn. split_and!; done || lia. }
  destruct loc.
  - destruct prevv; [|done]. destruct (c =? R_CONFS); [|eexists; split; [reflexivity|]; cbn; split_and!; done || lia].
    destruct (peek_ok x Hx Hs) as (c2 & x2 & -> & Hm2 & _ & _ & _ & Hok & Hmu & Hle & _). cbn [mbind option_bind]. destruct (c2 =? SLASH).
    + eexists. split; [reflexivity|]. cbn. split; [|by left]. by apply (grows_moved parent x (xml_error ErrNotOpened x2)).
    + eexists. split; [reflexivity|]. cbn. split_and!; try done. by apply grows_moved.
  - destruct (_ || _); [|done]. by apply open_elem_ok.
  - destruct (_ && _); [|done].
    destruct (peek_ok x Hx Hs) as (c2 & x2 & -> & Hm2 & _ & _ & Hc2 & Hok & Hmu & Hle & Hs3). cbn [mbind option_bind].
    destruct (Z.eqb_spec c2 SLASH) as [->|_].
    + unfold small in Hb. rewrite (proj2 (Z.ltb_ge _ _)) by done. destruct Hc2 as [Hx2 El2]; [destruct (cmp_cases x) as [->| ->]; done|].
      eexists. split; [reflexivity|]. cbn [step_res]. split_and!; [by apply grows_moved|done|lia|].
      apply (v_ok_moved parent _ x); [done|]. split_and!; cbn [v_buf v_elem v_cont v_loc v_cc]; [apply small_nil|done|by apply small_cstring|done].
    + destruct (ungetc_ok R_CONFS (xml_ungetc c2 x2) ltac:(lia) (or_introl Hok)) as (Hok3 & Hm3 & _ & Hle3 & _ & Heq3).
      assert (left_of (xml_ungetc R_CONFS (xml_ungetc c2 x2)) = S (left_of (xml_ungetc c2 x2))) as El3.
      { apply Heq3. destruct (cmp_cases (xml_ungetc c2 x2)) as [->| ->]; done. }
      eexists. split; [reflexivity|]. cbn [step_res v_loc]. split_and!; try done; try lia; [apply grows_moved; [mv|done|done]|].
      apply (v_ok_moved parent _ x); [mv|]. split_and!; cbn [v_buf v_elem v_cont v_loc v_cc]; [apply small_nil|done|done|done].
  - destruct (c =? R_CONFE); [|done]. unfold small in Hb. rewrite (proj2 (Z.ltb_ge _ _)) by done.
    destruct (negb _); [eexists; split; [reflexivity|]; cbn; split; [done|by left]|]. apply close_elem_ok; done || lia.
Qed.

Lemma step_res_left parent v x0 x o :
  grows parent x0 x → (left_of x <= left_of x0)%nat → step_res parent v x o → step_res parent v x0 o.
Proof.
  intros (Hf & _ & _ & Hl) Hle. assert (∀ y, grows parent x y → grows parent x0 y) as Hg.
  { intros y (? & ? & ? & ?). unfold grows. split_and!; [congruence|done|done|lia]. }
  destruct o as [v' x'|r x'|v' x']; cbn [step_res].
  - intros (? & ? & ? & ?). split_and!; [by apply Hg|done|lia|done].
  - intros [? [?|(? & ? & ?)]]; (split; [by apply Hg|]); [by left|right]. split_and!; [done|done|lia].
  - intros (? & ? & ? & ? & ? & ?). split_and!; try done; [by apply Hg|lia|lia].
Qed.

Lemma elem_step_ok parent trunc c v x :
  0 <= parent <= 1023 → x_ok x → (length (x_stash x) <= 1)%nat → items_ok (x_items x) → parent - 1 <= deepest (x_items x) → v_ok parent v x →
  ∃ o, elem_step parent trunc (x_cmp x) c v x = Some o ∧ step_res parent v x o.
Proof.
  intros Hp Hx Hs Hi Hd Hv. unfold elem_step. destruct v as [loc prevv ig cc el cont buf].
  assert (∀ e x', moved x x' → ∃ o, Some (XRet (-1) (xml_error e x')) = Some o ∧ step_res parent (RVars loc prevv ig cc el cont buf) x o) as Herr.
  { intros e x' Hm. eexists. split; [reflexivity|]. cbn [step_res]. split; [|by left]. by apply (grows_moved parent x (xml_error e x')). }
  set (full := XML_MAXSIZE <=? length buf). set (cut := trunc && _). destruct (full && negb cut) eqn:Efc; [by apply Herr|].
  set (v := RVars loc _ (if full then true else ig) cc el cont buf). cbn zeta. fold v.
  assert (v_ok parent v x) as Hv' by exact Hv.
  assert (Z.of_nat (length (v_buf v)) < XML_MAXSIZE ∨ v_loc v = LCont ∧ v_ignore v = true) as Hroom.
  { cbn. unfold full in *. destruct (Z.leb_spec XML_MAXSIZE (length buf)); [right|left; lia]. split; [|done].
    cbn in Efc. apply negb_false_iff, andb_true_iff in Efc as [_ Eloc]. by destruct loc. }
  assert (∃ r x1, (if c =? R_CONFS then _oscomment x (x_cmp x) else Some (0, x)) = Some (r, x1) ∧ moved x x1 ∧
    (r = -1 ∨ r = 1 ∧ x_ok x1 ∧ (left_of x1 <= left_of x)%nat ∨ r = 0 ∧ x_ok x1 ∧ (left_of x1 <= left_of x)%nat ∧ (length (x_stash x1) <= 1)%nat))
    as (r & x1 & -> & Hm & Hr).
  { destruct (c =? R_CONFS); [|exists 0, x; split; [done|]; split; [done|]; right; right; split_and!; done || lia]. destruct (oscomment_ok x Hx Hs) as (r & x1 & -> & Hm & Hr). exists r, x1.
    split; [done|]. split; [done|]. destruct Hr as [?|[?|(? & ? & ? & ?)]]; [by left|by right; left|right; right; split_and!; done || lia]. }
  cbn [mbind option_bind]. destruct (Z.ltb_spec r 0) as [Hneg|Hpos]; [by apply Herr|]. destruct Hr as [?|[(-> & Hx1 & Hl1)|(-> & Hx1 & Hl1 & Hs1)]]; [lia| |].
  - cbn iota. eexists. split; [reflexivity|]. cbn [step_res]. split_and!; [by apply grows_moved|done|done|by apply (v_ok_moved parent v x)].
  - cbn iota. rewrite <-(moved_cmp x x1 Hm). pose proof Hm as [_ Eit].
    destruct (elem_real_ok parent trunc c v x1) as (o & -> & Ho); try done; try (by rewrite Eit); [by apply (v_ok_moved parent v x)|].
    exists o. split; [done|]. apply (step_res_left parent _ x x1); [by apply grows_moved|done|]. exact Ho.
Qed.

(** A level ends after at most two iterations per character. *)
Lemma read_loop_ok trunc fuel : ∀ parent v x,
  0 <= parent <= 1023 → x_ok x → items_ok (x_items x) → parent - 1 <= deepest (x_items x) → v_ok parent v x →
  (1 <= fuel)%nat → (2 * left_of x + (match v_loc v with LCont => 1 | _ => 0 end) <= fuel)%nat →
  ∃ r x', read_loop fuel trunc (x_cmp x) parent (parent + 1) v x = Some (r, x') ∧ grows parent x x' ∧
    (r = -1 ∨ r = LEOF ∨ r = 0 ∧ x_ok x' ∧ (left_of x' < left_of x)%nat).
Proof.
  induction fuel as [|fuel IH]; intros parent v x Hp Hx Hi Hd Hv Hf1 Hf; [lia|]. cbn [read_loop].
  destruct (getc_ok x Hx) as (c & x1 & -> & Hm & Hs & Hc). cbn [mbind option_bind]. pose proof Hm as [Ef Eit]. pose proof Hx as [Hs2 _].
  destruct (Z.eqb_spec c (x_cmp x)) as [->|Hne].
  { eexists _, _. split; [reflexivity|]. split; [by apply (grows_moved parent x (xml_error ErrEof x1))|]. destruct (v_loc v); auto. }
  destruct Hc as [?|(_ & Hx1 & El)]; [done|]. rewrite <-(moved_cmp x x1 Hm).
  destruct (elem_step_ok parent trunc c v x1) as (o & -> & Ho); try done; try (by rewrite Eit); [lia|by apply (v_ok_moved parent v x)|].
  assert (grows parent x x1) as Hg1 by (by apply grows_moved). cbn [mbind option_bind].
  assert (∀ v' y, v_ok parent v' y → grows parent x y → x_ok y → (left_of y < left_of x)%nat → (2 * left_of y + 1 <= fuel)%nat →
    ∃ r x', read_loop fuel trunc (x_cmp x1) parent (parent + 1) v' y = Some (r, x') ∧ grows parent x x' ∧
      (r = -1 ∨ r = LEOF ∨ r = 0 ∧ x_ok x' ∧ (left_of x' < left_of x)%nat)) as Hrec.
  { intros v' y Hv' (Hfy & Hiy & Hdy & Hly) Hy Hlt Hfu. replace (x_cmp x1) with (x_cmp y) by (unfold x_cmp; by rewrite Hfy, Ef).
    destruct (IH parent v' y Hp Hy Hiy Hdy Hv' ltac:(lia)) as (r & x' & -> & Hg & Hr); [destruct (v_loc v'); lia|].
    exists r, x'. split; [done|]. destruct Hg as (? & ? & ? & ?). split; [unfold grows; split_and!; [congruence|done|done|lia]|].
    destruct Hr as [?|[?|(? & ? & ?)]]; auto. right; right. split_and!; [done|done|lia]. }
  assert (∀ y, grows parent x1 y → grows parent x y) as Htr.
  { intros y (? & ? & ? & ?). destruct Hg1 as (? & _ & _ & ?). unfold grows. split_and!; [congruence|done|done|lia]. }
  destruct o as [v' x'|r x'|v' x']; cbn [step_res] in Ho.
  - destruct Ho as (Hg & Hx' & Hl' & Hv'). apply Hrec; [done|by apply Htr|done|lia|]. destruct (v_loc v); lia.
  - destruct Ho as (Hg & Hr). exists r, x'. split; [done|]. split; [by apply Htr|]. destruct Hr as [?|(? & ? & ?)]; auto. right; right. split_and!; [done|done|lia].
  - destruct Ho as (Hloc & Hloc' & Hg & Hx' & [Hl1 Hl2] & Hv'). rewrite Hloc in Hf. pose proof (Htr _ Hg) as (Hfx & Hix & Hdx & Hlx).
    destruct (1024 <? parent + 1 + 1) eqn:E1024.
    { eexists _, _. split; [reflexivity|]. split; [|by left]. by unfold grows; cbn. }
    apply Z.ltb_ge in E1024. pose proof Hv' as (_ & _ & _ & Hcc). rewrite Hloc' in Hcc. replace (x_cmp x1) with (x_cmp x') by (unfold x_cmp; by rewrite Hfx, Ef).
    destruct (IH (parent + 1) v_start x') as (r & x2 & -> & Hg2 & Hr); try done; try lia; try (cbn [v_loc v_start]; lia).
    cbn [mbind option_bind]. destruct Hg2 as (Hf2 & Hi2 & Hd2 & Hle2).
    destruct (Z.ltb_spec r 0) as [|Hr0]; [eexists _, _; split; [reflexivity|]; split; [unfold grows; split_and!; [congruence|done|lia|lia]|by left]|].
    destruct Hr as [?|[?|(-> & Hx2 & Hl3)]]; [lia|unfold LEOF in *; lia|].
    replace (x_cmp x') with (x_cmp x1) by (unfold x_cmp; by rewrite Hfx, Ef).
    apply Hrec; [|unfold grows; split_and!; [congruence|done|lia|lia]|done|lia|lia].
    destruct Hv' as (? & ? & ? & _). split_and!; try done. rewrite Hloc'. split; [lia|lia].
Qed.

Lemma not_closed_spec l : not_closed l = None → Forall (λ it, it_ck it = true) l.
Proof. induction l as [|it l IH]; [constructor|]. cbn. destruct (it_ck it) eqn:E; [|done]. intros H. constructor; auto. Qed.

(** The outcome of a parse: 0 with all items closed and their contents set, or
    -1 with a message. *)
Definition parse_res (r : Z) (x : OS_XML) : Prop :=
  (r = 0 ∧ Forall (λ it, it_ck it = true ∧ it_ct it ≠ None) (x_items x) ∨ r = -1) ∧
  Forall wf_item (x_items x) ∧ depth_path (-1) (it_rl <$> x_items x).

Lemma ParseXML_ok x trunc :
  x_items x = [] → (x_file x = true ∨ x_cmp x ∈ schar <$> x_in x) → ∃ r x', ParseXML x trunc = Some (r, x') ∧ parse_res r x'.
Proof.
  intros Hit Hin. unfold ParseXML, _ReadElem. set (x1 := with_in x 1 [] (x_in x)).
  assert (x_ok x1) as Hx1. { split; [cbn; lia|]. unfold stream. cbn. destruct Hin as [?|Hin]; [by left|]. destruct (x_file x) eqn:Ef; [by left|]. right. exact Hin. }
  pose proof (left_x_left x1) as Hle.
  destruct (read_loop_ok trunc (2 * x_left x1 + 2) 0 v_start x1) as (r & x2 & E & (Hf & [Hw Hdp] & _) & Hr); try done; try lia.
  { cbn. rewrite Hit. split; constructor. }
  { cbn. rewrite Hit. cbn. lia. }
  { cbn [v_loc v_start]. lia. }
  change (0 + 1) with 1 in E. rewrite E. cbn [mbind option_bind]. destruct ((r <? 0) && negb (r =? LEOF)); [exists (-1), x2; split; [done|]; split; [by right|done]|].
  destruct (not_closed (x_items x2)) as [el|] eqn:En; [eexists _, _; split; [reflexivity|]; split; [by right|done]|].
  exists 0, x2. split; [done|]. split; [|done]. left. split; [done|]. apply not_closed_spec in En. rewrite Forall_forall in *. intros it Hin2.
  pose proof (En it Hin2) as Hck. split; [done|]. by apply (Hw it Hin2).
Qed.

(** * Claims *)

(** C18: The parser is total: on every string and every file, whatever bytes they
    hold and with either flag, it returns after finitely many steps, no read
    goes past the terminator of the string and no write past a buffer of
    XML_MAXSIZE + 1 bytes; the answer is 0 or -1.  The items it leaves, also
    after an error, form a tree: depths below 1024, each at most one more than
    the depth before it, and names and contents within XML_MAXSIZE; after
    success every item is closed and has its content. *)
Theorem ParseXML_total s bytes trunc :
  (∃ r x, OS_ReadXMLString_Ex s trunc = Some (r, x) ∧ parse_res r x) ∧
  (∃ r x, OS_ReadXML_Ex (Some bytes) trunc = Some (r, x) ∧ parse_res r x).
Proof.
  split.
  - apply ParseXML_ok; [done|]. right. cbn. unfold mem. rewrite fmap_app. apply elem_of_app. right. by left.
  - apply ParseXML_ok; [done|]. by left.
Qed.

(** The stash holds characters as [char], so a byte 255 of a file that is put
    back is read again as the end of the file: the comment of
    "<a><!-- -\xFF --></a>" counts as not closed in a file, while the same text
    is accepted as a string. *)
Theorem xml_byte_255 :
  let text := [60; 97; 62; 60; 33; 45; 45; 32; 45; 255; 32; 45; 45; 62; 60; 47; 97; 62] in
  (∃ x, OS_ReadXML (Some text) = Some (-1, x) ∧ x_err x = Some ErrComment) ∧ (∃ x, OS_ReadXMLString text = Some (0, x)).
Proof. split; eexists; [split; [vm_compute; reflexivity|reflexivity]|vm_compute; reflexivity]. Qed.
