(* ===== verification/XmlRound.v ===== *)
(** Parsing what is printed: a tree of elements with attributes and contents,
    written as text, is read by the parser into its table and found again by
    walking the table with OS_GetElementsbyNode. *)

From S2P Require Import Prelude CLib OsMatch OsMatchSpec Xml XmlSpec.

(** ** Trees *)

Inductive xtree := XTree (name : cstr) (attrs : list (cstr * cstr)) (kids : list xtree) (content : cstr).

Definition xtree_ind' (P : xtree → Prop) (H : ∀ n as_ ks c, Forall P ks → P (XTree n as_ ks c)) : ∀ t, P t :=
  fix go t :=
    match t with
    | XTree n as_ ks c =>
        H n as_ ks c ((fix all (l : list xtree) : Forall P l :=
          match l with [] => Forall_nil_2 P | t :: l => Forall_cons_2 P t l (go t) (all l) end) ks)
    end.

(** The text: an attribute, and an element with its attributes, children and
    content. *)
Definition show_attr (av : cstr * cstr) : cstr := av.1 ++ 61 :: 34 :: av.2 ++ [34].
Fixpoint show (t : xtree) : cstr :=
  let 'XTree n ats ks c := t in
  R_CONFS :: n ++ (ats ≫= λ av, 32 :: show_attr av) ++ R_CONFE :: (ks ≫= show) ++ c ++ R_CONFS :: SLASH :: n ++ [R_CONFE].
Definition show_forest (ts : list xtree) : cstr := ts ≫= show.

(** The table; the line numbers are left out. *)
Definition strip (it : xitem) : xitem := XItem (it_el it) (it_ct it) (it_tp it) (it_rl it) (it_ck it) 0.
Definition flat_attr (d : Z) (av : cstr * cstr) : xitem := XItem av.1 (Some av.2) XML_ATTR d true 0.
Fixpoint flat (d : Z) (t : xtree) : list xitem :=
  let 'XTree n ats ks c := t in
  XItem n (Some c) XML_ELEM d true 0 :: (flat_attr d <$> ats) ++ (ks ≫= flat (d + 1)).
Definition flat_forest (d : Z) (ts : list xtree) : list xitem := ts ≫= flat d.

Fixpoint height (t : xtree) : nat := let 'XTree _ _ ks _ := t in S (foldr Nat.max 0%nat (height <$> ks)).

(** Which names, attributes and contents the text can carry. *)
Definition char_in (no : list Z) (c : Z) : Prop := char_ok c ∧ c ∉ no.
Definition short (s : cstr) : Prop := strlen s < XML_MAXSIZE.
Definition name_ok (n : cstr) : Prop :=
  n ≠ [] ∧ short n ∧ Forall (λ c, char_in [R_CONFS; R_CONFE] c ∧ isspace c = false) n ∧
  (∀ c, head n = Some c → c ∉ [R_COM; SLASH]) ∧ last n ≠ Some SLASH ∧ strcasecmp XML_VAR n ≠ 0.
Definition attr_ok (av : cstr * cstr) : Prop :=
  short av.1 ∧ short av.2 ∧ Forall (λ c, char_in [R_CONFE; SLASH; 61] c ∧ isspace c = false) av.1 ∧
  Forall (char_in [R_CONFE; 34]) av.2 ∧ strcasecmp XML_VAR av.1 ≠ 0.
Definition content_ok (c : cstr) : Prop := short c ∧ Forall (char_in [R_CONFS]) c ∧ last c ≠ Some 92.
Fixpoint tree_ok (t : xtree) : Prop :=
  let 'XTree n ats ks c := t in
  name_ok n ∧ Forall attr_ok ats ∧ NoDup ats.*1 ∧ content_ok c ∧ foldr and True (tree_ok <$> ks).

Lemma tree_ok_kids ks : foldr and True (tree_ok <$> ks) ↔ Forall tree_ok ks.
Proof. induction ks as [|k ks IH]; cbn; [by split|]. rewrite Forall_cons, IH. done. Qed.

(** ** The characters to come *)

(** The state in front of the text [s] of a string, with the table [its] and at
    most [k] characters put back. *)
Definition at_ (k : nat) (x : OS_XML) (s : cstr) (its : list xitem) : Prop :=
  x_file x = false ∧ stream x = schar <$> s ∧ (length (x_stash x) <= k)%nat ∧ strip <$> x_items x = its.

Lemma at_weaken k k' x s its : at_ k x s its → (k <= k')%nat → at_ k' x s its.
Proof. intros (? & ? & ? & ?) ?. split_and!; done || lia. Qed.

Lemma schar_eqb c k : byte c → 0 <= k < 128 → (schar c =? k) = (c =? k).
Proof. unfold byte, schar. intros. destruct (Z.ltb_spec c 128); [done|]. destruct (Z.eqb_spec c k); [lia|]. apply Z.eqb_neq. lia. Qed.

Lemma isspace_schar c : byte c → isspace (schar c) = isspace c.
Proof.
  unfold byte, isspace, schar. intros. destruct (Z.ltb_spec c 128); [done|].
  rewrite !(proj2 (Z.eqb_neq _ _)) by lia. rewrite (proj2 (Z.leb_gt 9 _)) by lia. rewrite (proj2 (Z.leb_gt c 13)) by lia. by rewrite andb_false_r.
Qed.

Lemma uchar_schar c : byte c → uchar (schar c) = c.
Proof.
  unfold byte, uchar, schar. intros. destruct (Z.ltb_spec c 128); [apply Z.mod_small; lia|].
  replace (c - 256) with (c + -1 * 256) by lia. rewrite Z.mod_add by lia. apply Z.mod_small. lia.
Qed.

Lemma char_byte c : char_ok c → byte c.
Proof. unfold char_ok, byte. lia. Qed.

Lemma getc_at k x c s its :
  at_ k x (c :: s) its → ∃ x', xml_getc x = Some (schar c, x') ∧ at_ (k - 1) x' s its.
Proof.
  intros (Hf & Hs & Hk & Hi). unfold xml_getc, stream in *. destruct x as [its0 fol err el ln st fl inp]. cbn in *. subst fl.
  destruct st as [|a st]; cbn in *.
  - destruct inp as [|b inp]; [done|]. cbn in Hs. injection Hs as Hb Hs. eexists. split; [by rewrite Hb|]. split_and!; cbn; done || lia.
  - injection Hs as -> Hs. eexists. split; [done|]. split_and!; cbn; done || lia.
Qed.

Lemma ungetc_at k x c s its : at_ k x s its → (k < 2)%nat → byte c → at_ (S k) (xml_ungetc (schar c) x) (c :: s) its.
Proof.
  intros (Hf & Hs & Hk & Hi) Hk2 Hc. unfold xml_ungetc. rewrite (proj2 (Z.leb_gt _ _)) by (unfold XML_STASH_LEN; lia).
  unfold at_, stream in *. cbn. rewrite Hf in *. rewrite uchar_schar by done. split_and!; try done; try lia. by rewrite Hs.
Qed.

(** The next character does not start a comment. *)
Lemma comment_at k x c s its : at_ k x (c :: s) its → (k <= 1)%nat → byte c → c ≠ R_COM → ∃ x', _oscomment x 0 = Some (0, x') ∧ at_ 1 x' (c :: s) its.
Proof.
  intros Ha Hk Hc Hne. unfold _oscomment. destruct (getc_at _ _ _ _ _ Ha) as (x1 & -> & Ha1). cbn [mbind option_bind].
  rewrite schar_eqb by (done || unfold R_COM; lia). rewrite (proj2 (Z.eqb_neq _ _)) by done. eexists. split; [done|].
  replace (k - 1)%nat with 0%nat in Ha1 by lia. apply ungetc_at; [done|lia|done].
Qed.

(** ** Sequences of iterations *)

Section loops.
Context (trunc : bool).

Definition ends (parent : Z) (v : rvars) (x : OS_XML) (res : Z * OS_XML) : Prop :=
  ∃ f, read_loop f trunc 0 parent (parent + 1) v x = Some res.
(** Whatever [v'], [x'] ends in, [v], [x] ends in too. *)
Definition steps (parent : Z) (v : rvars) (x : OS_XML) (v' : rvars) (x' : OS_XML) : Prop :=
  ∀ res, ends parent v' x' res → ends parent v x res.

Lemma steps_trans parent v1 x1 v2 x2 v3 x3 : steps parent v1 x1 v2 x2 → steps parent v2 x2 v3 x3 → steps parent v1 x1 v3 x3.
Proof. intros H1 H2 res H. by apply H1, H2. Qed.

(** More fuel gives the same result. *)
Lemma read_loop_mono f : ∀ f' parent rl v x res,
  (f <= f')%nat → read_loop f trunc 0 parent rl v x = Some res → read_loop f' trunc 0 parent rl v x = Some res.
Proof.
  induction f as [|f IH]; intros [|f'] parent rl v x res Hf; try done; [lia|]. cbn [read_loop].
  destruct (xml_getc x) as [[c x1]|]; [|done]. cbn [mbind option_bind]. destruct (c =? 0); [done|].
  destruct (elem_step _ _ _ _ _ _) as [o|]; [|done]. cbn [mbind option_bind]. destruct o as [v' x'|r x'|v' x']; [apply IH; lia|done|].
  destruct (1024 <? rl + 1); [done|]. destruct (read_loop f trunc 0 (parent + 1) (rl + 1) v_start x') as [[r x2]|] eqn:E; [|done].
  rewrite (IH f' _ _ _ _ _ ltac:(lia) E). cbn [mbind option_bind]. destruct (r <? 0); [done|]. apply IH. lia.
Qed.

Lemma steps_one parent v x c x1 v' x' :
  xml_getc x = Some (c, x1) → c ≠ 0 → elem_step parent trunc 0 c v x1 = Some (XNext v' x') → steps parent v x v' x'.
Proof.
  intros E Hc Hs res [f Hf]. exists (S f). cbn [read_loop]. rewrite E. cbn [mbind option_bind]. rewrite (proj2 (Z.eqb_neq c 0)) by done.
  rewrite Hs. exact Hf.
Qed.

Lemma steps_child parent v x c x1 v1 x2 x3 :
  xml_getc x = Some (c, x1) → c ≠ 0 → elem_step parent trunc 0 c v x1 = Some (XChild v1 x2) → parent + 1 <= 1023 →
  ends (parent + 1) v_start x2 (0, x3) → steps parent v x v1 x3.
Proof.
  intros E Hc Hs Hp [f1 H1] res [f2 H2]. exists (S (f1 + f2)). cbn [read_loop]. rewrite E. cbn [mbind option_bind]. rewrite (proj2 (Z.eqb_neq c 0)) by done.
  rewrite Hs. cbn [mbind option_bind]. rewrite (proj2 (Z.ltb_ge _ _)) by lia.
  rewrite (read_loop_mono f1 (f1 + f2) _ _ _ _ _ ltac:(lia) H1). cbn [mbind option_bind]. change (0 <? 0) with false. cbn iota.
  apply (read_loop_mono f2); [lia|done].
Qed.

(** ** One character *)

Definition quote_after (c : Z) (p : bool) : bool := if c =? 92 then negb p else true.

(** A character other than [<]. *)
Lemma step_plain parent loc p ig cc el cont buf c x :
  byte c → c ≠ R_CONFS → short buf →
  elem_step parent trunc 0 (schar c) (RVars loc p ig cc el cont buf) x =
  elem_real parent trunc 0 (schar c) (RVars loc (quote_after c p) ig cc el cont buf) x.
Proof.
  intros Hb Hc Hs. unfold elem_step, short, strlen in *. rewrite (proj2 (Z.leb_gt _ _)) by done. cbn [andb].
  rewrite !schar_eqb by (done || unfold R_CONFS; lia). rewrite (proj2 (Z.eqb_neq c R_CONFS)) by done. cbn [mbind option_bind negb andb Z.ltb Z.eqb Z.compare].
  unfold quote_after. destruct (c =? 92); [done|]. by destruct p.
Qed.

(** A [<] before a character that does not start a comment. *)
Lemma step_open k parent loc p ig cc el cont buf c s x its :
  at_ k x (c :: s) its → (k <= 1)%nat → byte c → c ≠ R_COM → short buf →
  ∃ x', at_ 1 x' (c :: s) its ∧
    elem_step parent trunc 0 (schar R_CONFS) (RVars loc p ig cc el cont buf) x = elem_real parent trunc 0 R_CONFS (RVars loc p ig cc el cont buf) x'.
Proof.
  intros Ha Hk Hb Hc Hs. destruct (comment_at _ _ _ _ _ Ha Hk Hb Hc) as (x' & E & Ha'). exists x'. split; [done|].
  unfold elem_step, short, strlen in *. rewrite (proj2 (Z.leb_gt _ _)) by done. cbn [andb]. change (schar R_CONFS) with R_CONFS.
  change (R_CONFS =? 92) with false. change (R_CONFS =? R_CONFS) with true. cbn [negb andb]. rewrite E. done.
Qed.

Lemma schar_nz c : char_ok c → schar c ≠ 0.
Proof. unfold char_ok, schar. intros. destruct (Z.ltb_spec c 128); lia. Qed.

(** Text that goes to the buffer: the name of an element or of its end, or a
    content. *)
Definition takes (loc : location) (ig : bool) (c : Z) : Prop :=
  match loc with
  | LElem => c ≠ R_CONFE ∧ isspace c = false
  | LCont => ig = false
  | LClose => c ≠ R_CONFE
  | LNone => False
  end.

Lemma steps_text parent loc ig cc el cont t : ∀ p buf k x s its,
  Forall (λ c, char_in [R_CONFS] c ∧ takes loc ig c) t → short (buf ++ t) → at_ k x (t ++ s) its → (k <= 2)%nat →
  ∃ x', steps parent (RVars loc p ig cc el cont buf) x
          (RVars loc (foldl (λ p c, quote_after c p) p t) ig cc el cont (buf ++ t)) x' ∧ at_ 2 x' s its.
Proof.
  induction t as [|c t IH]; intros p buf k x s its Ht Hs Ha Hk.
  { exists x. rewrite app_nil_r. split; [by intros res|]. by eapply at_weaken. }
  apply Forall_cons in Ht as [[[Hok Hnc] Hta] Ht]. assert (c ≠ R_CONFS) as Hc by (intros ->; apply Hnc; by left).
  pose proof (char_byte c Hok) as Hb. destruct (getc_at _ _ _ _ _ Ha) as (x1 & E & Ha1).
  assert (short buf) as Hsb by (unfold short, strlen in *; rewrite length_app in Hs; lia).
  assert (elem_step parent trunc 0 (schar c) (RVars loc p ig cc el cont buf) x1 =
    Some (XNext (RVars loc (quote_after c p) ig cc el cont (buf ++ [c])) x1)) as Hstep.
  { rewrite step_plain by done. unfold elem_real. assert (schar c =? R_CONFS = false) as Ec.
    { rewrite schar_eqb by (done || unfold R_CONFS; lia). by apply Z.eqb_neq. }
    assert (other_char (schar c) (RVars loc (quote_after c p) ig cc el cont buf) x1 = Some (XNext (RVars loc (quote_after c p) ig cc el cont (buf ++ [c])) x1)) as Ho.
    { unfold other_char. rewrite uchar_schar by done. rewrite put_xml by (unfold short, strlen in Hsb; lia). rewrite Ec. destruct loc; try done. cbn in Hta. by subst ig. }
    destruct loc; cbn [takes] in Hta; [done| | |].
    - rewrite schar_eqb by (done || unfold R_CONFE; lia). rewrite isspace_schar by done. destruct Hta as [Hne ->]. by rewrite (proj2 (Z.eqb_neq c _)).
    - by rewrite Ec.
    - rewrite schar_eqb by (done || unfold R_CONFE; lia). by rewrite (proj2 (Z.eqb_neq c _)). }
  destruct (IH (quote_after c p) (buf ++ [c]) (k - 1)%nat x1 s its Ht) as (x' & Hst & Ha'); [by rewrite <-app_assoc|done|lia|].
  exists x'. rewrite <-app_assoc in Hst. split; [|done]. eapply steps_trans; [|exact Hst]. eapply steps_one; [exact E|by apply schar_nz|exact Hstep].
Qed.

Lemma quote_end t p : t ≠ [] → last t ≠ Some 92 → foldl (λ p c, quote_after c p) p t = true.
Proof.
  destruct t as [|c t _] using rev_ind; [done|]. intros _ Hl. rewrite last_snoc in Hl. rewrite foldl_app. cbn. unfold quote_after at 1.
  destruct (Z.eqb_spec c 92) as [->|]; done.
Qed.

(** [<] where no element is open. *)
Lemma steps_start parent ig cc el cont c k x s its :
  at_ k x (R_CONFS :: c :: s) its → (k <= 2)%nat → char_ok c → c ∉ [R_COM; SLASH] →
  ∃ x', steps parent (RVars LNone true ig cc el cont []) x (RVars LElem true ig cc el cont []) x' ∧ at_ 2 x' (c :: s) its.
Proof.
  intros Ha Hk Hok Hc. rewrite !not_elem_of_cons in Hc. destruct Hc as (Hc1 & Hc2 & _). pose proof (char_byte c Hok) as Hb.
  destruct (getc_at _ _ _ _ _ Ha) as (x1 & E & Ha1).
  destruct (step_open (k - 1) parent LNone true ig cc el cont [] c s x1 its Ha1) as (x2 & Ha2 & Hstep); [lia|done|done|by unfold short, strlen, XML_MAXSIZE|].
  destruct (getc_at _ _ _ _ _ Ha2) as (x3 & E3 & Ha3). exists (xml_ungetc (schar c) x3). split.
  - eapply steps_one; [exact E|done|]. rewrite Hstep. unfold elem_real. cbn iota. change (R_CONFS =? R_CONFS) with true. cbn iota.
    rewrite E3. cbn [mbind option_bind]. rewrite schar_eqb by (done || unfold SLASH; lia). by rewrite (proj2 (Z.eqb_neq c SLASH)).
  - eapply at_weaken; [apply ungetc_at; [exact Ha3|lia|done]|lia].
Qed.

(** [</] after the content. *)
Lemma steps_close parent ig cc el cont buf k x s its :
  at_ k x (R_CONFS :: SLASH :: s) its → (k <= 2)%nat → short buf → Forall char_ok buf →
  ∃ x', steps parent (RVars LCont true ig cc el cont buf) x (RVars LClose true false cc el buf []) x' ∧ at_ 2 x' s its.
Proof.
  intros Ha Hk Hs Hok. destruct (getc_at _ _ _ _ _ Ha) as (x1 & E & Ha1).
  destruct (step_open (k - 1) parent LCont true ig cc el cont buf SLASH s x1 its Ha1) as (x2 & Ha2 & Hstep); [lia|by unfold byte, SLASH|done|done|].
  destruct (getc_at _ _ _ _ _ Ha2) as (x3 & E3 & Ha3). exists x3. split; [|eapply at_weaken; [exact Ha3|lia]].
  eapply steps_one; [exact E|done|]. rewrite Hstep. unfold elem_real. cbn iota. change (R_CONFS =? R_CONFS) with true. cbn [andb].
  rewrite E3. cbn [mbind option_bind]. change (schar SLASH =? SLASH) with true. cbn iota. unfold short, strlen in Hs. rewrite (proj2 (Z.ltb_ge _ _)) by lia.
  assert (cstring buf = buf) as ->; [|done]. clear -Hok. induction Hok as [|c buf Hc _ IH]; [done|]. cbn. rewrite IH.
  by rewrite (proj2 (Z.eqb_neq c 0)) by (unfold char_ok in Hc; lia).
Qed.
End loops.

(** ** Attributes *)

Lemma cstring_ok s : Forall char_ok s → cstring s = s.
Proof. induction 1 as [|c s Hc _ IH]; [done|]. cbn. rewrite IH. by rewrite (proj2 (Z.eqb_neq c 0)) by (unfold char_ok in Hc; lia). Qed.

Lemma char_in_ok no s : Forall (char_in no) s → Forall char_ok s.
Proof. intros H. eapply Forall_impl; [exact H|]. by intros c []. Qed.

Lemma attr_defined_strip p a l : attr_defined p a (strip <$> l) = attr_defined p a l.
Proof. induction l as [|it l IH]; [done|]. cbn. by rewrite IH. Qed.

Lemma attr_defined_new p a its e done_ :
  it_tp e = XML_ELEM → a ∉ done_.*1 → attr_defined p a (rev (its ++ e :: (flat_attr p <$> done_))) = false.
Proof.
  intros He Ha. rewrite rev_app_distr. cbn [rev]. rewrite <-app_assoc. cbn [app]. rewrite <-map_rev.
  assert (a ∉ (rev done_).*1) as Hr by (intros Hin; apply Ha; by rewrite (Permutation_rev done_)). clear Ha.
  induction (rev done_) as [|[b w] l IH]; cbn.
  - rewrite He. by rewrite andb_false_r.
  - cbn in Hr. apply not_elem_of_cons in Hr as [Hab Hr]. rewrite Z.eqb_refl. cbn. destruct (Z.eqb_spec (strcmp b a) 0) as [->%strcmp_eq|]; [done|].
    by apply IH.
Qed.

Section attrs.
Context (trunc : bool) (parent : Z).

(** The loop ends within [b] iterations. *)
Definition a_ends (b : nat) (loc1 : bool) (attr buf : list Z) (cm : Z) (x : OS_XML) (res : Z * OS_XML) : Prop :=
  ∃ f, (f <= b)%nat ∧ attr_loop f parent trunc 0 loc1 attr buf cm x = Some res.

Lemma a_ends_le b b' loc1 attr buf cm x res : a_ends b loc1 attr buf cm x res → (b <= b')%nat → a_ends b' loc1 attr buf cm x res.
Proof. intros (f & Hf & E) Hle. exists f. split; [lia|done]. Qed.

Lemma attr_loop_mono f : ∀ f' loc1 attr buf cm x res,
  (f <= f')%nat → attr_loop f parent trunc 0 loc1 attr buf cm x = Some res → attr_loop f' parent trunc 0 loc1 attr buf cm x = Some res.
Proof.
  induction f as [|f IH]; intros [|f'] loc1 attr buf cm x res Hf; try done; [lia|]. cbn [attr_loop].
  assert (∀ loc1 attr buf cm x, attr_loop f parent trunc 0 loc1 attr buf cm x = Some res → attr_loop f' parent trunc 0 loc1 attr buf cm x = Some res) as Hrec.
  { intros. apply IH; [lia|done]. }
  destruct (xml_getc x) as [[c x1]|]; [|done]. cbn [mbind option_bind]. destruct (c =? 0); [done|]. destruct (_ <=? _); [done|].
  destruct (_ || _); [done|]. destruct (negb loc1 && (c =? 61)).
  { destruct (attr_defined _ _ _); [done|]. destruct (xml_getc x1) as [[c2 x2]|]; [|done]. cbn [mbind option_bind].
    destruct (if is_quote c2 then _ else _) as [[c3 x3]|]; [|done]. cbn [mbind option_bind]. destruct (is_quote c3); [apply Hrec|done]. }
  destruct (negb loc1 && isspace c); [destruct (_ =? _)%nat; [apply Hrec|done]|]. destruct (loc1 && (c =? cm)).
  { destruct (_writecontent _ _ _) as [x2|]; [|done]. cbn [mbind option_bind]. destruct (xml_getc x2) as [[c3 x3]|]; [|done]. cbn [mbind option_bind].
    destruct (isspace c3); [apply Hrec|done]. }
  destruct (put _ _ _); [apply Hrec|done].
Qed.

(** The characters of a name or of a value. *)
Definition attr_takes (loc1 : bool) (c : Z) : Prop :=
  c ≠ R_CONFE ∧ if loc1 then c ≠ 34 else c ≠ SLASH ∧ c ≠ 61 ∧ isspace c = false.

Lemma attr_text loc1 attr cm t : (loc1 = true → cm = 34) → ∀ buf k x s its,
  Forall (λ c, char_ok c ∧ attr_takes loc1 c) t → short (buf ++ t) → at_ k x (t ++ s) its → (k <= 2)%nat →
  ∃ x', (∀ b res, a_ends b loc1 attr (buf ++ t) cm x' res → a_ends (length t + b) loc1 attr buf cm x res) ∧ at_ 2 x' s its.
Proof.
  intros Hcm. induction t as [|c t IH]; intros buf k x s its Ht Hs Ha Hk.
  { exists x. rewrite app_nil_r. split; [done|]. by eapply at_weaken. }
  apply Forall_cons in Ht as [[Hok [Hc Hta]] Ht]. pose proof (char_byte c Hok) as Hb. destruct (getc_at _ _ _ _ _ Ha) as (x1 & E & Ha1).
  assert (Z.of_nat (length buf) < XML_MAXSIZE) as Hsb by (unfold short, strlen in *; rewrite length_app in Hs; lia).
  destruct (IH (buf ++ [c]) (k - 1)%nat x1 s its Ht) as (x' & Hst & Ha'); [by rewrite <-app_assoc|done|lia|]. exists x'. split; [|done].
  intros b res Hres. rewrite <-app_assoc in Hst. destruct (Hst b res Hres) as (f & Hle & Hf). exists (S f). split; [cbn; lia|]. cbn [attr_loop]. rewrite E. cbn [mbind option_bind].
  rewrite (proj2 (Z.eqb_neq (schar c) 0)) by (by apply schar_nz). rewrite (proj2 (Z.leb_gt _ _)) by done.
  rewrite !schar_eqb by (done || unfold R_CONFE, SLASH; lia). rewrite (proj2 (Z.eqb_neq c R_CONFE)) by done. rewrite isspace_schar by done.
  rewrite uchar_schar by done. rewrite put_xml by done. cbn [mbind option_bind orb]. destruct loc1; cbn [negb andb].
  - rewrite (Hcm eq_refl) in *. rewrite schar_eqb by (done || lia). by rewrite (proj2 (Z.eqb_neq c 34)).
  - destruct Hta as (H1 & H2 & ->). rewrite (proj2 (Z.eqb_neq c SLASH)), (proj2 (Z.eqb_neq c 61)) by done. done.
Qed.

(** [=] and the quote after the name of an attribute that is new. *)
Lemma attr_equals attr buf k x s its0 e done_ :
  it_tp e = XML_ELEM → Forall char_ok buf → short buf → buf ∉ done_.*1 →
  at_ k x (61 :: 34 :: s) (its0 ++ e :: (flat_attr parent <$> done_)) → (k <= 2)%nat →
  ∃ x', (∀ b res, a_ends b true buf [] 34 x' res → a_ends (S b) false attr buf 0 x res) ∧ at_ 2 x' s (its0 ++ e :: (flat_attr parent <$> done_)).
Proof.
  intros He Hok Hs Hnew Ha Hk. destruct (getc_at _ _ _ _ _ Ha) as (x1 & E & Ha1). destruct (getc_at _ _ _ _ _ Ha1) as (x2 & E2 & Ha2).
  exists x2. split; [|eapply at_weaken; [exact Ha2|lia]]. intros b res (f & Hle & Hf). exists (S f). split; [lia|]. cbn [attr_loop]. rewrite E. cbn [mbind option_bind].
  change (schar 61) with 61. change (61 =? 0) with false. cbn iota. unfold short, strlen in Hs. rewrite (proj2 (Z.leb_gt _ _)) by done.
  change (61 =? R_CONFE) with false. change (61 =? SLASH) with false. cbn [negb andb orb Z.eqb]. rewrite cstring_ok by done.
  destruct Ha1 as (_ & _ & _ & Hi1). rewrite <-attr_defined_strip.
  change (strip <$> rev (x_items x1)) with (map strip (rev (x_items x1))). rewrite map_rev.
  change (map strip (x_items x1)) with (strip <$> x_items x1). rewrite Hi1, attr_defined_new by done.
  rewrite E2. cbn [mbind option_bind]. change (schar 34) with 34. cbn [is_quote Z.eqb orb Pos.eqb mbind option_bind]. exact Hf.
Qed.

(** The quote after the value: the attribute is written. *)
Lemma attr_written attr buf k x c s its :
  Forall char_ok attr → Forall char_ok buf → short buf → strcasecmp XML_VAR attr ≠ 0 → byte c →
  at_ k x (34 :: c :: s) its → (k <= 2)%nat →
  ∃ x', at_ 2 x' s (its ++ [flat_attr parent (attr, buf)]) ∧
    (isspace c = true → ∀ b res, a_ends b false [] [] 0 x' res → a_ends (S b) true attr buf 34 x res) ∧
    (c = R_CONFE → a_ends 1 true attr buf 34 x (0, x')).
Proof.
  intros Hoka Hokb Hs Hv Hb Ha Hk. destruct (getc_at _ _ _ _ _ Ha) as (x1 & E & (Hf1 & Hst1 & Hk1 & Hi1)).
  set (x2 := _writememory attr XML_ATTR (strlen attr + 1) parent x1).
  assert (∃ x3, _writecontent buf (Z.of_nat (length (x_items x2)) - 1) x2 = Some x3 ∧ at_ 1 x3 (c :: s) (its ++ [flat_attr parent (attr, buf)])) as (x3 & E3 & Ha3).
  { unfold x2, _writememory, _writecontent. cbn [x_items with_items]. rewrite length_app. cbn [length].
    replace (Z.to_nat (Z.of_nat (length (x_items x1) + 1) - 1)) with (length (x_items x1)) by lia.
    rewrite lookup_app_r, Nat.sub_diag by lia. cbn [lookup list_lookup mbind option_bind]. eexists. split; [reflexivity|].
    unfold at_, stream in *. cbn [x_items with_items x_file x_stash x_in it_el it_ct it_tp it_rl it_ck it_ln]. split_and!; [done|done|lia|].
    rewrite insert_app_r_alt, Nat.sub_diag by lia. cbn [insert list_insert]. rewrite fmap_app, Hi1. cbn. rewrite (proj2 (Z.eqb_neq _ _)) by done.
    unfold strlen, flat_attr, strip. cbn. do 3 f_equal. rewrite take_ge by lia. done. }
  destruct (getc_at _ _ _ _ _ Ha3) as (x4 & E4 & Ha4). exists x4. split; [eapply at_weaken; [exact Ha4|lia]|].
  assert (∀ f, attr_loop (S f) parent trunc 0 true attr buf 34 x =
    if isspace c then attr_loop f parent trunc 0 false [] [] 0 x4 else if c =? R_CONFE then Some (0, x4) else if c =? SLASH then Some (schar c, x4)
    else Some (-1, xml_error (ErrAttrClosing attr buf) x4)) as Hloop.
  { intros f. cbn [attr_loop]. rewrite E. cbn [mbind option_bind]. change (schar 34) with 34. change (34 =? 0) with false. cbn iota.
    unfold short, strlen in Hs. rewrite (proj2 (Z.leb_gt _ _)) by done. change (34 =? R_CONFE) with false. cbn [negb andb orb Z.eqb Pos.eqb].
    rewrite !cstring_ok by done. fold x2. rewrite E3. cbn [mbind option_bind]. rewrite E4. cbn [mbind option_bind].
    rewrite isspace_schar by done. rewrite !schar_eqb by (done || unfold R_CONFE, SLASH; lia). done. }
  split.
  - intros Hsp b res (f & Hle & Hf). exists (S f). split; [lia|]. rewrite Hloop, Hsp. exact Hf.
  - intros ->. exists 1%nat. split; [done|]. by rewrite Hloop.
Qed.

Lemma attrs_text its0 e s ats : it_tp e = XML_ELEM → ∀ done_ av k x,
  Forall attr_ok (av :: ats) → NoDup (done_ ++ av :: ats).*1 → (k <= 2)%nat →
  at_ k x (show_attr av ++ (ats ≫= λ av, 32 :: show_attr av) ++ R_CONFE :: s) (its0 ++ e :: (flat_attr parent <$> done_)) →
  ∃ x', a_ends (length (show_attr av ++ (ats ≫= λ av, 32 :: show_attr av) ++ R_CONFE :: s)) false [] [] 0 x (0, x') ∧
    at_ 2 x' s (its0 ++ e :: (flat_attr parent <$> done_ ++ av :: ats)).
Proof.
  intros He. induction ats as [|av2 ats IH]; intros done_ [a w] k x Hok Hnd Hk Ha.
  all: apply Forall_cons in Hok as [(Hsa & Hsw & Hca & Hcw & Hv) Hok]; cbn [fst snd] in *.
  all: assert (a ∉ done_.*1) as Hnew by (rewrite fmap_app in Hnd; apply NoDup_app in Hnd as (_ & Hnd & _); intros Hin; apply (Hnd a Hin); by left).
  all: unfold show_attr in Ha at 1; cbn [fst snd] in Ha; rewrite <-!app_assoc in Ha; cbn [app] in Ha; rewrite <-!app_assoc in Ha; cbn [app] in Ha.
  all: assert (Forall char_ok a) as Hoka by (eapply Forall_impl; [exact Hca|]; by intros c [[? _] _]).
  all: pose proof (char_in_ok _ _ Hcw) as Hokw.
  all: destruct (attr_text false [] 0 a ltac:(done) [] k x _ _ ltac:(eapply Forall_impl; [exact Hca|]; cbn; intros c [[? Hc] ?]; rewrite !not_elem_of_cons in Hc; unfold attr_takes; tauto) Hsa Ha Hk) as (x1 & H1 & Ha1).
  all: cbn [app] in H1; destruct (attr_equals [] a 2 x1 _ its0 e done_ He Hoka Hsa Hnew Ha1 ltac:(lia)) as (x2 & H2 & Ha2).
  all: destruct (attr_text true a 34 w ltac:(done) [] 2 x2 _ _ ltac:(eapply Forall_impl; [exact Hcw|]; cbn; intros c [? Hc]; rewrite !not_elem_of_cons in Hc; unfold attr_takes; tauto) Hsw Ha2 ltac:(lia)) as (x3 & H3 & Ha3).
  all: cbn [app] in H3.
  - destruct (attr_written a w 2 x3 R_CONFE s _ Hoka Hokw Hsw Hv ltac:(by unfold byte, R_CONFE) Ha3 ltac:(lia)) as (x4 & Ha4 & _ & Hend).
    exists x4. split; [eapply a_ends_le; [by apply H1, H2, H3, Hend|]; unfold show_attr; cbn [fst snd mbind list_bind app]; rewrite !length_app; cbn; rewrite ?length_app; cbn; lia|]. rewrite fmap_app. cbn [fmap list_fmap]. rewrite <-app_assoc in Ha4. exact Ha4.
  - cbn [mbind list_bind app] in Ha3. rewrite <-?app_assoc in Ha3. cbn [app] in Ha3.
    destruct (attr_written a w 2 x3 32 _ _ Hoka Hokw Hsw Hv ltac:(by unfold byte) Ha3 ltac:(lia)) as (x4 & Ha4 & Hgo & _).
    destruct (IH (done_ ++ [(a, w)]) av2 2%nat x4 Hok) as (x' & Hend & Ha'); [by rewrite <-app_assoc|lia| |].
    { rewrite fmap_app. cbn [fmap list_fmap]. rewrite <-app_assoc in Ha4. exact Ha4. }
    exists x'. split; [eapply a_ends_le; [by apply H1, H2, H3, Hgo|]|by rewrite <-app_assoc in Ha'].
    change ((av2 :: ats) ≫= λ av, 32 :: show_attr av) with ((32 :: show_attr av2) ++ (ats ≫= λ av, 32 :: show_attr av)).
    unfold show_attr at 3. cbn [fst snd]. repeat (rewrite length_app; cbn [length]). lia.
Qed.
End attrs.

(** ** Elements *)

Lemma at_left k x s its : at_ k x s its → x_left x = length s.
Proof.
  intros (Hf & Hs & _ & _). unfold x_left, stream in *. rewrite Hf in Hs. apply (f_equal length) in Hs. by rewrite length_app, !length_fmap in Hs.
Qed.

Definition pending (n : cstr) (d : Z) : xitem := XItem n None XML_ELEM d false 0.

Section elements.
Context (trunc : bool).

Lemma getattributes_at parent its n s av ats k x :
  Forall attr_ok (av :: ats) → NoDup (av :: ats).*1 → (k <= 2)%nat →
  at_ k x (show_attr av ++ (ats ≫= λ av, 32 :: show_attr av) ++ R_CONFE :: s) (its ++ [pending n parent]) →
  ∃ x', _getattributes parent x trunc 0 = Some (0, x') ∧ at_ 2 x' s (its ++ pending n parent :: (flat_attr parent <$> av :: ats)).
Proof.
  intros Hok Hnd Hk Ha. destruct (attrs_text trunc parent its (pending n parent) s ats eq_refl [] av k x Hok Hnd Hk Ha) as (x' & (f & Hf & E) & Ha').
  exists x'. split; [|exact Ha']. unfold _getattributes. rewrite (at_left _ _ _ _ Ha). eapply attr_loop_mono; [|exact E]. lia.
Qed.

Lemma name_chars n : name_ok n → Forall char_ok n.
Proof. intros (_ & _ & H & _). eapply Forall_impl; [exact H|]. by intros c [[? _] _]. Qed.

(** The end of a start tag. *)
Lemma steps_opened parent p cc el cont n ats k x s its :
  name_ok n → Forall attr_ok ats → NoDup ats.*1 → (k <= 2)%nat →
  at_ k x ((ats ≫= λ av, 32 :: show_attr av) ++ R_CONFE :: s) its →
  ∃ x', steps trunc parent (RVars LElem p false cc el cont n) x (RVars LCont true false (Z.of_nat (length its)) n cont []) x' ∧
    at_ 2 x' s (its ++ pending n parent :: (flat_attr parent <$> ats)).
Proof.
  intros Hn Hats Hnd Hk Ha. pose proof (name_chars n Hn) as Hok. pose proof Hn as (_ & Hs & _ & _ & Hlast & Hvar).
  assert (∃ c0 s0, (ats ≫= λ av, 32 :: show_attr av) ++ R_CONFE :: s = c0 :: s0 ∧ (c0 = R_CONFE ∧ ats = [] ∧ s0 = s ∨ c0 = 32 ∧ ∃ av ats', ats = av :: ats' ∧
    s0 = show_attr av ++ (ats' ≫= λ av, 32 :: show_attr av) ++ R_CONFE :: s)) as (c0 & s0 & Et & Hc0).
  { destruct ats as [|av ats]; [by eexists _, _; split; [reflexivity|]; left|]. eexists 32, _. split; [cbn [mbind list_bind app]; by rewrite <-app_assoc|]. right. split; [done|]. by exists av, ats. }
  rewrite Et in Ha. assert (byte c0 ∧ c0 ≠ R_CONFS ∧ c0 ≠ 92 ∧ c0 ≠ 0) as (Hb & Hne & Hn92 & Hnz) by (unfold byte, R_CONFE, R_CONFS in *; destruct Hc0 as [[-> _]|[-> _]]; lia).
  destruct (getc_at _ _ _ _ _ Ha) as (x1 & E & (Hf1 & Hst1 & Hk1 & Hi1)).
  set (x2 := _writememory n XML_ELEM (Z.of_nat (length n) + 1) parent x1).
  assert (at_ (k - 1) x2 s0 (its ++ [pending n parent])) as Ha2.
  { unfold at_, x2, _writememory, stream in *. cbn [x_items with_items x_file x_stash x_in]. split_and!; [done|done|done|].
    rewrite fmap_app, Hi1. unfold pending, strip. cbn. rewrite (proj2 (Z.eqb_neq _ _)) by done. do 3 f_equal. rewrite take_ge by lia. done. }
  assert (∃ x3, (if isspace (schar c0) then _getattributes parent x2 trunc 0 else Some (0, x2)) = Some (0, x3) ∧
    at_ 2 x3 s (its ++ pending n parent :: (flat_attr parent <$> ats))) as (x3 & E3 & Ha3).
  { destruct Hc0 as [(-> & -> & ->)|(-> & av & ats' & -> & ->)].
    - exists x2. split; [done|]. eapply at_weaken; [exact Ha2|lia].
    - change (isspace (schar 32)) with true. cbn iota. eapply getattributes_at; [done|done| |exact Ha2]. lia. }
  exists x3. split; [|done]. eapply steps_one; [exact E|by apply schar_nz; unfold byte, char_ok in *; lia|].
  rewrite step_plain by done. unfold elem_real, quote_after. rewrite (proj2 (Z.eqb_neq c0 92)) by done.
  assert ((schar c0 =? R_CONFE) || isspace (schar c0) = true) as -> by (destruct Hc0 as [[-> _]|[-> _]]; done).
  unfold open_elem. unfold short, strlen in Hs. rewrite (proj2 (Z.ltb_ge _ _)) by lia. rewrite bool_decide_eq_false_2 by done. rewrite cstring_ok by done.
  cbn zeta iota. fold x2. rewrite E3. cbn [mbind option_bind]. change (0 <? 0) with false. change (0 =? SLASH) with false. cbn [orb].
  do 3 f_equal. unfold x2. cbn [x_items with_items _writememory]. rewrite length_app. cbn [length].
  apply (f_equal length) in Hi1. rewrite length_fmap in Hi1. lia.
Qed.

(** The end of an end tag. *)
Lemma step_closed parent p n c k x s its its2 :
  name_ok n → (k <= 2)%nat → at_ k x (R_CONFE :: s) (its ++ pending n parent :: its2) →
  ∃ c1 x1 x', xml_getc x = Some (c1, x1) ∧ c1 ≠ 0 ∧ at_ 2 x' s (its ++ XItem n (Some c) XML_ELEM parent true 0 :: its2) ∧
    elem_step parent trunc 0 c1 (RVars LClose p false (Z.of_nat (length its)) n c n) x1 =
    Some (if 0 <? parent then XRet 0 x' else XNext (RVars LNone true false 0 [] [] []) x').
Proof.
  intros Hn Hk Ha. pose proof (name_chars n Hn) as Hok. pose proof Hn as (_ & Hs & _). destruct (getc_at _ _ _ _ _ Ha) as (x1 & E & (Hf1 & Hst1 & Hk1 & Hi1)).
  assert (∃ it, x_items x1 !! length its = Some it ∧ strip it = pending n parent) as (it & Hit & Est).
  { assert ((strip <$> x_items x1) !! length its = Some (pending n parent)) as Hl by (rewrite Hi1; by apply list_lookup_middle).
    rewrite list_lookup_fmap in Hl. destruct (x_items x1 !! length its) as [it|]; [|done]. exists it. split; [done|]. cbn in Hl. congruence. }
  exists (schar R_CONFE), x1. set (it' := XItem (it_el it) (Some c) (it_tp it) (it_rl it) true (it_ln it)).
  exists (with_items x1 (<[length its := it']> (x_items x1))). split; [done|]. split; [done|]. split.
  - unfold at_, stream in *. cbn [x_items with_items x_file x_stash x_in]. split_and!; [done|done|lia|].
    rewrite list_fmap_insert, Hi1, insert_app_r_alt, Nat.sub_diag by lia. cbn [insert list_insert]. do 2 f_equal.
    unfold it', strip, pending in *. cbn in *. injection Est as -> _ -> -> _. done.
  - rewrite step_plain by (done || by unfold byte, R_CONFE). unfold elem_real. change (schar R_CONFE =? R_CONFE) with true. cbn iota.
    unfold short, strlen in Hs. rewrite (proj2 (Z.ltb_ge _ _)) by lia. rewrite cstring_ok by done. rewrite strcmp_refl. cbn [negb Z.eqb].
    unfold close_elem, _writecontent, set_ck. rewrite Nat2Z.id, Hit. cbn [mbind option_bind x_items with_items].
    rewrite list_lookup_insert_eq by (by eapply lookup_lt_Some). cbn [mbind option_bind]. rewrite list_insert_insert_eq. cbn [it_el it_ct it_tp it_rl it_ck it_ln].
    destruct (0 <? parent); done.
Qed.

(** Up to the last character of a tree. *)
Definition body (t : xtree) : Prop := ∀ parent cc el cont k x s its,
  0 <= parent → parent + Z.of_nat (height t) <= 1024 → tree_ok t → (k <= 2)%nat → at_ k x (show t ++ s) its →
  let 'XTree n ats ks c := t in
  ∃ p x', steps trunc parent (RVars LNone true false cc el cont []) x (RVars LClose p false (Z.of_nat (length its)) n c n) x' ∧
    at_ 2 x' (R_CONFE :: s) (its ++ pending n parent :: (flat_attr parent <$> ats) ++ (ks ≫= flat (parent + 1))).

Lemma body_child t parent k x s its :
  body t → 0 < parent → parent + Z.of_nat (height t) <= 1024 → tree_ok t → (k <= 2)%nat → at_ k x (show t ++ s) its →
  ∃ x', ends trunc parent v_start x (0, x') ∧ at_ 2 x' s (its ++ flat parent t).
Proof.
  intros Hb Hp Hh Hok Hk Ha. specialize (Hb parent 0 [] [] k x s its ltac:(lia) Hh Hok Hk Ha). destruct t as [n ats ks c]. destruct Hb as (p & x1 & Hst & Ha1).
  destruct Hok as (Hn & _). destruct (step_closed parent p n c 2 x1 s its _ Hn ltac:(lia) Ha1) as (c1 & x2 & x' & E & Hc & Ha' & Hstep). exists x'. split; [|done].
  apply Hst. exists 1%nat. cbn [read_loop]. rewrite E. cbn [mbind option_bind]. rewrite (proj2 (Z.eqb_neq c1 0)) by done. rewrite Hstep.
  by rewrite (proj2 (Z.ltb_lt 0 parent)) by lia.
Qed.

Lemma body_root t cc el cont k x s its :
  body t → Z.of_nat (height t) <= 1024 → tree_ok t → (k <= 2)%nat → at_ k x (show t ++ s) its →
  ∃ x', steps trunc 0 (RVars LNone true false cc el cont []) x (RVars LNone true false 0 [] [] []) x' ∧ at_ 2 x' s (its ++ flat 0 t).
Proof.
  intros Hb Hh Hok Hk Ha. specialize (Hb 0 cc el cont k x s its ltac:(lia) ltac:(lia) Hok Hk Ha). destruct t as [n ats ks c]. destruct Hb as (p & x1 & Hst & Ha1).
  destruct Hok as (Hn & _). destruct (step_closed 0 p n c 2 x1 s its _ Hn ltac:(lia) Ha1) as (c1 & x2 & x' & E & Hc & Ha' & Hstep). exists x'. split; [|done].
  eapply steps_trans; [exact Hst|]. eapply steps_one; [exact E|done|exact Hstep].
Qed.

Lemma show_cons t : tree_ok t → ∃ c r, show t = R_CONFS :: c :: r ∧ char_ok c ∧ c ∉ [R_COM; SLASH].
Proof.
  destruct t as [[|c n] ats ks ct]; cbn; intros [(Hne & _ & Hf & Hh & _) _]; [done|]. eexists _, _. split; [reflexivity|].
  apply Forall_cons in Hf as [[[? _] _] _]. split; [done|]. by apply Hh.
Qed.

Lemma steps_kids ks : Forall body ks → ∀ parent cc el cont k x s its,
  0 <= parent → Forall (λ t, parent + 1 + Z.of_nat (height t) <= 1024) ks → Forall tree_ok ks → (k <= 2)%nat → at_ k x ((ks ≫= show) ++ s) its →
  ∃ x', steps trunc parent (RVars LCont true false cc el cont []) x (RVars LCont true false cc el cont []) x' ∧ at_ 2 x' s (its ++ (ks ≫= flat (parent + 1))).
Proof.
  induction 1 as [|t ks Hb _ IH]; intros parent cc el cont k x s its Hp Hh Hok Hk Ha.
  { exists x. cbn. rewrite app_nil_r. split; [by intros res|]. by eapply at_weaken. }
  apply Forall_cons in Hh as [Hht Hh]. apply Forall_cons in Hok as [Hokt Hok]. cbn [mbind list_bind] in Ha. rewrite <-app_assoc in Ha.
  destruct (show_cons t Hokt) as (c & r & Es & Hc & Hnc). rewrite !not_elem_of_cons in Hnc. destruct Hnc as (Hc1 & Hc2 & _). pose proof (char_byte c Hc) as Hbc.
  rewrite Es in Ha. cbn [app] in Ha. destruct (getc_at _ _ _ _ _ Ha) as (x1 & E & Ha1).
  destruct (step_open trunc (k - 1) parent LCont true false cc el cont [] c _ x1 its Ha1) as (x2 & Ha2 & Hstep); [lia|done|done|by unfold short, strlen, XML_MAXSIZE|].
  destruct (getc_at _ _ _ _ _ Ha2) as (x3 & E3 & Ha3). pose proof (ungetc_at _ _ c _ _ Ha3 ltac:(lia) Hbc) as Ha4.
  pose proof (ungetc_at _ _ R_CONFS _ _ Ha4 ltac:(lia) ltac:(by unfold byte, R_CONFS)) as Ha5. change (schar R_CONFS) with R_CONFS in Ha5.
  set (x4 := xml_ungetc R_CONFS _) in *. assert (at_ 2 x4 (show t ++ (ks ≫= show) ++ s) its) as Ha6 by (rewrite Es; exact Ha5).
  destruct (body_child t (parent + 1) 2 x4 _ its Hb ltac:(lia) Hht Hokt ltac:(lia) Ha6) as (x5 & Hends & Ha7).
  destruct (IH parent cc el cont 2%nat x5 s _ Hp Hh Hok ltac:(lia) Ha7) as (x' & Hst & Ha'). exists x'.
  split; [|cbn [mbind list_bind]; by rewrite app_assoc]. eapply steps_trans; [|exact Hst].
  eapply (steps_child trunc parent _ x (schar R_CONFS) x1 _ x4 x5); [exact E|done| | |exact Hends].
  - rewrite Hstep. unfold elem_real. cbn iota. change (R_CONFS =? R_CONFS) with true. cbn [andb]. rewrite E3. cbn [mbind option_bind].
    rewrite schar_eqb by (done || unfold SLASH; lia). by rewrite (proj2 (Z.eqb_neq c SLASH)).
  - assert (1 <= Z.of_nat (height t)) by (destruct t; cbn [height]; lia). lia.
Qed.

Lemma height_kids parent n ats ks c : parent + Z.of_nat (height (XTree n ats ks c)) <= 1024 → Forall (λ t, parent + 1 + Z.of_nat (height t) <= 1024) ks.
Proof.
  cbn [height]. intros H. apply Forall_forall. intros t Ht. assert (height t <= foldr Nat.max 0 (height <$> ks))%nat; [|lia]. clear H.
  induction ks as [|k ks IH]; [by apply not_elem_of_nil in Ht|]. cbn. apply elem_of_cons in Ht as [->|Ht]; [lia|]. specialize (IH Ht). lia.
Qed.

Lemma body_all t : body t.
Proof.
  induction t as [n ats ks c IH] using xtree_ind'. intros parent cc el cont k x s its Hp Hh Hok Hk Ha.
  pose proof (height_kids _ _ _ _ _ Hh) as Hhk. destruct Hok as (Hn & Hats & Hnd & (Hsc & Hcc & Hlc) & Hks). rewrite tree_ok_kids in Hks.
  pose proof Hn as (Hne & Hsn & Hcn & Hhn & _ & _). destruct n as [|c0 n0]; [done|]. cbn [show app] in Ha. rewrite <-!app_assoc in Ha. cbn [app] in Ha. rewrite <-!app_assoc in Ha. cbn [app] in Ha.
  rewrite <-!app_assoc in Ha. cbn [app] in Ha.
  assert (Forall (λ c, char_in [R_CONFS] c ∧ takes LElem false c) (c0 :: n0) ∧ Forall (λ c, char_in [R_CONFS] c ∧ takes LClose false c) (c0 :: n0)) as [Ht1 Ht2].
  { split; (eapply Forall_impl; [exact Hcn|]); cbn; intros a [[? Ha0] ?]; rewrite !not_elem_of_cons in Ha0; (split; [split; [done|]|]); try tauto; rewrite list_elem_of_singleton; tauto. }
  pose proof Hcn as [[[Hok0 _] _] _]%Forall_cons.
  destruct (steps_start trunc parent false cc el cont c0 k x _ its Ha Hk Hok0 (Hhn c0 eq_refl)) as (x1 & S1 & Ha1).
  destruct (steps_text trunc parent LElem false cc el cont (c0 :: n0) true [] 2 x1 _ its Ht1 Hsn Ha1 ltac:(lia)) as (x2 & S2 & Ha2). cbn [app] in S2.
  destruct (steps_opened parent (foldl (λ p c, quote_after c p) true (c0 :: n0)) cc el cont (c0 :: n0) ats 2 x2 _ its Hn Hats Hnd ltac:(lia) Ha2) as (x3 & S3 & Ha3).
  destruct (steps_kids ks IH parent (Z.of_nat (length its)) (c0 :: n0) cont 2 x3 _ _ Hp Hhk Hks ltac:(lia) Ha3) as (x4 & S4 & Ha4).
  assert (Forall (λ a, char_in [R_CONFS] a ∧ takes LCont false a) c) as Ht3 by (eapply Forall_impl; [exact Hcc|]; done).
  destruct (steps_text trunc parent LCont false (Z.of_nat (length its)) (c0 :: n0) cont c true [] 2 x4 _ _ Ht3 Hsc Ha4 ltac:(lia)) as (x5 & S5 & Ha5). cbn [app] in S5.
  replace (foldl (λ p c, quote_after c p) true c) with true in S5 by (destruct c; [done|by rewrite quote_end]).
  destruct (steps_close trunc parent false (Z.of_nat (length its)) (c0 :: n0) cont c 2 x5 _ _ Ha5 ltac:(lia) Hsc (char_in_ok _ _ Hcc)) as (x6 & S6 & Ha6).
  destruct (steps_text trunc parent LClose false (Z.of_nat (length its)) (c0 :: n0) c (c0 :: n0) true [] 2 x6 _ _ Ht2 Hsn Ha6 ltac:(lia)) as (x7 & S7 & Ha7). cbn [app] in S7.
  eexists _, x7. split; [|rewrite <-app_assoc in Ha7; exact Ha7].
  eapply steps_trans; [exact S1|]. eapply steps_trans; [exact S2|]. eapply steps_trans; [exact S3|]. eapply steps_trans; [exact S4|].
  eapply steps_trans; [exact S5|]. eapply steps_trans; [exact S6|exact S7].
Qed.
End elements.

(** ** Walking the table *)

Fixpoint nodes (m i : Z) (ts : list xtree) : list xml_node :=
  match ts with
  | [] => []
  | (XTree n ats _ c as t) :: ts => XNode i n (Some c) ats.*1 ats.*2 :: nodes m (i + Z.of_nat (length (flat m t))) ts
  end.

(** What a client does to read the tree back. *)
Fixpoint walk (fuel : nat) (x : OS_XML) (ns : list xml_node) : option (list xtree) :=
  match fuel with
  | O => None
  | S fuel =>
      mapM (λ n,
        kids ← OS_GetElementsbyNode x (Some n);
        ks ← walk fuel x kids;
        Some (XTree (xn_element n) (zip (xn_attributes n) (xn_values n)) ks (default [] (xn_content n)))) ns
  end.
Definition read_back (x : OS_XML) : option (list xtree) := ns ← OS_GetElementsbyNode x None; walk 1025 x ns.

Lemma node_attrs_strip m l : node_attrs m (strip <$> l) = node_attrs m l.
Proof. induction l as [|[el ct tp rl ck ln] l IH]; [done|]. cbn. by rewrite IH. Qed.

Lemma nodes_strip top m l : ∀ i, nodes_loop top m i (strip <$> l) = nodes_loop top m i l.
Proof.
  induction l as [|it l IH]; intros i; [done|]. rewrite fmap_cons. cbn [nodes_loop]. change (it_tp (strip it)) with (it_tp it).
  change (it_rl (strip it)) with (it_rl it). change (it_el (strip it)) with (it_el it). change (it_ct (strip it)) with (it_ct it).
  by rewrite !IH, node_attrs_strip.
Qed.

Lemma nodes_skip top m l0 l : ∀ i,
  Forall (λ it, it_tp it ≠ XML_ELEM ∨ m < it_rl it) l0 → nodes_loop top m i (l0 ++ l) = nodes_loop top m (i + Z.of_nat (length l0)) l.
Proof.
  induction l0 as [|it l0 IH]; intros i Hf; [by rewrite Z.add_0_r|]. apply Forall_cons in Hf as [Hi Hf]. cbn [app nodes_loop].
  replace (i + Z.of_nat (length (it :: l0))) with (i + 1 + Z.of_nat (length l0)) by (cbn; lia). rewrite IH by done.
  destruct (it_tp it); [done| |done]. destruct Hi as [?|Hi]; [done|]. rewrite (proj2 (Z.eqb_neq _ _)), (proj2 (Z.ltb_ge _ _)) by lia. done.
Qed.

Lemma flat_depth t : ∀ d, Forall (λ it, d <= it_rl it) (flat d t).
Proof.
  induction t as [n ats ks c IH] using xtree_ind'. intros d. cbn [flat]. apply Forall_cons. split; [cbn; lia|]. apply Forall_app. split.
  - apply Forall_fmap, Forall_forall. intros av _. cbn. lia.
  - induction IH as [|k ks Hk _ IHk]; [constructor|]. cbn [mbind list_bind]. apply Forall_app. split; [|done].
    eapply Forall_impl; [apply Hk|]. cbn. lia.
Qed.

Lemma forest_depth d ts : Forall (λ it, d <= it_rl it) (flat_forest d ts).
Proof. induction ts as [|t ts IH]; [constructor|]. cbn. apply Forall_app. split; [apply flat_depth|done]. Qed.

Definition no_attr (l : list xitem) : Prop := match l with [] => True | it :: _ => it_tp it ≠ XML_ATTR end.

Lemma node_attrs_flat m ats l : no_attr l → node_attrs m ((flat_attr m <$> ats) ++ l) = ats.
Proof.
  intros Hl. induction ats as [|[a v] ats IH]; cbn.
  - destruct l as [|[el [ct|] [] rl ck ln] l]; cbn in *; done.
  - by rewrite Z.eqb_refl, IH.
Qed.

Lemma no_attr_forest d ts l : no_attr l → no_attr (flat_forest d ts ++ l).
Proof. by destruct ts as [|[n ats ks c] ts]. Qed.

Lemma nodes_flat top m ts l : no_attr l → ∀ i,
  nodes_loop top m i (flat_forest m ts ++ l) = nodes m i ts ++ nodes_loop top m (i + Z.of_nat (length (flat_forest m ts))) l.
Proof.
  intros Hl. induction ts as [|[n ats ks c] ts IH]; intros i; [by rewrite Z.add_0_r|].
  change (flat_forest m (XTree n ats ks c :: ts)) with (flat m (XTree n ats ks c) ++ flat_forest m ts). rewrite length_app, <-app_assoc.
  cbn [nodes app]. set (len := length (flat m (XTree n ats ks c))).
  assert (nodes_loop top m i (flat m (XTree n ats ks c) ++ flat_forest m ts ++ l) =
    XNode i n (Some c) ats.*1 ats.*2 :: nodes_loop top m (i + Z.of_nat len) (flat_forest m ts ++ l)) as ->.
  { cbn [flat app nodes_loop it_tp it_rl it_el it_ct]. rewrite Z.eqb_refl. rewrite <-app_assoc, node_attrs_flat.
    - f_equal. rewrite app_assoc, nodes_skip.
      + f_equal. unfold len. cbn [flat length]. lia.
      + apply Forall_app. split; [apply Forall_fmap, Forall_forall; intros av _; by left|].
        eapply Forall_impl; [apply forest_depth|]. cbn. intros it Hd. right. lia.
    - apply (no_attr_forest (m + 1) ks). by apply no_attr_forest. }
  rewrite IH. replace (i + Z.of_nat len + Z.of_nat (length (flat_forest m ts))) with (i + Z.of_nat (len + length (flat_forest m ts))) by lia. done.
Qed.

(** Nothing of the depth [m] follows. *)
Definition stops (m : Z) (l : list xitem) : Prop := match l with [] => True | it :: _ => it_tp it = XML_ELEM ∧ it_rl it < m end.

Lemma stops_nodes m i l : stops m l → nodes_loop false m i l = [].
Proof.
  destruct l as [|it l]; [done|]. intros [Ht Hr]. cbn [nodes_loop]. rewrite Ht. rewrite (proj2 (Z.eqb_neq _ _)) by lia. by rewrite (proj2 (Z.ltb_lt _ _)).
Qed.

Lemma stops_no_attr m l : stops m l → no_attr l.
Proof. destruct l; [done|]. intros [E _]. cbn. by rewrite E. Qed.

Lemma walk_flat fuel : ∀ m ts x pre post,
  Forall (λ t, (height t < fuel)%nat) ts → (1 <= fuel)%nat → 0 <= m → strip <$> x_items x = pre ++ flat_forest m ts ++ post → stops m post →
  walk fuel x (nodes m (Z.of_nat (length pre)) ts) = Some ts.
Proof.
  induction fuel as [|fuel IH]; intros m ts x pre post Hh Hf1 Hm Hx Hst; [lia|]. cbn [walk]. revert pre Hx.
  induction ts as [|[n ats ks c] ts IHt]; intros pre Hx; [done|]. apply Forall_cons in Hh as [Hht Hh].
  change (flat_forest m (XTree n ats ks c :: ts)) with (flat m (XTree n ats ks c) ++ flat_forest m ts) in Hx. rewrite <-app_assoc in Hx. cbn [nodes mapM].
  set (e := XItem n (Some c) XML_ELEM m true 0). set (rest := flat_forest m ts ++ post) in *.
  assert (strip <$> x_items x = (pre ++ e :: (flat_attr m <$> ats)) ++ flat_forest (m + 1) ks ++ rest) as Hx1.
  { rewrite Hx. cbn [flat app]. by rewrite <-!app_assoc. }
  assert (stops (m + 1) rest) as Hsr.
  { unfold rest. destruct ts as [|[n2 ats2 ks2 c2] ts]; cbn; [|split; [done|lia]]. destruct post; [done|]. destruct Hst. split; [done|lia]. }
  assert (OS_GetElementsbyNode x (Some (XNode (Z.of_nat (length pre)) n (Some c) ats.*1 ats.*2)) =
    Some (nodes (m + 1) (Z.of_nat (length (pre ++ e :: (flat_attr m <$> ats)))) ks)) as Hkids.
  { unfold OS_GetElementsbyNode. cbn [xn_key]. rewrite Nat2Z.id.
    assert (∃ it, x_items x !! length pre = Some it ∧ it_rl it = m) as (it & Hit & Hrl).
    { assert ((strip <$> x_items x) !! length pre = Some e) as Hl by (rewrite Hx; cbn [flat app]; by apply list_lookup_middle).
      rewrite list_lookup_fmap in Hl. destruct (x_items x !! length pre) as [it|]; [|done]. exists it. split; [done|]. cbn in Hl.
      by injection Hl as _ _ _ -> _. }
    rewrite Hit. cbn [mbind option_bind]. rewrite Hrl. f_equal. rewrite <-nodes_strip, fmap_drop, Hx1.
    replace (Z.to_nat (length pre + 1)) with (length (pre ++ [e])) by (rewrite length_app; cbn; lia).
    replace (pre ++ e :: (flat_attr m <$> ats)) with ((pre ++ [e]) ++ (flat_attr m <$> ats)) by (by rewrite <-app_assoc).
    rewrite <-app_assoc, drop_app_length. rewrite nodes_skip by (apply Forall_fmap, Forall_forall; intros av _; by left).
    rewrite nodes_flat by (by eapply stops_no_attr). rewrite stops_nodes by done. rewrite app_nil_r. f_equal. rewrite !length_app. cbn. lia. }
  rewrite Hkids. cbn [mbind option_bind]. cbn [height] in Hht.
  rewrite (IH (m + 1) ks x _ rest); [| | |lia|exact Hx1|done].
  - cbn [mbind option_bind xn_element xn_attributes xn_values xn_content default]. rewrite zip_fst_snd.
    assert (∀ k : nat, length (flat m (XTree n ats ks c)) = k → Z.of_nat (length pre) + Z.of_nat k = Z.of_nat (length (pre ++ flat m (XTree n ats ks c)))) as Hk.
    { intros k <-. rewrite length_app. lia. }
    rewrite (Hk _ eq_refl). rewrite (IHt Hh (pre ++ flat m (XTree n ats ks c))); [done|]. by rewrite <-app_assoc.
  - clear -Hht. revert Hht. induction ks as [|k ks IHk]; cbn; intros; [constructor|]. constructor; [lia|]. apply IHk. lia.
  - lia.
Qed.

Lemma not_closed_None l : Forall (λ it, it_ck it = true) l → not_closed l = None.
Proof. induction 1 as [|it l Hi _ IH]; [done|]. cbn. by rewrite Hi. Qed.

Lemma flat_closed d ts : Forall (λ it, it_ck it = true) (flat_forest d ts).
Proof.
  induction ts as [|t ts IH]; [constructor|]. cbn. apply Forall_app. split; [|done]. clear IH. revert d.
  induction t as [n ats ks c IH] using xtree_ind'. intros d. cbn [flat]. apply Forall_cons. split; [done|]. apply Forall_app. split.
  - apply Forall_fmap, Forall_forall. by intros av _.
  - induction IH as [|k ks Hk _ IHk]; [constructor|]. cbn [mbind list_bind]. apply Forall_app. by split.
Qed.

Lemma steps_forest trunc ts : Forall tree_ok ts → Forall (λ t, Z.of_nat (height t) <= 1024) ts → ∀ k x s its,
  at_ k x (show_forest ts ++ s) its → (k <= 2)%nat →
  ∃ x', steps trunc 0 v_start x (RVars LNone true false 0 [] [] []) x' ∧ at_ 2 x' s (its ++ flat_forest 0 ts).
Proof.
  induction 1 as [|t ts Ht _ IH]; intros Hh k x s its Ha Hk.
  - exists x. cbn. rewrite app_nil_r. split; [by intros res|]. by eapply at_weaken.
  - apply Forall_cons in Hh as [Hht Hh]. cbn [show_forest mbind list_bind] in Ha. rewrite <-app_assoc in Ha.
    destruct (body_root trunc t 0 [] [] k x _ its (body_all trunc t) Hht Ht Hk Ha) as (x2 & S1 & Ha1).
    destruct (IH Hh 2%nat x2 s (its ++ flat 0 t) Ha1 ltac:(lia)) as (x3 & S2 & Ha3). exists x3. split; [by eapply steps_trans|]. by rewrite <-app_assoc in Ha3.
Qed.

(** * Claims *)

Definition forest_ok (ts : list xtree) : Prop := Forall tree_ok ts ∧ Forall (λ t, Z.of_nat (height t) <= 1024) ts.

(** The table that the text of a forest is read into. *)
Lemma read_forest ts trunc :
  forest_ok ts → ∃ x, OS_ReadXMLString_Ex (show_forest ts) trunc = Some (0, x) ∧ strip <$> x_items x = flat_forest 0 ts.
Proof.
  intros [Hok Hh]. set (s := show_forest ts). unfold OS_ReadXMLString_Ex, ParseXML, _ReadElem.
  set (x1 := with_in _ 1 [] _). assert (at_ 2 x1 (s ++ [0]) []) as Ha by (split_and!; cbn; done || lia).
  assert (∃ x2, steps trunc 0 v_start x1 (RVars LNone true false 0 [] [] []) x2 ∧ at_ 2 x2 [0] (flat_forest 0 ts)) as (x2 & Hst & Ha2).
  { by apply (steps_forest trunc ts Hok Hh 2 x1 [0] []). }
  destruct (getc_at _ _ _ _ _ Ha2) as (x3 & E3 & (_ & _ & _ & Hi3)).
  destruct (Hst (LEOF, xml_error ErrEof x3)) as [f Hf].
  { exists 1%nat. cbn [read_loop]. rewrite E3. done. }
  assert (x_ok x1) as Hx1. { split; [cbn; lia|]. right. destruct Ha as (_ & -> & _). rewrite fmap_app. apply elem_of_app. right. by left. }
  pose proof (left_x_left x1) as Hle.
  destruct (read_loop_ok trunc (2 * x_left x1 + 2) 0 v_start x1) as (r & x4 & E4 & _); try done; try lia; try (cbn [v_loc v_start]; lia).
  change (0 + 1) with 1 in *. change (x_cmp x1) with 0 in *.
  pose proof (read_loop_mono trunc (2 * x_left x1 + 2)%nat (f + (2 * x_left x1 + 2))%nat _ _ _ _ _ ltac:(lia) E4) as E4'.
  rewrite (read_loop_mono trunc f (f + (2 * x_left x1 + 2))%nat _ _ _ _ _ ltac:(lia) Hf) in E4'. injection E4' as <- <-.
  rewrite E4. cbn [mbind option_bind]. change ((LEOF <? 0) && negb (LEOF =? LEOF)) with false. cbn iota.
  exists (xml_error ErrEof x3). split; [|exact Hi3].
  assert (not_closed (x_items x3) = None) as Hnc; [|cbn [x_items xml_error]; by rewrite Hnc]. apply not_closed_None.
  assert (Forall (λ it, it_ck it = true) (strip <$> x_items x3)) as Hck by (rewrite Hi3; apply flat_closed). apply Forall_fmap in Hck. exact Hck.
Qed.

(** C17: Reading what was written: a forest of at most 1024 levels, whose names,
    attributes and contents are shorter than XML_MAXSIZE and free of the
    characters that mean something at their place, written as text, is accepted
    by the parser, and walking its table with OS_GetElementsbyNode gives the
    forest back: the elements in order, with their attributes, their contents
    and their children. *)
Theorem OS_ReadXMLString_roundtrip ts trunc :
  forest_ok ts → ∃ x, OS_ReadXMLString_Ex (show_forest ts) trunc = Some (0, x) ∧ read_back x = Some ts.
Proof.
  intros Hts. destruct (read_forest ts trunc Hts) as (x & E & Hx). exists x. split; [exact E|]. destruct Hts as [_ Hh].
  assert (strip <$> x_items x = flat_forest 0 ts ++ []) as Hitems by (by rewrite app_nil_r).
  unfold read_back. cbn [OS_GetElementsbyNode mbind option_bind]. rewrite <-nodes_strip, Hitems, nodes_flat by done. cbn [nodes_loop app length]. rewrite app_nil_r.
  apply (walk_flat 1025 0 ts _ [] []); try done; try lia. eapply Forall_impl; [exact Hh|]. cbn. lia.
Qed.

(** The conditions on a concrete forest. *)
Ltac solve_tree_ok :=
  repeat match goal with
    | |- Forall _ [] => constructor
    | |- Forall _ (_ :: _) => apply Forall_cons
    | |- NoDup _ => apply (bool_decide_unpack _); vm_compute; exact I
    | |- tree_ok _ => cbn [tree_ok]
    | |- short _ => by vm_compute
    | |- name_ok _ => unfold name_ok
    | |- attr_ok _ => unfold attr_ok
    | |- content_ok _ => unfold content_ok
    | |- _ ∧ _ => split
    | |- char_in _ _ => split; [unfold char_ok; lia|apply (bool_decide_unpack _); vm_compute; exact I]
    | |- ∀ _, _ => intros c [= <-]; apply (bool_decide_unpack _); vm_compute; exact I
    | |- _ => done
    | |- _ => progress cbn
    end.

Lemma OS_ReadXMLString_roundtrip_witness :
  (* <a b="c" d=""><e>f</e>g</a><h></h> *)
  let ts := [XTree [97] [([98], [99]); ([100], [])] [XTree [101] [] [] [102]] [103]; XTree [104] [] [] []] in
  show_forest ts = [60; 97; 32; 98; 61; 34; 99; 34; 32; 100; 61; 34; 34; 62; 60; 101; 62; 102; 60; 47; 101; 62; 103; 60; 47; 97; 62; 60; 104; 62; 60; 47; 104; 62] ∧
  ∃ x, OS_ReadXMLString_Ex (show_forest ts) false = Some (0, x) ∧ read_back x = Some ts.
Proof.
  intros ts. split; [done|]. apply (OS_ReadXMLString_roundtrip ts false). split; [|by repeat constructor]. unfold ts.
  solve_tree_ok.
Defined.
