(* ===== verification/XmlVars.v ===== *)
(** The variables of XML files: OS_ApplyVariables of src/os_xml
    (os_xml_variables.c) on the table of the parser.  The arrays var and value
    hold pointers to contents of the table, kept here as the indices of their
    items: a content that is replaced is freed, and a pointer to it dangles. *)

From S2P Require Import Prelude CLib OsMatch Xml XmlSpec.

Definition XML_VARIABLE_MAXSIZE : Z := 256.
Definition XML_VAR_ATTRIBUTE : cstr := [110; 97; 109; 101].
Definition DOLLAR : Z := 36.

(** The messages, with the line that is reported with them. *)
Inductive var_err :=
| VarContent | VarNameSize | VarOnlyName | VarNoValue | VarUnknown (lvar : cstr) | VarTooLong (tp : Z).

(** The search for the name of a variable among the items after it. *)
Fixpoint var_name (rl : Z) (j : nat) (l : list xitem) : var_err * Z + option nat :=
  match l with
  | [] => inr None
  | it :: l =>
      if it_rl it <? rl then inr None
      else
        match it_tp it with
        | XML_ATTR =>
            if strcasecmp (it_el it) XML_VAR_ATTRIBUTE =? 0 then
              match it_ct it with
              | None => inl (VarContent, it_ln it)
              | Some ct => if XML_VARIABLE_MAXSIZE <=? strlen ct then inl (VarNameSize, it_ln it) else inr (Some j)
              end
            else inl (VarOnlyName, it_ln it)
        | _ => var_name rl (S j) l
        end
  end.

(** The characters that end the name of a variable, besides the terminator. *)
Definition ends_name (c : Z) : bool := (c =? DOLLAR) || (c =? 46) || (c =? 124) || (c =? 44) || (c =? 32).

(** The name is copied to [lvar], of XML_VARIABLE_MAXSIZE characters. *)
Fixpoint read_lvar (p lvar : cstr) : Z + cstr * cstr :=
  match p with
  | [] => inr (lvar, [])
  | c :: p' =>
      if ends_name c then inr (lvar, p)
      else if XML_VARIABLE_MAXSIZE - 1 <=? strlen lvar then inl (strlen lvar)
      else read_lvar p' (lvar ++ [c])
  end.

(** The content that an entry of [var] or [value] points to. *)
Definition content_at (l : list xitem) (freed : gset nat) (i : nat) : option cstr :=
  if decide (i ∈ freed) then None else it ← l !! i; it_ct it.

(** The first variable called [lvar]: its entry of [value]. *)
Fixpoint find_var (l : list xitem) (freed : gset nat) (vars : list (nat * nat)) (lvar : cstr) : option (option nat) :=
  match vars with
  | [] => Some None
  | (var, value) :: vars =>
      n ← content_at l freed var;
      if strcasecmp n lvar =? 0 then Some (Some value) else find_var l freed vars lvar
  end.

(** [strncat] into a buffer of [cap] characters. *)
Definition strncat (cap : Z) (dst src : cstr) (n : Z) : option cstr :=
  let s := dst ++ take (Z.to_nat (Z.min n (strlen src))) src in if strlen s + 1 <=? cap then Some s else None.

(** The content with the value in the place of the variable: [init] is where
    the variable starts, [tp] the length of its name and [p] what follows it.
    The new content, and the new [init]. *)
Definition replace_var (ct value p : cstr) (init tp : Z) : option (cstr * Z) :=
  let tsize := wrap64 (strlen ct + strlen value - tp + 1) in
  let cap := tsize + 2 in
  if cap <=? init then None
  else
    new ← strncat cap (take (Z.to_nat init) (take (Z.to_nat (Z.min tsize (strlen ct))) ct)) value (wrap64 (tsize - init));
    let init := strlen new in
    new ← strncat cap new p (wrap64 (tsize - strlen new));
    Some (new, init).

(** The loop over a copy [p] of the content of item [i]. *)
Fixpoint content_loop (fuel : nat) (l : list xitem) (vars : list (nat * nat)) (i : nat) (freed : gset nat) (ct p : cstr) (init : Z) :
    option (cstr * gset nat * option var_err) :=
  match fuel with
  | O => None
  | S fuel =>
      match p with
      | [] => Some (ct, freed, None)
      | c :: p =>
          if c =? DOLLAR then
            match read_lvar p [] with
            | inl tp => Some (ct, freed, Some (VarTooLong tp))
            | inr (lvar, p) =>
                f ← find_var l freed vars lvar;
                match f with
                | Some v =>
                    value ← content_at l freed v;
                    '(ct, init) ← replace_var ct value p init (strlen lvar);
                    content_loop fuel l vars i ({[i]} ∪ freed) ct p init
                | None =>
                    if bool_decide (head lvar = Some 40) then content_loop fuel l vars i freed ct p init
                    else if 1 <=? strlen lvar then Some (ct, freed, Some (VarUnknown lvar))
                    else content_loop fuel l vars i freed ct p (init + 1)
                end
            end
          else content_loop fuel l vars i freed ct p (init + 1)
      end
  end.

Definition set_ct (it : xitem) (ct : cstr) : xitem := XItem (it_el it) (Some ct) (it_tp it) (it_rl it) (it_ck it) (it_ln it).

(** An item of a variable: the pointers to its name and its value. *)
Definition define_var (i : nat) (it : xitem) (l : list xitem) : var_err * Z + nat * nat :=
  match var_name (it_rl it) (S i) (drop (S i) l) with
  | inl e => inl e
  | inr None => inl (VarNoValue, it_ln it)
  | inr (Some j) => match it_ct it with None => inl (VarNoValue, it_ln it) | Some _ => inr (j, i) end
  end.

(** An item of an element or attribute. *)
Definition apply_content (i : nat) (it : xitem) (l : list xitem) (vars : list (nat * nat)) (freed : gset nat) :
    option (list xitem * gset nat * option (var_err * Z)) :=
  match it_ct it with
  | None => Some (l, freed, None)
  | Some ct =>
      if (strlen ct <=? 2) || bool_decide (vars = []) then Some (l, freed, None)
      else
        '(ct, freed, e) ← content_loop (S (length ct)) l vars i freed ct ct 0;
        Some (<[i := set_ct it ct]> l, freed, e ← e; Some (e, it_ln it))
  end.

(** The loop over the table, with [n] items left. *)
Fixpoint apply_loop (n i : nat) (l : list xitem) (vars : list (nat * nat)) (freed : gset nat) : option (list xitem * option (var_err * Z)) :=
  match n with
  | O => Some (l, None)
  | S n =>
      it ← l !! i;
      match it_tp it with
      | XML_VARIABLE_BEGIN =>
          match define_var i it l with
          | inl e => Some (l, Some e)
          | inr p => apply_loop n (S i) l (vars ++ [p]) freed
          end
      | _ =>
          '(l, freed, e) ← apply_content i it l vars freed;
          match e with Some e => Some (l, Some e) | None => apply_loop n (S i) l vars freed end
      end
  end.

(** [OS_ApplyVariables]: the result and the message; the table of [x] is the
    changed one in both cases. *)
Definition OS_ApplyVariables (x : OS_XML) : option (Z * OS_XML * option (var_err * Z)) :=
  '(l, e) ← apply_loop (length (x_items x)) 0 (x_items x) [] ∅;
  Some (match e with Some _ => -1 | None => 0 end, with_items x l, e).
