(* ===== verification/XmlVarsSpec.v ===== *)
(** What OS_ApplyVariables does to a table: each content is the text that its
    references stand for. *)

From Stdlib Require Import (notations) String.
From S2P Require Import Prelude CLib OsMatch Xml XmlSpec XmlVars.

(** * Texts with references *)

Inductive tok := TChar (c : Z) | TRef (name : cstr).

(** The characters up to the end of a name, and the tokens after them. *)
Fixpoint scan_toks (s : cstr) : cstr * list tok :=
  match s with
  | [] => ([], [])
  | c :: s =>
      let '(w, ts) := scan_toks s in
      if c =? DOLLAR then ([], TRef w :: ts) else if ends_name c then ([], TChar c :: (TChar <$> w) ++ ts) else (c :: w, ts)
  end.
Definition tokens (s : cstr) : list tok := let '(w, ts) := scan_toks s in (TChar <$> w) ++ ts.

Definition render (t : tok) : cstr := match t with TChar c => [c] | TRef n => DOLLAR :: n end.

(** Names and values, the oldest first. *)
Definition env := list (cstr * cstr).
Fixpoint lookup_var (e : env) (n : cstr) : option cstr :=
  match e with [] => None | (m, v) :: e => if strcasecmp m n =? 0 then Some v else lookup_var e n end.

(** What a token stands for. *)
Definition meaning (e : env) (t : tok) : cstr + var_err :=
  match t with
  | TChar c => inl [c]
  | TRef n =>
      if XML_VARIABLE_MAXSIZE <=? strlen n then inr (VarTooLong (XML_VARIABLE_MAXSIZE - 1))
      else
        match lookup_var e n, n with
        | Some v, _ => inl v
        | None, [] | None, 40 :: _ => inl (render t)
        | None, _ => inr (VarUnknown n)
        end
  end.

(** The text; what follows a reference without meaning is left as it is. *)
Fixpoint expand (e : env) (ts : list tok) : cstr * option var_err :=
  match ts with
  | [] => ([], None)
  | t :: ts =>
      match meaning e t with
      | inr err => ((t :: ts) ≫= render, Some err)
      | inl s => let '(r, err) := expand e ts in (s ++ r, err)
      end
  end.

Definition expand_item (e : env) (it : xitem) : xitem * option var_err :=
  match it_ct it with
  | None => (it, None)
  | Some ct =>
      if (strlen ct <=? 2) || bool_decide (e = []) then (it, None)
      else let '(r, err) := expand e (tokens ct) in (set_ct it r, err)
  end.

(** The table, item by item: a variable is known after its item. *)
Fixpoint expand_items (e : env) (l : list xitem) : list xitem * option (var_err * Z) :=
  match l with
  | [] => ([], None)
  | it :: l =>
      match it_tp it with
      | XML_VARIABLE_BEGIN =>
          match var_name (it_rl it) 0 l with
          | inl err => (it :: l, Some err)
          | inr j =>
              match (j ← j; at_j ← l !! j; it_ct at_j), it_ct it with
              | Some n, Some v => let '(r, err) := expand_items (e ++ [(n, v)]) l in (it :: r, err)
              | _, _ => (it :: l, Some (VarNoValue, it_ln it))
              end
          end
      | _ =>
          let '(it', err) := expand_item e it in
          match err with
          | Some err => (it' :: l, Some (err, it_ln it))
          | None => let '(r, err) := expand_items e l in (it' :: r, err)
          end
      end
  end.

Lemma tokens_char c s : c ≠ DOLLAR → tokens (c :: s) = TChar c :: tokens s.
Proof.
  intros Hc. unfold tokens. cbn [scan_toks]. destruct (scan_toks s) as [w ts]. rewrite (proj2 (Z.eqb_neq _ _)) by done. by destruct (ends_name c).
Qed.

Lemma read_lvar_scan p : ∀ lvar, strlen lvar <= 255 →
  let '(w, ts) := scan_toks p in
  match read_lvar p lvar with
  | inr (n, rest) => strlen lvar + strlen w <= 255 ∧ n = lvar ++ w ∧ p = w ++ rest ∧ tokens rest = ts
  | inl tp => tp = 255 ∧ 255 < strlen lvar + strlen w
  end.
Proof.
  unfold strlen. induction p as [|c p IH]; intros lvar Hl; cbn [scan_toks read_lvar].
  { rewrite app_nil_r. split_and!; cbn; lia || done. }
  destruct (scan_toks p) as [w ts] eqn:Ep. destruct (Z.eqb_spec c DOLLAR) as [->|Hc].
  { cbn [ends_name Z.eqb orb]. cbn. rewrite app_nil_r. split_and!; [lia|done|done|]. unfold tokens. cbn [scan_toks]. by rewrite Ep. }
  destruct (ends_name c) eqn:Ee.
  { rewrite app_nil_r. split_and!; [cbn; lia|done|done|]. rewrite tokens_char by done. unfold tokens. by rewrite Ep. }
  unfold XML_VARIABLE_MAXSIZE. destruct (Z.leb_spec (256 - 1) (strlen lvar)) as [Hm|Hm]; unfold strlen in *; cbn [length]; [lia|].
  specialize (IH (lvar ++ [c]) ltac:(rewrite length_app; cbn; lia)). rewrite length_app in IH. cbn [length] in IH.
  destruct (read_lvar p (lvar ++ [c])) as [tp|[n rest]]; [lia|]. destruct IH as (H1 & -> & -> & H2). rewrite <-app_assoc. split_and!; [lia|done|done|done].
Qed.

Lemma render_tokens s : tokens s ≫= render = s.
Proof.
  unfold tokens. enough (∀ w ts, scan_toks s = (w, ts) → s = w ++ (ts ≫= render)) as H.
  { destruct (scan_toks s) as [w ts]. rewrite (H w ts eq_refl), bind_app. f_equal. clear. induction w as [|c w IH]; [done|]. cbn. by f_equal. }
  assert (∀ w, (TChar <$> w) ≫= render = w) as Hw by (induction w as [|c w IH]; [done|]; cbn; by f_equal).
  induction s as [|c s IH]; intros w ts; cbn [scan_toks]; [by intros [= <- <-]|]. destruct (scan_toks s) as [w1 ts1]. specialize (IH _ _ eq_refl).
  destruct (Z.eqb_spec c DOLLAR) as [->|]; [intros [= <- <-]; cbn; by rewrite <-IH|]. destruct (ends_name c); intros [= <- <-]; cbn.
  - by rewrite bind_app, Hw, <-IH.
  - by rewrite <-IH.
Qed.

(** A text without references stands for itself. *)
Lemma expand_plain e s : DOLLAR ∉ s → expand e (tokens s) = (s, None).
Proof.
  induction s as [|c s IH]; [done|]. rewrite not_elem_of_cons. intros [Hc Hs]. rewrite tokens_char by done. cbn [expand meaning]. by rewrite IH.
Qed.

(** * Replacing one reference *)

(** Twice the square of the longest content, which no content outgrows. *)
Definition LIMIT : Z := 838881280.

Lemma strncat_all cap dst src n : strlen src <= n → strlen dst + strlen src < cap → strncat cap dst src n = Some (dst ++ src).
Proof.
  unfold strncat, strlen. intros Hn Hc. rewrite Z.min_r by done. rewrite Nat2Z.id, take_ge, length_app by lia.
  by rewrite (proj2 (Z.leb_le _ _)) by lia.
Qed.

Lemma replace_var_ok pre lvar rest value init :
  0 <= init <= strlen pre → strlen (pre ++ DOLLAR :: lvar ++ rest) + strlen value <= LIMIT →
  replace_var (pre ++ DOLLAR :: lvar ++ rest) value rest init (strlen lvar) =
  Some (take (Z.to_nat init) pre ++ value ++ rest, init + strlen value).
Proof.
  intros Hi Hs. unfold replace_var. set (ct := pre ++ DOLLAR :: lvar ++ rest) in *.
  assert (strlen ct = strlen pre + 1 + strlen lvar + strlen rest) as Hl by (unfold ct, strlen; rewrite length_app; cbn [length]; rewrite length_app; lia).
  assert (0 <= strlen lvar ∧ 0 <= strlen rest ∧ 0 <= strlen value) as (? & ? & ?) by (unfold strlen; lia). unfold LIMIT in Hs.
  set (tsize := wrap64 _). assert (tsize = strlen pre + strlen rest + strlen value + 2) as Ht by (unfold tsize, wrap64; rewrite Z.mod_small; lia). rewrite Ht. clearbody tsize.
  rewrite (proj2 (Z.leb_gt _ _)) by lia.
  assert (take (Z.to_nat init) (take (Z.to_nat (Z.min (strlen pre + strlen rest + strlen value + 2) (strlen ct))) ct) = take (Z.to_nat init) pre) as ->.
  { rewrite take_take, Nat.min_l by lia. unfold ct. rewrite take_app_le; [done|]. unfold strlen in Hi. lia. }
  assert (strlen (take (Z.to_nat init) pre) = init) as Hti by (unfold strlen in *; rewrite length_take; lia).
  assert (∀ a b, strlen (a ++ b) = strlen a + strlen b) as Happ by (intros; unfold strlen; rewrite length_app; lia).
  unfold wrap64. rewrite strncat_all by (rewrite ?Z.mod_small; lia). cbn [mbind option_bind]. rewrite Happ, Hti.
  rewrite strncat_all by (rewrite ?Happ, ?Z.mod_small; lia). cbn [mbind option_bind]. by rewrite <-app_assoc.
Qed.

(** * One content *)

Definition short_text (s : cstr) : Prop := strlen s <= XML_MAXSIZE.

(** The pointers of [vars] are those of the names and values of [e]. *)
Definition var_rep (l : list xitem) (freed : gset nat) (p : nat * nat) (nv : cstr * cstr) : Prop :=
  content_at l freed p.1 = Some nv.1 ∧ content_at l freed p.2 = Some nv.2 ∧ short_text nv.2.
Definition env_rep (l : list xitem) (freed : gset nat) : list (nat * nat) → env → Prop := Forall2 (var_rep l freed).
Definition not_used (i : nat) (vars : list (nat * nat)) : Prop := Forall (λ p, p.1 ≠ i ∧ p.2 ≠ i) vars.

Lemma content_at_same l l' freed freed' i k :
  k ≠ i → (∀ k, k ≠ i → l' !! k = l !! k) → freed' ⊆ {[i]} ∪ freed → ∀ s, content_at l freed k = Some s → content_at l' freed' k = Some s.
Proof.
  intros Hk Hl Hf s. unfold content_at. case_decide as Hd; [done|]. case_decide as Hd'; [set_solver|]. by rewrite Hl.
Qed.
Lemma env_rep_same l l' freed freed' i vars e :
  not_used i vars → (∀ k, k ≠ i → l' !! k = l !! k) → freed' ⊆ {[i]} ∪ freed → env_rep l freed vars e → env_rep l' freed' vars e.
Proof.
  intros Hn Hl Hf He. induction He as [|p nv vars e (H1 & H2 & H3) _ IH]; [constructor|]. apply Forall_cons in Hn as [[Hp1 Hp2] Hn].
  constructor; [|by apply IH]. split_and!; [..|done]; by eapply content_at_same.
Qed.

Lemma find_var_rep l freed vars e lvar :
  env_rep l freed vars e →
  match lookup_var e lvar with
  | None => find_var l freed vars lvar = Some None
  | Some v => ∃ k, find_var l freed vars lvar = Some (Some k) ∧ content_at l freed k = Some v ∧ short_text v
  end.
Proof.
  induction 1 as [|[j k] [n v] vars e (H1 & H2 & H3) _ IH]; cbn [lookup_var find_var]; [done|]. cbn in H1, H2, H3. rewrite H1. cbn [mbind option_bind].
  destruct (strcasecmp n lvar =? 0); [by exists k|exact IH].
Qed.

(** A reference that is left as it is although its name is not empty. *)
Definition paren_ref (t : tok) : Prop := match t with TRef (40 :: _) => True | _ => False end.
Definition no_paren (s : cstr) : Prop := Forall (λ t, ¬ paren_ref t) (tokens s).

Lemma meaning_none e n :
  strlen n <= 255 → lookup_var e n = None →
  meaning e (TRef n) = if bool_decide (head n = Some 40) then inl (DOLLAR :: n) else if 1 <=? strlen n then inr (VarUnknown n) else inl [DOLLAR].
Proof.
  intros Hl Hn. cbn [meaning]. unfold XML_VARIABLE_MAXSIZE. rewrite (proj2 (Z.leb_gt _ _)), Hn by lia. destruct n as [|c n]; [done|]. cbn [head].
  destruct (decide (c = 40)) as [->|Hc]; [by rewrite bool_decide_eq_true_2|]. rewrite bool_decide_eq_false_2 by congruence.
  rewrite (proj2 (Z.leb_le _ _)) by (unfold strlen; cbn; lia). by repeat (destruct c as [|c|c]; try done).
Qed.

Lemma content_loop_plain l vars i freed ct fuel : ∀ p init, DOLLAR ∉ p → (length p < fuel)%nat → content_loop fuel l vars i freed ct p init = Some (ct, freed, None).
Proof.
  induction fuel as [|fuel IH]; intros p init Hp Hf; [lia|]. destruct p as [|c p]; [done|]. apply not_elem_of_cons in Hp as [Hc Hp]. cbn [content_loop].
  rewrite (proj2 (Z.eqb_neq _ _)) by done. apply IH; [done|]. cbn in Hf. lia.
Qed.

(** What the loop makes of the rest [p] of a content, when [pre] is in front of
    it: where the place [init] is the end of [pre], the text that [p] stands for
    takes the place of [p]. *)
Definition reads (e : env) (i : nat) (freed : gset nat) (pre p : cstr) (init : Z) (r : option (cstr * gset nat * option var_err)) : Prop :=
  ∃ ct freed' err, r = Some (ct, freed', err) ∧ freed' ⊆ {[i]} ∪ freed ∧
    (init = strlen pre → no_paren p → ct = pre ++ (expand e (tokens p)).1 ∧ err = (expand e (tokens p)).2).

Lemma strlen_app a b : strlen (a ++ b) = strlen a + strlen b.
Proof. unfold strlen. rewrite length_app. lia. Qed.
Lemma strlen_cons c s : strlen (c :: s) = 1 + strlen s.
Proof. unfold strlen. cbn. lia. Qed.
Lemma strlen_pos s : 0 <= strlen s.
Proof. unfold strlen. lia. Qed.

Lemma reads_char e i freed pre c p init r : c ≠ DOLLAR → reads e i freed (pre ++ [c]) p (init + 1) r → reads e i freed pre (c :: p) init r.
Proof.
  intros Hc (ct & freed' & err & -> & Hf & H). exists ct, freed', err. split; [done|]. split; [done|]. unfold no_paren. rewrite tokens_char by done.
  intros Hin [_ Hnp]%Forall_cons. destruct H as [-> ->]; [rewrite strlen_app; change (strlen [c]) with 1; lia|done|]. cbn [expand meaning].
  destruct (expand e (tokens p)) as [t er]. by rewrite <-app_assoc.
Qed.

(** A reference [w] that is followed by [rest]. *)
Definition ref_then (p w rest : cstr) : Prop := p = w ++ rest ∧ strlen w <= 255 ∧ tokens (DOLLAR :: p) = TRef w :: tokens rest.

Lemma reads_found e i freed freed1 pre p w rest v r :
  ref_then p w rest → lookup_var e w = Some v → freed1 ⊆ {[i]} ∪ freed → ∀ init, 0 <= init <= strlen pre →
  reads e i freed1 (take (Z.to_nat init) pre ++ v) rest (init + strlen v) r → reads e i freed pre (DOLLAR :: p) init r.
Proof.
  intros (-> & Hw & Ht) Hv Hf1 init Hi (ct & freed' & err & -> & Hf & H). exists ct, freed', err. split; [done|]. split; [set_solver|]. unfold no_paren. rewrite Ht.
  intros -> [_ Hnp]%Forall_cons. rewrite (take_ge pre) in H by (unfold strlen; lia). destruct H as [-> ->]; [by rewrite strlen_app|done|]. cbn [expand meaning].
  unfold XML_VARIABLE_MAXSIZE. rewrite (proj2 (Z.leb_gt _ _)), Hv by lia. destruct (expand e (tokens rest)) as [t er]. by rewrite <-app_assoc.
Qed.

(** A reference that is left as it is. *)
Lemma reads_kept e i freed pre p w rest init init' r :
  ref_then p w rest → lookup_var e w = None → (init = strlen pre → ¬ paren_ref (TRef w) → w = [] ∧ init' = init + 1) →
  reads e i freed (pre ++ DOLLAR :: w) rest init' r → reads e i freed pre (DOLLAR :: p) init r.
Proof.
  intros (-> & Hw & Ht) Hv Hin (ct & freed' & err & -> & Hf & H). exists ct, freed', err. split; [done|]. split; [done|]. unfold no_paren. rewrite Ht.
  intros Hi [Hp Hnp]%Forall_cons. destruct (Hin Hi Hp) as [-> ->]. destruct H as [-> ->]; [rewrite strlen_app, Hi; done|done|]. cbn [expand]. rewrite meaning_none by done.
  cbn. destruct (expand e (tokens rest)) as [t er]. by rewrite <-app_assoc.
Qed.

(** A reference without meaning. *)
Lemma reads_error e i freed pre p ts t init err :
  tokens (DOLLAR :: p) = t :: ts → meaning e t = inr err → reads e i freed pre (DOLLAR :: p) init (Some (pre ++ DOLLAR :: p, freed, Some err)).
Proof.
  intros Ht Hm. eexists _, freed, _. split; [done|]. split; [set_solver|]. intros _ _. pose proof (render_tokens (DOLLAR :: p)) as Hr. rewrite Ht in *. cbn [expand].
  rewrite Hm. cbn [fst snd]. by rewrite Hr.
Qed.

Lemma content_loop_ok l vars e i : not_used i vars → ∀ fuel p pre init freed,
  (length p < fuel)%nat → 0 <= init <= strlen pre → strlen (pre ++ p) + XML_MAXSIZE * strlen p <= LIMIT → env_rep l freed vars e →
  reads e i freed pre p init (content_loop fuel l vars i freed (pre ++ p) p init).
Proof.
  intros Hnu. induction fuel as [|fuel IH]; intros p pre init freed Hf Hi Hs He; [lia|]. destruct p as [|c p]; cbn [content_loop].
  { eexists _, freed, None. split; [done|]. split; [set_solver|]. intros _ _. cbn. done. }
  cbn [length] in Hf. rewrite strlen_app, strlen_cons in Hs. unfold XML_MAXSIZE in *. pose proof (strlen_pos p).
  destruct (Z.eqb_spec c DOLLAR) as [->|Hc].
  2: { apply reads_char; [done|]. replace (pre ++ c :: p) with ((pre ++ [c]) ++ p) by (by rewrite <-app_assoc).
    apply IH; [lia| | |done]; rewrite !strlen_app; change (strlen [c]) with 1; lia. }
  pose proof (read_lvar_scan p [] ltac:(unfold strlen; cbn; lia)) as Hr. destruct (scan_toks p) as [w ts] eqn:Ep.
  assert (tokens (DOLLAR :: p) = TRef w :: ts) as Ht by (unfold tokens; cbn [scan_toks]; by rewrite Ep).
  change (strlen []) with 0 in Hr. destruct (read_lvar p []) as [tp|[n rest]].
  { destruct Hr as [-> Hr]. eapply reads_error; [done|]. cbn [meaning]. unfold XML_VARIABLE_MAXSIZE. by rewrite (proj2 (Z.leb_le _ _)) by lia. }
  destruct Hr as (Hw & -> & Hp & <-). cbn [app] in *. assert (ref_then p w rest) as Hrt by (by split_and!).
  assert (length p = length w + length rest)%nat as Hlp by (rewrite Hp; apply length_app). assert (strlen p = strlen w + strlen rest) as Hsp by (rewrite Hp; apply strlen_app).
  pose proof (strlen_pos w). pose proof (strlen_pos rest). pose proof (find_var_rep l freed vars e w He) as Hfv. destruct (lookup_var e w) as [v|] eqn:Hlv.
  - destruct Hfv as (k & -> & Hk & Hsv). cbn [mbind option_bind]. rewrite Hk. cbn [mbind option_bind]. unfold short_text, XML_MAXSIZE in Hsv. pose proof (strlen_pos v).
    replace (pre ++ DOLLAR :: p) with (pre ++ DOLLAR :: w ++ rest) by (by rewrite Hp). rewrite replace_var_ok; [|done|rewrite strlen_app, strlen_cons, strlen_app; lia]. cbn [mbind option_bind].
    assert (strlen (take (Z.to_nat init) pre) = init) as Hti by (unfold strlen in *; rewrite length_take; lia).
    eapply reads_found; [done|done| |done|]; [reflexivity|]. rewrite app_assoc. apply IH; [lia|rewrite strlen_app; lia|rewrite !strlen_app; lia|].
    by eapply env_rep_same.
  - rewrite Hfv. cbn [mbind option_bind].
    assert (∀ init', 0 <= init' <= strlen pre + 1 + strlen w → reads e i freed (pre ++ DOLLAR :: w) rest init' (content_loop fuel l vars i freed (pre ++ DOLLAR :: p) rest init')) as Hgo.
    { intros init' Hi'. rewrite Hp. replace (pre ++ DOLLAR :: w ++ rest) with ((pre ++ DOLLAR :: w) ++ rest) by (by rewrite <-app_assoc).
      apply IH; [lia|rewrite strlen_app, strlen_cons; lia|rewrite !strlen_app, strlen_cons; lia|done]. }
    case_bool_decide as Hh.
    { eapply reads_kept; [done|done| |apply Hgo; lia]. intros _ []. destruct w as [|c w]; [done|]. cbn in Hh. by injection Hh as ->. }
    destruct (Z.leb_spec 1 (strlen w)) as [Hw1|Hw1].
    { eapply reads_error; [done|]. rewrite meaning_none by done. rewrite bool_decide_eq_false_2 by done. by rewrite (proj2 (Z.leb_le _ _)). }
    eapply reads_kept; [done|done| |apply Hgo; lia]. intros _ _. split; [|done]. destruct w; [done|]. rewrite strlen_cons in Hw1. pose proof (strlen_pos w). lia.
Qed.

(** * The table *)

(** No variable has a name with a reference in it. *)
Fixpoint names_plain (l : list xitem) : Prop :=
  match l with
  | [] => True
  | it :: l =>
      (it_tp it = XML_VARIABLE_BEGIN → ∀ j a n, var_name (it_rl it) 0 l = inr (Some j) → l !! j = Some a → it_ct a = Some n → DOLLAR ∉ n) ∧ names_plain l
  end.
Definition items_no_paren (l : list xitem) : Prop := Forall (λ it, ∀ ct, it_ct it = Some ct → no_paren ct) l.

Lemma var_name_shift rl n l : ∀ j, var_name rl (n + j) l = match var_name rl j l with inl e => inl e | inr o => inr (Nat.add n <$> o) end.
Proof.
  induction l as [|it l IH]; intros j; cbn [var_name]; [done|]. destruct (it_rl it <? rl); [done|]. rewrite <-Nat.add_succ_r.
  destruct (it_tp it); [|apply IH..]. destruct (strcasecmp _ _ =? 0); [|done]. destruct (it_ct it) as [ct|]; [|done]. by destruct (_ <=? _).
Qed.
Lemma var_name_found rl l : ∀ j, var_name rl 0 l = inr (Some j) → ∃ a n, l !! j = Some a ∧ it_ct a = Some n.
Proof.
  induction l as [|it l IH]; intros j; cbn [var_name]; [done|]. destruct (it_rl it <? rl); [done|].
  assert (var_name rl 1 l = inr (Some j) → ∃ a n, (it :: l) !! j = Some a ∧ it_ct a = Some n) as Hn.
  { change 1%nat with (1 + 0)%nat. rewrite var_name_shift. destruct (var_name rl 0 l) as [|[k|]]; try done. intros [= <-]. by apply IH. }
  destruct (it_tp it); [|exact Hn..]. destruct (strcasecmp _ _ =? 0); [|done]. destruct (it_ct it) as [ct|] eqn:E; [|done]. destruct (_ <=? _); [done|].
  intros [= <-]. by exists it, ct.
Qed.

(** The variables seen so far, in front of item [i]. *)
Record seen (l : list xitem) (i : nat) (freed : gset nat) (vars : list (nat * nat)) (e : env) : Prop := {
  sn_rep : env_rep l freed vars e;
  sn_freed : ∀ k, k ∈ freed → (k < i)%nat;
  sn_names : Forall (λ nv, DOLLAR ∉ nv.1) e;
  sn_values : Forall (λ p, p.2 < i)%nat vars }.

Lemma seen_next l i freed vars e : seen l i freed vars e → seen l (S i) freed vars e.
Proof. intros [H1 H2 H3 H4]. split; [done|intros k Hk; specialize (H2 k Hk); lia|done|]. eapply Forall_impl; [exact H4|]. intros p Hp. cbn in *. lia. Qed.

(** The item that is looked at either names a variable, and has no reference, or
    is not used by one. *)
Lemma seen_used l i freed vars e ct it :
  seen l i freed vars e → l !! i = Some it → it_ct it = Some ct → not_used i vars ∨ DOLLAR ∉ ct.
Proof.
  intros [Hr Hf Hn Hv] Hi Hct. destruct (decide (DOLLAR ∈ ct)) as [Hd|]; [left|by right]. apply Forall_forall. intros p Hp.
  destruct (list_elem_of_lookup_1 _ _ Hp) as [k Hk]. destruct (Forall2_lookup_l _ _ _ _ _ Hr Hk) as (nv & Hnv & H1 & _ & _). split.
  - intros Hpi. rewrite Hpi in H1. unfold content_at in H1. case_decide as Hd'; [done|]. rewrite Hi in H1. cbn [mbind option_bind] in H1.
    pose proof (Forall_lookup_1 _ _ _ _ Hn Hnv) as Hnd. cbn in Hnd. apply Hnd. by replace nv.1 with ct by congruence.
  - pose proof (Forall_lookup_1 _ _ _ _ Hv Hk) as Hlt. cbn in Hlt. lia.
Qed.

(** An element or attribute, at its place in the table. *)
Lemma item_expanded pre it rest freed vars e :
  seen (pre ++ it :: rest) (length pre) freed vars e → wf_item it →
  ∃ it' freed' err, apply_content (length pre) it (pre ++ it :: rest) vars freed = Some (pre ++ it' :: rest, freed', err) ∧
    seen (pre ++ it' :: rest) (S (length pre)) freed' vars e ∧
    ((∀ ct, it_ct it = Some ct → no_paren ct) → it' = (expand_item e it).1 ∧ err = (err ← (expand_item e it).2; Some (err, it_ln it))).
Proof.
  intros Hs Hw. pose proof (seen_next _ _ _ _ _ Hs) as Hs'. assert ((pre ++ it :: rest) !! length pre = Some it) as Hi by (by rewrite lookup_app_r, Nat.sub_diag by lia).
  unfold apply_content, expand_item. destruct (it_ct it) as [ct|] eqn:Hct; [|by exists it, freed, None].
  assert (bool_decide (vars = []) = bool_decide (e = [])) as -> by (apply bool_decide_ext; by destruct (sn_rep _ _ _ _ _ Hs)).
  destruct (_ || _) eqn:Hor; [by exists it, freed, None|]. apply orb_false_iff in Hor as [_ _].
  assert (∀ ct, <[length pre := set_ct it ct]> (pre ++ it :: rest) = pre ++ set_ct it ct :: rest) as Hins by (intros; by rewrite insert_app_r_alt, Nat.sub_diag by lia).
  destruct (seen_used _ _ _ _ _ ct it Hs Hi Hct) as [Hnu|Hd].
  - pose proof Hs as [Hr Hf Hn Hv]. pose proof Hw as (_ & _ & Hsz & _). specialize (Hsz ct Hct).
    destruct (content_loop_ok (pre ++ it :: rest) vars e _ Hnu (S (length ct)) ct [] 0 freed) as (ct' & freed' & err & E & Hfr & H); [lia|done|cbn [app]; unfold LIMIT, XML_MAXSIZE in *; lia|done|].
    cbn [app] in E. rewrite E. cbn [mbind option_bind]. rewrite Hins. exists (set_ct it ct'), freed', (err ← err; Some (err, it_ln it)). split; [done|].
    split; [|intros Hp; destruct (H eq_refl (Hp ct eq_refl)) as [-> ->]; by destruct (expand e (tokens ct))]. split; [|intros k Hk|done|].
    + eapply env_rep_same; [done| |done|done]. intros k Hk. rewrite <-Hins. by apply list_lookup_insert_ne.
    + assert (k = length pre ∨ k ∈ freed) as [->|Hk'] by set_solver; [lia|]. specialize (Hf k Hk'). lia.
    + eapply Forall_impl; [exact Hv|]. intros p Hp. cbn in *. lia.
  - rewrite content_loop_plain by (done || lia). cbn [mbind option_bind]. rewrite Hins, expand_plain by done.
    assert (set_ct it ct = it) as -> by (destruct it; cbn in *; by subst). by exists it, freed, None.
Qed.

Lemma seen_variable pre it rest freed vars e j a n v :
  seen (pre ++ it :: rest) (length pre) freed vars e → rest !! j = Some a → it_ct a = Some n → DOLLAR ∉ n → it_ct it = Some v → short_text v →
  seen (pre ++ it :: rest) (S (length pre)) freed (vars ++ [(S (length pre) + j, length pre)%nat]) (e ++ [(n, v)]).
Proof.
  intros Hs Ha Hn Hd Hv Hsv. pose proof (seen_next _ _ _ _ _ Hs) as [Hr Hf Hnm Hvs]. split; [|done|by apply Forall_app; split; [|apply Forall_singleton]|].
  - apply Forall2_app; [done|]. constructor; [|constructor]. unfold var_rep, content_at. cbn [fst snd]. rewrite !decide_False.
    + split_and!; [|by rewrite lookup_app_r, Nat.sub_diag by lia|done]. rewrite lookup_app_r by lia. replace (S (length pre) + j - length pre)%nat with (S j) by lia.
      change ((it :: rest) !! S j) with (rest !! j). by rewrite Ha.
    + intros Hk. apply (sn_freed _ _ _ _ _ Hs) in Hk. lia.
    + intros Hk. specialize (Hf _ Hk). lia.
  - apply Forall_app. split; [done|]. apply Forall_singleton. cbn. lia.
Qed.

Definition applied (pre : list xitem) (e : env) (rest : list xitem) (r : option (list xitem * option (var_err * Z))) : Prop :=
  ∃ l err, r = Some (l, err) ∧ (items_no_paren rest → l = pre ++ (expand_items e rest).1 ∧ err = (expand_items e rest).2).

Lemma applied_cons pre e e' it it' rest r :
  applied (pre ++ [it']) e' rest r →
  (items_no_paren (it :: rest) → (expand_items e (it :: rest)) = let '(r, err) := expand_items e' rest in (it' :: r, err)) →
  applied pre e (it :: rest) r.
Proof.
  intros (l & err & -> & H) He. exists l, err. split; [done|]. intros Hnp. rewrite He by done. apply Forall_cons in Hnp as [_ Hnp].
  destruct (H Hnp) as [-> ->]. destruct (expand_items e' rest). by rewrite <-app_assoc.
Qed.
Lemma applied_error pre e it it' rest err :
  (items_no_paren (it :: rest) → expand_items e (it :: rest) = (it' :: rest, Some err)) → applied pre e (it :: rest) (Some (pre ++ it' :: rest, Some err)).
Proof. intros H. eexists _, _. split; [done|]. intros Hnp. by rewrite H. Qed.

Lemma apply_loop_ok rest : ∀ pre vars freed e,
  seen (pre ++ rest) (length pre) freed vars e → names_plain rest → Forall wf_item rest →
  applied pre e rest (apply_loop (length rest) (length pre) (pre ++ rest) vars freed).
Proof.
  induction rest as [|it rest IH]; intros pre vars freed e Hs Hn Hw; cbn [length apply_loop].
  { by eexists _, _. }
  destruct Hn as [Hn1 Hn2]. apply Forall_cons in Hw as [Hw1 Hw2]. rewrite lookup_app_r, Nat.sub_diag by lia. cbn [mbind option_bind lookup list_lookup].
  assert (∀ it' vars freed e, seen (pre ++ it' :: rest) (S (length pre)) freed vars e →
    applied (pre ++ [it']) e rest (apply_loop (length rest) (S (length pre)) (pre ++ it' :: rest) vars freed)) as Hgo.
  { intros it' vars' freed' e' Hs'. specialize (IH (pre ++ [it']) vars' freed' e'). rewrite length_app, <-app_assoc, Nat.add_1_r in IH. by apply IH. }
  destruct (item_expanded _ _ _ _ _ _ Hs Hw1) as (it' & freed' & err & Hac & Hse & Hex). destruct (it_tp it) eqn:Htp.
  1, 2: rewrite Hac; cbn [mbind option_bind]; destruct err as [err|]; [apply applied_error|eapply applied_cons; [by apply Hgo|]]; intros [Hp _]%Forall_cons;
    destruct (Hex Hp) as [-> Herr]; cbn [expand_items]; rewrite Htp; destruct (expand_item e it) as [? [?|]]; cbn in *; by simplify_eq.
  unfold define_var. rewrite drop_app_ge by lia. replace (S (length pre) - length pre)%nat with 1%nat by lia. change (drop 1 (it :: rest)) with (drop 0 rest). rewrite drop_0.
  pose proof (var_name_shift (it_rl it) (S (length pre)) rest 0) as Hsh. rewrite Nat.add_0_r in Hsh. rewrite Hsh. specialize (Hn1 eq_refl).
  destruct (var_name (it_rl it) 0 rest) as [er|[j|]] eqn:Hvn; cbn [fmap option_fmap option_map]; [apply applied_error; intros _; cbn [expand_items]; by rewrite Htp, Hvn| |
    apply applied_error; intros _; cbn [expand_items]; by rewrite Htp, Hvn].
  destruct (var_name_found _ _ _ Hvn) as (a & n & Ha & Hna). destruct (it_ct it) as [v|] eqn:Hct.
  - eapply applied_cons; [apply Hgo; eapply (seen_variable _ _ _ _ _ _ j a n v); try done; [by eapply Hn1|by apply Hw1]|]. intros _. cbn [expand_items].
    rewrite Htp, Hvn, Hct. cbn [mbind option_bind]. rewrite Ha. cbn [mbind option_bind]. by rewrite Hna.
  - apply applied_error. intros _. cbn [expand_items]. rewrite Htp, Hvn, Hct. cbn [mbind option_bind]. rewrite Ha. cbn [mbind option_bind]. by rewrite Hna.
Qed.

(** * Claims *)


Module VarsDemo.
(** The table of a text. *)
Definition table (s : cstr) : OS_XML := match OS_ReadXMLString s with Some (_, x) => x | None => Xml [] 0 None 0 0 [] false [] end.
Definition contents (x : OS_XML) : list (option cstr) := it_ct <$> x_items x.

(** <var name="HOST">web</var><a b="$host">x $HOST, $Host|$</a> *)
Definition text : cstr :=
  [60; 118; 97; 114; 32; 110; 97; 109; 101; 61; 34; 72; 79; 83; 84; 34; 62; 119; 101; 98; 60; 47; 118; 97; 114; 62;
   60; 97; 32; 98; 61; 34; 36; 104; 111; 115; 116; 34; 62; 120; 32; 36; 72; 79; 83; 84; 44; 32; 36; 72; 111; 115; 116; 124; 36; 60; 47; 97; 62].
(** <var name="foo">1</var> and the variable b$foo; an element after them *)
Definition var_foo : cstr := [60; 118; 97; 114; 32; 110; 97; 109; 101; 61; 34; 102; 111; 111; 34; 62; 49; 60; 47; 118; 97; 114; 62].
Definition var_bfoo : cstr := [60; 118; 97; 114; 32; 110; 97; 109; 101; 61; 34; 98; 36; 102; 111; 111; 34; 62; 50; 60; 47; 118; 97; 114; 62].
Definition elem (c : cstr) : cstr := [60; 97; 62] ++ c ++ [60; 47; 97; 62].
End VarsDemo.
Import VarsDemo.

Lemma table_wf s : Forall wf_item (x_items (table s)).
Proof.
  unfold table, OS_ReadXMLString, OS_ReadXMLString_Ex. destruct (ParseXML_ok (Xml [] 0 None 0 0 [] false (mem s)) false) as (r & x & -> & _ & Hw & _); [done| |exact Hw].
  right. cbn [x_in x_cmp x_file]. unfold mem. rewrite fmap_app. apply elem_of_app. right. by apply list_elem_of_singleton.
Qed.
Lemma demo_items :
  x_items (table text) =
    [XItem [118; 97; 114] (Some [119; 101; 98]) XML_VARIABLE_BEGIN 0 true 1; XItem [110; 97; 109; 101] (Some [72; 79; 83; 84]) XML_ATTR 0 true 1;
     XItem [97] (Some [120; 32; 36; 72; 79; 83; 84; 44; 32; 36; 72; 111; 115; 116; 124; 36]) XML_ELEM 0 true 1; XItem [98] (Some [36; 104; 111; 115; 116]) XML_ATTR 0 true 1].
Proof. vm_compute. reflexivity. Qed.


(** Where it goes wrong: a name with a reference in it is replaced, so that the
    pointer of its variable dangles when the next reference is looked up; a
    reference that starts with a parenthesis is not counted, so that the next
    value is written over it; a content of two characters is not looked at; and a
    variable without name takes that of the next attribute called name. *)
Theorem OS_ApplyVariables_wrong :
  OS_ApplyVariables (table (var_foo ++ var_bfoo ++ elem [120; 36; 98; 49])) = None ∧
  (∃ x, OS_ApplyVariables (table (var_foo ++ elem [36; 40; 97; 41; 32; 36; 102; 111; 111])) = Some (0, x, None) ∧
    last (contents x) = Some (Some [36; 49])) ∧
  (∃ x, OS_ApplyVariables (table ([60; 118; 97; 114; 32; 110; 97; 109; 101; 61; 34; 102; 34; 62; 49; 60; 47; 118; 97; 114; 62] ++ elem [36; 102])) = Some (0, x, None) ∧
    last (contents x) = Some (Some [36; 102])) ∧
  (∃ x, OS_ApplyVariables (table ([60; 118; 97; 114; 62; 49; 60; 47; 118; 97; 114; 62; 60; 97; 32; 110; 97; 109; 101; 61; 34; 120; 120; 34; 62; 36; 120; 120; 60; 47; 97; 62])) =
      Some (0, x, None) ∧ contents x = [Some [49]; Some [49]; Some [120; 120]]).
Proof. split_and!; [vm_compute; reflexivity|eexists; split; vm_compute; reflexivity..]. Qed.
