(* ===== verification/XmlAccess.v ===== *)
(** The access functions of src/os_xml (os_xml_access.c): elements, attributes
    and contents by a path of names, on the table of the parser.  A NULL
    terminated array of names is the list of the names. *)

From S2P Require Import Prelude CLib OsMatch Xml.

(** [element_name[j]]: a name or the NULL at the end. *)
Definition name_at (names : list cstr) (j : Z) : option (option cstr) :=
  if (0 <=? j) && (j <=? Z.of_nat (length names)) then Some (names !! Z.to_nat j) else None.

Definition is_elem (it : xitem) : bool := bool_decide (it_tp it = XML_ELEM).
Definition is_attr (it : xitem) : bool := bool_decide (it_tp it = XML_ATTR).

(** ** [OS_ElementExist] *)

Fixpoint exist_loop (names : list cstr) (l : list xitem) (j : Z) (matched : bool) (totalmatch : Z) : option Z :=
  match l with
  | [] => Some totalmatch
  | it :: l =>
      n ← name_at names j;
      let j := match n with None => 0 | Some _ => j end in
      n ← name_at names j;
      let next j matched := exist_loop names l (if matched && (it_rl it <? j) && is_elem it then 0 else j)
                              (if matched && (it_rl it <? j) && is_elem it then false else matched) totalmatch in
      if is_elem it && (it_rl it =? j) then
        n ← n;
        if strcmp (it_el it) n =? 0 then
          n ← name_at names (j + 1);
          match n with
          | None => exist_loop names l 0 true (wrap32 (totalmatch + 1))
          | Some _ => exist_loop names l (j + 1) true totalmatch
          end
        else next j matched
      else next j matched
  end.
Definition OS_ElementExist (x : OS_XML) (names : list cstr) : option Z :=
  match names with [] => Some 0 | _ => exist_loop names (x_items x) 0 false 0 end.
Definition OS_RootElementExist (x : OS_XML) (element_name : cstr) : option Z := OS_ElementExist x [element_name].

(** ** [_GetElements] *)

(** The last test of an iteration: has the path been left? *)
Definition path_left (it : xitem) (j : Z) : bool :=
  (is_attr it && (wrap32 (it_rl it + 1) <? j)) || (is_elem it && (it_rl it <? j)).

(** [names] is [None] for a NULL array; the names found, none for NULL. *)
Fixpoint elements_loop (names : option (list cstr)) (type : XML_TYPE) (l : list xitem) (j : Z) (ret : list cstr) (matched ready : bool) :
    option (list cstr) :=
  match l with
  | [] => Some ret
  | it :: l =>
      r ← (if ready then Some (Some true)
           else
             names ← names;
             n ← name_at names j;
             Some (match n with None => if matched then Some true else None | Some _ => Some false end));
      match r with
      | None => Some ret
      | Some ready =>
          if 16 <? j then Some ret
          else
            let next ret j matched :=
              if matched && path_left it j then elements_loop names type l 0 ret false (match names with None => true | Some _ => false end)
              else elements_loop names type l j ret matched ready in
            if ready && bool_decide (it_tp it = type) then
              let wanted := match type with XML_ATTR => it_rl it =? wrap32 (j - 1) | XML_ELEM => it_rl it =? j | _ => false end in
              next (if wanted then ret ++ [it_el it] else ret) j matched
            else if is_elem it && (it_rl it =? j) then
              names' ← names;
              n ← name_at names' j;
              match n with
              | None => next ret j matched
              | Some n => if strcmp (it_el it) n =? 0 then elements_loop names type l (j + 1) ret true ready else next ret j matched
              end
            else next ret j matched
      end
  end.
Definition _GetElements (x : OS_XML) (names : option (list cstr)) (type : XML_TYPE) : option (list cstr) :=
  elements_loop names type (x_items x) 0 [] false (bool_decide (type = XML_ELEM) && match names with None => true | Some _ => false end).
Definition OS_GetAttributes (x : OS_XML) (names : option (list cstr)) : option (list cstr) := _GetElements x names XML_ATTR.
Definition OS_GetElements (x : OS_XML) (names : option (list cstr)) : option (list cstr) := _GetElements x names XML_ELEM.

(** ** [_GetElementContent] *)

(** The search for the attribute [attr] from item [m] on: the index it is at. *)
Fixpoint attr_index (attr : cstr) (m : nat) (l : list xitem) : option nat :=
  match l with
  | [] => None
  | it :: l => if is_elem it then None else if strcmp attr (it_el it) =? 0 then Some m else attr_index attr (S m) l
  end.

(** The search back for an item of the first level. *)
Fixpoint back_to_root (l : list xitem) (i : nat) : option nat :=
  it ← l !! i;
  if it_rl it =? 0 then Some i else match i with O => Some O | S i => back_to_root l i end.

(** What follows a match of the whole path at item [i]: the new [i], the
    contents and [fol], and either the end of the loop or the next [j]. *)
Definition take_content (items : list xitem) (attr : option cstr) (i : nat) (j : Z) (fol : Z) (ret : list cstr) :
    option (nat * list cstr * Z * option Z) :=
  let i := match attr with None => i | Some a => default i (attr_index a (S i) (drop (S i) items)) end in
  it ← items !! i;
  let next ret := Some (i, ret, fol, Some (match items !! S i with Some it => if is_elem it then it_rl it else j | None => j end)) in
  match it_ct it with
  | None => next ret
  | Some ct =>
      match attr with
      | Some _ => Some (i, ret ++ [ct], fol, None)
      | None => if negb (fol =? 0) then Some (i, ret ++ [ct], Z.of_nat i + 1, None) else next (ret ++ [ct])
      end
  end.

(** The loop over the table; an item that ends the path is looked at again from
    the start of the path.  The contents, none for NULL, and [fol]. *)
Fixpoint content_loop (fuel : nat) (items : list xitem) (names : list cstr) (attr : option cstr) (i : nat) (j : Z) (matched : bool) (fol : Z) (ret : list cstr) :
    option (list cstr * Z) :=
  match fuel with
  | O => None
  | S fuel =>
      match items !! i with
      | None => Some (ret, fol)
      | Some it =>
          n ← name_at names j;
          if bool_decide (n = None) && negb matched then Some (ret, fol)
          else if 16 <? j then Some ([], fol)
          else if negb (is_elem it) || negb (it_rl it =? j) then
            if it_rl it <? j then content_loop fuel items names attr i 0 false fol ret
            else content_loop fuel items names attr (S i) j matched fol ret
          else
            match n with
            | Some n =>
                if strcmp (it_el it) n =? 0 then
                  n ← name_at names (j + 1);
                  match n with
                  | None =>
                      '(i, ret, fol, j) ← take_content items attr i (j + 1) fol ret;
                      match j with None => Some (ret, fol) | Some j => content_loop fuel items names attr (S i) j true fol ret end
                  | Some _ => content_loop fuel items names attr (S i) (j + 1) true fol ret
                  end
                else content_loop fuel items names attr (S i) j matched fol ret
            | None => content_loop fuel items names attr (S i) j matched fol ret
            end
      end
  end.

Definition with_fol (x : OS_XML) (fol : Z) : OS_XML :=
  Xml (x_items x) fol (x_err x) (x_err_line x) (x_line x) (x_stash x) (x_file x) (x_in x).

Definition _GetElementContent (x : OS_XML) (names : list cstr) (attr : option cstr) : option (list cstr * OS_XML) :=
  let items := x_items x in
  if (0 <=? x_fol x) && (x_fol x =? Z.of_nat (length items)) then Some ([], with_fol x 0)
  else
    '(i, fol) ← (if 0 <? x_fol x then i ← back_to_root items (Z.to_nat (x_fol x)); Some (i, Z.of_nat i) else Some (O, x_fol x));
    '(ret, fol) ← content_loop (2 * length items + 1) items names attr i 0 false fol [];
    Some (ret, with_fol x fol).

Definition OS_GetOneContentforElement (x : OS_XML) (names : list cstr) : option (option cstr * OS_XML) :=
  '(ret, x) ← _GetElementContent (with_fol x 0) names None; Some (head ret, x).
Definition OS_GetElementContent (x : OS_XML) (names : list cstr) : option (list cstr * OS_XML) := _GetElementContent (with_fol x 0) names None.
Definition OS_GetContents (x : OS_XML) (names : option (list cstr)) : option (list cstr * OS_XML) :=
  match names with None => Some ([], with_fol x (-1)) | Some names => _GetElementContent x names None end.
Definition OS_GetAttributeContent (x : OS_XML) (names : list cstr) (attribute_name : option cstr) : option (option cstr * OS_XML) :=
  '(ret, x) ← _GetElementContent (with_fol x 0) names attribute_name; Some (head ret, x).
