(* ===== verification/XmlAccessSpec.v ===== *)
(** The access functions of os_xml answer from the elements at the path they are
    given, and for a configuration of sections with options they find all. *)

From S2P Require Import Prelude CLib OsMatch OsMatchSpec Xml XmlSpec XmlRound XmlAccess.

(** * Paths *)

(** The names from the first level down to an item; an attribute has the path
    of its element. *)
Definition step_path (p : list cstr) (it : xitem) : list cstr :=
  if is_attr it then p else take (Z.to_nat (it_rl it)) p ++ [it_el it].

(** The elements at the path [names]. *)
Fixpoint at_path (names p : list cstr) (l : list xitem) : list xitem :=
  match l with
  | [] => []
  | it :: l =>
      let p := step_path p it in
      (if is_elem it && bool_decide (p = names) then [it] else []) ++ at_path names p l
  end.
Definition contents_at (names : list cstr) (l : list xitem) : list cstr := omap it_ct (at_path names [] l).

(** [j] names of the path are matched by the items read so far. *)
Definition prefix_at (names p : list cstr) (j : Z) : Prop :=
  0 <= j <= Z.of_nat (length names) ∧ (Z.to_nat j <= length p)%nat ∧ take (Z.to_nat j) p = take (Z.to_nat j) names.

Lemma prefix_zero names p : prefix_at names p 0.
Proof. split_and!; [lia..|done]. Qed.
Lemma prefix_less names p j k : prefix_at names p j → 0 <= k <= j → prefix_at names p k.
Proof.
  intros (H1 & H2 & H3) Hk. split_and!; [lia..|]. replace (Z.to_nat k) with (Z.to_nat k `min` Z.to_nat j)%nat by lia. rewrite <-!take_take. by rewrite H3.
Qed.
Lemma prefix_deeper names p j it : prefix_at names p j → j <= it_rl it → prefix_at names (step_path p it) j.
Proof.
  intros (H1 & H2 & H3) Hr. unfold step_path. destruct (is_attr it); [done|]. assert (Z.to_nat j <= length (take (Z.to_nat (it_rl it)) p))%nat by (rewrite length_take; lia).
  split; [done|]. split; [rewrite length_app; lia|]. by rewrite take_app_le, take_take, Nat.min_l by lia.
Qed.
Lemma prefix_match names p j it n :
  prefix_at names p j → is_elem it = true → it_rl it = j → names !! Z.to_nat j = Some n → it_el it = n → prefix_at names (step_path p it) (j + 1).
Proof.
  intros (H1 & H2 & H3) He Hr Hn <-. pose proof (lookup_lt_Some _ _ _ Hn). unfold step_path. assert (is_attr it = false) as ->.
  { unfold is_elem, is_attr in *. apply bool_decide_eq_true in He. by rewrite He. }
  rewrite Hr. unfold prefix_at. replace (Z.to_nat (j + 1)) with (S (Z.to_nat j)) by lia. assert (length (take (Z.to_nat j) p) = Z.to_nat j) as Hl by (rewrite length_take; lia).
  split; [lia|]. split; [rewrite length_app, Hl; cbn; lia|]. rewrite take_ge by (rewrite length_app, Hl; cbn; lia). by rewrite (take_S_r _ _ _ Hn), H3.
Qed.
Lemma prefix_whole names p j it n :
  prefix_at names p j → is_elem it = true → it_rl it = j → names !! Z.to_nat j = Some n → it_el it = n → j + 1 = Z.of_nat (length names) →
  step_path p it = names.
Proof.
  intros (H1 & H2 & H3) He Hr Hn <- Hj. unfold step_path. assert (is_attr it = false) as ->.
  { unfold is_elem, is_attr in *. apply bool_decide_eq_true in He. by rewrite He. }
  rewrite Hr, H3, <-(take_S_r _ _ _ Hn). apply take_ge. lia.
Qed.

Lemma name_at_ok names j : 0 <= j <= Z.of_nat (length names) → name_at names j = Some (names !! Z.to_nat j).
Proof. intros H. unfold name_at. by rewrite !(proj2 (Z.leb_le _ _)) by lia. Qed.
Lemma name_at_next names j n : names !! Z.to_nat j = Some n → 0 <= j → name_at names (j + 1) = Some (names !! Z.to_nat (j + 1)).
Proof. intros H%lookup_lt_Some Hj. apply name_at_ok. lia. Qed.

(** * Contents *)

Lemma depth_next l : ∀ p i a b, depth_path p (it_rl <$> l) → l !! i = Some a → l !! S i = Some b → 0 <= it_rl b <= it_rl a + 1.
Proof.
  induction l as [|it l IH]; intros p i a b; cbn; [done|]. intros [Hr Hd]. destruct i as [|i]; cbn; [|by eapply IH]. intros [= <-] Hb. destruct l as [|b' l]; [done|].
  cbn in Hb. injection Hb as ->. by destruct Hd.
Qed.
Lemma attr_index_lt a l : ∀ m i, attr_index a m l = Some i → (m <= i < m + length l)%nat.
Proof.
  induction l as [|it l IH]; intros m i; cbn; [done|]. destruct (is_elem it); [done|]. destruct (_ =? 0); [intros [= <-]; lia|]. intros H%IH. lia.
Qed.

(** Every item has its content, and no item is more than a level below the one
    before it: the tables that the parser returns with 0. *)
Definition table_ok (l : list xitem) : Prop := depth_path (-1) (it_rl <$> l) ∧ Forall (λ it, it_ct it ≠ None) l.

(** The contents of a look-up: nothing, or contents of elements at the path. *)
Definition found_in (names p : list cstr) (l : list xitem) (ret ret' : list cstr) : Prop :=
  ret' = [] ∨ ∃ more, ret' = ret ++ more ∧ more `sublist_of` omap it_ct (at_path names p l).

Lemma found_skip names p it l ret ret' : found_in names (step_path p it) l ret ret' → found_in names p (it :: l) ret ret'.
Proof.
  intros [->|(more & -> & H)]; [by left|]. right. exists more. split; [done|]. cbn [at_path]. rewrite omap_app. by apply sublist_inserts_l.
Qed.
Lemma found_take names p it l ret ret' ct :
  is_elem it = true → step_path p it = names → it_ct it = Some ct → found_in names names l (ret ++ [ct]) ret' → found_in names p (it :: l) ret ret'.
Proof.
  intros He Hp Hct [->|(more & -> & H)]; [by left|]. right. exists (ct :: more). rewrite <-app_assoc. split; [done|]. cbn [at_path]. rewrite Hp, He, bool_decide_eq_true_2 by done.
  cbn [andb app omap list_omap]. rewrite Hct. by apply sublist_skip.
Qed.

Lemma depth_pos l : ∀ p, depth_path p (it_rl <$> l) → Forall (λ it, 0 <= it_rl it) l.
Proof. induction l as [|it l IH]; intros p; cbn; [constructor|]. intros [Hr Hd]. constructor; [lia|by eapply IH]. Qed.

Lemma take_content_ok items attr i it j fol ret :
  table_ok items → items !! i = Some it → it_rl it + 1 = j →
  ∃ i' ret' fol' j', take_content items attr i j fol ret = Some (i', ret', fol', j') ∧ (fol = 0 → fol' = 0) ∧
    (attr = None → ∃ ct, it_ct it = Some ct ∧ i' = i ∧ ret' = ret ++ [ct]) ∧ match j' with None => True | Some j' => attr = None ∧ fol' = fol ∧ 0 <= j' <= j end.
Proof.
  intros [Hd Hct] Hi Hj. unfold take_content.
  assert (∀ k a, items !! k = Some a → ∃ ct, it_ct a = Some ct) as Hc.
  { intros k a Hk. apply (Forall_lookup_1 _ _ _ _ Hct) in Hk. destruct (it_ct a) as [ct|]; [by exists ct|done]. }
  pose proof (Forall_lookup_1 _ _ _ _ (depth_pos _ _ Hd) Hi) as Hpos. cbn in Hpos. destruct attr as [a|].
  - assert (∃ b, items !! default i (attr_index a (S i) (drop (S i) items)) = Some b) as [b Hb].
    { destruct (attr_index a (S i) (drop (S i) items)) as [m|] eqn:E; [|by exists it]. apply attr_index_lt in E. rewrite length_drop in E. apply lookup_lt_is_Some_2. cbn. lia. }
    rewrite Hb. cbn [mbind option_bind]. destruct (Hc _ b Hb) as [ct ->]. eexists _, _, fol, None. by split_and!.
  - rewrite Hi. cbn [mbind option_bind]. destruct (Hc i it Hi) as [ct ->]. destruct (Z.eqb_spec fol 0) as [->|Hfol]; cbn [negb].
    + eexists _, _, 0, (Some _). split; [done|]. split; [done|]. split; [intros _; by exists ct|]. split; [done|]. split; [done|].
      destruct (items !! S i) as [b|] eqn:Eb; [|lia]. pose proof (depth_next _ _ _ _ _ Hd Hi Eb). destruct (is_elem b); lia.
    + eexists _, _, _, None. split; [done|]. split; [done|]. split; [intros _; by exists ct|done].
Qed.

Lemma content_loop_sound items names attr : table_ok items → ∀ fuel i j m fol ret p,
  prefix_at names p j → (2 * (length items - i) + (if (j =? 0)%Z then 0 else 1) < fuel)%nat →
  ∃ ret' fol', content_loop fuel items names attr i j m fol ret = Some (ret', fol') ∧ (fol = 0 → fol' = 0) ∧
    (attr = None → found_in names p (drop i items) ret ret').
Proof.
  intros Hok. induction fuel as [|fuel IH]; intros i j m fol ret p Hp Hf; [lia|]. cbn [content_loop].
  assert (∀ l, found_in names p l ret ret) as Hstop by (intros l; right; exists []; split; [by rewrite app_nil_r|apply sublist_nil_l]).
  destruct (items !! i) as [it|] eqn:Hi; [|by exists ret, fol]. pose proof (lookup_lt_Some _ _ _ Hi) as Hlt. rewrite (drop_S _ _ _ Hi). pose proof Hp as (Hj & _).
  rewrite (name_at_ok _ _ Hj). cbn [mbind option_bind]. pose proof (Forall_lookup_1 _ _ _ _ (depth_pos _ _ (proj1 Hok)) Hi) as Hpos. cbn in Hpos.
  destruct (_ && _); [by exists ret, fol|]. destruct (16 <? j); [exists [], fol; split_and!; try done; intros _; by left|].
  assert (∀ j' m', prefix_at names (step_path p it) j' → ∃ ret' fol', content_loop fuel items names attr (S i) j' m' fol ret = Some (ret', fol') ∧ (fol = 0 → fol' = 0) ∧
    (attr = None → found_in names p (it :: drop (S i) items) ret ret')) as Hgo.
  { intros j' m' Hp'. destruct (IH (S i) j' m' fol ret _ Hp') as (ret' & fol' & E & H0 & H); [destruct (j' =? 0); lia|].
    exists ret', fol'. split_and!; try done. intros Ha. by apply found_skip, H. }
  destruct (is_elem it) eqn:He; cbn [negb orb]; [destruct (Z.eqb_spec (it_rl it) j) as [Hr|Hr]; cbn [negb]|].
  2, 3: destruct (Z.ltb_spec (it_rl it) j) as [Hl|Hl]; [|by apply Hgo, prefix_deeper];
    destruct (IH i 0 false fol ret p) as (ret' & fol' & E & H0 & H); [apply prefix_zero|destruct (Z.eqb_spec j 0); cbn; lia|];
    exists ret', fol'; by rewrite <-(drop_S _ _ _ Hi).
  destruct (names !! Z.to_nat j) as [n|] eqn:Hn; [|apply Hgo, prefix_deeper; [done|lia]].
  destruct (Z.eqb_spec (strcmp (it_el it) n) 0) as [Hs|_]; [|apply Hgo, prefix_deeper; [done|lia]]. apply strcmp_eq in Hs.
  rewrite (name_at_next _ _ _ Hn) by lia. cbn [mbind option_bind]. pose proof (prefix_match _ _ _ _ _ Hp He Hr Hn Hs) as Hpm.
  destruct (names !! Z.to_nat (j + 1)) as [n'|] eqn:Hn'; [by apply Hgo|]. apply lookup_ge_None in Hn'. pose proof (lookup_lt_Some _ _ _ Hn) as Hnl.
  pose proof (prefix_whole _ _ _ _ _ Hp He Hr Hn Hs ltac:(lia)) as Hw. rewrite Hw in Hpm.
  destruct (take_content_ok items attr i it (j + 1) fol ret Hok Hi ltac:(lia)) as (i' & ret' & fol' & j' & -> & H0 & Hnone & Hj'). cbn [mbind option_bind].
  destruct j' as [j'|].
  - destruct Hj' as (-> & -> & Hj'). destruct (Hnone eq_refl) as (ct & Hct & -> & ->).
    destruct (IH (S i) j' true fol (ret ++ [ct]) names) as (r & f & E & Hf0 & H); [by eapply prefix_less|destruct (j' =? 0); lia|].
    exists r, f. split_and!; try done. intros _. eapply found_take; try done. by apply H.
  - exists ret', fol'. split_and!; try done. intros Ha. destruct (Hnone Ha) as (ct & Hct & -> & ->). eapply found_take; try done. right. exists [].
    split; [by rewrite app_nil_r|apply sublist_nil_l].
Qed.

(** * Sections with options *)

(** What the loop makes of a state, with any fuel that is enough. *)
Definition ends (items : list xitem) (names : list cstr) (i : nat) (j : Z) (m : bool) (ret r : list cstr) : Prop :=
  ∃ fuel, content_loop fuel items names None i j m 0 ret = Some (r, 0).

Lemma content_loop_mono items names attr f f' : ∀ i j m fol ret r,
  (f <= f')%nat → content_loop f items names attr i j m fol ret = Some r → content_loop f' items names attr i j m fol ret = Some r.
Proof.
  revert f'. induction f as [|f IH]; intros f' i j m fol ret r Hf E; [done|]. destruct f' as [|f']; [lia|]. cbn [content_loop] in *.
  destruct (items !! i) as [it|]; [|done]. destruct (name_at names j) as [n|]; [|done]. cbn [mbind option_bind] in *. destruct (_ && _); [done|]. destruct (16 <? j); [done|].
  destruct (_ || _); [destruct (_ <? _); (eapply IH; [|done]; lia)|]. destruct n as [n|]; [|eapply IH; [|done]; lia]. destruct (_ =? 0); [|eapply IH; [|done]; lia].
  destruct (name_at names (j + 1)) as [[n'|]|]; [eapply IH; [|done]; lia| |done]. cbn [mbind option_bind] in *.
  destruct (take_content _ _ _ _ _ _) as [[[[i' ret'] fol'] [j'|]]|]; try done. cbn [mbind option_bind] in *. eapply IH; [|done]. lia.
Qed.

Section paths.
Context (items : list xitem) (a b : cstr).
Notation names := [a; b].
Notation ends := (ends items names).

Lemma ends_end i j m ret : items !! i = None → ends i j m ret ret.
Proof. intros Hi. exists 1%nat. cbn [content_loop]. by rewrite Hi. Qed.

(** The states of the loop: no name, the section, or the section and the option
    are matched. *)
Definition state_ok (j : Z) (m : bool) : Prop := j = 0 ∨ j = 1 ∨ j = 2 ∧ m = true.

Lemma state_runs f i it j m ret :
  state_ok j m → items !! i = Some it →
  content_loop (S f) items names None i j m 0 ret =
    if negb (is_elem it) || negb (it_rl it =? j) then
      if it_rl it <? j then content_loop f items names None i 0 false 0 ret else content_loop f items names None (S i) j m 0 ret
    else
      match names !! Z.to_nat j with
      | Some n =>
          if strcmp (it_el it) n =? 0 then
            if j =? 0 then content_loop f items names None (S i) 1 true 0 ret
            else
              '(i, ret, fol, j) ← take_content items None i 2 0 ret;
              match j with None => Some (ret, fol) | Some j => content_loop f items names None (S i) j true fol ret end
          else content_loop f items names None (S i) j m 0 ret
      | None => content_loop f items names None (S i) j m 0 ret
      end.
Proof. intros [->|[->|[-> Hm]]] Hi; cbn [content_loop]; rewrite Hi; [by destruct m..|by rewrite Hm]. Qed.

(** The items from [i] on start with [seg]. *)
Definition seg_at (i : nat) (seg : list xitem) : Prop := ∀ k it, seg !! k = Some it → items !! (i + k)%nat = Some it.
Lemma seg_at_app i s1 s2 : seg_at i (s1 ++ s2) → seg_at i s1 ∧ seg_at (i + length s1)%nat s2.
Proof.
  intros H. split; intros k it Hk; [by apply H, lookup_app_l_Some|]. rewrite <-Nat.add_assoc. apply H. rewrite lookup_app_r by lia. by replace (length s1 + k - length s1)%nat with k by lia.
Qed.
Lemma seg_at_cons i it seg : seg_at i (it :: seg) → items !! i = Some it ∧ seg_at (S i) seg.
Proof.
  intros H. split; [rewrite <-(Nat.add_0_r i); by apply H|]. intros k it' Hk. rewrite Nat.add_succ_comm. by apply H.
Qed.

(** Items below the level that is looked for. *)
Definition below (j : Z) (it : xitem) : Prop := j <= it_rl it ∧ (is_elem it = true → j < it_rl it).

Lemma ends_below j m ret r seg : state_ok j m → Forall (below j) seg → ∀ i, seg_at i seg → ends (i + length seg)%nat j m ret r → ends i j m ret r.
Proof.
  intros Hs Hb. induction Hb as [|it seg [H1 H2] _ IH]; intros i Hi Hr; [by rewrite Nat.add_0_r in Hr|]. apply seg_at_cons in Hi as [H0 Hi].
  destruct (IH (S i) Hi) as [f Hf]; [by rewrite Nat.add_succ_comm|].
  exists (S f). rewrite (state_runs _ _ it) by done. rewrite (proj2 (Z.ltb_ge _ _)) by done.
  destruct (is_elem it); cbn [negb orb]; [|done]. rewrite (proj2 (Z.eqb_neq _ _)); [done|]. specialize (H2 eq_refl). lia.
Qed.
Lemma ends_reset j m ret r i it :
  state_ok j m → items !! i = Some it → it_rl it < j → ends i 0 false ret r → ends i j m ret r.
Proof.
  intros Hs Hi Hr [f Hf]. exists (S f). rewrite (state_runs _ _ it) by done. rewrite (proj2 (Z.eqb_neq _ _)) by lia. rewrite orb_true_r. by rewrite (proj2 (Z.ltb_lt _ _)).
Qed.
Lemma ends_other j m ret r i it n :
  state_ok j m → items !! i = Some it → it_rl it = j → names !! Z.to_nat j = Some n → it_el it ≠ n → ends (S i) j m ret r → ends i j m ret r.
Proof.
  intros Hs Hi Hr Hn Hne [f Hf]. exists (S f). rewrite (state_runs _ _ it) by done. rewrite Hn, (proj2 (Z.eqb_neq (strcmp _ _) _)) by (by rewrite strcmp_eq).
  rewrite (proj2 (Z.ltb_ge _ _)) by lia. by destruct (_ || _).
Qed.
Lemma ends_section m ret r i it :
  items !! i = Some it → is_elem it = true → it_rl it = 0 → it_el it = a → ends (S i) 1 true ret r → ends i 0 m ret r.
Proof.
  intros Hi He Hr Hn [f Hf]. exists (S f). rewrite (state_runs _ _ it) by (done || by left). rewrite He, Hr. cbn [negb orb Z.eqb]. change (names !! Z.to_nat 0) with (Some a). cbn iota.
  by rewrite (proj2 (Z.eqb_eq _ _)) by (by apply strcmp_eq).
Qed.
Lemma ends_option m ret r i it ct :
  items !! i = Some it → is_elem it = true → it_rl it = 1 → it_el it = b → it_ct it = Some ct →
  (items !! S i = None → r = ret ++ [ct]) → (∀ next, items !! S i = Some next → is_elem next = true ∧ ends (S i) (it_rl next) true (ret ++ [ct]) r) → ends i 1 m ret r.
Proof.
  intros Hi He Hr Hn Hct Hend Hnext.
  assert (∃ f, ('(i, ret, fol, j) ← take_content items None i 2 0 ret;
    match j with None => Some (ret, fol) | Some j => content_loop f items names None (S i) j true fol ret end) = Some (r, 0)) as [f Hf].
  { unfold take_content. rewrite Hi. cbn [mbind option_bind]. rewrite Hct. cbn [negb Z.eqb]. destruct (items !! S i) as [next|] eqn:En; cbn [mbind option_bind].
    - destruct (Hnext next eq_refl) as [-> [f Hf]]. by exists f.
    - exists 1%nat. cbn [content_loop]. rewrite En. by rewrite Hend. }
  exists (S f). rewrite (state_runs _ _ it) by (done || (right; by left)). rewrite He, Hr. cbn [negb orb Z.eqb]. change (names !! Z.to_nat 1) with (Some b). cbn iota.
  rewrite (proj2 (Z.eqb_eq _ _)) by (by apply strcmp_eq). exact Hf.
Qed.

(** A configuration: a section called [a] has no attributes, and its options
    called [b] have neither attributes nor children. *)
Definition option_ok (t : xtree) : Prop := let 'XTree n ats ks c := t in n = b → ats = [] ∧ ks = [].
Definition section_ok (t : xtree) : Prop := let 'XTree n ats ks c := t in n = a → ats = [] ∧ Forall option_ok ks.
Definition option_value (t : xtree) : list cstr := let 'XTree n _ _ c := t in if bool_decide (n = b) then [c] else [].
Definition section_values (t : xtree) : list cstr := let 'XTree n _ ks _ := t in if bool_decide (n = a) then ks ≫= option_value else [].

Lemma below_attrs d ats : Forall (below d) (flat_attr d <$> ats).
Proof. apply Forall_fmap, Forall_forall. intros av _. split; cbn; [lia|done]. Qed.
Lemma below_kids d ks : Forall (below d) (ks ≫= flat (d + 1)).
Proof. eapply Forall_impl; [apply (forest_depth (d + 1) ks)|]. intros it Hit. cbn in Hit. split; [lia|intros _; lia]. Qed.

(** A tree with another name is passed over. *)
Lemma ends_tree j m ret r i n ats ks c want :
  state_ok j m → names !! Z.to_nat j = Some want → n ≠ want → seg_at i (flat j (XTree n ats ks c)) →
  ends (i + length (flat j (XTree n ats ks c)))%nat j m ret r → ends i j m ret r.
Proof.
  intros Hs Hw Hne Hseg Hr. cbn [flat] in Hseg. apply seg_at_cons in Hseg as [Hi Hseg]. apply seg_at_app in Hseg as [Ha Hk].
  eapply (ends_other j m ret r i _ want Hs Hi); [done..|]. eapply ends_below; [done|apply below_attrs|done|]. eapply ends_below; [done|apply below_kids|done|].
  replace (S i + length (flat_attr j <$> ats) + length (ks ≫= flat (j + 1)))%nat with (i + length (flat j (XTree n ats ks c)))%nat; [done|].
  cbn [flat length]. rewrite length_app. lia.
Qed.

(** The end of the kids of a section: nothing is left, or the next section. *)
Definition root_next (i : nat) : Prop := ∀ it, items !! i = Some it → is_elem it = true ∧ it_rl it = 0.

Lemma ends_kids ks : Forall option_ok ks → ∀ i ret r,
  seg_at i (flat_forest 1 ks) → root_next (i + length (flat_forest 1 ks))%nat →
  (∀ m, ends (i + length (flat_forest 1 ks))%nat 0 m (ret ++ (ks ≫= option_value)) r) → ends i 1 true ret r.
Proof.
  induction 1 as [|[n ats kk c] ks Hk _ IH]; intros i ret r Hseg Hnext Hr.
  - cbn in *. rewrite app_nil_r, Nat.add_0_r in *. destruct (items !! i) as [it|] eqn:Hi.
    + destruct (Hnext it Hi) as [_ Hrl]. eapply ends_reset; [by right; left|done|lia|done].
    + destruct (Hr true) as [[|f] Hf]; [done|]. cbn [content_loop] in Hf. rewrite Hi in Hf. injection Hf as <-. by apply ends_end.
  - change (flat_forest 1 (XTree n ats kk c :: ks)) with (flat 1 (XTree n ats kk c) ++ flat_forest 1 ks) in *.
    rewrite length_app, Nat.add_assoc in *. apply seg_at_app in Hseg as [Hs1 Hs2]. cbn [mbind list_bind option_value] in Hr. rewrite app_assoc in Hr.
    destruct (decide (n = b)) as [->|Hne].
    + destruct (Hk eq_refl) as [-> ->]. rewrite bool_decide_eq_true_2 in Hr by done. cbn [flat fmap list_fmap mbind list_bind app length] in *. rewrite Nat.add_1_r in *. apply seg_at_cons in Hs1 as [Hi _].
      specialize (IH (S i) (ret ++ [c]) r Hs2 Hnext Hr).
      eapply (ends_option true ret r i _ c Hi); [done..| |].
      * intros Hnone. destruct IH as [[|f] Hf]; [done|]. cbn [content_loop] in Hf. rewrite Hnone in Hf. by injection Hf as <-.
      * intros next Hn. destruct ks as [|[n' ats' kk' c'] ks].
        -- cbn in *. rewrite Nat.add_0_r, app_nil_r in *. destruct (Hnext next Hn) as [He ->]. split; [done|]. by apply Hr.
        -- apply seg_at_cons in Hs2 as [Hs2 _]. rewrite Hn in Hs2. injection Hs2 as ->. split; [done|]. exact IH.
    + rewrite bool_decide_eq_false_2, app_nil_r in Hr by done. eapply (ends_tree 1 true ret r i n ats kk c b); [by right; left|done..|]. by eapply IH.
Qed.

Lemma ends_forest ts : Forall section_ok ts → ∀ i m ret,
  seg_at i (flat_forest 0 ts) → items !! (i + length (flat_forest 0 ts))%nat = None → ends i 0 m ret (ret ++ (ts ≫= section_values)).
Proof.
  induction 1 as [|[n ats ks c] ts Ht _ IH]; intros i m ret Hseg Hend.
  - cbn in *. rewrite Nat.add_0_r, app_nil_r in *. by apply ends_end.
  - change (flat_forest 0 (XTree n ats ks c :: ts)) with (flat 0 (XTree n ats ks c) ++ flat_forest 0 ts) in *.
    rewrite length_app, Nat.add_assoc in *. apply seg_at_app in Hseg as [Hs1 Hs2]. cbn [mbind list_bind section_values]. rewrite app_assoc.
    destruct (decide (n = a)) as [->|Hne].
    + destruct (Ht eq_refl) as [-> Hks]. rewrite bool_decide_eq_true_2 by done. cbn [flat fmap list_fmap app length] in *. apply seg_at_cons in Hs1 as [Hi Hs1].
      change (0 + 1) with 1 in *. change (ks ≫= flat 1) with (flat_forest 1 ks) in *. rewrite <-Nat.add_succ_comm in *.
      eapply (ends_section m ret _ i _ Hi); [done..|]. eapply (ends_kids ks Hks (S i)); [done| |].
      * intros it Hit. destruct ts as [|[n' ats' ks' c'] ts]; [change (length (flat_forest 0 [])) with 0%nat in Hend; rewrite Nat.add_0_r in Hend; congruence|]. apply seg_at_cons in Hs2 as [Hs2 _].
        rewrite Hit in Hs2. by injection Hs2 as ->.
      * intros m'. by apply IH.
    + rewrite bool_decide_eq_false_2, app_nil_r by done. eapply (ends_tree 0 m ret _ i n ats ks c a); [by left|done..|]. by apply IH.
Qed.
End paths.

(** The line numbers do not matter. *)
Lemma strip_lookup (items : list xitem) (i : nat) : (strip <$> items) !! i = strip <$> items !! i.
Proof. apply list_lookup_fmap. Qed.
Lemma attr_index_strip a (l : list xitem) : ∀ m, attr_index a m (strip <$> l) = attr_index a m l.
Proof. induction l as [|it l IH]; intros m; [done|]. cbn. by rewrite IH. Qed.
Lemma take_content_strip items attr i j fol ret : take_content (strip <$> items) attr i j fol ret = take_content items attr i j fol ret.
Proof.
  unfold take_content. set (k := match attr with None => i | Some a => default i (attr_index a (S i) (drop (S i) (strip <$> items))) end).
  assert (k = match attr with None => i | Some a => default i (attr_index a (S i) (drop (S i) items)) end) as <-.
  { unfold k. destruct attr as [a|]; [|done]. by rewrite <-fmap_drop, attr_index_strip. }
  rewrite !strip_lookup. destruct (items !! k) as [it|]; [|done]. cbn [fmap option_fmap option_map mbind option_bind]. by destruct (items !! S k).
Qed.
Lemma content_loop_strip items names attr f : ∀ i j m fol ret,
  content_loop f (strip <$> items) names attr i j m fol ret = content_loop f items names attr i j m fol ret.
Proof.
  induction f as [|f IH]; intros i j m fol ret; [done|]. cbn [content_loop]. rewrite strip_lookup, take_content_strip. destruct (items !! i) as [it|]; [|done].
  cbn [fmap option_fmap option_map]. rewrite !IH. change (is_elem (strip it)) with (is_elem it). change (it_rl (strip it)) with (it_rl it). change (it_el (strip it)) with (it_el it).
  destruct (name_at names j) as [n|]; [|done]. cbn [mbind option_bind]. destruct (_ && _); [done|]. destruct (16 <? j); [done|]. destruct (_ || _); [done|].
  destruct n as [n|]; [|done]. destruct (_ =? 0); [|done]. destruct (name_at names (j + 1)) as [[n'|]|]; [done| |done]. cbn [mbind option_bind].
  destruct (take_content _ _ _ _ _ _) as [[[[i' ret'] fol'] [j'|]]|]; [|done..]. cbn [mbind option_bind]. by rewrite IH.
Qed.

Lemma parsed_table s trunc x : OS_ReadXMLString_Ex s trunc = Some (0, x) → table_ok (x_items x).
Proof.
  unfold OS_ReadXMLString_Ex. intros E. destruct (ParseXML_ok (Xml [] 0 None 0 0 [] false (mem s)) trunc) as (r & x' & E' & [[_ Hc]|Hr] & _ & Hd); [done| | |].
  - right. cbn [x_in x_cmp x_file]. unfold mem. rewrite fmap_app. apply elem_of_app. right. by apply list_elem_of_singleton.
  - rewrite E in E'. injection E' as <- <-. split; [done|]. eapply Forall_impl; [exact Hc|]. by intros it [_ ?].
  - rewrite E in E'. injection E' as <- <-. done.
Qed.

(** * The first level *)

Definition roots (l : list xitem) : list cstr := it_el <$> filter (λ it, it_tp it = XML_ELEM ∧ it_rl it = 0) l.

Lemma roots_cons it l : roots (it :: l) = (if is_elem it && (it_rl it =? 0) then [it_el it] else []) ++ roots l.
Proof.
  unfold roots. rewrite filter_cons. unfold is_elem. case_decide as Hd.
  - destruct Hd as [H1 H2]. by rewrite (bool_decide_eq_true_2 _ H1), (proj2 (Z.eqb_eq _ _) H2).
  - case_bool_decide; cbn [andb]; [|done]. rewrite (proj2 (Z.eqb_neq _ _)); [done|]. intros ?. by apply Hd.
Qed.

Lemma exist_root n l : ∀ m t, 0 <= t < 4294967296 → exist_loop [n] l 0 m t = Some (wrap32 (t + Z.of_nat (length (filter (λ e, e = n) (roots l))))).
Proof.
  induction l as [|it l IH]; intros m t Ht; [cbn; rewrite Z.add_0_r; unfold wrap32; by rewrite Z.mod_small|]. cbn [exist_loop]. rewrite roots_cons, filter_app, length_app.
  change (name_at [n] 0) with (Some (Some n)). cbn [mbind option_bind]. change (name_at [n] 0) with (Some (Some n)). cbn [mbind option_bind].
  assert (∀ b : bool, (if b then 0 else 0) = 0) as H0 by (by intros []). rewrite !H0. destruct (is_elem it && (it_rl it =? 0)); [|by rewrite IH].
  destruct (Z.eqb_spec (strcmp (it_el it) n) 0) as [E|E]; rewrite strcmp_eq in E.
  - change (name_at [n] (0 + 1)) with (Some (@None cstr)). cbn [mbind option_bind]. rewrite IH by (unfold wrap32; apply Z.mod_pos_bound; lia).
    rewrite filter_cons_True, filter_nil by done. cbn [length]. unfold wrap32. rewrite Zplus_mod_idemp_l. do 2 f_equal. lia.
  - rewrite filter_cons_False, filter_nil by done. by rewrite IH.
Qed.

Lemma elements_root l : ∀ ret, elements_loop None XML_ELEM l 0 ret false true = Some (ret ++ roots l).
Proof.
  induction l as [|it l IH]; intros ret; cbn [elements_loop mbind option_bind andb Z.ltb Z.compare]; [by rewrite app_nil_r|]. rewrite roots_cons.
  change (bool_decide (it_tp it = XML_ELEM)) with (is_elem it). destruct (is_elem it); cbn [andb]; [|by rewrite IH].
  rewrite IH. destruct (it_rl it =? 0); [by rewrite <-app_assoc|done].
Qed.

(** * Claims *)

(** C21: On every table that the parser returned with 0 and for every path, the
    look-ups of contents end without undefined behaviour, and the contents they
    return are contents of elements at the path, in the order of the table. *)
Theorem OS_GetElementContent_sound x names :
  table_ok (x_items x) →
  ∃ ret, OS_GetElementContent x names = Some (ret, with_fol x 0) ∧ OS_GetOneContentforElement x names = Some (head ret, with_fol x 0) ∧
    ret `sublist_of` contents_at names (x_items x) ∧ ∀ attr, is_Some (OS_GetAttributeContent x names attr).
Proof.
  intros Hok. unfold OS_GetElementContent, OS_GetOneContentforElement, OS_GetAttributeContent, _GetElementContent.
  change (x_items (with_fol x 0)) with (x_items x). change (x_fol (with_fol x 0)) with 0. destruct (_ && _) eqn:E0.
  { exists []. split_and!; [done|done|apply sublist_nil_l|intros attr; by eexists]. }
  cbn [Z.ltb Z.compare mbind option_bind].
  pose proof (λ attr, content_loop_sound (x_items x) names attr Hok (2 * length (x_items x) + 1) 0 0 false 0 [] [] (prefix_zero names []) ltac:(cbn; lia)) as H.
  destruct (H None) as (ret & fol & -> & Hf & Hin). rewrite (Hf eq_refl). cbn [mbind option_bind]. exists ret. split_and!; try done.
  - destruct (Hin eq_refl) as [->|(more & -> & Hs)]; [apply sublist_nil_l|exact Hs].
  - intros attr. destruct (H attr) as (ret' & fol' & -> & _). by eexists.
Qed.

(** C20: A configuration that is printed and parsed: all the values of an option in
    all the sections of a name are found, in order, when the sections have no
    attributes and the options neither attributes nor children. *)
Theorem OS_GetElementContent_sections a b ts :
  forest_ok ts → Forall (section_ok a b) ts →
  ∃ x, OS_ReadXMLString (show_forest ts) = Some (0, x) ∧ OS_GetElementContent x [a; b] = Some (ts ≫= section_values a b, with_fol x 0) ∧
    OS_GetOneContentforElement x [a; b] = Some (head (ts ≫= section_values a b), with_fol x 0).
Proof.
  intros Hts Hsec. destruct (read_forest ts false Hts) as (x & E & Hx). exists x. split; [exact E|]. set (vs := ts ≫= section_values a b).
  destruct (ends_forest (flat_forest 0 ts) a b ts Hsec 0 false []) as [f Hf]; [by intros k it Hk|apply lookup_ge_None; cbn; lia|].
  rewrite <-Hx, content_loop_strip in Hf. cbn [app] in Hf. fold vs in Hf.
  assert (content_loop (2 * length (x_items x) + 1) (x_items x) [a; b] None 0 0 false 0 [] = Some (vs, 0)) as Hc.
  { destruct (content_loop_sound (x_items x) [a; b] None) with (fuel := (2 * length (x_items x) + 1)%nat) (i := 0%nat) (j := 0) (m := false) (fol := 0) (ret := @nil cstr) (p := @nil cstr)
      as (r & fo & Er & _); [|apply prefix_zero|cbn; lia|].
    - by eapply parsed_table.
    - rewrite Er. pose proof (content_loop_mono _ _ _ f (f + (2 * length (x_items x) + 1))%nat _ _ _ _ _ _ ltac:(lia) Hf) as H1.
      rewrite (content_loop_mono _ _ _ (2 * length (x_items x) + 1)%nat (f + (2 * length (x_items x) + 1))%nat _ _ _ _ _ _ ltac:(lia) Er) in H1. exact H1. }
  unfold OS_GetOneContentforElement, OS_GetElementContent, _GetElementContent. change (x_items (with_fol x 0)) with (x_items x). change (x_fol (with_fol x 0)) with 0.
  destruct (_ && _) eqn:E0.
  { apply andb_true_iff in E0 as [_ E0%Z.eqb_eq]. destruct (x_items x) as [|it l] eqn:El; [|cbn in E0; lia]. cbn in Hc. injection Hc as <-. done. }
  cbn [Z.ltb Z.compare mbind option_bind]. by rewrite Hc.
Qed.

(** The functions on the first level are exact: the elements of the first level
    are listed in order, and those of a name are counted. *)
Theorem xml_roots_exact x n :
  OS_GetElements x None = Some (roots (x_items x)) ∧
  OS_RootElementExist x n = Some (wrap32 (Z.of_nat (length (filter (λ e, e = n) (roots (x_items x)))))).
Proof. split; [by apply elements_root|]. by apply exist_root. Qed.

Module AccessDemo.
Definition table (ts : list xtree) : OS_XML := match OS_ReadXMLString (show_forest ts) with Some (_, x) => x | None => Xml [] 0 None 0 0 [] false [] end.
Definition values (r : option (list cstr * OS_XML)) : option (list cstr) := fst <$> r.
Definition a : cstr := [97].
Definition b : cstr := [98].
Definition c : cstr := [99].
Definition leaf (n v : cstr) : xtree := XTree n [] [] v.

(** <a><b>1</b><c x="2"><b>3</b></c><b>4</b></a><c></c><a><b>5</b></a> *)
Definition config : list xtree :=
  [XTree a [] [leaf b [49]; XTree c [([120], [50])] [leaf b [51]] []; leaf b [52]] []; leaf c []; XTree a [] [leaf b [53]] []].
End AccessDemo.
Import AccessDemo.

Lemma OS_GetElementContent_sound_witness :
  table_ok (x_items (table config)) ∧
  ∃ ret, OS_GetElementContent (table config) [a; c; b] = Some (ret, with_fol (table config) 0) ∧
    OS_GetOneContentforElement (table config) [a; c; b] = Some (head ret, with_fol (table config) 0) ∧
    ret `sublist_of` contents_at [a; c; b] (x_items (table config)) ∧ ∀ attr, is_Some (OS_GetAttributeContent (table config) [a; c; b] attr).
Proof.
  assert (table_ok (x_items (table config))) as Hok by (apply (parsed_table (show_forest config) false); vm_compute; reflexivity).
  split; [exact Hok|]. apply (OS_GetElementContent_sound (table config) [a; c; b] Hok).
Defined.

Lemma config_ok : forest_ok config.
Proof. split; [|by repeat constructor]. unfold config, leaf, a, b, c. solve_tree_ok. Qed.

Lemma OS_GetElementContent_sections_witness :
  ∃ x, OS_ReadXMLString (show_forest config) = Some (0, x) ∧ OS_GetElementContent x [a; b] = Some ([[49]; [52]; [53]], with_fol x 0) ∧
    OS_GetOneContentforElement x [a; b] = Some (Some [49], with_fol x 0).
Proof.
  apply (OS_GetElementContent_sections a b config config_ok). unfold config. repeat (apply Forall_cons; split); [..|constructor]; cbn; intros E; try discriminate E;
    (split; [reflexivity|]); repeat (apply Forall_cons; split); [..|constructor| |constructor]; cbn; intros E'; try discriminate E'; split; reflexivity.
Defined.

(** Where the look-ups go wrong: an attribute of the section hides its options,
    one of an option hides the options after it, and a part of the path that was
    followed in vain hides its siblings; the content of an element is taken for
    that of an attribute that it does not have; and going on after the first
    content of an option gives it again. *)
Theorem xml_access_misses :
  values (OS_GetElementContent (table [XTree a [([120], [49])] [leaf b [50]] []]) [a; b]) = Some [] ∧
  values (OS_GetElementContent (table [XTree a [] [XTree b [([120], [49])] [] [50]; leaf b [51]] []]) [a; b]) = Some [[50]] ∧
  values (OS_GetElementContent (table [XTree a [] [XTree b [] [leaf a []] []; XTree b [] [leaf c [49]] []] []]) [a; b; c]) = Some [] ∧
  fst <$> OS_GetAttributeContent (table [XTree a [([120], [49])] [] [50]]) [a] (Some [121]) = Some (Some [50]) ∧
  ('(_, x) ← OS_GetContents (table (leaf c [] :: config)) None; '(v1, x) ← OS_GetContents x (Some [a; b]); '(v2, _) ← OS_GetContents x (Some [a; b]); Some (v1, v2)) =
    Some ([[49]], [[49]]).
Proof. vm_compute. split_and!; reflexivity. Qed.
