(* ===== verification/AgentBuffer.v ===== *)
(** The agent's anti-flooding buffer (src/client-agent/buffer.c): a ring of
    messages between the thread that receives events and the thread that sends
    them to the manager, with its four alert levels, its resizing and its
    release; and the reload of its configuration (client-agent/agentd.c).

    The mutex makes each critical section one step.  The dispatcher sends its
    message, frees it and clears its slot after it has released the mutex, so
    that part is a step of its own, which other threads may precede. *)

From S2P Require Import Prelude Monitor Float.

(** * State *)

(** [buffered_message]; the blocks that [data] points to are in [ab_msgs]. *)
Record slot := Slot { sl_data : ptr; sl_size : nat }.
Definition null_slot : slot := Slot NULL 0.

(** [state] *)
Inductive level := NORMAL | WARNING | FULL | FLOOD.

(** [buff] *)
Record alerts := Alerts { a_full : bool; a_warn : bool; a_flood : bool; a_normal : bool }.

(** The alert level: [state], [buff] and [start]. *)
Record lstate := LState { ls_state : level; ls_buff : alerts; ls_start : Z }.

(** The globals of buffer.c, the fields [buffer] and [buflength] of [agt], and
    the counter [agent_state.msg_count]. *)
Record abuf := ABuf {
  ab_i : Z;
  ab_j : Z;
  ab_lv : lstate;
  ab_buffer : option (list slot);
  ab_msgs : heap (list Z);
  agt_buffer : Z;
  agt_buflength : Z;
  ab_warn_level : Z;
  ab_normal_level : Z;
  ab_tolerance : Z;
  ab_msg_count : Z
}.

Definition with_ij (s : abuf) (i j : Z) : abuf :=
  ABuf i j (ab_lv s) (ab_buffer s) (ab_msgs s) (agt_buffer s) (agt_buflength s)
    (ab_warn_level s) (ab_normal_level s) (ab_tolerance s) (ab_msg_count s).
Definition with_lv (s : abuf) (lv : lstate) : abuf :=
  ABuf (ab_i s) (ab_j s) lv (ab_buffer s) (ab_msgs s) (agt_buffer s) (agt_buflength s)
    (ab_warn_level s) (ab_normal_level s) (ab_tolerance s) (ab_msg_count s).
Definition with_mem (s : abuf) (b : option (list slot)) (h : heap (list Z)) : abuf :=
  ABuf (ab_i s) (ab_j s) (ab_lv s) b h (agt_buffer s) (agt_buflength s)
    (ab_warn_level s) (ab_normal_level s) (ab_tolerance s) (ab_msg_count s).
Definition with_agt (s : abuf) (buffer buflength : Z) : abuf :=
  ABuf (ab_i s) (ab_j s) (ab_lv s) (ab_buffer s) (ab_msgs s) buffer buflength
    (ab_warn_level s) (ab_normal_level s) (ab_tolerance s) (ab_msg_count s).
Definition with_count (s : abuf) (c : Z) : abuf :=
  ABuf (ab_i s) (ab_j s) (ab_lv s) (ab_buffer s) (ab_msgs s) (agt_buffer s)
    (agt_buflength s) (ab_warn_level s) (ab_normal_level s) (ab_tolerance s) c.

(** * The macros of agentd.h *)

(** [agt->buflength + 1]; the remainders by it are undefined for a negative
    length and the sum overflows at the largest integer. *)
Definition ring_size (s : abuf) : option Z :=
  if (0 <=? agt_buflength s) && (agt_buflength s <? INT_MAX) then Some (agt_buflength s + 1) else None.

Definition full (i j n : Z) : bool := Z.rem (i + 1) n =? j.
Definition empty (i j : Z) : bool := i =? j.
Definition forward (x n : Z) : Z := Z.rem (x + 1) n.

(** [(float)((i - j + n) % n) / (float)(n - 1)], promoted to [double], against
    [(float)level / 100.0]; [n] is [agt->buflength + 1]. *)
Definition fill (i j n : Z) : Z := Z.rem (i - j + n) n.
Definition usage (count n : Z) : float := f32_to_f64 (f32_div (f32_of_Z count) (f32_of_Z (n - 1))).
Definition percent (lvl : Z) : float := f64_div (f32_to_f64 (f32_of_Z lvl)) (f64_of_Z 100).
Definition warn (warn_level count n : Z) : bool := f64_leb (percent warn_level) (usage count n).
Definition nowarn (warn_level count n : Z) : bool := f64_leb (usage count n) (percent warn_level).
Definition normal (normal_level count n : Z) : bool := f64_leb (usage count n) (percent normal_level).

(** * Memory *)

(** [buffer[k]] for reading and writing. *)
Definition get_slot (b : option (list slot)) (k : Z) : option slot :=
  m ← b; if 0 <=? k then m !! Z.to_nat k else None.
Definition set_slot (b : option (list slot)) (k : Z) (sl : slot) : option (list slot) :=
  m ← b; if (0 <=? k) && (k <? length m) then Some (<[Z.to_nat k := sl]> m) else None.

(** [memcpy(dst + doff, src + soff, n * sizeof(buffered_message))] between two
    blocks; a negative count is a huge one. *)
Definition copy_slots (dst : list slot) (doff : Z) (src : option (list slot)) (soff n : Z) : option (list slot) :=
  m ← src;
  if (0 <=? n) && (0 <=? doff) && (0 <=? soff) && (doff + n <=? length dst) && (soff + n <=? length m)
  then Some (take (Z.to_nat doff) dst ++ take (Z.to_nat n) (drop (Z.to_nat soff) m) ++
             drop (Z.to_nat (doff + n)) dst)
  else None.

(** [w_agentd_state_update(INCREMENT_MSG_COUNT)] and [RESET_MSG_COUNT_ON_SHRINK] *)
Definition increment_msg_count (s : abuf) : abuf := with_count s (wrap32 (ab_msg_count s + 1)).
Definition reset_msg_count (s : abuf) (n : Z) : abuf := with_count s n.

(** * Operations *)

(** [buffer_init]; the three levels are what [getDefine_Int] returns. *)
Definition buffer_init (s : abuf) (warn_level normal_level tolerance : Z) : option abuf :=
  n ← ring_size s;
  let b := match ab_buffer s with None => Some (replicate (Z.to_nat n) null_slot) | b => b end in
  Some (ABuf (ab_i s) (ab_j s) (ab_lv s) b (ab_msgs s) (agt_buffer s) (agt_buflength s)
          warn_level normal_level tolerance (ab_msg_count s)).

(** The two [switch (state)]: on an append and on a dispatch. *)
Definition raise_level (lv : lstate) (is_full is_warn : bool) (tolerance now : Z) : lstate :=
  let '(LState state (Alerts f w fl nm) start) := lv in
  match state with
  | NORMAL =>
      if is_full then LState FULL (Alerts true w fl nm) now
      else if is_warn then LState WARNING (Alerts f true fl nm) start
      else lv
  | WARNING => if is_full then LState FULL (Alerts true w fl nm) now else lv
  | FULL => if tolerance <=? now - start then LState FLOOD (Alerts f w true nm) start else lv
  | FLOOD => lv
  end.
Definition lower_level (lv : lstate) (is_nowarn is_normal : bool) : lstate :=
  let '(LState state (Alerts f w fl nm) start) := lv in
  match state with
  | NORMAL => lv
  | WARNING => if is_normal then LState NORMAL (Alerts f w fl true) start else lv
  | FULL | FLOOD =>
      let lv := if is_nowarn then LState WARNING (Alerts f w fl nm) start else lv in
      if is_normal then LState NORMAL (Alerts f w fl true) start else lv
  end.

(** The bytes to store: a string with its terminator, or [msg_len] bytes. *)
Definition message (msg : list Z) (msg_len : Z) : option (list Z) :=
  let size := if msg_len <? 0 then strlen (cstring msg) + 1 else msg_len in
  if size <=? length msg then Some (take (Z.to_nat size) msg) else None.

Section operations.
(** [malloc]: the address of a new block. *)
Variable malloc : heap (list Z) → loc.

(** [buffer_append] at the time [now] *)
Definition buffer_append (s : abuf) (msg : list Z) (msg_len now : Z) : option (Z * abuf) :=
  n ← ring_size s;
  let is_full := full (ab_i s) (ab_j s) n in
  let is_warn := warn (ab_warn_level s) (fill (ab_i s) (ab_j s) n) n in
  let s := with_lv s (raise_level (ab_lv s) is_full is_warn (ab_tolerance s) now) in
  let s := increment_msg_count s in
  if is_full then Some (-1, s)
  else
    d ← message msg msg_len;
    let l := malloc (ab_msgs s) in
    b ← set_slot (ab_buffer s) (ab_i s) (Slot (Some l) (length d));
    let s := with_mem s (Some b) (<[l := d]> (ab_msgs s)) in
    Some (0, with_ij s (forward (ab_i s) n) (ab_j s)).

(** The critical section of [dispatch_buffer]. *)
Inductive dispatched := Stopped | Taken (sl : slot) (original_j : Z).
Definition dispatch_take (s : abuf) : option (outcome dispatched * abuf) :=
  if empty (ab_i s) (ab_j s) && negb (agt_buffer s =? 0) then Some (Wait, s)
  else if agt_buffer s =? 0 then Some (Ret Stopped, s)
  else
    n ← ring_size s;
    let count := fill (ab_i s) (ab_j s) n in
    let lv := lower_level (ab_lv s) (nowarn (ab_warn_level s) count n) (normal (ab_normal_level s) count n) in
    sl ← get_slot (ab_buffer s) (ab_j s);
    Some (Ret (Taken sl (ab_j s)), with_ij (with_lv s lv) (ab_i s) (forward (ab_j s) n)).

(** The notices that it sends, in their order. *)
Inductive notice := WARN_BUFFER | FULL_BUFFER | FLOODED_BUFFER | NORMAL_BUFFER.
Definition dispatch_alerts (lv : lstate) : list notice * lstate :=
  let '(LState state (Alerts f w fl nm) start) := lv in
  ((if w then [WARN_BUFFER] else []) ++ (if f then [FULL_BUFFER] else []) ++
   (if fl then [FLOODED_BUFFER] else []) ++ (if nm then [NORMAL_BUFFER] else []),
   LState state (Alerts false false false false) start).

(** The message that it sends, and the release of the slot. *)
Definition dispatch_send (s : abuf) (sl : slot) (original_j : Z) : option (option (list Z) * abuf) :=
  match sl_data sl with
  | None => Some (None, s)
  | Some l =>
      d ← ab_msgs s !! l;
      h ← free (ab_msgs s) (Some l);
      b ← set_slot (ab_buffer s) original_j null_slot;
      Some (Some (take (sl_size sl) d), with_mem s (Some b) h)
  end.

(** [w_agentd_get_buffer_lenght] *)
Definition w_agentd_get_buffer_lenght (s : abuf) : option Z :=
  if 0 <? agt_buffer s then
    n ← ring_size s;
    let retval := Z.rem (ab_i s - ab_j s) n in
    Some (if retval <? 0 then retval + n else retval)
  else Some (-1).

(** [os_free] on the data of each slot. *)
Fixpoint free_slots (m : list slot) (h : heap (list Z)) : option (heap (list Z)) :=
  match m with
  | [] => Some h
  | sl :: m => h ← free h (sl_data sl); free_slots m h
  end.

(** [w_agentd_buffer_free] *)
Definition w_agentd_buffer_free (s : abuf) (current_capacity : Z) : option abuf :=
  match ab_buffer s with
  | None => Some s
  | Some m =>
      if current_capacity =? 0 then Some s
      else if current_capacity <? length m then
        h ← free_slots (take (Z.to_nat (current_capacity + 1)) m) (ab_msgs s);
        Some (with_ij (with_agt (with_mem s None h) (agt_buffer s) 0) 0 0)
      else None
  end.

(** [w_agentd_buffer_resize]: the number of messages, which it reads in a
    critical section of its own, or what it returns. *)
Definition resize_count (s : abuf) (current_capacity desired_capacity : Z) : option (Z + Z) :=
  if desired_capacity <=? 0 then Some (inl (-1))
  else if desired_capacity =? current_capacity then Some (inl 0)
  else
    c ← w_agentd_get_buffer_lenght s;
    Some (if c <? 0 then inl (-1) else if wrap32 (current_capacity + 1) <? c then inl (-1) else inr c).

(** The loop that keeps the oldest messages: [k] slots are done. *)
Fixpoint retain (fuel : nat) (old temp : list slot) (j k current_capacity : Z) : option (list slot * list slot) :=
  match fuel with
  | O => Some (old, temp)
  | S fuel =>
      let n := wrap32 (current_capacity + 1) in
      if n =? 0 then None
      else
        let old_idx := wrap32 (j + k) mod n in
        sl ← get_slot (Some old) old_idx;
        '(old, temp) ←
          match sl_data sl with
          | None => Some (old, temp)
          | Some _ =>
              temp ← set_slot (Some temp) k sl;
              old ← set_slot (Some old) old_idx null_slot;
              Some (old, temp)
          end;
        retain fuel old temp j (k + 1) current_capacity
  end.

(** Its second critical section. *)
Definition resize_swap (s : abuf) (current_capacity desired_capacity count : Z) : option abuf :=
  let temp := replicate (Z.to_nat (desired_capacity + 1)) null_slot in
  if current_capacity <? desired_capacity then
    temp ← (if ab_j s <? ab_i s then copy_slots temp 0 (ab_buffer s) (ab_j s) count
            else
              let first_part := int32 (current_capacity - ab_j s + 1) in
              temp ← copy_slots temp 0 (ab_buffer s) (ab_j s) first_part;
              copy_slots temp first_part (ab_buffer s) 0 (ab_i s));
    Some (with_ij (with_mem s (Some temp) (ab_msgs s)) count 0)
  else
    let retained := if count <? desired_capacity then count else desired_capacity in
    old ← ab_buffer s;
    '(old, temp) ← retain (Z.to_nat retained) old temp (ab_j s) 0 current_capacity;
    if current_capacity <? length old then
      h ← free_slots (take (Z.to_nat (current_capacity + 1)) old) (ab_msgs s);
      Some (with_ij (with_mem (reset_msg_count s retained) (Some temp) h) retained 0)
    else None.

Definition w_agentd_buffer_resize (s : abuf) (current_capacity desired_capacity : Z) : option (Z * abuf) :=
  c ← resize_count s current_capacity desired_capacity;
  match c with
  | inl r => Some (r, s)
  | inr count => s ← resize_swap s current_capacity desired_capacity count; Some (0, s)
  end.

(** The reload of [AgentdStart]: [ReadConfig] stores the new values in [agt],
    then the buffer follows; the flag says that a dispatcher is started. *)
Definition agentd_reload (s : abuf) (buffer buflength warn_level normal_level tolerance : Z)
    : option (bool * abuf) :=
  let current_capacity := agt_buflength s in
  let current_buffer_flag := agt_buffer s in
  let s := with_agt s buffer buflength in
  if (agt_buffer s =? 0) && negb (current_buffer_flag =? 0) then
    s ← w_agentd_buffer_free s current_capacity; Some (false, s)
  else if (current_buffer_flag =? 0) && negb (agt_buffer s =? 0) then
    s ← buffer_init s warn_level normal_level tolerance; Some (true, s)
  else if negb (agt_buffer s =? 0) then
    '(_, s) ← w_agentd_buffer_resize s current_capacity (agt_buflength s); Some (false, s)
  else Some (false, s).
End operations.

(** * The rate limit *)

Record timespec := Timespec { tv_sec : Z; tv_nsec : Z }.

(** [time_sub] of shared/time_op.c: [a - b] *)
Definition time_sub (a b : timespec) : timespec :=
  let sec := tv_sec a - tv_sec b in
  let nsec := tv_nsec a - tv_nsec b in
  if nsec <? 0 then Timespec (sec - 1) (nsec + 1000000000) else Timespec sec nsec.

(** [delay]: the time that it sleeps, if it does. *)
Definition delay (events_persec : Z) (ts_loop : timespec) : option timespec :=
  let interval_ns := Z.quot 1000000000 events_persec in
  let ts_timeout := time_sub (Timespec (Z.quot interval_ns 1000000000) (Z.rem interval_ns 1000000000)) ts_loop in
  if 0 <=? tv_sec ts_timeout then Some ts_timeout else None.

(** The end of an iteration of [dispatch_buffer] that began at [ts0]. *)
Definition dispatch_delay (events_persec : Z) (ts0 ts1 : timespec) : option timespec :=
  let ts1 := time_sub ts1 ts0 in
  if 0 <=? tv_sec ts1 then delay events_persec ts1 else None.

(** * The threads *)

(** Where the dispatcher is: before its critical section, or outside of the
    mutex with the message that it took. *)
Inductive dpc :=
  | D_idle
  | D_alerts (sl : slot) (original_j : Z)
  | D_send (sl : slot) (original_j : Z)
  | D_stopped.
Record sys := Sys { sy_buf : abuf; sy_pc : dpc }.

Inductive sop :=
  | Append (msg : list Z) (msg_len now : Z)
  | Dispatch
  | Length.
Inductive sres :=
  | R_append (r : Z)
  | R_taken
  | R_notices (l : list notice)
  | R_sent (d : option (list Z))
  | R_stopped
  | R_length (r : Z).

Definition sys_exec (malloc : heap (list Z) → loc) (o : sop) (s : sys) : option (outcome sres * sys) :=
  match o with
  | Append msg msg_len now =>
      '(r, b) ← buffer_append malloc (sy_buf s) msg msg_len now;
      Some (Ret (R_append r), Sys b (sy_pc s))
  | Dispatch =>
      match sy_pc s with
      | D_idle =>
          '(r, b) ← dispatch_take (sy_buf s);
          Some (match r with
                | Wait => (Wait, Sys b D_idle)
                | Ret Stopped => (Ret R_stopped, Sys b D_stopped)
                | Ret (Taken sl j) => (Ret R_taken, Sys b (D_alerts sl j))
                end)
      | D_alerts sl j =>
          let '(l, lv) := dispatch_alerts (ab_lv (sy_buf s)) in
          Some (Ret (R_notices l), Sys (with_lv (sy_buf s) lv) (D_send sl j))
      | D_send sl j =>
          '(d, b) ← dispatch_send (sy_buf s) sl j;
          Some (Ret (R_sent d), Sys b D_idle)
      | D_stopped => Some (Ret R_stopped, s)
      end
  | Length => r ← w_agentd_get_buffer_lenght (sy_buf s); Some (Ret (R_length r), s)
  end.

(** The state in which the agent starts: the buffer enabled, with [n] places. *)
Definition no_alerts : alerts := Alerts false false false false.
Definition agent_start (n : Z) : abuf :=
  ABuf 0 0 (LState NORMAL no_alerts 0) None ∅ 1 n 0 0 0 0.
