(* ===== verification/AgentBufferSpec.v ===== *)
(** The agent's buffer is a bounded first-in first-out list of messages with
    alert levels, under every interleaving of its producers and its
    dispatcher. *)

From S2P Require Import Prelude Monitor Float AgentBuffer.

Arguments set_slot : simpl never.
Arguments get_slot : simpl never.
Arguments forward : simpl never.

(** * The abstract buffer *)

Inductive spc := S_idle | S_alerts (d : list Z) | S_send (d : list Z).
Record spec := Spec { sp_q : list (list Z); sp_lv : lstate; sp_pc : spc }.

Section spec.
(** The capacity and the levels. *)
Context (N : nat) (warn_level normal_level tolerance : Z).

Definition count (a : spec) : Z := Z.of_nat (length (sp_q a)).

Definition spec_exec (o : sop) (a : spec) : option (outcome sres * spec) :=
  match o with
  | Append msg msg_len now =>
      let lv := raise_level (sp_lv a) (count a =? N) (warn warn_level (count a) (N + 1)) tolerance now in
      if count a =? N then Some (Ret (R_append (-1)), Spec (sp_q a) lv (sp_pc a))
      else
        d ← message msg msg_len;
        Some (Ret (R_append 0), Spec (sp_q a ++ [d]) lv (sp_pc a))
  | Dispatch =>
      match sp_pc a with
      | S_idle =>
          match sp_q a with
          | [] => Some (Wait, a)
          | d :: q =>
              let lv := lower_level (sp_lv a) (nowarn warn_level (count a) (N + 1)) (normal normal_level (count a) (N + 1)) in
              Some (Ret R_taken, Spec q lv (S_alerts d))
          end
      | S_alerts d =>
          let '(l, lv) := dispatch_alerts (sp_lv a) in
          Some (Ret (R_notices l), Spec (sp_q a) lv (S_send d))
      | S_send d => Some (Ret (R_sent (Some d)), Spec (sp_q a) (sp_lv a) S_idle)
      end
  | Length => Some (Ret (R_length (count a)), a)
  end.
End spec.

(** * Rings *)

Lemma rem_nat (a b : nat) : Z.rem a b = Z.of_nat (a mod b)%nat.
Proof.
  destruct (decide (b = 0%nat)) as [->|]; [by rewrite Z.rem_0_r_ext|].
  rewrite Z.rem_mod_nonneg by lia. by rewrite Nat2Z.inj_mod.
Qed.

(** The index [k] places after [j] in a ring of [n]. *)
Definition idx (j k n : nat) : nat := ((j + k) mod n)%nat.
Arguments idx : simpl never.

Lemma idx_cases j k n : (j < n)%nat → (k ≤ n)%nat →
  idx j k n = if (j + k <? n)%nat then (j + k)%nat else (j + k - n)%nat.
Proof.
  intros Hj Hk. unfold idx. destruct (Nat.ltb_spec (j + k) n); [by apply Nat.mod_small|].
  replace (j + k)%nat with (j + k - n + 1 * n)%nat at 1 by lia.
  rewrite Nat.Div0.mod_add. apply Nat.mod_small. lia.
Qed.
Lemma idx_lt j k n : (0 < n)%nat → (idx j k n < n)%nat.
Proof. intros. apply Nat.mod_upper_bound. lia. Qed.

Ltac ring_cases :=
  rewrite idx_cases by lia; apply eq_iff_eq_true; rewrite !Z.eqb_eq;
  match goal with |- context [(?a <? ?b)%nat] => destruct (Nat.ltb_spec a b) end; lia.

Lemma forward_idx j k n : (j < n)%nat → (k < n)%nat → forward (idx j k n) n = idx j (S k) n.
Proof.
  intros Hj Hk. unfold forward. replace (Z.of_nat (idx j k n) + 1) with (Z.of_nat (idx j k n + 1)) by lia.
  rewrite rem_nat. f_equal. unfold idx. rewrite Nat.Div0.add_mod_idemp_l. f_equal. lia.
Qed.
Lemma full_idx j k n : (j < n)%nat → (k < n)%nat → full (idx j k n) j n = (Z.of_nat k =? Z.of_nat n - 1).
Proof.
  intros Hj Hk. unfold full. fold (forward (idx j k n) n). rewrite forward_idx by done. ring_cases.
Qed.
Lemma empty_idx j k n : (j < n)%nat → (k < n)%nat → empty (idx j k n) j = (Z.of_nat k =? 0).
Proof. intros Hj Hk. unfold empty. ring_cases. Qed.
Lemma fill_idx j k n : (j < n)%nat → (k < n)%nat → fill (idx j k n) j n = k.
Proof.
  intros Hj Hk. unfold fill.
  replace (Z.of_nat (idx j k n) - j + n) with (Z.of_nat (idx j k n + (n - j))) by lia. rewrite rem_nat.
  f_equal. unfold idx. rewrite Nat.Div0.add_mod_idemp_l. replace (j + k + (n - j))%nat with (k + 1 * n)%nat by lia.
  rewrite Nat.Div0.mod_add. by apply Nat.mod_small.
Qed.

Lemma rotate_at {A} (m : list A) j k : (k < length m)%nat → rotate j m !! k = m !! idx j k (length m).
Proof.
  intros. rewrite lookup_rotate_r by done. f_equal. unfold rotate_nat_add, idx.
  rewrite <-Nat2Z.inj_add, <-Nat2Z.inj_mod. by rewrite Nat2Z.id.
Qed.
Lemma rotate_set {A} (m : list A) j k x :
  (k < length m)%nat → rotate j (<[idx j k (length m) := x]> m) = <[k := x]> (rotate j m).
Proof.
  intros. rewrite <-rotate_insert_l by done. do 2 f_equal. unfold rotate_nat_add, idx.
  rewrite <-Nat2Z.inj_add, <-Nat2Z.inj_mod. by rewrite Nat2Z.id.
Qed.
Lemma rotate_next {A} (m : list A) j x t :
  (j < length m)%nat → rotate j m = x :: t → rotate (idx j 1 (length m)) m = t ++ [x].
Proof.
  intros Hj. unfold rotate. rewrite (Nat.mod_small j) by done.
  destruct (lookup_lt_is_Some_2 m j Hj) as [y Hy]. rewrite (drop_S m y j) by done.
  intros [= -> <-]. rewrite (Nat.mod_small (idx j 1 _)) by (apply idx_lt; lia).
  rewrite idx_cases by lia. destruct (Nat.ltb_spec (j + 1) (length m)).
  - rewrite Nat.add_1_r, (take_S_r m j x) by done. by rewrite app_assoc.
  - replace (j + 1 - length m)%nat with 0%nat by lia. rewrite (drop_ge m (S j)) by lia. simpl.
    rewrite app_nil_r, drop_0, <-(take_S_r m j x) by done. by rewrite take_ge by lia.
Qed.

(** * Representation *)

(** A block of the heap and the slot that points to it. *)
Abbreviation cellm := (loc * list Z)%type.
Definition slot_of (c : cellm) : slot := Slot (Some c.1) (length c.2).

(** The heap holds exactly the listed blocks. *)
Definition owns (h : heap (list Z)) (cs : list cellm) : Prop :=
  NoDup cs.*1 ∧ ∀ l d, h !! l = Some d ↔ (l, d) ∈ cs.

(** The ring of [N + 1] slots seen from [j]: the queue, the free slots, and
    one more, which is the slot of the message in flight. *)
Definition ring (N : nat) (m : list slot) (j : nat) (ms : list cellm) (gap : slot) : Prop :=
  length m = S N ∧ (j < S N)%nat ∧ (length ms ≤ N)%nat ∧
  rotate j m = (slot_of <$> ms) ++ replicate (N - length ms) null_slot ++ [gap].

Lemma owns_insert h cs l d : owns h cs → h !! l = None → owns (<[l := d]> h) (cs ++ [(l, d)]).
Proof.
  intros [Hnd Hh] Hl. split.
  - rewrite fmap_app. apply NoDup_snoc. split; [done|]. intros ((l' & d') & Heq & Hin)%list_elem_of_fmap.
    apply Hh in Hin. simpl in *. congruence.
  - intros l' d'. rewrite elem_of_app, list_elem_of_singleton, <-Hh. destruct (decide (l = l')) as [<-|Hne].
    + rewrite lookup_insert_eq, Hl. naive_solver.
    + rewrite lookup_insert_ne by done. naive_solver.
Qed.
Lemma owns_delete h cs l d : owns h ((l, d) :: cs) → h !! l = Some d ∧ owns (delete l h) cs.
Proof.
  intros [Hnd Hh]. split; [apply Hh; by left|]. apply NoDup_cons in Hnd as [Hl Hnd]. simpl in Hl.
  split; [done|]. intros l' d'. destruct (decide (l = l')) as [<-|Hne].
  - rewrite lookup_delete_eq. split; [done|]. intros Hin. destruct Hl. apply list_elem_of_fmap. by exists (l, d').
  - rewrite lookup_delete_ne, Hh, elem_of_cons by done. naive_solver.
Qed.

Lemma ring_push N m j ms gap c :
  ring N m j ms gap → (length ms < N)%nat → ring N (<[idx j (length ms) (S N) := slot_of c]> m) j (ms ++ [c]) gap.
Proof.
  intros (Hl & Hj & Hn & Hr) Hlt. split_and!; [by rewrite length_insert|done|rewrite length_app; simpl; lia|].
  rewrite <-Hl, rotate_set, Hr by lia.
  replace (N - length ms)%nat with (S (N - length (ms ++ [c]))) by (rewrite length_app; simpl; lia). simpl.
  rewrite insert_app_r_alt by (rewrite length_fmap; lia). rewrite length_fmap, Nat.sub_diag. simpl.
  by rewrite fmap_app, <-app_assoc.
Qed.
Lemma ring_pop N m j c ms :
  ring N m j (c :: ms) null_slot → m !! j = Some (slot_of c) ∧ ring N m (idx j 1 (S N)) ms (slot_of c).
Proof.
  intros (Hl & Hj & Hn & Hr). simpl in Hn, Hr. split.
  - assert (rotate j m !! 0%nat = Some (slot_of c)) as H by by rewrite Hr.
    rewrite rotate_at in H by lia. rewrite <-H. f_equal. rewrite Hl, idx_cases by lia.
    destruct (Nat.ltb_spec (j + 0) (S N)); lia.
  - split_and!; [done|apply idx_lt; lia|lia|].
    rewrite <-Hl. rewrite (rotate_next m j _ _ ltac:(lia) Hr).
    replace (N - length ms)%nat with (N - S (length ms) + 1)%nat by lia.
    rewrite replicate_add. simpl. by rewrite <-!app_assoc.
Qed.
Lemma ring_clear N m j ms gap : ring N m j ms gap → ring N (<[idx j N (S N) := null_slot]> m) j ms null_slot.
Proof.
  intros (Hl & Hj & Hn & Hr). split_and!; [by rewrite length_insert|done|done|].
  rewrite <-Hl, rotate_set, Hr by lia.
  rewrite insert_app_r_alt by (rewrite length_fmap; lia). rewrite insert_app_r_alt by (rewrite length_replicate, length_fmap; lia).
  rewrite length_fmap, length_replicate. by replace (N - length ms - (N - length ms))%nat with 0%nat by lia.
Qed.

(** The slot before [j]. *)
Lemma idx_back j N : (j < S N)%nat → idx (idx j 1 (S N)) N (S N) = j.
Proof.
  intros. rewrite !idx_cases; [|lia|lia|apply idx_lt; lia|lia].
  destruct (Nat.ltb_spec (j + 1) (S N));
    match goal with |- context [(?a <? ?b)%nat] => destruct (Nat.ltb_spec a b) end; lia.
Qed.

(** What the dispatcher holds between its steps. *)
Definition pc_rep (N j : nat) (c : dpc) (a : spc) (fl : list cellm) (gap : slot) : Prop :=
  match c, a with
  | D_idle, S_idle => fl = [] ∧ gap = null_slot
  | D_alerts sl k, S_alerts d | D_send sl k, S_send d =>
      ∃ l, fl = [(l, d)] ∧ gap = slot_of (l, d) ∧ sl = gap ∧ k = Z.of_nat (idx j N (S N))
  | _, _ => False
  end.

Lemma set_slot_ok m (k : nat) sl : (k < length m)%nat → set_slot (Some m) k sl = Some (<[k := sl]> m).
Proof.
  intros. unfold set_slot. cbn [mbind option_bind]. rewrite (proj2 (Z.leb_le _ _)), (proj2 (Z.ltb_lt _ _)) by lia.
  simpl. by rewrite Nat2Z.id.
Qed.
Lemma get_slot_ok m (k : nat) : get_slot (Some m) k = m !! k.
Proof. unfold get_slot. cbn [mbind option_bind]. rewrite (proj2 (Z.leb_le _ _)) by lia. by rewrite Nat2Z.id. Qed.

Section simulation.
Context (malloc : heap (list Z) → loc) (malloc_fresh : ∀ h, h !! malloc h = None).
Context (N : nat) (warn_level normal_level tolerance : Z) (HN : 0 < N < INT_MAX).

Record conf_ok (b : abuf) : Prop := ConfOk {
  co_buffer : agt_buffer b = 1;
  co_length : agt_buflength b = N;
  co_warn : ab_warn_level b = warn_level;
  co_normal : ab_normal_level b = normal_level;
  co_tolerance : ab_tolerance b = tolerance
}.

Definition rep (s : sys) (a : spec) : Prop :=
  conf_ok (sy_buf s) ∧ sp_lv a = ab_lv (sy_buf s) ∧
  ∃ m j ms fl gap,
    ab_buffer (sy_buf s) = Some m ∧ ring N m j ms gap ∧
    ab_j (sy_buf s) = Z.of_nat j ∧ ab_i (sy_buf s) = Z.of_nat (idx j (length ms) (S N)) ∧
    owns (ab_msgs (sy_buf s)) (fl ++ ms) ∧ sp_q a = ms.*2 ∧ pc_rep N j (sy_pc s) (sp_pc a) fl gap.

(** A message that can be read from its pointer. *)
Definition sop_ok (o : sop) : Prop :=
  match o with Append msg msg_len _ => is_Some (message msg msg_len) | _ => True end.

Lemma ring_size_ok b : conf_ok b → ring_size b = Some (Z.of_nat (S N)).
Proof using HN.
  intros [_ Hl _ _ _]. unfold ring_size. rewrite Hl. unfold INT_MAX in *.
  rewrite (proj2 (Z.leb_le _ _)), (proj2 (Z.ltb_lt _ _)) by lia. simpl. f_equal. lia.
Qed.

Lemma agent_append_sim s a msg msg_len now :
  rep s a → is_Some (message msg msg_len) →
  ∃ r s' a', sys_exec malloc (Append msg msg_len now) s = Some (r, s') ∧
    spec_exec N warn_level normal_level tolerance (Append msg msg_len now) a = Some (r, a') ∧ rep s' a'.
Proof using HN malloc_fresh.
  destruct s as [b pc], a as [q lv apc].
  intros (Hc & Hlv & m & j & ms & fl & gap & Hb & Hr & Hj & Hi & Ho & Hq & Hp) [d Hd]. simpl in *.
  pose proof Hr as (Hlen & Hjlt & Hfit & _).
  assert (count (Spec q lv apc) = Z.of_nat (length ms)) as Hcnt by (unfold count; simpl; rewrite Hq; by rewrite length_fmap).
  rewrite !Hcnt. unfold buffer_append. rewrite (ring_size_ok _ Hc). cbn [mbind option_bind].
  rewrite Hi, Hj, full_idx, fill_idx by lia. destruct Hc as [H1 H2 H3 H4 H5].
  replace (Z.of_nat (S N) - 1) with (Z.of_nat N) by lia. replace (Z.of_nat (S N)) with (Z.of_nat N + 1) by lia.
  rewrite H3, H5, Hlv. destruct (Z.eqb_spec (Z.of_nat (length ms)) (Z.of_nat N)) as [E|E].
  - do 3 eexists. split; [done|]. split; [done|]. split; [done|]. split; [done|].
    exists m, j, ms, fl, gap. done.
  - rewrite Hd. cbn [mbind option_bind]. simpl. rewrite Hb, Hi, set_slot_ok by (rewrite Hlen; apply idx_lt; lia). simpl.
    do 3 eexists. split; [done|]. split; [done|]. split; [done|]. split; [done|]. simpl.
    exists (<[idx j (length ms) (S N) := slot_of (malloc (ab_msgs b), d)]> m), j, (ms ++ [(malloc (ab_msgs b), d)]), fl, gap.
    split_and!; [done|apply ring_push; [done|lia]|done| | | |done].
    + replace (Z.of_nat N + 1) with (Z.of_nat (S N)) by lia. rewrite forward_idx, length_app by lia. simpl.
      by rewrite Nat.add_1_r.
    + rewrite app_assoc. by apply owns_insert.
    + by rewrite fmap_app, Hq.
Qed.

Lemma dispatch_sim s a :
  rep s a → ∃ r s' a', sys_exec malloc Dispatch s = Some (r, s') ∧
    spec_exec N warn_level normal_level tolerance Dispatch a = Some (r, a') ∧ rep s' a'.
Proof using HN.
  destruct s as [b pc], a as [q lv apc].
  intros (Hc & Hlv & m & j & ms & fl & gap & Hb & Hr & Hj & Hi & Ho & Hq & Hp). simpl in *.
  pose proof Hr as (Hlen & Hjlt & Hfit & _). pose proof (ring_size_ok _ Hc) as Hrs. pose proof Hc as [H1 H2 H3 H4 H5].
  destruct pc as [|sl k|sl k|], apc as [|d|d]; try done; simpl in Hp.
  - destruct Hp as [-> ->]. unfold dispatch_take. rewrite Hi, Hj, empty_idx, H1, Hrs by lia.
    destruct ms as [|c ms]; simpl in Hq; subst q.
    + do 3 eexists. split; [done|]. split; [done|]. split; [done|]. split; [done|]. exists m, j, [], [], null_slot. done.
    + change (negb (1 =? 0)) with true. change (1 =? 0) with false. cbn [mbind option_bind].
      rewrite fill_idx by lia. destruct (ring_pop _ _ _ _ _ Hr) as [Hm Hr'].
      rewrite Hb, get_slot_ok, Hm, (proj2 (Z.eqb_neq _ _)) by (simpl; lia). cbn [mbind option_bind andb].
      rewrite H3, H4, Hlv. unfold count. cbn [sp_q length]. rewrite length_fmap.
      replace (Z.of_nat (S N)) with (Z.of_nat N + 1) by lia.
      do 3 eexists. split; [done|]. split; [done|]. split; [done|]. split; [done|]. simpl.
      exists m, (idx j 1 (S N)), ms, [c], (slot_of c). split_and!; try done.
      * replace (Z.of_nat N + 1) with (Z.of_nat (S N)) by lia.
        replace (Z.of_nat j) with (Z.of_nat (idx j 0 (S N))).
        { rewrite forward_idx by lia. done. }
        rewrite idx_cases by lia. destruct (Nat.ltb_spec (j + 0) (S N)); lia.
      * f_equal. unfold idx. rewrite Nat.Div0.add_mod_idemp_l. f_equal. simpl. lia.
      * exists c.1. rewrite idx_back by done. by destruct c.
  - destruct Hp as (l & -> & -> & -> & ->). rewrite Hlv. destruct (dispatch_alerts (ab_lv b)) as [ns lv'].
    do 3 eexists. split; [done|]. split; [done|]. split; [done|]. split; [done|].
    exists m, j, ms, [(l, d)], (slot_of (l, d)). simpl. split_and!; try done. by exists l.
  - destruct Hp as (l & -> & -> & -> & ->). simpl in Ho. destruct (owns_delete _ _ _ _ Ho) as [Hl Ho'].
    unfold dispatch_send. simpl. rewrite Hl. cbn [mbind option_bind].
    rewrite Hb, set_slot_ok by (rewrite Hlen; apply idx_lt; lia). simpl. rewrite take_ge by lia.
    do 3 eexists. split; [done|]. split; [done|]. split; [done|]. split; [done|].
    exists (<[idx j N (S N) := null_slot]> m), j, ms, [], null_slot. split_and!; try done. by eapply ring_clear.
Qed.

Lemma length_sim s a :
  rep s a → sys_exec malloc Length s = Some (Ret (R_length (count a)), s).
Proof using HN.
  destruct s as [b pc], a as [q lv apc].
  intros (Hc & Hlv & m & j & ms & fl & gap & Hb & Hr & Hj & Hi & Ho & Hq & Hp). simpl in *.
  pose proof Hr as (Hlen & Hjlt & Hfit & _). unfold w_agentd_get_buffer_lenght.
  rewrite (co_buffer _ Hc), (ring_size_ok _ Hc). change (0 <? 1) with true. cbn [mbind option_bind].
  rewrite Hi, Hj. unfold count. simpl. rewrite Hq, length_fmap. do 4 f_equal.
  assert (Z.rem (Z.of_nat (idx j (length ms) (S N)) - Z.of_nat j) (Z.of_nat (S N)) =
          Z.of_nat (idx j (length ms) (S N)) - Z.of_nat j) as ->.
  { pose proof (idx_lt j (length ms) (S N)). apply Z.rem_small_iff; lia. }
  rewrite idx_cases by lia. destruct (Nat.ltb_spec (j + length ms) (S N)).
  - destruct (Z.ltb_spec (Z.of_nat (j + length ms) - j) 0); lia.
  - destruct (Z.ltb_spec (Z.of_nat (j + length ms - S N) - j) 0); lia.
Qed.

Lemma sys_sim o s a :
  rep s a → sop_ok o → ∃ r s' a', sys_exec malloc o s = Some (r, s') ∧
    spec_exec N warn_level normal_level tolerance o a = Some (r, a') ∧ rep s' a'.
Proof using HN malloc_fresh.
  intros Hr Ho. destruct o as [msg msg_len now| |]; [by apply agent_append_sim|by apply dispatch_sim|].
  exists (Ret (R_length (count a))), s, a. split; [by apply length_sim|]. done.
Qed.

Lemma sys_run_sim ops s a :
  rep s a → Forall sop_ok ops →
  ∃ tr s' a', interleave (sys_exec malloc) ops s = Some (tr, s') ∧
    interleave (spec_exec N warn_level normal_level tolerance) ops a = Some (tr, a') ∧ rep s' a'.
Proof using HN malloc_fresh.
  intros Hr Hops. revert s a Hr. induction Hops as [|o ops Ho _ IH]; intros s a Hr; simpl; [eauto 6|].
  destruct (sys_sim o s a Hr Ho) as (r & s1 & a1 & -> & -> & Hr1). simpl.
  destruct (IH _ _ Hr1) as (tr & s2 & a2 & -> & -> & Hr2). simpl. eauto 6.
Qed.
End simulation.
