(* ===== verification/AgentBufferClaims.v ===== *)
(** What the agent's buffer promises: no accepted event is lost, reordered or
    sent twice, a full buffer is reported, a flood is declared only after the
    tolerance time, resizing keeps the oldest events; and the reload of the
    configuration that breaks it. *)

From S2P Require Import Prelude Monitor Float LinkedQueue AgentBuffer AgentBufferSpec.

(** * Traces *)

(** The messages that an execution accepted, those that it sent, the notices. *)
Abbreviation event := (sop * outcome sres)%type.
Definition accepted (o : sop) (r : outcome sres) : list (list Z) :=
  match o, r with
  | Append msg msg_len _, Ret (R_append r) => if r =? 0 then option_list (message msg msg_len) else []
  | _, _ => []
  end.
Definition sent (o : sop) (r : outcome sres) : list (list Z) :=
  match r with Ret (R_sent d) => option_list d | _ => [] end.
Definition notices (tr : list event) : list notice :=
  tr ≫= λ e, match e.2 with Ret (R_notices l) => l | _ => [] end.

(** The message that the dispatcher holds. *)
Definition in_flight (a : spec) : list (list Z) :=
  match sp_pc a with S_idle => [] | S_alerts d | S_send d => [d] end.

Definition spec_init : spec := Spec [] (LState NORMAL no_alerts 0) S_idle.

Section spec_facts.
Context (N : nat) (warn_level normal_level tolerance : Z).
Abbreviation exec := (spec_exec N warn_level normal_level tolerance).

Definition holds (a : spec) (xs : list (list Z)) : Prop :=
  xs = in_flight a ++ sp_q a ∧ (length (sp_q a) ≤ N)%nat.

Lemma spec_fifo o a xs :
  holds a xs → sop_ok o → ∃ r a' xs', exec o a = Some (r, a') ∧ holds a' xs' ∧ sent o r ++ xs' = xs ++ accepted o r.
Proof.
  destruct a as [q lv pc]. intros [-> Hq] Ho. destruct o as [msg msg_len now| |]; simpl in *.
  - unfold count. simpl. destruct (Z.eqb_spec (Z.of_nat (length q)) N) as [E|E].
    + do 3 eexists. split; [done|]. split; [by split|]. simpl. by rewrite app_nil_r.
    + destruct Ho as [d Hd]. rewrite Hd. do 3 eexists. split; [done|]. split.
      { split; [done|]. simpl. rewrite length_app. simpl. lia. }
      simpl. by rewrite app_assoc.
  - destruct pc as [|d|d]; [destruct q as [|d q]| |].
    + do 3 eexists. split; [done|]. by split.
    + do 3 eexists. split; [done|]. split; [split; [done|simpl in *; lia]|]. simpl. by rewrite app_nil_r.
    + destruct (dispatch_alerts lv). do 3 eexists. split; [done|]. split; [by split|]. simpl. by rewrite app_nil_r.
    + do 3 eexists. split; [done|]. split; [by split|]. simpl. by rewrite app_nil_r.
  - do 3 eexists. split; [done|]. split; [by split|]. simpl. by rewrite app_nil_r.
Qed.

(** The steps that the dispatcher needs to send everything. *)
Definition work (a : spec) : nat :=
  (3 * length (sp_q a) + match sp_pc a with S_idle => 0 | S_alerts _ => 2 | S_send _ => 1 end)%nat.

Lemma drain_spec k a :
  (work a ≤ k)%nat →
  ∃ tr a', interleave exec (replicate k Dispatch) a = Some (tr, a') ∧ sp_q a' = [] ∧ sp_pc a' = S_idle.
Proof.
  revert a. induction k as [|k IH]; intros [q lv pc] Hk; unfold work in Hk; simpl in Hk.
  - destruct q, pc; simpl in *; try lia. eauto.
  - assert (∃ r a', exec Dispatch (Spec q lv pc) = Some (r, a') ∧ (work a' ≤ k)%nat) as (r & a' & Ha & Hw).
    { simpl. destruct pc as [|d|d]; [destruct q as [|d q]| |].
      - do 2 eexists. split; [done|]. unfold work. simpl. lia.
      - do 2 eexists. split; [done|]. unfold work. simpl in *. lia.
      - destruct (dispatch_alerts lv). do 2 eexists. split; [done|]. unfold work. simpl in *. lia.
      - do 2 eexists. split; [done|]. unfold work. simpl in *. lia. }
    cbn [replicate interleave]. rewrite Ha. simpl. destruct (IH a' Hw) as (tr & a2 & -> & H). simpl. eauto.
Qed.

(** A report of a full buffer that is due is not forgotten: [need] steps of
    the dispatcher send it. *)
Definition need (a : spec) : nat := match sp_pc a with S_idle => 2 | S_alerts _ => 1 | S_send _ => 3 end.
Definition due (a : spec) : Prop :=
  a_full (ls_buff (sp_lv a)) = true ∧ match sp_pc a with S_alerts _ => True | _ => sp_q a ≠ [] end.
Definition is_dispatch (o : sop) : bool := match o with Dispatch => true | _ => false end.
Definition dispatches (ops : list sop) : nat := length (filter is_dispatch ops).

Lemma raise_keeps lv f w now : a_full (ls_buff lv) = true → a_full (ls_buff (raise_level lv f w tolerance now)) = true.
Proof. destruct lv as [[] [] st], f, w; simpl; try case_match; done. Qed.
Lemma lower_keeps lv w n : a_full (ls_buff lv) = true → a_full (ls_buff (lower_level lv w n)) = true.
Proof. destruct lv as [[] [] st], w, n; done. Qed.
Lemma alerts_report lv l lv' : a_full (ls_buff lv) = true → dispatch_alerts lv = (l, lv') → FULL_BUFFER ∈ l.
Proof. destruct lv as [? [] ?]. simpl. intros -> [= <- _]. set_solver. Qed.

Lemma due_step o a r a' :
  due a → exec o a = Some (r, a') →
  FULL_BUFFER ∈ notices [(o, r)] ∨ due a' ∧ (need a' + (if is_dispatch o then 1 else 0) ≤ need a)%nat.
Proof.
  destruct a as [q lv pc]. unfold due, need, notices. simpl. intros [Hf Hq]. destruct o as [msg msg_len now| |]; simpl.
  - destruct (count (Spec q lv pc) =? N).
    + intros [= <- <-]. right. simpl. split; [split; [by apply raise_keeps|by destruct pc]|]. destruct pc; lia.
    + destruct (message msg msg_len) as [d|]; [|done]. intros [= <- <-]. right. simpl.
      split; [split; [by apply raise_keeps|]|destruct pc; lia]. destruct pc; try done; by destruct q.
  - destruct pc as [|d|d]; [destruct q as [|d q]; [done|]| |].
    + intros [= <- <-]. right. simpl. split; [split; [by apply lower_keeps|done]|lia].
    + destruct (dispatch_alerts lv) as [l lv'] eqn:E. intros [= <- <-]. left. simpl. rewrite app_nil_r.
      by eapply alerts_report.
    + intros [= <- <-]. right. simpl. split; [done|lia].
  - intros [= <- <-]. right. simpl. split; [done|]. destruct pc; lia.
Qed.
Lemma due_run ops a tr a' :
  due a → (need a ≤ dispatches ops)%nat → interleave exec ops a = Some (tr, a') → FULL_BUFFER ∈ notices tr.
Proof.
  revert a tr. induction ops as [|o ops IH]; intros a tr Ha Hn; simpl.
  - unfold need, dispatches in Hn. destruct (sp_pc a); simpl in Hn; lia.
  - destruct (exec o a) as [[r a1]|] eqn:E; [|done]. simpl.
    destruct (interleave exec ops a1) as [[tr1 a2]|] eqn:E2; [|done]. simpl. intros [= <- <-].
    change (FULL_BUFFER ∈ notices ([(o, r)] ++ tr1)). unfold notices. rewrite bind_app, elem_of_app.
    destruct (due_step _ _ _ _ Ha E) as [H|[Hd Hle]]; [by left|right]. eapply IH; [done| |done].
    unfold dispatches in *. rewrite filter_cons in Hn. destruct o; simpl in *; lia.
Qed.

(** A flood follows a full buffer by the tolerance time. *)
Definition became_full (tr : list event) (t : Z) : Prop :=
  ∃ tr1 msg msg_len tr2, tr = tr1 ++ (Append msg msg_len t, Ret (R_append (-1))) :: tr2.
Definition flooded (tr : list event) : Prop :=
  ∃ tr1 msg1 len1 t1 tr2 msg2 len2 t2 r2 tr3,
    tr = tr1 ++ (Append msg1 len1 t1, Ret (R_append (-1))) :: tr2 ++ (Append msg2 len2 t2, r2) :: tr3 ∧
    tolerance <= t2 - t1.
Definition level_history (lv : lstate) (tr : list event) : Prop :=
  match ls_state lv with
  | FULL => became_full tr (ls_start lv)
  | FLOOD => flooded tr
  | _ => True
  end.

Lemma became_full_app tr t tr' : became_full tr t → became_full (tr ++ tr') t.
Proof. intros (tr1 & m & l & tr2 & ->). exists tr1, m, l, (tr2 ++ tr'). by rewrite <-app_assoc. Qed.
Lemma flooded_app tr tr' : flooded tr → flooded (tr ++ tr').
Proof.
  intros (tr1 & m1 & l1 & t1 & tr2 & m2 & l2 & t2 & r2 & tr3 & -> & H).
  exists tr1, m1, l1, t1, tr2, m2, l2, t2, r2, (tr3 ++ tr'). split; [|done].
  by rewrite <-app_assoc, <-app_comm_cons, <-app_assoc.
Qed.
Lemma history_app lv tr tr' : level_history lv tr → level_history lv (tr ++ tr').
Proof. unfold level_history. destruct (ls_state lv); [done|done|apply became_full_app|apply flooded_app]. Qed.

Lemma raise_history lv f w now tr msg msg_len r :
  (f = true → r = Ret (R_append (-1))) → level_history lv tr →
  level_history (raise_level lv f w tolerance now) (tr ++ [(Append msg msg_len now, r)]).
Proof.
  intros Hr Hh. pose proof (history_app lv tr [(Append msg msg_len now, r)] Hh) as Hh'.
  destruct lv as [[] [] st]; simpl.
  - destruct f; [rewrite Hr by done; by exists tr, msg, msg_len, []|]. by destruct w.
  - destruct f; [rewrite Hr by done; by exists tr, msg, msg_len, []|]. done.
  - destruct (Z.leb_spec tolerance (now - st)); [|done].
    destruct Hh as (tr1 & m & l & tr2 & ->). exists tr1, m, l, st, tr2, msg, msg_len, now, r, [].
    by rewrite <-app_assoc.
  - done.
Qed.
Lemma lower_history lv w n tr : level_history lv tr → level_history (lower_level lv w n) tr.
Proof. by destruct lv as [[] [] st], w, n. Qed.
Lemma alerts_history lv l lv' tr : dispatch_alerts lv = (l, lv') → level_history lv tr → level_history lv' tr.
Proof. destruct lv as [? [] ?]. by intros [= <- <-]. Qed.

Lemma spec_history o a r a' tr :
  exec o a = Some (r, a') → level_history (sp_lv a) tr → level_history (sp_lv a') (tr ++ [(o, r)]).
Proof.
  intros He Hh. destruct a as [q lv pc]. destruct o as [msg msg_len now| |]; simpl in *.
  - destruct (count (Spec q lv pc) =? N).
    + injection He as <- <-. by apply raise_history.
    + destruct (message msg msg_len); [|done]. injection He as <- <-. by apply raise_history.
  - destruct pc as [|d|d]; [destruct q as [|d q]| |].
    + injection He as <- <-. by apply history_app.
    + injection He as <- <-. by apply history_app, lower_history.
    + destruct (dispatch_alerts lv) as [l lv'] eqn:E. injection He as <- <-. apply history_app. by eapply alerts_history.
    + injection He as <- <-. by apply history_app.
  - injection He as <- <-. by apply history_app.
Qed.
Lemma spec_history_run ops a tr a' tr0 :
  interleave exec ops a = Some (tr, a') → level_history (sp_lv a) tr0 → level_history (sp_lv a') (tr0 ++ tr).
Proof.
  revert a tr tr0. induction ops as [|o ops IH]; intros a tr tr0; simpl.
  - intros [= <- <-] H. by rewrite app_nil_r.
  - destruct (exec o a) as [[r a1]|] eqn:E; [|done]. simpl.
    destruct (interleave exec ops a1) as [[tr1 a2]|] eqn:E2; [|done]. simpl. intros [= <- <-] Hh.
    change ((o, r) :: tr1) with ([(o, r)] ++ tr1). rewrite app_assoc. eapply IH; [done|]. by eapply spec_history.
Qed.
End spec_facts.

Lemma owns_size h cs : owns h cs → size h = length cs.
Proof.
  intros [Hnd Hh]. assert (h = list_to_map cs) as ->.
  { apply map_eq. intros l. destruct (list_to_map cs !! l) as [d|] eqn:E.
    - apply elem_of_list_to_map in E; [|done]. by apply Hh.
    - destruct (h !! l) as [d|] eqn:E'; [|done]. apply Hh, elem_of_list_to_map in E'; [|done]. congruence. }
  by apply map_size_list_to_map.
Qed.

(** * Start *)

Lemma init_rep N warn_level normal_level tolerance :
  0 < Z.of_nat N < INT_MAX →
  ∃ b0, buffer_init (agent_start N) warn_level normal_level tolerance = Some b0 ∧
    rep N warn_level normal_level tolerance (Sys b0 D_idle) spec_init.
Proof.
  intros HN. unfold buffer_init, ring_size. simpl. unfold INT_MAX in *.
  rewrite (proj2 (Z.leb_le _ _)), (proj2 (Z.ltb_lt _ _)) by lia. simpl. eexists. split; [done|].
  split; [done|]. split; [done|]. exists (replicate (S N) null_slot), 0%nat, [], [], null_slot. simpl.
  replace (Z.to_nat (Z.of_nat N + 1)) with (S N) by lia. split_and!; try done.
  - change (null_slot :: replicate N null_slot) with (replicate (S N) null_slot).
    split_and!; [by rewrite length_replicate|lia|simpl; lia|]. rewrite rotate_replicate. simpl length.
    rewrite Nat.sub_0_r. replace (S N) with (N + 1)%nat by lia. by rewrite replicate_add.
  - rewrite idx_cases by lia. done.
  - split; [constructor|]. intros l d. rewrite lookup_empty. split; [done|]. by intros ?%elem_of_nil.
Qed.

Section claims.
Context (malloc : heap (list Z) → loc) (malloc_fresh : ∀ h, h !! malloc h = None).
Context (N : nat) (warn_level normal_level tolerance : Z) (HN : 0 < N <= 100000).

(** Every execution from the start, with the abstract one beside it. *)
Lemma reach ops :
  Forall sop_ok ops →
  ∃ b0 tr s a,
    buffer_init (agent_start N) warn_level normal_level tolerance = Some b0 ∧
    interleave (sys_exec malloc) ops (Sys b0 D_idle) = Some (tr, s) ∧
    interleave (spec_exec N warn_level normal_level tolerance) ops spec_init = Some (tr, a) ∧
    rep N warn_level normal_level tolerance s a ∧
    holds N a (in_flight a ++ sp_q a) ∧ all_got sent tr ++ in_flight a ++ sp_q a = all_put accepted tr.
Proof using malloc_fresh HN.
  intros Hops. assert (0 < Z.of_nat N < INT_MAX) as HN' by (unfold INT_MAX; lia).
  destruct (init_rep N warn_level normal_level tolerance HN') as (b0 & Hb0 & Hrep).
  destruct (sys_run_sim malloc malloc_fresh N _ _ _ HN' ops _ _ Hrep Hops) as (tr & s & a & Htr & Hsp & Hrep').
  destruct (interleave_fifo _ accepted sent (holds N) sop_ok ops spec_init []
    (spec_fifo N warn_level normal_level tolerance) Hops) as (tr' & a' & xs & Hsp' & [-> Hlen] & Heq).
  { split; [done|simpl; lia]. }
  rewrite Hsp in Hsp'. injection Hsp' as <- <-. by exists b0, tr, s, a.
Qed.


(** C31: Every accepted message is sent: after any execution, 3 (N + 1) more steps
    of the dispatcher leave nothing to send. *)
Theorem agent_buffer_drains ops :
  Forall sop_ok ops →
  ∃ b0 tr s',
    buffer_init (agent_start N) warn_level normal_level tolerance = Some b0 ∧
    interleave (sys_exec malloc) (ops ++ replicate (3 * (N + 1)) Dispatch) (Sys b0 D_idle) = Some (tr, s') ∧
    all_got sent tr = all_put accepted tr ∧ ab_msgs (sy_buf s') = ∅.
Proof using malloc_fresh HN.
  intros Hops. set (ds := replicate (3 * (N + 1)) Dispatch).
  assert (Forall sop_ok ds) as Hds by (by apply Forall_replicate).
  destruct (reach _ (proj2 (Forall_app _ _ _) (conj Hops Hds))) as (b0 & tr & s' & a' & Hb0 & Htr & Hsp & Hrep' & _ & Heq3).
  destruct (reach ops Hops) as (_ & tr1 & _ & a1 & _ & _ & Hsp1 & _ & [_ Hlen1] & _).
  destruct (drain_spec N warn_level normal_level tolerance (3 * (N + 1)) a1) as (tr2 & a2 & Hsp2 & Hq2 & Hp2).
  { unfold work. destruct (sp_pc a1); lia. }
  rewrite interleave_app, Hsp1 in Hsp. simpl in Hsp. fold ds in Hsp2.
  rewrite Hsp2 in Hsp. simpl in Hsp. injection Hsp as <- <-. exists b0, (tr1 ++ tr2), s'. split_and!; try done.
  - unfold in_flight in Heq3. by rewrite Hp2, Hq2, app_nil_r in Heq3.
  - destruct Hrep' as (_ & _ & m & j & ms & fl & gap & _ & _ & _ & _ & Ho & Hq & Hp).
    apply map_size_empty_inv. rewrite (owns_size _ _ Ho), length_app. rewrite Hq2 in Hq. rewrite Hp2 in Hp.
    symmetry in Hq. apply fmap_nil_inv in Hq as ->. destruct (sy_pc s'); simpl in Hp; try done. by destruct Hp as [-> _].
Qed.

(** The alert level FLOOD means that the buffer was full, and that an event
    came when it had not been relieved for the tolerance time. *)
Theorem agent_buffer_flood ops b0 tr s' :
  Forall sop_ok ops →
  buffer_init (agent_start N) warn_level normal_level tolerance = Some b0 →
  interleave (sys_exec malloc) ops (Sys b0 D_idle) = Some (tr, s') →
  ls_state (ab_lv (sy_buf s')) = FLOOD → flooded tolerance tr.
Proof using malloc_fresh HN.
  intros Hops Hb Htr Hs. destruct (reach ops Hops) as (b1 & tr1 & s1 & a1 & Hb1 & Htr1 & Hsp & Hrep1 & _).
  rewrite Hb in Hb1. injection Hb1 as <-. rewrite Htr in Htr1. injection Htr1 as <- <-.
  pose proof (spec_history_run N warn_level normal_level tolerance _ _ _ _ [] Hsp I) as Hh.
  destruct Hrep1 as (_ & Hlv & _). unfold level_history in Hh. by rewrite Hlv, Hs in Hh.
Qed.

(** An event that the buffer drops is reported: when an append is refused at
    one of the lower levels, the level becomes FULL, and any continuation in
    which the dispatcher runs three steps sends the notice. *)
Theorem agent_buffer_reports_full ops b0 tr1 s1 msg msg_len now s2 ops2 :
  Forall sop_ok ops → Forall sop_ok ops2 → is_Some (message msg msg_len) →
  buffer_init (agent_start N) warn_level normal_level tolerance = Some b0 →
  interleave (sys_exec malloc) ops (Sys b0 D_idle) = Some (tr1, s1) →
  ls_state (ab_lv (sy_buf s1)) = NORMAL ∨ ls_state (ab_lv (sy_buf s1)) = WARNING →
  sys_exec malloc (Append msg msg_len now) s1 = Some (Ret (R_append (-1)), s2) →
  (3 ≤ dispatches ops2)%nat →
  ls_state (ab_lv (sy_buf s2)) = FULL ∧ ls_start (ab_lv (sy_buf s2)) = now ∧
  ∃ tr2 s3, interleave (sys_exec malloc) ops2 s2 = Some (tr2, s3) ∧ FULL_BUFFER ∈ notices tr2.
Proof using malloc_fresh HN.
  intros Hops Hops2 Hm Hb Htr Hs Ha Hd.
  assert (0 < Z.of_nat N < INT_MAX) as HN' by (unfold INT_MAX; lia).
  destruct (reach ops Hops) as (b1 & tr' & s' & a1 & Hb1 & Htr' & Hsp & Hrep1 & _).
  rewrite Hb in Hb1. injection Hb1 as <-. rewrite Htr in Htr'. injection Htr' as <- <-.
  destruct (sys_sim malloc malloc_fresh N _ _ _ HN' (Append msg msg_len now) _ _ Hrep1 Hm) as (r & s' & a2 & Hs' & Hsp2 & Hrep2).
  rewrite Ha in Hs'. injection Hs' as <- <-.
  assert (Hd2 : due a2 ∧ ls_state (sp_lv a2) = FULL ∧ ls_start (sp_lv a2) = now).
  { destruct Hrep1 as (_ & Hlv & _). rewrite <-Hlv in Hs. destruct a1 as [q lv pc]. simpl in Hsp2, Hs. unfold count in Hsp2. simpl in Hsp2.
    destruct (Z.eqb_spec (Z.of_nat (length q)) N) as [E|]; [|by destruct Hm as [d Hm]; rewrite Hm in Hsp2].
    injection Hsp2 as <-. unfold due. simpl. assert (q ≠ []) by (intros ->; simpl in E; lia).
    destruct lv as [[] [] st]; simpl in *; destruct Hs; try done; split_and!; try done; by destruct pc. }
  destruct Hd2 as (Hdue & Hst & Hnow).
  destruct (sys_run_sim malloc malloc_fresh N _ _ _ HN' ops2 _ _ Hrep2 Hops2) as (tr2 & s3 & a3 & Htr2 & Hsp3 & Hrep3).
  pose proof Hrep2 as (_ & Hlv2 & _). rewrite <-Hlv2. split_and!; [done|done|]. exists tr2, s3. split; [done|].
  eapply due_run; [exact Hdue| |exact Hsp3]. unfold need. destruct (sp_pc a2); lia.
Qed.
End claims.

(** * Witnesses *)

(** Two events into a buffer of one place: the second is dropped. *)
Definition demo : list sop :=
  [Append [65; 0] (-1) 100; Length; Append [66; 0] (-1) 101; Dispatch; Append [67; 68; 0] 2 102; Dispatch].

Lemma demo_ok : Forall sop_ok demo.
Proof. repeat constructor; simpl; vm_compute; eexists; reflexivity. Qed.


Lemma agent_buffer_drains_witness :
  Forall sop_ok demo ∧
  ∃ b0 tr s',
    buffer_init (agent_start 1) 90 70 15 = Some b0 ∧
    interleave (sys_exec bump_alloc) (demo ++ replicate 6 Dispatch) (Sys b0 D_idle) = Some (tr, s') ∧
    all_got sent tr = all_put accepted tr ∧ ab_msgs (sy_buf s') = ∅.
Proof.
  split; [exact demo_ok|]. apply (agent_buffer_drains bump_alloc bump_alloc_fresh 1 90 70 15 ltac:(lia) demo demo_ok).
Defined.

Definition demo_start : abuf := default (agent_start 1) (buffer_init (agent_start 1) 90 70 15).
Definition demo_run (ops : list sop) : list event * sys :=
  default ([], Sys demo_start D_idle) (interleave (sys_exec bump_alloc) ops (Sys demo_start D_idle)).

Lemma agent_buffer_reports_full_witness :
  ls_state (ab_lv (sy_buf (demo_run (take 3 demo)).2)) = FULL ∧ ls_start (ab_lv (sy_buf (demo_run (take 3 demo)).2)) = 101 ∧
  ∃ tr2 s3, interleave (sys_exec bump_alloc) [Dispatch; Length; Dispatch; Dispatch] (demo_run (take 3 demo)).2 = Some (tr2, s3) ∧
    FULL_BUFFER ∈ notices tr2.
Proof.
  eapply (agent_buffer_reports_full bump_alloc bump_alloc_fresh 1 90 70 15 ltac:(lia) (take 2 demo) demo_start
    (demo_run (take 2 demo)).1 (demo_run (take 2 demo)).2 [66; 0] (-1) 101).
  - eapply Forall_take, demo_ok.
  - by repeat constructor.
  - by eexists.
  - vm_compute. reflexivity.
  - vm_compute. reflexivity.
  - left. vm_compute. reflexivity.
  - vm_compute. reflexivity.
  - vm_compute. lia.
Defined.

Definition flood_ops : list sop := [Append [65; 0] (-1) 100; Append [66; 0] (-1) 101; Append [66; 0] (-1) 116].
Lemma agent_buffer_flood_witness :
  ls_state (ab_lv (sy_buf (demo_run flood_ops).2)) = FLOOD ∧ flooded 15 (demo_run flood_ops).1.
Proof.
  split; [vm_compute; reflexivity|].
  apply (agent_buffer_flood bump_alloc bump_alloc_fresh 1 90 70 15 ltac:(lia) flood_ops demo_start _ (demo_run flood_ops).2).
  - repeat constructor; by eexists.
  - vm_compute. reflexivity.
  - vm_compute. reflexivity.
  - vm_compute. reflexivity.
Defined.
