(* ===== verification/AgentResize.v ===== *)
(** Resizing, releasing and reloading the agent's buffer, and its rate limit. *)

From S2P Require Import Prelude Monitor Float LinkedQueue AgentBuffer AgentBufferSpec AgentBufferClaims.

(** * Releasing messages *)

(** The blocks that the slots of an array point to. *)
Definition locs (m : list slot) : list loc := omap sl_data m.

Lemma locs_app m1 m2 : locs (m1 ++ m2) = locs m1 ++ locs m2.
Proof. apply omap_app. Qed.
Lemma locs_null k : locs (replicate k null_slot) = [].
Proof. by induction k. Qed.
Lemma locs_slots cs : locs (slot_of <$> cs) = cs.*1.
Proof. induction cs as [|c cs IH]; [done|]. cbn. f_equal. exact IH. Qed.
Lemma rotate_perm {A} (m : list A) j : rotate j m ≡ₚ m.
Proof. unfold rotate. by rewrite Permutation_app_comm, take_drop. Qed.
Lemma locs_rotate m j : locs (rotate j m) ≡ₚ locs m.
Proof. unfold locs. by rewrite rotate_perm. Qed.

Lemma owns_perm h cs cs' : cs ≡ₚ cs' → owns h cs → owns h cs'.
Proof. intros Hp [H1 H2]. split; [by rewrite <-Hp|]. intros l d. by rewrite <-Hp. Qed.

(** [free_slots] releases exactly the blocks of the array. *)
Lemma free_slots_owns m h keep cs :
  owns h (cs ++ keep) → locs m ≡ₚ cs.*1 → ∃ h', free_slots m h = Some h' ∧ owns h' keep.
Proof.
  revert h cs. induction m as [|[[l|] n] m IH]; intros h cs Ho Hl; simpl in *.
  - symmetry in Hl. apply Permutation_nil_r in Hl. apply fmap_nil_inv in Hl as ->. eauto.
  - assert (l ∈ cs.*1) as ((l' & d) & Heq & Hin)%list_elem_of_fmap by (rewrite <-Hl; by left). simpl in Heq. subst l'.
    apply list_elem_of_split in Hin as (cs1 & cs2 & ->).
    assert ((cs1 ++ (l, d) :: cs2) ++ keep ≡ₚ (l, d) :: (cs1 ++ cs2) ++ keep) as Hp by (rewrite <-Permutation_middle; done).
    destruct (owns_delete _ _ _ _ (owns_perm _ _ _ Hp Ho)) as [Hld Ho']. rewrite Hld. simpl.
    apply (IH _ (cs1 ++ cs2)); [done|]. apply (Permutation_cons_inv (a := l)). unfold locs in Hl. simpl in Hl.
    rewrite Hl, !fmap_app. simpl. by rewrite Permutation_middle.
  - by apply (IH _ cs).
Qed.

(** * The new array *)

(** An array that starts with the queue and has free slots after it. *)
Lemma ring_fresh M ms k :
  (length ms ≤ M)%nat → (length ms + k = S M)%nat → ring M ((slot_of <$> ms) ++ replicate k null_slot) 0 ms null_slot.
Proof.
  intros Hm Hk. assert (length ((slot_of <$> ms) ++ replicate k null_slot) = S M) as Hl
    by (rewrite length_app, length_fmap, length_replicate; lia).
  split_and!; [done|lia|done|]. unfold rotate. rewrite Nat.Div0.mod_0_l, drop_0, take_0, app_nil_r. f_equal.
  replace k with (M - length ms + 1)%nat by lia. by rewrite replicate_add.
Qed.

Lemma copy_slots_ok A Y B m P Q doff soff n :
  doff = Z.of_nat (length A) → soff = Z.of_nat (length P) → m = P ++ Y ++ Q → n = Z.of_nat (length Y) →
  (length Y ≤ length B)%nat →
  copy_slots (A ++ B) doff (Some m) soff n = Some (A ++ Y ++ drop (length Y) B).
Proof.
  intros -> -> -> -> HB. unfold copy_slots. cbn [mbind option_bind]. rewrite !length_app.
  rewrite (proj2 (Z.leb_le 0 (Z.of_nat (length Y)))), (proj2 (Z.leb_le 0 (Z.of_nat (length A)))),
    (proj2 (Z.leb_le 0 (Z.of_nat (length P)))) by lia.
  rewrite (proj2 (Z.leb_le (Z.of_nat (length A) + Z.of_nat (length Y)) _)),
    (proj2 (Z.leb_le (Z.of_nat (length P) + Z.of_nat (length Y)) _)) by lia. simpl.
  rewrite !Nat2Z.id, take_app_length, drop_app_length, take_app_length.
  replace (Z.to_nat (Z.of_nat (length A) + Z.of_nat (length Y))) with (length A + length Y)%nat by lia.
  by rewrite drop_app_add.
Qed.

Lemma ring_drop N m j ms gap :
  ring N m j ms gap → drop j m ++ take j m = (slot_of <$> ms) ++ replicate (N - length ms) null_slot ++ [gap].
Proof. intros (Hl & Hj & _ & <-). unfold rotate. by rewrite Nat.mod_small by lia. Qed.

Lemma ring_prefix N m j ms p :
  ring N m j ms null_slot → (length ms ≤ p ≤ S N)%nat →
  take p (drop j m ++ take j m) = (slot_of <$> ms) ++ replicate (p - length ms) null_slot.
Proof.
  intros Hr Hp. rewrite (ring_drop _ _ _ _ _ Hr).
  change [null_slot] with (replicate 1 null_slot). rewrite <-replicate_add.
  rewrite take_app_ge, length_fmap, take_replicate by (rewrite length_fmap; lia). do 2 f_equal. lia.
Qed.

(** Both ways in which the larger array is filled. *)
Lemma grow_wrapped N M m j i ms :
  ring N m j ms null_slot → (N < M)%nat → Z.of_nat M <= 100000 → (i ≤ j)%nat → (length ms ≤ S N - j + i)%nat →
  (let first_part := int32 (N - j + 1) in
   temp ← copy_slots (replicate (S M) null_slot) 0 (Some m) j first_part;
   copy_slots temp first_part (Some m) 0 i) =
  Some ((slot_of <$> ms) ++ replicate (S M - length ms) null_slot).
Proof.
  intros Hr HM HM' Hij Hms. pose proof Hr as (Hl & Hj & Hk & _). cbv zeta.
  unfold int32. rewrite Z.mod_small by lia.
  replace (Z.of_nat N - Z.of_nat j + 1 + 2147483648 - 2147483648) with (Z.of_nat (S N - j)) by lia.
  change (replicate (S M) null_slot) with ([] ++ replicate (S M) null_slot).
  rewrite (copy_slots_ok [] (drop j m) _ m (take j m) []);
    [| done | rewrite length_take; lia | by rewrite app_nil_r, take_drop | rewrite length_drop; lia
     | rewrite length_drop, length_replicate; lia].
  cbn [mbind option_bind app].
  rewrite (copy_slots_ok (drop j m) (take i m) _ m [] (drop i m));
    [| rewrite length_drop; lia | done | by rewrite take_drop | rewrite length_take; lia
     | rewrite drop_replicate, length_replicate, length_take, length_drop; lia].
  pose proof (ring_prefix N m j ms (S N - j + i) Hr ltac:(lia)) as Hpre.
  rewrite take_app_ge, length_drop, take_take in Hpre by (rewrite length_drop; lia).
  replace (S N - j + i - (length m - j))%nat with i in Hpre by lia. rewrite Nat.min_l in Hpre by lia.
  rewrite app_assoc, Hpre, !drop_replicate, <-app_assoc, <-replicate_add. do 3 f_equal.
  rewrite length_take, length_drop. lia.
Qed.

Lemma grow_flat N M m j ms :
  ring N m j ms null_slot → (N < M)%nat → (j + length ms < S N)%nat →
  copy_slots (replicate (S M) null_slot) 0 (Some m) j (length ms) =
  Some ((slot_of <$> ms) ++ replicate (S M - length ms) null_slot).
Proof.
  intros Hr HM Hlt. pose proof Hr as (Hl & Hj & Hk & _).
  pose proof (ring_prefix N m j ms (length ms) Hr ltac:(lia)) as Hpre.
  rewrite take_app_le, Nat.sub_diag, app_nil_r in Hpre by (rewrite length_drop; lia).
  change (replicate (S M) null_slot) with ([] ++ replicate (S M) null_slot).
  rewrite (copy_slots_ok [] (slot_of <$> ms) _ m (take j m) (drop (length ms) (drop j m)));
    [| done | rewrite length_take; lia | | by rewrite length_fmap | rewrite length_fmap, length_replicate; lia].
  { by rewrite length_fmap, drop_replicate. }
  rewrite <-Hpre, take_drop. by rewrite take_drop.
Qed.

Lemma grow_copy N M m j ms :
  ring N m j ms null_slot → (N < M)%nat → Z.of_nat M <= 100000 →
  (if Z.of_nat j <? Z.of_nat (idx j (length ms) (S N))
   then copy_slots (replicate (S M) null_slot) 0 (Some m) j (length ms)
   else
     let first_part := int32 (N - j + 1) in
     temp ← copy_slots (replicate (S M) null_slot) 0 (Some m) j first_part;
     copy_slots temp first_part (Some m) 0 (idx j (length ms) (S N))) =
  Some ((slot_of <$> ms) ++ replicate (S M - length ms) null_slot).
Proof.
  intros Hr HM HM'. pose proof Hr as (Hl & Hj & Hk & _).
  destruct (Z.ltb_spec (Z.of_nat j) (Z.of_nat (idx j (length ms) (S N)))) as [Hlt|Hge];
    rewrite idx_cases in * by lia; destruct (Nat.ltb_spec (j + length ms) (S N)); try lia.
  - by apply grow_flat with N.
  - apply (grow_wrapped N); [done..|lia|lia].
  - apply (grow_wrapped N); [done..|lia|lia].
Qed.

(** The loop that keeps the oldest messages moves a prefix of the queue. *)
Lemma retain_ok N j ms1 ms2 tail pre r old :
  (j < S N)%nat → Z.of_nat N <= 100000 → length old = S N →
  rotate j old = replicate (length pre) null_slot ++ (slot_of <$> ms1) ++ (slot_of <$> ms2) ++ tail →
  (length ms1 ≤ r)%nat →
  ∃ old', retain (length ms1) old (pre ++ replicate r null_slot) j (length pre) N =
      Some (old', pre ++ (slot_of <$> ms1) ++ replicate (r - length ms1) null_slot) ∧
    length old' = S N ∧
    rotate j old' = replicate (length pre + length ms1) null_slot ++ (slot_of <$> ms2) ++ tail.
Proof.
  intros Hj HN. revert pre r old. induction ms1 as [|c ms1 IH]; intros pre r old Hl Hrot Hr; cbn [length retain].
  - exists old. rewrite Nat.sub_0_r, Nat.add_0_r. done.
  - simpl length in Hr.
    assert (length pre < S N)%nat as Hpre.
    { rewrite <-Hl, <-(length_rotate old j), Hrot, !length_app, length_replicate. simpl. lia. }
    unfold wrap32. rewrite (Z.mod_small (N + 1)), (Z.mod_small (j + length pre)) by lia.
    rewrite (proj2 (Z.eqb_neq _ _)) by lia.
    replace ((Z.of_nat j + Z.of_nat (length pre)) mod (Z.of_nat N + 1)) with (Z.of_nat (idx j (length pre) (S N)))
      by (unfold idx; rewrite Nat2Z.inj_mod; f_equal; lia).
    assert (old !! idx j (length pre) (S N) = Some (slot_of c)) as Hc.
    { rewrite <-Hl, <-rotate_at, Hrot by lia. rewrite lookup_app_r by (rewrite length_replicate; lia).
      by rewrite length_replicate, Nat.sub_diag. }
    rewrite get_slot_ok, Hc. cbn [mbind option_bind slot_of sl_data].
    rewrite (set_slot_ok (pre ++ replicate r null_slot)) by (rewrite length_app, length_replicate; lia).
    cbn [mbind option_bind]. rewrite set_slot_ok by (rewrite Hl; apply idx_lt; lia). cbn [mbind option_bind]. destruct r as [|r]; [lia|].
    replace (<[length pre := slot_of c]> (pre ++ replicate (S r) null_slot))
      with ((pre ++ [slot_of c]) ++ replicate r null_slot).
    2: { rewrite insert_app_r_alt, Nat.sub_diag by lia. simpl. by rewrite <-app_assoc. }
    replace (Z.of_nat (length pre) + 1) with (Z.of_nat (length (pre ++ [slot_of c]))) by (rewrite length_app; simpl; lia).
    destruct (IH (pre ++ [slot_of c]) r (<[idx j (length pre) (S N) := null_slot]> old)) as (old' & -> & Hl' & Hrot').
    + by rewrite length_insert.
    + rewrite <-Hl, rotate_set, Hrot by lia. rewrite insert_app_r_alt, length_replicate, Nat.sub_diag by (rewrite length_replicate; lia).
      simpl. rewrite length_app, replicate_add, <-!app_assoc. done.
    + lia.
    + exists old'. rewrite <-app_assoc. split_and!; [done|done|]. rewrite Hrot', length_app. simpl. do 2 f_equal. lia.
Qed.

(** * [resize_swap] *)

(** It does not look at the fields of [agt]. *)
Lemma swap_agt b x y cap desired c :
  resize_swap (with_agt b x y) cap desired c = (λ b', with_agt b' x y) <$> resize_swap b cap desired c.
Proof.
  unfold resize_swap. cbn [with_agt ab_i ab_j ab_buffer ab_msgs]. destruct (cap <? desired).
  - match goal with |- (?e ≫= _) = _ => by destruct e end.
  - destruct (ab_buffer b) as [old|]; [|done]. cbn [mbind option_bind].
    destruct (retain _ old _ _ _ _) as [[old' temp]|]; [|done]. cbn [mbind option_bind].
    destruct (cap <? length old'); [|done]. by destruct (free_slots _ _).
Qed.

Section resize.
Context (N M : nat) (warn_level normal_level tolerance : Z).
Context (HN : 0 < N <= 100000) (HM : 0 < M <= 100000).

Lemma shrink_ok b m j ms :
  ab_buffer b = Some m → ring N m j ms null_slot → ab_j b = Z.of_nat j → owns (ab_msgs b) ms → (M < N)%nat →
  ∃ b', resize_swap b N M (length ms) = Some b' ∧
    owns (ab_msgs b') (take M ms) ∧ ab_buffer b' = Some ((slot_of <$> take M ms) ++ replicate (S M - length (take M ms)) null_slot) ∧
    ab_j b' = 0 ∧ ab_i b' = length (take M ms) ∧ ab_lv b' = ab_lv b ∧
    agt_buffer b' = agt_buffer b ∧ agt_buflength b' = agt_buflength b ∧ ab_warn_level b' = ab_warn_level b ∧
    ab_normal_level b' = ab_normal_level b ∧ ab_tolerance b' = ab_tolerance b.
Proof using HN HM.
  intros Hb Hr Hj Ho HMN. pose proof Hr as (Hl & Hjlt & Hk & Hrot). unfold resize_swap.
  rewrite (proj2 (Z.ltb_ge _ _)) by lia. rewrite Hb. cbn [mbind option_bind].
  replace (if Z.of_nat (length ms) <? Z.of_nat M then Z.of_nat (length ms) else Z.of_nat M) with (Z.of_nat (length (take M ms)))
    by (rewrite length_take; destruct (Z.ltb_spec (Z.of_nat (length ms)) (Z.of_nat M)); lia).
  assert (length (take M ms) ≤ M)%nat as Htk by (rewrite length_take; lia).
  replace (Z.to_nat (Z.of_nat M + 1)) with (S M) by lia. rewrite Nat2Z.id, Hj.
  destruct (retain_ok N j (take M ms) (drop M ms) (replicate (N - length ms) null_slot ++ [null_slot]) [] (S M) m)
    as (old & Hret & Hlo & Hro); [done|lia|done| |lia|].
  { simpl. by rewrite app_assoc, <-fmap_app, take_drop. }
  rewrite app_nil_l, (app_nil_l (_ ++ _)) in Hret. change (Z.of_nat (length [])) with 0 in Hret. rewrite Hret. cbn [mbind option_bind].
  rewrite (proj2 (Z.ltb_lt _ _)) by lia. rewrite (take_ge old) by lia.
  destruct (free_slots_owns old (ab_msgs b) (take M ms) (drop M ms)) as (h & Hh & Ho').
  { eapply owns_perm; [|done]. by rewrite Permutation_app_comm, take_drop. }
  { rewrite <-(locs_rotate old j), Hro, !locs_app, !locs_null, locs_slots. simpl. by rewrite app_nil_r. }
  rewrite Hh. cbn [mbind option_bind]. eexists. split; [done|]. done.
Qed.

Lemma grow_ok b m j ms :
  ab_buffer b = Some m → ring N m j ms null_slot → ab_j b = Z.of_nat j →
  ab_i b = Z.of_nat (idx j (length ms) (S N)) → owns (ab_msgs b) ms → (N < M)%nat →
  resize_swap b N M (length ms) =
  Some (with_ij (with_mem b (Some ((slot_of <$> ms) ++ replicate (S M - length ms) null_slot)) (ab_msgs b)) (length ms) 0).
Proof using HN HM.
  intros Hb Hr Hj Hi Ho HMN. unfold resize_swap. rewrite (proj2 (Z.ltb_lt _ _)) by lia. rewrite Hb, Hj, Hi.
  replace (Z.to_nat (Z.of_nat M + 1)) with (S M) by lia.
  pose proof (grow_copy N M m j ms Hr HMN ltac:(lia)) as Hg. cbv zeta in Hg. by rewrite Hg.
Qed.

(** With the messages counted, the exchange of the arrays gives the ring of
    the new capacity with the oldest messages. *)
Lemma swap_ok b q :
  rep N warn_level normal_level tolerance (Sys b D_idle) (Spec q (ab_lv b) S_idle) → N ≠ M →
  ∃ b', resize_swap b N M (length q) = Some b' ∧ agt_buffer b' = 1 ∧ agt_buflength b' = N ∧
    rep M warn_level normal_level tolerance (Sys (with_agt b' 1 M) D_idle) (Spec (take M q) (ab_lv b) S_idle).
Proof using HN HM.
  intros ([H1 H2 H3 H4 H5] & _ & m & j & ms & fl & gap & Hb & Hr & Hj & Hi & Ho & Hq & -> & ->) Hne. simpl in *.
  assert (length q = length ms) as -> by (by rewrite Hq, length_fmap).
  assert (∀ k, (k ≤ M)%nat → Z.of_nat k = Z.of_nat (idx 0 k (S M))) as Hidx.
  { intros k Hk. rewrite idx_cases by lia. destruct (Nat.ltb_spec (0 + k) (S M)); lia. }
  destruct (decide (M < N)%nat) as [Hlt|Hge].
  - destruct (shrink_ok b m j ms Hb Hr Hj Ho Hlt) as (b' & Hs & Ho' & Hb' & Hj' & Hi' & Hlv & E1 & E2 & E3 & E4 & E5).
    exists b'. split; [done|]. split; [congruence|]. split; [congruence|]. split; [by constructor; simpl; congruence|].
    split; [simpl; congruence|].
    assert (length (take M ms) ≤ M)%nat by (rewrite length_take; lia).
    exists ((slot_of <$> take M ms) ++ replicate (S M - length (take M ms)) null_slot), 0%nat, (take M ms), [], null_slot.
    simpl. split_and!; try done; [apply ring_fresh; lia|rewrite Hi'; by apply Hidx|by rewrite Hq, fmap_take].
  - rewrite (grow_ok b m j ms Hb Hr Hj Hi Ho ltac:(lia)). eexists. split; [done|]. simpl. split; [done|]. split; [done|].
    split; [by constructor|]. split; [done|]. pose proof Hr as (_ & _ & Hk & _).
    exists ((slot_of <$> ms) ++ replicate (S M - length ms) null_slot), 0%nat, ms, [], null_slot.
    simpl. split_and!; try done; [apply ring_fresh; lia|apply Hidx; lia|]. rewrite take_ge; [done|]. rewrite Hq, length_fmap. lia.
Qed.

(** Resizing the agent's buffer keeps the oldest messages: called while
    [agt->buflength] is still the old capacity and the dispatcher holds no
    message, [w_agentd_buffer_resize] succeeds, and with the new capacity in
    place the buffer is the abstract one with the first [M] messages, the
    others released. *)
Theorem agent_buffer_resize_keeps b q :
  rep N warn_level normal_level tolerance (Sys b D_idle) (Spec q (ab_lv b) S_idle) → N ≠ M →
  ∃ b', w_agentd_buffer_resize b N M = Some (0, b') ∧
    rep M warn_level normal_level tolerance (Sys (with_agt b' 1 M) D_idle) (Spec (take M q) (ab_lv b) S_idle) ∧
    size (ab_msgs b') = length (take M q).
Proof using HN HM.
  intros Hrep Hne. destruct (swap_ok b q Hrep Hne) as (b' & Hs & H1 & H2 & Hrep').
  pose proof (length_sim bump_alloc N _ _ _ ltac:(unfold INT_MAX; lia) _ _ Hrep) as Hlen. simpl in Hlen.
  unfold w_agentd_buffer_resize, resize_count.
  rewrite (proj2 (Z.leb_gt _ _)), (proj2 (Z.eqb_neq _ _)) by lia.
  destruct (w_agentd_get_buffer_lenght b) as [c|]; [|done]. cbn [mbind option_bind] in Hlen |- *.
  injection Hlen as ->. unfold count. simpl.
  pose proof Hrep as (_ & _ & m & j & ms & fl & gap & _ & (_ & _ & Hk & _) & _ & _ & _ & Hq & _). simpl in Hq.
  assert (length q ≤ N)%nat by (rewrite Hq, length_fmap; lia).
  rewrite (proj2 (Z.ltb_ge _ _)) by lia. rewrite wrap32_id by (unfold uint32; lia).
  rewrite (proj2 (Z.ltb_ge _ _)) by lia. rewrite Hs. simpl. exists b'. split_and!; [done|done|].
  destruct Hrep' as (_ & _ & m' & j' & ms' & fl' & gap' & _ & _ & _ & _ & Ho & Hq' & Hp). simpl in *.
  destruct Hp as [-> _]. by rewrite (owns_size _ _ Ho), Hq', length_fmap.
Qed.

(** A reload of the configuration keeps every message when the ring does not
    wrap around and they fit into the new capacity. *)
Theorem agentd_reload_keeps b q :
  rep N warn_level normal_level tolerance (Sys b D_idle) (Spec q (ab_lv b) S_idle) → N ≠ M →
  ab_j b <= ab_i b → (length q ≤ M)%nat →
  ∃ b', agentd_reload b 1 M warn_level normal_level tolerance = Some (false, b') ∧
    rep M warn_level normal_level tolerance (Sys b' D_idle) (Spec q (ab_lv b) S_idle).
Proof using HN HM.
  intros Hrep Hne Hji Hq. destruct (swap_ok b q Hrep Hne) as (b' & Hs & H1 & H2 & Hrep').
  pose proof Hrep as ([Hc1 Hc2 _ _ _] & _ & m & j & ms & fl & gap & _ & (_ & Hj & Hk & _) & Hbj & Hbi & _ & Hqm & _).
  simpl in *. assert (length q = length ms) as Hlq by (by rewrite Hqm, length_fmap).
  assert (ab_i b - ab_j b = Z.of_nat (length q)) as Hd.
  { rewrite Hbi, Hbj, idx_cases in * by lia. destruct (Nat.ltb_spec (j + length ms) (S N)); lia. }
  unfold agentd_reload. rewrite Hc1, Hc2. simpl. unfold w_agentd_buffer_resize, resize_count.
  rewrite (proj2 (Z.leb_gt _ _)), (proj2 (Z.eqb_neq _ _)) by lia.
  unfold w_agentd_get_buffer_lenght, ring_size. simpl. unfold INT_MAX.
  rewrite (proj2 (Z.leb_le _ _)), (proj2 (Z.ltb_lt (Z.of_nat M) _)) by lia. simpl.
  rewrite Hd, Z.rem_small, (proj2 (Z.ltb_ge (Z.of_nat (length q)) 0)) by lia.
  rewrite wrap32_id by (unfold uint32; lia). rewrite !(proj2 (Z.ltb_ge _ _)) by lia.
  rewrite take_ge in Hrep' by lia. eexists. split; [|exact Hrep']. by rewrite swap_agt, Hs.
Qed.
End resize.

(** Three events in a ring of three: resizing to two keeps the first two. *)
Definition three : list sop := [Append [65; 0] (-1) 0; Append [66; 0] (-1) 0; Append [67; 0] (-1) 0].
Lemma three_rep :
  ∃ b, rep 3 90 70 15 (Sys b D_idle) (Spec [[65; 0]; [66; 0]; [67; 0]] (ab_lv b) S_idle) ∧ ab_j b = 0 ∧ ab_i b = 3.
Proof.
  destruct (reach bump_alloc bump_alloc_fresh 3 90 70 15 ltac:(lia) three) as (b0 & tr & [b pc] & a & Hb & Htr & Hsp & Hrep & _).
  { repeat constructor; by eexists. }
  vm_compute in Hb. injection Hb as <-. vm_compute in Htr. injection Htr as <- <- <-.
  vm_compute in Hsp. injection Hsp as <-. eexists. split; [exact Hrep|done].
Qed.
Lemma agent_buffer_resize_keeps_witness :
  ∃ b b', ab_i b = 3 ∧ w_agentd_buffer_resize b 3 2 = Some (0, b') ∧
    rep 2 90 70 15 (Sys (with_agt b' 1 2) D_idle) (Spec [[65; 0]; [66; 0]] (ab_lv b) S_idle) ∧ size (ab_msgs b') = 2%nat.
Proof.
  destruct three_rep as (b & Hrep & _ & Hi). exists b.
  destruct (agent_buffer_resize_keeps 3 2 90 70 15 ltac:(lia) ltac:(lia) b _ Hrep ltac:(lia)) as (b' & H1 & H2 & H3).
  exists b'. split_and!; [exact Hi|exact H1|exact H2|exact H3].
Defined.
Lemma agentd_reload_keeps_witness :
  ∃ b b', ab_i b = 3 ∧ agentd_reload b 1 9 90 70 15 = Some (false, b') ∧
    rep 9 90 70 15 (Sys b' D_idle) (Spec [[65; 0]; [66; 0]; [67; 0]] (ab_lv b) S_idle).
Proof.
  destruct three_rep as (b & Hrep & Hj & Hi). exists b.
  destruct (agentd_reload_keeps 3 9 90 70 15 ltac:(lia) ltac:(lia) b _ Hrep ltac:(lia)) as (b' & H1 & H2).
  - rewrite Hj, Hi. lia.
  - simpl. lia.
  - exists b'. split_and!; [exact Hi|exact H1|exact H2].
Defined.

(** * The thresholds and the rate limit *)

(** At the shipped values (a queue of 5000, warning at 90%, normal at 70%) the
    rounding of the [float] quotient puts the warning above 90% and not at it. *)
Lemma agent_thresholds :
  (warn 90 4500 5001, warn 90 4501 5001) = (false, true) ∧
  (nowarn 90 4500 5001, nowarn 90 4501 5001) = (true, false) ∧
  (normal 70 3500 5001, normal 70 3501 5001) = (true, false).
Proof. vm_compute. done. Qed.

(** The time in nanoseconds. *)
Definition ns (t : timespec) : Z := tv_sec t * 1000000000 + tv_nsec t.
Definition norm (t : timespec) : Prop := 0 <= tv_nsec t < 1000000000.

Lemma time_sub_ns a b : norm a → norm b → ns (time_sub a b) = ns a - ns b ∧ norm (time_sub a b).
Proof.
  unfold norm, ns, time_sub. intros Ha Hb. destruct (Z.ltb_spec (tv_nsec a - tv_nsec b) 0); simpl; lia.
Qed.

(** The dispatcher respects [events_per_second]: when an iteration took less
    than the interval, it sleeps for the rest of it exactly, and it does not
    sleep when it took longer; the time between two messages is never less
    than the interval. *)
Theorem dispatch_rate eps ts0 ts1 :
  1 <= eps <= 1000 → norm ts0 → norm ts1 → ns ts0 <= ns ts1 →
  let interval := 1000000000 / eps in
  let elapsed := ns ts1 - ns ts0 in
  match dispatch_delay eps ts0 ts1 with
  | Some t => norm t ∧ 0 <= tv_sec t ∧ elapsed + ns t = interval
  | None => interval < elapsed
  end.
Proof.
  intros He H0 H1 Hle interval elapsed. destruct (time_sub_ns ts1 ts0 H1 H0) as [Hn Hd].
  unfold dispatch_delay. fold elapsed in Hn. rewrite (proj2 (Z.leb_le 0 _)) by (unfold ns, norm in *; lia).
  unfold delay. rewrite (Z.quot_div_nonneg 1000000000 eps) by lia. fold interval.
  assert (0 < interval <= 1000000000) as Hi.
  { unfold interval. split; [apply Z.div_str_pos; lia|]. apply Z.div_le_upper_bound; lia. }
  rewrite (Z.quot_div_nonneg interval), Z.rem_mod_nonneg by lia.
  set (t0 := Timespec (interval / 1000000000) (interval mod 1000000000)).
  assert (norm t0) as Ht0 by (unfold norm, t0; simpl; apply Z.mod_pos_bound; lia).
  assert (ns t0 = interval) as Hns by (unfold ns, t0; simpl; pose proof (Z.div_mod interval 1000000000); lia).
  destruct (time_sub_ns t0 (time_sub ts1 ts0) Ht0 Hd) as [Hn2 Hd2]. rewrite Hns, Hn in Hn2.
  destruct (Z.leb_spec 0 (tv_sec (time_sub t0 (time_sub ts1 ts0)))); [split_and!; [done|done|lia]|].
  unfold ns, norm in *. lia.
Qed.
Lemma dispatch_rate_witness :
  dispatch_delay 500 (Timespec 10 999999999) (Timespec 11 499) = Some (Timespec 0 1999500) ∧
  match dispatch_delay 500 (Timespec 10 999999999) (Timespec 11 499) with
  | Some t => norm t ∧ 0 <= tv_sec t ∧ ns (Timespec 11 499) - ns (Timespec 10 999999999) + ns t = 1000000000 / 500
  | None => 1000000000 / 500 < ns (Timespec 11 499) - ns (Timespec 10 999999999)
  end.
Proof. split; [reflexivity|]. apply (dispatch_rate 500); unfold norm, ns; simpl; lia. Defined.

(** * The reload breaks the buffer *)

Definition msg_of (c : Z) : sop := Append [c; 0] (-1) 0.
Definition round : list sop := [Dispatch; Dispatch; Dispatch].

(** A ring of three that wraps around: three events, two of them sent, one more. *)
Definition wrapped_run : option sys :=
  b ← buffer_init (agent_start 3) 90 70 15;
  '(_, s) ← interleave (sys_exec bump_alloc) ([msg_of 65; msg_of 66; msg_of 67] ++ round ++ round ++ [msg_of 68; msg_of 69])
    (Sys b D_idle);
  Some s.

