(* ===== verification/NetBuffer.v ===== *)
(** The network buffers of the manager (src/remoted/netbuffer.c): the bytes
    that come in on a TCP socket are cut into the messages that were framed by
    a length of four bytes, and the messages that go out are framed and kept
    in a byte queue until the socket takes them.  Also print_hex_string of
    shared/string_op.c, with which a corrupt header is logged.

    [recv] and [send] are the environment: what they return is an argument of
    the operation.  Each function holds the mutex from beginning to end, but
    for nb_queue, which releases it between its two attempts. *)

From S2P Require Import Prelude Monitor BQueue.

Definition OS_MAXSTR : Z := 65536.
Definition OS_SIZE_2048 : Z := 2048.
Definition OS_SUCCESS : Z := 0.
Definition OS_INVALID : Z := -1.

(** * [print_hex_string] *)

Definition hex_digit (n : Z) : Z := if n <? 10 then 48 + n else 87 + n.

(** ["%.2x"]: at least two hexadecimal digits. *)
Fixpoint hex_digits (fuel : nat) (n : Z) : cstr :=
  match fuel with
  | O => []
  | S fuel => if n <? 16 then [hex_digit n] else hex_digits fuel (n / 16) ++ [hex_digit (n mod 16)]
  end.
Definition print_x2 (n : Z) : cstr :=
  let d := hex_digits 8 n in if strlen d <? 2 then 48 :: d else d.

(** The loop: [k] bytes are done; a [char] is passed to [sprintf] as an [int]. *)
Fixpoint hex_loop (fuel : nat) (src : block) (k : Z) (src_size limit : Z) (dst : block) : option (Z * block) :=
  match fuel with
  | O => None
  | S fuel =>
      if (k <? limit) && (k <? src_size) then
        c ← src !! Z.to_nat k; c ← c;
        dst ← write_at dst (Z.to_nat (2 * k)) (Some <$> print_x2 (wrap32 (schar c)) ++ [0]);
        hex_loop fuel src (k + 1) src_size limit dst
      else Some (k, dst)
  end.
Definition print_hex_string (src_buf : option block) (src_size : Z) (dst_buf : option block) (dst_size : Z)
    : option (Z * option block) :=
  match src_buf, dst_buf with
  | Some src, Some dst =>
      let limit := wrap32 (dst_size - 1) / 2 in
      '(k, dst) ← hex_loop (S (length dst)) src 0 src_size limit dst;
      dst ← write_at dst (Z.to_nat (2 * k)) [Some 0];
      Some (OS_SUCCESS, Some dst)
  | _, _ => Some (OS_INVALID, dst_buf)
  end.

Example print_hex_smoke :
  print_hex_string (Some (Some <$> [0; 10; 127])) 3 (Some (replicate 9 None)) 9 =
  Some (0, Some ((Some <$> [48; 48; 48; 97; 55; 102; 0]) ++ [None; None])).
Proof. reflexivity. Qed.

(** * State *)

(** [sockbuffer_t]: [sb_data] is the block, of [sb_data_size] bytes. *)
Record sockbuffer := SockBuffer {
  sb_peer_info : Z;
  sb_data : option block;
  sb_data_size : Z;
  sb_data_len : Z;
  sb_bqueue : option bqueue
}.
Definition sb_zero : sockbuffer := SockBuffer 0 None 0 0 None.

(** [netbuffer_t]: an entry that was never opened is [None]. *)
Record netbuffer := NetBuffer { nb_max_fd : Z; nb_buffers : option (list (option sockbuffer)) }.

(** The settings of remoted. *)
Record nb_conf := NbConf { receive_chunk : Z; send_chunk : Z; send_buffer_size : Z; buffer_relax : Z }.

(** [buffer->buffers[sock]] *)
Definition nb_get (nb : netbuffer) (sock : Z) : option sockbuffer :=
  l ← nb_buffers nb; if sock <? 0 then None else mjoin (l !! Z.to_nat sock).
Definition nb_set (nb : netbuffer) (sock : Z) (sb : sockbuffer) : option netbuffer :=
  l ← nb_buffers nb;
  if (0 <=? sock) && (sock <? length l)
  then Some (NetBuffer (nb_max_fd nb) (Some (<[Z.to_nat sock := Some sb]> l))) else None.

Definition with_data (sb : sockbuffer) (d : option block) (size len : Z) : sockbuffer :=
  SockBuffer (sb_peer_info sb) d size len (sb_bqueue sb).
Definition with_bqueue (sb : sockbuffer) (q : option bqueue) : sockbuffer :=
  SockBuffer (sb_peer_info sb) (sb_data sb) (sb_data_size sb) (sb_data_len sb) q.

(** * Operations *)

(** [nb_open] *)
Definition nb_open (cf : nb_conf) (nb : netbuffer) (sock peer_info : Z) : option netbuffer :=
  let nb :=
    if nb_max_fd nb <=? sock then
      let l := default [] (nb_buffers nb) in
      let n := Z.to_nat (sock + 1) in
      NetBuffer sock (Some (take n l ++ replicate (n - length l) None))
    else nb in
  nb_set nb sock (SockBuffer peer_info None 0 0 (bqueue_init (send_buffer_size cf) BQUEUE_SHRINK)).

(** [nb_close] *)
Definition nb_close (nb : netbuffer) (sock : Z) : option netbuffer :=
  _ ← nb_get nb sock; nb_set nb sock sb_zero.

(** [*(uint32_t * )(data + i)] on a little-endian host, for which [wnet_order]
    is the identity. *)
Definition le32 (n : Z) : list Z := [n mod 256; n / 256 mod 256; n / 65536 mod 256; n / 16777216 mod 256].
Definition of_le32 (d : list Z) : Z :=
  match d with [a; b; c; e] => a + 256 * b + 65536 * c + 16777216 * e | _ => 0 end.

(** The bytes of initialised cells. *)
Definition get_bytes (m : block) (off n : Z) : option (list Z) :=
  if (0 <=? off) && (0 <=? n) then d ← read_at m (Z.to_nat off) (Z.to_nat n); mapM id d else None.

(** The loop that dispatches: the messages pushed, whether a header was
    corrupt, and where it stopped. *)
Fixpoint dispatch_loop (fuel : nat) (m : block) (data_len i : Z) : option (list (list Z) * bool * Z) :=
  match fuel with
  | O => None
  | S fuel =>
      if i + 4 <=? data_len then
        h ← get_bytes m i 4;
        let cur_len := of_le32 h in
        if OS_MAXSTR <? cur_len then Some ([], true, i)
        else
          let cur_offset := i + 4 in
          if data_len <? cur_offset + cur_len then Some ([], false, i)
          else
            msg ← get_bytes m cur_offset cur_len;
            '(ms, bad, i) ← dispatch_loop fuel m data_len (cur_offset + cur_len);
            Some (msg :: ms, bad, i)
      else Some ([], false, i)
  end.

(** The end of [nb_recv]: the rest moves to the start and the block shrinks. *)
Definition relax (cf : nb_conf) (sb : sockbuffer) (m : block) (i : Z) : option sockbuffer :=
  let data_len := sb_data_len sb in
  m ← (if i <? data_len then memmove m 0 (Z.to_nat i) (Z.to_nat (data_len - i)) else Some m);
  let data_len := data_len - i in
  Some (if buffer_relax cf =? 0 then with_data sb (Some m) (sb_data_size sb) data_len
        else if buffer_relax cf =? 1 then
          let size := if receive_chunk cf <? data_len then data_len else receive_chunk cf in
          with_data sb (Some (realloc m (Z.to_nat size))) size data_len
        else if negb (data_len =? 0) then with_data sb (Some (realloc m (Z.to_nat data_len))) data_len data_len
        else with_data sb None 0 data_len).

(** What [recv] did: it failed, the peer has closed, or there are bytes. *)
Inductive recv_ret := RecvFail | RecvClosed | RecvData (d : list Z).

(** [nb_recv]: the return value and the messages pushed to the queue. *)
Definition nb_recv (cf : nb_conf) (nb : netbuffer) (sock : Z) (r : recv_ret) : option (Z * list (list Z) * netbuffer) :=
  sb ← nb_get nb sock;
  let data_ext := wrap64 (sb_data_len sb + receive_chunk cf) in
  let sb :=
    if sb_data_size sb <? data_ext
    then with_data sb (Some (realloc (default [] (sb_data sb)) (Z.to_nat data_ext))) data_ext (sb_data_len sb)
    else sb in
  nb ← nb_set nb sock sb;
  match r with
  | RecvFail => Some (-1, [], nb)
  | RecvClosed => Some (0, [], nb)
  | RecvData d =>
      m ← sb_data sb;
      m ← write_at m (Z.to_nat (sb_data_len sb)) (Some <$> d);
      let sb := with_data sb (Some m) (sb_data_size sb) (sb_data_len sb + length d) in
      '(ms, bad, i) ← dispatch_loop (S (length m)) m (sb_data_len sb) 0;
      if bad : bool then
        _ ← print_hex_string (Some (drop (Z.to_nat i) m)) (wrap32 (sb_data_len sb - i))
              (Some (replicate (Z.to_nat (OS_SIZE_2048 + 1)) (Some 0))) (OS_SIZE_2048 + 1);
        nb ← nb_set nb sock sb; Some (-2, ms, nb)
      else
        sb ← (if 0 <? i then relax cf sb m i else Some sb);
        nb ← nb_set nb sock sb; Some (Z.of_nat (length d), ms, nb)
  end.

(** [wnotify_modify] *)
Inductive wnotify := WO_READ | WO_READ_WRITE.

(** [nb_send]; [send] is what the call returns for the bytes it was given: the
    return value, the bytes that left and the change of notification. *)
Definition nb_send (cf : nb_conf) (nb : netbuffer) (socket : Z) (send : Z → Z)
    : option (Z * block * option wnotify * netbuffer) :=
  sb ← nb_get nb socket;
  match sb_bqueue sb with
  | None => Some (0, [], None, nb)
  | Some q =>
      '(p, q) ← bqueue_peek q (Z.to_nat (send_chunk cf)) 0;
      match p with
      | Wait => None
      | Ret data =>
          let peeked := Z.of_nat (length data) in
          let sent := if 0 <? peeked then send peeked else 0 in
          q ← (if 0 <? sent then '(_, q) ← bqueue_drop q (Z.to_nat sent); Some q else Some q);
          let ev := if (peeked =? 0) || (bqueue_used q =? 0)%nat then Some WO_READ else None in
          nb ← nb_set nb socket (with_bqueue sb (Some q));
          Some (sent, take (Z.to_nat sent) data, ev, nb)
      end
  end.

(** One attempt of [nb_queue]: whether the message was queued. *)
Definition nb_try (nb : netbuffer) (socket : Z) (data : list Z) : option (bool * option wnotify * netbuffer) :=
  sb ← nb_get nb socket;
  match sb_bqueue sb with
  | None => Some (false, None, nb)
  | Some q =>
      '(p, q) ← bqueue_push q data 0;
      match p with
      | Wait => None
      | Ret r =>
          nb ← nb_set nb socket (with_bqueue sb (Some q));
          Some (if r =? 0 then (true, if (bqueue_used q =? length data)%nat then Some WO_READ_WRITE else None, nb)
                else (false, None, nb))
      end
  end.

(** [nb_queue]: [other] is what the other threads do to the buffers while it
    sleeps before its second attempt; a socket without a queue has no second. *)
Definition nb_frame (crypt_msg : list Z) : list Z := le32 (wrap32 (length crypt_msg)) ++ crypt_msg.
Definition nb_queue (nb : netbuffer) (socket : Z) (crypt_msg : list Z) (other : netbuffer → netbuffer)
    : option (Z * netbuffer) :=
  sb ← nb_get nb socket;
  match sb_bqueue sb with
  | None => Some (-1, nb)
  | Some _ =>
      '(ok, _, nb) ← nb_try nb socket (nb_frame crypt_msg);
      if ok : bool then Some (0, nb)
      else
        '(ok, _, nb) ← nb_try (other nb) socket (nb_frame crypt_msg);
        Some (if ok : bool then 0 else -1, nb)
  end.
