(* ===== verification/NetBufferSpec.v ===== *)
(** The network buffers deliver the framed messages, whatever the pieces in
    which the bytes travel. *)

From S2P Require Import Prelude Monitor BQueue NetBuffer.

(** * Frames *)

Definition frames (ms : list (list Z)) : list Z := ms ≫= nb_frame.
Definition short (m : list Z) : Prop := Z.of_nat (length m) <= OS_MAXSTR.

Lemma of_le32_le32 n : uint32 n → of_le32 (le32 n) = n.
Proof.
  unfold uint32. intros Hn. simpl.
  pose proof (Z.div_mod n 256 ltac:(lia)). pose proof (Z.div_mod (n / 256) 256 ltac:(lia)).
  pose proof (Z.div_mod (n / 65536) 256 ltac:(lia)). rewrite !Z.div_div in * by lia.
  change (256 * 256) with 65536 in *. change (65536 * 256) with 16777216 in *.
  rewrite (Z.mod_small (n / 16777216)); [lia|]. split; [apply Z.div_pos; lia|]. apply Z.div_lt_upper_bound; lia.
Qed.

(** A header reads as the length of its message. *)
Lemma frame_header m xs : short m → of_le32 (take 4 (nb_frame m ++ xs)) = Z.of_nat (length m).
Proof.
  unfold short, OS_MAXSTR. intros Hm. unfold nb_frame. rewrite wrap32_id by (unfold uint32; lia).
  change (take 4 ((le32 (length m) ++ m) ++ xs)) with (le32 (Z.of_nat (length m))).
  apply of_le32_le32. unfold uint32. lia.
Qed.
Lemma length_frame m : length (nb_frame m) = (4 + length m)%nat.
Proof. done. Qed.

(** The bytes from which no message can be cut yet. *)
Definition incomplete (xs : list Z) : Prop :=
  (length xs < 4)%nat ∨
  (of_le32 (take 4 xs) <= OS_MAXSTR ∧ Z.of_nat (length xs) < 4 + of_le32 (take 4 xs)).

(** The messages that lead a stream, and what is left. *)
Inductive parses : list Z → list (list Z) → list Z → Prop :=
  | parses_rest xs : incomplete xs → parses xs [] xs
  | parses_msg m xs ms r : short m → parses xs ms r → parses (nb_frame m ++ xs) (m :: ms) r.

Lemma parses_incomplete xs ms r : parses xs ms r → incomplete r.
Proof. by induction 1. Qed.
Lemma parses_length xs ms r : parses xs ms r → (length r ≤ length xs)%nat.
Proof. induction 1 as [|m xs ms r _ _ IH]; [done|]. rewrite length_app, length_frame. lia. Qed.
Lemma incomplete_bound xs : incomplete xs → Z.of_nat (length xs) < 4 + OS_MAXSTR.
Proof. unfold incomplete, OS_MAXSTR. lia. Qed.
Lemma incomplete_nil : incomplete [].
Proof. left. simpl. lia. Qed.

(** A part of a framed stream is cut into whole messages and a piece of the
    next one. *)
Lemma parses_prefix todo xs fut :
  Forall short todo → xs ++ fut = frames todo →
  ∃ ms todo' r, todo = ms ++ todo' ∧ parses xs ms r ∧ r ++ fut = frames todo'.
Proof.
  intros Ht. revert xs. induction Ht as [|m todo Hm Ht IH]; intros xs Hxs.
  - exists [], [], []. apply app_eq_nil in Hxs as [-> ->]. split_and!; [done|constructor; apply incomplete_nil|done].
  - change (frames (m :: todo)) with (nb_frame m ++ frames todo) in Hxs.
    destruct (decide (length (nb_frame m) ≤ length xs)%nat) as [Hle|Hgt].
    + assert (xs = nb_frame m ++ drop (length (nb_frame m)) xs) as Hd.
      { rewrite <-(take_drop (length (nb_frame m)) xs) at 1. f_equal.
        rewrite <-(take_app_le xs fut) by done. by rewrite Hxs, take_app_length. }
      destruct (IH (drop (length (nb_frame m)) xs)) as (ms & todo' & r & -> & Hp & Hr).
      { apply (app_inv_head (nb_frame m)). by rewrite app_assoc, <-Hd. }
      exists (m :: ms), todo', r. split_and!; [done| |done]. rewrite Hd. by constructor.
    + exists [], (m :: todo), xs. split_and!; [done| |done]. constructor.
      rewrite length_frame in Hgt. destruct (decide (length xs < 4)%nat) as [|H4]; [by left|]. right.
      assert (take 4 xs = take 4 (nb_frame m ++ frames todo)) as ->.
      { rewrite <-Hxs. by rewrite take_app_le by lia. }
      rewrite frame_header by done. unfold short in Hm. lia.
Qed.

(** The whole stream leaves nothing. *)
Lemma incomplete_frames todo : Forall short todo → incomplete (frames todo) → todo = [].
Proof.
  intros Ht Hi. destruct Ht as [|m todo Hm _]; [done|]. exfalso.
  change (frames (m :: todo)) with (nb_frame m ++ frames todo) in Hi. unfold incomplete in Hi.
  rewrite frame_header in Hi by done. rewrite length_app, length_frame in Hi. lia.
Qed.

(** * Reading the block *)

Lemma mapM_id_Some (l : list Z) : mapM id (Some <$> l) = Some l.
Proof. induction l as [|x l IH]; [done|]. cbn. cbn in IH. by rewrite IH. Qed.
Lemma get_bytes_ok xs rest off n :
  (off + n ≤ length xs)%nat →
  get_bytes ((Some <$> xs) ++ rest) off n = Some (take n (drop off xs)).
Proof.
  intros H. unfold get_bytes. rewrite !(proj2 (Z.leb_le 0 _)) by lia. simpl. rewrite !Nat2Z.id. unfold read_at.
  rewrite bool_decide_true by (rewrite length_app, length_fmap; lia). simpl.
  rewrite drop_app_le, take_app_le by (rewrite ?length_drop, ?length_fmap; lia).
  rewrite <-fmap_drop, <-fmap_take. apply mapM_id_Some.
Qed.

Lemma get_header xs rest off :
  (off + 4 ≤ length xs)%nat → get_bytes ((Some <$> xs) ++ rest) off 4 = Some (take 4 (drop off xs)).
Proof. apply (get_bytes_ok xs rest off 4). Qed.

Lemma dispatch_loop_ok fuel pre xs rest ms r :
  parses xs ms r → (length xs < fuel)%nat →
  dispatch_loop fuel ((Some <$> pre ++ xs) ++ rest) (length (pre ++ xs)) (length pre) =
  Some (ms, false, Z.of_nat (length (pre ++ xs)) - length r).
Proof.
  intros Hp. revert fuel pre. induction Hp as [xs Hi|m xs ms r Hm Hp IH]; intros fuel pre Hf;
    (destruct fuel as [|fuel]; [lia|]); cbn [dispatch_loop].
  - rewrite length_app. destruct (Z.leb_spec (Z.of_nat (length pre) + 4) (Z.of_nat (length pre + length xs))) as [H4|H4].
    2: { do 2 f_equal. lia. }
    rewrite get_header by (rewrite length_app; lia). rewrite drop_app_length. cbn [mbind option_bind].
    destruct Hi as [?|[Hh Hlt]]; [lia|]. rewrite (proj2 (Z.ltb_ge _ _)), (proj2 (Z.ltb_lt _ _)) by lia. do 2 f_equal. lia.
  - pose proof (length_frame m) as Hlf. rewrite !length_app in *.
    rewrite (proj2 (Z.leb_le _ _)) by lia.
    rewrite get_header by (rewrite !length_app; lia). rewrite drop_app_length.
    cbn [mbind option_bind]. rewrite frame_header by done. unfold short in Hm. rewrite !(proj2 (Z.ltb_ge _ _)) by lia.
    replace (Z.of_nat (length pre) + 4) with (Z.of_nat (length pre + 4)) by lia.
    rewrite get_bytes_ok by (rewrite !length_app; lia). cbn [mbind option_bind].
    assert (take (length m) (drop (length pre + 4) (pre ++ nb_frame m ++ xs)) = m) as ->.
    { rewrite <-drop_drop, drop_app_length. change (drop 4 (nb_frame m ++ xs)) with (m ++ xs). apply take_app_length. }
    specialize (IH fuel (pre ++ nb_frame m)). rewrite !length_app, <-app_assoc in IH.
    replace (length pre + (length (nb_frame m) + length xs))%nat with (length pre + length (nb_frame m) + length xs)%nat by lia.
    replace (Z.of_nat (length pre + 4) + Z.of_nat (length m)) with (Z.of_nat (length pre + length (nb_frame m))) by lia.
    rewrite IH by lia. done.
Qed.

(** * Entries *)

Lemma nb_get_set nb sock sb nb' : nb_set nb sock sb = Some nb' → nb_get nb' sock = Some sb.
Proof.
  unfold nb_set, nb_get. destruct (nb_buffers nb) as [l|]; [|done]. simpl.
  destruct (Z.leb_spec 0 sock); [|done]. destruct (Z.ltb_spec sock (length l)); [|done]. intros [= <-]. simpl.
  rewrite (proj2 (Z.ltb_ge _ _)) by lia. by rewrite list_lookup_insert_eq by lia.
Qed.
Lemma nb_get_set_ne nb sock sock' sb nb' :
  nb_set nb sock sb = Some nb' → 0 <= sock' → sock' ≠ sock → nb_get nb' sock' = nb_get nb sock'.
Proof.
  unfold nb_set, nb_get. destruct (nb_buffers nb) as [l|]; [|done]. simpl.
  destruct (Z.leb_spec 0 sock); [|done]. destruct (Z.ltb_spec sock (length l)); [|done]. intros [= <-] H1 H2. simpl.
  rewrite (proj2 (Z.ltb_ge _ _)) by lia. by rewrite list_lookup_insert_ne by lia.
Qed.
Lemma nb_set_ok nb sock sb sb' : nb_get nb sock = Some sb → ∃ nb', nb_set nb sock sb' = Some nb'.
Proof.
  unfold nb_set, nb_get. destruct (nb_buffers nb) as [l|]; [|done]. simpl. destruct (Z.ltb_spec sock 0); [done|].
  destruct (l !! Z.to_nat sock) eqn:E; [|done]. apply lookup_lt_Some in E. intros _.
  rewrite (proj2 (Z.leb_le _ _)), (proj2 (Z.ltb_lt _ _)) by lia. eauto.
Qed.

(** The array has an entry per descriptor up to the largest one. *)
Definition nb_wf (nb : netbuffer) : Prop :=
  match nb_buffers nb with None => nb_max_fd nb = 0 | Some l => Z.of_nat (length l) = nb_max_fd nb + 1 end.

Lemma nb_open_ok cf nb sock peer :
  nb_wf nb → 0 <= sock →
  ∃ nb', nb_open cf nb sock peer = Some nb' ∧ nb_wf nb' ∧
    nb_get nb' sock = Some (SockBuffer peer None 0 0 (bqueue_init (send_buffer_size cf) BQUEUE_SHRINK)) ∧
    ∀ sock' sb, sock' ≠ sock → nb_get nb sock' = Some sb → nb_get nb' sock' = Some sb.
Proof.
  intros Hwf Hs. unfold nb_open.
  set (nb1 := if nb_max_fd nb <=? sock then _ else nb).
  assert (∃ l, nb_buffers nb1 = Some l ∧ sock < length l ∧ Z.of_nat (length l) = nb_max_fd nb1 + 1 ∧
    ∀ sock' sb, nb_get nb sock' = Some sb → nb_get nb1 sock' = Some sb) as (l & Hl & Hlt & Hlen & Hget).
  { unfold nb1, nb_wf, nb_get in *. destruct (Z.leb_spec (nb_max_fd nb) sock) as [Hle|Hgt].
    - simpl. set (l := default [] (nb_buffers nb)).
      assert (length l ≤ Z.to_nat (sock + 1))%nat as Hll.
      { unfold l. destruct (nb_buffers nb); simpl; lia. }
      eexists. split; [done|]. rewrite take_ge by done. rewrite length_app, length_replicate. split_and!; [lia|lia|].
      intros sock' sb. destruct (nb_buffers nb) as [l0|] eqn:E; [|done]. simpl in *. unfold l.
      destruct (Z.ltb_spec sock' 0); [done|]. destruct (l0 !! Z.to_nat sock') eqn:E'; [|done].
      by rewrite lookup_app_l, E' by (by eapply lookup_lt_Some).
    - destruct (nb_buffers nb) as [l|] eqn:E; [|lia]. exists l. split_and!; [done|lia|done|].
      done. }
  clearbody nb1. unfold nb_set. rewrite Hl. cbn [mbind option_bind].
  rewrite (proj2 (Z.leb_le _ _)), (proj2 (Z.ltb_lt _ _)) by lia. simpl. eexists. split; [done|].
  assert (nb_set nb1 sock (SockBuffer peer None 0 0 (bqueue_init (send_buffer_size cf) BQUEUE_SHRINK)) =
    Some (NetBuffer (nb_max_fd nb1) (Some (<[Z.to_nat sock := Some (SockBuffer peer None 0 0 (bqueue_init (send_buffer_size cf) BQUEUE_SHRINK))]> l)))) as Hset.
  { unfold nb_set. rewrite Hl. cbn [mbind option_bind]. by rewrite (proj2 (Z.leb_le _ _)), (proj2 (Z.ltb_lt _ _)) by lia. }
  split_and!.
  - unfold nb_wf. simpl. by rewrite length_insert.
  - by apply (nb_get_set _ _ _ _ Hset).
  - intros sock' sb Hne Hg. assert (0 <= sock').
    { unfold nb_get in Hg. destruct (nb_buffers nb); [|done]. simpl in Hg. by destruct (Z.ltb_spec sock' 0). }
    rewrite (nb_get_set_ne _ _ _ _ _ Hset) by done. by apply Hget.
Qed.

(** * Receiving *)

Record conf_wf (cf : nb_conf) : Prop := ConfWf {
  cw_receive : 1024 <= receive_chunk cf <= 16384;
  cw_send : 512 <= send_chunk cf <= 16384;
  cw_buffer : 65536 <= send_buffer_size cf <= 1048576
}.

(** The entry holds the bytes [xs] that wait for the rest of their message. *)
Definition recv_rep (sb : sockbuffer) (xs : list Z) : Prop :=
  sb_data_len sb = Z.of_nat (length xs) ∧
  match sb_data sb with
  | None => sb_data_size sb = 0 ∧ xs = []
  | Some m => sb_data_size sb = Z.of_nat (length m) ∧ ∃ rest, m = (Some <$> xs) ++ rest
  end.

(** The block after it was extended for the next bytes. *)
Definition extend (cf : nb_conf) (sb : sockbuffer) : sockbuffer :=
  let data_ext := wrap64 (sb_data_len sb + receive_chunk cf) in
  if sb_data_size sb <? data_ext
  then with_data sb (Some (realloc (default [] (sb_data sb)) (Z.to_nat data_ext))) data_ext (sb_data_len sb)
  else sb.

Lemma realloc_keeps (m : block) xs rest n :
  m = (Some <$> xs) ++ rest → (length xs ≤ n)%nat →
  ∃ rest', realloc m n = (Some <$> xs) ++ rest' ∧ length (realloc m n) = n.
Proof.
  intros -> Hn. unfold realloc. rewrite take_app_ge, length_fmap by (rewrite length_fmap; lia).
  rewrite <-app_assoc. eexists. split; [done|].
  rewrite !length_app, length_take, length_replicate, length_fmap. lia.
Qed.

Lemma extend_ok cf sb xs :
  conf_wf cf → recv_rep sb xs → incomplete xs →
  ∃ m rest, sb_data (extend cf sb) = Some m ∧ m = (Some <$> xs) ++ rest ∧ receive_chunk cf <= length rest ∧
    sb_data_size (extend cf sb) = Z.of_nat (length m) ∧ sb_data_len (extend cf sb) = Z.of_nat (length xs) ∧
    sb_bqueue (extend cf sb) = sb_bqueue sb ∧ recv_rep (extend cf sb) xs.
Proof.
  intros [Hc _ _] [Hl Hd] Hi%incomplete_bound. unfold OS_MAXSTR in Hi. unfold extend. rewrite Hl.
  rewrite wrap64_id by (unfold size_t; lia).
  assert (∃ m0 rest0, default [] (sb_data sb) = m0 ∧ m0 = (Some <$> xs) ++ rest0 ∧ sb_data_size sb = Z.of_nat (length m0)) as (m0 & rest0 & -> & Hm0 & Hs0).
  { destruct (sb_data sb) as [m|]; destruct Hd as [Hs Hx]; [destruct Hx as [rest ->]; by eexists _, rest|].
    exists [], []. by rewrite Hx. }
  destruct (Z.ltb_spec (sb_data_size sb) (Z.of_nat (length xs) + receive_chunk cf)) as [Hlt|Hge].
  - destruct (realloc_keeps m0 xs rest0 (Z.to_nat (Z.of_nat (length xs) + receive_chunk cf)) Hm0 ltac:(lia)) as (rest & Hr & Hrl).
    exists (realloc m0 (Z.to_nat (Z.of_nat (length xs) + receive_chunk cf))), rest. simpl.
    assert (receive_chunk cf <= length rest).
    { pose proof (f_equal length Hr) as H. rewrite length_app, length_fmap in H. lia. }
    split_and!; try done; [lia|]. split; [done|]. simpl. split; [lia|eauto].
  - destruct (sb_data sb) as [m|] eqn:E; [|simpl in *; lia]. destruct Hd as [Hs [rest ->]].
    exists ((Some <$> xs) ++ rest), rest. rewrite length_app, length_fmap in Hs. split_and!; try done.
    + lia.
    + by rewrite length_app, length_fmap.
    + split; [done|]. rewrite E. split; [by rewrite length_app, length_fmap|eauto].
Qed.

Lemma relax_ok cf sb xs r rest pre :
  conf_wf cf → sb_data_len sb = Z.of_nat (length xs) → xs = pre ++ r →
  sb_data_size sb = Z.of_nat (length ((Some <$> xs) ++ rest)) →
  ∃ sb', relax cf sb ((Some <$> xs) ++ rest) (length pre) = Some sb' ∧ recv_rep sb' r ∧ sb_bqueue sb' = sb_bqueue sb.
Proof.
  intros [Hc _ _] Hl -> Hs. unfold relax. rewrite Hl, length_app.
  assert (∃ m rest', (if Z.of_nat (length pre) <? Z.of_nat (length pre + length r)
      then memmove ((Some <$> pre ++ r) ++ rest) 0 (Z.to_nat (Z.of_nat (length pre)))
             (Z.to_nat (Z.of_nat (length pre + length r) - Z.of_nat (length pre)))
      else Some ((Some <$> pre ++ r) ++ rest)) = Some m ∧ m = (Some <$> r) ++ rest' ∧
      length m = length ((Some <$> pre ++ r) ++ rest)) as (m & rest' & -> & Hm & Hml).
  { destruct (Z.ltb_spec (Z.of_nat (length pre)) (Z.of_nat (length pre + length r))).
    - rewrite Nat2Z.id. replace (Z.to_nat (Z.of_nat (length pre + length r) - Z.of_nat (length pre))) with (length r) by lia.
      set (m0 := (Some <$> pre ++ r) ++ rest).
      assert (length r ≤ length m0)%nat as Hr by (unfold m0; rewrite length_app, length_fmap, length_app; lia).
      exists ((Some <$> r) ++ drop (length r) m0), (drop (length r) m0). split_and!; [|done|].
      + apply (memmove_eq m0 [] (Some <$> r) (drop (length r) m0) (take (length r) m0)).
        * exists (Some <$> pre), rest. unfold m0. rewrite fmap_app, <-app_assoc, length_fmap. done.
        * by rewrite length_fmap.
        * by rewrite take_drop.
        * done.
        * rewrite length_take, length_fmap. lia.
        * done.
      + rewrite length_app, length_fmap, length_drop. lia.
    - assert (r = []) as -> by (apply nil_length_inv; lia). eexists _, _. split; [done|]. done. }
  cbn [mbind option_bind]. replace (Z.of_nat (length pre + length r) - Z.of_nat (length pre)) with (Z.of_nat (length r)) by lia.
  eexists. split; [done|].
  assert (∀ n, (length r ≤ n)%nat → ∃ rest2, realloc m n = (Some <$> r) ++ rest2 ∧ length (realloc m n) = n) as Hre.
  { intros n Hn. by eapply realloc_keeps. }
  destruct (buffer_relax cf =? 0); [|destruct (buffer_relax cf =? 1)].
  - split; [|done]. split; [done|]. simpl. split; [congruence|eauto].
  - split; [|done]. split; [done|]. simpl.
    destruct (Hre (Z.to_nat (if receive_chunk cf <? length r then length r else receive_chunk cf))) as (rest2 & H1 & H2).
    { destruct (Z.ltb_spec (receive_chunk cf) (length r)); lia. }
    split; [|eauto]. rewrite H2. destruct (Z.ltb_spec (receive_chunk cf) (length r)); lia.
  - destruct (Z.eqb_spec (Z.of_nat (length r)) 0) as [E|E]; simpl.
    + assert (r = []) as -> by (apply nil_length_inv; lia). done.
    + split; [|done]. split; [done|]. simpl. rewrite Nat2Z.id. destruct (Hre (length r) ltac:(lia)) as (rest2 & H1 & H2).
      split; [congruence|eauto].
Qed.

(** One call: the bytes that waited and the new ones are cut into messages. *)
Lemma nb_recv_ok cf nb sock sb xs d ms r :
  conf_wf cf → nb_get nb sock = Some sb → recv_rep sb xs → incomplete xs →
  Z.of_nat (length d) <= receive_chunk cf → parses (xs ++ d) ms r →
  ∃ nb' sb', nb_recv cf nb sock (RecvData d) = Some (Z.of_nat (length d), ms, nb') ∧
    nb_get nb' sock = Some sb' ∧ recv_rep sb' r ∧ sb_bqueue sb' = sb_bqueue sb.
Proof.
  intros Hc Hg Hr Hi Hd Hp. unfold nb_recv. rewrite Hg. cbn [mbind option_bind]. fold (extend cf sb).
  destruct (extend_ok cf sb xs Hc Hr Hi) as (m & rest & He & Hm & Hrl & Hes & Hel & Heb & _).
  destruct (nb_set_ok nb sock sb (extend cf sb) Hg) as [nb1 Hnb1]. rewrite Hnb1. cbn [mbind option_bind].
  rewrite He. cbn [mbind option_bind]. rewrite Hel, Nat2Z.id.
  assert (m = (Some <$> xs) ++ take (length d) rest ++ drop (length d) rest) as Hm' by (by rewrite take_drop).
  rewrite (write_at_eq m (Some <$> xs) (take (length d) rest) (drop (length d) rest) (length xs) (Some <$> d) Hm');
    [|by rewrite length_fmap|rewrite length_fmap, length_take; lia].
  cbn [mbind option_bind sb_data_len with_data]. rewrite app_assoc, <-fmap_app.
  replace (Z.of_nat (length xs) + Z.of_nat (length d)) with (Z.of_nat (length (xs ++ d))) by (rewrite length_app; lia).
  set (rest' := drop (length d) rest).
  pose proof (dispatch_loop_ok (S (length ((Some <$> xs ++ d) ++ rest'))) [] (xs ++ d) rest' ms r Hp) as Hdl.
  simpl app in Hdl. change (Z.of_nat (length [])) with 0 in Hdl. rewrite Hdl by (rewrite (length_app (Some <$> _)), length_fmap; lia).
  cbn [mbind option_bind]. pose proof (parses_length _ _ _ Hp) as Hlr.
  assert (∃ pre, xs ++ d = pre ++ r) as [pre Hpre].
  { clear -Hp. induction Hp as [|m' ? ? ? _ _ [pre ->]]; [by exists []|]. exists (nb_frame m' ++ pre). by rewrite app_assoc. }
  assert (Z.of_nat (length (xs ++ d)) - Z.of_nat (length r) = Z.of_nat (length pre)) as -> by (rewrite Hpre, length_app; lia).
  set (sb2 := with_data (extend cf sb) (Some ((Some <$> xs ++ d) ++ rest')) (sb_data_size (extend cf sb)) (length (xs ++ d))).
  assert (sb_data_size sb2 = Z.of_nat (length ((Some <$> xs ++ d) ++ rest'))) as Hs2.
  { unfold sb2. simpl. rewrite Hes, Hm, !length_app, !length_fmap, length_app. unfold rest'. rewrite length_drop. lia. }
  assert (∃ sb3, (if 0 <? Z.of_nat (length pre) then relax cf sb2 ((Some <$> xs ++ d) ++ rest') (length pre) else Some sb2) = Some sb3 ∧
     recv_rep sb3 r ∧ sb_bqueue sb3 = sb_bqueue sb) as (sb3 & -> & Hr3 & Hb3).
  { destruct (Z.ltb_spec 0 (Z.of_nat (length pre))) as [Hpos|Hz].
    - destruct (relax_ok cf sb2 (xs ++ d) r rest' pre Hc eq_refl Hpre Hs2) as (sb3 & -> & H1 & H2). exists sb3.
      split_and!; [done|done|]. rewrite H2. exact Heb.
    - assert (pre = []) as -> by (apply nil_length_inv; lia). simpl in Hpre. subst r. exists sb2.
      split; [done|]. split; [|exact Heb]. split; [done|]. simpl. split; [exact Hs2|eauto]. }
  cbn [mbind option_bind]. destruct (nb_set_ok nb1 sock _ sb3 (nb_get_set _ _ _ _ Hnb1)) as [nb2 Hnb2].
  rewrite Hnb2. exists nb2, sb3. split; [done|]. split; [by eapply nb_get_set|done].
Qed.

(** The calls on one socket, with the bytes that each of them receives. *)
Fixpoint nb_recvs (cf : nb_conf) (sock : Z) (chunks : list (list Z)) (nb : netbuffer) : option (list (list Z) * netbuffer) :=
  match chunks with
  | [] => Some ([], nb)
  | d :: chunks =>
      '(_, ms, nb) ← nb_recv cf nb sock (RecvData d);
      '(ms', nb) ← nb_recvs cf sock chunks nb;
      Some (ms ++ ms', nb)
  end.
Definition chunk_ok (cf : nb_conf) (d : list Z) : Prop := Z.of_nat (length d) <= receive_chunk cf.

Lemma nb_recvs_ok cf sock chunks nb sb xs todo fut :
  conf_wf cf → nb_get nb sock = Some sb → recv_rep sb xs → incomplete xs → Forall (chunk_ok cf) chunks →
  Forall short todo → xs ++ mjoin chunks ++ fut = frames todo →
  ∃ ms todo' nb' sb' r, nb_recvs cf sock chunks nb = Some (ms, nb') ∧ todo = ms ++ todo' ∧
    nb_get nb' sock = Some sb' ∧ recv_rep sb' r ∧ incomplete r ∧ r ++ fut = frames todo'.
Proof.
  intros Hc Hg Hr Hi Hch. revert nb sb xs todo Hg Hr Hi.
  induction Hch as [|d chunks Hd _ IH]; intros nb sb xs todo Hg Hr Hi Ht Heq; cbn [nb_recvs].
  - exists [], todo, nb, sb, xs. done.
  - cbn [mjoin list_join] in Heq. rewrite <-app_assoc in Heq. rewrite app_assoc in Heq.
    destruct (parses_prefix todo (xs ++ d) (mjoin chunks ++ fut) Ht Heq) as (ms & todo1 & r & -> & Hp & Hr1).
    destruct (nb_recv_ok cf nb sock sb xs d ms r Hc Hg Hr Hi Hd Hp) as (nb1 & sb1 & Hrecv & Hg1 & Hrep1 & _).
    rewrite Hrecv. cbn [mbind option_bind]. apply Forall_app in Ht as [_ Ht].
    destruct (IH nb1 sb1 r todo1 Hg1 Hrep1 (parses_incomplete _ _ _ Hp) Ht Hr1)
      as (ms' & todo' & nb' & sb' & r' & -> & -> & H).
    exists (ms ++ ms'), todo', nb', sb', r'. cbn [mbind option_bind]. by rewrite app_assoc.
Qed.

(** * Sending *)

Inductive nb_op := NQueue (m : list Z) | NSend (send : Z → Z).
Inductive nb_res := NQueued (ok : bool) | NSent (r : Z) (d : block).

(** The critical sections on the socket of a sender: an attempt to queue a
    message, and a call of [nb_send]. *)
Definition nb_exec (cf : nb_conf) (sock : Z) (o : nb_op) (nb : netbuffer) : option (outcome nb_res * netbuffer) :=
  match o with
  | NQueue m => '(ok, _, nb) ← nb_try nb sock (nb_frame m); Some (Ret (NQueued ok), nb)
  | NSend send => '(r, d, _, nb) ← nb_send cf nb sock send; Some (Ret (NSent r d), nb)
  end.

(** What [send] promises: it takes at most what it is given. *)
Definition nb_op_ok (o : nb_op) : Prop :=
  match o with NQueue m => short m | NSend send => ∀ n, 0 < n → send n <= n end.

(** The messages that were queued and the bytes that left. *)
Definition queued_of (o : nb_op) (r : outcome nb_res) : list (list Z) :=
  match o, r with NQueue m, Ret (NQueued true) => [m] | _, _ => [] end.
Definition wire_of (o : nb_op) (r : outcome nb_res) : list Z :=
  match r with Ret (NSent _ d) => default [] (mapM id d) | _ => [] end.

Definition send_rep (cf : nb_conf) (sock : Z) (nb : netbuffer) (xs : list Z) : Prop :=
  ∃ sb q, nb_get nb sock = Some sb ∧ sb_bqueue sb = Some q ∧ bq_rep (send_buffer_size cf) q xs.

Section sending.
Context (cf : nb_conf) (sock : Z) (Hc : conf_wf cf).
Abbreviation mx := (send_buffer_size cf).

Lemma mx_ok : 1 < mx <= 9223372036854775808.
Proof using Hc. destruct Hc. lia. Qed.

Lemma nb_try_ok nb xs f :
  send_rep cf sock nb xs →
  ∃ ok ev nb', nb_try nb sock f = Some (ok, ev, nb') ∧
    send_rep cf sock nb' (xs ++ if ok : bool then f else []).
Proof using Hc.
  intros (sb & q & Hg & Hq & Hr). unfold nb_try. rewrite Hg. cbn [mbind option_bind]. rewrite Hq.
  destruct (bq_exec_sim mx q xs (BPush f 0) mx_ok Hr I) as (q' & He & Hr'). cbn [bq_exec bytes_exec] in He, Hr'.
  destruct (bqueue_push q f 0) as [[p q1]|]; [|done]. cbn [mbind option_bind] in He |- *.
  injection He as Hp ->. destruct (nb_set_ok nb sock sb (with_bqueue sb (Some q')) Hg) as [nb' Hs].
  assert (∀ ys, bq_rep mx q' ys → send_rep cf sock nb' ys) as Hrep.
  { intros ys Hys. exists (with_bqueue sb (Some q')), q'. split; [by eapply nb_get_set|done]. }
  assert (∃ ok : bool, p = Ret (if ok then 0 else -1) ∧ bq_rep mx q' (xs ++ if ok then f else [])) as (ok & -> & Hok).
  { change (has_flag 0 BQUEUE_WAIT) with false in Hp, Hr'.
    destruct (mx <=? length f); [|destruct (mx <=? length f + length xs)];
      cbn [fst snd] in Hp, Hr'; (destruct p as [z|]; cbn [omap_res] in Hp; [|discriminate Hp]); injection Hp as ->; [exists false|exists false|exists true];
      by rewrite ?app_nil_r. }
  rewrite Hs. cbn [mbind option_bind]. destruct ok; do 3 eexists; (split; [done|]); by apply Hrep.
Qed.

Lemma nb_send_ok nb xs send :
  send_rep cf sock nb xs → (∀ n, 0 < n → send n <= n) →
  ∃ r d ev nb' ys zs, nb_send cf nb sock send = Some (r, Some <$> ys, ev, nb') ∧ d = Some <$> ys ∧
    xs = ys ++ zs ∧ send_rep cf sock nb' zs.
Proof using Hc.
  intros (sb & q & Hg & Hq & Hr) Hsend. unfold nb_send. rewrite Hg. cbn [mbind option_bind]. rewrite Hq.
  destruct (bq_exec_sim mx q xs (BPeek (Z.to_nat (send_chunk cf)) 0) mx_ok Hr I) as (q1 & He & Hr1). cbn [bq_exec bytes_exec] in He, Hr1.
  destruct (bqueue_peek q (Z.to_nat (send_chunk cf)) 0) as [[p q2]|]; [|done]. cbn [mbind option_bind] in He |- *.
  injection He as Hp ->. set (k := Z.to_nat (send_chunk cf)) in *.
  assert (p = Ret (Some <$> take k xs) ∧ bq_rep mx q1 xs) as [-> Hr2].
  { destruct (decide (xs = [])) as [->|]; simpl in Hp, Hr1; (destruct p as [z|]; [|done]); injection Hp as ->; [|done].
    by rewrite take_nil. }
  rewrite length_fmap. set (n := Z.of_nat (length (take k xs))). set (sent := if 0 <? n then send n else 0).
  assert (sent <= n ∧ n <= length xs) as [Hsn Hnx].
  { unfold sent, n. rewrite length_take. destruct (Z.ltb_spec 0 (Z.of_nat (k `min` length xs))); [|lia].
    split; [by apply Hsend|lia]. }
  assert (∃ q3, (if 0 <? sent then '(_, q3) ← bqueue_drop q1 (Z.to_nat sent); Some q3 else Some q1) = Some q3 ∧
    bq_rep mx q3 (drop (Z.to_nat sent) xs)) as (q3 & -> & Hr3).
  { destruct (Z.ltb_spec 0 sent) as [Hpos|Hneg].
    - destruct (bq_exec_sim mx q1 xs (BDrop (Z.to_nat sent)) mx_ok Hr2) as (q3 & He & Hr3).
      { simpl. destruct (Z.to_nat sent) eqn:E; [lia|done]. }
      simpl in He, Hr3. destruct (bqueue_drop q1 (Z.to_nat sent)) as [[z q4]|]; [|done]. simpl in He |- *.
      rewrite (proj2 (Nat.leb_le _ _)) in He, Hr3 by lia. simpl in He, Hr3. injection He as -> ->. by exists q3.
    - exists q1. replace (Z.to_nat sent) with 0%nat by lia. done. }
  cbn [mbind option_bind]. destruct (nb_set_ok nb sock sb (with_bqueue sb (Some q3)) Hg) as [nb' Hs]. rewrite Hs.
  cbn [mbind option_bind]. exists sent, (Some <$> take (Z.to_nat sent) xs). do 2 eexists.
  exists (take (Z.to_nat sent) xs), (drop (Z.to_nat sent) xs).
  rewrite <-fmap_take, take_take. split_and!; [|done|by rewrite take_drop|].
  - do 4 f_equal. f_equal. unfold n in Hsn. rewrite length_take in Hsn. f_equal. lia.
  - exists (with_bqueue sb (Some q3)), q3. split; [by eapply nb_get_set|done].
Qed.

(** In every interleaving the bytes that left and those still queued are the
    frames of the messages queued. *)
Lemma nb_run_ok ops nb xs :
  send_rep cf sock nb xs → Forall nb_op_ok ops →
  ∃ tr nb' ys, interleave (nb_exec cf sock) ops nb = Some (tr, nb') ∧ send_rep cf sock nb' ys ∧
    all_got wire_of tr ++ ys = xs ++ frames (all_put queued_of tr) ∧ Forall short (all_put queued_of tr).
Proof using Hc.
  intros Hr Hops. revert nb xs Hr. induction Hops as [|o ops Ho _ IH]; intros nb xs Hr; cbn [interleave].
  - exists [], nb, xs. split_and!; [done|done|by rewrite app_nil_r|constructor].
  - assert (∃ r nb1 zs, nb_exec cf sock o nb = Some (r, nb1) ∧ send_rep cf sock nb1 zs ∧
      wire_of o r ++ zs = xs ++ frames (queued_of o r) ∧ Forall short (queued_of o r)) as (r & nb1 & zs & He & Hr1 & Heq & Hs).
    { destruct o as [m|send]; simpl in Ho |- *.
      - destruct (nb_try_ok nb xs (nb_frame m) Hr) as (ok & ev & nb1 & -> & Hr1). do 3 eexists. split; [done|]. split; [done|].
        destruct ok; simpl; [|by split]. split; [by unfold frames; simpl; rewrite app_nil_r|]. by constructor.
      - destruct (nb_send_ok nb xs send Hr Ho) as (r & d & ev & nb1 & ys & zs & -> & _ & -> & Hr1).
        do 3 eexists. split; [done|]. split; [done|]. simpl. rewrite mapM_id_Some. simpl. by rewrite app_nil_r. }
    rewrite He. cbn [mbind option_bind]. destruct (IH nb1 zs Hr1) as (tr & nb' & ys & -> & Hr' & Heq' & Hs').
    cbn [mbind option_bind]. exists ((o, r) :: tr), nb', ys. split; [done|]. split; [done|].
    change (all_got wire_of ((o, r) :: tr)) with (wire_of o r ++ all_got wire_of tr).
    change (all_put queued_of ((o, r) :: tr)) with (queued_of o r ++ all_put queued_of tr).
    split; [|by apply Forall_app]. unfold frames in *. rewrite bind_app, <-app_assoc, Heq', !app_assoc. by rewrite Heq.
Qed.
End sending.
