(* ===== verification/NetBufferClaims.v ===== *)
(** What the network buffers promise, from end to end; and the overflow of the
    buffer in which a corrupt header is printed. *)

From S2P Require Import Prelude Monitor BQueue NetBuffer NetBufferSpec.

(** A socket that was just opened: nothing waits in either direction. *)
Lemma open_rep cf nb sock peer :
  conf_wf cf → nb_wf nb → 0 <= sock →
  ∃ nb' sb, nb_open cf nb sock peer = Some nb' ∧ nb_get nb' sock = Some sb ∧ recv_rep sb [] ∧ send_rep cf sock nb' [].
Proof.
  intros [_ _ Hb] Hwf Hs. destruct (nb_open_ok cf nb sock peer Hwf Hs) as (nb' & Ho & _ & Hg & _).
  eexists nb', _. split; [done|]. split; [done|]. split; [done|].
  assert (bqueue_init (send_buffer_size cf) BQUEUE_SHRINK = Some (BQueue [] 0 0 0 (send_buffer_size cf) BQUEUE_SHRINK)) as Hi.
  { unfold bqueue_init. by rewrite (proj2 (Z.leb_gt _ _)) by lia. }
  eexists _, _. split; [done|]. split; [exact Hi|]. split_and!; [split; [done|by left]|done|simpl; lia].
Qed.

(** Reassembly: whatever the pieces in which the bytes of framed messages
    arrive on a socket, the calls of [nb_recv] succeed and push exactly these
    messages, in order, whatever the setting for the release of memory. *)
Theorem nb_recv_reassembles cf nb sock peer msgs chunks :
  conf_wf cf → nb_wf nb → 0 <= sock → Forall short msgs → Forall (chunk_ok cf) chunks →
  mjoin chunks = frames msgs →
  ∃ nb1 nb2 sb, nb_open cf nb sock peer = Some nb1 ∧ nb_recvs cf sock chunks nb1 = Some (msgs, nb2) ∧
    nb_get nb2 sock = Some sb ∧ sb_data_len sb = 0.
Proof.
  intros Hc Hwf Hs Hm Hch Heq. destruct (open_rep cf nb sock peer Hc Hwf Hs) as (nb1 & sb & Ho & Hg & Hr & _).
  destruct (nb_recvs_ok cf sock chunks nb1 sb [] msgs [] Hc Hg Hr incomplete_nil Hch Hm)
    as (ms & todo & nb2 & sb2 & r & Hrecv & -> & Hg2 & [Hl _] & Hi & Hr2).
  { by rewrite app_nil_r. }
  rewrite app_nil_r in Hr2. subst r. apply Forall_app in Hm as [_ Hm]. apply incomplete_frames in Hi; [|done]. subst todo.
  exists nb1, nb2, sb2. rewrite app_nil_r. done.
Qed.

(** C6: From one daemon to the other: under every interleaving of attempts to
    queue messages and of calls of [nb_send] with any partial writes, every
    step is defined; and a receiver that gets the bytes that left, in any
    pieces, pushes the messages that were queued, in order, up to those of
    which a part is still in the send queue; when the queue is empty, all. *)
Theorem netbuffer_end_to_end cf nbs ss ps nbr rs pr ops :
  conf_wf cf → nb_wf nbs → nb_wf nbr → 0 <= ss → 0 <= rs → Forall nb_op_ok ops →
  ∃ nb1 tr nb2 nb3,
    nb_open cf nbs ss ps = Some nb1 ∧ interleave (nb_exec cf ss) ops nb1 = Some (tr, nb2) ∧
    nb_open cf nbr rs pr = Some nb3 ∧
    ∀ chunks, Forall (chunk_ok cf) chunks → mjoin chunks = all_got wire_of tr →
      ∃ ms nb4 pending sb q, nb_recvs cf rs chunks nb3 = Some (ms, nb4) ∧ all_put queued_of tr = ms ++ pending ∧
        nb_get nb2 ss = Some sb ∧ sb_bqueue sb = Some q ∧ (bqueue_used q = 0%nat → pending = []).
Proof.
  intros Hc Hws Hwr Hss Hrs Hops.
  destruct (open_rep cf nbs ss ps Hc Hws Hss) as (nb1 & _ & Ho1 & _ & _ & Hsend).
  destruct (open_rep cf nbr rs pr Hc Hwr Hrs) as (nb3 & sb3 & Ho3 & Hg3 & Hr3 & _).
  destruct (nb_run_ok cf ss Hc ops nb1 [] Hsend Hops) as (tr & nb2 & ys & Htr & Hrep & Heq & Hsh).
  exists nb1, tr, nb2, nb3. split_and!; try done. intros chunks Hch Hw. rewrite <-Hw in Heq.
  destruct (nb_recvs_ok cf rs chunks nb3 sb3 [] (all_put queued_of tr) ys Hc Hg3 Hr3 incomplete_nil Hch Hsh Heq)
    as (ms & todo & nb4 & sb4 & r & Hrecv & Hms & _ & _ & Hi & Hr).
  destruct Hrep as (sb & q & Hg & Hq & Hbq). exists ms, nb4, todo, sb, q. split_and!; try done.
  intros Hu. unfold bqueue_used in Hu. destruct Hbq as (Hring & _ & _). rewrite (ring_used _ _ Hring), length_fmap in Hu.
  apply nil_length_inv in Hu as ->. rewrite app_nil_r in Hr. subst r. rewrite Hms in Hsh. apply Forall_app in Hsh as [_ Hsh].
  by apply incomplete_frames in Hi.
Qed.

(** * A corrupt header *)

(** A first packet of 1024 bytes whose header is too large and whose last byte
    is above 127. *)
Definition bad_packet : list Z := [0; 0; 2; 0] ++ replicate 1019 65 ++ [200].

(** Printing the bytes of a corrupt message writes beyond the buffer: a byte
    above 127 is printed as eight digits, so the last ones overflow the 2049
    bytes of [nb_recv]; this is undefined behaviour that a peer can cause with
    its first packet.  With a byte below 128 in its place the call returns -2. *)
Theorem nb_recv_hex_overflow :
  (∃ nb, nb_open (NbConf 4096 4096 131072 1) (NetBuffer 0 None) 3 0 = Some nb ∧
     nb_recv (NbConf 4096 4096 131072 1) nb 3 (RecvData bad_packet) = None ∧
     ∃ nb', nb_recv (NbConf 4096 4096 131072 1) nb 3 (RecvData (take 1023 bad_packet ++ [65])) = Some (-2, [], nb')) ∧
  print_hex_string (Some [Some 200]) 1 (Some (replicate 3 (Some 0))) 3 = None.
Proof.
  split; [|vm_compute; reflexivity]. eexists. split; [reflexivity|]. split; [vm_compute; reflexivity|].
  eexists. vm_compute. reflexivity.
Qed.

(** * Witnesses *)

Definition conf0 : nb_conf := NbConf 4096 4096 131072 1.
Lemma conf0_wf : conf_wf conf0.
Proof. constructor; simpl; lia. Qed.

(** Two messages, one of them empty, in three pieces. *)
Lemma nb_recv_reassembles_witness :
  ∃ nb1 nb2 sb, nb_open conf0 (NetBuffer 0 None) 3 7 = Some nb1 ∧
    nb_recvs conf0 3 [[2; 0; 0]; [0; 65; 66; 0; 0]; [0; 0]] nb1 = Some ([[65; 66]; []], nb2) ∧
    nb_get nb2 3 = Some sb ∧ sb_data_len sb = 0.
Proof.
  apply (nb_recv_reassembles conf0 (NetBuffer 0 None) 3 7 [[65; 66]; []] [[2; 0; 0]; [0; 65; 66; 0; 0]; [0; 0]]).
  - exact conf0_wf.
  - reflexivity.
  - lia.
  - repeat constructor; unfold short, OS_MAXSTR; simpl; lia.
  - repeat constructor; unfold chunk_ok; simpl; lia.
  - reflexivity.
Defined.

Definition sender_demo : list nb_op :=
  [NQueue [65; 66]; NSend (λ n, Z.min n 5); NQueue [67]; NSend (λ _, -1); NSend (λ n, n)].
Lemma netbuffer_end_to_end_witness :
  ∃ nb1 tr nb2 nb3,
    nb_open conf0 (NetBuffer 0 None) 3 7 = Some nb1 ∧ interleave (nb_exec conf0 3) sender_demo nb1 = Some (tr, nb2) ∧
    nb_open conf0 (NetBuffer 0 None) 5 8 = Some nb3 ∧
    ∀ chunks, Forall (chunk_ok conf0) chunks → mjoin chunks = all_got wire_of tr →
      ∃ ms nb4 pending sb q, nb_recvs conf0 5 chunks nb3 = Some (ms, nb4) ∧ all_put queued_of tr = ms ++ pending ∧
        nb_get nb2 3 = Some sb ∧ sb_bqueue sb = Some q ∧ (bqueue_used q = 0%nat → pending = []).
Proof.
  apply (netbuffer_end_to_end conf0 (NetBuffer 0 None) 3 7 (NetBuffer 0 None) 5 8 sender_demo).
  - exact conf0_wf.
  - reflexivity.
  - reflexivity.
  - lia.
  - lia.
  - unfold sender_demo, nb_op_ok, short, OS_MAXSTR. repeat (apply Forall_cons; split; [simpl; intros; lia|]). apply Forall_nil. exact I.
Defined.
