(* ===== verification/NetCounter.v ===== *)
(** The counters of the connections of the manager (src/remoted/netcounter.c):
    an array indexed by descriptor that grows by blocks. *)

From S2P Require Import Prelude.

Definition SIZE_BLOCK : Z := 256.

(** [rem_fdlist_t]; [size] is the length of the array. *)
Record rem_fdlist := RemFdlist { fd_list : list Z; fd_size : Z }.

(** [rem_initList] *)
Definition rem_initList (initial_size : Z) : rem_fdlist :=
  RemFdlist (replicate (Z.to_nat initial_size) 0) initial_size.

(** The loop of [rem_setCounter] that makes room for [fd]. *)
Fixpoint grow_list (fuel : nat) (c : rem_fdlist) (fd : Z) : option rem_fdlist :=
  if fd_size c <=? fd then
    match fuel with
    | O => None
    | S fuel => grow_list fuel (RemFdlist (fd_list c ++ replicate (Z.to_nat SIZE_BLOCK) 0) (fd_size c + SIZE_BLOCK)) fd
    end
  else Some c.

(** [rem_setCounter] and [rem_getCounter]; a negative descriptor fails the
    assertion. *)
Definition rem_setCounter (c : rem_fdlist) (fd counter : Z) : option rem_fdlist :=
  if fd <? 0 then None
  else
    c ← grow_list (Z.to_nat fd + 1) c fd;
    if fd <? length (fd_list c) then Some (RemFdlist (<[Z.to_nat fd := counter]> (fd_list c)) (fd_size c)) else None.
Definition rem_getCounter (c : rem_fdlist) (fd : Z) : option Z :=
  if fd <? 0 then None
  else if fd_size c <=? fd then Some 0
  else fd_list c !! Z.to_nat fd.

Definition fd_wf (c : rem_fdlist) : Prop := fd_size c = Z.of_nat (length (fd_list c)).

(** The counter of each descriptor, zero outside of the array. *)
Definition fd_fun (c : rem_fdlist) (fd : Z) : Z := default 0 (fd_list c !! Z.to_nat fd).

Lemma grow_list_ok fuel c fd :
  fd_wf c → (Z.to_nat (fd + 1 - fd_size c) ≤ fuel)%nat →
  ∃ c', grow_list fuel c fd = Some c' ∧ fd_wf c' ∧ fd < fd_size c' ∧ ∀ k, 0 <= k → fd_fun c' k = fd_fun c k.
Proof.
  revert c. induction fuel as [|fuel IH]; intros c Hwf Hf; cbn [grow_list].
  - destruct (Z.leb_spec (fd_size c) fd); [lia|]. exists c. split_and!; done.
  - destruct (Z.leb_spec (fd_size c) fd) as [Hle|]; [|exists c; split_and!; done].
    set (c1 := RemFdlist (fd_list c ++ replicate (Z.to_nat SIZE_BLOCK) 0) (fd_size c + SIZE_BLOCK)).
    destruct (IH c1) as (c' & -> & H1 & H2 & H3).
    + unfold fd_wf, c1 in *. cbn [fd_list fd_size]. rewrite length_app, length_replicate, Hwf. unfold SIZE_BLOCK. lia.
    + unfold c1, SIZE_BLOCK. cbn [fd_size]. lia.
    + exists c'. split_and!; [done..|]. intros k Hk. rewrite H3 by done. unfold fd_fun, c1. cbn [fd_list].
      destruct (decide (Z.to_nat k < length (fd_list c))%nat).
      * by rewrite lookup_app_l by done.
      * rewrite lookup_app_r by lia. rewrite (lookup_ge_None_2 (fd_list c)) by lia.
        destruct (replicate _ 0 !! _) eqn:E; [|done]. by apply lookup_replicate in E as [-> _].
Qed.

(** The counters are a map that starts at zero: a counter that was set is read
    back, the others keep their value, whatever the growth of the array. *)
Theorem net_counter_map c fd counter :
  fd_wf c → 0 <= fd →
  ∃ c', rem_setCounter c fd counter = Some c' ∧ fd_wf c' ∧
    ∀ k, 0 <= k → rem_getCounter c' k = (if k =? fd then Some counter else rem_getCounter c k).
Proof.
  intros Hwf Hfd. unfold rem_setCounter. rewrite (proj2 (Z.ltb_ge _ _)) by lia.
  destruct (grow_list_ok (Z.to_nat fd + 1) c fd Hwf) as (c1 & -> & Hwf1 & Hlt & Hfun); [unfold fd_wf in *; lia|].
  cbn [mbind option_bind]. unfold fd_wf in Hwf1. rewrite (proj2 (Z.ltb_lt _ _)) by lia. eexists. split; [done|].
  split; [unfold fd_wf; simpl; by rewrite length_insert|]. intros k Hk.
  assert (∀ c, fd_wf c → rem_getCounter c k = Some (fd_fun c k)) as Hget.
  { intros c0 Hc0. unfold rem_getCounter, fd_fun, fd_wf in *. rewrite (proj2 (Z.ltb_ge _ _)) by lia.
    destruct (Z.leb_spec (fd_size c0) k); [by rewrite lookup_ge_None_2 by lia|].
    destruct (lookup_lt_is_Some_2 (fd_list c0) (Z.to_nat k)) as [x ->]; [lia|done]. }
  rewrite !Hget by (done || (unfold fd_wf; simpl; by rewrite length_insert)). specialize (Hfun k Hk).
  unfold fd_fun in *. simpl. destruct (Z.eqb_spec k fd) as [->|Hne].
  - by rewrite list_lookup_insert_eq by lia.
  - by rewrite list_lookup_insert_ne, Hfun by lia.
Qed.
Lemma net_counter_map_witness :
  ∃ c', rem_setCounter (rem_initList 4) 700 9 = Some c' ∧ fd_wf c' ∧
    ∀ k, 0 <= k → rem_getCounter c' k = (if k =? 700 then Some 9 else rem_getCounter (rem_initList 4) k).
Proof. apply (net_counter_map (rem_initList 4) 700 9); [reflexivity|lia]. Defined.
