(* ===== verification/SecMsg.v ===== *)
(** The encrypted messages between agent and manager, with their counters
    against replay (src/os_crypto/shared/msgs.c; os_zlib/os_zlib.c, and the
    dispatch on the cipher).

    zlib, the ciphers of OpenSSL and the digest are parameters.  A buffer is
    the list of the bytes of its memory, from the pointer to its end; reading
    or writing beyond it is undefined ([None]).  The counters are kept in
    files; the file system maps names to inodes and inodes to contents, and an
    open file is its inode. *)

From S2P Require Import Prelude CLib NetBuffer.

Definition OS_HEADER_SIZE : Z := 128.
Inductive key_states := KS_VALID | KS_RIDS | KS_CORRUPT | KS_ENCKEY.
Inductive crypt_method := W_METH_BLOWFISH | W_METH_AES.

(** The fields of [keyentry] that are used here. *)
Record keyentry := KeyEntry {
  ke_id : cstr;
  ke_key : cstr;
  ke_single_host : bool;
  ke_global : Z;
  ke_local : Z;
  ke_inode : Z;
  ke_fp : option Z;
  ke_method : crypt_method;
  ke_updating_time : Z;
  ke_rids_node : bool
}.

(** The key store (its last entry is the sender), the counters of the module
    and the files; [ss_queue] is [opened_fp_queue]. *)
Record secstate := SecState {
  ss_keys : list keyentry;
  ss_keysize : nat;
  ss_mode : bool;
  ss_queue : list nat;
  ss_global_count : Z;
  ss_local_count : Z;
  ss_evt_count : Z;
  ss_rcv_count : Z;
  ss_c_orig_size : Z;
  ss_c_comp_size : Z;
  ss_names : gmap cstr Z;
  ss_inodes : gmap Z (list Z)
}.

Record sec_conf := SecConf { s_comp_print : Z; s_recv_flush : Z; s_verify_counter : bool }.

Definition SENDER_COUNTER : cstr := [115; 101; 110; 100; 101; 114; 95; 99; 111; 117; 110; 116; 101; 114].

Definition with_key (s : secstate) (id : nat) (k : keyentry) : secstate :=
  SecState (<[id := k]> (ss_keys s)) (ss_keysize s) (ss_mode s) (ss_queue s) (ss_global_count s) (ss_local_count s)
    (ss_evt_count s) (ss_rcv_count s) (ss_c_orig_size s) (ss_c_comp_size s) (ss_names s) (ss_inodes s).
Definition with_sent (s : secstate) (g l : Z) : secstate :=
  SecState (ss_keys s) (ss_keysize s) (ss_mode s) (ss_queue s) g l
    (ss_evt_count s) (ss_rcv_count s) (ss_c_orig_size s) (ss_c_comp_size s) (ss_names s) (ss_inodes s).
Definition with_rcv (s : secstate) (n : Z) : secstate :=
  SecState (ss_keys s) (ss_keysize s) (ss_mode s) (ss_queue s) (ss_global_count s) (ss_local_count s)
    (ss_evt_count s) n (ss_c_orig_size s) (ss_c_comp_size s) (ss_names s) (ss_inodes s).
Definition with_stats (s : secstate) (evt orig comp : Z) : secstate :=
  SecState (ss_keys s) (ss_keysize s) (ss_mode s) (ss_queue s) (ss_global_count s) (ss_local_count s)
    evt (ss_rcv_count s) orig comp (ss_names s) (ss_inodes s).
Definition with_files (s : secstate) (names : gmap cstr Z) (inodes : gmap Z (list Z)) : secstate :=
  SecState (ss_keys s) (ss_keysize s) (ss_mode s) (ss_queue s) (ss_global_count s) (ss_local_count s)
    (ss_evt_count s) (ss_rcv_count s) (ss_c_orig_size s) (ss_c_comp_size s) names inodes.
Definition with_queue (s : secstate) (q : list nat) : secstate :=
  SecState (ss_keys s) (ss_keysize s) (ss_mode s) q (ss_global_count s) (ss_local_count s)
    (ss_evt_count s) (ss_rcv_count s) (ss_c_orig_size s) (ss_c_comp_size s) (ss_names s) (ss_inodes s).

Definition set_counts (k : keyentry) (g l : Z) : keyentry :=
  KeyEntry (ke_id k) (ke_key k) (ke_single_host k) g l (ke_inode k) (ke_fp k) (ke_method k) (ke_updating_time k) (ke_rids_node k).
Definition set_file (k : keyentry) (inode : Z) (fp : option Z) : keyentry :=
  KeyEntry (ke_id k) (ke_key k) (ke_single_host k) (ke_global k) (ke_local k) inode fp (ke_method k) (ke_updating_time k) (ke_rids_node k).
Definition set_method (k : keyentry) (m : crypt_method) : keyentry :=
  KeyEntry (ke_id k) (ke_key k) (ke_single_host k) (ke_global k) (ke_local k) (ke_inode k) (ke_fp k) m (ke_updating_time k) (ke_rids_node k).
Definition set_used (k : keyentry) (now : Z) : keyentry :=
  KeyEntry (ke_id k) (ke_key k) (ke_single_host k) (ke_global k) (ke_local k) (ke_inode k) (ke_fp k) (ke_method k) now true.

(** * Files of counters *)

(** [File_Inode]: 0 for a file that is missing. *)
Definition File_Inode (s : secstate) (name : cstr) : Z := default 0 (ss_names s !! name).

(** ["%u:%u:"] *)
Definition counter_text (g l : Z) : cstr := digits 10 g ++ 58 :: digits 10 l ++ [58].

(** [fscanf("%u:%u")]: both counters, or 0 and 0. *)
Definition scan_counters (content : list Z) : Z * Z :=
  match scan_u content with
  | Some (g, c :: rest) =>
      if c =? 58 then match scan_u rest with Some (l, _) => (g, l) | None => (0, 0) end else (0, 0)
  | _ => (0, 0)
  end.

(** [fseek] to the start and [fprintf]: the text over what was there. *)
Definition overwrite (text content : list Z) : list Z := text ++ drop (length text) content.

Section files.
(** The inode of a file that is created. *)
Variable new_inode : gmap Z (list Z) → Z.

(** [wfopen(file, "r+")], and [wfopen(file, "w")] where it is missing: the
    inode, whether the file was there, and the files. *)
Definition open_rids (s : secstate) (name : cstr) : Z * bool * secstate :=
  match ss_names s !! name with
  | Some i => (i, true, s)
  | None =>
      let i := new_inode (ss_inodes s) in
      (i, false, with_files s (<[name := i]> (ss_names s)) (<[i := []]> (ss_inodes s)))
  end.

Definition write_file (s : secstate) (i : Z) (text : cstr) : option secstate :=
  c ← ss_inodes s !! i; Some (with_files s (ss_names s) (<[i := overwrite text c]> (ss_inodes s))).

(** [OS_RemoveCounter] *)
Definition OS_RemoveCounter (s : secstate) (id : cstr) : secstate :=
  with_files s (delete id (ss_names s)) (ss_inodes s).

(** [StoreSenderCounter] *)
Definition StoreSenderCounter (s : secstate) (global local : Z) : option secstate :=
  k ← ss_keys s !! ss_keysize s; i ← ke_fp k; write_file s i (counter_text global local).

(** [linked_queue_push_ex] and [linked_queue_unlink_and_push_node] on the queue
    of the entries with an open file. *)
Definition requeue (q : list nat) (id : nat) : list nat := filter (λ x, x ≠ id) q ++ [id].

(** [StoreCounter] at the time [now] *)
Definition StoreCounter (s : secstate) (id : nat) (global local now : Z) : option secstate :=
  k ← ss_keys s !! id;
  let '(k, s) :=
    match ke_fp k with
    | Some _ => (k, s)
    | None => let '(i, _, s) := open_rids s (ke_id k) in (set_file k (ke_inode k) (Some i), s)
    end in
  i ← ke_fp k;
  s ← write_file s i (counter_text global local);
  let q := if ke_rids_node k then requeue (ss_queue s) id else ss_queue s ++ [id] in
  Some (with_queue (with_key s id (set_used k now)) q).

(** [ReloadCounter] for an agent, and for the sender. *)
Definition reload_file (s : secstate) (k : keyentry) (cid : cstr) : option (option (Z * Z) * keyentry * secstate) :=
  let new_inode := File_Inode s cid in
  if ke_inode k =? new_inode then Some (None, k, s)
  else
    let '(i, found, s) := open_rids s cid in
    let k := set_file k new_inode (Some i) in
    if found : bool then c ← ss_inodes s !! i; Some (Some (scan_counters c), k, s)
    else Some (None, k, s).
Definition ReloadCounter (s : secstate) (id : nat) (cid : cstr) : option secstate :=
  k ← ss_keys s !! id;
  '(c, k, s) ← reload_file s k cid;
  Some (match c with
        | None => with_key s id k
        | Some (g, l) => if (id =? ss_keysize s)%nat then with_sent (with_key s id k) g l
                         else with_key s id (set_counts k g l)
        end).

(** [OS_StartCounter]: the counters of every entry, then of the sender. *)
Fixpoint start_counters (n : nat) (id : nat) (s : secstate) : option secstate :=
  match n with
  | O => Some s
  | S n =>
      k ← ss_keys s !! id;
      let sender := (id =? ss_keysize s)%nat in
      let name := if sender then SENDER_COUNTER else ke_id k in
      let '(i, found, s) := open_rids s name in
      c ← (if found : bool then scan_counters <$> ss_inodes s !! i else Some (ke_global k, ke_local k));
      let '(g, l) := c in
      let s := if sender then if found : bool then with_sent s g l else s else s in
      let k := if sender then set_file k (File_Inode s name) (Some i)
               else set_file (if found : bool then set_counts k g l else k) (File_Inode s name) None in
      start_counters n (S id) (with_key s id k)
  end.
Definition OS_StartCounter (s : secstate) : option secstate :=
  s ← start_counters (S (ss_keysize s)) 0 s; Some (with_queue s []).
End files.

(** * Memory *)

Definition take_mem (m : list Z) (n : Z) : option (list Z) :=
  if (0 <=? n) && (n <=? length m) then Some (take (Z.to_nat n) m) else None.
Definition put_at (m : list Z) (off : Z) (d : list Z) : option (list Z) :=
  if (0 <=? off) && (off + length d <=? length m)
  then Some (take (Z.to_nat off) m ++ d ++ drop (Z.to_nat (off + length d)) m) else None.

Section crypto.
(** MD5 in hexadecimal, zlib, and the ciphers under a key; a cipher or a
    decompression that fails returns nothing. *)
Variable md5 : list Z → cstr.
Variable compress2 : list Z → list Z.
Variable uncompress : list Z → option (list Z).
Variable bf_encrypt bf_decrypt : cstr → list Z → list Z.
Variable aes_encrypt aes_decrypt : cstr → list Z → list Z.
Variable new_inode : gmap Z (list Z) → Z.

(** [os_zlib_compress] and [os_zlib_uncompress]: [None] is the result 0. *)
Definition os_zlib_compress (src : list Z) (dst_size : Z) : option (list Z) :=
  let z := compress2 src in
  if (length z <=? dst_size) && negb (length z =? 0) then Some z else None.
Definition os_zlib_uncompress (src : list Z) (dst_size : Z) : option (list Z) :=
  z ← uncompress src; if (length z <=? dst_size) && negb (length z =? 0) then Some z else None.

(** [doEncryptByMethod] with OS_ENCRYPT and OS_DECRYPT: what it returns and
    what it writes. *)
Definition doEncryptByMethod (input : list Z) (key : cstr) (encrypt : bool) (m : crypt_method) : Z * list Z :=
  match m with
  | W_METH_BLOWFISH => (1, if encrypt then bf_encrypt key input else bf_decrypt key input)
  | W_METH_AES =>
      let out := if encrypt then aes_encrypt key input else aes_decrypt key input in (Z.of_nat (length out), out)
  end.

Definition os_set_agent_crypto_method (s : secstate) (m : crypt_method) : option secstate :=
  k ← ss_keys s !! 0%nat; Some (with_key s 0 (set_method k m)).

(** [CheckSum]: whether the digest at the start is that of the rest. *)
Definition CheckSum (msg : list Z) (len : Z) : option bool :=
  d ← (if len - 32 <? 0 then Some (cstring (drop 32 msg)) else take_mem (drop 32 msg) (len - 32));
  Some (strncmp (md5 d) (cstring (take 32 msg)) 32 =? 0).

(** ** [CreateSecMSG] *)

(** ["%05hu%010u:%04u:"] and the message *)
Definition numbered (rand1 global local : Z) (msg : list Z) : list Z :=
  zeros 5 (digits 5 rand1) ++ zeros 10 (digits 10 global) ++ 58 :: zeros 4 (digits 10 local) ++ 58 :: msg.

(** The next counters. *)
Definition next_count (g l : Z) : Z * Z :=
  let '(g, l) := if 9997 <=? l then (wrap32 (g + 1), 0) else (g, l) in (g, wrap32 (l + 1)).

(** The padding of a stream of [n] bytes: one exclamation mark and those that
    bring the size to a multiple of 8. *)
Definition padding (n : Z) : Z := let b := 8 - (n + 1) mod 8 in if b =? 8 then 0 else b.

Definition crypto_token (m : crypt_method) : cstr :=
  match m with W_METH_BLOWFISH => [58] | W_METH_AES => [35; 65; 69; 83; 58] end.

(** The beginning in clear: what [snprintf] writes, and what it returns. *)
Definition clear_header (k : keyentry) (is_agent : bool) : cstr * Z :=
  let token := crypto_token (ke_method k) in
  if negb (ke_single_host k) && is_agent then
    let h := 33 :: ke_id k ++ 33 :: token in (take 15 h ++ [0], strlen h)
  else (take 5 token ++ [0], strlen token).

(** The averages of the compression. *)
Definition count_sizes (cf : sec_conf) (s : secstate) (orig comp : Z) : secstate :=
  let o := wrap64 (ss_c_orig_size s + orig) in
  let c := wrap64 (ss_c_comp_size s + comp) in
  let '(e, o, c) := if s_comp_print cf <? ss_evt_count s then (0, 0, 0) else (ss_evt_count s, o, c) in
  with_stats s (wrap32 (e + 1)) o c.

(** The size, the memory of [msg_encrypted] and the state; [rand1] is a random
    number of 16 bits. *)
Definition CreateSecMSG (cf : sec_conf) (s : secstate) (msg out : list Z) (id : nat) (rand1 : Z) (is_agent : bool)
    : option (Z * list Z * secstate) :=
  if negb (ss_mode s) then Some (-1, out, s)
  else if (OS_MAXSTR - OS_HEADER_SIZE <? length msg) || (length msg <? 1) then Some (0, out, s)
  else
    k ← ss_keys s !! id;
    out ← put_at out OS_MAXSTR [0];
    s ← ReloadCounter new_inode s (ss_keysize s) SENDER_COUNTER;
    let '(g, l) := next_count (ss_global_count s) (ss_local_count s) in
    let s := with_sent s g l in
    let tmp := numbered rand1 g l msg in
    let fin := md5 tmp ++ tmp in
    match os_zlib_compress fin (OS_MAXSTR - 12) with
    | None => Some (0, out, s)
    | Some z =>
        let bfsize := padding (length z) in
        let plain := replicate (Z.to_nat (bfsize + 1)) 33 ++ z in
        let cmp_size := Z.of_nat (length z) + 1 + bfsize in
        let s := count_sizes cf s (length fin) cmp_size in
        let '(header, len) := clear_header k is_agent in
        out ← put_at out 0 header;
        let '(crypto_length, cipher) := doEncryptByMethod plain (ke_key k) true (ke_method k) in
        out ← put_at out len cipher;
        s ← StoreSenderCounter s g l;
        Some (Z.max cmp_size crypto_length + len, out, s)
    end.

(** ** [ReadSecMSG] *)

(** The counters of an accepted message. *)
Definition accept (cf : sec_conf) (s : secstate) (id : nat) (k : keyentry) (g l now : Z) : option secstate :=
  let s := with_key s id (set_counts k g l) in
  s ← (if s_recv_flush cf <=? ss_rcv_count s
       then s ← StoreCounter new_inode s id g l now; Some (with_rcv s 0) else Some s);
  Some (with_rcv s (wrap32 (ss_rcv_count s + 1))).

(** A result: the status, and the message with its size. *)
Abbreviation sec_result := (key_states * option (list Z * Z) * secstate)%type.

(** The check against replay, for the message [out]. *)
Definition check_count (cf : sec_conf) (s : secstate) (id : nat) (g l now : Z) (out : list Z * Z) : option sec_result :=
  if negb (s_verify_counter cf) then
    k ← ss_keys s !! id; s ← accept cf s id k g l now; Some (KS_VALID, Some out, s)
  else
    k ← ss_keys s !! id;
    s ← (if s_recv_flush cf <=? ss_rcv_count s then ReloadCounter new_inode s id (ke_id k) else Some s);
    k ← ss_keys s !! id;
    if (ke_global k <? g) || ((g =? ke_global k) && (ke_local k <? l)) then
      s ← accept cf s id k g l now; Some (KS_VALID, Some out, s)
    else if g =? ke_global k then Some (KS_RIDS, None, s)
    else Some (KS_ENCKEY, None, s).

(** A compressed message: [cleartext] begins with an exclamation mark. *)
Definition read_compressed (cf : sec_conf) (s : secstate) (id : nat) (buffer cleartext : list Z) (buffer_size now : Z)
    : option sec_result :=
  cleartext ← put_at cleartext buffer_size [0];
  let '(pad, cleartext) := span (λ c, c =? 33) cleartext in
  src ← take_mem cleartext (wrap32 (buffer_size - length pad));
  match os_zlib_uncompress src OS_MAXSTR with
  | None => Some (KS_CORRUPT, None, s)
  | Some z =>
      buffer ← put_at buffer 0 (z ++ [0]);
      ok ← CheckSum buffer (length z);
      if negb ok then Some (KS_CORRUPT, None, s)
      else
        let msg_global := wrap32 (atoi (cstring (drop 37 buffer))) in
        c ← rd buffer 47;
        if negb (c =? 58) then Some (KS_CORRUPT, None, s)
        else
          let msg_local := wrap32 (atoi (cstring (drop 48 buffer))) in
          check_count cf s id msg_global msg_local now (drop 53 buffer, wrap64 (length z - 53))
  end.

(** A message of the old format: [cleartext] begins with a colon. *)
Definition read_old (cf : sec_conf) (s : secstate) (id : nat) (cleartext : list Z) (buffer_size : Z) : option sec_result :=
  cleartext ← put_at cleartext buffer_size [0];
  let cleartext := drop 1 cleartext in
  ok ← CheckSum cleartext buffer_size;
  if negb ok then Some (KS_CORRUPT, None, s)
  else
    let msg_time := wrap32 (atoi (cstring (drop 32 cleartext))) in
    let msg_count := wrap32 (atoi (cstring (drop 43 cleartext))) in
    k ← ss_keys s !! id;
    let body := cstring (drop 48 cleartext) in
    let skipped := (span (λ c, negb (c =? 58)) body).1 in
    let finish s :=
      if (length skipped <? length body)%nat then
        let off := (48 + length skipped + 1)%nat in
        Some (KS_VALID, Some (drop off cleartext, wrap64 (buffer_size - off)), s)
      else Some (KS_CORRUPT, None, s) in
    if negb (s_verify_counter cf) then finish (with_key s id (set_counts k msg_time 0))
    else if (ke_global k <? msg_time) || ((msg_time =? ke_global k) && (ke_local k <? msg_count))
    then finish (with_key s id (set_counts k msg_time msg_count))
    else Some (KS_RIDS, None, s).

(** [ReadSecMSG]; [client] is the build of the agent, which does not follow the
    peer's cipher; [None] for a key store that holds no keys. *)
Definition ReadSecMSG (cf : sec_conf) (client : bool) (s : secstate) (buffer cleartext : list Z) (id : nat)
    (buffer_size now : Z) : option (option key_states * option (list Z * Z) * secstate) :=
  if negb (ss_mode s) then Some (None, None, s)
  else
    k ← ss_keys s !! id;
    let aes := strncmp (cstring buffer) [35; 65; 69; 83] 4 =? 0 in
    let buffer := if aes then drop 4 buffer else buffer in
    let k := if client then k else set_method k (if aes then W_METH_AES else W_METH_BLOWFISH) in
    let s := with_key s id k in
    c ← rd buffer 0;
    if negb (c =? 58) then Some (Some KS_CORRUPT, None, s)
    else
      let buffer := drop 1 buffer in
      let size := match ke_method k with W_METH_BLOWFISH => buffer_size | W_METH_AES => int32 (buffer_size - 4) end in
      if size <? 0 then Some (Some KS_ENCKEY, None, s)
      else
        input ← take_mem buffer size;
        let '(ret, plain) := doEncryptByMethod input (ke_key k) false (ke_method k) in
        cleartext ← put_at cleartext 0 plain;
        if ret =? 0 then Some (Some KS_ENCKEY, None, s)
        else
          first ← rd cleartext 0;
          r ← (if first =? 33 then read_compressed cf s id buffer cleartext buffer_size now
               else if first =? 58 then read_old cf s id cleartext buffer_size
               else Some (KS_ENCKEY, None, s));
          let '(st, out, s) := r in Some (Some st, out, s).
End crypto.

(** [HandleSecureMessage] of remoted, up to the key: the identifier in clear
    that an agent puts before its message, the message and its size; nothing
    for a message that does not name its agent, and [None] for a name that does
    not end. *)
Definition strip_id (buffer : list Z) (recv_b : Z) : option (option cstr * list Z * Z) :=
  match buffer with
  | c :: tmp_msg =>
      if c =? 33 then
        let '(id, tmp_msg) := span isdigit tmp_msg in
        match tmp_msg with
        | c :: tmp_msg => if c =? 33 then Some (Some id, tmp_msg, recv_b - length id - 2) else None
        | [] => None
        end
      else Some (None, buffer, recv_b)
  | [] => Some (None, buffer, recv_b)
  end.
