(* ===== verification/SecMsgSpec.v ===== *)
(** The encrypted messages: what is created is read back, a message is never
    accepted twice, and the counters survive in their files. *)

From S2P Require Import Prelude CLib NetBuffer SecMsg.

(** * The files of counters *)

Lemma scan_u_digits n c t : uint32 n → isdigit c = false → scan_u (digits 10 n ++ c :: t) = Some (n, c :: t).
Proof.
  intros Hn Hc. unfold scan_u. unfold uint32 in Hn.
  rewrite scan_number_digits; [|apply digits_nonempty|apply digits_isdigit; lia|done]. cbn [mbind option_bind].
  rewrite undigits_digits by (change (10 ^ Z.of_nat 10) with 10000000000; lia).
  destruct (Z.ltb_spec 18446744073709551615 n); [lia|]. by rewrite wrap32_id.
Qed.

(** The counters written to a file are the counters read from it, whatever
    longer text was there before. *)
Theorem counters_file_roundtrip g l content :
  uint32 g → uint32 l → scan_counters (overwrite (counter_text g l) content) = (g, l).
Proof.
  intros Hg Hl. unfold scan_counters, overwrite, counter_text. rewrite <-!app_assoc, <-app_comm_cons.
  rewrite scan_u_digits by done. simpl Z.eqb. cbv iota. rewrite <-app_assoc. cbn [app].
  by rewrite scan_u_digits.
Qed.

(** * Memory *)

Lemma put_at_ok (m : list Z) A Y B off d :
  m = A ++ Y ++ B → off = Z.of_nat (length A) → length d = length Y → put_at m off d = Some (A ++ d ++ B).
Proof.
  intros -> -> Hd. unfold put_at. rewrite !length_app.
  rewrite (proj2 (Z.leb_le 0 _)), (proj2 (Z.leb_le (Z.of_nat (length A) + Z.of_nat (length d)) _)) by lia. simpl.
  rewrite Nat2Z.id, take_app_length. replace (Z.to_nat (Z.of_nat (length A) + Z.of_nat (length d))) with (length (A ++ Y)) by (rewrite length_app; lia).
  by rewrite (app_assoc A Y B), drop_app_length.
Qed.
(** Writing at the start. *)
Lemma put_at_0 (m d : list Z) : (length d ≤ length m)%nat → put_at m 0 d = Some (d ++ drop (length d) m).
Proof.
  intros Hd. rewrite (put_at_ok m [] (take (length d) m) (drop (length d) m)); [done| |done|rewrite length_take; lia].
  by rewrite take_drop.
Qed.
(** Writing one byte after a prefix. *)
Lemma put_at_1 (m : list Z) off c :
  0 <= off < length m → put_at m off [c] = Some (take (Z.to_nat off) m ++ c :: drop (Z.to_nat off + 1) m).
Proof.
  intros H. rewrite (put_at_ok m (take (Z.to_nat off) m) (take 1 (drop (Z.to_nat off) m)) (drop (Z.to_nat off + 1) m)); [done|..].
  - by rewrite <-drop_drop, take_drop, take_drop.
  - rewrite length_take. lia.
  - rewrite length_take, length_drop. change (length [c]) with 1%nat. lia.
Qed.
Lemma take_mem_ok (m : list Z) (n : nat) : (n ≤ length m)%nat → take_mem m n = Some (take n m).
Proof. intros H. unfold take_mem. rewrite !(proj2 (Z.leb_le _ _)) by lia. by rewrite Nat2Z.id. Qed.

Lemma cstring_prefix s m : Forall (λ c, c ≠ 0) s → cstring (s ++ m) = s ++ cstring m.
Proof. induction 1 as [|c s Hc _ IH]; [done|]. simpl. rewrite IH. by destruct (Z.eqb_spec c 0). Qed.

Lemma digit_nonzero s : Forall (λ c, isdigit c = true) s → Forall (λ c, c ≠ 0) s.
Proof. intros H. eapply Forall_impl; [exact H|]. intros c Hc ->. done. Qed.

Lemma atoi_digits w n t c :
  uint32 n → c ≠ 0 → isdigit c = false →
  wrap32 (atoi (cstring (zeros w (digits 10 n) ++ c :: t))) = n.
Proof.
  unfold uint32. intros Hn Hc0 Hc. assert (Forall (λ c, isdigit c = true) (zeros w (digits 10 n))) as Hd.
  { apply zeros_isdigit, digits_isdigit. lia. }
  rewrite cstring_prefix by (by apply digit_nonzero). simpl cstring. destruct (Z.eqb_spec c 0); [done|].
  unfold atoi, strtol. rewrite scan_number_digits; [| |done|done].
  2: { unfold zeros. intros E. apply app_eq_nil in E as [_ E]. by eapply digits_nonempty. }
  rewrite undigits_zeros, undigits_digits by (change (10 ^ Z.of_nat 10) with 10000000000; lia). unfold LONG_MAX.
  rewrite !(proj2 (Z.ltb_ge _ _)) by lia. simpl.
  unfold int32, wrap32. rewrite Zminus_mod_idemp_l. replace (n + 2147483648 - 2147483648) with n by lia. apply Z.mod_small. lia.
Qed.

(** * What the libraries promise *)

(** The digest is 32 characters; a zlib stream is not empty, begins with its
    method byte, which is no exclamation mark, ends by itself and is bounded by
    [compressBound]; Blowfish in CBC mode keeps the length of whole blocks; AES
    pads to the next block; each cipher is undone under its key. *)
Class CryptoLaws (md5 : list Z → cstr) (compress2 : list Z → list Z) (uncompress : list Z → option (list Z))
    (bf_encrypt bf_decrypt aes_encrypt aes_decrypt : cstr → list Z → list Z) : Prop := {
  md5_length x : length (md5 x) = 32%nat;
  md5_text x : Forall (λ c, c ≠ 0) (md5 x);
  zlib_first x : ∃ c z, compress2 x = c :: z ∧ c ≠ 33;
  zlib_back x junk : uncompress (compress2 x ++ junk) = Some x;
  zlib_bound x : Z.of_nat (length (compress2 x)) <=
    Z.of_nat (length x) + Z.of_nat (length x) / 4096 + Z.of_nat (length x) / 16384 + Z.of_nat (length x) / 33554432 + 13;
  bf_back k p : Z.of_nat (length p) mod 8 = 0 → bf_decrypt k (bf_encrypt k p) = p;
  bf_length k p : Z.of_nat (length p) mod 8 = 0 → length (bf_encrypt k p) = length p;
  aes_back k p : aes_decrypt k (aes_encrypt k p) = p;
  aes_length k p : Z.of_nat (length (aes_encrypt k p)) = 16 * (Z.of_nat (length p) / 16 + 1)
}.

Section channel.
Context (md5 : list Z → cstr) (compress2 : list Z → list Z) (uncompress : list Z → option (list Z)).
Context (bf_encrypt bf_decrypt aes_encrypt aes_decrypt : cstr → list Z → list Z).
Context (laws : CryptoLaws md5 compress2 uncompress bf_encrypt bf_decrypt aes_encrypt aes_decrypt).
Context (new_inode : gmap Z (list Z) → Z).

Abbreviation create := (CreateSecMSG md5 compress2 bf_encrypt bf_decrypt aes_encrypt aes_decrypt new_inode).
Abbreviation read := (ReadSecMSG md5 uncompress bf_encrypt bf_decrypt aes_encrypt aes_decrypt new_inode).

Definition encrypt (m : crypt_method) (key : cstr) (p : list Z) : list Z :=
  match m with W_METH_BLOWFISH => bf_encrypt key p | W_METH_AES => aes_encrypt key p end.

(** The parts of a message on its way. *)
Definition signed (rand1 g l : Z) (msg : list Z) : list Z := md5 (numbered rand1 g l msg) ++ numbered rand1 g l msg.
Definition padded (z : list Z) : list Z := replicate (Z.to_nat (padding (length z) + 1)) 33 ++ z.
Definition packet (m : crypt_method) (key : cstr) (rand1 g l : Z) (msg : list Z) : list Z :=
  crypto_token m ++ encrypt m key (padded (compress2 (signed rand1 g l msg))).

(** The counters fit their columns. *)
Definition columns (rand1 g l : Z) : Prop := 0 <= rand1 < 65536 ∧ uint32 g ∧ 0 <= l < 10000.

Lemma numbered_length rand1 g l msg : columns rand1 g l → length (numbered rand1 g l msg) = (21 + length msg)%nat.
Proof.
  intros (Hr & Hg & Hl). unfold uint32 in Hg. unfold numbered.
  repeat (rewrite length_app || rewrite length_cons).
  rewrite !length_zeros_digits; [lia|lia|simpl; lia|lia|simpl; lia|lia|simpl; lia].
Qed.
Lemma signed_length rand1 g l msg : columns rand1 g l → length (signed rand1 g l msg) = (53 + length msg)%nat.
Proof using laws. intros H. unfold signed. rewrite length_app, md5_length, numbered_length by done. lia. Qed.

(** What is found at the offsets of the reader. *)
Lemma signed_parts rand1 g l msg rest :
  columns rand1 g l →
  let b := signed rand1 g l msg ++ rest in
  wrap32 (atoi (cstring (drop 37 b))) = g ∧ rd b 47 = Some 58 ∧
  wrap32 (atoi (cstring (drop 48 b))) = l ∧ drop 53 b = msg ++ rest.
Proof using laws.
  intros (Hr & Hg & Hl) b. assert (uint32 l) as Hl' by (unfold uint32; lia).
  set (A := md5 (numbered rand1 g l msg)). set (R := zeros 5 (digits 5 rand1)).
  set (G := zeros 10 (digits 10 g)). set (L := zeros 4 (digits 10 l)).
  assert (b = A ++ R ++ G ++ 58 :: L ++ 58 :: msg ++ rest) as Hb.
  { unfold b, signed, numbered. fold A R G L. rewrite <-!app_assoc. cbn [app]. by rewrite <-!app_assoc. }
  assert (length A = 32%nat) as HA by apply md5_length. unfold uint32 in Hg.
  assert (length R = 5%nat) as HR by (apply length_zeros_digits; simpl; lia).
  assert (length G = 10%nat) as HG by (apply length_zeros_digits; simpl; lia).
  assert (length L = 4%nat) as HL by (apply length_zeros_digits; simpl; lia).
  assert (drop 37 b = G ++ 58 :: L ++ 58 :: msg ++ rest) as H37.
  { rewrite Hb, app_assoc. apply drop_app_length'. rewrite length_app. lia. }
  assert (drop 47 b = 58 :: L ++ 58 :: msg ++ rest) as H47.
  { rewrite Hb, !app_assoc. apply drop_app_length'. rewrite !length_app. lia. }
  assert (drop 48 b = L ++ 58 :: msg ++ rest) as H48.
  { change 48%nat with (47 + 1)%nat. by rewrite <-drop_drop, H47. }
  split_and!.
  - rewrite H37. by apply atoi_digits.
  - unfold rd. change (47 <? 0) with false. change (Z.to_nat 47) with (47 + 0)%nat. cbv iota.
    by rewrite <-lookup_drop, H47.
  - rewrite H48. by apply atoi_digits.
  - change 53%nat with (48 + 5)%nat. rewrite <-drop_drop, H48.
    change (L ++ 58 :: msg ++ rest) with (L ++ [58] ++ msg ++ rest). rewrite app_assoc.
    apply drop_app_length'. rewrite length_app, HL. done.
Qed.

Lemma checksum_signed rand1 g l msg rest :
  columns rand1 g l → CheckSum md5 (signed rand1 g l msg ++ rest) (length (signed rand1 g l msg)) = Some true.
Proof using laws.
  intros Hc. unfold CheckSum. rewrite signed_length by done. rewrite (proj2 (Z.ltb_ge _ _)) by lia.
  unfold signed. rewrite <-app_assoc. rewrite drop_app_length' by (by rewrite md5_length).
  replace (Z.of_nat (53 + length msg) - 32) with (Z.of_nat (length (numbered rand1 g l msg))) by (rewrite numbered_length by done; lia).
  rewrite take_mem_ok by (rewrite length_app; lia). rewrite take_app_length. cbn [mbind option_bind].
  rewrite take_app_length' by (by rewrite md5_length). rewrite cstring_id by apply md5_text.
  unfold strncmp. by rewrite strcmp_refl.
Qed.

(** The padding stops at the stream. *)
Lemma span_padded x junk :
  span (λ c, c =? 33) (padded (compress2 x) ++ junk) =
  (replicate (Z.to_nat (padding (length (compress2 x)) + 1)) 33, compress2 x ++ junk).
Proof using laws.
  unfold padded. destruct (zlib_first x) as (c & z & Hz & Hc). rewrite <-app_assoc. rewrite Hz at 2 4. rewrite <-app_comm_cons.
  apply span_stop; [by apply Forall_replicate|]. by apply Z.eqb_neq.
Qed.
Lemma padding_range n : 0 <= padding n < 8 ∧ (n + 1 + padding n) mod 8 = 0.
Proof.
  unfold padding. pose proof (Z.mod_pos_bound (n + 1) 8 ltac:(lia)). pose proof (Z.div_mod (n + 1) 8 ltac:(lia)).
  destruct (Z.eqb_spec (8 - (n + 1) mod 8) 8) as [E|E]; (split; [lia|]).
  - rewrite Z.add_0_r. lia.
  - replace (n + 1 + (8 - (n + 1) mod 8)) with (8 * ((n + 1) / 8 + 1)) by lia. apply Z.mod_mul || (rewrite Z.mul_comm; apply Z.mod_mul; lia).
Qed.
Lemma padded_length z : Z.of_nat (length (padded z)) = Z.of_nat (length z) + 1 + padding (length z) ∧ Z.of_nat (length (padded z)) mod 8 = 0.
Proof.
  pose proof (padding_range (length z)) as [H1 H2]. unfold padded. rewrite length_app, length_replicate.
  assert (Z.of_nat (Z.to_nat (padding (length z) + 1) + length z) = Z.of_nat (length z) + 1 + padding (length z)) as -> by lia. done.
Qed.

(** The sizes on the way, for a message that may be sent. *)
Definition sendable (msg : list Z) : Prop := 1 <= Z.of_nat (length msg) <= OS_MAXSTR - OS_HEADER_SIZE.

Lemma stream_size rand1 g l msg :
  columns rand1 g l → sendable msg → 0 < Z.of_nat (length (compress2 (signed rand1 g l msg))) <= 65492.
Proof using laws.
  intros Hc Hm. unfold sendable, OS_MAXSTR, OS_HEADER_SIZE in Hm.
  pose proof (zlib_bound (signed rand1 g l msg)) as Hb. rewrite signed_length in Hb by done.
  destruct (zlib_first (signed rand1 g l msg)) as (c & z & Hz & _). split; [rewrite Hz; simpl; lia|].
  set (n := Z.of_nat (53 + length msg)) in *. assert (n <= 65461) by (unfold n; lia).
  assert (n / 4096 < 16) by (apply Z.div_lt_upper_bound; lia). assert (n / 16384 < 4) by (apply Z.div_lt_upper_bound; lia).
  assert (n / 33554432 < 1) by (apply Z.div_lt_upper_bound; lia). lia.
Qed.
Lemma encrypt_length m key z :
  let n := Z.of_nat (length (padded z)) in
  n <= Z.of_nat (length (encrypt m key (padded z))) <= n + 16 ∧
  (m = W_METH_BLOWFISH → Z.of_nat (length (encrypt m key (padded z))) = n).
Proof using laws.
  intros n. pose proof (padded_length z) as [_ H8]. unfold encrypt. destruct m.
  - rewrite bf_length by done. split; [unfold n; lia|done].
  - rewrite aes_length. fold n. pose proof (Z.div_mod n 16 ltac:(lia)). pose proof (Z.mod_pos_bound n 16 ltac:(lia)).
    split; [lia|done].
Qed.

Lemma read_compressed_packet cf s id m key rand1 g l msg tail clear now :
  columns rand1 g l → sendable msg →
  let z := compress2 (signed rand1 g l msg) in
  let c := encrypt m key (padded z) in
  Z.of_nat (length c + length tail) >= OS_MAXSTR - 25 → Z.of_nat (length clear) >= OS_MAXSTR + 1 →
  ∃ rest, read_compressed md5 uncompress new_inode cf s id (c ++ tail) (padded z ++ drop (length (padded z)) clear)
      (length (crypto_token m) + length c - 1) now =
    check_count new_inode cf s id g l now (msg ++ rest, Z.of_nat (length msg)).
Proof using laws.
  intros Hc Hm z c Htail Hclear. pose proof (stream_size _ _ _ _ Hc Hm) as Hz. fold z in Hz.
  pose proof (padded_length z) as [Hp _]. pose proof (padding_range (length z)) as [Hpr _].
  pose proof (encrypt_length m key z) as [Hcl _]. fold c in Hcl. simpl in Hcl. unfold OS_MAXSTR in *.
  assert (1 <= Z.of_nat (length (crypto_token m)) <= 5) as Ht by (destruct m; simpl; lia).
  set (bs := Z.of_nat (length (crypto_token m)) + Z.of_nat (length c) - 1).
  unfold read_compressed. rewrite put_at_1 by (rewrite length_app, length_drop; lia). cbn [mbind option_bind].
  assert (take (Z.to_nat bs) (padded z ++ drop (length (padded z)) clear) =
    padded z ++ take (Z.to_nat bs - length (padded z)) (drop (length (padded z)) clear)) as ->.
  { apply take_app_ge. unfold bs. lia. }
  set (j1 := take (Z.to_nat bs - length (padded z)) (drop (length (padded z)) clear)).
  set (j2 := drop (Z.to_nat bs + 1) _). rewrite <-app_assoc.
  pose proof (span_padded (signed rand1 g l msg) (j1 ++ 0 :: j2)) as Hsp. fold z in Hsp. rewrite Hsp.
  assert (length j1 = (Z.to_nat bs - length (padded z))%nat) as Hj1 by (unfold j1; rewrite length_take, length_drop; lia).
  rewrite length_replicate. rewrite wrap32_id by (unfold uint32, bs; lia).
  replace (bs - Z.of_nat (Z.to_nat (padding (length z) + 1))) with (Z.of_nat (length (z ++ j1)))
    by (rewrite length_app, Hj1; unfold bs; lia).
  rewrite app_assoc, take_mem_ok by (rewrite (length_app (z ++ j1)); lia). rewrite take_app_length. cbn [mbind option_bind].
  unfold os_zlib_uncompress, z. rewrite zlib_back. cbn [mbind option_bind].
  pose proof (signed_length rand1 g l msg Hc) as Hsl. unfold sendable, OS_MAXSTR, OS_HEADER_SIZE in Hm.
  rewrite (proj2 (Z.leb_le _ _)), (proj2 (Z.eqb_neq _ _)) by (unfold OS_MAXSTR; lia). cbn [negb andb].
  rewrite put_at_0 by (rewrite !length_app; simpl length; lia). cbn [mbind option_bind].
  rewrite <-app_assoc, checksum_signed by done. cbn [mbind option_bind negb].
  set (rest := [0] ++ drop (length (signed rand1 g l msg ++ [0])) (c ++ tail)).
  destruct (signed_parts rand1 g l msg rest Hc) as (-> & -> & -> & ->). cbn [mbind option_bind]. change (negb (58 =? 58)) with false.
  cbv iota. exists rest. rewrite Hsl. rewrite wrap64_id by (unfold size_t; lia). do 2 f_equal. lia.
Qed.

Lemma read_packet cf client s k id m rand1 g l msg tail clear now :
  ss_mode s = true → ss_keys s !! id = Some k → (client = true → ke_method k = m) →
  columns rand1 g l → sendable msg →
  let p := packet m (ke_key k) rand1 g l msg in
  Z.of_nat (length (p ++ tail)) >= OS_MAXSTR - 20 → Z.of_nat (length clear) >= OS_MAXSTR + 1 →
  ∃ rest, read cf client s (p ++ tail) clear id (length p - 1) now =
    ('(st, out, s') ← check_count new_inode cf (with_key s id (if client then k else set_method k m)) id g l now
        (msg ++ rest, Z.of_nat (length msg));
     Some (Some st, out, s')).
Proof using laws.
  intros Hmode Hk Hcm Hc Hm p Htail Hclear. unfold p, packet in *. set (z := compress2 (signed rand1 g l msg)) in *.
  set (c := encrypt m (ke_key k) (padded z)) in *.
  pose proof (stream_size _ _ _ _ Hc Hm) as Hz. fold z in Hz. pose proof (padded_length z) as [Hp Hp8].
  pose proof (padding_range (length z)) as [Hpr _]. pose proof (encrypt_length m (ke_key k) z) as [Hcl Hbf].
  fold c in Hcl, Hbf. simpl in Hcl, Hbf. unfold OS_MAXSTR in *.
  unfold ReadSecMSG. rewrite Hmode, Hk. cbn [negb mbind option_bind].
  assert ((strncmp (cstring ((crypto_token m ++ c) ++ tail)) [35; 65; 69; 83] 4 =? 0) = match m with W_METH_AES => true | _ => false end) as ->
    by (by destruct m).
  set (k' := if client then k else set_method k (if match m with W_METH_AES => true | _ => false end then W_METH_AES else W_METH_BLOWFISH)).
  assert (k' = (if client then k else set_method k m) ∧ ke_method k' = m ∧ ke_key k' = ke_key k) as (Hk' & Hkm & Hkk).
  { unfold k'. destruct client; [split_and!; [done|by apply Hcm|done]|]. by destruct m. }
  rewrite <-Hk'. clearbody k'.
  assert ((if match m with W_METH_AES => true | _ => false end then drop 4 ((crypto_token m ++ c) ++ tail) else (crypto_token m ++ c) ++ tail) =
    58 :: c ++ tail) as -> by (by destruct m).
  change (rd (58 :: c ++ tail) 0) with (Some 58). cbn [mbind option_bind]. change (negb (58 =? 58)) with false. cbv iota.
  change (drop 1 (58 :: c ++ tail)) with (c ++ tail). rewrite Hkm, Hkk.
  assert (match m with W_METH_BLOWFISH => Z.of_nat (length (crypto_token m ++ c)) - 1 | W_METH_AES => int32 (Z.of_nat (length (crypto_token m ++ c)) - 1 - 4) end
    = Z.of_nat (length c)) as Hsize.
  { rewrite length_app. destruct m; simpl length; [lia|]. unfold int32. rewrite Z.mod_small by lia. lia. }
  rewrite Hsize, (proj2 (Z.ltb_ge _ _)) by lia. rewrite take_mem_ok by (rewrite length_app; lia). rewrite take_app_length.
  cbn [mbind option_bind].
  assert (∃ ret, ret ≠ 0 ∧ doEncryptByMethod bf_encrypt bf_decrypt aes_encrypt aes_decrypt c (ke_key k) false m = (ret, padded z)) as (ret & Hret & ->).
  { unfold doEncryptByMethod, c, encrypt. destruct m; [exists 1; by rewrite bf_back|].
    rewrite aes_back. eexists. split; [|done]. lia. }
  rewrite put_at_0 by lia. cbn [mbind option_bind]. rewrite (proj2 (Z.eqb_neq _ _)) by done.
  assert (rd (padded z ++ drop (length (padded z)) clear) 0 = Some 33) as ->.
  { unfold padded. replace (Z.to_nat (padding (length z) + 1)) with (S (Z.to_nat (padding (length z)))) by lia. done. }
  cbn [mbind option_bind]. change (33 =? 33) with true. cbv iota.
  replace (Z.of_nat (length (crypto_token m ++ c)) - 1) with (Z.of_nat (length (crypto_token m)) + Z.of_nat (length c) - 1)
    by (rewrite length_app; lia).
  rewrite !length_app in Htail.
  destruct (read_compressed_packet cf (with_key s id k') id m (ke_key k) rand1 g l msg tail clear now Hc Hm) as [rest Hrest].
  { fold z c. unfold OS_MAXSTR. destruct m; simpl in Htail; lia. }
  { unfold OS_MAXSTR. lia. }
  fold z c in Hrest. rewrite Hrest. exists rest. done.
Qed.
End channel.

(** * A library that keeps the promises *)

(** A constant digest, a stream that stores its text after a length, a cipher
    that flips bits and one that pads to blocks of 16. *)
Module Toy.
Definition md5 (_ : list Z) : cstr := replicate 32 97.
Definition compress2 (x : list Z) : list Z := 120 :: Z.of_nat (length x) :: x.
Definition uncompress (x : list Z) : option (list Z) :=
  match x with c :: n :: x => if c =? 120 then take_mem x n else None | _ => None end.
Definition bf (_ : cstr) (x : list Z) : list Z := map (λ b, Z.lxor b 85) x.
Definition aes_encrypt (_ : cstr) (x : list Z) : list Z :=
  let n := 16 - Z.of_nat (length x) mod 16 in x ++ replicate (Z.to_nat n) n.
Definition aes_decrypt (_ : cstr) (x : list Z) : list Z :=
  match last x with Some n => take (length x - Z.to_nat n) x | None => [] end.
Definition new_inode (m : gmap Z (list Z)) : Z := map_fold (λ i _ n, Z.max n (i + 1)) 1 m.
End Toy.

Lemma toy_aes_back k p : Toy.aes_decrypt k (Toy.aes_encrypt k p) = p.
Proof.
  unfold Toy.aes_decrypt, Toy.aes_encrypt. pose proof (Z.mod_pos_bound (Z.of_nat (length p)) 16 ltac:(lia)).
  set (n := 16 - Z.of_nat (length p) mod 16) in *. assert (last (p ++ replicate (Z.to_nat n) n) = Some n) as ->.
  { replace (Z.to_nat n) with (Z.to_nat (n - 1) + 1)%nat by lia. rewrite replicate_add, app_assoc. apply last_snoc. }
  rewrite length_app, length_replicate. apply take_app_length'. lia.
Qed.

#[export] Instance toy_laws :
  CryptoLaws Toy.md5 Toy.compress2 Toy.uncompress Toy.bf Toy.bf Toy.aes_encrypt Toy.aes_decrypt.
Proof.
  split.
  - intros x. done.
  - intros x. unfold Toy.md5. by apply Forall_replicate.
  - intros x. eexists _, _. split; [done|]. lia.
  - intros x junk. cbn. rewrite take_mem_ok by (rewrite length_app; lia). by rewrite take_app_length.
  - intros x. cbn [Toy.compress2 length]. pose proof (Z.div_pos (Z.of_nat (length x)) 4096). pose proof (Z.div_pos (Z.of_nat (length x)) 16384).
    pose proof (Z.div_pos (Z.of_nat (length x)) 33554432). lia.
  - intros k p _. unfold Toy.bf. rewrite map_map. transitivity (map (λ x : Z, x) p); [|apply map_id].
    apply map_ext. intros b. by rewrite Z.lxor_assoc, Z.lxor_nilpotent, Z.lxor_0_r.
  - intros k p _. unfold Toy.bf. apply length_map.
  - apply toy_aes_back.
  - intros k p. unfold Toy.aes_encrypt. rewrite length_app, length_replicate.
    pose proof (Z.div_mod (Z.of_nat (length p)) 16 ltac:(lia)). pose proof (Z.mod_pos_bound (Z.of_nat (length p)) 16 ltac:(lia)). lia.
Qed.
