(* ===== verification/SecReplay.v ===== *)
(** The counters of the encrypted messages: whatever is read or sent, the
    counters of an agent never go back, and a message that was accepted is
    never accepted again. *)

From S2P Require Import Prelude CLib NetBuffer SecMsg SecMsgSpec.

(** * The counters of an agent *)

(** The entry [k] of an agent, with its file of counters: the file is the one
    its entry remembers, and is open or not. *)
Definition entry_ok (s : secstate) (id : nat) (k : keyentry) : Prop :=
  ss_keys s !! id = Some k ∧ ss_names s !! ke_id k = Some (ke_inode k) ∧ is_Some (ss_inodes s !! ke_inode k) ∧
  (ke_fp k = None ∨ ke_fp k = Some (ke_inode k)).

(** Counters in the order of the messages. *)
Definition before (a b : Z * Z) : Prop := a.1 < b.1 ∨ (a.1 = b.1 ∧ a.2 < b.2).
Definition counts (k : keyentry) : Z * Z := (ke_global k, ke_local k).

Definition newer (k : keyentry) (g l : Z) : bool := (ke_global k <? g) || ((g =? ke_global k) && (ke_local k <? l)).
Lemma newer_spec k g l : newer k g l = true ↔ before (counts k) (g, l).
Proof.
  unfold newer, before. simpl. rewrite orb_true_iff, andb_true_iff, !Z.ltb_lt, Z.eqb_eq. intuition lia.
Qed.
Lemma before_trans a b c : before a b → before b c → before a c.
Proof. unfold before. lia. Qed.
Lemma before_irrefl a : ¬ before a a.
Proof. unfold before. lia. Qed.

(** What is kept of an entry that is not the one an operation works on. *)
Record frame (id : nat) (s s' : secstate) : Prop := {
  frame_key : ss_keys s' !! id = ss_keys s !! id;
  frame_size : ss_keysize s' = ss_keysize s;
  frame_mode : ss_mode s' = ss_mode s;
  frame_names n i : ss_names s !! n = Some i → ss_names s' !! n = Some i;
  frame_inodes i : is_Some (ss_inodes s !! i) → is_Some (ss_inodes s' !! i)
}.
#[export] Instance frame_refl id : Reflexive (frame id).
Proof. intros s. by split. Qed.
#[export] Instance frame_trans id : Transitive (frame id).
Proof. intros s1 s2 s3 [] []. split; [congruence|congruence|congruence|auto|auto]. Qed.

Lemma frame_entry id s s' k : frame id s s' → entry_ok s id k → entry_ok s' id k.
Proof. intros [H1 _ _ H4 H5] (Hk & Hn & Hi & Hf). split_and!; [congruence|auto|auto|done]. Qed.

Lemma frame_with_key id id' s k : id ≠ id' → frame id s (with_key s id' k).
Proof. intros H. split; try done. simpl. by rewrite list_lookup_insert_ne. Qed.

Lemma entry_with_key s id k k' :
  entry_ok s id k → ke_id k' = ke_id k → ke_inode k' = ke_inode k → (ke_fp k' = ke_fp k ∨ ke_fp k' = Some (ke_inode k)) →
  entry_ok (with_key s id k') id k'.
Proof.
  intros (Hk & Hn & Hi & Hf) Eid Ei Ef. unfold entry_ok. rewrite Eid, Ei. split_and!; [|done|done|].
  - simpl. apply list_lookup_insert_eq. by eapply lookup_lt_Some.
  - destruct Ef as [->| ->]; [done|]. by right.
Qed.

(** A state with the same entries, sizes and files. *)
Lemma frame_other id s s' :
  ss_keys s' = ss_keys s → ss_keysize s' = ss_keysize s → ss_mode s' = ss_mode s →
  ss_names s' = ss_names s → ss_inodes s' = ss_inodes s → frame id s s'.
Proof. intros E1 E2 E3 E4 E5. split; by rewrite ?E1, ?E2, ?E3, ?E4, ?E5. Qed.

Section files.
Context (new_inode : gmap Z (list Z) → Z).

Lemma frame_write id s i t s' : write_file s i t = Some s' → frame id s s'.
Proof.
  unfold write_file. destruct (ss_inodes s !! i) as [c|] eqn:Hc; intros [= <-]. split; try done. simpl. intros j Hj.
  destruct (decide (i = j)) as [->|Hne]; [rewrite lookup_insert_eq; done|by rewrite lookup_insert_ne].
Qed.
Lemma frame_open id s n i b s' : open_rids new_inode s n = (i, b, s') → frame id s s'.
Proof.
  unfold open_rids. destruct (ss_names s !! n) as [j|] eqn:Hn; intros [= <- <- <-]; [done|]. split; try done; simpl.
  - intros m j Hm. rewrite lookup_insert_ne; [done|]. intros ->. congruence.
  - intros j Hj. destruct (decide (new_inode (ss_inodes s) = j)) as [->|Hne]; [rewrite lookup_insert_eq; done|by rewrite lookup_insert_ne].
Qed.

Lemma frame_store id id' s g l now s' : id ≠ id' → StoreCounter new_inode s id' g l now = Some s' → frame id s s'.
Proof.
  intros Hne H. unfold StoreCounter in H. destruct (ss_keys s !! id') as [k|] eqn:Hk; [|done]. simpl in H.
  destruct (match ke_fp k with Some _ => (k, s) | None => _ end) as [k1 s1] eqn:E1.
  assert (frame id s s1) as F1.
  { destruct (ke_fp k); [injection E1 as <- <-; done|].
    destruct (open_rids new_inode s (ke_id k)) as [[i b] s2] eqn:Eo. injection E1 as <- <-. by eapply frame_open. }
  destruct (ke_fp k1) as [i|]; [|done]. simpl in H. destruct (write_file s1 i _) as [s2|] eqn:Ew; [|done]. simpl in H.
  injection H as <-. etransitivity; [exact F1|]. etransitivity; [by eapply frame_write|].
  etransitivity; [by apply (frame_with_key id id')|]. by apply frame_other.
Qed.

Lemma frame_reload id id' s cid s' : id ≠ id' → ReloadCounter new_inode s id' cid = Some s' → frame id s s'.
Proof.
  intros Hne H. unfold ReloadCounter in H. destruct (ss_keys s !! id') as [k|] eqn:Hk; [|done]. simpl in H.
  destruct (reload_file new_inode s k cid) as [[[c k1] s1]|] eqn:Er; [|done]. simpl in H.
  assert (frame id s s1) as F1.
  { unfold reload_file in Er. destruct (ke_inode k =? File_Inode s cid); [by injection Er as <- <- <-|].
    destruct (open_rids new_inode s cid) as [[i b] s2] eqn:Eo. pose proof (frame_open id _ _ _ _ _ Eo).
    destruct b; [|by injection Er as <- <- <-]. destruct (ss_inodes s2 !! i); [|done]. by injection Er as <- <- <-. }
  etransitivity; [exact F1|]. destruct c as [[g l]|]; [destruct (id' =? ss_keysize s1)%nat|]; injection H as <-;
    try by apply frame_with_key.
  etransitivity; [by apply (frame_with_key id id')|]. by apply frame_other.
Qed.

(** ** The operations on the entry itself *)

Lemma store_entry s id k g l now :
  entry_ok s id k →
  ∃ s' k', StoreCounter new_inode s id g l now = Some s' ∧ entry_ok s' id k' ∧ counts k' = counts k ∧
    ke_id k' = ke_id k ∧ ke_key k' = ke_key k ∧ ke_method k' = ke_method k ∧
    ss_keysize s' = ss_keysize s ∧ ss_mode s' = ss_mode s ∧ ss_rcv_count s' = ss_rcv_count s ∧
    ss_names s' = ss_names s ∧ (∃ c, ss_inodes s' = <[ke_inode k := overwrite (counter_text g l) c]> (ss_inodes s)) ∧
    (∀ id', id' ≠ id → ss_keys s' !! id' = ss_keys s !! id') ∧ ke_inode k' = ke_inode k.
Proof.
  intros (Hk & Hn & [c Hc] & Hf). unfold StoreCounter. rewrite Hk. cbn [mbind option_bind].
  set (k1 := set_file k (ke_inode k) (Some (ke_inode k))).
  assert ((match ke_fp k with
    | Some _ => (k, s)
    | None => let '(i, _, s) := open_rids new_inode s (ke_id k) in (set_file k (ke_inode k) (Some i), s) end) = (k1, s)) as ->.
  { destruct Hf as [Hf|Hf]; rewrite Hf; [unfold open_rids; by rewrite Hn|]. unfold k1, set_file. rewrite <-Hf. by destruct k. }
  change (ke_fp k1) with (Some (ke_inode k)). cbn [mbind option_bind]. unfold write_file. rewrite Hc. cbn [mbind option_bind].
  set (s1 := with_files s (ss_names s) _). set (k2 := set_used k1 now).
  eexists _, k2. split; [reflexivity|].
  assert (length (ss_keys s) > id)%nat as Hl by (by eapply lookup_lt_Some in Hk).
  split_and!; try done; [|by exists c|].
  - unfold entry_ok. simpl. split_and!; [by apply list_lookup_insert_eq|done|by rewrite lookup_insert_eq|by right].
  - intros id' Hne. simpl. by rewrite list_lookup_insert_ne.
Qed.

Lemma reload_entry s id k : entry_ok s id k → ReloadCounter new_inode s id (ke_id k) = Some s.
Proof.
  intros (Hk & Hn & Hi & Hf). unfold ReloadCounter. rewrite Hk. cbn [mbind option_bind].
  unfold reload_file, File_Inode. rewrite Hn. simpl. rewrite Z.eqb_refl. simpl. f_equal.
  unfold with_key. rewrite list_insert_id by done. by destruct s.
Qed.

(** What a step on the entry keeps of it. *)
Record kept (id : nat) (s s' : secstate) (k k' : keyentry) : Prop := {
  kept_entry : entry_ok s' id k';
  kept_id : ke_id k' = ke_id k;
  kept_key : ke_key k' = ke_key k;
  kept_method : ke_method k' = ke_method k;
  kept_size : ss_keysize s' = ss_keysize s;
  kept_mode : ss_mode s' = ss_mode s
}.

Lemma accept_entry cf s id k g l now :
  entry_ok s id k →
  ∃ s' k', accept new_inode cf s id k g l now = Some s' ∧ kept id s s' k k' ∧ counts k' = (g, l).
Proof.
  intros He. unfold accept. set (s1 := with_key s id (set_counts k g l)).
  assert (entry_ok s1 id (set_counts k g l)) as He1 by (apply (entry_with_key s id k); auto).
  destruct (s_recv_flush cf <=? ss_rcv_count s1); cbn [mbind option_bind].
  - destruct (store_entry s1 id _ g l now He1) as (s2 & k2 & -> & He2 & Hc & Hid & Hkey & Hm & Hsz & Hmo & _).
    cbn [mbind option_bind]. eexists _, k2. split; [reflexivity|]. by split.
  - eexists _, (set_counts k g l). split; [reflexivity|]. by split.
Qed.

(** The verdict on the counters, where they are verified. *)
Lemma check_entry cf s id k g l now out :
  s_verify_counter cf = true → entry_ok s id k →
  if newer k g l
  then ∃ s' k', check_count new_inode cf s id g l now out = Some (KS_VALID, Some out, s') ∧ kept id s s' k k' ∧ counts k' = (g, l)
  else check_count new_inode cf s id g l now out = Some (if g =? ke_global k then KS_RIDS else KS_ENCKEY, None, s).
Proof.
  intros Hv He. unfold check_count. rewrite Hv. cbn [negb]. rewrite (proj1 He). cbn [mbind option_bind].
  assert ((if s_recv_flush cf <=? ss_rcv_count s then ReloadCounter new_inode s id (ke_id k) else Some s) = Some s) as ->
    by (destruct (_ <=? _); [by apply reload_entry|done]).
  cbn [mbind option_bind]. rewrite (proj1 He). cbn [mbind option_bind]. fold (newer k g l). destruct (newer k g l).
  - destruct (accept_entry cf s id k g l now He) as (s' & k' & -> & Hk & Hc). by exists s', k'.
  - by destruct (g =? ke_global k).
Qed.
End files.

Section channel.
Context (md5 : list Z → cstr) (compress2 : list Z → list Z) (uncompress : list Z → option (list Z)).
Context (bf_encrypt bf_decrypt aes_encrypt aes_decrypt : cstr → list Z → list Z) (new_inode : gmap Z (list Z) → Z).

Abbreviation create := (CreateSecMSG md5 compress2 bf_encrypt bf_decrypt aes_encrypt aes_decrypt new_inode).
Abbreviation read := (ReadSecMSG md5 uncompress bf_encrypt bf_decrypt aes_encrypt aes_decrypt new_inode).

(** ** Other entries *)

Lemma frame_accept cf id id' s k g l now s' : id ≠ id' → accept new_inode cf s id' k g l now = Some s' → frame id s s'.
Proof.
  intros Hne H. unfold accept in H. set (s1 := with_key s id' _) in H.
  assert (frame id s s1) as F1 by (by apply frame_with_key).
  destruct (s_recv_flush cf <=? ss_rcv_count s1).
  - destruct (StoreCounter new_inode s1 id' g l now) as [s2|] eqn:Es; [|done]. simpl in H. injection H as <-.
    etransitivity; [exact F1|]. etransitivity; [by eapply frame_store|]. by apply frame_other.
  - simpl in H. injection H as <-. etransitivity; [exact F1|]. by apply frame_other.
Qed.

Lemma frame_check cf id id' s g l now out r : id ≠ id' → check_count new_inode cf s id' g l now out = Some r → frame id s r.2.
Proof.
  intros Hne H. unfold check_count in H. destruct (negb (s_verify_counter cf)); destruct (ss_keys s !! id') as [k|]; try done; simpl in H.
  - destruct (accept _ _ _ _ _ _ _ _) as [s1|] eqn:Ea; [|done]. injection H as <-. by eapply frame_accept.
  - destruct (if _ <=? _ then _ else _) as [s1|] eqn:E1; [|done]. simpl in H.
    assert (frame id s s1) as F1 by (destruct (_ <=? _); [by eapply frame_reload|by injection E1 as <-]).
    destruct (ss_keys s1 !! id') as [k1|]; [|done]. simpl in H.
    destruct (_ || _).
    + destruct (accept _ _ _ _ _ _ _ _) as [s2|] eqn:Ea; [|done]. injection H as <-. etransitivity; [exact F1|]. by eapply frame_accept.
    + by destruct (g =? ke_global k1); injection H as <-.
Qed.

Lemma frame_compressed cf id id' s b c n now r :
  id ≠ id' → read_compressed md5 uncompress new_inode cf s id' b c n now = Some r → frame id s r.2.
Proof.
  intros Hne H. unfold read_compressed in H. destruct (put_at c n [0]) as [c1|]; [|done]. simpl in H.
  destruct (span _ c1) as [pad c2]. destruct (take_mem _ _) as [src|]; [|done]. simpl in H.
  destruct (os_zlib_uncompress _ _ _) as [z|]; [|by injection H as <-].
  destruct (put_at b 0 _) as [b1|]; [|done]. simpl in H. destruct (CheckSum _ _ _) as [ok|]; [|done]. simpl in H.
  destruct ok; [|by injection H as <-]. simpl in H. destruct (rd b1 47) as [x|]; [|done]. simpl in H.
  destruct (x =? 58); [|by injection H as <-]. simpl in H. by eapply frame_check.
Qed.

Lemma frame_old cf id id' s c n r : id ≠ id' → read_old md5 cf s id' c n = Some r → frame id s r.2.
Proof.
  intros Hne H. unfold read_old in H. destruct (put_at c n [0]) as [c1|]; [|done]. simpl in H.
  destruct (CheckSum _ _ _) as [ok|]; [|done]. simpl in H. destruct ok; [|by injection H as <-]. simpl in H.
  destruct (ss_keys s !! id') as [k|]; [|done]. simpl in H.
  destruct (negb (s_verify_counter cf)); [|destruct (_ || _); [|by injection H as <-]];
    (case_match; injection H as <-; simpl; by apply frame_with_key).
Qed.

(** [ReadSecMSG] up to the two formats: either it is over, with the entry as it
    was but for its cipher, or a format decides. *)
Lemma read_cases cf client s b c id n now st out s' :
  read cf client s b c id n now = Some (st, out, s') →
  ss_mode s = true →
  ∃ k m, ss_keys s !! id = Some k ∧ (client = true → m = ke_method k) ∧
    let s1 := with_key s id (set_method k m) in
    ((st = Some KS_CORRUPT ∨ st = Some KS_ENCKEY) ∧ s' = s1) ∨
    (∃ st', st = Some st' ∧ ((∃ b1 c1, read_compressed md5 uncompress new_inode cf s1 id b1 c1 n now = Some (st', out, s')) ∨
                             (∃ c1, read_old md5 cf s1 id c1 n = Some (st', out, s')))).
Proof.
  intros H Hmode. unfold ReadSecMSG in H. rewrite Hmode in H. cbn [negb] in H.
  destruct (ss_keys s !! id) as [k|] eqn:Hk; [|done]. cbn [mbind option_bind] in H.
  set (aes := strncmp _ _ _ =? 0) in H. set (b1 := if aes then drop 4 b else b) in H.
  set (m := if client then ke_method k else if aes then W_METH_AES else W_METH_BLOWFISH).
  assert ((if client then k else set_method k (if aes then W_METH_AES else W_METH_BLOWFISH)) = set_method k m) as Ek
    by (unfold m; destruct client; [by destruct k|done]).
  rewrite Ek in H. exists k, m. split; [done|]. split; [by unfold m; intros ->|]. intros s1. fold s1 in H.
  destruct (rd b1 0) as [x|]; [|done]. cbn [mbind option_bind] in H.
  destruct (x =? 58); cbn [negb] in H; [|injection H as <- <- <-; auto].
  match type of H with (if ?b then _ else _) = _ => destruct b; [injection H as <- <- <-; auto|] end.
  destruct (take_mem _ _) as [input|]; [|done]. cbn [mbind option_bind] in H.
  destruct (doEncryptByMethod _ _ _ _ _ _ _ _) as [ret plain]. destruct (put_at c 0 plain) as [c1|]; [|done]. cbn [mbind option_bind] in H.
  destruct (ret =? 0); [injection H as <- <- <-; auto|]. destruct (rd c1 0) as [f|]; [|done]. cbn [mbind option_bind] in H.
  destruct (f =? 33).
  { destruct (read_compressed _ _ _ _ _ _ _ _ _ _) as [[[st' o'] s2]|] eqn:Er; [|done]. injection H as <- <- <-. eauto 8. }
  destruct (f =? 58).
  { destruct (read_old _ _ _ _ _ _) as [[[st' o'] s2]|] eqn:Er; [|done]. injection H as <- <- <-. eauto 8. }
  injection H as <- <- <-. auto.
Qed.

Lemma frame_read cf client s b c id id' n now r : id ≠ id' → read cf client s b c id' n now = Some r → frame id s r.2.
Proof.
  intros Hne H. destruct r as [[st out] s']. destruct (ss_mode s) eqn:Hm.
  2: { unfold ReadSecMSG in H. rewrite Hm in H. by injection H as <- <- <-. }
  destruct (read_cases _ _ _ _ _ _ _ _ _ _ _ H Hm) as (k & m & Hk & _ & [[_ ->]|(st' & _ & [(b1 & c1 & E)|(c1 & E)])]).
  - by apply frame_with_key.
  - etransitivity; [by apply (frame_with_key id id')|]. by apply (frame_compressed _ _ _ _ _ _ _ _ _ Hne E).
  - etransitivity; [by apply (frame_with_key id id')|]. by apply (frame_old _ _ _ _ _ _ _ Hne E).
Qed.

(** ** The entry that is read *)

(** How a message moves the counters of its entry: forward when it is accepted,
    and never back. *)
Definition moved (st : key_states) (k k' : keyentry) : Prop :=
  before (counts k) (counts k') ∨ (counts k' = counts k ∧ st ≠ KS_VALID).

Lemma compressed_moves cf s id k b c n now st out s' :
  s_verify_counter cf = true → entry_ok s id k →
  read_compressed md5 uncompress new_inode cf s id b c n now = Some (st, out, s') →
  ∃ k', kept id s s' k k' ∧ moved st k k'.
Proof.
  intros Hv He H.
  assert (∀ st0, st0 ≠ KS_VALID → Some (st0, None, s) = Some (st, out, s') → ∃ k', kept id s s' k k' ∧ moved st k k') as Hstop.
  { intros st0 Hst [= <- <- <-]. exists k. split; [by split|]. by right. }
  unfold read_compressed in H. destruct (put_at c n [0]) as [c1|]; [|done]. simpl in H.
  destruct (span _ c1) as [pad c2]. destruct (take_mem _ _) as [src|]; [|done]. simpl in H.
  destruct (os_zlib_uncompress _ _ _) as [z|]; [|by eapply Hstop in H].
  destruct (put_at b 0 _) as [b1|]; [|done]. simpl in H. destruct (CheckSum _ _ _) as [ok|]; [|done]. simpl in H.
  destruct ok; [|by eapply Hstop in H]. simpl in H. destruct (rd b1 47) as [x|]; [|done]. simpl in H.
  destruct (x =? 58); [|by eapply Hstop in H]. simpl in H.
  set (g := wrap32 (atoi _)) in H. set (l := wrap32 (atoi _)) in H. set (o := (_, _)) in H.
  pose proof (check_entry new_inode cf s id k g l now o Hv He) as Hc. destruct (newer k g l) eqn:En.
  - destruct Hc as (s1 & k1 & E & Hkept & Hcnt). rewrite E in H. injection H as <- <- <-. exists k1. split; [done|].
    left. rewrite Hcnt. by apply newer_spec.
  - rewrite Hc in H. eapply Hstop; [|exact H]. by destruct (g =? ke_global k).
Qed.

Lemma old_moves cf s id k c n st out s' :
  s_verify_counter cf = true → entry_ok s id k → read_old md5 cf s id c n = Some (st, out, s') →
  ∃ k', kept id s s' k k' ∧ moved st k k'.
Proof.
  intros Hv He H. unfold read_old in H. destruct (put_at c n [0]) as [c1|]; [|done]. simpl in H.
  destruct (CheckSum _ _ _) as [ok|]; [|done]. simpl in H.
  destruct ok; simpl in H.
  2: { injection H as <- <- <-. exists k. split; [by split|]. by right. }
  rewrite (proj1 He) in H. simpl in H. rewrite Hv in H. simpl in H.
  set (g := wrap32 (atoi _)) in H. set (l := wrap32 (atoi _)) in H. fold (newer k g l) in H.
  destruct (newer k g l) eqn:En.
  2: { injection H as <- <- <-. exists k. split; [by split|]. by right. }
  exists (set_counts k g l). split.
  - assert (s' = with_key s id (set_counts k g l)) as -> by (case_match; by injection H as <- <- <-).
    split; try done. apply (entry_with_key s id k); auto.
  - left. by apply newer_spec.
Qed.

Lemma read_moves cf client s b c id k n now st out s' :
  s_verify_counter cf = true → entry_ok s id k → ss_mode s = true →
  read cf client s b c id n now = Some (st, out, s') →
  ∃ st' k' m, st = Some st' ∧ (client = true → m = ke_method k) ∧ kept id s s' (set_method k m) k' ∧ moved st' k k'.
Proof.
  intros Hv He Hm H. destruct (read_cases _ _ _ _ _ _ _ _ _ _ _ H Hm) as (k0 & m & Hk & Hcm & Hr).
  assert (k0 = k) as -> by (destruct He; congruence). set (s1 := with_key s id (set_method k m)) in *.
  assert (entry_ok s1 id (set_method k m)) as He1 by (apply (entry_with_key s id k); auto).
  destruct Hr as [[Hst ->]|(st' & -> & Hr)].
  - destruct Hst as [->| ->]; (eexists _, (set_method k m), m; split; [done|]; split; [done|]; split; [by split|by right]).
  - assert (∃ k', kept id s1 s' (set_method k m) k' ∧ moved st' (set_method k m) k') as (k' & Hk' & Hmv).
    { destruct Hr as [(b1 & c1 & E)|(c1 & E)]; [by eapply compressed_moves|by eapply old_moves]. }
    exists st', k', m. split; [done|]. split; [done|]. split; [|exact Hmv]. destruct Hk'. by split.
Qed.

(** Sending works on the sender's entry. *)
Lemma frame_create cf s msg out id id' rand1 ag r :
  id ≠ ss_keysize s → create cf s msg out id' rand1 ag = Some r → frame id s r.2.
Proof.
  intros Hne H. unfold CreateSecMSG in H. destruct (negb (ss_mode s)); [by injection H as <-|].
  destruct (_ || _); [by injection H as <-|]. destruct (ss_keys s !! id') as [k|]; [|done]. simpl in H.
  destruct (put_at out OS_MAXSTR [0]) as [o1|]; [|done]. simpl in H.
  destruct (ReloadCounter _ _ _ _) as [s1|] eqn:Er; [|done]. simpl in H. pose proof (frame_reload _ _ _ _ _ _ Hne Er) as F1.
  destruct (next_count _ _) as [g l]. destruct (os_zlib_compress _ _ _) as [z|].
  2: { injection H as <-. etransitivity; [exact F1|]. by apply frame_other. }
  destruct (clear_header k ag) as [h len]. destruct (put_at o1 0 h) as [o2|]; [|done]. simpl in H.
  destruct (doEncryptByMethod _ _ _ _ _ _ _ _) as [cl ci]. destruct (put_at o2 len ci) as [o3|]; [|done]. simpl in H.
  set (s2 := count_sizes _ _ _ _) in H. destruct (StoreSenderCounter s2 g l) as [s3|] eqn:Es; [|done]. simpl in H. injection H as <-.
  etransitivity; [exact F1|]. assert (frame id s1 s2) as F2.
  { unfold s2, count_sizes. by destruct (_ <? _); apply frame_other. }
  etransitivity; [exact F2|]. simpl. unfold StoreSenderCounter in Es. destruct (ss_keys s2 !! ss_keysize s2) as [sk|]; [|done]. simpl in Es.
  destruct (ke_fp sk) as [i|]; [|done]. simpl in Es. by eapply frame_write.
Qed.

(** ** Any traffic *)

(** What happens at one end: a buffer is read for some entry, or a message is
    sent. *)
Inductive sec_op :=
  | ORead (id : nat) (buffer cleartext : list Z) (buffer_size now : Z)
  | OSend (msg out : list Z) (id : nat) (rand1 : Z) (is_agent : bool).
Definition sec_exec (cf : sec_conf) (client : bool) (s : secstate) (op : sec_op) : option secstate :=
  match op with
  | ORead id b c n now => r ← read cf client s b c id n now; Some r.2
  | OSend msg out id rand1 ag => r ← create cf s msg out id rand1 ag; Some r.2
  end.
Fixpoint sec_run (cf : sec_conf) (client : bool) (s : secstate) (ops : list sec_op) : option secstate :=
  match ops with [] => Some s | op :: ops => s' ← sec_exec cf client s op; sec_run cf client s' ops end.

(** What traffic keeps of an entry: its identity, and counters that do not go back. *)
Record follows (client : bool) (id : nat) (s s' : secstate) (k k' : keyentry) : Prop := {
  follows_entry : entry_ok s' id k';
  follows_key : ke_key k' = ke_key k;
  follows_method : client = true → ke_method k' = ke_method k;
  follows_mode : ss_mode s' = ss_mode s;
  follows_size : ss_keysize s' = ss_keysize s;
  follows_counts : counts k' = counts k ∨ before (counts k) (counts k')
}.

Lemma sec_exec_follows cf client s op id k s' :
  s_verify_counter cf = true → ss_mode s = true → id ≠ ss_keysize s → entry_ok s id k →
  sec_exec cf client s op = Some s' → ∃ k', follows client id s s' k k'.
Proof.
  intros Hv Hm Hid He H.
  assert (∀ s'', frame id s s'' → ∃ k', follows client id s s'' k k') as Hframe.
  { intros s'' F. exists k. pose proof F as []. split; [by eapply frame_entry|done|done|done|done|by left]. }
  destruct op as [id' b c n now|msg out id' r1 ag]; simpl in H.
  - destruct (read _ _ _ _ _ _ _ _) as [r|] eqn:Er; [|done]. injection H as <-.
    destruct (decide (id = id')) as [<-|Hne]; [|by eapply Hframe, frame_read].
    destruct r as [[st o] s1]. destruct (read_moves _ _ _ _ _ _ _ _ _ _ _ _ Hv He Hm Er) as (st' & k' & m & _ & Hcm & [] & Hmv).
    exists k'. split; [done|done| |done|done|].
    + intros Hc. transitivity m; [done|by apply Hcm].
    + destruct Hmv as [?|[? _]]; auto.
  - destruct (create _ _ _ _ _ _ _) as [r|] eqn:Er; [|done]. injection H as <-. by eapply Hframe, frame_create.
Qed.

Lemma sec_run_follows cf client ops s id k s' :
  s_verify_counter cf = true → ss_mode s = true → id ≠ ss_keysize s → entry_ok s id k →
  sec_run cf client s ops = Some s' → ∃ k', follows client id s s' k k'.
Proof.
  intros Hv. revert s k. induction ops as [|op ops IH]; intros s k Hm Hid He H; simpl in H.
  - injection H as <-. exists k. split; try done. by left.
  - destruct (sec_exec cf client s op) as [s1|] eqn:E1; [|done]. simpl in H.
    destruct (sec_exec_follows _ _ _ _ _ _ _ Hv Hm Hid He E1) as (k1 & [He1 Hk1 Hm1 Hmo1 Hs1 Hc1]).
    destruct (IH s1 k1 ltac:(congruence) ltac:(congruence) He1 H) as (k2 & [He2 Hk2 Hm2 Hmo2 Hs2 Hc2]).
    exists k2. split; [done|congruence| |congruence|congruence|].
    + intros Hc. rewrite Hm2 by done. by apply Hm1.
    + destruct Hc1 as [Hc1|Hc1], Hc2 as [Hc2|Hc2]; rewrite ?Hc2, ?Hc1 in *; auto. right. by eapply before_trans.
Qed.
End channel.

(** * Replay *)

Section replay.
Context (md5 : list Z → cstr) (compress2 : list Z → list Z) (uncompress : list Z → option (list Z)).
Context (bf_encrypt bf_decrypt aes_encrypt aes_decrypt : cstr → list Z → list Z) (new_inode : gmap Z (list Z) → Z).
Context (laws : CryptoLaws md5 compress2 uncompress bf_encrypt bf_decrypt aes_encrypt aes_decrypt).

Abbreviation read := (ReadSecMSG md5 uncompress bf_encrypt bf_decrypt aes_encrypt aes_decrypt new_inode).
Abbreviation run := (sec_run md5 compress2 uncompress bf_encrypt bf_decrypt aes_encrypt aes_decrypt new_inode).

(** The buffers of a reader: memory for the longest message. *)
Definition buffers_ok (b clear : list Z) : Prop :=
  Z.of_nat (length b) >= OS_MAXSTR - 20 ∧ Z.of_nat (length clear) >= OS_MAXSTR + 1.

(** What a reader makes of a packet. *)
Lemma read_packet_verdict cf client s k id m rand1 g l msg tail clear now :
  s_verify_counter cf = true → ss_mode s = true → entry_ok s id k → (client = true → ke_method k = m) →
  columns rand1 g l → sendable msg →
  let p := packet md5 compress2 bf_encrypt aes_encrypt m (ke_key k) rand1 g l msg in
  buffers_ok (p ++ tail) clear →
  if newer k g l
  then ∃ rest s' k', read cf client s (p ++ tail) clear id (length p - 1) now = Some (Some KS_VALID, Some (msg ++ rest, Z.of_nat (length msg)), s') ∧
    kept id s s' (set_method k m) k' ∧ counts k' = (g, l)
  else ∃ s', read cf client s (p ++ tail) clear id (length p - 1) now = Some (Some (if g =? ke_global k then KS_RIDS else KS_ENCKEY), None, s').
Proof using laws.
  intros Hv Hm He Hcm Hc Hs p [Hb1 Hb2].
  destruct (read_packet md5 compress2 uncompress bf_encrypt bf_decrypt aes_encrypt aes_decrypt laws new_inode cf client s k id m rand1 g l msg tail clear now
    Hm (proj1 He) Hcm Hc Hs Hb1 Hb2) as [rest E]. fold p in E. rewrite E.
  assert ((if client then k else set_method k m) = set_method k m) as -> by (destruct client; [rewrite <-Hcm by done; by destruct k|done]).
  assert (entry_ok (with_key s id (set_method k m)) id (set_method k m)) as He1 by (apply (entry_with_key s id k); auto).
  pose proof (check_entry new_inode cf _ id _ g l now (msg ++ rest, Z.of_nat (length msg)) Hv He1) as Hck.
  change (newer (set_method k m) g l) with (newer k g l) in Hck. destruct (newer k g l).
  - destruct Hck as (s' & k' & -> & [] & Hcnt). exists rest, s', k'. split; [done|]. split; [by split|done].
  - rewrite Hck. by eexists.
Qed.

(** C5: No replay: when the counters are verified, a packet that was accepted once
    is refused ever after, whatever is read and sent in between, by either end
    and on either cipher; it is refused as a duplicate when the global counter
    is still the same, and as a message under a wrong key otherwise. *)
Theorem sec_no_replay cf client s k id m rand1 g l msg tail clear now out s1 ops s2 tail' clear' now' :
  s_verify_counter cf = true → ss_mode s = true → id ≠ ss_keysize s → entry_ok s id k → (client = true → ke_method k = m) →
  columns rand1 g l → sendable msg →
  let p := packet md5 compress2 bf_encrypt aes_encrypt m (ke_key k) rand1 g l msg in
  buffers_ok (p ++ tail) clear →
  read cf client s (p ++ tail) clear id (length p - 1) now = Some (Some KS_VALID, out, s1) →
  run cf client s1 ops = Some s2 →
  buffers_ok (p ++ tail') clear' →
  ∃ k2 s3, ss_keys s2 !! id = Some k2 ∧
    read cf client s2 (p ++ tail') clear' id (length p - 1) now' =
      Some (Some (if g =? ke_global k2 then KS_RIDS else KS_ENCKEY), None, s3).
Proof using laws.
  intros Hv Hm Hid He Hcm Hc Hs p Hb Hread Hrun Hb'.
  pose proof (read_packet_verdict cf client s k id m rand1 g l msg tail clear now Hv Hm He Hcm Hc Hs Hb) as Hr. fold p in Hr.
  destruct (newer k g l); [|destruct Hr as [s' E]; rewrite E in Hread; by destruct (g =? ke_global k)].
  destruct Hr as (rest & s' & k1 & E & [He1 _ Hk1 Hm1 Hs1 Hmo1] & Hcnt). rewrite E in Hread. injection Hread as <- <-.
  destruct (sec_run_follows _ _ _ _ _ _ _ _ cf client ops s' id k1 s2 Hv ltac:(congruence) ltac:(congruence) He1 Hrun)
    as (k2 & [He2 Hk2 Hm2 Hmo2 Hs2 Hc2]).
  assert (ke_key k2 = ke_key k) as Ekey by (rewrite Hk2; exact Hk1).
  assert (newer k2 g l = false) as Hn.
  { apply not_true_iff_false. rewrite newer_spec, <-Hcnt. intros Hb2.
    destruct Hc2 as [Hc2|Hc2]; [rewrite Hc2 in Hb2|apply (before_trans _ _ _ Hc2) in Hb2]; by apply before_irrefl in Hb2. }
  unfold p in *. rewrite <-Ekey in *.
  pose proof (read_packet_verdict cf client s2 k2 id m rand1 g l msg tail' clear' now' Hv ltac:(congruence) He2) as Hr.
  rewrite Hn in Hr. destruct Hr as [s3 E3]; [intros; by rewrite Hm2, Hm1|done|done|done|].
  exists k2, s3. split; [apply He2|exact E3].
Qed.
End replay.

(** An agent that is known to the manager, and the manager's own counters. *)
Definition demo_id : cstr := [48; 48; 49].
Definition demo_keys : list keyentry :=
  [KeyEntry demo_id [115; 101; 99; 114; 101; 116] false 0 0 1 None W_METH_AES 0 false;
   KeyEntry [] [] false 0 0 2 (Some 2) W_METH_AES 0 false].
Definition demo_state : secstate :=
  SecState demo_keys 1 true [] 7 41 0 0 0 0 (<[SENDER_COUNTER := 2]> {[demo_id := 1]}) (<[2 := []]> {[1 := []]}).
Definition demo_conf : sec_conf := SecConf 0 0 true.

Lemma demo_entry k : ss_keys demo_state !! 0%nat = Some k → entry_ok demo_state 0 k.
Proof. intros [= <-]. split_and!; [done|vm_compute; done|vm_compute; by eexists|by left]. Qed.

Definition demo_packet (m : crypt_method) (g l : Z) : list Z :=
  packet Toy.md5 Toy.compress2 Toy.bf Toy.aes_encrypt m [115; 101; 99; 114; 101; 116] 4711 g l [104; 105].

(** A packet, a later one, and the first again. *)
Lemma sec_no_replay_witness :
  let read := ReadSecMSG Toy.md5 Toy.uncompress Toy.bf Toy.bf Toy.aes_encrypt Toy.aes_decrypt Toy.new_inode demo_conf false in
  let zeros := replicate (Z.to_nat 65537) 0 in
  let p := demo_packet W_METH_BLOWFISH 7 42 in
  let p' := demo_packet W_METH_AES 8 1 in
  ∃ out s1 out' s2 k2 s3,
    read demo_state (p ++ zeros) zeros 0%nat (length p - 1) 100 = Some (Some KS_VALID, out, s1) ∧
    read s1 (p' ++ zeros) zeros 0%nat (length p' - 1) 101 = Some (Some KS_VALID, out', s2) ∧
    ss_keys s2 !! 0%nat = Some k2 ∧
    read s2 (p ++ zeros) zeros 0%nat (length p - 1) 102 = Some (Some (if 7 =? ke_global k2 then KS_RIDS else KS_ENCKEY), None, s3).
Proof.
  intros read zeros p p'.
  assert (∀ q, buffers_ok (q ++ zeros) zeros) as Hb.
  { intros q. unfold buffers_ok, OS_MAXSTR, zeros. rewrite length_app, length_replicate. lia. }
  clearbody zeros.
  assert (∀ g l, uint32 g → 0 <= l < 10000 → columns 4711 g l) as Hcol by (intros; split_and!; [lia|lia|done|lia|lia]).
  assert (sendable [104; 105]) as Hs by (unfold sendable, OS_MAXSTR, OS_HEADER_SIZE; simpl; lia).
  pose proof (demo_entry _ eq_refl) as He. set (k := KeyEntry _ _ _ _ _ _ _ _ _ _) in He.
  pose proof (read_packet_verdict _ _ _ _ _ _ _ Toy.new_inode toy_laws demo_conf false demo_state k 0 W_METH_BLOWFISH 4711 7 42 [104; 105] zeros zeros 100
    eq_refl eq_refl He ltac:(done) ltac:(by apply Hcol) Hs ltac:(apply Hb)) as Hr.
  change (newer k 7 42) with true in Hr. cbv iota in Hr. destruct Hr as (rest & s1 & k1 & E1 & [He1 _ Hk1 _ _ Hm1] & Hc1).
  pose proof (read_packet_verdict _ _ _ _ _ _ _ Toy.new_inode toy_laws demo_conf false s1 k1 0 W_METH_AES 4711 8 1 [104; 105] zeros zeros 101
    eq_refl Hm1 He1 ltac:(done) ltac:(by apply Hcol) Hs ltac:(apply Hb)) as Hr.
  assert (newer k1 8 1 = true) as Hn by (apply newer_spec; rewrite Hc1; left; simpl; lia). rewrite Hn in Hr.
  destruct Hr as (rest' & s2 & k2 & E2 & _ & _). rewrite Hk1 in E2. change (ke_key (set_method k W_METH_BLOWFISH)) with [115; 101; 99; 114; 101; 116] in E2.
  change (packet _ _ _ _ W_METH_AES _ _ _ _ _) with p' in E2.
  destruct (sec_no_replay _ _ _ _ _ _ _ Toy.new_inode toy_laws demo_conf false demo_state k 0 W_METH_BLOWFISH 4711 7 42 [104; 105] zeros zeros 100
    _ s1 [ORead 0 (p' ++ zeros) zeros (length p' - 1) 101] s2 zeros zeros 102 eq_refl eq_refl ltac:(done) He ltac:(done)
    ltac:(by apply Hcol) Hs ltac:(apply Hb) E1 ltac:(cbn [sec_run sec_exec mbind option_bind]; by rewrite E2) ltac:(apply Hb))
    as (k3 & s3 & Hk3 & E3).
  eexists _, s1, _, s2, k3, s3. split; [exact E1|]. split; [exact E2|]. by split.
Defined.
