(* ===== verification/SecChannel.v ===== *)
(** The channel between agent and manager: what one end creates the other end
    reads, message by message and in order. *)

From S2P Require Import Prelude CLib NetBuffer SecMsg SecMsgSpec SecReplay.

(** * The sender *)

(** The sender's entry, with its file of counters open. *)
Definition sender_ok (s : secstate) : Prop :=
  ∃ sk, ss_keys s !! ss_keysize s = Some sk ∧ ss_names s !! SENDER_COUNTER = Some (ke_inode sk) ∧
    ke_fp sk = Some (ke_inode sk) ∧ is_Some (ss_inodes s !! ke_inode sk) ∧
    uint32 (ss_global_count s) ∧ 0 <= ss_local_count s <= 9997.

Lemma reload_sender new_inode s : sender_ok s → ReloadCounter new_inode s (ss_keysize s) SENDER_COUNTER = Some s.
Proof.
  intros (sk & Hk & Hn & _). unfold ReloadCounter. rewrite Hk. cbn [mbind option_bind].
  unfold reload_file, File_Inode. rewrite Hn. simpl. rewrite Z.eqb_refl. simpl. f_equal.
  unfold with_key. rewrite list_insert_id by done. by destruct s.
Qed.

Lemma next_count_range g l g' l' :
  uint32 g → 0 <= l <= 9997 → next_count g l = (g', l') → uint32 g' ∧ 0 <= l' <= 9997.
Proof.
  unfold next_count, uint32, wrap32. intros Hg Hl. destruct (Z.leb_spec 9997 l); intros [= <- <-].
  - pose proof (Z.mod_pos_bound (g + 1) 4294967296). change ((0 + 1) mod 4294967296) with 1. lia.
  - rewrite Z.mod_small; lia.
Qed.
(** Without wrapping around, the counters go forward. *)
Lemma next_count_before g l g' l' :
  uint32 (g + 1) → 0 <= l <= 9997 → next_count g l = (g', l') → before (g, l) (g', l') ∧ g <= g' <= g + 1.
Proof.
  unfold next_count, uint32, wrap32, before. intros Hg Hl. destruct (Z.leb_spec 9997 l); intros [= <- <-]; simpl.
  - rewrite Z.mod_small by lia. lia.
  - rewrite Z.mod_small; lia.
Qed.

(** The sender's counters are kept in its file. *)
Lemma store_sender s g l :
  sender_ok s → ∃ s', StoreSenderCounter s g l = Some s' ∧ ss_keys s' = ss_keys s ∧ ss_keysize s' = ss_keysize s ∧
    ss_mode s' = ss_mode s ∧ ss_global_count s' = ss_global_count s ∧ ss_local_count s' = ss_local_count s ∧ sender_ok s'.
Proof.
  intros (sk & Hk & Hn & Hf & [c Hc] & Hg). unfold StoreSenderCounter. rewrite Hk. cbn [mbind option_bind].
  rewrite Hf. cbn [mbind option_bind]. unfold write_file. rewrite Hc. cbn [mbind option_bind].
  eexists. split; [reflexivity|]. split_and!; try done. exists sk. split_and!; try done; simpl; [by rewrite lookup_insert_eq|apply Hg..].
Qed.

(** The name of the agent before its message. *)
Definition id_header (k : keyentry) (is_agent : bool) : list Z :=
  if negb (ke_single_host k) && is_agent then 33 :: ke_id k ++ [33] else [].

Lemma clear_header_ok k ag :
  (length (ke_id k) ≤ 8)%nat →
  ∃ h, h = id_header k ag ++ crypto_token (ke_method k) ∧ clear_header k ag = (h ++ [0], Z.of_nat (length h)) ∧ (length h ≤ 15)%nat.
Proof.
  intros Hid. eexists. split; [reflexivity|]. unfold clear_header, id_header, strlen.
  destruct (negb (ke_single_host k) && ag).
  - assert (33 :: ke_id k ++ 33 :: crypto_token (ke_method k) = (33 :: ke_id k ++ [33]) ++ crypto_token (ke_method k)) as ->.
    { cbn [app]. by rewrite <-app_assoc. }
    assert (length (((33 : Z) :: ke_id k ++ [33 : Z]) ++ crypto_token (ke_method k)) ≤ 15)%nat as Hl.
    { rewrite length_app. cbn [length]. rewrite length_app. destruct (ke_method k); simpl; lia. }
    by rewrite take_ge.
  - destruct (ke_method k); simpl; (split; [done|lia]).
Qed.

Section channel.
Context (md5 : list Z → cstr) (compress2 : list Z → list Z) (uncompress : list Z → option (list Z)).
Context (bf_encrypt bf_decrypt aes_encrypt aes_decrypt : cstr → list Z → list Z) (new_inode : gmap Z (list Z) → Z).
Context (laws : CryptoLaws md5 compress2 uncompress bf_encrypt bf_decrypt aes_encrypt aes_decrypt).

Abbreviation create := (CreateSecMSG md5 compress2 bf_encrypt bf_decrypt aes_encrypt aes_decrypt new_inode).
Abbreviation read := (ReadSecMSG md5 uncompress bf_encrypt bf_decrypt aes_encrypt aes_decrypt new_inode).
Abbreviation pkt := (packet md5 compress2 bf_encrypt aes_encrypt).

Lemma create_cipher k z :
  ∃ ret, doEncryptByMethod bf_encrypt bf_decrypt aes_encrypt aes_decrypt (padded z) (ke_key k) true (ke_method k) =
    (ret, encrypt bf_encrypt aes_encrypt (ke_method k) (ke_key k) (padded z)) ∧
    Z.max (length (padded z)) ret = length (encrypt bf_encrypt aes_encrypt (ke_method k) (ke_key k) (padded z)).
Proof using laws.
  pose proof (encrypt_length _ _ _ _ _ _ _ laws (ke_method k) (ke_key k) z) as [H1 H2].
  pose proof (padded_length z) as [Hp _]. pose proof (padding_range (length z)). simpl in H1, H2.
  unfold doEncryptByMethod. destruct (ke_method k); eexists; (split; [reflexivity|]).
  - rewrite H2 by done. lia.
  - unfold encrypt in *. lia.
Qed.

(** What [CreateSecMSG] puts in its buffer: the name of the agent where it is
    sent, and the packet with the next counters. *)
Lemma create_packet cf s k id msg out rand1 ag g l :
  ss_mode s = true → ss_keys s !! id = Some k → sender_ok s → (length (ke_id k) ≤ 8)%nat →
  sendable msg → 0 <= rand1 < 65536 → Z.of_nat (length out) >= OS_MAXSTR + 1 →
  next_count (ss_global_count s) (ss_local_count s) = (g, l) →
  let b := id_header k ag ++ pkt (ke_method k) (ke_key k) rand1 g l msg in
  ∃ out' s', create cf s msg out id rand1 ag = Some (Z.of_nat (length b), b ++ out', s') ∧ Z.of_nat (length b) <= OS_MAXSTR ∧
    ss_keys s' = ss_keys s ∧ ss_keysize s' = ss_keysize s ∧ ss_mode s' = true ∧
    ss_global_count s' = g ∧ ss_local_count s' = l ∧ sender_ok s'.
Proof using laws.
  intros Hmode Hk Hs Hid Hm Hr Hout Hn b. pose proof Hs as (sk & Hsk & Hnm & Hfp & Hino & Hg & Hl).
  destruct (next_count_range _ _ _ _ Hg Hl Hn) as [Hg' Hl'].
  assert (columns rand1 g l) as Hc by (split_and!; [lia|lia|done|lia|lia]).
  pose proof (stream_size _ _ _ _ _ _ _ laws _ _ _ _ Hc Hm) as Hz. set (z := compress2 (signed md5 rand1 g l msg)) in *.
  unfold CreateSecMSG. rewrite Hmode. cbn [negb]. unfold sendable in Hm. assert (((OS_MAXSTR - OS_HEADER_SIZE <? length msg) || (length msg <? 1)) = false) as ->.
  { apply orb_false_iff. split; apply Z.ltb_ge; lia. }
  rewrite Hk. cbn [mbind option_bind]. rewrite put_at_1 by (unfold OS_MAXSTR in *; lia). cbn [mbind option_bind].
  set (o1 := take _ out ++ _).
  assert (length o1 = length out) as Ho1.
  { unfold o1, OS_MAXSTR in *. rewrite length_app, length_take, length_cons, length_drop. lia. }
  rewrite reload_sender by done. cbn [mbind option_bind]. rewrite Hn.
  fold (signed md5 rand1 g l msg). unfold os_zlib_compress. fold z.
  rewrite (proj2 (Z.leb_le _ _)), (proj2 (Z.eqb_neq _ _)) by (unfold OS_MAXSTR; lia). cbn [negb andb].
  destruct (clear_header_ok k ag Hid) as (h & Hh & -> & Hhl).
  fold (padded z). pose proof (padded_length z) as [Hp _]. pose proof (padding_range (length z)) as [Hpr _]. rewrite <-Hp.
  destruct (create_cipher k z) as (ret & -> & Hmax). set (c := encrypt _ _ _ _ _) in *.
  pose proof (encrypt_length _ _ _ _ _ _ _ laws (ke_method k) (ke_key k) z) as [Hcl _]. fold c in Hcl. simpl in Hcl.
  rewrite put_at_0 by (rewrite length_app, Ho1; simpl length; unfold OS_MAXSTR in *; lia). cbn [mbind option_bind].
  set (o2 := drop (length (h ++ [0])) o1).
  assert (Z.of_nat (length o2) >= 65521) as Ho2.
  { unfold o2. rewrite length_drop, length_app, Ho1. simpl length. unfold OS_MAXSTR in *. lia. }
  rewrite <-app_assoc. rewrite (put_at_ok _ h (take (length c) ([0] ++ o2)) (drop (length c) ([0] ++ o2)));
    [|by rewrite take_drop|done|rewrite length_take, length_app; simpl length; lia].
  cbn [mbind option_bind]. set (s1 := count_sizes _ _ _ _).
  assert (ss_keys s1 = ss_keys s ∧ ss_keysize s1 = ss_keysize s ∧ ss_mode s1 = true ∧ ss_global_count s1 = g ∧ ss_local_count s1 = l ∧ sender_ok s1)
    as (E1 & E2 & E3 & E4 & E5 & Hs1).
  { unfold s1, count_sizes. destruct (_ <? _); (split_and!; try done; exists sk; split_and!; try done; simpl; lia). }
  destruct (store_sender s1 g l Hs1) as (s2 & -> & F1 & F2 & F3 & F4 & F5 & Hs2). cbn [mbind option_bind].
  assert (b = h ++ c) as Eb by (unfold b, packet; rewrite app_assoc, <-Hh; done).
  rewrite Eb, Hmax. eexists _, s2. split; [|split_and!; try congruence; rewrite length_app; unfold OS_MAXSTR; lia].
  rewrite length_app. do 3 f_equal; [lia|by rewrite app_assoc].
Qed.

(** * The receiver *)

(** A message as it arrives, in the buffer of the receiver; the manager first
    takes the name of the agent off. *)
Definition receive (cf : sec_conf) (client : bool) (r : secstate) (bytes clear : list Z) (id : nat) (now : Z)
    : option (option cstr * option key_states * option (list Z * Z) * secstate) :=
  let buffer := bytes ++ replicate (Z.to_nat (OS_MAXSTR + 1 - length bytes)) 0 in
  '(name, msg, n) ← (if client then Some (None, buffer, Z.of_nat (length bytes)) else strip_id buffer (length bytes));
  '(st, out, r) ← read cf client r msg clear id (n - 1) now;
  Some (name, st, out, r).

Definition announced (k : keyentry) (is_agent : bool) : option cstr :=
  if negb (ke_single_host k) && is_agent then Some (ke_id k) else None.

Lemma strip_packet k ag m key rand1 g l msg tail :
  Forall (λ c, isdigit c = true) (ke_id k) →
  let p := pkt m key rand1 g l msg in
  let b := id_header k ag ++ p in
  strip_id (b ++ tail) (length b) = Some (announced k ag, p ++ tail, Z.of_nat (length p)).
Proof.
  intros Hid p b. unfold b, id_header, announced. destruct (negb (ke_single_host k) && ag).
  - rewrite <-app_assoc. cbn [app]. unfold strip_id. change (33 =? 33) with true. cbv iota.
    rewrite <-app_assoc. cbn [app]. rewrite (span_stop isdigit (ke_id k) 33 (p ++ tail) Hid eq_refl).
    change (33 =? 33) with true. cbv iota. do 2 f_equal. cbn [length]. rewrite !length_app. cbn [length]. lia.
  - cbn [app]. unfold p, packet. by destruct m.
Qed.

Lemma receive_packet cf client r k kr ag id rand1 g l msg clear now :
  s_verify_counter cf = true → ss_mode r = true → entry_ok r id kr → ke_key kr = ke_key k →
  (client = true → ke_method kr = ke_method k ∧ ag = false) →
  Forall (λ c, isdigit c = true) (ke_id k) → (length (ke_id k) ≤ 8)%nat →
  columns rand1 g l → sendable msg → Z.of_nat (length clear) >= OS_MAXSTR + 1 →
  before (counts kr) (g, l) →
  let b := id_header k ag ++ pkt (ke_method k) (ke_key k) rand1 g l msg in
  Z.of_nat (length b) <= OS_MAXSTR →
  ∃ rest r' kr', receive cf client r b clear id now =
      Some (announced k ag, Some KS_VALID, Some (msg ++ rest, Z.of_nat (length msg)), r') ∧
    kept id r r' (set_method kr (ke_method k)) kr' ∧ counts kr' = (g, l).
Proof using laws.
  intros Hv Hm He Hkey Hcl Hdig Hid Hc Hs Hclear Hbef b Hb. unfold receive.
  set (zs := replicate _ 0). set (p := pkt _ _ _ _ _ _) in b.
  assert ((if client then Some (None, b ++ zs, Z.of_nat (length b)) else strip_id (b ++ zs) (length b)) =
    Some (announced k ag, p ++ zs, Z.of_nat (length p))) as ->.
  { destruct client; [|by apply strip_packet]. destruct Hcl as [_ ->]; [done|]. unfold b, id_header, announced. by rewrite andb_false_r. }
  cbn [mbind option_bind]. apply newer_spec in Hbef.
  pose proof (read_packet_verdict _ _ _ _ _ _ _ new_inode laws cf client r kr id (ke_method k) rand1 g l msg zs clear now Hv Hm He) as Hr.
  rewrite Hbef, Hkey in Hr. destruct Hr as (rest & r' & kr' & E & Hk & Hcnt); [intros; by apply Hcl|done|done| |].
  { split; [|done]. fold p. unfold zs. rewrite length_app, length_replicate. unfold b in *. rewrite length_app in *.
    assert (length (id_header k ag) ≤ 10)%nat as Hh; [|unfold OS_MAXSTR in *; lia].
    unfold id_header. destruct (negb _ && _); [|cbn [length]; lia]. cbn [length]. rewrite length_app. cbn [length]. lia. }
  fold p in E. rewrite E. cbn [mbind option_bind]. by eexists _, _, _.
Qed.

(** * The channel *)

(** A message to send: its text, the random number it gets, the memory it is
    written to and when and where it is read. *)
Record letter := Letter { le_msg : list Z; le_rand : Z; le_out : list Z; le_clear : list Z; le_now : Z }.
Definition letter_ok (m : letter) : Prop :=
  sendable (le_msg m) ∧ 0 <= le_rand m < 65536 ∧
  Z.of_nat (length (le_out m)) >= OS_MAXSTR + 1 ∧ Z.of_nat (length (le_clear m)) >= OS_MAXSTR + 1.

(** Each message is created, carried over and read: the name it came with, the
    verdict, and the text. *)
Fixpoint exchange (cfs cfr : sec_conf) (client : bool) (s r : secstate) (ids idr : nat) (is_agent : bool) (ms : list letter)
    : option (list (option cstr * option key_states * option (list Z)) * secstate * secstate) :=
  match ms with
  | [] => Some ([], s, r)
  | m :: ms =>
      '(n, out, s) ← create cfs s (le_msg m) (le_out m) ids (le_rand m) is_agent;
      '(name, st, o, r) ← receive cfr client r (take (Z.to_nat n) out) (le_clear m) idr (le_now m);
      '(rs, s, r) ← exchange cfs cfr client s r ids idr is_agent ms;
      Some ((name, st, option_map (λ o : list Z * Z, take (Z.to_nat o.2) o.1) o) :: rs, s, r)
  end.

(** C3: A secure channel: messages sent by one end are all accepted by the other,
    with the text that was sent and under the name of the sender, in order,
    and both ends agree on the counters afterwards; for agents and manager,
    with either cipher. *)
Theorem sec_channel_roundtrip cfs cfr client s r k kr ids idr is_agent ms :
  s_verify_counter cfr = true →
  ss_mode s = true → ss_keys s !! ids = Some k → sender_ok s →
  Forall (λ c, isdigit c = true) (ke_id k) → (length (ke_id k) ≤ 8)%nat →
  ss_mode r = true → entry_ok r idr kr → ke_key kr = ke_key k →
  (client = true → ke_method kr = ke_method k ∧ is_agent = false) →
  counts kr = (ss_global_count s, ss_local_count s) ∨ before (counts kr) (ss_global_count s, ss_local_count s) →
  Forall letter_ok ms → uint32 (ss_global_count s + length ms) →
  ∃ s' r', exchange cfs cfr client s r ids idr is_agent ms =
      Some (map (λ m, (announced k is_agent, Some KS_VALID, Some (le_msg m))) ms, s', r') ∧
    (ms ≠ [] → ∃ kr', entry_ok r' idr kr' ∧ counts kr' = (ss_global_count s', ss_local_count s')).
Proof using laws.
  intros Hv Hms Hks Hs Hdig Hidl Hmr He Hkey Hcl Hcnt Hletters. revert s r kr Hms Hks Hs Hmr He Hkey Hcl Hcnt.
  induction Hletters as [|m ms (Hsend & Hrand & Hout & Hclear) Hletters IH]; intros s r kr Hms Hks Hs Hmr He Hkey Hcl Hcnt Hmax.
  { by exists s, r. }
  pose proof Hs as (sk & _ & _ & _ & _ & Hg & Hl). rewrite length_cons in Hmax. unfold uint32 in Hg, Hmax.
  destruct (next_count (ss_global_count s) (ss_local_count s)) as [g l] eqn:Hn.
  assert (uint32 (ss_global_count s + 1)) as Hg1 by (unfold uint32; lia).
  destruct (next_count_before _ _ _ _ Hg1 Hl Hn) as [Hbef Hgle].
  destruct (next_count_range _ _ _ _ Hg Hl Hn) as [Hg' Hl'].
  destruct (create_packet cfs s k ids (le_msg m) (le_out m) (le_rand m) is_agent g l Hms Hks Hs Hidl Hsend Hrand Hout Hn)
    as (out' & s1 & E1 & Hb & Ek & Esz & Hm1 & Eg & El & Hs1).
  set (b := id_header k is_agent ++ _) in *. cbn [exchange]. rewrite E1. cbn [mbind option_bind].
  rewrite Nat2Z.id, take_app_length.
  assert (before (counts kr) (g, l)) as Hnew by (destruct Hcnt as [->|Hcnt]; [done|by eapply before_trans]).
  destruct (receive_packet cfr client r k kr is_agent idr (le_rand m) g l (le_msg m) (le_clear m) (le_now m) Hv Hmr He Hkey Hcl Hdig Hidl
    ltac:(split_and!; [lia|lia|done|lia|lia]) Hsend Hclear Hnew Hb) as (rest & r1 & kr1 & E2 & [He1 _ Hk1 Hme1 _ Hmo1] & Hc1).
  fold b in E2. rewrite E2. cbn [mbind option_bind].
  destruct (IH s1 r1 kr1) as (s' & r' & E3 & Hfin); [done|congruence|done|congruence|done|simpl in Hk1; congruence|..].
  { intros Hc. split; [done|by apply Hcl]. }
  { left. congruence. }
  { unfold uint32. lia. }
  rewrite E3. cbn [mbind option_bind fmap option_fmap option_map fst snd]. rewrite Nat2Z.id, take_app_length.
  exists s', r'. split; [done|]. intros _. destruct ms as [|m' ms]; [|by apply Hfin].
  injection E3 as <- <-. exists kr1. split; [done|congruence].
Qed.
End channel.

(** Two messages of an agent, to a manager that knows it. *)
Lemma sec_channel_roundtrip_witness :
  let z := replicate (Z.to_nat 65537) 0 in
  let ms := [Letter [104; 105] 4711 z z 100; Letter [98; 121; 101] 815 z z 101] in
  ∃ s' r', exchange Toy.md5 Toy.compress2 Toy.uncompress Toy.bf Toy.bf Toy.aes_encrypt Toy.aes_decrypt Toy.new_inode
      demo_conf demo_conf false demo_state demo_state 0 0 true ms =
    Some ([(Some demo_id, Some KS_VALID, Some [104; 105]); (Some demo_id, Some KS_VALID, Some [98; 121; 101])], s', r') ∧
    (ms ≠ [] → ∃ kr', entry_ok r' 0 kr' ∧ counts kr' = (ss_global_count s', ss_local_count s')).
Proof.
  intros z ms. assert (Z.of_nat (length z) >= 65537) as Hz by (unfold z; rewrite length_replicate; lia). clearbody z.
  pose proof (demo_entry _ eq_refl) as He. set (k := KeyEntry _ _ _ _ _ _ _ _ _ _) in He.
  apply (sec_channel_roundtrip _ _ _ _ _ _ _ Toy.new_inode toy_laws demo_conf demo_conf false demo_state demo_state
    k k 0 0 true ms); try done.
  - eexists. split; [done|]. split_and!; try done; simpl; lia.
  - repeat constructor.
  - simpl. lia.
  - right. left. simpl. lia.
  - unfold letter_ok, sendable, OS_MAXSTR, OS_HEADER_SIZE, ms. repeat constructor; simpl; lia.
Defined.

(** * Restarts *)

Section restart.
Context (new_inode : gmap Z (list Z) → Z) (fresh : ∀ m, m !! new_inode m = None).

(** Files that are there stay as they are. *)
Record untouched (s s' : secstate) : Prop := {
  untouched_names n i : ss_names s !! n = Some i → ss_names s' !! n = Some i;
  untouched_inodes i c : ss_inodes s !! i = Some c → ss_inodes s' !! i = Some c
}.
#[local] Instance untouched_trans : Transitive untouched.
Proof. intros s1 s2 s3 [] []. split; auto. Qed.
Definition files_wf (s : secstate) : Prop := ∀ n i, ss_names s !! n = Some i → is_Some (ss_inodes s !! i).

Lemma open_untouched s n : files_wf s →
  let '(i, found, s') := open_rids new_inode s n in
  untouched s s' ∧ files_wf s' ∧ ss_keys s' = ss_keys s ∧ ss_keysize s' = ss_keysize s ∧ ss_names s' !! n = Some i ∧ is_Some (ss_inodes s' !! i) ∧
  (∀ j, ss_names s !! n = Some j → found = true ∧ i = j ∧ s' = s).
Proof.
  intros Hwf. unfold open_rids. destruct (ss_names s !! n) as [i|] eqn:Hn.
  { split_and!; try done; [by eapply Hwf|]. intros j [= <-]. done. }
  pose proof (fresh (ss_inodes s)) as Hf. set (i := new_inode (ss_inodes s)) in *.
  split_and!; try done; simpl; [split; simpl| |by rewrite lookup_insert_eq|by rewrite lookup_insert_eq].
  - intros m j Hm. rewrite lookup_insert_ne; [done|]. intros ->. congruence.
  - intros j c Hj. rewrite lookup_insert_ne; [done|]. intros ->. congruence.
  - intros m j. simpl. destruct (decide (n = m)) as [<-|Hne].
    + rewrite lookup_insert_eq. intros [= <-]. by rewrite lookup_insert_eq.
    + rewrite lookup_insert_ne by done. intros Hm. destruct (decide (i = j)) as [<-|Hij]; [by rewrite lookup_insert_eq|].
      rewrite lookup_insert_ne by done. by eapply Hwf.
Qed.

(** [OS_StartCounter] reads the counters of every agent from its file. *)
Definition started (s s' : secstate) (id : nat) : Prop :=
  ∀ k i c, ss_keys s !! id = Some k → ss_names s !! ke_id k = Some i → ss_inodes s !! i = Some c →
  ∃ k', entry_ok s' id k' ∧ ke_id k' = ke_id k ∧ ke_key k' = ke_key k ∧ counts k' = scan_counters c.

Lemma start_counters_ok n i0 s :
  files_wf s → (i0 + n ≤ length (ss_keys s))%nat →
  ∃ s', start_counters new_inode n i0 s = Some s' ∧ untouched s s' ∧ ss_keysize s' = ss_keysize s ∧
    (∀ id, (id < i0)%nat → ss_keys s' !! id = ss_keys s !! id) ∧
    (∀ id, (i0 ≤ id < i0 + n)%nat → id ≠ ss_keysize s → started s s' id).
Proof.
  revert i0 s. induction n as [|n IH]; intros i0 s Hwf Hlen.
  { exists s. split_and!; try done. lia. }
  cbn [start_counters]. destruct (lookup_lt_is_Some_2 (ss_keys s) i0) as [k Hk]; [lia|]. rewrite Hk. cbn [mbind option_bind].
  set (sender := (i0 =? ss_keysize s)%nat). set (name := if sender then SENDER_COUNTER else ke_id k).
  pose proof (open_untouched s name Hwf) as Ho. destruct (open_rids new_inode s name) as [[i found] s1].
  destruct Ho as (Hun & Hwf1 & Ek & Esz & Hn & [c Hc] & Hsame).
  assert (∃ gl, (if found then scan_counters <$> ss_inodes s1 !! i else Some (ke_global k, ke_local k)) = Some gl ∧ (found = true → gl = scan_counters c))
    as ([g l] & -> & Hgl) by (rewrite Hc; destruct found; by eexists).
  cbn [mbind option_bind]. set (s2 := if sender then _ else _). set (k2 := if sender then _ else _).
  assert (untouched s s2 ∧ files_wf s2 ∧ ss_keys s2 = ss_keys s ∧ ss_keysize s2 = ss_keysize s ∧ ss_names s2 = ss_names s1 ∧ ss_inodes s2 = ss_inodes s1)
    as (Hun2 & Hwf2 & Ek2 & Esz2 & En2 & Ei2).
  { unfold s2. destruct sender; [destruct found|]; (split_and!; try done; destruct Hun; by split). }
  assert (untouched s (with_key s2 i0 k2)) as Hun3 by (destruct Hun2; by split).
  destruct (IH (S i0) (with_key s2 i0 k2)) as (s' & -> & Hun' & Esz' & Hlow & Hst); [done|simpl; rewrite length_insert, Ek2; lia|].
  assert (untouched s s') as Hun4 by (by etransitivity). exists s'. split; [done|]. split; [done|]. split; [simpl in Esz'; congruence|]. split.
  { intros id Hid. rewrite Hlow by lia. simpl. rewrite list_lookup_insert_ne by lia. by rewrite Ek2. }
  intros id Hid Hne k0 i' c' Hk0 Hn' Hc'. destruct (decide (id = i0)) as [->|Hid0].
  - assert (k0 = k) as -> by congruence. assert (sender = false) as Es by (by apply Nat.eqb_neq).
    assert (name = ke_id k) as Enm by (unfold name; by rewrite Es). destruct (Hsame i') as (-> & -> & ->); [by rewrite Enm|].
    assert (c' = c) as -> by congruence. specialize (Hgl eq_refl). exists k2.
    assert (k2 = set_file (set_counts k g l) i' None) as ->.
    { unfold k2. rewrite Es. unfold File_Inode. rewrite En2, Hn. done. }
    split_and!; [|done|done|by rewrite <-Hgl]. split_and!; [|by apply (untouched_names _ _ Hun4)|exists c; by apply (untouched_inodes _ _ Hun4)|by left].
    rewrite Hlow by lia. simpl. apply list_lookup_insert_eq. rewrite Ek2. lia.
  - apply (Hst id ltac:(lia) ltac:(simpl; congruence) k0 i' c'); [simpl; rewrite list_lookup_insert_ne by lia; by rewrite Ek2|by apply (untouched_names _ _ Hun3)|by apply (untouched_inodes _ _ Hun3)].
Qed.

(** The counters survive a restart: what was stored for an agent is what
    [OS_StartCounter] gives it afterwards, in any store that still has the
    agent, whatever its entry held before. *)
Theorem counters_survive_restart s id k g l now s1 s2 k2 :
  uint32 g → uint32 l → entry_ok s id k → files_wf s →
  StoreCounter new_inode s id g l now = Some s1 →
  ss_names s2 = ss_names s1 → ss_inodes s2 = ss_inodes s1 →
  (id < ss_keysize s2 < length (ss_keys s2))%nat → ss_keys s2 !! id = Some k2 → ke_id k2 = ke_id k →
  ∃ s3 k3, OS_StartCounter new_inode s2 = Some s3 ∧ entry_ok s3 id k3 ∧ ke_key k3 = ke_key k2 ∧ counts k3 = (g, l).
Proof using fresh.
  intros Hg Hl He Hwf Hst En Ei Hid Hk2 Eid.
  destruct (store_entry new_inode s id k g l now He) as (s1' & k' & E & He1 & _ & _ & _ & _ & _ & _ & _ & En1 & (c & Ei1) & _ & _).
  rewrite E in Hst. injection Hst as ->.
  assert (files_wf s2) as Hwf2.
  { intros n i. rewrite En, En1, Ei, Ei1. intros Hn. destruct (decide (ke_inode k = i)) as [<-|Hne]; [by rewrite lookup_insert_eq|].
    rewrite lookup_insert_ne by done. by eapply Hwf. }
  destruct (start_counters_ok (S (ss_keysize s2)) 0 s2 Hwf2 ltac:(lia)) as (s3 & E3 & _ & _ & _ & Hs).
  destruct (Hs id ltac:(lia) ltac:(lia) k2 (ke_inode k) (overwrite (counter_text g l) c)) as (k3 & He3 & _ & Hk3 & Hc3); [done| | |].
  { rewrite En, En1, Eid. apply He. }
  { by rewrite Ei, Ei1, lookup_insert_eq. }
  unfold OS_StartCounter. rewrite E3. cbn [mbind option_bind]. exists (with_queue s3 []), k3.
  split_and!; [done|by eapply frame_entry; [apply (frame_other id s3)|]|done|]. rewrite Hc3. by apply counters_file_roundtrip.
Qed.
End restart.

Lemma toy_new_inode_bound m i : is_Some (m !! i) → i < Toy.new_inode m.
Proof.
  unfold Toy.new_inode. revert m. apply (map_fold_weak_ind (λ n (m : gmap Z (list Z)), is_Some (m !! i) → i < n)).
  - rewrite lookup_empty. intros [? ?]. done.
  - intros j c m n Hj IH Hi. destruct (decide (j = i)) as [->|Hne]; [lia|].
    rewrite lookup_insert_ne in Hi by done. specialize (IH Hi). lia.
Qed.
Lemma toy_new_inode_fresh m : m !! Toy.new_inode m = None.
Proof. apply eq_None_not_Some. intros H. apply toy_new_inode_bound in H. lia. Qed.

(** The manager stores the counters of its agent and starts again, its entries
    fresh from the file of keys. *)
Lemma counters_survive_restart_witness :
  ∃ s1 s3 k3, StoreCounter Toy.new_inode demo_state 0 7 42 100 = Some s1 ∧
    OS_StartCounter Toy.new_inode (SecState demo_keys 1 true [] 0 0 0 0 0 0 (ss_names s1) (ss_inodes s1)) = Some s3 ∧
    entry_ok s3 0 k3 ∧ counts k3 = (7, 42).
Proof.
  pose proof (demo_entry _ eq_refl) as He. set (k := KeyEntry _ _ _ _ _ _ _ _ _ _) in He.
  destruct (store_entry Toy.new_inode demo_state 0 k 7 42 100 He) as (s1 & _ & E & _).
  assert (files_wf demo_state) as Hwf.
  { intros n i. simpl. rewrite lookup_insert_Some, lookup_singleton_Some. intros [[_ <-]|[_ [_ <-]]]; vm_compute; by eexists. }
  destruct (counters_survive_restart Toy.new_inode toy_new_inode_fresh demo_state 0 k 7 42 100 s1
    (SecState demo_keys 1 true [] 0 0 0 0 0 0 (ss_names s1) (ss_inodes s1)) k) as (s3 & k3 & E3 & He3 & _ & Hc);
    [by vm_compute|by vm_compute|exact He|exact Hwf|exact E|done|done|simpl; lia|done|done|].
  by exists s1, s3, k3.
Defined.

(** * The buffer of the decompression *)

(** C39: [ReadSecMSG] decompresses into the buffer it received, behind the colon,
    and allows OS_MAXSTR bytes and a zero there, although the buffer has only
    OS_MAXSTR + 1 bytes from its beginning: a packet under the right key that
    expands to OS_MAXSTR bytes is written beyond the end, before its checksum
    and its counters are looked at. *)
Theorem ReadSecMSG_overflow md5 uncompress bf_encrypt bf_decrypt aes_encrypt aes_decrypt new_inode cf s k id c tail clear z0 z now :
  ss_mode s = true → ss_keys s !! id = Some k →
  bf_decrypt (ke_key k) c = 33 :: z0 → length c = S (length z0) → head z0 ≠ Some 33 →
  uncompress z0 = Some z → Z.of_nat (length z) = OS_MAXSTR →
  1 + Z.of_nat (length (c ++ tail)) <= OS_MAXSTR + 1 → Z.of_nat (length clear) = OS_MAXSTR + 1 →
  ReadSecMSG md5 uncompress bf_encrypt bf_decrypt aes_encrypt aes_decrypt new_inode cf false s (58 :: c ++ tail) clear id (length c) now = None.
Proof.
  intros Hm Hk Hd Hl Hh Hu Hz Hb Hc. rewrite length_app in Hb. unfold OS_MAXSTR in *. unfold ReadSecMSG. rewrite Hm, Hk. cbn [negb mbind option_bind].
  change (strncmp (cstring (58 :: c ++ tail)) [35; 65; 69; 83] 4 =? 0) with false. cbv iota.
  change (rd (58 :: c ++ tail) 0) with (Some 58). cbn [mbind option_bind ke_method set_method]. change (negb (58 =? 58)) with false. cbv iota.
  change (drop 1 (58 :: c ++ tail)) with (c ++ tail). rewrite (proj2 (Z.ltb_ge _ _)) by lia.
  rewrite take_mem_ok by (rewrite length_app; lia). rewrite take_app_length. cbn [mbind option_bind doEncryptByMethod ke_key set_method].
  rewrite Hd, put_at_0 by (rewrite length_cons; lia). cbn [mbind option_bind app]. change (1 =? 0) with false. cbv iota.
  change (rd (33 :: ?x) 0) with (Some 33). cbn [mbind option_bind]. change (33 =? 33) with true. cbv iota.
  set (d := drop _ clear). assert (Z.of_nat (length d) = 65537 - Z.of_nat (length c)) as Hd' by (unfold d; rewrite length_drop, length_cons; lia).
  unfold read_compressed. rewrite (put_at_ok _ (33 :: z0) (take 1 d) (drop 1 d));
    [|cbn [app]; by rewrite take_drop|rewrite length_cons; lia|rewrite length_take; cbn [length]; lia].
  cbn [mbind option_bind].
  assert (span (λ c, c =? 33) ((33 :: z0) ++ [0] ++ drop 1 d) = ([33], z0 ++ [0] ++ drop 1 d)) as ->.
  { cbn [app]. destruct z0 as [|x z0]; [done|]. simpl in Hh. assert (x ≠ 33) as Hx by congruence. cbn [app]. cbn [span].
    change (33 =? 33) with true. cbv iota. rewrite (proj2 (Z.eqb_neq _ _)) by done. done. }
  cbn [length]. rewrite wrap32_id by (unfold uint32; lia). replace (Z.of_nat (length c) - Z.of_nat 1) with (Z.of_nat (length z0)) by lia.
  rewrite take_mem_ok by (rewrite length_app; lia). rewrite take_app_length. cbn [mbind option_bind].
  unfold os_zlib_uncompress. rewrite Hu. cbn [mbind option_bind]. unfold OS_MAXSTR. rewrite Hz. change ((65536 <=? 65536) && negb (65536 =? 0)) with true. cbv iota.
  assert (put_at (c ++ tail) 0 (z ++ [0]) = None) as ->; [|done].
  unfold put_at. rewrite !length_app. cbn [length]. change (0 <=? 0) with true. cbn [andb]. by rewrite (proj2 (Z.leb_gt _ _)) by lia.
Qed.

(** A stream of runs. *)
Definition runs (x : list Z) : option (list Z) :=
  match x with c :: n :: b :: _ => if c =? 120 then Some (replicate (Z.to_nat n) b) else None | _ => None end.

Lemma ReadSecMSG_overflow_witness :
  let c := Toy.bf [] [33; 120; 65536; 97] in
  let zeros := replicate (Z.to_nat 65532) 0 in
  length (58 :: c ++ zeros) = Z.to_nat 65537 ∧
  ReadSecMSG Toy.md5 runs Toy.bf Toy.bf Toy.aes_encrypt Toy.aes_decrypt Toy.new_inode demo_conf false demo_state
    (58 :: c ++ zeros) (replicate (Z.to_nat 65537) 0) 0 4 100 = None.
Proof.
  intros c zeros. assert (length zeros = Z.to_nat 65532) as Hz by apply length_replicate. clearbody zeros. split.
  { rewrite length_cons, length_app, Hz. simpl length. lia. }
  pose proof (demo_entry _ eq_refl) as [Hk _]. set (k := KeyEntry _ _ _ _ _ _ _ _ _ _) in Hk.
  apply (ReadSecMSG_overflow Toy.md5 runs Toy.bf Toy.bf Toy.aes_encrypt Toy.aes_decrypt Toy.new_inode demo_conf demo_state k 0 c zeros
    _ [120; 65536; 97] (replicate (Z.to_nat 65536) 97) 100); [done|done|done|done|done|done| | |].
  - rewrite length_replicate. unfold OS_MAXSTR. lia.
  - rewrite length_app, Hz. simpl length. unfold OS_MAXSTR. lia.
  - rewrite length_replicate. unfold OS_MAXSTR. lia.
Defined.
