(* ===== verification/StringOp.v ===== *)
(** The string helpers (src/shared/string_op.c).

    A string is the list of its characters before the NUL; [None] as a string
    is a null pointer.  A pointer into a string is what is left from it.  The
    buffers the functions write to are filled from left to right: [outbuf] has
    the characters so far and the capacity, and a write that does not fit is
    undefined behaviour, the outer [None] of the results, as is a loop that does
    not end.  The allocators are taken to succeed.  The functions on cJSON
    objects, wide strings and variadic formats are left out. *)

From S2P Require Import Prelude CLib OsStr.

Record outbuf := OutBuf { ob_text : cstr; ob_cap : Z }.
Definition ob_put (b : outbuf) (cs : cstr) : option outbuf :=
  if length (ob_text b ++ cs) <=? ob_cap b then Some (OutBuf (ob_text b ++ cs) (ob_cap b)) else None.
(** [os_realloc] *)
Definition ob_grow (b : outbuf) (n : Z) : outbuf := OutBuf (take (Z.to_nat n) (ob_text b)) n.
(** The terminator, and the string. *)
Definition ob_end (b : outbuf) : option cstr := _ ← ob_put b [0]; Some (ob_text b).
Definition ob_len (b : outbuf) : Z := length (ob_text b).

(** * Trimming and filtering *)

(** [os_trimcrlf] *)
Definition iscrlf (c : Z) : bool := (c =? 10) || (c =? 13).
Fixpoint trim_loop (len : nat) (str : cstr) : cstr :=
  match str !! len with
  | Some c =>
      if iscrlf c then let str := take len str in match len with O => str | S len => trim_loop len str end
      else str
  | None => str
  end.
Definition os_trimcrlf (str : cstr) : cstr := match str with [] => [] | _ => trim_loop (length str - 1) str end.

(** [os_strip_char]: the length is counted first. *)
Fixpoint strip_loop (iterator : cstr) (remove : Z) (b : outbuf) : option outbuf :=
  match iterator with
  | [] => Some b
  | c :: iterator => b ← (if c =? remove then Some b else ob_put b [c]); strip_loop iterator remove b
  end.
Definition os_strip_char (source : cstr) (remove : Z) : option cstr :=
  let n := Z.of_nat (length (filter (λ c, c ≠ remove) source)) in
  b ← strip_loop source remove (OutBuf [] (n + 1)); ob_end b.

(** [os_substr], into a buffer of [cap] bytes. *)
Definition os_substr (cap : Z) (src : option cstr) (position : nat) (len : Z) : option (Z * cstr) :=
  _ ← ob_put (OutBuf [] cap) [0];
  if len <=? 0 then Some (-3, [])
  else match src with
       | None => Some (-2, [])
       | Some src =>
           if (length src <=? position)%nat then Some (-1, [])
           else b ← ob_put (OutBuf [] cap) (take (Z.to_nat len) (drop position src)); s ← ob_end b; Some (0, s)
       end.

(** [os_shell_escape] *)
Definition shell_escapes : cstr :=
  [92; 34; 39; 9; 59; 96; 62; 60; 124; 35; 42; 91; 93; 123; 125; 38; 36; 33; 58; 40; 41].
Definition escapes (c : Z) : bool := bool_decide (c ∈ shell_escapes).
(** The characters that are escaped already. *)
Definition already (c : Z) (rest : cstr) : option (Z * cstr) :=
  match rest with d :: rest => if (c =? 92) && escapes d then Some (d, rest) else None | [] => None end.
Fixpoint escape_count (fuel : nat) (iterator : cstr) (length : Z) : option Z :=
  match fuel, iterator with
  | _, [] => Some length
  | O, _ => None
  | S fuel, c :: rest =>
      if escapes c then
        match already c rest with
        | Some (_, rest) => escape_count fuel rest (length + 2)
        | None => escape_count fuel rest (length + 2)
        end
      else escape_count fuel rest (length + 1)
  end.
Fixpoint shell_loop (fuel : nat) (iterator : cstr) (b : outbuf) : option outbuf :=
  match fuel, iterator with
  | _, [] => Some b
  | O, _ => None
  | S fuel, c :: rest =>
      if escapes c then
        match already c rest with
        | Some (d, rest) => b ← ob_put b [c]; b ← ob_put b [d]; shell_loop fuel rest b
        | None => b ← ob_put b [92]; b ← ob_put b [c]; shell_loop fuel rest b
        end
      else b ← ob_put b [c]; shell_loop fuel rest b
  end.
Definition os_shell_escape (src : option cstr) : option (option cstr) :=
  match src with
  | None => Some None
  | Some src =>
      n ← escape_count (length src) src 0;
      b ← shell_loop (length src) src (OutBuf [] (n + 1));
      s ← ob_end b; Some (Some s)
  end.

(** [os_strcnt] *)
Definition os_strcnt (haystack : cstr) (needle : Z) : Z := length (filter (λ c, c = needle) haystack).

(** [w_strtrim]: [done_] is the string up to [c]. *)
Fixpoint strtrim_loop (fuel : nat) (done_ c : cstr) : option cstr :=
  match fuel with
  | O => None
  | S fuel =>
      let '(sp, d) := span (λ x, x =? 32) c in
      match d with
      | [] => Some done_
      | _ => let '(w, c) := span (λ x, negb (x =? 32)) d in strtrim_loop fuel (done_ ++ sp ++ w) c
      end
  end.
Definition w_strtrim (string : option cstr) : option (option cstr) :=
  match string with
  | None => Some None
  | Some string =>
      let string := (span (λ x, x =? 32) string).2 in
      let '(w, c) := span (λ x, negb (x =? 32)) string in
      s ← strtrim_loop (S (length c)) w c; Some (Some s)
  end.

(** [w_str_in_array] and [w_is_str_in_array] *)
Definition w_is_str_in_array (ar : list cstr) (str : cstr) : bool := existsb (λ a, strcmp a str =? 0) ar.
Definition w_str_in_array (needle : option cstr) (haystack : option (list cstr)) : bool :=
  match needle, haystack with Some n, Some h => existsb (λ a, strcmp n a =? 0) h | _, _ => false end.

(** [filter_special_chars]: [b] has room for the whole string; the NUL that a
    last backslash gives ends the string. *)
Fixpoint special_loop (fuel : nat) (string : cstr) (b : outbuf) : option cstr :=
  match fuel with
  | O => None
  | S fuel =>
      match string with
      | [] => ob_end b
      | c :: rest =>
          if c =? 92 then
            match rest with [] => ob_end b | d :: rest => b ← ob_put b [d]; special_loop fuel rest b end
          else b ← ob_put b [c]; special_loop fuel rest b
      end
  end.
Definition filter_special_chars (string : cstr) : option cstr :=
  special_loop (S (length string)) string (OutBuf [] (length string + 1)).

(** [w_tolower_str] *)
Fixpoint tolower_loop (string : cstr) (b : outbuf) : option outbuf :=
  match string with
  | [] => Some b
  | c :: string => b ← ob_put (ob_grow b (ob_len b + 2)) [tolower c]; tolower_loop string b
  end.
Definition w_tolower_str (string : option cstr) : option (option cstr) :=
  match string with
  | None => Some None
  | Some string => b ← tolower_loop string (OutBuf [] 1); s ← ob_end b; Some (Some s)
  end.

(** [w_remove_zero_dec] *)
Definition w_remove_zero_dec (str_number : cstr) : cstr :=
  match strchr str_number 46 with
  | None => str_number
  | Some (whole, dot_frac) => whole ++ take 1 dot_frac ++ rev (span (λ c, c =? 48) (rev (drop 1 dot_frac))).2
  end.

(** * Replacing *)

(** [wstr_replace] *)
Fixpoint replace_loop (fuel : nat) (scur search replace : cstr) (b : outbuf) : option cstr :=
  match fuel with
  | O => None
  | S fuel =>
      match strstr scur search with
      | Some (chunk, scur) =>
          let b := ob_grow b (ob_len b + length chunk + length replace + 1) in
          b ← ob_put b chunk; b ← ob_put b replace; replace_loop fuel scur search replace b
      | None => b ← ob_put (ob_grow b (ob_len b + length scur + 1)) scur; ob_end b
      end
  end.
Definition wstr_replace (fuel : nat) (string search replace : option cstr) : option (option cstr) :=
  match string, search, replace with
  | Some string, Some search, Some replace => s ← replace_loop fuel string search replace (OutBuf [] 1); Some (Some s)
  | _, _, _ => Some None
  end.

(** [w_remove_substr]: [q] is what is kept so far, the string is its own buffer. *)
Fixpoint remove_loop (fuel : nat) (p sub q : cstr) : option cstr :=
  match fuel with
  | O => None
  | S fuel => match strstr p sub with Some (chunk, p) => remove_loop fuel p sub (q ++ chunk) | None => Some (q ++ p) end
  end.
Definition w_remove_substr (fuel : nat) (str sub : option cstr) : option (option cstr) :=
  match str, sub with
  | Some str, Some sub =>
      match strstr str sub with
      | Some (q, p) => s ← remove_loop fuel p sub q; Some (Some s)
      | None => Some (Some str)
      end
  | _, _ => Some None
  end.

(** * Escaping *)

(** [wstr_chr_escape] and [wstr_chr]: the string from the character. *)
Fixpoint chr_loop (str : cstr) (character escape : Z) (escaped : bool) : option cstr :=
  match str with
  | [] => None
  | c :: rest =>
      if escaped then chr_loop rest character escape false
      else if c =? character then Some str
      else chr_loop rest character escape (c =? escape)
  end.
Definition wstr_chr_escape (str : cstr) (character escape : Z) : option cstr := chr_loop str character escape false.
Definition wstr_chr (str : cstr) (character : Z) : option cstr := wstr_chr_escape str character 92.

(** [strcspn_escaped]; the escaped character may be the terminator. *)
Fixpoint cspn_loop (fuel : nat) (s : cstr) (reject : Z) (spn_len : nat) : option nat :=
  match fuel with
  | O => None
  | S fuel =>
      let rest := drop spn_len s in
      let '(a, b) := span (λ c, negb (c =? 92) && negb (c =? reject)) rest in
      let spn_len := (spn_len + length a)%nat in
      match b with
      | [] => Some spn_len
      | c :: _ =>
          if c =? 92 then
            let spn_len := (spn_len + 2)%nat in
            if (spn_len <? length s)%nat then cspn_loop fuel s reject spn_len else Some (length s)
          else Some spn_len
      end
  end.
Definition strcspn_escaped (s : cstr) (reject : Z) : option nat := cspn_loop (S (length s)) s reject 0.

(** [wstr_escape] into [dst_size] bytes: [s] is [str + i], and [j] is the
    length of [b]. *)
Fixpoint escape_loop (fuel : nat) (dst_size escape matched : Z) (s : cstr) (b : outbuf) : option outbuf :=
  match fuel with
  | O => None
  | S fuel =>
      let '(chunk, rest) := span (λ c, negb (c =? escape) && negb (c =? matched)) s in
      let j := ob_len b in
      let z := Z.of_nat (length chunk) in
      let ended :=
        let z := if z + j <=? wrap64 (dst_size - 1) then z else wrap64 (dst_size - j - 1) in
        b ← ob_put b (take (Z.to_nat z) s); Some (drop (Z.to_nat z) s, b) in
      '(s, b) ←
        (match rest with
         | [] => ended
         | c :: rest =>
             if wrap64 (dst_size - 2) <=? j + z then ended
             else b ← ob_put b chunk; b ← ob_put b [escape; if c =? escape then escape else matched]; Some (rest, b)
         end);
      match s with
      | [] => Some b
      | _ => if ob_len b <? wrap64 (dst_size - 2) then escape_loop fuel dst_size escape matched s b else Some b
      end
  end.
Definition wstr_escape (dst_size : Z) (str : option cstr) (escape matched : Z) : option (Z * cstr) :=
  match str with
  | None => Some (-1, [])
  | Some s =>
      b ← escape_loop (S (length s)) dst_size escape matched s (OutBuf [] dst_size);
      t ← ob_end b; Some (ob_len b, t)
  end.

(** [wstr_unescape] *)
Fixpoint unescape_loop (fuel : nat) (dst_size escape : Z) (s : cstr) (b : outbuf) : option outbuf :=
  match fuel with
  | O => None
  | S fuel =>
      let '(chunk, _) := span (λ c, negb (c =? escape)) s in
      let z := Z.of_nat (length chunk) in
      let j := ob_len b in
      let z := if z + j <=? wrap64 (dst_size - 1) then z else wrap64 (dst_size - j - 1) in
      b ← ob_put b (take (Z.to_nat z) s);
      let s := drop (Z.to_nat z) s in
      '(s, b) ←
        (match s with
         | c :: rest =>
             if ob_len b <? wrap64 (dst_size - 1) then
               match rest with
               | d :: rest' => if d =? escape then b ← ob_put b [c]; Some (rest', b) else Some (rest, b)
               | [] => b ← ob_put b [c]; Some ([], b)
               end
             else Some (s, b)
         | [] => Some (s, b)
         end);
      match s with
      | [] => Some b
      | _ => if ob_len b <? wrap64 (dst_size - 1) then unescape_loop fuel dst_size escape s b else Some b
      end
  end.
Definition wstr_unescape (dst_size : Z) (str : option cstr) (escape : Z) : option (Z * cstr) :=
  match str with
  | None => Some (-1, [])
  | Some s =>
      b ← unescape_loop (S (length s)) dst_size escape s (OutBuf [] dst_size);
      t ← ob_end b; Some (ob_len b, t)
  end.

(** ** JSON *)

Definition escape_map (c : Z) : Z :=
  if c =? 8 then 98 else if c =? 9 then 116 else if c =? 10 then 110 else if c =? 12 then 102 else if c =? 13 then 114
  else if c =? 34 then 34 else if c =? 92 then 92 else 0.
Definition json_reserved (c : Z) : bool := bool_decide (c ∈ [8; 9; 10; 12; 13; 34; 92]).
Definition UNESCAPE_MAP (c : Z) : Z :=
  if c =? 98 then 8 else if c =? 116 then 9 else if c =? 110 then 10 else if c =? 102 then 12 else if c =? 114 then 13
  else if c =? 34 then 34 else if c =? 92 then 92 else 0.
Definition json_escaped (c : Z) : bool := bool_decide (c ∈ [98; 116; 110; 102; 114; 34; 92]).

(** [wstr_escape_json] *)
Fixpoint escape_json_loop (fuel : nat) (string : cstr) (b : outbuf) : option outbuf :=
  match fuel with
  | O => None
  | S fuel =>
      let '(chunk, rest) := span (λ c, negb (json_reserved c)) string in
      match rest with
      | [] => ob_put (ob_grow b (ob_len b + length chunk + 1)) chunk
      | c :: rest =>
          b ← ob_put (ob_grow b (ob_len b + length chunk + 3)) chunk;
          b ← ob_put b [92; escape_map c];
          match rest with [] => Some b | _ => escape_json_loop fuel rest b end
      end
  end.
Definition wstr_escape_json (string : cstr) : option cstr :=
  b ← escape_json_loop (S (length string)) string (OutBuf [] 1); ob_end b.

(** [wstr_unescape_json] *)
Fixpoint unescape_json_loop (fuel : nat) (string : cstr) (b : outbuf) : option outbuf :=
  match fuel with
  | O => None
  | S fuel =>
      let '(chunk, rest) := span (λ c, negb (c =? 92)) string in
      b ← ob_put (ob_grow b (ob_len b + length chunk + 3)) chunk;
      '(string, b) ←
        (match rest with
         | [] => Some ([], b)
         | [_] => b ← ob_put b [92]; Some ([], b)
         | _ :: c :: rest =>
             if json_escaped c then b ← ob_put b [UNESCAPE_MAP c]; Some (rest, b)
             else b ← ob_put b [92]; b ← ob_put b [c]; Some (rest, b)
         end);
      match string with [] => Some b | _ => unescape_json_loop fuel string b end
  end.
Definition wstr_unescape_json (string : cstr) : option cstr :=
  b ← unescape_json_loop (S (length string)) string (OutBuf [] 1); ob_end b.

(** * Concatenating and splitting *)

(** [w_strndup] *)
Definition w_strndup (str : option cstr) (n : nat) : option (option cstr) :=
  match str with
  | None => Some None
  | Some s =>
      let str_len := Nat.min (length s) n in
      b ← ob_put (OutBuf [] (str_len + 1)) (take str_len s); t ← ob_end b; Some (Some t)
  end.

(** [w_strcat]: [n] bytes of [b]. *)
Definition w_strcat (a : option cstr) (b : cstr) (n : nat) : option (option cstr) :=
  match a with
  | None => w_strndup (Some b) n
  | Some a =>
      if (length b <? n)%nat then None
      else o ← ob_put (OutBuf a (length a + n + 1)) (take n b); t ← ob_end o; Some (Some t)
  end.

(** [w_strcat_list] *)
Fixpoint strcat_list_loop (l : list cstr) (sep_char : Z) (first : bool) (concatenation : option cstr) : option (option cstr) :=
  match l with
  | [] => Some concatenation
  | s :: l =>
      c ← (if first then Some concatenation else w_strcat concatenation [sep_char] 1);
      c ← w_strcat c s (length s); strcat_list_loop l sep_char false c
  end.
Definition w_strcat_list (l : option (list cstr)) (sep_char : Z) : option (option cstr) :=
  match l with None => Some None | Some l => strcat_list_loop l sep_char true None end.

(** [w_strarray_append] and [strarray_size], for an array of [n] strings. *)
Definition w_strarray_append (array : list cstr) (string : cstr) : list cstr := array ++ [string].
Definition strarray_size (array : option (list cstr)) : Z := match array with Some a => length a | None => 0 end.

(** [wm_strcat]; a separator 0 is none. *)
Definition wm_strcat (str1 : option cstr) (str2 : option cstr) (sep : Z) : Z * option cstr :=
  match str2 with
  | None => (-1, str1)
  | Some s2 => (0, Some (match str1 with Some s1 => s1 ++ (if sep =? 0 then [] else [sep]) ++ s2 | None => s2 end))
  end.

(** [w_strtok]: spaces separate, double quotes and backslashes protect. *)
Definition tok_special (c : Z) : bool := (c =? 32) || (c =? 34) || (c =? 92).
Fixpoint strtok_loop (fuel : nat) (quoting : bool) (accum : option cstr) (output : list cstr) (i : cstr) : option (list cstr) :=
  match fuel with
  | O => None
  | S fuel =>
      let '(chunk, rest) := span (λ c, negb (tok_special c)) i in
      let z := length chunk in
      match rest with
      | [] =>
          accum ← (match i with [] => Some accum | _ => w_strcat accum i (length i) end);
          Some (match accum with Some a => w_strarray_append output a | None => output end)
      | c :: rest =>
          if c =? 32 then
            if quoting then accum ← w_strcat accum i (z + 1); strtok_loop fuel quoting accum output rest
            else
              accum ← (if (0 <? z)%nat then w_strcat accum i z else Some accum);
              strtok_loop fuel quoting None (match accum with Some a => w_strarray_append output a | None => output end) rest
          else if c =? 34 then
            accum ← (if (0 <? z)%nat || quoting then w_strcat accum i z else Some accum);
            strtok_loop fuel (negb quoting) accum output rest
          else
            accum ← (if (0 <? z)%nat then w_strcat accum i z else Some accum);
            match rest with
            | [] => strtok_loop fuel quoting accum output []
            | _ :: rest' => accum ← w_strcat accum rest 1; strtok_loop fuel quoting accum output rest'
            end
      end
  end.
Definition w_strtok (string : cstr) : option (list cstr) := strtok_loop (S (length string)) false None [] string.

(** [w_string_split]; a maximum of 0 is none. *)
Fixpoint split_loop (fuel : nat) (aux delim : cstr) (max_array_size : Z) (paths : list cstr) : option (list cstr) :=
  match fuel with
  | O => None
  | S fuel =>
      match strtok_r aux delim with
      | None => Some paths
      | Some (token, aux) =>
          let paths := paths ++ [token] in
          if negb (max_array_size =? 0) && (max_array_size <=? length paths) then Some paths
          else split_loop fuel aux delim max_array_size paths
      end
  end.
Definition w_string_split (string_to_split delim : option cstr) (max_array_size : Z) : option (list cstr) :=
  match string_to_split, delim with
  | Some s, Some d => split_loop (S (length s)) s d max_array_size []
  | _, _ => Some []
  end.

(** [w_strtok_r_str_delim]: the token, and the remaining string. *)
Fixpoint skip_delims (fuel : nat) (delim remaining : cstr) : option cstr :=
  match fuel with
  | O => None
  | S fuel => match strstr remaining delim with Some ([], rest) => skip_delims fuel delim rest | _ => Some remaining end
  end.
Definition w_strtok_r_str_delim (delim remaining_str : option cstr) : option (option cstr * option cstr) :=
  match remaining_str with
  | None => Some (None, None)
  | Some s =>
      match delim with
      | None | Some [] => Some (Some s, None)
      | Some delim =>
          s ← skip_delims (S (length s)) delim s;
          match s with
          | [] => Some (None, Some [])
          | _ => match strstr s delim with Some (token, rest) => Some (Some token, Some rest) | None => Some (Some s, None) end
          end
      end
  end.

(** The terms with a delimiter between them. *)
Fixpoint join_terms (new_delim : cstr) (acc_strs : list cstr) : cstr :=
  match acc_strs with
  | [] => []
  | [a] => a
  | a :: acc_strs => a ++ new_delim ++ join_terms new_delim acc_strs
  end.
(** [wstr_split]: every [occurrences] tokens are joined to one term; those left
    over are discarded. *)
Fixpoint wsplit_loop (fuel : nat) (str delim new_delim : cstr) (occurrences : nat) (acc_strs : list cstr) (splitted_str : list cstr)
    : option (list cstr) :=
  match fuel with
  | O => None
  | S fuel =>
      match strtok_r str delim with
      | None => Some splitted_str
      | Some (str_it, str) =>
          let acc_strs := acc_strs ++ [str_it] in
          if (length acc_strs =? occurrences)%nat then
            let term_size := (sum_list_with length acc_strs + (occurrences - 1) * length new_delim + 1)%nat in
            b ← ob_put (OutBuf [] term_size) (join_terms new_delim acc_strs);
            term ← ob_end b;
            wsplit_loop fuel str delim new_delim occurrences [] (splitted_str ++ [term])
          else wsplit_loop fuel str delim new_delim occurrences acc_strs splitted_str
      end
  end.
Definition wstr_split (str delim : cstr) (replace_delim : option cstr) (occurrences : Z) (splitted_str : list cstr) : option (list cstr) :=
  if occurrences <? 1 then Some splitted_str
  else wsplit_loop (S (length str)) str delim (default delim replace_delim) (Z.to_nat occurrences) [] splitted_str.

(** [wstr_delete_repeated_groups]: the names between commas, without
    repetitions; a null result of [OS_StrBreak] would be read. *)
Fixpoint group_loop (before aux : list cstr) (result : option cstr) : option cstr :=
  match aux with
  | [] => result
  | a :: aux =>
      let result := if existsb (λ b, strcmp b a =? 0) before then result else (wm_strcat result (Some a) 44).2 in
      group_loop (before ++ [a]) aux result
  end.
Definition wstr_delete_repeated_groups (string : cstr) : option (option cstr) :=
  r ← OS_StrBreak 44 (Some string) 128;
  aux ← r;
  Some (group_loop [] aux None).

(** * Comparing and parsing *)

(** [wstr_end] *)
Definition wstr_end (str str_end : cstr) : bool :=
  (length str_end <=? length str)%nat && (strcmp (drop (length str - length str_end) str) str_end =? 0).

(** [w_compare_str] *)
Definition w_compare_str (source str : option cstr) : Z :=
  match source, str with
  | Some source, Some str =>
      if (length str <? length source)%nat then -2
      else if strncmp source str (length source) =? 0 then Z.of_nat (length source) else 0
  | _, _ => -1
  end.

(** [find_string_in_array] *)
Definition find_string_in_array (string_array : option (list cstr)) (str : option cstr) (str_len : nat) : option cstr :=
  match string_array, str with
  | Some l, Some str => snd <$> list_find (λ a, strncmp str a str_len = 0) l
  | _, _ => None
  end.

(** [w_parse_bool] *)
Definition w_parse_bool (string : cstr) : Z :=
  if strcmp string [121; 101; 115] =? 0 then 1 else if strcmp string [110; 111] =? 0 then 0 else -1.

(** A product of [long]. *)
Definition mul_long (a b : Z) : option Z := if a * b <=? LONG_MAX then Some (a * b) else None.

(** [w_parse_time]; [errno] is ERANGE from before or not. *)
Definition w_parse_time (errno : bool) (string : cstr) : option Z :=
  let '(seconds, rest, range) := strtol string in
  if (seconds <? 0) || ((seconds =? LONG_MAX) && (range || errno)) then Some (-1)
  else match rest with
       | [] => Some seconds
       | c :: _ =>
           if c =? 119 then mul_long seconds 604800
           else if c =? 100 then mul_long seconds 86400
           else if c =? 104 then mul_long seconds 3600
           else if c =? 109 then mul_long seconds 60
           else if c =? 115 then Some seconds
           else Some (-1)
       end.

(** [w_parse_size] *)
Definition w_parse_size (string : cstr) : option Z :=
  match scan_number string with
  | None => Some (-1)
  | Some _ =>
      let '(size, rest, _) := strtol string in
      r ← (match rest with
           | [] => Some (Some size)
           | c :: _ =>
               let f := if (c =? 71) || (c =? 103) then 1073741824 else if (c =? 77) || (c =? 109) then 1048576
                        else if (c =? 75) || (c =? 107) then 1024 else if (c =? 66) || (c =? 98) then 1 else 0 in
               if f =? 0 then Some None
               else if (size * f <=? LONG_MAX) && (- LONG_MAX - 1 <=? size * f) then Some (Some (size * f)) else None
           end);
      Some (match r with Some size => if 0 <=? size then size else -1 | None => -1 end)
  end.

(** [w_seconds_to_time_unit] and [w_seconds_to_time_value] *)
Definition w_seconds_to_time_unit (seconds : Z) (long_format : bool) : cstr :=
  if seconds <? 0 then [105; 110; 118; 97; 108; 105; 100]
  else if 604800 <=? seconds then if long_format then [119; 101; 101; 107; 40; 115; 41] else [119]
  else if 86400 <=? seconds then if long_format then [100; 97; 121; 40; 115; 41] else [100]
  else if 3600 <=? seconds then if long_format then [104; 111; 117; 114; 40; 115; 41] else [104]
  else if 60 <=? seconds then if long_format then [109; 105; 110; 117; 116; 101; 40; 115; 41] else [109]
  else if long_format then [115; 101; 99; 111; 110; 100; 40; 115; 41] else [115].
Definition w_seconds_to_time_value (seconds : Z) : Z :=
  if seconds <? 0 then -1
  else if 604800 <=? seconds then seconds / 604800
  else if 86400 <=? seconds then seconds / 86400
  else if 3600 <=? seconds then seconds / 3600
  else if 60 <=? seconds then seconds / 60
  else seconds.
