(* ===== verification/StringSpec.v ===== *)
(** The string helpers: JSON and backslash escaping are undone, command lines
    are split as they are quoted, shell escapes are stable, durations are read
    as they are written, and every write fits its buffer. *)

From S2P Require Import Prelude CLib OsStr StringOp.

(** * Buffers *)

Lemma ob_put_ok b cs : Z.of_nat (length (ob_text b)) + Z.of_nat (length cs) <= ob_cap b → ob_put b cs = Some (OutBuf (ob_text b ++ cs) (ob_cap b)).
Proof. intros H. unfold ob_put. by rewrite (proj2 (Z.leb_le _ _)) by (rewrite length_app; lia). Qed.
Lemma ob_end_ok b : Z.of_nat (length (ob_text b)) < ob_cap b → ob_end b = Some (ob_text b).
Proof. intros H. unfold ob_end. rewrite ob_put_ok by (simpl; lia). done. Qed.
Lemma ob_grow_ok b n : Z.of_nat (length (ob_text b)) <= n → ob_grow b n = OutBuf (ob_text b) n.
Proof. intros H. unfold ob_grow. by rewrite take_ge by lia. Qed.
Lemma ob_put_grow b n cs :
  Z.of_nat (length (ob_text b)) + Z.of_nat (length cs) <= n → ob_put (ob_grow b n) cs = Some (OutBuf (ob_text b ++ cs) n).
Proof. intros H. rewrite ob_grow_ok by lia. by rewrite ob_put_ok by (simpl; lia). Qed.

(** The two parts of a [span], by the string. *)
Lemma span_cases f s : ∃ a, Forall (λ c, f c = true) a ∧ ((s = a ∧ span f s = (a, [])) ∨ (∃ c r, s = a ++ c :: r ∧ f c = false ∧ span f s = (a, c :: r))).
Proof.
  induction s as [|c s (a & Ha & IH)]; [exists []; eauto|]. simpl. destruct (f c) eqn:Hc; [|exists []; split; [done|]; right; by exists c, s].
  exists (c :: a). split; [by constructor|]. destruct IH as [[-> ->]|(d & r & -> & Hd & ->)]; [by left|]. right. by exists d, r.
Qed.

(** * JSON *)

(** What escaping writes, and what unescaping reads. *)
Definition json_char (c : Z) : cstr := if json_reserved c then [92; escape_map c] else [c].
Definition json_text (s : cstr) : cstr := concat (map json_char s).
Fixpoint json_read (s : cstr) : cstr :=
  match s with
  | [] => []
  | c :: s' =>
      if c =? 92 then
        match s' with
        | [] => [92]
        | d :: s'' => (if json_escaped d then [UNESCAPE_MAP d] else [92; d]) ++ json_read s''
        end
      else c :: json_read s'
  end.

Lemma json_text_plain a : Forall (λ c, negb (json_reserved c) = true) a → json_text a = a.
Proof. unfold json_text. induction 1 as [|c a Hc _ IH]; [done|]. simpl. unfold json_char at 1. apply negb_true_iff in Hc. rewrite Hc. simpl. by rewrite IH. Qed.
Lemma json_text_app a b : json_text (a ++ b) = json_text a ++ json_text b.
Proof. unfold json_text. by rewrite map_app, concat_app. Qed.
Lemma json_read_plain a s : Forall (λ c, negb (c =? 92) = true) a → json_read (a ++ s) = a ++ json_read s.
Proof. induction 1 as [|c a Hc _ IH]; [done|]. simpl. apply negb_true_iff in Hc. by rewrite Hc, IH. Qed.

Lemma json_reserved_cases c : json_reserved c = true →
  (c =? 92) = true ∨ (json_escaped (escape_map c) = true ∧ UNESCAPE_MAP (escape_map c) = c).
Proof.
  unfold json_reserved. rewrite bool_decide_eq_true, !elem_of_cons, elem_of_nil. intros H.
  repeat (destruct H as [->|H]; [auto|]). done.
Qed.
Lemma json_read_text s : json_read (json_text s) = s.
Proof.
  induction s as [|c s IH]; [done|]. change (json_text (c :: s)) with (json_char c ++ json_text s). unfold json_char.
  destruct (json_reserved c) eqn:Hc.
  - simpl. destruct (json_reserved_cases c Hc) as [->%Z.eqb_eq|[-> ->]]; simpl; by rewrite IH.
  - assert (c ≠ 92) as H by (intros ->; done). simpl. rewrite (proj2 (Z.eqb_neq _ _)) by done. by rewrite IH.
Qed.

Lemma escape_json_loop_ok f s b :
  (length s < f)%nat → 1 <= ob_cap b →
  ∃ b', escape_json_loop f s b = Some b' ∧ ob_text b' = ob_text b ++ json_text s ∧ Z.of_nat (length (ob_text b')) < ob_cap b'.
Proof.
  revert s b. induction f as [|f IH]; intros s b Hf Hcap; [lia|]. cbn [escape_json_loop].
  destruct (span_cases (λ c, negb (json_reserved c)) s) as (a & Ha & [[-> ->]|(c & r & -> & Hc & ->)]).
  - rewrite ob_put_grow by (unfold ob_len; lia). eexists. split; [done|]. simpl. split; [by rewrite json_text_plain|]. rewrite length_app. unfold ob_len. lia.
  - rewrite ob_put_grow by (unfold ob_len; lia). cbn [mbind option_bind]. rewrite ob_put_ok by (simpl; rewrite length_app; unfold ob_len; lia).
    cbn [mbind option_bind ob_text ob_cap]. apply negb_false_iff in Hc.
    assert (json_text (a ++ c :: r) = a ++ [92; escape_map c] ++ json_text r) as Et.
    { rewrite json_text_app, json_text_plain by done. change (json_text (c :: r)) with (json_char c ++ json_text r). unfold json_char. by rewrite Hc. }
    set (b1 := OutBuf _ _).
    assert (ob_text b1 = ob_text b ++ a ++ [92; escape_map c]) as Eb1 by (unfold b1; simpl; by rewrite <-app_assoc).
    assert (Z.of_nat (length (ob_text b1)) < ob_cap b1) as Hb1 by (rewrite Eb1; unfold b1, ob_len; simpl; rewrite !length_app; simpl; lia).
    destruct r as [|d r].
    + exists b1. split; [done|]. split; [rewrite Eb1, Et; by rewrite app_nil_r|done].
    + rewrite length_app in Hf. simpl in Hf. destruct (IH (d :: r) b1) as (b' & -> & Eb' & Hb'); [simpl; lia|lia|].
      exists b'. split; [done|]. split; [|done]. rewrite Eb', Eb1, Et, <-!app_assoc. done.
Qed.

Lemma wstr_escape_json_text s : wstr_escape_json s = Some (json_text s).
Proof.
  unfold wstr_escape_json. destruct (escape_json_loop_ok (S (length s)) s (OutBuf [] 1)) as (b & -> & Eb & Hb); [lia|simpl; lia|].
  cbn [mbind option_bind]. rewrite ob_end_ok by done. by rewrite Eb.
Qed.

Lemma unescape_json_loop_ok f s b :
  (length s < f)%nat →
  ∃ b', unescape_json_loop f s b = Some b' ∧ ob_text b' = ob_text b ++ json_read s ∧ Z.of_nat (length (ob_text b')) < ob_cap b'.
Proof.
  revert s b. induction f as [|f IH]; intros s b Hf; [lia|]. cbn [unescape_json_loop].
  assert (∀ t r b1 rd, ob_text b1 = ob_text b ++ rd → json_read s = rd ++ json_read r → (length r < f)%nat →
    Z.of_nat (length (ob_text b1)) < ob_cap b1 → t = r →
    ∃ b', match t with [] => Some b1 | _ => unescape_json_loop f t b1 end = Some b' ∧ ob_text b' = ob_text b ++ json_read s ∧
      Z.of_nat (length (ob_text b')) < ob_cap b') as Hnext.
  { intros t r b1 rd E1 E2 Hr Hb1 ->. rewrite E2. destruct r as [|d r].
    - exists b1. split; [done|]. split; [by rewrite E1, app_nil_r|done].
    - destruct (IH (d :: r) b1 Hr) as (b' & -> & Eb' & Hb'). exists b'. split; [done|]. split; [by rewrite Eb', E1, app_assoc|done]. }
  destruct (span_cases (λ c, negb (c =? 92)) s) as (a & Ha & [[-> ->]|(c & r & -> & Hc & ->)]);
    rewrite ob_put_grow by (unfold ob_len; lia); cbn [mbind option_bind].
  - eexists. split; [done|]. simpl. split; [|rewrite length_app; unfold ob_len; lia]. rewrite <-(app_nil_r a) at 2. rewrite json_read_plain by done. by rewrite app_nil_r.
  - apply negb_false_iff, Z.eqb_eq in Hc as ->. rewrite length_app in Hf. simpl in Hf.
    destruct r as [|d r].
    + rewrite ob_put_ok by (simpl; rewrite length_app; unfold ob_len; lia). cbn [mbind option_bind ob_text ob_cap].
      eapply (Hnext [] [] _ (a ++ [92])); [simpl; by rewrite <-app_assoc|by rewrite json_read_plain, app_nil_r|simpl; lia|simpl; rewrite !length_app; unfold ob_len; simpl; lia|done].
    + simpl in Hf. destruct (json_escaped d) eqn:Hd.
      * rewrite ob_put_ok by (simpl; rewrite length_app; unfold ob_len; lia). cbn [mbind option_bind ob_text ob_cap].
        eapply (Hnext r r _ (a ++ [UNESCAPE_MAP d])); [simpl; by rewrite <-app_assoc| |lia|simpl; rewrite !length_app; unfold ob_len; simpl; lia|done].
        rewrite json_read_plain by done. simpl. by rewrite Hd, <-app_assoc.
      * rewrite ob_put_ok by (simpl; rewrite length_app; unfold ob_len; lia). cbn [mbind option_bind ob_text ob_cap].
        rewrite ob_put_ok by (simpl; rewrite !length_app; simpl; unfold ob_len; lia). cbn [mbind option_bind ob_text ob_cap].
        eapply (Hnext r r _ (a ++ [92; d])); [simpl; by rewrite <-!app_assoc| |lia|simpl; rewrite !length_app; unfold ob_len; simpl; lia|done].
        rewrite json_read_plain by done. simpl. by rewrite Hd, <-app_assoc.
Qed.

Lemma wstr_unescape_json_read s : wstr_unescape_json s = Some (json_read s).
Proof.
  unfold wstr_unescape_json. destruct (unescape_json_loop_ok (S (length s)) s (OutBuf [] 1)) as (b & -> & Eb & Hb); [lia|].
  cbn [mbind option_bind]. rewrite ob_end_ok by done. by rewrite Eb.
Qed.

(** A reserved character stands in an escaped text only after a backslash. *)
Fixpoint json_safe (s : cstr) : bool :=
  match s with
  | [] => true
  | c :: s' =>
      if c =? 92 then match s' with d :: s'' => json_escaped d && json_safe s'' | [] => false end
      else negb (json_reserved c) && json_safe s'
  end.

(** C35: Escaping for JSON: every string is escaped within the buffer, the result has
    no bare quote, backslash or control character of the reserved ones, and
    unescaping gives the string back. *)
Theorem wstr_escape_json_roundtrip string :
  ∃ e, wstr_escape_json string = Some e ∧ json_safe e = true ∧ wstr_unescape_json e = Some string.
Proof.
  exists (json_text string). rewrite wstr_escape_json_text, wstr_unescape_json_read, json_read_text. split; [done|]. split; [|done].
  induction string as [|c s IH]; [done|]. change (json_text (c :: s)) with (json_char c ++ json_text s). unfold json_char.
  destruct (json_reserved c) eqn:Hc; simpl.
  - rewrite IH, andb_true_r. destruct (json_reserved_cases c Hc) as [->%Z.eqb_eq|[-> _]]; done.
  - rewrite Hc, IH. simpl. assert (c ≠ 92) as H by (intros ->; done). by rewrite (proj2 (Z.eqb_neq _ _)) by done.
Qed.

(** * Command lines *)

Definition extend (acc : option cstr) (s : cstr) : option cstr := Some (default [] acc ++ s).
Definition emit (acc : option cstr) : list cstr := match acc with Some a => [a] | None => [] end.

(** The reading of a command line, character by character. *)
Fixpoint tokens (quoting : bool) (acc : option cstr) (s : cstr) : list cstr :=
  match s with
  | [] => emit acc
  | c :: s' =>
      if c =? 32 then
        if quoting then tokens true (extend acc [32]) s' else emit acc ++ tokens false None s'
      else if c =? 34 then tokens (negb quoting) (if quoting then extend acc [] else acc) s'
      else if c =? 92 then
        match s' with [] => emit acc | d :: s'' => tokens quoting (extend acc [d]) s'' end
      else tokens quoting (extend acc [c]) s'
  end.

Lemma w_strcat_ok a b n : (n ≤ length b)%nat → w_strcat a b n = Some (extend a (take n b)).
Proof.
  intros Hn. unfold w_strcat, w_strndup, extend. destruct a as [a|].
  - rewrite (proj2 (Nat.ltb_ge _ _)) by lia. rewrite ob_put_ok by (simpl; rewrite length_take; lia). cbn [mbind option_bind].
    by rewrite ob_end_ok by (simpl; rewrite length_app, length_take; lia).
  - rewrite Nat.min_r by lia. rewrite ob_put_ok by (simpl; rewrite length_take; lia). cbn [mbind option_bind].
    by rewrite ob_end_ok by (simpl; rewrite length_take; lia).
Qed.
Lemma extend_extend acc a b : extend (extend acc a) b = extend acc (a ++ b).
Proof. unfold extend. simpl. by rewrite app_assoc. Qed.

(** Ordinary characters are collected. *)
Lemma tokens_plain q acc a s :
  Forall (λ c, negb (tok_special c) = true) a → a ≠ [] → tokens q acc (a ++ s) = tokens q (extend acc a) s.
Proof.
  intros Ha. revert acc. induction Ha as [|c a Hc Ha IH]; intros acc Hne; [done|]. simpl.
  unfold tok_special in Hc. apply negb_true_iff, orb_false_iff in Hc as [[-> ->]%orb_false_iff ->].
  destruct a as [|d a]; [done|]. rewrite IH by done. by rewrite extend_extend.
Qed.

(** A part of a line is appended where there is one. *)
Lemma strcat_chunk acc a r : (if (0 <? length a)%nat then w_strcat acc (a ++ r) (length a) else Some acc) =
  Some (match a with [] => acc | _ => extend acc a end).
Proof. destruct a as [|c a]; [done|]. cbn [length Nat.ltb Nat.leb]. by rewrite w_strcat_ok, (take_app_length (c :: a)) by (rewrite length_app; simpl; lia). Qed.
Lemma tokens_chunk q acc a s :
  Forall (λ c, negb (tok_special c) = true) a → tokens q acc (a ++ s) = tokens q (match a with [] => acc | _ => extend acc a end) s.
Proof. intros Ha. destruct a; [done|]. by apply tokens_plain. Qed.

Lemma strtok_loop_tokens f q acc out s : (length s < f)%nat → strtok_loop f q acc out s = Some (out ++ tokens q acc s).
Proof.
  revert q acc out s. induction f as [|f IH]; intros q acc out s Hf; [lia|]. cbn [strtok_loop].
  destruct (span_cases (λ c, negb (tok_special c)) s) as (a & Ha & [[-> ->]|(c & r & -> & Hc & ->)]).
  - assert (tokens q acc a = _) as -> by (rewrite <-(app_nil_r a) at 1; by apply tokens_chunk). destruct a as [|d a].
    + cbn [mbind option_bind tokens]. destruct acc; [done|]. simpl. by rewrite app_nil_r.
    + rewrite w_strcat_ok, firstn_all by lia. done.
  - rewrite length_app in Hf. cbn [length] in Hf. apply negb_false_iff in Hc. unfold tok_special in Hc.
    pose proof (strcat_chunk acc a (c :: r)) as Hs. set (acc' := match a with [] => acc | _ => extend acc a end) in Hs.
    rewrite tokens_chunk by done. fold acc'. cbn [tokens]. destruct (c =? 32) eqn:E32; [|destruct (c =? 34) eqn:E34].
    + apply Z.eqb_eq in E32 as ->. destruct q.
      * rewrite w_strcat_ok by (rewrite length_app; simpl; lia). cbn [mbind option_bind]. rewrite IH by lia. do 3 f_equal.
        rewrite Nat.add_1_r. change (a ++ 32 :: r) with (a ++ [32] ++ r). rewrite app_assoc.
        rewrite take_app_length' by (rewrite length_app; simpl; lia). unfold acc'. destruct a; [done|]. by rewrite extend_extend.
      * rewrite Hs. cbn [mbind option_bind]. rewrite IH by lia. destruct acc'; simpl; [|done]. unfold w_strarray_append. by rewrite <-app_assoc.
    + destruct q; cbn [orb].
      * rewrite orb_true_r, w_strcat_ok by (rewrite length_app; simpl; lia). rewrite take_app_length. cbn [mbind option_bind]. rewrite IH by lia.
        do 3 f_equal. unfold acc'. destruct a; [done|]. by rewrite extend_extend, app_nil_r.
      * rewrite orb_false_r, Hs. cbn [mbind option_bind]. by rewrite IH by lia.
    + simpl in Hc. rewrite Hc. rewrite Hs. cbn [mbind option_bind]. destruct r as [|d r].
      * rewrite IH by (simpl; lia). done.
      * rewrite w_strcat_ok by (simpl; lia). cbn [mbind option_bind length] in *. rewrite IH by lia. done.
Qed.

(** The line that quotes a list of arguments. *)
Definition quote_char (c : Z) : cstr := if tok_special c then [92; c] else [c].
Definition quote (arg : cstr) : cstr := match arg with [] => [34; 34] | _ => concat (map quote_char arg) end.

Lemma tokens_quote_chars acc arg s : arg ≠ [] → tokens false acc (concat (map quote_char arg) ++ s) = tokens false (extend acc arg) s.
Proof.
  revert acc. induction arg as [|c arg IH]; intros acc Hne; [done|]. simpl. rewrite <-app_assoc.
  assert (∀ t, tokens false acc (quote_char c ++ t) = tokens false (extend acc [c]) t) as ->.
  { intros t. unfold quote_char. destruct (tok_special c) eqn:E; [done|]. simpl.
    unfold tok_special in E. apply orb_false_iff in E as [[-> ->]%orb_false_iff ->]. done. }
  destruct arg as [|d arg]; [done|]. rewrite IH by done. by rewrite extend_extend.
Qed.
Lemma tokens_quote arg s : tokens false None (quote arg ++ s) = tokens false (Some arg) s.
Proof. destruct arg as [|c arg]; [done|]. by apply (tokens_quote_chars None (c :: arg)). Qed.

(** Command lines: [w_strtok] reads a line as the rules of its characters say,
    a space separates, a pair of double quotes keeps spaces, a backslash keeps
    the next character; a line that quotes a list of arguments, empty ones and
    ones with spaces, quotes and backslashes included, is split into them. *)
Theorem w_strtok_roundtrip :
  (∀ string, w_strtok string = Some (tokens false None string)) ∧
  (∀ args, w_strtok (join_terms [32] (map quote args)) = Some args).
Proof.
  assert (∀ string, w_strtok string = Some (tokens false None string)) as H by (intros s; unfold w_strtok; by rewrite strtok_loop_tokens by lia).
  split; [exact H|]. intros args. rewrite H. f_equal. induction args as [|a args IH]; [done|].
  destruct args as [|b args].
  - change (join_terms [32] (map quote [a])) with (quote a). rewrite <-(app_nil_r (quote a)), tokens_quote. done.
  - change (join_terms [32] (map quote (a :: b :: args))) with (quote a ++ [32] ++ join_terms [32] (map quote (b :: args))).
    rewrite tokens_quote. simpl in *. by rewrite IH.
Qed.

(** * Escaping one character *)

Section escape.
Context (escape matched : Z).

Definition esc_char (c : Z) : cstr := if c =? escape then [escape; escape] else if c =? matched then [escape; matched] else [c].
Definition esc (s : cstr) : cstr := concat (map esc_char s).
Fixpoint unesc (s : cstr) : cstr :=
  match s with
  | [] => []
  | c :: s' =>
      if c =? escape then
        match s' with
        | [] => [c]
        | d :: s'' => if d =? escape then c :: unesc s'' else unesc s'
        end
      else c :: unesc s'
  end.

Lemma unesc_esc s : unesc (esc s) = s.
Proof.
  induction s as [|c s IH]; [done|]. change (esc (c :: s)) with (esc_char c ++ esc s). unfold esc_char.
  destruct (Z.eqb_spec c escape) as [->|Hc]; [simpl; by rewrite !Z.eqb_refl, IH|].
  destruct (Z.eqb_spec c matched) as [->|Hm]; simpl.
  - rewrite Z.eqb_refl. rewrite (proj2 (Z.eqb_neq _ _)) by done. by rewrite IH.
  - rewrite (proj2 (Z.eqb_neq _ _)) by done. by rewrite IH.
Qed.
Lemma esc_app a b : esc (a ++ b) = esc a ++ esc b.
Proof. unfold esc. by rewrite map_app, concat_app. Qed.
Lemma esc_length s : (length s ≤ length (esc s) ≤ 2 * length s)%nat.
Proof.
  induction s as [|c s IH]; [simpl; lia|]. change (esc (c :: s)) with (esc_char c ++ esc s). rewrite length_app, length_cons.
  assert (1 ≤ length (esc_char c) ≤ 2)%nat; [|lia]. unfold esc_char. destruct (c =? escape); [simpl; lia|]. destruct (c =? matched); simpl; lia.
Qed.
Lemma esc_plain a : Forall (λ c, negb (c =? escape) && negb (c =? matched) = true) a → esc a = a.
Proof.
  unfold esc. induction 1 as [|c a Hc _ IH]; [done|]. simpl. rewrite IH. unfold esc_char.
  apply andb_true_iff in Hc as [->%negb_true_iff ->%negb_true_iff]. done.
Qed.
Lemma esc_special c : negb (c =? escape) && negb (c =? matched) = false → esc_char c = [escape; if c =? escape then escape else matched].
Proof. unfold esc_char. destruct (c =? escape); [done|]. simpl. intros ->%negb_false_iff. done. Qed.

(** The last write: the rest of the string, or what fits of it. *)
Lemma escape_last f n s b a r :
  2 <= n < 9223372036854775808 → ob_cap b = n → ob_len b <= n - 2 →
  s = a ++ r → Forall (λ c, negb (c =? escape) && negb (c =? matched) = true) a →
  r = [] ∨ n - 2 <= ob_len b + Z.of_nat (length a) →
  let z := if Z.of_nat (length a) + ob_len b <=? n - 1 then Z.of_nat (length a) else wrap64 (n - ob_len b - 1) in
  ∃ b' k, ('(s, b) ← (b ← ob_put b (take (Z.to_nat z) s); Some (drop (Z.to_nat z) s, b));
      match s with [] => Some b | _ => if ob_len b <? n - 2 then escape_loop f n escape matched s b else Some b end) = Some b' ∧
    ob_cap b' = n ∧ ob_text b' = ob_text b ++ esc (take k s) ∧ ob_len b' <= n - 1 ∧
    (ob_len b + Z.of_nat (length (esc s)) <= n - 2 → take k s = s).
Proof.
  intros Hn Hcap Hj Es Ha Hr z. set (j := ob_len b) in *. assert (j = Z.of_nat (length (ob_text b))) as Ej by done.
  assert (∃ k, Z.to_nat z = k ∧ (k ≤ length a)%nat ∧ j + Z.of_nat k <= n - 1 ∧ (k = length a ∨ j + Z.of_nat k = n - 1)) as (k & -> & Hk & Hk1 & Hk2).
  { unfold z. destruct (Z.leb_spec (Z.of_nat (length a) + j) (n - 1)); [exists (length a); split_and!; auto; lia|].
    rewrite wrap64_id by (unfold size_t; lia). exists (Z.to_nat (n - j - 1)). lia. }
  assert (take k s = take k a) as Et by (rewrite Es; apply take_app_le; lia).
  rewrite Et. rewrite ob_put_ok by (rewrite length_take; lia). cbn [mbind option_bind].
  set (b1 := OutBuf _ _). assert (ob_len b1 = j + Z.of_nat k) as Hb1 by (unfold b1, ob_len; simpl; rewrite length_app, length_take; lia).
  assert (esc (take k s) = take k a) as Ee by (rewrite Et; apply esc_plain; by apply Forall_take).
  assert ((match drop k s with [] => Some b1 | _ => if ob_len b1 <? n - 2 then escape_loop f n escape matched (drop k s) b1 else Some b1 end) = Some b1) as ->.
  { destruct (drop k s) as [|d q] eqn:Ed; [done|]. rewrite (proj2 (Z.ltb_ge _ _)); [done|]. rewrite Hb1.
    destruct Hk2 as [->|Hk2]; [|lia]. destruct Hr as [->|Hr]; [|lia]. exfalso. rewrite Es, app_nil_r, drop_all in Ed. done. }
  exists b1, k. split; [done|]. split; [done|]. split; [by rewrite Ee|]. split; [lia|]. intros Hfit.
  pose proof (esc_length s). apply take_ge. rewrite Es, length_app in *. destruct Hk2 as [->|Hk2]; [|lia]. destruct Hr as [->|Hr]; simpl in *; lia.
Qed.

Lemma escape_loop_ok f n s b :
  2 <= n < 9223372036854775808 → (length s < f)%nat → ob_cap b = n → ob_len b <= n - 2 →
  ∃ b' k, escape_loop f n escape matched s b = Some b' ∧ ob_cap b' = n ∧ ob_text b' = ob_text b ++ esc (take k s) ∧ ob_len b' <= n - 1 ∧
    (ob_len b + Z.of_nat (length (esc s)) <= n - 2 → take k s = s).
Proof.
  intros Hn. revert s b. induction f as [|f IH]; intros s b Hf Hcap Hj; [lia|]. cbn [escape_loop].
  rewrite !(wrap64_id (n - 1)), !(wrap64_id (n - 2)) by (unfold size_t; lia).
  set (j := ob_len b) in *. assert (j = Z.of_nat (length (ob_text b))) as Ej by done.
  destruct (span_cases (λ c, negb (c =? escape) && negb (c =? matched)) s) as (a & Ha & [[-> ->]|(c & r & -> & Hc & ->)]).
  - apply (escape_last f n a b a []); auto. by rewrite app_nil_r.
  - destruct (Z.leb_spec (n - 2) (j + Z.of_nat (length a))) as [Hle|Hlt]; [apply (escape_last f n _ b a (c :: r)); auto|].
    rewrite ob_put_ok by lia. cbn [mbind option_bind]. rewrite ob_put_ok by (simpl; rewrite length_app; lia). cbn [mbind option_bind ob_text ob_cap].
    rewrite <-esc_special by done. set (b1 := OutBuf _ _).
    assert (length (esc_char c) = 2%nat) as Hlc by (by rewrite esc_special).
    assert (ob_text b1 = ob_text b ++ a ++ esc_char c) as Eb1 by (unfold b1; simpl; by rewrite <-app_assoc).
    assert (ob_len b1 = j + Z.of_nat (length a) + 2) as Hb1 by (unfold ob_len; rewrite Eb1, !length_app; lia).
    assert (∀ k, esc (take (length a + S k) (a ++ c :: r)) = a ++ esc_char c ++ esc (take k r)) as Eesc.
    { intros k. rewrite take_app_add, esc_app, esc_plain by done. done. }
    assert (length (esc (a ++ c :: r)) = length a + 2 + length (esc r))%nat as Hlen.
    { rewrite esc_app, esc_plain by done. change (esc (c :: r)) with (esc_char c ++ esc r). rewrite !length_app. lia. }
    assert (∀ k, ob_text b ++ a ++ esc_char c ++ esc (take k r) = ob_text b1 ++ esc (take k r)) as Ebk by (intros k; rewrite Eb1, <-!app_assoc; done).
    assert (∃ b' k, (match r with [] => Some b1 | _ => if ob_len b1 <? n - 2 then escape_loop f n escape matched r b1 else Some b1 end) = Some b' ∧
      ob_cap b' = n ∧ ob_text b' = ob_text b1 ++ esc (take k r) ∧ ob_len b' <= n - 1 ∧ (ob_len b1 + Z.of_nat (length (esc r)) <= n - 2 → take k r = r)) as (b' & k & E & Hc' & Ht & Hl & Hfull).
    { destruct r as [|d r]; [exists b1, 0%nat; split_and!; [done|done|by rewrite app_nil_r|lia|done]|].
      destruct (Z.ltb_spec (ob_len b1) (n - 2)).
      - rewrite length_app in Hf. simpl in Hf. apply IH; [simpl; lia|done|lia].
      - exists b1, 0%nat. split_and!; [done|done|by rewrite app_nil_r|lia|]. pose proof (esc_length (d :: r)). simpl in *. lia. }
    exists b', (length a + S k)%nat. split; [exact E|]. split; [done|]. split; [by rewrite Eesc, Ebk|]. split; [done|].
    intros Hfit. rewrite take_app_add. cbn [take firstn]. rewrite Hfull; [done|]. rewrite Hlen in Hfit. lia.
Qed.

Lemma unesc_plain a s : Forall (λ c, negb (c =? escape) = true) a → unesc (a ++ s) = a ++ unesc s.
Proof. induction 1 as [|c a Hc _ IH]; [done|]. simpl. apply negb_true_iff in Hc. by rewrite Hc, IH. Qed.

Lemma ob_len_push b c n : ob_len (OutBuf (ob_text b ++ [c]) n) = ob_len b + 1.
Proof. unfold ob_len. simpl. rewrite length_app. simpl. lia. Qed.
(** One more character, and what room is left. *)
Lemma room_push b n c u :
  ob_len b < n - 1 →
  ob_text b ++ take (Z.to_nat (n - 1 - ob_len b)) (c :: u) =
  ob_text (OutBuf (ob_text b ++ [c]) n) ++ take (Z.to_nat (n - 1 - ob_len (OutBuf (ob_text b ++ [c]) n))) u.
Proof.
  intros Hlt. rewrite (ob_len_push b). cbn [ob_text]. rewrite <-app_assoc. f_equal.
  by replace (Z.to_nat (n - 1 - ob_len b)) with (S (Z.to_nat (n - 1 - (ob_len b + 1)))) by lia.
Qed.

(** What is left after the characters before an escape, and what they give. *)
Lemma unescape_rest f n s b t :
  1 <= n < 9223372036854775808 → ob_cap b = n → ob_len b <= n - 1 →
  (ob_len b < n - 1 → s ≠ [] → ∃ b', unescape_loop f n escape s b = Some b' ∧ ob_cap b' = n ∧
     ob_text b' = ob_text b ++ take (Z.to_nat (n - 1 - ob_len b)) (unesc s)) →
  t = ob_text b ++ take (Z.to_nat (n - 1 - ob_len b)) (unesc s) →
  ∃ b', (match s with [] => Some b | _ => if ob_len b <? n - 1 then unescape_loop f n escape s b else Some b end) = Some b' ∧
    ob_cap b' = n ∧ ob_text b' = t.
Proof.
  intros Hn Hcap Hj Hloop ->. destruct s as [|d s]; [exists b; by rewrite firstn_nil, app_nil_r|].
  destruct (Z.ltb_spec (ob_len b) (n - 1)); [by apply Hloop|].
  exists b. replace (n - 1 - ob_len b) with 0 by lia. by rewrite app_nil_r.
Qed.

Lemma unescape_loop_ok f n s b :
  1 <= n < 9223372036854775808 → (length s < f)%nat → ob_cap b = n → ob_len b <= n - 1 →
  ∃ b', unescape_loop f n escape s b = Some b' ∧ ob_cap b' = n ∧ ob_text b' = ob_text b ++ take (Z.to_nat (n - 1 - ob_len b)) (unesc s).
Proof.
  intros Hn. revert s b. induction f as [|f IH]; intros s b Hf Hcap Hj; [lia|]. cbn [unescape_loop].
  rewrite !(wrap64_id (n - 1)) by (unfold size_t; lia). set (j := ob_len b) in *. assert (j = Z.of_nat (length (ob_text b))) as Ej by done.
  assert (∃ a r, s = a ++ r ∧ Forall (λ c, negb (c =? escape) = true) a ∧ (span (λ c, negb (c =? escape)) s).1 = a ∧
    (r = [] ∨ ∃ r', r = escape :: r')) as (a & r & Es & Ha & Hsp & Hr).
  { destruct (span_cases (λ c, negb (c =? escape)) s) as (a & Ha & [[-> ->]|(c & r & -> & Hc & ->)]).
    - exists a, []. rewrite app_nil_r. auto.
    - apply negb_false_iff, Z.eqb_eq in Hc as ->. exists a, (escape :: r). eauto 6. }
  destruct (span _ s) as [a' r0]. simpl in Hsp. subst a'. clear r0.
  destruct (Z.leb_spec (Z.of_nat (length a) + j) (n - 1)) as [Hfit|Hfull].
  2: { rewrite wrap64_id by (unfold size_t; lia). set (k := Z.to_nat (n - j - 1)).
    assert (take k s = take k a) as Et by (rewrite Es; apply take_app_le; unfold k; lia).
    rewrite Et, ob_put_ok by (rewrite length_take; unfold k; lia). cbn [mbind option_bind]. set (b1 := OutBuf _ _).
    assert (ob_len b1 = n - 1) as Hb1 by (unfold b1, ob_len; simpl; rewrite length_app, length_take; unfold k; lia).
    rewrite Hb1, Z.ltb_irrefl. destruct (drop k s) as [|d q] eqn:Ed.
    { exfalso. apply (f_equal length) in Ed. rewrite length_drop, Es, length_app in Ed. simpl in Ed. unfold k in Ed. lia. }
    cbn [mbind option_bind]. rewrite Hb1, Z.ltb_irrefl. exists b1. split; [done|]. split; [done|]. unfold b1. simpl. f_equal.
    replace (Z.to_nat (n - 1 - j)) with k by (unfold k; lia). rewrite Es, unesc_plain by done. symmetry. apply take_app_le. unfold k. lia. }
  rewrite Nat2Z.id, Es, take_app_length, drop_app_length. rewrite ob_put_ok by lia. cbn [mbind option_bind]. set (b1 := OutBuf _ _).
  assert (ob_len b1 = j + Z.of_nat (length a)) as Hb1 by (unfold b1, ob_len; simpl; rewrite length_app; lia).
  assert (∀ u, ob_text b ++ take (Z.to_nat (n - 1 - j)) (a ++ u) = ob_text b1 ++ take (Z.to_nat (n - 1 - ob_len b1)) u) as Etake.
  { intros u. rewrite take_app, (take_ge a) by lia. unfold b1 at 1. simpl. rewrite <-app_assoc. do 2 f_equal. f_equal. rewrite Hb1. lia. }
  rewrite unesc_plain, Etake by done. rewrite Es, length_app in Hf. rewrite <-Hb1 in Hfit || (assert (ob_len b1 <= n - 1) as Hfit1 by lia).
  destruct Hr as [->|[r' ->]].
  { cbn [mbind option_bind]. exists b1. split; [done|]. split; [done|]. by rewrite firstn_nil, app_nil_r. }
  simpl in Hf. destruct (Z.ltb_spec (ob_len b1) (n - 1)) as [Hlt|Hge].
  2: { cbn [mbind option_bind]. rewrite (proj2 (Z.ltb_ge _ _)) by lia. exists b1. split; [done|]. split; [done|].
    replace (n - 1 - ob_len b1) with 0 by lia. by rewrite app_nil_r. }
  assert (∀ c, ob_put b1 [c] = Some (OutBuf (ob_text b1 ++ [c]) n)) as Hput.
  { intros c. rewrite ob_put_ok; [by rewrite <-Hcap|]. unfold ob_len in *. simpl in *. lia. }
  cbn [unesc]. rewrite Z.eqb_refl. destruct r' as [|d r'].
  - rewrite Hput. cbn [mbind option_bind]. eexists. split; [done|]. split; [done|]. rewrite (room_push b1 n) by done. by rewrite firstn_nil, app_nil_r.
  - destruct (Z.eqb_spec d escape) as [->|Hd].
    + rewrite Hput. cbn [mbind option_bind]. apply unescape_rest; [done|done| | |by apply room_push].
      * rewrite (ob_len_push b1). lia.
      * intros Hl _. apply IH; [simpl in Hf; lia|done|lia].
    + cbn [mbind option_bind]. apply (unescape_rest f n (d :: r') b1); [done|done|lia| |done]. intros Hl _. apply IH; [simpl in *; lia|done|lia].
Qed.
End escape.

(** Escaping one character: [wstr_escape] into a buffer of at least two bytes
    stays within it and writes the escape of a prefix of the string, never half
    of an escape; in a buffer of twice the length and two it escapes the whole
    string, and [wstr_unescape] gives the string back, or what fits of it. *)
Theorem wstr_escape_roundtrip dst_size size2 str escape matched :
  2 <= dst_size < 9223372036854775808 → 1 <= size2 < 9223372036854775808 →
  ∃ k t, wstr_escape dst_size (Some str) escape matched = Some (Z.of_nat (length t), t) ∧
    t = esc escape matched (take k str) ∧ Z.of_nat (length t) < dst_size ∧
    (2 * Z.of_nat (length str) + 2 <= dst_size →
       let u := take (Z.to_nat (size2 - 1)) str in
       wstr_unescape size2 (Some t) escape = Some (Z.of_nat (length u), u)).
Proof.
  intros Hn Hm. unfold wstr_escape.
  destruct (escape_loop_ok escape matched (S (length str)) dst_size str (OutBuf [] dst_size) Hn ltac:(lia) eq_refl ltac:(unfold ob_len; simpl; lia))
    as (b & k & -> & Hc & Ht & Hl & Hfull). simpl in Ht. cbn [mbind option_bind]. unfold ob_len in Hl, Hfull. rewrite ob_end_ok by lia.
  cbn [mbind option_bind]. exists k, (ob_text b). split; [done|]. split; [done|]. split; [lia|]. intros Hfit. set (u := take _ str).
  assert (ob_text b = esc escape matched str) as Eb.
  { rewrite Ht, Hfull; [done|]. pose proof (esc_length escape matched str). simpl. lia. }
  unfold wstr_unescape. rewrite Eb.
  destruct (unescape_loop_ok escape (S (length (esc escape matched str))) size2 (esc escape matched str) (OutBuf [] size2) Hm ltac:(lia) eq_refl
    ltac:(unfold ob_len; simpl; lia)) as (b' & -> & Hc' & Ht'). cbn [mbind option_bind]. simpl in Ht'. rewrite unesc_esc in Ht'.
  replace (size2 - 1 - ob_len (OutBuf [] size2)) with (size2 - 1) in Ht' by (unfold ob_len; simpl; lia). fold u in Ht'.
  rewrite ob_end_ok, Ht'; [unfold ob_len; by rewrite Ht'|]. rewrite Ht', Hc'. unfold u. rewrite length_take. lia.
Qed.

(** A colon with a backslash, in ["a:b\c"]. *)
Lemma wstr_escape_roundtrip_witness :
  ∃ k t, wstr_escape 12 (Some [97; 58; 98; 92; 99]) 92 58 = Some (Z.of_nat (length t), t) ∧
    t = esc 92 58 (take k [97; 58; 98; 92; 99]) ∧ Z.of_nat (length t) < 12 ∧
    (2 * 5 + 2 <= 12 → wstr_unescape 4 (Some t) 92 = Some (3, [97; 58; 98])).
Proof. apply (wstr_escape_roundtrip 12 4 [97; 58; 98; 92; 99] 92 58); lia. Defined.

(** A buffer of one byte is overrun: the room for two characters is computed
    from [dst_size - 2], which wraps around. *)
Lemma wstr_escape_small : wstr_escape 1 (Some [58]) 92 58 = None.
Proof. vm_compute. reflexivity. Qed.

(** * Shell escapes *)

(** What [os_shell_escape] writes. *)
Fixpoint shell_text (s : cstr) : cstr :=
  match s with
  | [] => []
  | c :: rest =>
      if escapes c then
        match rest with
        | d :: rest' => if (c =? 92) && escapes d then c :: d :: shell_text rest' else 92 :: c :: shell_text rest
        | [] => [92; c]
        end
      else c :: shell_text rest
  end.

Lemma shell_ind (P : cstr → Prop) :
  P [] → (∀ c s, escapes c = false → P s → P (c :: s)) →
  (∀ d s, escapes d = true → P s → P (92 :: d :: s)) →
  (∀ c s, escapes c = true → already c s = None → P s → P (c :: s)) → ∀ s, P s.
Proof.
  intros H0 H1 H2 H3 s. remember (length s) as n eqn:Hn. assert (length s ≤ n)%nat as Hle by lia. clear Hn.
  revert s Hle. induction n as [|n IH]; intros [|c s] Hle; try done; simpl in Hle; [lia|].
  destruct (escapes c) eqn:Hc; [|apply H1; [done|apply IH; lia]].
  destruct (already c s) as [[d r]|] eqn:Ha; [|apply H3; [done|done|apply IH; lia]].
  destruct s as [|d' s]; [done|]. simpl in Ha. destruct ((c =? 92) && escapes d') eqn:Hd; [|done]. injection Ha as -> ->.
  apply andb_true_iff in Hd as [->%Z.eqb_eq Hd]. apply H2; [done|]. apply IH. simpl in Hle. lia.
Qed.

Lemma shell_text_single c s : escapes c = true → already c s = None → shell_text (c :: s) = 92 :: c :: shell_text s.
Proof. intros Hc Ha. simpl. rewrite Hc. destruct s as [|d s]; [done|]. simpl in Ha. by destruct (_ && _). Qed.
Lemma escapes_92 : escapes 92 = true.
Proof. done. Qed.

Lemma shell_count s f n : (length s ≤ f)%nat → escape_count f s n = Some (n + Z.of_nat (length (shell_text s))).
Proof.
  revert f n. induction s as [|c s Hc IH|d s Hd IH|c s Hc Ha IH] using shell_ind; intros f n Hf.
  - destruct f; simpl; f_equal; lia.
  - destruct f as [|f]; simpl in Hf; [lia|]. cbn [escape_count shell_text]. rewrite Hc, IH by lia. f_equal. simpl. lia.
  - destruct f as [|f]; simpl in Hf; [lia|]. cbn [escape_count shell_text already]. rewrite escapes_92, Hd. change (92 =? 92) with true. cbn [andb]. rewrite IH by lia. f_equal. simpl. lia.
  - destruct f as [|f]; simpl in Hf; [lia|]. rewrite shell_text_single by done. cbn [escape_count]. rewrite Hc, Ha, IH by lia. f_equal. simpl. lia.
Qed.
Lemma shell_loop_ok s f b :
  (length s ≤ f)%nat → Z.of_nat (length (ob_text b)) + Z.of_nat (length (shell_text s)) <= ob_cap b →
  shell_loop f s b = Some (OutBuf (ob_text b ++ shell_text s) (ob_cap b)).
Proof.
  revert f b. induction s as [|c s Hc IH|d s Hd IH|c s Hc Ha IH] using shell_ind; intros f b Hf Hb.
  - destruct f; simpl; rewrite app_nil_r; by destruct b.
  - destruct f as [|f]; simpl in Hf; [lia|]. cbn [shell_loop shell_text] in *. rewrite Hc in *. simpl in Hb. rewrite ob_put_ok by (simpl; lia). cbn [mbind option_bind].
    rewrite IH by (simpl; rewrite ?length_app; simpl; lia). simpl. by rewrite <-app_assoc.
  - destruct f as [|f]; simpl in Hf; [lia|]. cbn [shell_loop shell_text already] in *. rewrite escapes_92, Hd in *. change (92 =? 92) with true in *. cbn [andb] in *. simpl in Hb.
    rewrite ob_put_ok by (simpl; lia). cbn [mbind option_bind]. rewrite ob_put_ok by (simpl; rewrite length_app; simpl; lia). cbn [mbind option_bind].
    rewrite IH by (simpl; rewrite ?length_app; simpl; lia). simpl. by rewrite <-!app_assoc.
  - destruct f as [|f]; simpl in Hf; [lia|]. rewrite shell_text_single in * by done. cbn [shell_loop]. rewrite Hc, Ha. simpl in Hb.
    rewrite ob_put_ok by (simpl; lia). cbn [mbind option_bind]. rewrite ob_put_ok by (simpl; rewrite length_app; simpl; lia). cbn [mbind option_bind].
    rewrite IH by (simpl; rewrite ?length_app; simpl; lia). simpl. by rewrite <-!app_assoc.
Qed.

Lemma shell_text_stable s : shell_text (shell_text s) = shell_text s.
Proof.
  induction s as [|c s Hc IH|d s Hd IH|c s Hc Ha IH] using shell_ind; [done| | |].
  - simpl. rewrite Hc. simpl. by rewrite Hc, IH.
  - assert (∀ u, shell_text (92 :: d :: u) = 92 :: d :: shell_text u) as E by (intros u; simpl; by rewrite Hd).
    by rewrite !E, IH.
  - rewrite shell_text_single by done.
    assert (∀ u, shell_text (92 :: c :: u) = 92 :: c :: shell_text u) as E by (intros u; simpl; by rewrite Hc).
    by rewrite E, IH.
Qed.

(** Shell escapes: [os_shell_escape] counts the bytes it writes, so that they
    fit, and escaping what is escaped changes nothing. *)
Theorem os_shell_escape_stable src :
  ∃ e, os_shell_escape (Some src) = Some (Some e) ∧ os_shell_escape (Some e) = Some (Some e).
Proof.
  assert (∀ s, os_shell_escape (Some s) = Some (Some (shell_text s))) as H.
  { intros s. unfold os_shell_escape. rewrite shell_count by lia. cbn [mbind option_bind].
    rewrite shell_loop_ok by (simpl; lia). cbn [mbind option_bind]. rewrite ob_end_ok by (simpl; lia). done. }
  exists (shell_text src). rewrite !H, shell_text_stable. done.
Qed.

(** * Replacing *)

Lemma strncmp_zero a b n : strncmp a b n = 0 ↔ take n a = take n b.
Proof. unfold strncmp. apply strcmp_eq. Qed.
Lemma starts_spec s t : (strncmp s t (length t) =? 0) = true ↔ ∃ u, s = t ++ u.
Proof.
  rewrite Z.eqb_eq, strncmp_zero, firstn_all. split.
  - intros H. exists (drop (length t) s). by rewrite <-H at 1; rewrite take_drop.
  - intros [u ->]. apply take_app_length.
Qed.
Lemma strstr_some s t a b : strstr s t = Some (a, b) → s = a ++ t ++ b.
Proof.
  revert a b. induction s as [|c s IH]; intros a b; cbn [strstr]; destruct (strncmp _ t (length t) =? 0) eqn:E; try done.
  - apply starts_spec in E as [u Hu]. destruct t; [|done]. by intros [= <- <-].
  - apply starts_spec in E as [u Hu]. intros [= <- <-]. by rewrite Hu, drop_app_length.
  - destruct (strstr s t) as [[a' b']|]; [|done]. intros [= <- <-]. simpl. f_equal. by apply IH.
Qed.
(** An occurrence is found again when more follows. *)
Lemma strstr_extend s t u a b : strstr s t = Some (a, b) → strstr (s ++ u) t = Some (a, b ++ u).
Proof.
  revert a b. induction s as [|c s IH]; intros a b H; cbn [strstr] in H; destruct (strncmp _ t (length t) =? 0) eqn:E; try done.
  - apply starts_spec in E as [v Hv]. destruct t; [|done]. injection H as <- <-. by destruct u.
  - pose proof E as [v Hv]%starts_spec. rewrite Hv, drop_app_length in H. injection H as <- <-. rewrite Hv, <-app_assoc.
    destruct t as [|d t]; [by destruct (v ++ u)|]. cbn [strstr app].
    assert ((strncmp (d :: t ++ v ++ u) (d :: t) (length (d :: t)) =? 0) = true) as -> by (apply starts_spec; by eexists).
    f_equal. f_equal. by apply (drop_app_length (d :: t)).
  - destruct (strstr s t) as [[a' b']|] eqn:E'; [|done]. injection H as <- <-. cbn [app strstr].
    destruct (strncmp (c :: s ++ u) t (length t) =? 0) eqn:E2; [|by rewrite (IH _ _ eq_refl)].
    exfalso. apply strstr_some in E'. apply starts_spec in E2 as [v Hv].
    assert (length t ≤ length (c :: s))%nat as Hl by (simpl; rewrite E', !length_app; lia).
    apply not_true_iff_false in E. apply E, starts_spec. exists (drop (length t) (c :: s)).
    assert (take (length t) (c :: s) = t) as Ht.
    { rewrite <-(take_app_le (c :: s) u) by lia. change ((c :: s) ++ u) with (c :: s ++ u). rewrite Hv. apply take_app_length. }
    by rewrite <-Ht at 1; rewrite take_drop.
Qed.
(** What precedes the first occurrence has none. *)
Lemma strstr_first s t a b : t ≠ [] → strstr s t = Some (a, b) → strstr a t = None.
Proof.
  intros Ht H. destruct (strstr a t) as [[a' b']|] eqn:E; [exfalso|done].
  pose proof (strstr_some _ _ _ _ H) as Hs. pose proof (strstr_some _ _ _ _ E) as Ha.
  pose proof (strstr_extend _ _ (t ++ b) _ _ E) as H2. rewrite <-Hs, H in H2. injection H2 as Ea _.
  apply (f_equal length) in Ha. rewrite !length_app, Ea in Ha. destruct t; [done|]. simpl in Ha. lia.
Qed.

Lemma join_cons d p ps : ps ≠ [] → join_terms d (p :: ps) = p ++ d ++ join_terms d ps.
Proof. by destruct ps. Qed.

Lemma replace_loop_ok f s search repl b :
  search ≠ [] → (length s < f)%nat →
  ∃ ps, ps ≠ [] ∧ s = join_terms search ps ∧ Forall (λ p, strstr p search = None) ps ∧
    replace_loop f s search repl b = Some (ob_text b ++ join_terms repl ps).
Proof.
  intros Hne. revert s b. induction f as [|f IH]; intros s b Hf; [lia|]. cbn [replace_loop].
  destruct (strstr s search) as [[a r]|] eqn:E.
  - pose proof (strstr_some _ _ _ _ E) as Hs. pose proof (strstr_first _ _ _ _ Hne E) as Ha.
    rewrite ob_put_grow by (unfold ob_len; lia). cbn [mbind option_bind]. rewrite ob_put_ok by (simpl; rewrite length_app; unfold ob_len; lia). cbn [mbind option_bind ob_text].
    assert (length r < f)%nat as Hr. { rewrite Hs, !length_app in Hf. destruct search; [done|]. simpl in Hf. lia. }
    edestruct (IH r) as (ps & Hps & -> & HF & Hrun); [exact Hr|].
    exists (a :: ps). rewrite !join_cons by done. split; [done|]. split; [done|]. split; [by constructor|]. rewrite Hrun. simpl. by rewrite <-!app_assoc.
  - exists [s]. split; [done|]. split; [done|]. split; [by constructor|].
    rewrite ob_put_grow by (unfold ob_len; lia). cbn [mbind option_bind]. rewrite ob_end_ok by (simpl; rewrite length_app; unfold ob_len; lia). done.
Qed.

(** Replacing: for a search string that is not empty [wstr_replace] ends and
    replaces every occurrence, from left to right, the parts in between have
    none and are kept; for an empty one it never ends. *)
Theorem wstr_replace_all string search replace fuel :
  (length string < fuel)%nat →
  (search ≠ [] → ∃ ps, string = join_terms search ps ∧ Forall (λ p, strstr p search = None) ps ∧
     wstr_replace fuel (Some string) (Some search) (Some replace) = Some (Some (join_terms replace ps))) ∧
  (∀ n, wstr_replace n (Some string) (Some []) (Some replace) = None).
Proof.
  intros Hf. split.
  - intros Hne. destruct (replace_loop_ok fuel string search replace (OutBuf [] 1) Hne Hf) as (ps & _ & Es & HF & Hrun).
    exists ps. split; [done|]. split; [done|]. unfold wstr_replace. by rewrite Hrun.
  - intros n. unfold wstr_replace. assert (∀ b, replace_loop n string [] replace b = None) as H; [|by rewrite H].
    induction n as [|n IH]; intros b; [done|]. cbn [replace_loop].
    assert (strstr string [] = Some ([], string)) as -> by (by destruct string).
    destruct (ob_put _ _) as [b1|]; [|done]. simpl. destruct (ob_put b1 _) as [b2|]; [|done]. simpl. apply IH.
Qed.

(** ["a--b-"] with every ["-"] made ["+."] *)
Lemma wstr_replace_all_witness :
  (([45] : cstr) ≠ [] → ∃ ps, [97; 45; 45; 98; 45] = join_terms [45] ps ∧ Forall (λ p, strstr p [45] = None) ps ∧
     wstr_replace 6 (Some [97; 45; 45; 98; 45]) (Some [45]) (Some [43; 46]) = Some (Some (join_terms [43; 46] ps))) ∧
  (∀ n, wstr_replace n (Some [97; 45; 45; 98; 45]) (Some []) (Some [43; 46]) = None).
Proof. apply (wstr_replace_all [97; 45; 45; 98; 45] [45] [43; 46] 6). simpl. lia. Defined.

(** * Durations *)

Definition time_unit (seconds : Z) : Z :=
  if 604800 <=? seconds then 604800 else if 86400 <=? seconds then 86400 else if 3600 <=? seconds then 3600
  else if 60 <=? seconds then 60 else 1.

Lemma time_value s : 0 <= s → w_seconds_to_time_value s = s / time_unit s.
Proof.
  intros Hs. unfold w_seconds_to_time_value, time_unit. rewrite (proj2 (Z.ltb_ge _ _)) by lia.
  repeat case_match; [done..|]. by rewrite Z.div_1_r.
Qed.

(** [strtol] of digits and a character. *)
Lemma strtol_digits n c t : 0 <= n <= LONG_MAX → isdigit c = false → strtol (digits 19 n ++ c :: t) = (n, c :: t, false).
Proof.
  unfold LONG_MAX. intros Hn Hc. unfold strtol. rewrite scan_number_digits; [|apply digits_nonempty|apply digits_isdigit; lia|done].
  rewrite undigits_digits by (change (10 ^ Z.of_nat 19) with 10000000000000000000; lia). unfold LONG_MAX.
  by rewrite !(proj2 (Z.ltb_ge _ _)) by lia.
Qed.

(** Durations: the value and the short unit that the program prints for a number
    of seconds are read back as that number, rounded down to the unit, whatever
    [errno] was before. *)
Theorem w_parse_time_roundtrip errno seconds :
  0 <= seconds < LONG_MAX →
  w_parse_time errno (digits 19 (w_seconds_to_time_value seconds) ++ w_seconds_to_time_unit seconds false) =
  Some (seconds - seconds mod time_unit seconds).
Proof.
  intros Hs. rewrite time_value by lia.
  assert (seconds - seconds mod time_unit seconds = seconds / time_unit seconds * time_unit seconds) as ->.
  { pose proof (Z.div_mod seconds (time_unit seconds)) as H. assert (time_unit seconds ≠ 0) by (unfold time_unit; by repeat case_match). lia. }
  assert (1 <= time_unit seconds) as Hu by (unfold time_unit; by repeat case_match).
  assert (0 <= seconds / time_unit seconds <= seconds) as Hv by (split; [apply Z.div_pos; lia|apply Z.div_le_upper_bound; nia]).
  assert (seconds / time_unit seconds * time_unit seconds <= seconds) as Hle by (rewrite Z.mul_comm; apply Z.mul_div_le; lia).
  set (v := seconds / time_unit seconds) in *.
  assert (∀ c, isdigit c = false → w_parse_time errno (digits 19 v ++ [c]) =
    if c =? 119 then mul_long v 604800 else if c =? 100 then mul_long v 86400 else if c =? 104 then mul_long v 3600
    else if c =? 109 then mul_long v 60 else if c =? 115 then Some v else Some (-1)) as Hp.
  { intros c Hc. unfold w_parse_time. rewrite strtol_digits by (done || lia).
    rewrite (proj2 (Z.ltb_ge _ _)), (proj2 (Z.eqb_neq v LONG_MAX)) by lia. done. }
  clearbody v. unfold w_seconds_to_time_unit, time_unit in *. rewrite (proj2 (Z.ltb_ge seconds 0)) by lia.
  repeat case_match; rewrite Hp by done; try (cbn; by rewrite Z.mul_1_r);
    (change (mul_long v ?u) with (mul_long v u); unfold mul_long; cbn -[Z.mul LONG_MAX]; rewrite (proj2 (Z.leb_le _ _)) by lia; done).
Qed.

(** 90061 seconds are printed as a day. *)
Lemma w_parse_time_roundtrip_witness :
  w_parse_time true (digits 19 (w_seconds_to_time_value 90061) ++ w_seconds_to_time_unit 90061 false) = Some (90061 - 90061 mod time_unit 90061).
Proof. apply (w_parse_time_roundtrip true 90061). unfold LONG_MAX. lia. Defined.

(** A large number of weeks is a product that does not fit a [long]. *)
Lemma w_parse_time_overflow : w_parse_time false (digits 19 15250284452472 ++ [119]) = None.
Proof. vm_compute. reflexivity. Qed.
(** Any text is accepted after the unit. *)
Lemma w_parse_time_trailing : w_parse_time false [49; 109; 111; 110; 116; 104] = Some 60.
Proof. vm_compute. reflexivity. Qed.

(** * Trimming *)

Lemma last_cases {A} (l : list A) : l = [] ∨ ∃ l' x, l = l' ++ [x].
Proof. destruct l as [|x l _] using rev_ind; [by left|]. right. by exists l, x. Qed.

(** [os_trimcrlf] takes off all the line ends at the end, and nothing else. *)
Lemma os_trimcrlf_spec str :
  ∃ u, str = os_trimcrlf str ++ u ∧ Forall (λ c, iscrlf c = true) u ∧ (∀ c, last (os_trimcrlf str) = Some c → iscrlf c = false).
Proof.
  assert (∀ n s, length s = S n → ∃ u, s = trim_loop n s ++ u ∧ Forall (λ c, iscrlf c = true) u ∧
    (∀ c, last (trim_loop n s) = Some c → iscrlf c = false)) as H.
  { induction n as [|n IH]; intros s Hs; destruct (last_cases s) as [->|(s' & c & ->)]; try done;
      rewrite length_app in Hs; simpl in Hs; assert (length s' = _) as Hs' by (rewrite Nat.add_comm in Hs; by injection Hs as Hs);
      cbn [trim_loop]; rewrite lookup_app_r, Hs', Nat.sub_diag by lia; cbn [lookup list_lookup]; destruct (iscrlf c) eqn:Hc.
    - destruct s'; [|done]. exists [c]. split; [done|]. split; [by constructor|done].
    - exists []. rewrite app_nil_r. split; [done|]. split; [done|]. intros d. rewrite last_snoc. by intros [= <-].
    - rewrite take_app_length' by done. destruct (IH s' Hs') as (u & E & Hu & Hl). exists (u ++ [c]).
      split; [by rewrite E at 1; rewrite <-app_assoc|]. split; [apply Forall_app; split; [done|by constructor]|done].
    - exists []. rewrite app_nil_r. split; [done|]. split; [done|]. intros d. rewrite last_snoc. by intros [= <-]. }
  unfold os_trimcrlf. destruct str as [|c s]; [exists []; done|]. apply H. simpl. lia.
Qed.

(** [w_strtrim] takes the spaces off both ends. *)
Lemma w_strtrim_spec string :
  ∃ a r b, w_strtrim (Some string) = Some (Some r) ∧ string = a ++ r ++ b ∧ Forall (λ c, (c =? 32) = true) (a ++ b) ∧
    head r ≠ Some 32 ∧ last r ≠ Some 32.
Proof.
  assert (∀ f d c, (length c < f)%nat → last d ≠ Some 32 → ∃ r b, strtrim_loop f d c = Some (d ++ r) ∧ c = r ++ b ∧
    Forall (λ c, (c =? 32) = true) b ∧ last (d ++ r) ≠ Some 32 ∧ (d = [] → head c ≠ Some 32 → head r ≠ Some 32)) as H.
  { induction f as [|f IH]; intros d c Hf Hd; [lia|]. cbn [strtrim_loop].
    destruct (span_cases (λ x, x =? 32) c) as (sp & Hsp & [[-> ->]|(x & q & -> & Hx & ->)]).
    { exists [], sp. by rewrite app_nil_r. }
    pose proof (span_app (λ x, negb (x =? 32)) (x :: q)) as Ew. pose proof (span_fst (λ x, negb (x =? 32)) (x :: q)) as Fw.
    assert ((span (λ x, negb (x =? 32)) (x :: q)).1 ≠ []) as Hwne by (simpl; rewrite Hx; by destruct (span _ q)).
    destruct (span _ (x :: q)) as [w c']. simpl in Ew, Fw, Hwne.
    destruct (IH (d ++ sp ++ w) c') as (r & b & -> & -> & Hb & Hl & _).
    { rewrite length_app, <-Ew, length_app in Hf. destruct w; [done|]. simpl in Hf. lia. }
    { destruct (last_cases w) as [->|(w' & y & ->)]; [done|]. rewrite !app_assoc, last_snoc. apply Forall_app in Fw as [_ Fw].
      inversion Fw as [|? ? Hy _]; subst. apply negb_true_iff, Z.eqb_neq in Hy. congruence. }
    exists (sp ++ w ++ r), b. rewrite <-Ew. split; [by rewrite <-!app_assoc|]. split; [by rewrite <-!app_assoc|]. split; [done|].
    split; [by rewrite <-!app_assoc in Hl|]. intros -> Hh. destruct sp as [|y sp]; [destruct w; [done|]; exact Hh|exact Hh]. }
  unfold w_strtrim. destruct (span_cases (λ x, x =? 32) string) as (a & Ha & [[-> ->]|(x & q & -> & Hx & ->)]); cbn [snd].
  { exists a, [], []. cbn. rewrite app_nil_r. auto. }
  pose proof (span_app (λ x, negb (x =? 32)) (x :: q)) as Ew. pose proof (span_fst (λ x, negb (x =? 32)) (x :: q)) as Fw.
  assert ((span (λ x, negb (x =? 32)) (x :: q)).1 ≠ []) as Hwne by (simpl; rewrite Hx; by destruct (span _ q)).
  destruct (span _ (x :: q)) as [w c]. simpl in Ew, Fw, Hwne.
  destruct (H (S (length c)) w c ltac:(lia)) as (r & b & -> & -> & Hb & Hl & _).
  { destruct (last_cases w) as [->|(w' & y & ->)]; [done|]. rewrite last_snoc. apply Forall_app in Fw as [_ Fw].
    inversion Fw as [|? ? Hy _]; subst. apply negb_true_iff, Z.eqb_neq in Hy. congruence. }
  exists a, (w ++ r), b. split; [done|]. split; [by rewrite <-Ew, <-app_assoc|]. split; [by apply Forall_app|]. split; [|done].
  destruct w as [|y w]; [done|]. inversion Fw as [|? ? Hy _]; subst. apply negb_true_iff, Z.eqb_neq in Hy. simpl. congruence.
Qed.

(** [os_strip_char] takes out every occurrence; its count is what it writes. *)
Lemma os_strip_char_spec source remove : os_strip_char source remove = Some (filter (λ c, c ≠ remove) source).
Proof.
  unfold os_strip_char. assert (∀ b, Z.of_nat (length (ob_text b)) + Z.of_nat (length (filter (λ c, c ≠ remove) source)) <= ob_cap b →
    strip_loop source remove b = Some (OutBuf (ob_text b ++ filter (λ c, c ≠ remove) source) (ob_cap b))) as H.
  { induction source as [|c s IH]; intros b Hb; [simpl; rewrite app_nil_r; by destruct b|]. cbn [strip_loop]. rewrite filter_cons in *.
    destruct (Z.eqb_spec c remove) as [->|Hc].
    - rewrite decide_False in * by (intros []; done). cbn [mbind option_bind]. by apply IH.
    - rewrite decide_True in * by done. simpl in Hb. rewrite ob_put_ok by (simpl; lia). cbn [mbind option_bind].
      rewrite IH by (simpl; rewrite length_app; simpl; lia). simpl. by rewrite <-app_assoc. }
  rewrite H by (simpl; lia). cbn [mbind option_bind]. by rewrite ob_end_ok by (simpl; lia).
Qed.

Lemma w_tolower_str_spec string : w_tolower_str (Some string) = Some (Some (tolower <$> string)).
Proof.
  unfold w_tolower_str. assert (∀ b, Z.of_nat (length (ob_text b)) < ob_cap b → ∃ b', tolower_loop string b = Some b' ∧ ob_text b' = ob_text b ++ (tolower <$> string) ∧
    Z.of_nat (length (ob_text b')) < ob_cap b') as H.
  { induction string as [|c s IH]; intros b Hb; [exists b; by rewrite app_nil_r|]. cbn [tolower_loop].
    rewrite ob_put_grow by (unfold ob_len; simpl; lia). cbn [mbind option_bind].
    edestruct IH as (b' & -> & E & Hb'); [|exists b'; split; [done|]; split; [|done]; rewrite E; simpl; by rewrite <-app_assoc].
    simpl. rewrite length_app. unfold ob_len. simpl. lia. }
  destruct (H (OutBuf [] 1) ltac:(simpl; lia)) as (b & -> & E & Hb). cbn [mbind option_bind]. rewrite ob_end_ok by done. by rewrite E.
Qed.

(** * Lists of strings *)

Lemma w_strcat_list_spec l sep : w_strcat_list (Some l) sep = Some (match l with [] => None | _ => Some (join_terms [sep] l) end).
Proof.
  assert (∀ l acc, strcat_list_loop l sep false (Some acc) = Some (Some (acc ++ concat (map (λ s, sep :: s) l)))) as H.
  { intros l'. induction l' as [|s l' IH]; intros acc; [simpl; by rewrite app_nil_r|]. cbn [strcat_list_loop].
    rewrite w_strcat_ok by (simpl; lia). cbn [mbind option_bind]. rewrite w_strcat_ok, firstn_all by lia. cbn [mbind option_bind].
    unfold extend. cbn [default]. rewrite IH. simpl. by rewrite <-!app_assoc. }
  unfold w_strcat_list. destruct l as [|s l]; [done|]. cbn [strcat_list_loop mbind option_bind]. rewrite w_strcat_ok, firstn_all by lia.
  cbn [mbind option_bind]. unfold extend. cbn [default app]. rewrite H. do 2 f_equal. revert s.
  induction l as [|s' l IH]; intros s; [simpl; by rewrite app_nil_r|]. rewrite join_cons by done. simpl. f_equal. f_equal. apply IH.
Qed.

Lemma strtok_r_join d tok rest :
  tok ≠ [] → d ∉ tok → strtok_r (tok ++ rest) [d] = Some (tok ++ (span (λ c, negb (bool_decide (c ∈ [d]))) rest).1, drop 1 (span (λ c, negb (bool_decide (c ∈ [d]))) rest).2).
Proof.
  intros Hne Hd. assert (∀ c, c ∈ tok → bool_decide (c ∈ [d]) = false) as Hin.
  { intros c Hc. apply bool_decide_eq_false. rewrite list_elem_of_singleton. intros ->. done. }
  unfold strtok_r. destruct tok as [|c tok]; [done|]. cbn [app span]. rewrite (Hin c) by (by left). cbn [snd negb].
  change (c :: tok ++ rest) with ((c :: tok) ++ rest). cbn [app span]. rewrite (Hin c) by (by left). cbn [negb].
  rewrite span_all; [done|]. apply Forall_forall. intros x Hx. rewrite (Hin x); [done|by right].
Qed.

(** Lists of strings: [w_string_split] takes a list of non-empty strings that
    [w_strcat_list] joined with a separator none of them has apart again. *)
Theorem w_string_split_roundtrip l sep :
  l ≠ [] → Forall (λ s, s ≠ [] ∧ sep ∉ s) l →
  ∃ text, w_strcat_list (Some l) sep = Some (Some text) ∧ w_string_split (Some text) (Some [sep]) 0 = Some l.
Proof.
  intros Hne Hl. rewrite w_strcat_list_spec. exists (join_terms [sep] l). split; [by destruct l|]. unfold w_string_split.
  assert (∀ f ps, (length (join_terms [sep] l) < f)%nat → split_loop f (join_terms [sep] l) [sep] 0 ps = Some (ps ++ l)) as H; [|by rewrite H by lia].
  clear Hne. induction Hl as [|s l [Hs Hd] Hl IH]; intros f ps Hf; (destruct f as [|f]; [lia|]); cbn [split_loop]; [by rewrite app_nil_r|].
  destruct l as [|s' l].
  - change (join_terms [sep] [s]) with s in *. rewrite <-(app_nil_r s) at 1. rewrite strtok_r_join by done. simpl.
    destruct f as [|f]; [destruct s; simpl in Hf; [done|lia]|]. simpl. by rewrite app_nil_r.
  - rewrite join_cons in * by done. rewrite strtok_r_join by done. cbn [app span].
    rewrite (bool_decide_eq_true_2 (sep ∈ [sep])) by (by apply list_elem_of_singleton). cbn [negb fst snd drop]. rewrite app_nil_r.
    change (negb (0 =? 0)) with false. cbn [andb]. rewrite drop_0, IH, <-app_assoc; [done|].
    rewrite (length_app s), (length_app [sep]) in Hf. simpl in *. lia.
Qed.

Lemma w_string_split_roundtrip_witness :
  ∃ text, w_strcat_list (Some [[97; 98]; [99]]) 44 = Some (Some text) ∧ w_string_split (Some text) (Some [44]) 0 = Some [[97; 98]; [99]].
Proof.
  apply (w_string_split_roundtrip [[97; 98]; [99]] 44); [done|].
  repeat constructor; try done; rewrite !elem_of_cons, elem_of_nil; lia.
Defined.

(** The second of two equal groups is left out; empty groups are groups. *)
Example wstr_delete_repeated_groups_smoke : wstr_delete_repeated_groups [97; 44; 98; 44; 97; 44] = Some (Some [97; 44; 98; 44]).
Proof. vm_compute. reflexivity. Qed.
