(* ===== verification/KeyStore.v ===== *)
(** The store of the agents' keys (src/os_crypto/shared/keys.c): an array of
    entries with three red-black trees that find an entry by identifier, by
    address and by socket, and its file.

    The entries are in a heap; the trees are those of RBTree.v and hold pointers
    to them.  The validation of addresses (shared/validate_op.c) and the digest
    are parameters.  The file of the keys is its text, and writing it succeeds
    or fails as a whole; the timestamps file and the file pointers of the
    counters (SecMsg.v) are left out. *)

From S2P Require Import Prelude CLib RBTree.

Definition KEYSIZE : nat := 128.
Definition OS_BUFFER_SIZE : nat := 2048.

(** A function that may end the process ([merror_exit]). *)
Inductive run (A : Type) := Exited | Done (a : A).
Arguments Exited {A}.
Arguments Done {A} a.

Section keys.
(** [os_ip], but for its text; [OS_IsValidIP] gives the text and the address,
    [OS_IPFound] tells whether an address matches, [OS_CIDRtoStr] writes one,
    or fails. *)
Context {IP : Type}.
Variable OS_IsValidIP : cstr → option (cstr * IP).
Variable OS_IPFound : cstr → cstr * IP → bool.
Variable OS_CIDRtoStr : cstr * IP → option cstr.
Variable md5 : cstr → cstr.

(** The fields of [keyentry] that are used here; the sender's entry has neither
    identifier nor name nor address. *)
Record kentry := KEntry {
  k_id : option cstr;
  k_name : option cstr;
  k_ip : option (cstr * IP);
  k_raw_key : option cstr;
  k_encryption_key : option cstr;
  k_keyid : nat;
  k_rcvd : Z;
  k_sock : Z;
  k_peer_info : list Z;
  k_net_protocol : Z;
  k_time_added : Z
}.
Definition sender_entry : kentry := KEntry None None None None None 0 0 0 [] 0 0.

(** [key_mode_t] *)
Inductive key_mode_t := W_RAW_KEY | W_ENCRYPTION_KEY | W_DUAL_KEY.
Definition has_raw (m : key_mode_t) : bool := match m with W_ENCRYPTION_KEY => false | _ => true end.
Definition has_enc (m : key_mode_t) : bool := match m with W_RAW_KEY => false | _ => true end.

Record keystore := KeyStore {
  ks_heap : heap kentry;
  ks_keyentries : list ptr;
  ks_keytree_id : rb_tree;
  ks_keytree_ip : rb_tree;
  ks_keytree_sock : rb_tree;
  ks_keysize : nat;
  ks_id_counter : Z;
  ks_key_mode : key_mode_t;
  ks_save_removed : bool;
  ks_removed_keys : list cstr;
  ks_file : Z * Z
}.

Definition with_entries (s : keystore) (h : heap kentry) (a : list ptr) (n : nat) : keystore :=
  KeyStore h a (ks_keytree_id s) (ks_keytree_ip s) (ks_keytree_sock s) n (ks_id_counter s) (ks_key_mode s) (ks_save_removed s)
    (ks_removed_keys s) (ks_file s).
Definition with_trees (s : keystore) (tid tip tsock : rb_tree) : keystore :=
  KeyStore (ks_heap s) (ks_keyentries s) tid tip tsock (ks_keysize s) (ks_id_counter s) (ks_key_mode s) (ks_save_removed s)
    (ks_removed_keys s) (ks_file s).
Definition with_removed (s : keystore) (l : list cstr) : keystore :=
  KeyStore (ks_heap s) (ks_keyentries s) (ks_keytree_id s) (ks_keytree_ip s) (ks_keytree_sock s) (ks_keysize s) (ks_id_counter s)
    (ks_key_mode s) (ks_save_removed s) l (ks_file s).
Definition with_counter (s : keystore) (c : Z) : keystore :=
  KeyStore (ks_heap s) (ks_keyentries s) (ks_keytree_id s) (ks_keytree_ip s) (ks_keytree_sock s) (ks_keysize s) c
    (ks_key_mode s) (ks_save_removed s) (ks_removed_keys s) (ks_file s).

Definition set_keyid (i : nat) (e : kentry) : kentry :=
  KEntry (k_id e) (k_name e) (k_ip e) (k_raw_key e) (k_encryption_key e) i (k_rcvd e) (k_sock e) (k_peer_info e) (k_net_protocol e) (k_time_added e).
Definition set_sock (sock : Z) (e : kentry) : kentry :=
  KEntry (k_id e) (k_name e) (k_ip e) (k_raw_key e) (k_encryption_key e) (k_keyid e) (k_rcvd e) sock (k_peer_info e) (k_net_protocol e) (k_time_added e).
Definition set_netdata (rcvd sock : Z) (peer : list Z) (e : kentry) : kentry :=
  KEntry (k_id e) (k_name e) (k_ip e) (k_raw_key e) (k_encryption_key e) (k_keyid e) rcvd sock peer (k_net_protocol e) (k_time_added e).

(** The addresses of new nodes and entries. *)
Variable alloc_node : heap rb_node → loc.
Variable alloc_entry : heap kentry → loc.

Definition tree_insert (t : rb_tree) (key : cstr) (p : ptr) : option (ptr * rb_tree) :=
  rbtree_insert (alloc_node (rb_heap t)) t key p.
Definition tree_delete (t : rb_tree) (key : cstr) : option rb_tree := '(_, _, t) ← rbtree_delete t key; Some t.

(** [keys->keyentries[i]] *)
Definition entry_at (s : keystore) (i : nat) : option kentry := p ← ks_keyentries s !! i; load (ks_heap s) p.
Definition put_ptr (a : list ptr) (i : nat) (p : ptr) : option (list ptr) :=
  if (i <? length a)%nat then Some (<[i := p]> a) else None.

(** * Looking up *)

(** The index of the entry that a tree finds. *)
Definition found_id (s : keystore) (p : ptr) : option Z :=
  match p with None => Some (-1) | Some _ => e ← load (ks_heap s) p; Some (Z.of_nat (k_keyid e)) end.

Definition OS_IsAllowedIP (s : keystore) (srcip : option cstr) : option Z :=
  match srcip with None => Some (-1) | Some ip => p ← rbtree_get (ks_keytree_ip s) ip; found_id s p end.
Definition OS_IsAllowedID (s : keystore) (id : option cstr) : option Z :=
  match id with None => Some (-1) | Some id => p ← rbtree_get (ks_keytree_id s) id; found_id s p end.

Fixpoint name_loop (s : keystore) (n i : nat) (name : cstr) : option Z :=
  match n with
  | O => Some (-1)
  | S n =>
      e ← entry_at s i; x ← k_name e;
      if strcmp x name =? 0 then Some (Z.of_nat i) else name_loop s n (S i) name
  end.
Definition OS_IsAllowedName (s : keystore) (name : cstr) : option Z := name_loop s (ks_keysize s) 0 name.

Definition OS_IsAllowedDynamicID (s : keystore) (id : option cstr) (srcip : cstr) : option Z :=
  match id with
  | None => Some (-1)
  | Some id =>
      p ← rbtree_get (ks_keytree_id s) id;
      match p with
      | None => Some (-1)
      | Some _ =>
          e ← load (ks_heap s) p; ip ← k_ip e;
          Some (if OS_IPFound srcip ip then Z.of_nat (k_keyid e) else -1)
      end
  end.

Definition w_get_agent_net_protocol_from_keystore (s : keystore) (agent_id : option cstr) : option Z :=
  key_id ← OS_IsAllowedID s agent_id;
  if 0 <=? key_id then e ← entry_at s (Z.to_nat key_id); Some (k_net_protocol e) else Some key_id.

(** * Adding and deleting *)

(** The symmetric key: two digests in a buffer of [KEYSIZE] bytes. *)
Definition final_key (id name key : cstr) : cstr :=
  let filesum1 := md5 (take (KEYSIZE - 1) (md5 name ++ md5 id)) in
  take (KEYSIZE - 1) (md5 key ++ take 15 filesum1).

Definition OS_AddKey (s : keystore) (id name ip key : cstr) (time_added : Z) : option (run (Z * keystore)) :=
  let n := ks_keysize s in
  let a := take (n + 2) (ks_keyentries s) ++ replicate (n + 2 - length (ks_keyentries s)) NULL in
  p ← a !! n;
  a ← put_ptr a (S n) p;
  let l := alloc_entry (ks_heap s) in
  a ← put_ptr a n (Some l);
  '(_, tid) ← tree_insert (ks_keytree_id s) id (Some l);
  match OS_IsValidIP ip with
  | None => Some Exited
  | Some (text, addr) =>
      let text := (span (λ c, negb (c =? 47)) text).1 in
      '(_, tip) ← tree_insert (ks_keytree_ip s) text (Some l);
      let e := KEntry (Some id) (Some name) (Some (text, addr))
        (if has_raw (ks_key_mode s) then Some key else None)
        (if has_enc (ks_key_mode s) then Some (final_key id name key) else None) n 0 (-1) [] 0 time_added in
      Some (Done (Z.of_nat n,
        with_trees (with_entries s (<[l := e]> (ks_heap s)) a (S n)) tid tip (ks_keytree_sock s)))
  end.

(** [save_removed_key] *)
Definition save_removed_key (s : keystore) (key : cstr) : keystore := with_removed s (ks_removed_keys s ++ [key]).

(** ["%d"] of a socket. *)
Definition strsock (sock : Z) : cstr := if sock <? 0 then 45 :: digits 10 (- sock) else digits 10 sock.

(** The line of a key that was removed: ["%s !%s %s %s"] in a buffer. *)
Definition removed_line (id name ip key : cstr) : cstr :=
  take (OS_BUFFER_SIZE - 1) (id ++ [32; 33] ++ name ++ [32] ++ ip ++ [32] ++ key).

(** [OS_FreeKey] *)
Definition OS_FreeKey (h : heap kentry) (p : ptr) : option (heap kentry) := free h p.

Definition OS_DeleteKey (s : keystore) (id : cstr) (purge : bool) : option (Z * keystore) :=
  if negb (has_raw (ks_key_mode s)) then Some (-1, s)
  else
    i ← OS_IsAllowedID s (Some id);
    if i <? 0 then Some (-1, s)
    else
      let i := Z.to_nat i in
      e ← entry_at s i;
      ip ← k_ip e;
      s ← (if ks_save_removed s && negb purge then
             eid ← k_id e; name ← k_name e; key ← k_raw_key e;
             Some (save_removed_key s (removed_line eid name ip.1 key))
           else Some s);
      tid ← tree_delete (ks_keytree_id s) id;
      tip ← tree_delete (ks_keytree_ip s) ip.1;
      tsock ← (if 0 <=? k_sock e then tree_delete (ks_keytree_sock s) (strsock (k_sock e)) else Some (ks_keytree_sock s));
      p ← ks_keyentries s !! i;
      h ← OS_FreeKey (ks_heap s) p;
      let n := (ks_keysize s - 1)%nat in
      '(h, a) ← (if (i <? n)%nat then
          last ← ks_keyentries s !! n;
          a ← put_ptr (ks_keyentries s) i last;
          h ← store h last (set_keyid i); Some (h, a)
        else Some (h, ks_keyentries s));
      sender ← a !! S n;
      a ← put_ptr a n sender;
      Some (Z.of_nat i, with_trees (with_entries s h a n) tid tip tsock).

(** * Sockets *)

Inductive addsocket := OS_ADDSOCKET_ERROR | OS_ADDSOCKET_KEY_UPDATED | OS_ADDSOCKET_KEY_ADDED.
Definition OS_AddSocket (s : keystore) (i : nat) (sock : Z) : option (addsocket * keystore) :=
  p ← ks_keyentries s !! i;
  '(r, t) ← tree_insert (ks_keytree_sock s) (strsock sock) p;
  match r with
  | Some _ => Some (OS_ADDSOCKET_KEY_ADDED, with_trees s (ks_keytree_id s) (ks_keytree_ip s) t)
  | None =>
      '(_, r, t) ← rbtree_replace t (strsock sock) p;
      Some (match r with Some _ => OS_ADDSOCKET_KEY_UPDATED | None => OS_ADDSOCKET_ERROR end,
            with_trees s (ks_keytree_id s) (ks_keytree_ip s) t)
  end.

Definition OS_DeleteSocket (s : keystore) (sock : Z) : option (Z * keystore) :=
  p ← rbtree_get (ks_keytree_sock s) (strsock sock);
  match p with
  | None => Some (-1, s)
  | Some _ =>
      e ← load (ks_heap s) p;
      h ← (if sock =? k_sock e then store (ks_heap s) p (set_sock (-1)) else Some (ks_heap s));
      t ← tree_delete (ks_keytree_sock s) (strsock sock);
      Some (0, with_trees (with_entries s h (ks_keyentries s) (ks_keysize s)) (ks_keytree_id s) (ks_keytree_ip s) t)
  end.

(** * The file *)

(** [fgets] of at most [n] bytes: the line with its end, and the rest. *)
Fixpoint fgets_upto (n : nat) (s : list Z) : cstr * list Z :=
  match n, s with
  | O, _ | _, [] => ([], s)
  | S n, c :: s => if c =? 10 then ([c], s) else let '(a, b) := fgets_upto n s in (c :: a, b)
  end.
Definition fgets (size : nat) (s : list Z) : option (cstr * list Z) :=
  match s with [] => None | _ => let '(l, s) := fgets_upto (size - 1) s in Some (cstring l, s) end.

(** [strchr] with the character cut out: what is before and after it. *)
Definition split_at (s : cstr) (c : Z) : option (cstr * cstr) :=
  '(a, b) ← strchr s c; Some (a, drop 1 b).
Definition upto_newline (s : cstr) : cstr := match split_at s 10 with Some (a, _) => a | None => s end.

(** One line: it is skipped, or is a key that was removed, or an entry. *)
Inductive key_line := Skipped | Removed (id_number : option Z) (line : cstr) | Entry (id_number : option Z) (id name ip key : cstr)
  | Broken (id_number : option Z).
Definition parse_line (buffer : cstr) : key_line :=
  match buffer with
  | c :: _ =>
      if (c =? 35) || (c =? 32) then Skipped
      else
        match split_at buffer 32 with
        | None => Skipped
        | Some (id, tmp_str) =>
            let id := take KEYSIZE id in
            let '(v, rest, _) := strtol id in
            let id_number := match rest with [] => Some (int32 v) | _ => None end in
            match tmp_str with
            | [] => Broken id_number
            | d :: _ =>
                if (d =? 35) || (d =? 33) then
                  Removed id_number ((span (λ c, negb (c =? 32)) buffer).1 ++ 32 :: upto_newline tmp_str)
                else
                  match split_at tmp_str 32 with
                  | None => Broken id_number
                  | Some (name, tmp_str) =>
                      match split_at tmp_str 32 with
                      | None => Broken id_number
                      | Some (ip, tmp_str) =>
                          Entry id_number id (take (KEYSIZE - 1) name) (take (KEYSIZE - 1) ip) (take (KEYSIZE - 1) (upto_newline tmp_str))
                      end
                  end
            end
        end
  | [] => Skipped
  end.

Definition count_id (s : keystore) (id_number : option Z) : keystore :=
  match id_number with Some n => if ks_id_counter s <? n then with_counter s n else s | None => s end.

(** The effect of a line. *)
Definition read_line (s : keystore) (buffer : cstr) : option (run keystore) :=
  match parse_line buffer with
  | Skipped => Some (Done s)
  | Broken id_number => Some (Done (count_id s id_number))
  | Removed id_number line =>
      let s := count_id s id_number in Some (Done (if ks_save_removed s then save_removed_key s line else s))
  | Entry id_number id name ip key =>
      r ← OS_AddKey (count_id s id_number) id name ip key 0;
      Some (match r with Done (_, s) => Done s | Exited => Exited end)
  end.

Fixpoint read_lines (fuel : nat) (s : keystore) (content : list Z) : option (run keystore) :=
  match fuel with
  | O => None
  | S fuel =>
      match fgets OS_BUFFER_SIZE content with
      | None => Some (Done s)
      | Some (buffer, content) =>
          r ← read_line s buffer;
          match r with Done s => read_lines fuel s content | Exited => Some Exited end
      end
  end.

(** A store with the sender's entry only. *)
Definition empty_store (mode : key_mode_t) (save_removed : bool) (removed : list cstr) (file : Z * Z) : keystore :=
  let l := alloc_entry ∅ in
  KeyStore {[l := sender_entry]} [Some l] rbtree_init rbtree_init rbtree_init 0 0 mode save_removed removed file.

(** [OS_ReadKeys]; [file] is the text, its date and its inode, or nothing for a
    file that is missing; [removed] are those that [keys] had before. *)
Definition OS_ReadKeys (pass_empty_keyfile : bool) (file : option (list Z * (Z * Z))) (removed : list cstr)
    (mode : key_mode_t) (save_removed : bool) : option (run keystore) :=
  match file with
  | None =>
      if pass_empty_keyfile then Some (Done (empty_store mode save_removed removed (-1, 0))) else Some Exited
  | Some (content, stat) =>
      r ← read_lines (S (length content)) (empty_store mode save_removed removed stat) content;
      match r with
      | Exited => Some Exited
      | Done s => if (ks_keysize s =? 0)%nat && negb pass_empty_keyfile then Some Exited else Some (Done s)
      end
  end.

Definition OS_CheckUpdateKeys (s : keystore) (stat : Z * Z) : bool := negb ((ks_file s).1 =? stat.1) || negb ((ks_file s).2 =? stat.2).

(** [OS_WriteKeys]: the result and the text of the file; [ok] tells whether the
    file could be written. *)
Definition key_text (id name ip key : cstr) : list Z := id ++ [32] ++ name ++ [32] ++ ip ++ [32] ++ key ++ [10].
Fixpoint write_loop (s : keystore) (n i : nat) : option (list Z) :=
  match n with
  | O => Some []
  | S n =>
      e ← entry_at s i; id ← k_id e; name ← k_name e; ip ← k_ip e; key ← k_raw_key e;
      rest ← write_loop s n (S i);
      Some (key_text id name (match OS_CIDRtoStr ip with Some cidr => cidr | None => ip.1 end) key ++ rest)
  end.
Definition OS_WriteKeys (s : keystore) (ok : bool) (old : list Z) : option (Z * list Z) :=
  if negb (has_raw (ks_key_mode s)) then Some (-1, old)
  else
    text ← write_loop s (ks_keysize s) 0;
    let text := text ++ concat (map (λ l, l ++ [10]) (ks_removed_keys s)) in
    Some (if ok then (0, text) else (-1, old)).

(** [OS_FreeKeys] *)
Fixpoint free_loop (h : heap kentry) (a : list ptr) (n : nat) {struct n} : option (heap kentry) :=
  match n with
  | O => Some h
  | S n =>
      match a with
      | [] => None
      | p :: a => h ← (match p with Some _ => OS_FreeKey h p | None => Some h end); free_loop h a n
      end
  end.
Definition OS_FreeKeys (s : keystore) : option (heap kentry) :=
  _ ← rbtree_destroy (Some (ks_keytree_id s));
  _ ← rbtree_destroy (Some (ks_keytree_ip s));
  _ ← rbtree_destroy (Some (ks_keytree_sock s));
  free_loop (ks_heap s) (ks_keyentries s) (S (ks_keysize s)).

(** [OS_DupKeyEntry] and [OS_DupKeys], whose copy has no trees: the copies of
    the entries. *)
Definition OS_DupKeyEntry (e : kentry) : kentry :=
  KEntry (k_id e) (k_name e) (k_ip e) (k_raw_key e) (k_encryption_key e) (k_keyid e) (k_rcvd e) (k_sock e) (k_peer_info e) 0 (k_time_added e).
Definition OS_DupKeys (s : keystore) : option (list kentry) :=
  mapM (λ i, OS_DupKeyEntry <$> entry_at s i) (seq 0 (S (ks_keysize s))).

(** [move_netdata], from the entries of the old store. *)
Fixpoint move_netdata (s : keystore) (old : list kentry) : option keystore :=
  match old with
  | [] => Some s
  | o :: old =>
      keyid ← OS_IsAllowedID s (k_id o);
      s ← (if keyid <? 0 then Some s
           else
             p ← ks_keyentries s !! Z.to_nat keyid;
             e ← load (ks_heap s) p; ip ← k_ip e; oip ← k_ip o;
             if strcmp ip.1 oip.1 =? 0 then
               h ← store (ks_heap s) p (set_netdata (k_rcvd o) (k_sock o) (k_peer_info o));
               '(_, t) ← tree_insert (ks_keytree_sock s) (strsock (k_sock o)) p;
               Some (with_trees (with_entries s h (ks_keyentries s) (ks_keysize s)) (ks_keytree_id s) (ks_keytree_ip s) t)
             else Some s);
      move_netdata s old
  end.

(** [OS_UpdateKeys]; [start] is [OS_StartCounter], which reads the counters of
    the new entries. *)
Definition OS_UpdateKeys (start : keystore → keystore) (pass_empty_keyfile : bool) (file : option (list Z * (Z * Z))) (s : keystore)
    : option (run keystore) :=
  old ← OS_DupKeys s;
  _ ← OS_FreeKeys s;
  r ← OS_ReadKeys pass_empty_keyfile file [] (ks_key_mode s) (ks_save_removed s);
  match r with
  | Exited => Some Exited
  | Done s' => s' ← move_netdata (start s') (take (ks_keysize s) old); Some (Done s')
  end.
End keys.
