(* ===== verification/KeyStoreSpec.v ===== *)
(** The store of the agents' keys: it refines a list of agents, of which some
    are found by identifier and some by address. *)

From S2P Require Import Prelude CLib Keyed RBTree RBMap KeyStore.

Section spec.
Context {IP : Type} (OS_IsValidIP : cstr → option (cstr * IP)) (OS_IPFound : cstr → cstr * IP → bool).
Context (md5 : cstr → cstr).
Context (alloc_node : heap rb_node → loc) (alloc_entry : heap (@kentry IP) → loc).
Context (alloc_node_fresh : ∀ h, h !! alloc_node h = None) (alloc_entry_fresh : ∀ h, h !! alloc_entry h = None).

(** * The abstract store *)

(** An agent; the flags tell by what it is found. *)
Record agent := Agent {
  a_id : cstr; a_name : cstr; a_ip : cstr * IP; a_raw : option cstr; a_enc : option cstr; a_by_id : bool; a_by_ip : bool
}.
Definition a_addr (a : agent) : cstr := (a_ip a).1.

(** The agents, and the lines of those that were removed. *)
Record kspec := KSpec { sp_agents : list agent; sp_removed : list cstr }.

Definition found (flag : agent → bool) (key : agent → cstr) (k : cstr) (a : agent) : bool := flag a && bool_decide (key a = k).
Fixpoint find_pos (f : agent → bool) (l : list agent) : option nat :=
  match l with [] => None | a :: l => if f a then Some 0%nat else S <$> find_pos f l end.
Definition pos_Z (o : option nat) : Z := match o with Some i => Z.of_nat i | None => -1 end.

Definition spec_add (mode : key_mode_t) (l : list agent) (id name key : cstr) (ip : cstr * IP) : list agent :=
  l ++ [Agent id name ip (if has_raw mode then Some key else None) (if has_enc mode then Some (final_key md5 id name key) else None)
    (negb (existsb (found a_by_id a_id id) l)) (negb (existsb (found a_by_ip a_addr ip.1) l))].

(** An agent goes: none is found by its address any more, and the last agent
    takes its place. *)
Definition hide (addr : cstr) (a : agent) : agent :=
  Agent (a_id a) (a_name a) (a_ip a) (a_raw a) (a_enc a) (a_by_id a) (a_by_ip a && negb (bool_decide (a_addr a = addr))).
Definition swap_out {A} (l : list A) (i : nat) : list A :=
  let n := (length l - 1)%nat in
  if (i <? n)%nat then match l !! n with Some x => <[i := x]> (take n l) | None => l end else take n l.
Definition spec_delete (l : list agent) (i : nat) (a : agent) : list agent := swap_out (hide (a_addr a) <$> l) i.

Inductive kop :=
  | KAdd (id name ip key : cstr) (time_added : Z)
  | KDelete (id : cstr) (purge : bool)
  | KById (id : cstr) | KByIp (ip : cstr) | KByName (name : cstr) | KDynamic (id srcip : cstr).

(** [OS_AddKey]'s address is cut at a slash. *)
Definition cut (text : cstr) : cstr := (span (λ c, negb (c =? 47)) text).1.

Definition spec_exec (mode : key_mode_t) (save : bool) (o : kop) (s : kspec) : Z * kspec :=
  let l := sp_agents s in
  match o with
  | KAdd id name ip key _ =>
      match OS_IsValidIP ip with
      | Some (text, addr) => (Z.of_nat (length l), KSpec (spec_add mode l id name key (cut text, addr)) (sp_removed s))
      | None => (-1, s)
      end
  | KDelete id purge =>
      if negb (has_raw mode) then (-1, s)
      else match find_pos (found a_by_id a_id id) l with
           | Some i =>
               match l !! i with
               | Some a => (Z.of_nat i, KSpec (spec_delete l i a)
                   (if save && negb purge then sp_removed s ++ [removed_line (a_id a) (a_name a) (a_addr a) (default [] (a_raw a))] else sp_removed s))
               | None => (-1, s)
               end
           | None => (-1, s)
           end
  | KById id => (pos_Z (find_pos (found a_by_id a_id id) l), s)
  | KByIp ip => (pos_Z (find_pos (found a_by_ip a_addr ip) l), s)
  | KByName name => (pos_Z (find_pos (λ a, bool_decide (a_name a = name)) l), s)
  | KDynamic id srcip =>
      (match find_pos (found a_by_id a_id id) l with
       | Some i => match l !! i with Some a => if OS_IPFound srcip (a_ip a) then Z.of_nat i else -1 | None => -1 end
       | None => -1
       end, s)
  end.

(** The calls on the store. *)
Definition k_exec (o : kop) (s : keystore) : option (run (Z * keystore)) :=
  match o with
  | KAdd id name ip key t => OS_AddKey OS_IsValidIP md5 alloc_node alloc_entry s id name ip key t
  | KDelete id purge => '(r, s) ← OS_DeleteKey s id purge; Some (Done (r, s))
  | KById id => r ← OS_IsAllowedID s (Some id); Some (Done (r, s))
  | KByIp ip => r ← OS_IsAllowedIP s (Some ip); Some (Done (r, s))
  | KByName name => r ← OS_IsAllowedName s name; Some (Done (r, s))
  | KDynamic id srcip => r ← OS_IsAllowedDynamicID OS_IPFound s (Some id) srcip; Some (Done (r, s))
  end.

(** * Representation *)

Definition entry_of (a : agent) (i : nat) (e : kentry) : Prop :=
  k_id e = Some (a_id a) ∧ k_name e = Some (a_name a) ∧ k_ip e = Some (a_ip a) ∧ k_raw_key e = a_raw a ∧ k_encryption_key e = a_enc a ∧
  k_keyid e = i ∧ k_sock e = -1.

(** A tree holds the entries of the agents with a flag, under their keys. *)
Definition indexes (flag : agent → bool) (key : agent → cstr) (xs : list (loc * agent)) (m : gmap cstr ptr) : Prop :=
  ∀ k p, m !! k = Some p ↔ ∃ x, x ∈ xs ∧ flag x.2 = true ∧ key x.2 = k ∧ p = Some x.1.

Record ks_rep (mode : key_mode_t) (save : bool) (s : keystore) (xs : list (loc * agent)) (removed : list cstr)
    (sender : loc) (mid mip : gmap cstr ptr) : Prop := {
  kr_array : ∃ junk, ks_keyentries s = (Some <$> xs.*1) ++ Some sender :: junk;
  kr_size : ks_keysize s = length xs;
  kr_nodup : NoDup (sender :: xs.*1);
  kr_entries i x : xs !! i = Some x → ∃ e, ks_heap s !! x.1 = Some e ∧ entry_of x.2 i e;
  kr_dom l : is_Some (ks_heap s !! l) ↔ l ∈ sender :: xs.*1;
  kr_id : rb_map (ks_keytree_id s) mid;
  kr_ids : indexes a_by_id a_id xs mid;
  kr_ip : rb_map (ks_keytree_ip s) mip;
  kr_ips : indexes a_by_ip a_addr xs mip;
  kr_sock : rb_map (ks_keytree_sock s) ∅;
  kr_mode : ks_key_mode s = mode;
  kr_save : ks_save_removed s = save;
  kr_removed : ks_removed_keys s = removed;
  kr_raw x : x ∈ xs → is_Some (a_raw x.2) ↔ has_raw mode = true
}.
Definition rep (mode : key_mode_t) (save : bool) (s : keystore) (a : kspec) : Prop :=
  ∃ xs sender mid mip, sp_agents a = xs.*2 ∧ ks_rep mode save s xs (sp_removed a) sender mid mip.

(** * Positions *)

Lemma find_pos_Some f l i : find_pos f l = Some i → ∃ a, l !! i = Some a ∧ f a = true.
Proof.
  revert i. induction l as [|a l IH]; intros i; simpl; [done|]. destruct (f a) eqn:E; [intros [= <-]; by exists a|].
  destruct (find_pos f l) as [j|]; [|done]. intros [= <-]. by apply IH.
Qed.
Lemma find_pos_None f l a : find_pos f l = None → a ∈ l → f a = false.
Proof.
  induction l as [|b l IH]; simpl; [by intros _ ?%not_elem_of_nil|]. destruct (f b) eqn:E; [done|].
  intros H. apply fmap_None in H. intros [->|Ha]%elem_of_cons; auto.
Qed.
Lemma existsb_find_pos f l : existsb f l = match find_pos f l with Some _ => true | None => false end.
Proof. induction l as [|a l IH]; simpl; [done|]. destruct (f a); [done|]. simpl. rewrite IH. by destruct (find_pos f l). Qed.
Lemma found_spec flag key k a : found flag key k a = true ↔ flag a = true ∧ key a = k.
Proof. unfold found. by rewrite andb_true_iff, bool_decide_eq_true. Qed.

(** The tree finds the agent that the list finds. *)
Lemma index_pos flag key xs m k :
  indexes flag key xs m →
  match find_pos (found flag key k) xs.*2 with
  | Some i => ∃ x, xs !! i = Some x ∧ found flag key k x.2 = true ∧ m !! k = Some (Some x.1)
  | None => m !! k = None
  end.
Proof.
  intros Hm. destruct (find_pos _ _) as [i|] eqn:E.
  - apply find_pos_Some in E as (a & Ha & Hf). apply list_lookup_fmap_Some in Ha as (x & -> & Hx). exists x. split; [done|]. split; [done|].
    apply found_spec in Hf as [H1 H2]. apply Hm. exists x. split; [by eapply list_elem_of_lookup_2|done].
  - apply eq_None_not_Some. intros [p Hp]. apply Hm in Hp as (x & Hx & H1 & H2 & _).
    assert (found flag key k x.2 = false) as Hf by (eapply find_pos_None; [exact E|by apply list_elem_of_fmap_2]).
    apply not_true_iff_false in Hf. apply Hf, found_spec. done.
Qed.

Lemma swap_out_fmap {A B} (f : A → B) l i : f <$> swap_out l i = swap_out (f <$> l) i.
Proof.
  unfold swap_out. rewrite length_fmap, list_lookup_fmap. destruct (i <? _)%nat; [|by rewrite fmap_take].
  destruct (l !! _); simpl; [|done]. by rewrite list_fmap_insert, fmap_take.
Qed.
Lemma swap_out_lookup {A} (l : list A) i j :
  (i < length l)%nat →
  swap_out l i !! j = if (j <? length l - 1)%nat then if (j =? i)%nat then l !! (length l - 1)%nat else l !! j else None.
Proof.
  intros Hi. unfold swap_out. destruct (lookup_lt_is_Some_2 l (length l - 1)) as [y Hy]; [lia|]. rewrite Hy.
  destruct (Nat.ltb_spec i (length l - 1)); destruct (Nat.ltb_spec j (length l - 1)).
  - destruct (Nat.eqb_spec j i) as [->|Hji]; [rewrite list_lookup_insert_eq by (rewrite length_take; lia); done|].
    rewrite list_lookup_insert_ne, lookup_take_lt by lia. done.
  - apply lookup_ge_None_2. rewrite length_insert, length_take. lia.
  - rewrite (proj2 (Nat.eqb_neq _ _)) by lia. by rewrite lookup_take_lt.
  - apply lookup_ge_None_2. rewrite length_take. lia.
Qed.
Lemma swap_out_perm {A} (l : list A) i x : l !! i = Some x → l ≡ₚ x :: swap_out l i.
Proof.
  intros Hi. pose proof (lookup_lt_Some _ _ _ Hi) as Hlt. unfold swap_out.
  destruct (lookup_lt_is_Some_2 l (length l - 1)) as [y Hy]; [lia|]. rewrite Hy.
  assert (l = take (length l - 1) l ++ [y]) as El.
  { rewrite <-(take_S_r _ _ _ Hy). replace (S (length l - 1)) with (length l) by lia. by rewrite firstn_all. }
  destruct (Nat.ltb_spec i (length l - 1)) as [Hn|Hn].
  - set (t := take (length l - 1) l) in *. assert (t !! i = Some x) as Ht by (unfold t; by rewrite lookup_take_lt).
    rewrite El at 1. clearbody t. clear El Hy Hlt. apply list_elem_of_split_length in Ht as (t1 & t2 & -> & ->).
    rewrite insert_app_r_alt, Nat.sub_diag by lia. simpl. rewrite <-app_assoc. simpl. solve_Permutation.
  - assert (i = length l - 1)%nat as -> by lia. rewrite El at 1. assert (x = y) as -> by congruence. solve_Permutation.
Qed.
Lemma swap_out_length {A} (l : list A) i : (i < length l)%nat → length (swap_out l i) = (length l - 1)%nat.
Proof.
  intros Hi. unfold swap_out. destruct (lookup_lt_is_Some_2 l (length l - 1)) as [y Hy]; [lia|]. rewrite Hy.
  destruct (_ <? _)%nat; rewrite ?length_insert, length_take; lia.
Qed.

(** * Looking up *)

Section represented.
Context (mode : key_mode_t) (save : bool) (s : @keystore IP) (xs : list (loc * agent)) (removed : list cstr).
Context (sender : loc) (mid mip : gmap cstr ptr) (R : ks_rep mode save s xs removed sender mid mip).

Lemma rep_ptr i x : xs !! i = Some x → ks_keyentries s !! i = Some (Some x.1).
Proof using R.
  intros Hx. destruct (kr_array _ _ _ _ _ _ _ _ R) as [junk ->]. rewrite lookup_app_l by (rewrite !length_fmap; by eapply lookup_lt_Some).
  by rewrite !list_lookup_fmap, Hx.
Qed.
Lemma rep_entry i x : xs !! i = Some x → ∃ e, entry_at s i = Some e ∧ entry_of x.2 i e.
Proof using R.
  intros Hx. destruct (kr_entries _ _ _ _ _ _ _ _ R _ _ Hx) as (e & He & Hof). exists e. split; [|done].
  unfold entry_at. rewrite (rep_ptr _ _ Hx). simpl. exact He.
Qed.
Lemma rep_sender : ks_keyentries s !! length xs = Some (Some sender).
Proof using R.
  destruct (kr_array _ _ _ _ _ _ _ _ R) as [junk ->]. rewrite lookup_app_r, !length_fmap, Nat.sub_diag by (rewrite !length_fmap; lia). done.
Qed.
Lemma rep_found i x : xs !! i = Some x → found_id s (Some x.1) = Some (Z.of_nat i).
Proof using R.
  intros Hx. destruct (kr_entries _ _ _ _ _ _ _ _ R _ _ Hx) as (e & He & Hof). unfold found_id. cbn [load mbind option_bind]. rewrite He. simpl.
  by destruct Hof as (_ & _ & _ & _ & _ & -> & _).
Qed.

Lemma found_by flag key m t k :
  rb_map t m → indexes flag key xs m →
  (p ← rbtree_get t k; found_id s p) = Some (pos_Z (find_pos (found flag key k) xs.*2)).
Proof using R.
  intros Ht Hm. rewrite (rb_map_get _ _ _ Ht). cbn [mbind option_bind]. pose proof (index_pos _ _ _ _ k Hm) as Hp.
  destruct (find_pos _ _) as [i|]; [|by rewrite Hp]. destruct Hp as (x & Hx & _ & ->). by apply rep_found.
Qed.

Lemma by_id id : OS_IsAllowedID s (Some id) = Some (pos_Z (find_pos (found a_by_id a_id id) xs.*2)).
Proof using R. exact (found_by _ _ _ _ id (kr_id _ _ _ _ _ _ _ _ R) (kr_ids _ _ _ _ _ _ _ _ R)). Qed.
Lemma by_ip ip : OS_IsAllowedIP s (Some ip) = Some (pos_Z (find_pos (found a_by_ip a_addr ip) xs.*2)).
Proof using R. exact (found_by _ _ _ _ ip (kr_ip _ _ _ _ _ _ _ _ R) (kr_ips _ _ _ _ _ _ _ _ R)). Qed.

Lemma by_name name : OS_IsAllowedName s name = Some (pos_Z (find_pos (λ a, bool_decide (a_name a = name)) xs.*2)).
Proof using R.
  unfold OS_IsAllowedName. rewrite (kr_size _ _ _ _ _ _ _ _ R).
  assert (∀ n i, (i + n = length xs)%nat → name_loop s n i name =
    Some (match find_pos (λ a, bool_decide (a_name a = name)) (drop i xs.*2) with Some j => Z.of_nat (i + j) | None => -1 end)) as H.
  { induction n as [|n IH]; intros i Hi; cbn [name_loop].
    - rewrite drop_ge by (rewrite length_fmap; lia). done.
    - destruct (lookup_lt_is_Some_2 xs i) as [x Hx]; [lia|]. destruct (rep_entry _ _ Hx) as (e & -> & _ & Hn & _). cbn [mbind option_bind].
      rewrite Hn. cbn [mbind option_bind]. rewrite (drop_S xs.*2 x.2 i) by (by rewrite list_lookup_fmap, Hx). cbn [find_pos].
      assert ((strcmp (a_name x.2) name =? 0) = bool_decide (a_name x.2 = name)) as ->.
      { apply eq_true_iff_eq. rewrite Z.eqb_eq, bool_decide_eq_true. apply strcmp_eq. }
      destruct (bool_decide _); [by rewrite Nat.add_0_r|]. rewrite IH by lia. destruct (find_pos _ _); simpl; [|done]. do 2 f_equal. lia. }
  rewrite H by lia. rewrite drop_0. by destruct (find_pos _ _).
Qed.

Lemma by_dynamic id srcip :
  OS_IsAllowedDynamicID OS_IPFound s (Some id) srcip =
  Some (match find_pos (found a_by_id a_id id) xs.*2 with
        | Some i => match xs.*2 !! i with Some a => if OS_IPFound srcip (a_ip a) then Z.of_nat i else -1 | None => -1 end
        | None => -1
        end).
Proof using R.
  unfold OS_IsAllowedDynamicID. rewrite (rb_map_get _ _ _ (kr_id _ _ _ _ _ _ _ _ R)). cbn [mbind option_bind].
  pose proof (index_pos _ _ _ _ id (kr_ids _ _ _ _ _ _ _ _ R)) as Hp. destruct (find_pos _ _) as [i|]; [|by rewrite Hp].
  destruct Hp as (x & Hx & _ & ->). destruct (kr_entries _ _ _ _ _ _ _ _ R _ _ Hx) as (e & He & _ & _ & Hip & _ & _ & Hk & _).
  change (default NULL (Some (Some x.1))) with (Some x.1). cbn [load mbind option_bind]. rewrite He. cbn [mbind option_bind]. rewrite Hip. cbn [mbind option_bind].
  rewrite list_lookup_fmap, Hx. simpl. by rewrite Hk.
Qed.
End represented.

(** * Adding *)

(** A tree gets a new agent, when it has none under that key. *)
Lemma index_add flag key xs m t k l a f :
  rb_map t m → indexes flag key xs m → key a = k → flag a = f → f = negb (existsb (found flag key k) xs.*2) →
  ∃ r t' m', tree_insert alloc_node t k (Some l) = Some (r, t') ∧ rb_map t' m' ∧ indexes flag key (xs ++ [(l, a)]) m'.
Proof using alloc_node_fresh.
  intros Ht Hm Hk Hf Hneg. unfold tree_insert. pose proof (rb_map_insert _ t m k (Some l) Ht (alloc_node_fresh (rb_heap t))) as Hi.
  rewrite existsb_find_pos in Hneg. pose proof (index_pos _ _ _ _ k Hm) as Hp. destruct (find_pos _ _) as [i|].
  - destruct Hp as (x & Hx & _ & Hmk). rewrite Hmk in Hi. exists NULL, t, m. split; [done|]. split; [done|].
    intros k' p. rewrite (Hm k' p). split; intros (y & Hy & H); exists y; (split; [|done]).
    + apply elem_of_app. by left.
    + apply elem_of_app in Hy as [Hy|Hy%list_elem_of_singleton]; [done|]. subst y. simpl in H. rewrite Hf, Hneg in H. by destruct H as [? _].
  - rewrite Hp in Hi. destruct Hi as (t' & -> & Ht' & _). eexists _, t', _. split; [done|]. split; [exact Ht'|].
    intros k' p. rewrite lookup_insert_Some. split.
    + intros [[<- <-]|[Hne Hkp]].
      * exists (l, a). split; [apply elem_of_app; right; by left|]. simpl. by rewrite Hf, Hneg.
      * apply Hm in Hkp as (y & Hy & H). exists y. split; [apply elem_of_app; by left|done].
    + intros (y & [Hy|Hy%list_elem_of_singleton]%elem_of_app & Hfl & Hky & ->).
      * right. assert (m !! k' = Some (Some y.1)) as Hyk by (apply Hm; by exists y). split; [|done]. intros <-. congruence.
      * left. subst y. simpl in *. split; [congruence|done].
Qed.

Lemma add_ok mode save s xs removed sender mid mip id name ip key t text addr :
  ks_rep mode save s xs removed sender mid mip → OS_IsValidIP ip = Some (text, addr) →
  ∃ s' l mid' mip' a, OS_AddKey OS_IsValidIP md5 alloc_node alloc_entry s id name ip key t = Some (Done (Z.of_nat (length xs), s')) ∧
    ks_rep mode save s' (xs ++ [(l, a)]) removed sender mid' mip' ∧ xs.*2 ++ [a] = spec_add mode xs.*2 id name key (cut text, addr).
Proof using alloc_node_fresh alloc_entry_fresh.
  clear OS_IPFound. intros R Hip. pose proof R as [[junk Harr] Hsz Hnd Hent Hdom Hid Hids Hipt Hips Hsock Hmode Hsave Hrem Hraw].
  unfold OS_AddKey. rewrite Hsz, Hip. set (n := length xs) in *. set (l := alloc_entry (ks_heap s)).
  set (arr := take (n + 2) _ ++ _).
  assert (∃ j2, arr = (Some <$> xs.*1) ++ Some sender :: j2 ∧ (1 ≤ length j2)%nat) as (j2 & Earr & Hj2).
  { unfold arr. rewrite Harr. rewrite take_app, !length_fmap. fold n. rewrite take_ge by (rewrite !length_fmap; lia).
    replace (n + 2 - n)%nat with 2%nat by lia. rewrite <-app_assoc. cbn [take app]. eexists. split; [reflexivity|].
    rewrite !length_app, length_cons, !length_fmap, length_replicate, length_take. fold n. lia. }
  destruct j2 as [|q j2]; [simpl in Hj2; lia|].
  assert (length ((Some <$> xs.*1) : list ptr) = n) as Hlen by (by rewrite !length_fmap).
  assert (arr !! n = Some (Some sender)) as -> by (rewrite Earr, lookup_app_r, Hlen, Nat.sub_diag by lia; done).
  cbn [mbind option_bind]. unfold put_ptr.
  rewrite (proj2 (Nat.ltb_lt (S n) (length arr))) by (rewrite Earr, length_app, Hlen; simpl; lia). cbn [mbind option_bind].
  rewrite (proj2 (Nat.ltb_lt n _)) by (rewrite length_insert, Earr, length_app, Hlen; simpl; lia). cbn [mbind option_bind].
  assert (<[n := Some l]> (<[S n := Some sender]> arr) = (Some <$> (xs ++ [(l, Agent id name (cut text, addr) None None true true)]).*1) ++ Some sender :: j2) as ->.
  { rewrite Earr, fmap_app, fmap_app, <-app_assoc. rewrite (insert_app_r_alt _ _ (S n)) by lia. rewrite Hlen. replace (S n - n)%nat with 1%nat by lia.
    simpl. rewrite insert_app_r_alt by lia. rewrite Hlen, Nat.sub_diag. done. }
  set (a := Agent id name (cut text, addr) (if has_raw mode then Some key else None) (if has_enc mode then Some (final_key md5 id name key) else None)
    (negb (existsb (found a_by_id a_id id) xs.*2)) (negb (existsb (found a_by_ip a_addr (cut text)) xs.*2))).
  destruct (index_add a_by_id a_id xs mid _ id l a _ Hid Hids eq_refl eq_refl eq_refl) as (r1 & t1 & m1 & -> & Ht1 & Hm1). cbn [mbind option_bind].
  change (span (λ c, negb (c =? 47)) text).1 with (cut text).
  destruct (index_add a_by_ip a_addr xs mip _ (cut text) l a _ Hipt Hips eq_refl eq_refl eq_refl) as (r2 & t2 & m2 & -> & Ht2 & Hm2). cbn [mbind option_bind].
  assert (l ∉ sender :: xs.*1) as Hl by (rewrite <-Hdom; unfold l; rewrite alloc_entry_fresh; by intros [? ?]).
  eexists _, l, m1, m2, a. split; [rewrite Hmode; reflexivity|]. split; [|done]. split; try done.
  - exists j2. by rewrite !fmap_app.
  - simpl. rewrite length_app. simpl. fold n. lia.
  - rewrite fmap_app. simpl. rewrite app_comm_cons. apply NoDup_app. split; [done|]. split; [|apply NoDup_singleton].
    intros y Hy Hy2. apply list_elem_of_singleton in Hy2 as ->. done.
  - intros i x Hx. simpl. apply lookup_app_Some in Hx as [Hx|[Hi Hx]].
    + destruct (Hent _ _ Hx) as (e & He & Hof). exists e. split; [|done]. rewrite lookup_insert_ne; [done|]. intros ->. apply Hl. right.
      apply list_elem_of_fmap. exists x. split; [done|by eapply list_elem_of_lookup_2].
    + fold n in Hi, Hx. assert (i = n) as -> by (apply lookup_lt_Some in Hx; simpl in Hx; lia). rewrite Nat.sub_diag in Hx. injection Hx as <-. simpl.
      rewrite lookup_insert_eq. eexists. split; [done|]. by split_and!.
  - intros y. simpl. rewrite lookup_insert_is_Some, fmap_app, Hdom, !elem_of_cons, elem_of_app. simpl. rewrite list_elem_of_singleton.
    destruct (decide (l = y)) as [->|]; naive_solver.
  - intros x [Hx|Hx%list_elem_of_singleton]%elem_of_app; [by apply Hraw|]. subst x. simpl. destruct (has_raw mode); split; done.
Qed.

(** * Deleting *)

Definition hidden (addr : cstr) (x : loc * agent) : loc * agent := (x.1, hide addr x.2).

Lemma hidden_fst addr xs : (hidden addr <$> xs).*1 = xs.*1.
Proof. rewrite <-list_fmap_compose. by apply list_fmap_ext. Qed.
Lemma hidden_snd addr xs : (hidden addr <$> xs).*2 = hide addr <$> xs.*2.
Proof. rewrite <-!list_fmap_compose. by apply list_fmap_ext. Qed.

(** The agents that are left, after the one at [i] went. *)
Lemma left_in addr xs i x y :
  NoDup xs.*1 → xs !! i = Some x → y ∈ swap_out (hidden addr <$> xs) i ↔ ∃ z, z ∈ xs ∧ z.1 ≠ x.1 ∧ y = hidden addr z.
Proof.
  intros Hnd Hx. pose proof (swap_out_perm (hidden addr <$> xs) i (hidden addr x) ltac:(by rewrite list_lookup_fmap, Hx)) as Hp.
  assert (NoDup ((hidden addr x).1 :: (swap_out (hidden addr <$> xs) i).*1)) as Hnd'.
  { change ((hidden addr x).1 :: (swap_out (hidden addr <$> xs) i).*1) with ((hidden addr x :: swap_out (hidden addr <$> xs) i).*1). rewrite <-Hp, hidden_fst. done. }
  apply NoDup_cons in Hnd' as [Hnotin _]. split.
  - intros Hy. assert (y ∈ hidden addr <$> xs) as Hy' by (rewrite Hp; by right). apply list_elem_of_fmap in Hy' as (z & -> & Hz).
    exists z. split; [done|]. split; [|done]. intros E. apply Hnotin. apply list_elem_of_fmap. exists (hidden addr z). split; [by simpl|done].
  - intros (z & Hz & Hne & ->). assert (hidden addr z ∈ hidden addr x :: swap_out (hidden addr <$> xs) i) as H by (rewrite <-Hp; by apply list_elem_of_fmap_2).
    apply elem_of_cons in H as [H|H]; [|done]. exfalso. apply Hne. by injection H.
Qed.

(** Two agents under the same key of a tree are one. *)
Lemma index_unique flag key xs m x y :
  indexes flag key xs m → x ∈ xs → y ∈ xs → flag x.2 = true → flag y.2 = true → key x.2 = key y.2 → x.1 = y.1.
Proof.
  intros Hm Hx Hy Fx Fy E. assert (m !! key x.2 = Some (Some x.1)) as H1 by (apply Hm; by exists x).
  assert (m !! key x.2 = Some (Some y.1)) as H2 by (apply Hm; exists y; by rewrite E). congruence.
Qed.

Lemma index_delete_id xs m t id i x :
  NoDup xs.*1 → rb_map t m → indexes a_by_id a_id xs m → xs !! i = Some x → a_by_id x.2 = true → a_id x.2 = id →
  ∃ t', tree_delete t id = Some t' ∧ rb_map t' (delete id m) ∧ indexes a_by_id a_id (swap_out (hidden (a_addr x.2) <$> xs) i) (delete id m).
Proof.
  intros Hnd Ht Hm Hx Hf Hk. pose proof (rb_map_delete t m id Ht) as Hd.
  assert (m !! id = Some (Some x.1)) as Hmk by (apply Hm; exists x; split; [by eapply list_elem_of_lookup_2|done]).
  rewrite Hmk in Hd. destruct Hd as (t' & Ed & Ht' & _). exists t'. unfold tree_delete. rewrite Ed. split; [done|]. split; [done|].
  intros k p. rewrite lookup_delete_Some, (Hm k p). split.
  - intros (Hne & z & Hz & Hfz & Hkz & ->). exists (hidden (a_addr x.2) z). split; [|done]. apply (left_in _ _ _ x); [done|done|].
    exists z. split; [done|]. split; [|done]. intros E. apply Hne. rewrite <-Hk, <-Hkz.
    assert (z = x) as ->; [|done]. destruct (list_elem_of_lookup_1 _ _ Hz) as [j Hj].
    assert (j = i) as ->; [|congruence]. eapply NoDup_lookup; [exact Hnd| |]; rewrite list_lookup_fmap, ?Hj, ?Hx; simpl; [done|]. by rewrite E.
  - intros (y & Hy & Hfy & Hky & ->). apply (left_in _ _ _ x) in Hy as (z & Hz & Hne & ->); [|done|done]. simpl in *.
    split; [|by exists z]. intros <-. apply Hne. eapply index_unique; [exact Hm|done|by eapply list_elem_of_lookup_2|done|done|congruence].
Qed.

Lemma index_delete_ip xs m t i x :
  NoDup xs.*1 → rb_map t m → indexes a_by_ip a_addr xs m → xs !! i = Some x →
  ∃ t', tree_delete t (a_addr x.2) = Some t' ∧ rb_map t' (delete (a_addr x.2) m) ∧
    indexes a_by_ip a_addr (swap_out (hidden (a_addr x.2) <$> xs) i) (delete (a_addr x.2) m).
Proof.
  intros Hnd Ht Hm Hx. pose proof (rb_map_delete t m (a_addr x.2) Ht) as Hd.
  assert (∃ t', tree_delete t (a_addr x.2) = Some t' ∧ rb_map t' (delete (a_addr x.2) m)) as (t' & Ed & Ht').
  { unfold tree_delete. destruct (m !! a_addr x.2) eqn:Em; [destruct Hd as (t' & -> & ? & _); by exists t'|].
    rewrite Hd. exists t. split; [done|]. by rewrite delete_id. }
  exists t'. split; [done|]. split; [done|]. intros k p. rewrite lookup_delete_Some, (Hm k p). split.
  - intros (Hne & z & Hz & Hfz & Hkz & ->). exists (hidden (a_addr x.2) z). split; [|split_and!; [|done|done]].
    + apply (left_in _ _ _ x); [done|done|]. exists z. split; [done|]. split; [|done]. intros E. apply Hne. rewrite <-Hkz.
      assert (z = x) as ->; [|done]. destruct (list_elem_of_lookup_1 _ _ Hz) as [j Hj].
      assert (j = i) as ->; [|congruence]. eapply NoDup_lookup; [exact Hnd| |]; rewrite list_lookup_fmap, ?Hj, ?Hx; simpl; [done|]. by rewrite E.
    + simpl. rewrite Hfz. simpl. rewrite bool_decide_eq_false_2 by congruence. done.
  - intros (y & Hy & Hfy & Hky & ->). apply (left_in _ _ _ x) in Hy as (z & Hz & Hne & ->); [|done|done]. simpl in *.
    apply andb_true_iff in Hfy as [Hfy Hna%negb_true_iff]. apply bool_decide_eq_false in Hna. change (a_addr (hide (a_addr x.2) z.2)) with (a_addr z.2) in Hky.
    split; [congruence|by exists z].
Qed.

(** The array after the entry at [i] is overwritten by the last one and the
    sender's entry moves down. *)
Lemma array_delete (ls : list loc) sender (junk : list ptr) i :
  (i < length ls)%nat →
  let a := (Some <$> ls) ++ Some sender :: junk in
  let n := (length ls - 1)%nat in
  ∃ a' junk', (if (i <? n)%nat then last ← a !! n; put_ptr a i last else Some a) = Some a' ∧
    a' !! S n = Some (Some sender) ∧ put_ptr a' n (Some sender) = Some ((Some <$> swap_out ls i) ++ Some sender :: junk').
Proof.
  intros Hi a n. destruct (lookup_lt_is_Some_2 ls n) as [y Hy]; [unfold n; lia|].
  assert (length ((Some <$> ls) : list ptr) = S n) as Hlen by (rewrite length_fmap; unfold n; lia).
  assert (ls = take n ls ++ [y]) as El.
  { rewrite <-(take_S_r _ _ _ Hy). replace (S n) with (length ls) by (unfold n; lia). by rewrite firstn_all. }
  assert (length (take n ls) = n) as Htk by (rewrite length_take; unfold n; lia).
  unfold swap_out. fold n. rewrite Hy.
  assert (∀ b : list ptr, length b = n → put_ptr (b ++ Some y :: Some sender :: junk) n (Some sender) = Some (b ++ Some sender :: Some sender :: junk)) as Hput.
  { intros b Hb. unfold put_ptr. rewrite (proj2 (Nat.ltb_lt _ _)) by (rewrite length_app; simpl; lia). f_equal.
    rewrite insert_app_r_alt, Hb, Nat.sub_diag by lia. done. }
  assert (a = (Some <$> take n ls) ++ Some y :: Some sender :: junk) as Ea by (unfold a; rewrite El at 1; by rewrite fmap_app, <-app_assoc).
  destruct (Nat.ltb_spec i n) as [Hin|Hin].
  - assert (a !! n = Some (Some y)) as -> by (rewrite Ea, lookup_app_r, length_fmap, Htk, Nat.sub_diag by (rewrite length_fmap; lia); done).
    cbn [mbind option_bind]. unfold put_ptr at 1. rewrite (proj2 (Nat.ltb_lt _ _)) by (rewrite Ea, length_app, length_fmap; lia).
    assert (<[i := Some y]> a = (Some <$> <[i := y]> (take n ls)) ++ Some y :: Some sender :: junk) as Ei.
    { rewrite Ea, insert_app_l by (rewrite length_fmap; lia). by rewrite list_fmap_insert. }
    eexists _, (Some sender :: junk). split; [done|]. rewrite Ei. split.
    + rewrite lookup_app_r by (rewrite length_fmap, length_insert; lia). rewrite length_fmap, length_insert, Htk. replace (S n - n)%nat with 1%nat by lia. done.
    + apply Hput. by rewrite length_fmap, length_insert.
  - exists a, (Some sender :: junk). split; [done|]. rewrite Ea. split.
    + rewrite lookup_app_r by (rewrite length_fmap; lia). rewrite length_fmap, Htk. replace (S n - n)%nat with 1%nat by lia. done.
    + apply Hput. by rewrite length_fmap.
Qed.

(** The heap after the entry is freed and the moved one has its new index. *)
Lemma heap_delete h xs sender i x :
  NoDup (sender :: xs.*1) → xs !! i = Some x →
  (∀ j y, xs !! j = Some y → ∃ e, h !! y.1 = Some e ∧ entry_of y.2 j e) →
  (∀ l, is_Some (h !! l) ↔ l ∈ sender :: xs.*1) →
  let n := (length xs - 1)%nat in
  ∃ h1 h2, OS_FreeKey h (Some x.1) = Some h1 ∧
    (if (i <? n)%nat then p ← (Some <$> xs.*1) !! n; store h1 p (set_keyid i) else Some h1) = Some h2 ∧
    (∀ j y, swap_out xs i !! j = Some y → ∃ e, h2 !! y.1 = Some e ∧ entry_of y.2 j e) ∧
    (∀ l, is_Some (h2 !! l) ↔ l ∈ sender :: (swap_out xs i).*1).
Proof.
  intros Hnd Hx Hent Hdom n. pose proof (lookup_lt_Some _ _ _ Hx) as Hi. destruct (Hent _ _ Hx) as (e & He & _).
  apply NoDup_cons in Hnd as [Hs Hnd].
  assert (∀ j k y z, xs !! j = Some y → xs !! k = Some z → y.1 = z.1 → j = k) as Hinj.
  { intros j k y z Hj Hk E. eapply NoDup_lookup; [exact Hnd| |]; rewrite list_lookup_fmap, ?Hj, ?Hk; simpl; [done|]. by rewrite E. }
  destruct (lookup_lt_is_Some_2 xs n) as [y Hy]; [unfold n; lia|]. destruct (Hent _ _ Hy) as (ey & Hey & Hofy).
  assert (xs.*1 ≡ₚ x.1 :: (swap_out xs i).*1) as Hp by exact (fmap_Permutation fst _ _ (swap_out_perm xs i x Hx)).
  assert (∀ l, l ∈ xs.*1 ↔ l = x.1 ∨ l ∈ (swap_out xs i).*1) as Hperm by (intros l; rewrite Hp; apply elem_of_cons).
  assert (x.1 ∉ (swap_out xs i).*1 ∧ sender ≠ x.1) as [Hx' Hsx].
  { split; [|intros ->; apply Hs; rewrite list_elem_of_fmap; exists x; split; [done|by eapply list_elem_of_lookup_2]].
    rewrite Hp in Hnd. by apply NoDup_cons in Hnd as [? _]. }
  assert (∀ l, is_Some (delete x.1 h !! l) ↔ l ∈ sender :: (swap_out xs i).*1) as Hd1.
  { intros l. rewrite lookup_delete_is_Some, Hdom, !elem_of_cons, Hperm. split; [intros (? & [?|[?|?]]); [by left|done|by right]|].
    intros [->|Hl]; [split; [done|by left]|]. split; [intros <-; done|right; by right]. }
  exists (delete x.1 h). unfold OS_FreeKey, free, load. cbn [mbind option_bind]. rewrite He. cbn [mbind option_bind].
  destruct (Nat.ltb_spec i n) as [Hin|Hin].
  - assert (y.1 ≠ x.1) as Hne by (intros E; pose proof (Hinj _ _ _ _ Hy Hx E); lia).
    rewrite !list_lookup_fmap, Hy. cbn [fmap option_fmap option_map mbind option_bind]. unfold store, load. cbn [mbind option_bind].
    rewrite lookup_delete_ne, Hey by done. cbn [mbind option_bind]. eexists. split; [done|]. split; [done|]. split.
    + intros j z Hz. rewrite swap_out_lookup in Hz by done. fold n in Hz. destruct (Nat.ltb_spec j n); [|done].
      destruct (Nat.eqb_spec j i) as [->|Hji].
      * assert (z = y) as -> by congruence. rewrite lookup_insert_eq. eexists. split; [done|].
        destruct Hofy as (? & ? & ? & ? & ? & _ & ?). by split_and!.
      * destruct (Hent _ _ Hz) as (ez & Hez & Hof). exists ez. split; [|done].
        rewrite lookup_insert_ne by (intros E; pose proof (Hinj _ _ _ _ Hy Hz E); lia).
        rewrite lookup_delete_ne by (intros E; pose proof (Hinj _ _ _ _ Hx Hz E); lia). done.
    + intros l. rewrite lookup_insert_is_Some, Hd1. split; [|destruct (decide (y.1 = l)); auto]. intros [<-|[_ ?]]; [|done].
      apply Hd1. rewrite lookup_delete_ne, Hey by done. by eexists.
  - eexists. split; [done|]. split; [done|]. split; [|done]. intros j z Hz. rewrite swap_out_lookup in Hz by done. fold n in Hz.
    destruct (Nat.ltb_spec j n); [|done]. rewrite (proj2 (Nat.eqb_neq _ _)) in Hz by lia.
    destruct (Hent _ _ Hz) as (ez & Hez & Hof). exists ez. split; [|done].
    rewrite lookup_delete_ne by (intros E; pose proof (Hinj _ _ _ _ Hx Hz E); lia). done.
Qed.

Lemma entry_of_hide addr a j e : entry_of (hide addr a) j e ↔ entry_of a j e.
Proof. done. Qed.

Lemma delete_ok mode save s xs removed sender mid mip id purge i x :
  ks_rep mode save s xs removed sender mid mip → has_raw mode = true →
  find_pos (found a_by_id a_id id) xs.*2 = Some i → xs !! i = Some x →
  ∃ s' mid' mip', OS_DeleteKey s id purge = Some (Z.of_nat i, s') ∧
    ks_rep mode save s' (swap_out (hidden (a_addr x.2) <$> xs) i)
      (if save && negb purge then removed ++ [removed_line (a_id x.2) (a_name x.2) (a_addr x.2) (default [] (a_raw x.2))] else removed)
      sender mid' mip'.
Proof.
  intros R Hraw Hpos Hx. pose proof R as [[junk Harr] Hsz Hnd Hent Hdom Hid Hids Hipt Hips Hsock Hmode Hsave Hrem Hraws].
  assert (found a_by_id a_id id x.2 = true) as [Hf Hk]%found_spec.
  { apply find_pos_Some in Hpos as (a & Ha & Hf). rewrite list_lookup_fmap, Hx in Ha. by injection Ha as <-. }
  assert (NoDup xs.*1) as Hnd1 by (by apply NoDup_cons in Hnd as [_ ?]). pose proof (lookup_lt_Some _ _ _ Hx) as Hi.
  unfold OS_DeleteKey. rewrite Hmode, Hraw. cbn [negb]. rewrite (by_id _ _ _ _ _ _ _ _ R id), Hpos. cbn [mbind option_bind pos_Z].
  rewrite (proj2 (Z.ltb_ge _ _)), Nat2Z.id by lia. destruct (rep_entry _ _ _ _ _ _ _ _ R i x Hx) as (e & -> & Hof). cbn [mbind option_bind].
  destruct Hof as (He1 & He2 & He3 & He4 & He5 & He6 & He7). rewrite He3. cbn [mbind option_bind]. rewrite Hsave.
  set (rem := if save && negb purge then removed ++ [removed_line (a_id x.2) (a_name x.2) (a_addr x.2) (default [] (a_raw x.2))] else removed).
  assert ((if save && negb purge then eid ← k_id e; name ← k_name e; key ← k_raw_key e; Some (save_removed_key s (removed_line eid name (a_ip x.2).1 key)) else Some s) =
    Some (with_removed s rem)) as ->.
  { unfold rem. destruct (save && negb purge).
    - rewrite He1, He2, He4. destruct (proj2 (Hraws x ltac:(by eapply list_elem_of_lookup_2)) Hraw) as [key ->]. simpl. by rewrite <-Hrem.
    - rewrite <-Hrem. by destruct s. }
  cbn [mbind option_bind with_removed ks_keytree_id ks_keytree_ip ks_keytree_sock ks_keyentries ks_heap ks_keysize].
  destruct (index_delete_id xs mid _ id i x Hnd1 Hid Hids Hx Hf Hk) as (t1 & -> & Ht1 & Hm1). cbn [mbind option_bind].
  destruct (index_delete_ip xs mip _ i x Hnd1 Hipt Hips Hx) as (t2 & Et2 & Ht2 & Hm2). change (a_ip x.2).1 with (a_addr x.2). rewrite Et2. cbn [mbind option_bind].
  rewrite He7. change (0 <=? -1) with false. cbv iota. cbn [mbind option_bind]. rewrite (rep_ptr _ _ _ _ _ _ _ _ R i x Hx). cbn [mbind option_bind].
  destruct (heap_delete (ks_heap s) xs sender i x Hnd Hx Hent Hdom) as (h1 & h2 & -> & Eh2 & Hent2 & Hdom2). cbn [mbind option_bind].
  destruct (array_delete xs.*1 sender junk i ltac:(by rewrite length_fmap)) as (a' & junk' & Ea & Ha1 & Ha2).
  rewrite length_fmap in Ea, Ha1, Ha2. rewrite Hsz, Harr. set (n := (length xs - 1)%nat) in *.
  assert ((if (i <? n)%nat then last ← ((Some <$> xs.*1) ++ Some sender :: junk) !! n;
       a ← put_ptr ((Some <$> xs.*1) ++ Some sender :: junk) i last; h ← store h1 last (set_keyid i); Some (h, a)
     else Some (h1, (Some <$> xs.*1) ++ Some sender :: junk)) = Some (h2, a')) as ->.
  { destruct (i <? n)%nat; [|by injection Eh2 as <-; injection Ea as <-].
    rewrite lookup_app_l in * by (rewrite !length_fmap; unfold n; lia). destruct ((Some <$> xs.*1) !! n) as [p|]; [|done].
    cbn [mbind option_bind] in *. rewrite Ea. cbn [mbind option_bind]. by rewrite Eh2. }
  cbn [mbind option_bind]. rewrite Ha1. cbn [mbind option_bind]. rewrite Ha2. cbn [mbind option_bind].
  assert ((swap_out (hidden (a_addr x.2) <$> xs) i).*1 = swap_out xs.*1 i) as E1 by (rewrite swap_out_fmap, hidden_fst; done).
  assert (swap_out (hidden (a_addr x.2) <$> xs) i = hidden (a_addr x.2) <$> swap_out xs i) as E2 by (by rewrite swap_out_fmap).
  eexists _, (delete id mid), (delete (a_addr x.2) mip). split; [reflexivity|]. split; try done; simpl.
  - exists junk'. by rewrite E1.
  - rewrite swap_out_length, length_fmap by (by rewrite length_fmap). done.
  - rewrite E1, <-swap_out_fmap. apply NoDup_cons in Hnd as [Hs _].
    pose proof (fmap_Permutation fst _ _ (swap_out_perm xs i x Hx)) as Hp. apply NoDup_cons. split.
    + intros Hin. apply Hs. rewrite Hp. by right.
    + rewrite Hp in Hnd1. by apply NoDup_cons in Hnd1 as [_ ?].
  - intros j y Hy. rewrite E2, list_lookup_fmap in Hy. apply fmap_Some in Hy as (z & Hz & ->).
    destruct (Hent2 _ _ Hz) as (ez & Hez & Hof). exists ez. split; [exact Hez|]. exact (proj2 (entry_of_hide _ _ _ _) Hof).
  - intros l. rewrite Hdom2, E1, swap_out_fmap. done.
  - intros y Hy. apply (left_in _ _ _ x) in Hy as (z & Hz & _ & ->); [|done|done]. exact (Hraws z Hz).
Qed.

(** * The simulation *)

Definition kop_ok (o : kop) : Prop := match o with KAdd _ _ ip _ _ => is_Some (OS_IsValidIP ip) | _ => True end.

Lemma k_sim mode save o s a :
  rep mode save s a → kop_ok o →
  ∃ s', k_exec o s = Some (Done ((spec_exec mode save o a).1, s')) ∧ rep mode save s' (spec_exec mode save o a).2.
Proof using alloc_node_fresh alloc_entry_fresh.
  intros (xs & sender & mid & mip & Ea & R) Hok. destruct o as [id name ip key t|id purge|id|ip|name|id srcip]; cbn [k_exec spec_exec]; rewrite Ea.
  - destruct Hok as [[text addr] Hip]. destruct (add_ok _ _ _ _ _ _ _ _ id name ip key t text addr R Hip) as (s' & l & mid' & mip' & ag & E & R' & Eq).
    rewrite E, Hip. exists s'. simpl. rewrite length_fmap. split; [done|]. exists (xs ++ [(l, ag)]), sender, mid', mip'. split; [|done].
    simpl. by rewrite <-Eq, fmap_app.
  - destruct (has_raw mode) eqn:Hraw; cbn [negb].
    + destruct (find_pos (found a_by_id a_id id) xs.*2) as [i|] eqn:Hpos.
      * destruct (find_pos_Some _ _ _ Hpos) as (ag & Hag & _). rewrite Hag. apply list_lookup_fmap_Some in Hag as (x & -> & Hx).
        destruct (delete_ok _ _ _ _ _ _ _ _ id purge i x R Hraw Hpos Hx) as (s' & mid' & mip' & -> & R'). cbn [mbind option_bind].
        exists s'. split; [done|]. exists (swap_out (hidden (a_addr x.2) <$> xs) i), sender, mid', mip'. split; [|exact R'].
        simpl. unfold spec_delete. by rewrite swap_out_fmap, hidden_snd.
      * unfold OS_DeleteKey. rewrite (kr_mode _ _ _ _ _ _ _ _ R), Hraw. cbn [negb]. rewrite (by_id _ _ _ _ _ _ _ _ R id), Hpos. simpl.
        exists s. split; [done|]. by exists xs, sender, mid, mip.
    + unfold OS_DeleteKey. rewrite (kr_mode _ _ _ _ _ _ _ _ R), Hraw. simpl. exists s. split; [done|]. by exists xs, sender, mid, mip.
  - rewrite (by_id _ _ _ _ _ _ _ _ R id). exists s. split; [done|]. by exists xs, sender, mid, mip.
  - rewrite (by_ip _ _ _ _ _ _ _ _ R ip). exists s. split; [done|]. by exists xs, sender, mid, mip.
  - rewrite (by_name _ _ _ _ _ _ _ _ R name). exists s. split; [done|]. by exists xs, sender, mid, mip.
  - rewrite (by_dynamic _ _ _ _ _ _ _ _ R id srcip). exists s. split; [done|]. by exists xs, sender, mid, mip.
Qed.

Lemma rep_empty mode save file : rep mode save (empty_store alloc_entry mode save [] file) (KSpec [] []).
Proof using.
  exists [], (alloc_entry ∅), ∅, ∅. split; [done|]. split; try done; simpl.
  - by exists [].
  - apply NoDup_singleton.
  - intros l. rewrite list_elem_of_singleton. destruct (decide (l = alloc_entry ∅)) as [->|Hne].
    + rewrite lookup_singleton_eq. split; [done|by eexists].
    + rewrite lookup_singleton_ne by done. split; [by intros []|done].
  - apply (rb_map_init false).
  - intros k p. rewrite lookup_empty. split; [done|]. intros (x & Hx & _). by apply not_elem_of_nil in Hx.
  - apply (rb_map_init false).
  - intros k p. rewrite lookup_empty. split; [done|]. intros (x & Hx & _). by apply not_elem_of_nil in Hx.
  - apply (rb_map_init false).
  - intros x Hx. by apply not_elem_of_nil in Hx.
Qed.

(** Releasing the store frees every entry. *)
Lemma free_loop_all (ls : list loc) (h : heap (@kentry IP)) j :
  NoDup ls → (∀ l, is_Some (h !! l) ↔ l ∈ ls) → free_loop h ((Some <$> ls) ++ j) (length ls) = Some ∅.
Proof using.
  revert h. induction ls as [|l ls IH]; intros h Hls Hh; [change (Some h = Some ∅)|].
  - f_equal. apply map_empty. intros l. apply eq_None_not_Some. rewrite Hh. apply not_elem_of_nil.
  - destruct (proj2 (Hh l) ltac:(by left)) as [e He]. change ((Some <$> l :: ls) ++ j) with (Some l :: (Some <$> ls) ++ j).
    cbn [free_loop length]. unfold OS_FreeKey, free, load. cbn [mbind option_bind]. rewrite He. cbn [mbind option_bind].
    apply NoDup_cons in Hls as [Hl Hls]. apply IH; [done|]. intros k. rewrite lookup_delete_is_Some, Hh, elem_of_cons.
    split; [intros [? [?|?]]; done|]. intros Hk. split; [intros ->; done|by right].
Qed.
Lemma free_ok mode save s a : rep mode save s a → OS_FreeKeys s = Some ∅.
Proof using.
  intros (xs & sender & mid & mip & _ & R). pose proof R as [[junk Harr] Hsz Hnd _ Hdom Hid _ Hipt _ Hsock _ _ _ _].
  unfold OS_FreeKeys. destruct (rbtree_destroy_spec _ _ Hid) as (? & -> & _). destruct (rbtree_destroy_spec _ _ Hipt) as (? & -> & _).
  destruct (rbtree_destroy_spec _ _ Hsock) as (? & -> & _). cbn [mbind option_bind]. rewrite Hsz, Harr.
  pose proof (free_loop_all (xs.*1 ++ [sender]) (ks_heap s) junk) as H. rewrite fmap_app, <-app_assoc in H. simpl in H. rewrite length_app, length_fmap, Nat.add_1_r in H.
  apply H.
  - apply NoDup_app. apply NoDup_cons in Hnd as [Hs Hnd]. split; [done|]. split; [|apply NoDup_singleton].
    intros y Hy Hy2. apply list_elem_of_singleton in Hy2 as ->. done.
  - intros l. rewrite Hdom, elem_of_cons, elem_of_app, list_elem_of_singleton. clear. tauto.
Qed.
End spec.
