(* ===== verification/KeyFile.v ===== *)
(** The file of the keys: what [OS_WriteKeys] writes, [OS_ReadKeys] reads back. *)

From S2P Require Import Prelude CLib RBTree RBMap KeyStore KeyStoreSpec.

(** * Lines *)

(** A word of a line. *)
Definition word_char (c : Z) : Prop := c ≠ 0 ∧ c ≠ 10 ∧ c ≠ 32.
Definition word (s : cstr) : Prop := Forall word_char s ∧ (length s < KEYSIZE)%nat.
Definition text_char (c : Z) : Prop := c ≠ 0 ∧ c ≠ 10.

Lemma fgets_upto_line s n t :
  Forall (λ c, c ≠ 10) s → (length s < n)%nat → fgets_upto n (s ++ 10 :: t) = (s ++ [10], t).
Proof.
  intros Hs. revert n. induction Hs as [|c s Hc _ IH]; intros [|n] Hn; simpl in *; try lia; [done|].
  by rewrite (proj2 (Z.eqb_neq _ _)), IH by (done || lia).
Qed.
Lemma fgets_line s t :
  Forall text_char s → (length s < OS_BUFFER_SIZE - 1)%nat → fgets OS_BUFFER_SIZE (s ++ 10 :: t) = Some (s ++ [10], t).
Proof.
  intros Hs Hn. unfold fgets. rewrite fgets_upto_line; [|by eapply Forall_impl; [exact Hs|intros c []]|done].
  destruct (s ++ 10 :: t) eqn:E; [by destruct s|]. f_equal. f_equal. apply cstring_id. apply Forall_app. split; [|by repeat constructor].
  by eapply Forall_impl; [exact Hs|intros c []].
Qed.
Lemma split_at_stop s c t : Forall (λ d, d ≠ c) s → split_at (s ++ c :: t) c = Some (s, t).
Proof.
  intros Hs. unfold split_at, strchr. rewrite span_stop; [done| |by rewrite Z.eqb_refl].
  eapply Forall_impl; [exact Hs|]. intros d Hd. by rewrite (proj2 (Z.eqb_neq _ _)).
Qed.
Lemma word_split s t : word s → split_at (s ++ 32 :: t) 32 = Some (s, t).
Proof. intros [Hs _]. apply split_at_stop. eapply Forall_impl; [exact Hs|]. by intros c (_ & _ & ?). Qed.
Lemma text_newline s : Forall text_char s → upto_newline (s ++ [10]) = s.
Proof. intros Hs. unfold upto_newline. rewrite split_at_stop; [done|]. eapply Forall_impl; [exact Hs|]. by intros c []. Qed.

(** The first character is none of these. *)
Definition starts (bad : list Z) (s : cstr) : Prop := match s with c :: _ => c ∉ bad | [] => True end.

Lemma parse_entry id name ip key :
  word id → id ≠ [] → starts [35] id → word name → starts [35; 33] name → word ip → Forall text_char key → (length key < KEYSIZE)%nat →
  ∃ n, parse_line (key_text id name ip key) = Entry n id name ip key.
Proof.
  intros Hid Hne Hsid Hn Hsn Hip Hk Hkl. destruct id as [|c id]; [done|]. unfold key_text, parse_line. cbn [app].
  assert (c ≠ 32 ∧ c ≠ 35) as [H1 H2].
  { split; [|intros ->; apply Hsid; by left]. destruct Hid as [Hid _]. apply Forall_cons in Hid as [(_ & _ & ?) _]. done. }
  rewrite !(proj2 (Z.eqb_neq _ _)) by done. cbn [orb].
  change (c :: id ++ 32 :: name ++ 32 :: ip ++ 32 :: key ++ [10]) with ((c :: id) ++ 32 :: (name ++ 32 :: ip ++ 32 :: key ++ [10])).
  rewrite word_split by done. rewrite (take_ge (c :: id)) by (destruct Hid; lia). destruct (strtol (c :: id)) as [[v rest] o].
  set (nn := match rest with [] => _ | _ => _ end). exists nn.
  assert (∀ t, word name → starts [35; 33] name → ∃ d u, name ++ 32 :: t = d :: u ∧ (d =? 35) || (d =? 33) = false) as Hd.
  { intros t _ _. destruct name as [|d name]; [by exists 32, t|]. exists d, (name ++ 32 :: t). split; [done|]. simpl in Hsn.
    apply orb_false_iff. rewrite !Z.eqb_neq. set_solver. }
  destruct (Hd (ip ++ 32 :: key ++ [10]) Hn Hsn) as (d & u & E & Ed). rewrite E, Ed, <-E, word_split by done. rewrite word_split by done.
  rewrite text_newline by done. destruct Hn, Hip. by rewrite !take_ge by lia.
Qed.

(** A line of a key that was removed. *)
Definition removed_ok (l : cstr) : Prop :=
  ∃ id rest, l = id ++ [32; 33] ++ rest ∧ word id ∧ id ≠ [] ∧ starts [35] id ∧ Forall text_char rest ∧ (length l < OS_BUFFER_SIZE - 1)%nat.

Lemma parse_removed l : removed_ok l → ∃ n, parse_line (l ++ [10]) = Removed n l.
Proof.
  intros (id & rest & -> & Hid & Hne & Hs & Hr & _). destruct id as [|c id]; [done|]. unfold parse_line. rewrite <-!app_assoc. cbn [app].
  assert (c ≠ 32 ∧ c ≠ 35) as [H1 H2].
  { split; [|intros ->; apply Hs; by left]. destruct Hid as [Hid _]. apply Forall_cons in Hid as [(_ & _ & ?) _]. done. }
  rewrite !(proj2 (Z.eqb_neq _ _)) by done. cbn [orb].
  change (c :: id ++ 32 :: 33 :: rest ++ [10]) with ((c :: id) ++ 32 :: (33 :: rest ++ [10])). rewrite word_split by done.
  destruct (strtol _) as [[v r] o]. change ((33 =? 35) || (33 =? 33)) with true. cbv iota. eexists. f_equal.
  rewrite span_stop; [|eapply Forall_impl; [apply Hid|]; intros d (_ & _ & ?); by rewrite (proj2 (Z.eqb_neq _ _))|done].
  cbn [fst]. change (33 :: rest ++ [10]) with ((33 :: rest) ++ [10]). rewrite text_newline by (by constructor). done.
Qed.

Section file.
Context {IP : Type} (OS_IsValidIP : cstr → option (cstr * IP)) (OS_IPFound : cstr → cstr * IP → bool).
Context (OS_CIDRtoStr : cstr * IP → option cstr) (md5 : cstr → cstr).
Context (alloc_node : heap rb_node → loc) (alloc_entry : heap (@kentry IP) → loc).
Context (alloc_node_fresh : ∀ h, h !! alloc_node h = None) (alloc_entry_fresh : ∀ h, h !! alloc_entry h = None).
Notation rep := (rep (IP := IP)).
Notation agent := (agent (IP := IP)).
Notation read_lines := (read_lines OS_IsValidIP md5 alloc_node alloc_entry).
Notation read_line := (read_line OS_IsValidIP md5 alloc_node alloc_entry).

(** The address that is written, which gives the same address when read. *)
Definition written (ip : cstr * IP) : cstr := match OS_CIDRtoStr ip with Some cidr => cidr | None => ip.1 end.
Definition address_ok (ip : cstr * IP) : Prop :=
  word ip.1 ∧ word (written ip) ∧ ∃ text, OS_IsValidIP (written ip) = Some (text, ip.2) ∧ cut text = ip.1.

(** What a line can hold. *)
Definition fields_ok (id name key : cstr) : Prop :=
  (word id ∧ id ≠ [] ∧ starts [35] id) ∧ (word name ∧ starts [35; 33] name) ∧ Forall text_char key ∧ (length key < KEYSIZE)%nat.
Definition agent_ok (a : agent) : Prop :=
  ∃ key, a_raw a = Some key ∧ fields_ok (a_id a) (a_name a) key ∧ address_ok (a_ip a).
Definition agent_text (a : agent) : list Z := key_text (a_id a) (a_name a) (written (a_ip a)) (default [] (a_raw a)).

(** * Writing *)

Lemma write_ok mode save s xs removed sender mid mip old :
  ks_rep mode save s xs removed sender mid mip → has_raw mode = true →
  OS_WriteKeys OS_CIDRtoStr s true old = Some (0, concat (map agent_text xs.*2) ++ concat (map (λ l, l ++ [10]) removed)).
Proof.
  intros R Hraw. unfold OS_WriteKeys. rewrite (kr_mode _ _ _ _ _ _ _ _ R), (kr_removed _ _ _ _ _ _ _ _ R), (kr_size _ _ _ _ _ _ _ _ R), Hraw.
  assert (∀ n i, (i + n = length xs)%nat → write_loop OS_CIDRtoStr s n i = Some (concat (map agent_text (drop i xs.*2)))) as H.
  { induction n as [|n IH]; intros i Hi; cbn [write_loop].
    - by rewrite drop_ge by (rewrite length_fmap; lia).
    - destruct (lookup_lt_is_Some_2 xs i) as [x Hx]; [lia|]. destruct (rep_entry _ _ _ _ _ _ _ _ R _ _ Hx) as (e & -> & H1 & H2 & H3 & H4 & _).
      destruct (proj2 (kr_raw _ _ _ _ _ _ _ _ R x ltac:(by eapply list_elem_of_lookup_2)) Hraw) as [key Ek].
      cbn [mbind option_bind]. rewrite H1, H2, H3, H4, Ek. cbn [mbind option_bind]. rewrite IH by lia. cbn [mbind option_bind].
      rewrite (drop_S xs.*2 x.2 i) by (by rewrite list_lookup_fmap, Hx). cbn [map concat]. unfold agent_text at 2. by rewrite Ek. }
  cbn [negb]. rewrite H by lia. by rewrite drop_0.
Qed.

(** * Reading *)

Lemma rep_count mode save s a n : rep mode save s a → rep mode save (count_id s n) a.
Proof.
  intros (xs & sender & mid & mip & Ea & R). exists xs, sender, mid, mip. split; [done|]. unfold count_id.
  destruct n; [|done]. destruct (_ <? _); [|done]. by destruct R.
Qed.
Lemma rep_removed mode save s a l : rep mode save s a → rep mode save (save_removed_key s l) (KSpec (sp_agents a) (sp_removed a ++ [l])).
Proof.
  intros (xs & sender & mid & mip & Ea & R). exists xs, sender, mid, mip. split; [done|]. destruct R. split; try done. simpl. congruence.
Qed.
Lemma rep_save mode save s a : rep mode save s a → ks_save_removed s = save.
Proof. intros (xs & sender & mid & mip & _ & R). by destruct R. Qed.

Definition spec_reread (mode : key_mode_t) (l : list agent) (a : agent) : list agent :=
  spec_add md5 mode l (a_id a) (a_name a) (default [] (a_raw a)) (a_ip a).
Definition rebuild (mode : key_mode_t) : list agent → list agent → list agent := foldl (spec_reread mode).

Lemma agent_text_line a : agent_ok a → ∃ t, agent_text a = t ++ [10] ∧ Forall text_char t ∧ (length t < OS_BUFFER_SIZE - 1)%nat.
Proof.
  intros (key & Ek & ((Hid & _) & (Hn & _) & Hk & Hkl) & (_ & Hw & _)). unfold agent_text. rewrite Ek. cbn [default].
  exists (a_id a ++ [32] ++ a_name a ++ [32] ++ written (a_ip a) ++ [32] ++ key).
  assert (∀ s, word s → Forall text_char s) as Hwt by (intros s [Hs _]; eapply Forall_impl; [exact Hs|]; intros c (? & ? & _); done).
  split; [unfold key_text; by rewrite <-!app_assoc|]. split.
  - repeat (apply Forall_app; split); auto; by repeat constructor.
  - destruct Hid, Hn, Hw. rewrite !length_app. unfold OS_BUFFER_SIZE, KEYSIZE in *. cbn [length]. lia.
Qed.

Lemma read_step fuel s t rest s' :
  Forall text_char t → (length t < OS_BUFFER_SIZE - 1)%nat → read_line s (t ++ [10]) = Some (Done s') →
  read_lines (S fuel) s ((t ++ [10]) ++ rest) = read_lines fuel s' rest.
Proof.
  intros Ht Hl Hr. cbn [KeyStore.read_lines]. rewrite <-app_assoc. cbn [app]. rewrite fgets_line by done. by rewrite Hr.
Qed.

Lemma read_agents mode save l fuel rest s acc removed :
  rep mode save s (KSpec acc removed) → Forall agent_ok l → (length l ≤ fuel)%nat →
  ∃ s', read_lines fuel s (concat (map agent_text l) ++ rest) = read_lines (fuel - length l) s' rest ∧
    rep mode save s' (KSpec (rebuild mode acc l) removed).
Proof using alloc_node_fresh alloc_entry_fresh.
  intros Hrep Hl. revert fuel s acc Hrep. induction Hl as [|a l Ha _ IH]; intros fuel s acc Hrep Hf.
  - exists s. simpl. by rewrite Nat.sub_0_r.
  - destruct fuel as [|fuel]; [simpl in Hf; lia|]. cbn [map concat length] in *.
    destruct (agent_text_line a Ha) as (t & Et & Ht & Htl). pose proof Ha as (key & Ek & ((H1 & H2 & H3) & (H4 & H5) & H6 & H7) & (_ & Hw & text & Hv & Hc)).
    destruct (parse_entry _ _ _ _ H1 H2 H3 H4 H5 Hw H6 H7) as [n Hp].
    assert (key_text (a_id a) (a_name a) (written (a_ip a)) key = t ++ [10]) as Et' by (rewrite <-Et; unfold agent_text; by rewrite Ek). rewrite Et' in Hp.
    destruct (rep_count _ _ _ _ n Hrep) as (xs & sender & mid & mip & Ea & R). simpl in Ea.
    destruct (add_ok OS_IsValidIP md5 alloc_node alloc_entry alloc_node_fresh alloc_entry_fresh _ _ _ _ _ _ _ _ (a_id a) (a_name a) _ key 0 text _ R Hv) as (s1 & l1 & mid' & mip' & ag & E & R' & Eq).
    assert (read_line s (t ++ [10]) = Some (Done s1)) as Hrl by (unfold KeyStore.read_line; by rewrite Hp, E).
    destruct (IH fuel s1 (spec_reread mode acc a)) as (s2 & E2 & R2); [|lia|].
    { exists (xs ++ [(l1, ag)]), sender, mid', mip'. split; [|exact R']. simpl. rewrite fmap_app. simpl. rewrite Eq, Hc, Ea. unfold spec_reread.
      rewrite Ek. by destruct (a_ip a). }
    exists s2. rewrite Et, <-app_assoc, (read_step fuel s t _ s1 Ht Htl Hrl). done.
Qed.

Lemma removed_line_text l : removed_ok l → Forall text_char l ∧ (length l < OS_BUFFER_SIZE - 1)%nat.
Proof.
  intros (id & rest & -> & [Hid _] & _ & _ & Hr & Hl). split; [|done]. apply Forall_app. split.
  - eapply Forall_impl; [exact Hid|]. intros c (? & ? & _). done.
  - by repeat constructor.
Qed.
Lemma read_removed mode ls fuel s acc removed :
  rep mode true s (KSpec acc removed) → Forall removed_ok ls → (length ls < fuel)%nat →
  ∃ s', read_lines fuel s (concat (map (λ l, l ++ [10]) ls)) = Some (Done s') ∧ rep mode true s' (KSpec acc (removed ++ ls)).
Proof.
  intros Hrep Hl. revert fuel s removed Hrep. induction Hl as [|l ls Ha _ IH]; intros fuel s removed Hrep Hf.
  - exists s. destruct fuel; [lia|]. by rewrite app_nil_r.
  - destruct fuel as [|fuel]; [simpl in Hf; lia|]. cbn [map concat length] in *.
    destruct (removed_line_text l Ha) as [Ht Htl]. destruct (parse_removed l Ha) as [n Hp].
    pose proof (rep_count _ _ _ _ n Hrep) as Hc. pose proof (rep_removed _ _ _ _ l Hc) as Hs1. simpl in Hs1.
    assert (read_line s (l ++ [10]) = Some (Done (save_removed_key (count_id s n) l))) as Hrl
      by (unfold KeyStore.read_line; rewrite Hp; by rewrite (rep_save _ _ _ _ Hc)).
    destruct (IH fuel _ _ Hs1 ltac:(lia)) as (s2 & E2 & R2). exists s2. rewrite (read_step fuel s l _ _ Ht Htl Hrl). split; [done|].
    by rewrite <-app_assoc in R2.
Qed.
End file.
