(* ===== verification/KeyStoreClaims.v ===== *)
(** The store of the agents' keys: sequences of calls refine the list of agents,
    and the file keeps it. *)

From S2P Require Import Prelude CLib LinkedQueue RBTree RBMap KeyStore KeyStoreSpec KeyFile.

Section claims.
Context {IP : Type} (OS_IsValidIP : cstr → option (cstr * IP)) (OS_IPFound : cstr → cstr * IP → bool).
Context (OS_CIDRtoStr : cstr * IP → option cstr) (md5 : cstr → cstr).
Context (alloc_node : heap rb_node → loc) (alloc_entry : heap (@kentry IP) → loc).
Notation k_exec := (k_exec OS_IsValidIP OS_IPFound md5 alloc_node alloc_entry).
Notation spec_exec := (spec_exec OS_IsValidIP OS_IPFound md5).
Notation rep := (rep (IP := IP)).

(** A sequence of calls, and what it gives on the list. *)
Fixpoint k_run (ops : list kop) (s : keystore) : option (run (list Z * keystore)) :=
  match ops with
  | [] => Some (Done ([], s))
  | o :: ops =>
      r ← k_exec o s;
      match r with
      | Exited => Some Exited
      | Done (x, s) => r ← k_run ops s; Some (match r with Done (xs, s) => Done (x :: xs, s) | Exited => Exited end)
      end
  end.
Fixpoint spec_run (mode : key_mode_t) (save : bool) (ops : list kop) (a : kspec) : list Z * kspec :=
  match ops with
  | [] => ([], a)
  | o :: ops => let '(x, a) := spec_exec mode save o a in let '(xs, a) := spec_run mode save ops a in (x :: xs, a)
  end.

(** The calls that a file can keep. *)
Definition kop_file (o : kop) : Prop :=
  match o with
  | KAdd id name ip key _ =>
      fields_ok id name key ∧ ∃ text addr, OS_IsValidIP ip = Some (text, addr) ∧ address_ok OS_IsValidIP OS_CIDRtoStr (cut text, addr)
  | _ => True
  end.
Notation agent_ok := (agent_ok OS_IsValidIP OS_CIDRtoStr).
Definition file_inv (save : bool) (a : kspec) : Prop :=
  Forall agent_ok (sp_agents a) ∧ Forall removed_ok (sp_removed a) ∧ (save = false → sp_removed a = []).

Lemma removed_line_ok a : agent_ok a → removed_ok (removed_line (a_id a) (a_name a) (a_addr a) (default [] (a_raw a))).
Proof.
  intros (key & -> & ((Hid & Hne & Hs) & (Hn & _) & Hk & Hkl) & (Hip & _)). simpl. unfold removed_line.
  assert (∀ s, word s → Forall text_char s) as Hwt by (intros s [Hw _]; eapply Forall_impl; [exact Hw|]; intros c (? & ? & _); done).
  assert (length (a_id a ++ [32; 33]%Z ++ a_name a ++ [32]%Z ++ a_addr a ++ [32]%Z ++ key) < OS_BUFFER_SIZE - 1)%nat as Hlen.
  { destruct Hid, Hn, Hip. unfold a_addr. rewrite !length_app. unfold OS_BUFFER_SIZE, KEYSIZE in *. cbn [length]. lia. }
  rewrite take_ge by lia. exists (a_id a), (a_name a ++ [32] ++ a_addr a ++ [32] ++ key). split_and!; try done.
  repeat (apply Forall_app; split); auto; try (by repeat constructor).
Qed.
Lemma swap_out_Forall {A} (P : A → Prop) l i : Forall P l → Forall P (swap_out l i).
Proof.
  intros H. unfold swap_out. destruct (_ <? _)%nat; [|by apply Forall_take]. destruct (l !! _) eqn:E; [|done].
  apply Forall_insert; [by apply Forall_take|by eapply Forall_lookup_1].
Qed.
Lemma file_inv_step mode save o a :
  has_raw mode = true → kop_file o → file_inv save a → file_inv save (spec_exec mode save o a).2.
Proof.
  intros Hraw Ho (Ha & Hr & Hs). destruct o as [id name ip key t|id purge|id|ip|name|id srcip]; cbn [KeyStoreSpec.spec_exec].
  - destruct Ho as (Hf & text & addr & -> & Hadr). split_and!; simpl; [|done|done]. unfold spec_add. rewrite Hraw.
    apply Forall_app. split; [done|]. apply Forall_singleton. by exists key.
  - rewrite Hraw. cbn [negb]. destruct (find_pos _ _) as [i|]; [|done]. destruct (sp_agents a !! i) as [x|] eqn:E; [|done].
    split_and!; simpl.
    + apply swap_out_Forall, Forall_fmap. eapply Forall_impl; [exact Ha|]. intros y (key & H). by exists key.
    + destruct (save && negb purge); [|done]. apply Forall_app. split; [done|]. apply Forall_singleton, removed_line_ok. by eapply Forall_lookup_1.
    + intros ->. simpl. by apply Hs.
  - done.
  - done.
  - done.
  - done.
Qed.

Context (alloc_node_fresh : ∀ h, h !! alloc_node h = None) (alloc_entry_fresh : ∀ h, h !! alloc_entry h = None).

Lemma k_run_sim mode save ops s a :
  rep mode save s a → Forall (kop_ok OS_IsValidIP) ops →
  ∃ s', k_run ops s = Some (Done ((spec_run mode save ops a).1, s')) ∧ rep mode save s' (spec_run mode save ops a).2.
Proof using alloc_node_fresh alloc_entry_fresh.
  intros Hrep Hops. revert s a Hrep. induction Hops as [|o ops Ho _ IH]; intros s a Hrep; cbn [k_run spec_run]; [by exists s|].
  destruct (k_sim OS_IsValidIP OS_IPFound md5 alloc_node alloc_entry alloc_node_fresh alloc_entry_fresh mode save o s a Hrep Ho) as (s1 & -> & R1).
  cbn [mbind option_bind]. destruct (spec_exec mode save o a) as [x a1]. destruct (IH s1 a1 R1) as (s2 & E2 & R2). simpl in *. rewrite E2.
  cbn [mbind option_bind]. destruct (spec_run mode save ops a1) as [xs a2]. by exists s2.
Qed.
Lemma file_inv_run mode save ops a :
  has_raw mode = true → Forall kop_file ops → file_inv save a → file_inv save (spec_run mode save ops a).2.
Proof.
  intros Hraw Hops. revert a. induction Hops as [|o ops Ho _ IH]; intros a Ha; cbn [spec_run]; [done|].
  pose proof (file_inv_step mode save o a Hraw Ho Ha) as H1. destruct (spec_exec mode save o a) as [x a1]. specialize (IH a1 H1).
  by destruct (spec_run mode save ops a1).
Qed.

Lemma read_back mode save agents removed stat :
  file_inv save (KSpec agents removed) →
  ∃ s, OS_ReadKeys OS_IsValidIP md5 alloc_node alloc_entry true
      (Some (concat (map (agent_text OS_CIDRtoStr) agents) ++ concat (map (λ l, l ++ [10]) removed), stat)) [] mode save = Some (Done s) ∧
    rep mode save s (KSpec (rebuild md5 mode [] agents) removed).
Proof using alloc_node_fresh alloc_entry_fresh.
  intros (Ha & Hr & Hs). cbn [sp_agents sp_removed] in *. unfold OS_ReadKeys. set (rest := concat (map (λ l, l ++ [10]) removed)).
  set (text := concat (map (agent_text OS_CIDRtoStr) agents) ++ rest).
  assert (length agents + length removed ≤ length text)%nat as Hlen.
  { unfold text, rest. rewrite length_app. clear. induction agents as [|a l IH]; cbn [map concat length app].
    - induction removed as [|r l IH]; cbn [map concat length]; [lia|]. rewrite !length_app. cbn [length] in *. lia.
    - rewrite length_app. unfold agent_text at 1, key_text. rewrite !length_app. cbn [length] in *. lia. }
  destruct (read_agents OS_IsValidIP OS_CIDRtoStr md5 alloc_node alloc_entry alloc_node_fresh alloc_entry_fresh mode save agents
    (S (length text)) rest _ [] [] (rep_empty alloc_entry mode save stat) Ha ltac:(lia)) as (s1 & E1 & R1).
  fold text in E1. rewrite E1. clear E1.
  assert (∃ s, read_lines OS_IsValidIP md5 alloc_node alloc_entry (S (length text) - length agents) s1 rest = Some (Done s) ∧
    rep mode save s (KSpec (rebuild md5 mode [] agents) removed)) as (s & -> & R).
  { unfold rest. destruct save.
    - apply (read_removed OS_IsValidIP md5 alloc_node alloc_entry mode removed _ s1 _ [] R1 Hr). lia.
    - rewrite (Hs eq_refl) in *. destruct (S (length text) - length agents)%nat eqn:E; [simpl in Hlen; lia|]. by exists s1. }
  cbn [mbind option_bind]. rewrite andb_false_r. by exists s.
Qed.

(** What a line of the file holds of an agent. *)
Definition agent_data (a : agent) : cstr * cstr * (cstr * IP) * option cstr := (a_id a, a_name a, a_ip a, a_raw a).
Lemma rebuild_data mode agents acc :
  has_raw mode = true → Forall (λ a, is_Some (a_raw a)) agents →
  agent_data <$> rebuild md5 mode acc agents = (agent_data <$> acc) ++ (agent_data <$> agents).
Proof.
  intros Hraw Ha. revert acc. induction Ha as [|a l [key Hk] _ IH]; intros acc; cbn [rebuild foldl]; [by rewrite app_nil_r|].
  etransitivity; [apply IH|]. unfold spec_reread, spec_add. rewrite fmap_app, <-app_assoc. f_equal. rewrite Hraw, Hk. simpl. f_equal.
  unfold agent_data. simpl. by rewrite Hk.
Qed.


End claims.

(** * Instances *)

Module KeyDemo.
(** Every text but the empty one is an address, which is written as it is. *)
Definition valid (s : cstr) : option (cstr * unit) := match s with [] => None | _ => Some (s, tt) end.
Definition same (s : cstr) (ip : cstr * unit) : bool := bool_decide (s = ip.1).
Definition cidr (ip : cstr * unit) : option cstr := Some ip.1.
Definition digest (s : cstr) : cstr := take 32 (s ++ replicate 32 48).
Definition any : cstr := [97; 110; 121].
Definition id1 : cstr := [48; 48; 49].
Definition id2 : cstr := [48; 48; 50].
Definition add1 : kop := KAdd id1 [119] any [107; 49] 0.
Definition add2 : kop := KAdd id2 [100] any [107; 50] 0.
Definition demo : list kop := [add1; add2; KById id2; KByIp any; KDelete id1 false; KById id2; KByName [119]; KDynamic id2 any].
Definition store0 : @keystore unit := empty_store bump_alloc W_DUAL_KEY true [] (0, 0).
Definition krun := k_run valid same digest bump_alloc bump_alloc.
End KeyDemo.
Import KeyDemo.

Lemma demo_kop_file : Forall (kop_file valid cidr) demo.
Proof.
  assert (∀ s, forallb (λ c, negb (c =? 0) && negb (c =? 10) && negb (c =? 32)) s && (length s <? KEYSIZE)%nat = true → word s) as Hw.
  { intros s [H Hl]%andb_true_iff. apply Nat.ltb_lt in Hl. split; [|done]. apply Forall_forall. intros c Hc.
    rewrite forallb_forall in H. specialize (H c (proj1 (list_elem_of_In _ _) Hc)). rewrite !andb_true_iff, !negb_true_iff, !Z.eqb_neq in H.
    destruct H as [[? ?] ?]. done. }
  assert (∀ id name key, word id → id ≠ [] → starts [35] id → word name → starts [35; 33] name → Forall text_char key → (length key < KEYSIZE)%nat →
    kop_file valid cidr (KAdd id name any key 0)) as Hadd.
  { intros id name key ? ? ? ? ? ? ?. split; [by split_and!|]. exists any, tt. split; [done|]. split_and!; [by apply Hw|by apply Hw|].
    by exists any. }
  assert (∀ l, bool_decide (Forall (λ c, c ≠ 0 ∧ c ≠ 10) l) = true → Forall text_char l) as Ht by (intros l H; by apply bool_decide_eq_true in H).
  assert (∀ bad c l, bool_decide (c ∉ bad) = true → starts bad (c :: l)) as Hst by (intros bad c l H; by apply bool_decide_eq_true in H).
  unfold demo, add1, add2. rewrite !Forall_cons. split_and!; try done; (apply Hadd; [by apply Hw|done|by apply Hst|by apply Hw|by apply Hst|by apply Ht|]);
    simpl; unfold KEYSIZE; lia.
Qed.
Lemma demo_kop_ok : Forall (kop_ok valid) demo.
Proof. repeat constructor; by eexists. Qed.



Definition results (r : option (run (list Z * @keystore unit))) : list Z :=
  match r with Some (Done (xs, _)) => xs | _ => [] end.

(** The results of the sequence above: the second agent moves to the first
    place, and the agent that was deleted is not found by its name. *)
Example keystore_demo : results (krun demo store0) = [0; 1; 1; 0; 0; 0; -1; 0].
Proof. vm_compute. reflexivity. Qed.

(** Deleting an agent hides the other agents that have its address: they are
    still in the store, but are not found by it. *)
Theorem OS_DeleteKey_hides_address :
  results (krun [add1; add2; KByIp any; KDelete id1 false; KById id2; KByIp any] store0) = [0; 1; 0; 0; 0; -1].
Proof. vm_compute. reflexivity. Qed.

(** Reloading the keys files the agents that have no socket under the socket
    -1. *)
Theorem move_netdata_no_socket :
  match krun [add1] store0 with
  | Some (Done (_, s)) =>
      match OS_UpdateKeys valid digest bump_alloc bump_alloc (λ s, s) true (Some (key_text id1 [119] any [107; 49], (1, 1))) s with
      | Some (Done s') => is_Some (mjoin (rbtree_get (ks_keytree_sock s') (strsock (-1)))) ∧ (k_sock <$> entry_at s' 0) = Some (-1)
      | _ => False
      end
  | _ => False
  end.
Proof. vm_compute. split; [by eexists|done]. Qed.

(** The symmetric key has 47 digits, not 48: the half of the first digest is cut
    at its fifteenth digit. *)
Lemma final_key_length md5 id name key : (∀ s, length (md5 s) = 32%nat) → length (final_key md5 id name key) = 47%nat.
Proof. intros H. unfold final_key, KEYSIZE. rewrite take_ge, length_app, length_take, !H; [done|]. rewrite length_app, length_take, !H. simpl. lia. Qed.
