(* ===== verification/AgentOp.v ===== *)
(** What the enrolment of agents shares: the validation of names, identifiers
    and groups (addagent/validate.c, shared/agent_op.c), the comparison of
    versions (shared/version_op.c), the addition of a new agent and the hash of
    a key.

    The clock, the random numbers and the name of the system are given; the
    digests are parameters. *)

From Stdlib Require Ascii.
From Stdlib Require Import (notations) String.
From S2P Require Import Prelude CLib RBTree KeyStore.

(** The bytes of a literal. *)
Definition lit (s : String.string) : cstr := (λ a, Z.of_N (Ascii.N_of_ascii a)) <$> String.list_ascii_of_string s.
Notation "$ s" := (lit s%string) (at level 1, format "$ s").

Definition OS_SIZE_2048 : nat := 2048.
Definition IPSIZE : nat := 46.
Definition MAX_GROUP_NAME : nat := 255.
Definition MAX_GROUPS_PER_MULTIGROUP : nat := 128.
Definition STR_SIZE : nat := 66.

(** [snprintf] of a text. *)
Definition snprintf (size : nat) (text : cstr) : cstr := take (size - 1) text.
(** ["%d"] *)
Definition fmt_d (n : Z) : cstr := if n <? 0 then 45 :: digits 20 (- n) else digits 20 n.
(** ["%03d"] *)
Definition fmt_03d (n : Z) : cstr := if n <? 0 then 45 :: zeros 2 (digits 20 (- n)) else zeros 3 (digits 20 n).

(** [strncmp(s, t, strlen(t)) == 0] *)
Definition starts_with (s t : cstr) : bool := strncmp s t (length t) =? 0.

(** * Names and identifiers *)

Definition isalnum (c : Z) : bool := isdigit c || ((65 <=? c) && (c <=? 90)) || ((97 <=? c) && (c <=? 122)).
Definition name_char (c : Z) : bool := isalnum c || (c =? 45) || (c =? 95) || (c =? 46).

Definition OS_IsValidName (u_name : cstr) : bool :=
  let n := length u_name in
  if (n <? 2)%nat || (128 <? n)%nat then false else forallb name_char u_name.

(** [strspn] finds the first character that is not allowed, which is cut out. *)
Fixpoint convert_loop (fuel : nat) (u_name : cstr) : option cstr :=
  match fuel with
  | O => None
  | S fuel =>
      match span name_char u_name with
      | (_, []) => Some u_name
      | (a, _ :: b) => convert_loop fuel (a ++ b)
      end
  end.
Definition OS_ConvertToValidAgentName (u_name : cstr) : option cstr := convert_loop (S (length u_name)) u_name.

Definition OS_IsValidID (id : option cstr) : bool :=
  match id with None => false | Some id => if (8 <? length id)%nat then false else forallb isdigit id end.

(** * Groups *)

(** The tokens of [strtok_r]. *)
Fixpoint tokens (fuel : nat) (s delim : cstr) : list cstr :=
  match fuel with
  | O => []
  | S fuel => match strtok_r s delim with Some (t, s) => t :: tokens fuel s delim | None => [] end
  end.
Definition all_tokens (s delim : cstr) : list cstr := tokens (S (length s)) s delim.

Definition group_char (multigroup : bool) (c : Z) : bool :=
  isalnum c || bool_decide (c ∈ $".:;_-=+!@()") || (multigroup && (c =? 44)).

Definition group_error (what : cstr) (why : cstr) : cstr := snprintf 2048 ($"ERROR: Invalid group name: " ++ take 255 what ++ $"... " ++ why).

(** The first of the groups that is refused: a space, or too long. *)
Fixpoint check_tokens (group : cstr) (ts : list cstr) : option (Z * cstr) :=
  match ts with
  | [] => None
  | t :: ts =>
      match strchr t 32 with
      | Some _ => Some (-4, group_error group ($"white spaces are not allowed"))
      | None =>
          if (MAX_GROUP_NAME <? length t)%nat then Some (-7, group_error t ($"group is too large"))
          else check_tokens group ts
      end
  end.

(** The result and, when it is negative, the response. *)
Definition w_validate_group_name (group : cstr) : Z * cstr :=
  let multigroup := match strchr group 44 with Some _ => true | None => false end in
  let n := length group in
  if (n =? 0)%nat then (-8, $"ERROR: Invalid group name: Empty Group")
  else if negb multigroup && (MAX_GROUP_NAME <? n)%nat then (-2, group_error group ($"group is too large"))
  else if multigroup && (65535 <? Z.of_nat n) then (-3, group_error group ($"multigroup is too large"))
  else
    let comas := length (filter (λ c, c = 44) group) in
    match (if multigroup then
        match check_tokens group (all_tokens (take (Z.to_nat 65535) group) [44]) with
        | Some e => Some e
        | None => match strstr group [44; 44] with
                  | Some _ => Some (-5, group_error group ($"consecutive ',' are not allowed"))
                  | None => None
                  end
        end
      else None) with
    | Some e => e
    | None =>
        if (comas =? n)%nat then (-1, group_error group ($"characters '\/:*?" ++ [34] ++ $"<>|,' are prohibited"))
        else if (match group with c :: _ => c =? 44 | [] => false end) || (match last group with Some c => c =? 44 | None => false end) then
          (-6, group_error group ($"cannot start or end with ','"))
        else if negb (length (span (group_char multigroup) group).1 =? n)%nat then
          (-1, group_error group ($"characters '\/:*?" ++ [34] ++ $"<>|,' are prohibited"))
        else (0, [])
    end.

(** * Versions *)

(** A version in a buffer of ten bytes of which nine are copied: the tenth is not
    set, so a text of nine characters or more has no end. *)
Definition version_parts (version : cstr) : option (Z * Z * Z) :=
  if (9 <=? length version)%nat then None
  else
    let tmp := match strchr version 118 with Some (_, b) => drop 1 b | None => version end in
    Some (match strtok_r tmp [46] with
          | None => (0, 0, 0)
          | Some (major, tmp) =>
              match strtok_r tmp [46] with
              | None => (atoi major, 0, 0)
              | Some (minor, tmp) =>
                  match strtok_r tmp [46] with
                  | None => (atoi major, atoi minor, 0)
                  | Some (patch, _) => (atoi major, atoi minor, atoi patch)
                  end
              end
          end).
Definition sign_of (a b : Z) : Z := if b <? a then 1 else if a <? b then -1 else 0.
Definition compare_wazuh_versions (version1 version2 : option cstr) (compare_patch : bool) : option Z :=
  '(major1, minor1, patch1) ← (match version1 with Some v => version_parts v | None => Some (0, 0, 0) end);
  '(major2, minor2, patch2) ← (match version2 with Some v => version_parts v | None => Some (0, 0, 0) end);
  Some (if negb (sign_of major1 major2 =? 0) then sign_of major1 major2
        else if negb (sign_of minor1 minor2 =? 0) then sign_of minor1 minor2
        else if compare_patch then sign_of patch1 patch2 else 0).

(** * New agents *)

(** The clock, two numbers of [os_random] and the name of the system. *)
Record world := World { w_now : Z; w_rand1 : Z; w_rand2 : Z; w_uname : cstr }.

Section new_agent.
Context {IP : Type} (OS_IsValidIP : cstr → option (cstr * IP)) (md5 sha1 : cstr → cstr).
Context (alloc_node : heap rb_node → loc) (alloc_entry : heap (@kentry IP) → loc).

(** A key that is made up. *)
Definition new_key (w : world) (id name ip : cstr) : cstr :=
  let str1 := snprintf STR_SIZE (fmt_d (int32 (w_now w)) ++ name ++ fmt_d (w_rand1 w) ++ w_uname w) in
  let str2 := snprintf STR_SIZE (ip ++ id ++ fmt_d (w_rand2 w)) in
  snprintf KEYSIZE (md5 str1 ++ md5 str2).

(** The identifier, given or the next one, with the counter. *)
Definition new_id (s : @keystore IP) (id : option cstr) : option (cstr * keystore) :=
  match id with
  | None =>
      if ks_id_counter s =? 2147483647 then None
      else let n := ks_id_counter s + 1 in Some (snprintf 12 (fmt_03d n), with_counter s n)
  | Some id =>
      let '(v, rest, _) := strtol id in
      Some (id, match rest with [] => if ks_id_counter s <? int32 v then with_counter s (int32 v) else s | _ => s end)
  end.

Definition OS_AddNewAgent (w : world) (s : keystore) (id : option cstr) (name ip : cstr) (key : option cstr) : option (run (Z * keystore)) :=
  '(id, s) ← new_id s id;
  OS_AddKey OS_IsValidIP md5 alloc_node alloc_entry s id name ip (match key with Some k => k | None => new_key w id name ip end) (w_now w).

(** [w_get_key_hash]; without the fields the output is not set. *)
Definition w_get_key_hash (e : @kentry IP) : option cstr :=
  id ← k_id e; name ← k_name e; key ← k_raw_key e; Some (sha1 (id ++ name ++ key)).
End new_agent.

Example agent_op_smoke :
  OS_IsValidName ($"web-01.x") = true ∧ OS_IsValidName ($"a b") = false ∧ OS_ConvertToValidAgentName ($"a b/c") = Some ($"abc") ∧
  w_validate_group_name ($"default,web") = (0, []) ∧ (w_validate_group_name ($"a,,b")).1 = -5 ∧ (w_validate_group_name ($"a b,c")).1 = -4 ∧
  (w_validate_group_name ($",a")).1 = -6 ∧ (w_validate_group_name ($",")).1 = -1 ∧ (w_validate_group_name ($"a/b")).1 = -1 ∧
  compare_wazuh_versions (Some ($"v5.0.0")) (Some ($"v4.14.1")) false = Some 1 ∧
  compare_wazuh_versions (Some ($"v5.0.0")) (Some ($"v5.0.1")) true = Some (-1) ∧
  compare_wazuh_versions (Some ($"v5.0.0")) (Some ($"v10.10.100")) false = None ∧ fmt_03d 7 = $"007" ∧ fmt_03d 1234 = $"1234".
Proof. vm_compute. done. Qed.
