(* ===== verification/Auth.v ===== *)
(** The enrolment of agents on the manager: os_auth/auth.c, the requests on the
    local socket (os_auth/local-server.c) and the handling of a client's message
    (os_auth/main-server.c), over the key store.

    The database of agents, the directories of the groups, the validation of
    addresses and the digests are parameters.  A request on the local socket is
    its arguments, and its JSON answer is a value; the messages of the log are
    left out.  Each function that takes [mutex_keys] is one step. *)

From Stdlib Require Import (notations) String.
From S2P Require Import Prelude CLib OsStr StringOp RBTree KeyStore AgentOp.

(** [w_err_t] *)
Inductive w_err_t := OS_SUCCESS | OS_INVALID.

(** [authd_force_options_t] *)
Record force_options := ForceOptions {
  f_enabled : bool; f_key_mismatch : bool; f_disconnected_time_enabled : bool; f_disconnected_time : Z; f_after_registration_time : Z
}.
(** What is used of [config], with [authpass] and [shost]. *)
Record authd_config := AuthdConfig {
  c_force_options : force_options; c_use_source_ip : bool; c_allow_higher_versions : bool; c_authpass : option cstr; c_shost : cstr
}.
(** The items of the answer of [wdb_get_agent_info]. *)
Record agent_info := AgentInfo { ai_connection_status : option cstr; ai_disconnection_time : option Z; ai_date_add : option Z }.

Definition ossec_version : cstr := $"v5.0.0".
Definition MAX_SSL_MSG_SIZE : nat := Z.to_nat (65536 + 4096).
Definition PATH_MAX : nat := 4096.

(** [struct keynode] *)
Record keynode := KeyNode { kn_id : cstr; kn_name : cstr; kn_ip : cstr; kn_raw_key : option cstr; kn_group : option cstr }.

(** The fields of [struct client] that are used here. *)
Record client := Client {
  cl_ip : cstr; cl_agentname : option cstr; cl_centralized_group : option cstr; cl_new_id : option cstr; cl_enrollment_ok : bool;
  cl_write_buffer : cstr
}.

(** * The request *)

(** [sscanf] of a field between quotes whose opening quote is at [q]: the
    characters up to one of [stop], at most [max] of them; nothing when the
    quote is missing. *)
Definition scan_quoted (buf : list Z) (q : nat) (stop : Z → bool) (max : nat) : cstr :=
  match cstring (drop q buf) with
  | c :: rest => if c =? 39 then take max (span (λ d, negb (stop d)) rest).1 else []
  | [] => []
  end.
Definition quote (c : Z) : bool := c =? 39.
Definition text_at (buf : list Z) (i : nat) : cstr := cstring (drop i buf).

(** The answer of [w_auth_parse_data]: an error with its response, or the fields
    of the request. *)
Inductive parsed :=
  | PError (response : cstr)
  | PRequest (ip agentname : cstr) (groups key_hash : option cstr).

Section auth.
Context {IP : Type} (OS_IsValidIP : cstr → option (cstr * IP)) (md5 sha1 : cstr → cstr).
Context (alloc_node : heap rb_node → loc) (alloc_entry : heap (@kentry IP) → loc).
Context (wdb_get_agent_info : Z → option agent_info) (opendir : cstr → bool).

(** The password: where the request goes on, if it is right. *)
Definition parse_pass (buf : list Z) (authpass : option cstr) : option nat :=
  match authpass with
  | None => Some 0%nat
  | Some pass =>
      if starts_with (text_at buf 0) ($"OSSEC PASS: ") then
        if (length pass <? length (text_at buf 12))%nat && starts_with (text_at buf 12) pass then
          match text_at buf (12 + length pass) with
          | 32 :: _ => Some (13 + length pass)%nat
          | _ => None
          end
        else None
      else None
  end.

(** The name: it and where the request goes on. *)
Definition parse_name (buf : list Z) (i : nat) : option (cstr * nat) :=
  if starts_with (text_at buf i) ($"OSSEC A:'") then
    match strchr (text_at buf (i + 9)) 39 with
    | Some (name, _) => Some (name, (i + 9 + length name + 1)%nat)
    | None => None
    end
  else None.

(** The fields after the name.  [buf] is the whole receive buffer: a field may be
    looked for behind the end of the request. *)
Definition parse_version (cfg : authd_config) (buf : list Z) (i : nat) : option (cstr + nat) :=
  if starts_with (text_at buf i) ($" V:") then
    let version := scan_quoted buf (i + 3) quote 2048 in
    c ← buf !! (i + length version + 4)%nat;
    if negb (c =? 39) then Some (inl ($"ERROR: Unterminated version field"))
    else
      low ← (if c_allow_higher_versions cfg then Some false
             else r ← compare_wazuh_versions (Some ossec_version) (Some version) false; Some (r <? 0));
      if low : bool then Some (inl ($"ERROR: " ++ $"Agent version must be lower or equal to manager version"))
      else Some (inr (i + length version + 5)%nat)
  else Some (inr i).

Definition parse_groups (buf : list Z) (i : nat) : option (cstr + option cstr * nat) :=
  if starts_with (text_at buf i) ($" G:") then
    let groups := scan_quoted buf (i + 3) quote (Z.to_nat 65536) in
    c ← buf !! (i + length groups + 4)%nat;
    if negb (c =? 39) then Some (inl ($"ERROR: Unterminated group field"))
    else
      let '(r, response) := w_validate_group_name groups in
      if r <? 0 then Some (inl response)
      else
        g ← wstr_delete_repeated_groups groups;
        match g with
        | None => Some (inl ($"ERROR: Insuficient memory"))
        | Some g => Some (inr (Some g, (i + length groups + 5)%nat))
        end
  else Some (inr (None, i)).

Definition parse_ip (cfg : authd_config) (buf : list Z) (i : nat) (ip : cstr) : option (cstr + cstr * nat) :=
  if starts_with (text_at buf i) ($" IP:") then
    let source := scan_quoted buf (i + 4) (λ c, (c =? 39) || (c =? 32)) IPSIZE in
    c ← buf !! (i + length source + 5)%nat;
    if negb (c =? 39) then Some (inl ($"ERROR: Unterminated IP field"))
    else if starts_with source ($"src") then Some (inr (ip, (i + length source + 6)%nat))
    else
      match OS_IsValidIP source with
      | None => Some (inl (snprintf OS_SIZE_2048 ($"ERROR: Invalid IP: " ++ source)))
      | Some (text, _) => Some (inr (snprintf IPSIZE text, (i + length source + 6)%nat))
      end
  else Some (inr (if c_use_source_ip cfg then ip else $"any", i)).

Definition parse_hash (buf : list Z) (i : nat) : option (cstr + option cstr) :=
  if starts_with (text_at buf i) ($" K:") then
    let hash := scan_quoted buf (i + 3) quote 40 in
    c ← buf !! (i + length hash + 4)%nat;
    if negb (c =? 39) then Some (inl ($"ERROR: Unterminated key field")) else Some (inr (Some hash))
  else Some (inr None).

Definition w_auth_parse_data (cfg : authd_config) (buf : list Z) (ip : cstr) : option parsed :=
  match parse_pass buf (c_authpass cfg) with
  | None => Some (PError ($"ERROR: Invalid password"))
  | Some i =>
      match parse_name buf i with
      | None => Some (PError ($"ERROR: Invalid request for new agent"))
      | Some (agentname, i) =>
          if negb (OS_IsValidName agentname) then Some (PError (snprintf OS_SIZE_2048 ($"ERROR: Invalid agent name: " ++ agentname)))
          else
            r ← parse_version cfg buf i;
            match r with inl e => Some (PError e) | inr i =>
              r ← parse_groups buf i;
              match r with inl e => Some (PError e) | inr (groups, i) =>
                r ← parse_ip cfg buf i ip;
                match r with inl e => Some (PError e) | inr (ip, i) =>
                  r ← parse_hash buf i;
                  match r with inl e => Some (PError e) | inr key_hash => Some (PRequest ip agentname groups key_hash) end
                end
              end
            end
      end
  end.

(** * The store and its pending changes *)

Record authd := Authd { ad_keys : @keystore IP; ad_insert : list keynode; ad_remove : list keynode; ad_write_pending : bool }.
Definition with_keys (st : authd) (s : keystore) : authd := Authd s (ad_insert st) (ad_remove st) (ad_write_pending st).

Definition node_of (e : @kentry IP) (raw group : option cstr) : option keynode :=
  id ← k_id e; name ← k_name e; ip ← k_ip e; Some (KeyNode id name ip.1 raw group).
Definition add_insert (st : authd) (e : @kentry IP) (group : option cstr) : option authd :=
  key ← k_raw_key e; n ← node_of e (Some key) group;
  Some (Authd (ad_keys st) (ad_insert st ++ [n]) (ad_remove st) (ad_write_pending st)).
Definition add_remove (st : authd) (e : @kentry IP) : option authd :=
  n ← node_of e None None; Some (Authd (ad_keys st) (ad_insert st) (ad_remove st ++ [n]) (ad_write_pending st)).
Definition set_pending (st : authd) : authd := Authd (ad_keys st) (ad_insert st) (ad_remove st) true.

(** Whether an agent with these data can be replaced. *)
Definition long_disconnected (now : Z) (f : force_options) (status : cstr) (disconnection_time : Z) : bool :=
  if negb (f_disconnected_time_enabled f) then true
  else if strcmp status ($"never_connected") =? 0 then true
  else if (strcmp status ($"disconnected") =? 0) && (0 <? disconnection_time) && (now - disconnection_time <? f_disconnected_time f) then false
  else negb (disconnection_time =? 0).
Definition old_enough (now : Z) (f : force_options) (date_add : Z) : bool :=
  if 0 <? f_after_registration_time f then negb (now - date_add <? f_after_registration_time f) else true.
Definition other_key (f : force_options) (e : @kentry IP) (key_hash : option cstr) : option bool :=
  match key_hash with
  | Some h => if f_key_mismatch f then mine ← w_get_key_hash sha1 e; Some (negb (strcmp mine h =? 0)) else Some true
  | None => Some true
  end.

Definition w_auth_replace_agent (w : world) (st : authd) (e : @kentry IP) (key_hash : option cstr) (f : force_options)
    : option (w_err_t * authd) :=
  if negb (f_enabled f) then Some (OS_INVALID, st)
  else
    id ← k_id e;
    match wdb_get_agent_info (atoi id) with
    | Some (AgentInfo (Some status) (Some disc) (Some date)) =>
        let replace := long_disconnected (w_now w) f status disc in
        let replace := replace && old_enough (w_now w) f date in
        replace ← (if replace then other_key f e key_hash else Some false);
        if replace : bool then
          st ← add_remove st e;
          '(_, s) ← OS_DeleteKey (ad_keys st) id false;
          Some (OS_SUCCESS, with_keys st s)
        else Some (OS_INVALID, st)
    | _ => Some (OS_INVALID, st)
    end.

(** [w_auth_validate_groups]: the result, and the response when it fails. *)
Fixpoint check_groups (n : nat) (gs : list cstr) : w_err_t * cstr :=
  match gs with
  | [] => (OS_SUCCESS, [])
  | g :: gs =>
      if (MAX_GROUPS_PER_MULTIGROUP <? S n)%nat then (OS_INVALID, $"ERROR: Maximum multigroup reached: Limit is 128")
      else if negb (opendir (snprintf (PATH_MAX + 1) ($"etc/shared" ++ $"/" ++ g))) then
        (OS_INVALID, snprintf OS_SIZE_2048 ($"ERROR: Invalid group: " ++ g))
      else check_groups (S n) gs
  end.
Definition w_auth_validate_groups (groups : cstr) : w_err_t * cstr := check_groups 0 (all_tokens groups [44]).

(** An agent that is in the way, at [index], is replaced or the request is
    refused. *)
Definition replace_at (w : world) (st : authd) (index : Z) (key_hash : option cstr) (f : force_options) : option (w_err_t * authd) :=
  if 0 <=? index then e ← entry_at (ad_keys st) (Z.to_nat index); w_auth_replace_agent w st e key_hash f
  else Some (OS_SUCCESS, st).

Definition w_auth_validate_data (w : world) (cfg : authd_config) (st : authd) (ip agentname : cstr) (groups key_hash : option cstr)
    : option (w_err_t * cstr * authd) :=
  let '(r, response) := match groups with Some g => w_auth_validate_groups g | None => (OS_SUCCESS, []) end in
  match r with
  | OS_INVALID => Some (OS_INVALID, response, st)
  | OS_SUCCESS =>
      '(r, st) ← (if negb (strcmp ip ($"any") =? 0) then
          index ← OS_IsAllowedIP (ad_keys st) (Some ip); replace_at w st index key_hash (c_force_options cfg)
        else Some (OS_SUCCESS, st));
      match r with
      | OS_INVALID => Some (OS_INVALID, snprintf OS_SIZE_2048 ($"ERROR: Duplicate IP: " ++ ip), st)
      | OS_SUCCESS =>
          if strcmp agentname (c_shost cfg) =? 0 then
            Some (OS_INVALID, snprintf OS_SIZE_2048 ($"ERROR: Invalid agent name: " ++ agentname), st)
          else
            index ← OS_IsAllowedName (ad_keys st) agentname;
            '(r, st) ← replace_at w st index key_hash (c_force_options cfg);
            match r with
            | OS_INVALID => Some (OS_INVALID, snprintf OS_SIZE_2048 ($"ERROR: Duplicate agent name: " ++ agentname), st)
            | OS_SUCCESS => Some (OS_SUCCESS, [], st)
            end
      end
  end.

(** [w_auth_add_agent]: the identifier and the key, or the response. *)
Definition w_auth_add_agent (w : world) (st : authd) (ip agentname : cstr) : option (run (cstr + cstr * cstr) * authd) :=
  r ← OS_AddNewAgent OS_IsValidIP md5 alloc_node alloc_entry w (ad_keys st) None agentname ip None;
  match r with
  | Exited => Some (Exited, st)
  | Done (index, s) =>
      if index <? 0 then
        Some (Done (inl (snprintf OS_SIZE_2048 ($"ERROR: Internal manager error adding agent: " ++ agentname))), with_keys st s)
      else
        e ← entry_at s (Z.to_nat index); id ← k_id e; key ← k_raw_key e;
        Some (Done (inr (id, key)), with_keys st s)
  end.

(** [process_message], on the node that keeps the keys. *)
Definition refuse (c : client) (agentname groups : option cstr) (ip response : cstr) : client :=
  Client ip agentname groups (cl_new_id c) false (snprintf MAX_SSL_MSG_SIZE (response ++ $". " ++ $"Unable to add agent")).
Definition process_message (w : world) (cfg : authd_config) (st : authd) (c : client) (buf : list Z) : option (run (client * authd)) :=
  r ← w_auth_parse_data cfg buf (cl_ip c);
  match r with
  | PError response => Some (Done (refuse c (cl_agentname c) (cl_centralized_group c) (cl_ip c) response, st))
  | PRequest ip agentname groups key_hash =>
      '(r, response, st) ← w_auth_validate_data w cfg st ip agentname groups key_hash;
      match r with
      | OS_INVALID => Some (Done (refuse c (Some agentname) groups ip response, st))
      | OS_SUCCESS =>
          '(r, st) ← w_auth_add_agent w st ip agentname;
          match r with
          | Exited => Some Exited
          | Done (inl response) => Some (Done (refuse c (Some agentname) groups ip response, st))
          | Done (inr (id, key)) =>
              Some (Done (Client ip (Some agentname) groups (Some id) true
                (snprintf MAX_SSL_MSG_SIZE ($"OSSEC K:'" ++ id ++ [32] ++ agentname ++ [32] ++ ip ++ [32] ++ key ++ $"'")), st))
          end
      end
  end.

(** [enqueue_pending_key], when the answer was sent or sending it failed. *)
Definition enqueue_pending_key (st : authd) (ret : Z) (c : client) : option authd :=
  if cl_enrollment_ok c then
    let s := ad_keys st in
    if (ks_keysize s =? 0)%nat then None
    else
      e ← entry_at s (ks_keysize s - 1);
      if ret <? 0 then
        id ← k_id e; '(_, s) ← OS_DeleteKey s id true; Some (with_keys st s)
      else
        st ← add_insert st e (cl_centralized_group c); Some (set_pending st)
  else Some st.

(** * The local socket *)

(** [auth_local_err] *)
Inductive auth_local_err := EINTERNAL | EJSON | ENOFUNCTION | ENOARGUMENT | ENONAME | ENOIP | EDUPIP | EDUPNAME | EKEY | ENOID
  | ENOAGENT | EDUPID | EAGLIM | EINVGROUP | ENOMASTER.
Definition ERRORS (e : auth_local_err) : Z :=
  match e with
  | EINTERNAL => 9001 | EJSON => 9002 | ENOFUNCTION => 9003 | ENOARGUMENT => 9004 | ENONAME => 9005 | ENOIP => 9006
  | EDUPIP => 9007 | EDUPNAME => 9008 | EKEY => 9009 | ENOID => 9010 | ENOAGENT => 9011 | EDUPID => 9012
  | EAGLIM => 9013 | EINVGROUP => 9014 | ENOMASTER => 9015
  end.
(** The answers of [local_create_agent_response], [..._delete_response] and
    [..._error_response]. *)
Inductive local_response := RAgent (id name ip key : cstr) | RDeleted | RError (code : Z).
Definition fail (e : auth_local_err) : local_response := RError (ERRORS e).

(** The check for an agent with the same address: an error, or the address that
    is added. *)
Definition local_ip (w : world) (st : authd) (ip : cstr) (key_hash : option cstr) (f : force_options) : option (option auth_local_err * cstr * authd) :=
  if negb (strcmp ip ($"any") =? 0) then
    match OS_IsValidIP ip with
    | None => Some (Some ENOIP, ip, st)
    | Some (text, _) =>
        let ip := take IPSIZE text in
        index ← OS_IsAllowedIP (ad_keys st) (Some ip);
        '(r, st) ← replace_at w st index key_hash f;
        Some (match r with OS_SUCCESS => None | OS_INVALID => Some EDUPIP end, ip, st)
    end
  else Some (None, take IPSIZE ip, st).

Definition local_add (w : world) (cfg : authd_config) (st : authd) (id : option cstr) (name ip : cstr) (groups key key_hash : option cstr)
    (f : force_options) : option (run (local_response * authd)) :=
  match (match groups with Some g => (w_auth_validate_groups g).1 | None => OS_SUCCESS end) with
  | OS_INVALID => Some (Done (fail EINVGROUP, st))
  | OS_SUCCESS =>
      index ← (match id with Some id => OS_IsAllowedID (ad_keys st) (Some id) | None => Some (-1) end);
      '(r, st) ← replace_at w st index key_hash f;
      match r with
      | OS_INVALID => Some (Done (fail EDUPID, st))
      | OS_SUCCESS =>
          '(r, ip, st) ← local_ip w st ip key_hash f;
          match r with
          | Some e => Some (Done (fail e, st))
          | None =>
              if strcmp name (c_shost cfg) =? 0 then Some (Done (fail EDUPNAME, st))
              else
                index ← OS_IsAllowedName (ad_keys st) name;
                '(r, st) ← replace_at w st index key_hash f;
                match r with
                | OS_INVALID => Some (Done (fail EDUPNAME, st))
                | OS_SUCCESS =>
                    r ← OS_AddNewAgent OS_IsValidIP md5 alloc_node alloc_entry w (ad_keys st) id name ip key;
                    match r with
                    | Exited => Some Exited
                    | Done (index, s) =>
                        if index <? 0 then Some (Done (fail EKEY, with_keys st s))
                        else
                          e ← entry_at s (Z.to_nat index);
                          st ← add_insert (with_keys st s) e groups;
                          eid ← k_id e; key ← k_raw_key e;
                          Some (Done (RAgent eid name ip key, set_pending st))
                    end
                end
          end
      end
  end.

Definition local_remove (st : authd) (id : cstr) (purge : bool) : option (local_response * authd) :=
  index ← OS_IsAllowedID (ad_keys st) (Some id);
  if index <? 0 then Some (fail ENOAGENT, st)
  else
    e ← entry_at (ad_keys st) (Z.to_nat index);
    st ← add_remove st e;
    '(_, s) ← OS_DeleteKey (ad_keys st) id purge;
    Some (RDeleted, set_pending (with_keys st s)).

Definition local_get (st : authd) (id : cstr) : option local_response :=
  index ← OS_IsAllowedID (ad_keys st) (Some id);
  if index <? 0 then Some (fail ENOAGENT)
  else
    e ← entry_at (ad_keys st) (Z.to_nat index);
    name ← k_name e; ip ← k_ip e; key ← k_raw_key e; Some (RAgent id name ip.1 key).
End auth.
