(* ===== verification/Enroll.v ===== *)
(** The enrolment of an agent, on the agent (shared/enrollment_op.c): the request
    for a key, and the answer of the manager, from which the file of keys is
    written.

    The connection is left out: what is written and read through it is a value. *)

From Stdlib Require Import (notations) String.
From S2P Require Import Prelude CLib OsStr RBTree KeyStore AgentOp.

(** The fields of [w_enrollment_ctx] that are used, with those of its target and
    certificate. *)
Record enrollment := Enrollment {
  e_agent_name : option cstr; e_centralized_group : option cstr; e_sender_ip : option cstr; e_use_src_ip : bool;
  e_authpass : option cstr; e_agent_version : option cstr; e_allow_localhost : bool
}.

(** The request buffer has one more byte, for the terminator. *)
Definition REQUEST_SIZE : nat := Z.to_nat (65536 + 4096).

(** [strncat] into the request buffer. *)
Definition cat (buff s : cstr) (n : nat) : option cstr :=
  let s := take n s in if (length buff + length s <=? REQUEST_SIZE)%nat then Some (buff ++ s) else None.

Section enroll.
Context {IP : Type} (OS_IsValidIP : cstr → option (cstr * IP)) (sha1 : cstr → cstr).

(** [hostname] is that of [gethostname], if it works. *)
Definition w_enrollment_extract_agent_name (cfg : enrollment) (hostname : option cstr) : option (option cstr) :=
  lhostname ← (match e_agent_name cfg with
    | Some name => Some (Some name)
    | None => match hostname with Some h => h ← OS_ConvertToValidAgentName (take 511 h); Some (Some h) | None => Some None end
    end);
  Some (name ← lhostname;
        if negb (e_allow_localhost cfg) && (strcmp name ($"localhost") =? 0) then None
        else if OS_IsValidName name then Some name else None).

Definition w_enrollment_concat_agent_version (buff agent_version : cstr) : option cstr :=
  cat buff (snprintf 32 ($" V:'" ++ agent_version ++ $"'")) 32.
Definition w_enrollment_concat_group (buff centralized_group : cstr) : option cstr :=
  cat buff (snprintf (Z.to_nat 65536) ($" G:'" ++ centralized_group ++ $"'")) (Z.to_nat 65536).
(** The buffer, or nothing when the options are not valid. *)
Definition w_enrollment_concat_src_ip (buff : cstr) (remain_size : nat) (sender_ip : option cstr) (use_src_ip : bool) : option (option cstr) :=
  match sender_ip, use_src_ip with
  | Some ip, false =>
      match OS_IsValidIP ip with
      | Some _ => b ← cat buff (snprintf 254 ($" IP:'" ++ ip ++ $"'")) (remain_size - 1); Some (Some b)
      | None => Some None
      end
  | None, true => b ← cat buff (snprintf 10 ($" IP:'src'")) 10; Some (Some b)
  | Some _, true => Some None
  | None, false => Some (Some buff)
  end.
(** A key without its fields gives no hash: the output would be read unset. *)
Definition w_enrollment_concat_key (buff : cstr) (key_entry : @kentry IP) : option cstr :=
  h ← w_get_key_hash sha1 key_entry;
  let opt := snprintf 512 ($" K:'" ++ h ++ $"'") in
  if (length buff <? REQUEST_SIZE)%nat then cat buff opt (REQUEST_SIZE - length buff) else Some buff.

(** The message of [w_enrollment_send_message], if there is one; [key] is the
    first key of the store, if it has any. *)
Definition w_enrollment_send_message (cfg : enrollment) (hostname : option cstr) (key : option (@kentry IP)) : option (option cstr) :=
  name ← w_enrollment_extract_agent_name cfg hostname;
  match name with
  | None => Some None
  | Some name =>
      let buf := snprintf 2048 (match e_authpass cfg with
        | Some p => $"OSSEC PASS: " ++ p ++ $" OSSEC A:'" ++ name ++ $"'"
        | None => $"OSSEC A:'" ++ name ++ $"'"
        end) in
      buf ← (match e_agent_version cfg with Some v => w_enrollment_concat_agent_version buf v | None => Some buf end);
      buf ← (match e_centralized_group cfg with Some g => w_enrollment_concat_group buf g | None => Some buf end);
      r ← w_enrollment_concat_src_ip buf (REQUEST_SIZE - length buf) (e_sender_ip cfg) (e_use_src_ip cfg);
      match r with
      | None => Some None
      | Some buf =>
          buf ← (match key with Some k => w_enrollment_concat_key buf k | None => Some buf end);
          buf ← cat buf [10] 1;
          Some (Some buf)
      end
  end.

(** [w_enrollment_process_agent_key]: the status and the file of keys, if it was
    written; [stored] tells whether it could be.  A piece that is missing is a
    null pointer, of which [OS_IsValidName] takes the length. *)
Definition w_enrollment_process_agent_key (buffer : cstr) (stored : bool) : option (Z * option cstr) :=
  if (length buffer <=? 9)%nat then None
  else
    match strchr (drop 9 buffer) 39 with
    | None => Some (-1, None)
    | Some (keys, _) =>
        r ← OS_StrBreak 32 (Some keys) 4; entrys ← r;
        name_ok ← (if OS_IsValidID (entrys !! 0%nat) then name ← entrys !! 1%nat; Some (OS_IsValidName name) else Some false);
        let ip_ok := name_ok && match entrys !! 2%nat with Some ip => match OS_IsValidIP ip with Some _ => true | None => false end | None => false end in
        key_ok ← (if ip_ok then key ← entrys !! 3%nat; Some (OS_IsValidName key) else Some false);
        Some (if key_ok : bool then if stored then (0, Some (keys ++ [10])) else (-1, None) else (-1, None))
    end.

(** [w_enrollment_process_response], on what [SSL_read] gives. *)
Fixpoint w_enrollment_process_response (reads : list cstr) (stored : bool) : option (Z * option cstr) :=
  match reads with
  | [] => Some (-1, None)
  | buf :: reads =>
      if (7 <? length buf)%nat && starts_with buf ($"ERROR: ") then w_enrollment_process_response reads stored
      else if starts_with buf ($"OSSEC K:'") then w_enrollment_process_agent_key buf stored
      else w_enrollment_process_response reads stored
  end.

(** [w_enrollment_load_pass], on the text of the file of the password. *)
Definition w_enrollment_load_pass (authpass : option cstr) (file : option (list Z)) : option cstr :=
  match authpass with
  | Some p => Some p
  | None =>
      f ← file; '(buf, _) ← fgets 4095 f;
      if (2 <? length buf)%nat then Some (match last buf with Some 10 => removelast buf | _ => buf end) else None
  end.
End enroll.
