(* ===== verification/EnrollSpec.v ===== *)
(** The request of an agent, as the manager reads it. *)

From Stdlib Require Import (notations) String.
From S2P Require Import Prelude CLib OsMatchSpec OsStr OsStrSpec StringOp RBTree KeyStore AgentOp Auth Enroll.

(** * Characters *)

(** The characters of a field between quotes. *)
Definition field_char (c : Z) : Prop := c ≠ 0 ∧ c ≠ 10 ∧ c ≠ 39.
Definition line_char (c : Z) : Prop := c ≠ 0 ∧ c ≠ 10.

Lemma field_line s : Forall field_char s → Forall line_char s.
Proof. intros H. eapply Forall_impl; [exact H|]. intros c (? & ? & _). done. Qed.
Lemma line_nonzero s : Forall line_char s → Forall (λ c, c ≠ 0) s.
Proof. intros H. eapply Forall_impl; [exact H|]. intros c []. done. Qed.

Definition line_charb (c : Z) : bool := negb (c =? 0) && negb (c =? 10).
Lemma line_charb_spec s : forallb line_charb s = true → Forall line_char s.
Proof.
  rewrite forallb_forall, Forall_forall. intros H c Hc. apply list_elem_of_In in Hc. specialize (H c Hc). unfold line_charb in H.
  rewrite andb_true_iff, !negb_true_iff, !Z.eqb_neq in H. done.
Qed.

Lemma isalnum_range c : isalnum c = true → 48 <= c <= 122.
Proof.
  unfold isalnum, isdigit. rewrite !orb_true_iff, !andb_true_iff, !Z.leb_le. lia.
Qed.
Lemma name_char_range c : name_char c = true → 45 <= c <= 122.
Proof.
  unfold name_char. rewrite !orb_true_iff, !Z.eqb_eq. intros [[[H%isalnum_range|H]|H]|H]; lia.
Qed.
Lemma valid_name_chars s : OS_IsValidName s = true → Forall (λ c, 45 <= c <= 122) s ∧ (2 ≤ length s ≤ 128)%nat.
Proof.
  unfold OS_IsValidName. destruct (Nat.ltb_spec (length s) 2); [done|]. destruct (Nat.ltb_spec 128 (length s)); [done|]. simpl.
  rewrite forallb_forall. intros H'. split; [|lia]. apply Forall_forall. intros c Hc. apply name_char_range, H'. by apply list_elem_of_In.
Qed.
Lemma name_fields s : OS_IsValidName s = true → Forall field_char s.
Proof. intros [H _]%valid_name_chars. eapply Forall_impl; [exact H|]. intros c Hc. cbv beta in Hc. unfold field_char. lia. Qed.

(** * Reading a field *)

Lemma starts_with_app t s : starts_with (t ++ s) t = true.
Proof. unfold starts_with, strncmp. rewrite take_app_length, take_ge by done. apply Z.eqb_eq. by apply strcmp_eq. Qed.
Lemma text_at_app pre s junk : Forall (λ c, c ≠ 0) s → text_at (pre ++ s ++ 0 :: junk) (length pre) = s.
Proof. intros Hs. unfold text_at. rewrite drop_app_length. by apply cstring_app. Qed.

Section field.
Context (pre tag v rest junk : list Z) (stop : Z → bool) (max : nat).
Context (Htag : Forall line_char tag) (Hv : Forall (λ c, field_char c ∧ stop c = false) v) (Hrest : Forall line_char rest).
Context (Hstop : stop 39 = true) (Hmax : (length v ≤ max)%nat).
Let buf := pre ++ (tag ++ [39] ++ v ++ [39] ++ rest) ++ 0 :: junk.

Lemma field_text : text_at buf (length pre) = tag ++ [39] ++ v ++ [39] ++ rest.
Proof using Htag Hv Hrest.
  apply text_at_app. repeat (apply Forall_app; split); try (by apply line_nonzero); try (by repeat constructor).
  eapply Forall_impl; [exact Hv|]. intros c [[? _] _]. done.
Qed.
Lemma field_starts : starts_with (text_at buf (length pre)) tag = true.
Proof using Htag Hv Hrest. rewrite field_text. apply starts_with_app. Qed.
Lemma field_scan i : i = (length pre + length tag)%nat → scan_quoted buf i stop max = v.
Proof using Htag Hv Hrest Hstop Hmax.
  intros ->. unfold scan_quoted. assert (cstring (drop (length pre + length tag) buf) = [39] ++ v ++ [39] ++ rest) as ->.
  { unfold buf. rewrite <-drop_drop, drop_app_length, <-app_assoc, drop_app_length. apply cstring_app.
    repeat (apply Forall_app; split); try (by apply line_nonzero); try (by repeat constructor).
    eapply Forall_impl; [exact Hv|]. intros c [[? _] _]. done. }
  cbn [app]. change (39 =? 39) with true. cbv iota. rewrite span_stop; [by apply take_ge| |by rewrite Hstop].
  eapply Forall_impl; [exact Hv|]. intros c [_ ->]. done.
Qed.
Lemma field_close i : i = (length pre + length v + length tag + 1)%nat → buf !! i = Some 39.
Proof using.
  clear. intros ->. unfold buf. replace (pre ++ (tag ++ [39] ++ v ++ [39] ++ rest) ++ 0 :: junk) with ((pre ++ tag ++ [39] ++ v) ++ 39 :: rest ++ 0 :: junk)
    by (rewrite <-!app_assoc; done).
  apply list_lookup_middle. rewrite !length_app. cbn [length]. lia.
Qed.
End field.

(** * The sections of a request *)

Definition sec (tag : cstr) (o : option cstr) : cstr := match o with Some v => tag ++ [39] ++ v ++ [39] | None => [] end.

Lemma sec_line tag o : Forall line_char tag → (∀ v, o = Some v → Forall field_char v) → Forall line_char (sec tag o).
Proof.
  intros Ht Hv. destruct o as [v|]; [|done]. unfold sec. repeat (apply Forall_app; split); try done; try (by repeat constructor).
  by apply field_line, Hv.
Qed.
Lemma absent_tag tag rest pre junk : Forall line_char rest → starts_with rest tag = false → starts_with (text_at (pre ++ rest ++ 0 :: junk) (length pre)) tag = false.
Proof. intros Hr. by rewrite text_at_app by (by apply line_nonzero). Qed.
Lemma lit_line s : forallb line_charb (lit s) = true → Forall line_char (lit s).
Proof. apply line_charb_spec. Qed.

Lemma no_stop v : Forall field_char v → Forall (λ c, field_char c ∧ quote c = false) v.
Proof. intros H. eapply Forall_impl; [exact H|]. intros c Hc. split; [done|]. apply Z.eqb_neq. by destruct Hc as (_ & _ & ?). Qed.

(** The version is one that the manager takes. *)
Definition version_ok (cfg : authd_config) (v : cstr) : Prop :=
  Forall field_char v ∧ (length v ≤ 26)%nat ∧
  (c_allow_higher_versions cfg = true ∨ ∃ r, compare_wazuh_versions (Some ossec_version) (Some v) false = Some r ∧ 0 <= r).

Lemma version_step cfg o pre rest junk :
  match o with Some v => version_ok cfg v | None => starts_with rest ($" V:") = false end → Forall line_char rest →
  parse_version cfg (pre ++ (sec ($" V:") o ++ rest) ++ 0 :: junk) (length pre) = Some (inr (length (pre ++ sec ($" V:") o))).
Proof.
  intros Ho Hr. unfold parse_version. destruct o as [v|]; cbn [sec].
  - destruct Ho as (Hv & Hl & Hc). replace (($" V:" ++ [39] ++ v ++ [39]) ++ rest) with ($" V:" ++ [39] ++ v ++ [39] ++ rest) by (rewrite <-!app_assoc; done).
    assert (Forall line_char ($" V:")) as Ht by (by apply lit_line).
    rewrite (field_starts pre ($" V:") v rest junk quote Ht (no_stop v Hv) Hr).
    rewrite (field_scan pre ($" V:") v rest junk quote 2048 Ht (no_stop v Hv) Hr eq_refl ltac:(lia)) by done.
    rewrite (field_close pre ($" V:") v rest junk) by (cbn; lia). cbn [mbind option_bind]. change (negb (39 =? 39)) with false. cbv iota.
    assert ((if c_allow_higher_versions cfg then Some false else r ← compare_wazuh_versions (Some ossec_version) (Some v) false; Some (r <? 0)) = Some false) as ->.
    { destruct Hc as [->|(r & -> & Hr0)]; [done|]. destruct (c_allow_higher_versions cfg); [done|]. simpl. by rewrite (proj2 (Z.ltb_ge _ _)). }
    cbn [mbind option_bind]. f_equal. f_equal. rewrite !length_app. cbn. lia.
  - cbn [app]. rewrite absent_tag by done. by rewrite app_nil_r.
Qed.

Lemma group_chars g : (w_validate_group_name g).1 = 0 → Forall field_char g ∧ Forall char_ok g ∧ g ≠ [].
Proof.
  unfold w_validate_group_name. set (multi := match strchr g 44 with Some _ => true | None => false end).
  destruct (Nat.eqb_spec (length g) 0) as [|Hn]; [done|].
  destruct (negb multi && _); [done|]. destruct (multi && _); [done|].
  destruct (if multi then _ else None) as [[r e]|] eqn:E.
  { intros Hr. simpl in Hr. subst r. exfalso. destruct multi; [|done]. revert E. generalize (all_tokens (take (Z.to_nat 65535) g) [44]). intros ts.
    assert (∀ ts x, check_tokens g ts = Some x → x.1 ≠ 0) as H.
    { clear. induction ts as [|t ts IH]; intros x; simpl; [done|]. destruct (strchr t 32); [by intros [= <-]|]. destruct (_ <? _)%nat; [by intros [= <-]|]. apply IH. }
    destruct (check_tokens g ts) as [x|] eqn:Ec; [intros [= ->]; by apply (H ts (0, e))|]. by destruct (strstr g [44; 44]). }
  destruct (_ =? _)%nat; [done|]. destruct (_ || _); [done|]. destruct (Nat.eqb_spec (length (span (group_char multi) g).1) (length g)) as [Hs|]; [|done].
  intros _. pose proof (span_app (group_char multi) g) as Happ. pose proof (span_fst (group_char multi) g) as Hf.
  assert ((span (group_char multi) g).1 = g) as Eg.
  { rewrite <-Happ in Hs at 2. rewrite length_app in Hs. destruct ((span (group_char multi) g).2) eqn:E2; [|simpl in Hs; lia].
    rewrite app_nil_r in Happ. exact Happ. }
  rewrite Eg in Hf. assert (∀ c, group_char multi c = true → 33 <= c <= 122 ∧ c ≠ 39) as Hc.
  { intros c. unfold group_char. rewrite !orb_true_iff, bool_decide_eq_true, andb_true_iff, Z.eqb_eq. intros [[H%isalnum_range|H]|[_ ->]]; [lia| |lia].
    assert (forallb (λ c, (33 <=? c) && (c <=? 122) && negb (c =? 39)) ($".:;_-=+!@()") = true) as Hl by done.
    rewrite forallb_forall in Hl. apply list_elem_of_In in H. specialize (Hl c H). rewrite !andb_true_iff, !Z.leb_le, negb_true_iff, Z.eqb_neq in Hl. lia. }
  split_and!.
  - eapply Forall_impl; [exact Hf|]. intros c H%Hc. unfold field_char. lia.
  - eapply Forall_impl; [exact Hf|]. intros c H%Hc. unfold char_ok. lia.
  - by destruct g.
Qed.

Lemma break_ref_nonempty m n cur s : break_ref m n cur s ≠ [].
Proof.
  revert n cur. induction s as [|c s IH]; intros n cur; simpl; [done|]. destruct (c =? m); [|apply IH]. destruct n; [apply IH|].
  destruct (last cur) as [x|]; [|done]. repeat (destruct x as [|x|x]; try done). all: try apply IH.
Qed.
Lemma group_loop_some before aux r : is_Some (group_loop before aux (Some r)).
Proof. revert before r. induction aux as [|a aux IH]; intros before r; simpl; [by eexists|]. destruct (existsb _ _); apply IH. Qed.
Lemma repeated_groups_some g : Forall char_ok g → strlen g <= 65536 → ∃ gs, wstr_delete_repeated_groups g = Some (Some gs).
Proof.
  intros Hg Hl. unfold wstr_delete_repeated_groups. rewrite break_spec; [|done|done|done|lia|lia]. cbn [mbind option_bind].
  pose proof (break_ref_nonempty 44 (Z.to_nat 128 - 1) [] g) as Hne. destruct (break_ref _ _ _ _) as [|a aux]; [done|]. cbn [group_loop existsb wm_strcat snd].
  destruct (group_loop_some [a] aux a) as [gs Hgs]. exists gs. by rewrite app_nil_l, Hgs.
Qed.

Lemma group_step o pre rest junk :
  match o with Some g => (w_validate_group_name g).1 = 0 ∧ strlen g <= 65530 | None => starts_with rest ($" G:") = false end → Forall line_char rest →
  ∃ gs, parse_groups (pre ++ (sec ($" G:") o ++ rest) ++ 0 :: junk) (length pre) = Some (inr (gs, length (pre ++ sec ($" G:") o))) ∧
    (g ← o; mjoin (wstr_delete_repeated_groups g)) = gs ∧ (is_Some gs ↔ is_Some o).
Proof.
  intros Ho Hr. unfold parse_groups. destruct o as [g|]; cbn [sec].
  - destruct Ho as (Hg & Hl). destruct (group_chars g Hg) as (Hf & Hok & _).
    replace (($" G:" ++ [39] ++ g ++ [39]) ++ rest) with ($" G:" ++ [39] ++ g ++ [39] ++ rest) by (rewrite <-!app_assoc; done).
    assert (Forall line_char ($" G:")) as Ht by (by apply lit_line).
    rewrite (field_starts pre ($" G:") g rest junk quote Ht (no_stop g Hf) Hr).
    rewrite (field_scan pre ($" G:") g rest junk quote (Z.to_nat 65536) Ht (no_stop g Hf) Hr eq_refl ltac:(unfold strlen in Hl; lia)) by done.
    rewrite (field_close pre ($" G:") g rest junk) by (cbn [length lit]; cbn; lia). cbn [mbind option_bind]. change (negb (39 =? 39)) with false. cbv iota.
    destruct (w_validate_group_name g) as [r e]. simpl in Hg. subst r. change (0 <? 0) with false. cbv iota.
    destruct (repeated_groups_some g Hok ltac:(lia)) as [gs Hgs]. rewrite Hgs. cbn [mbind option_bind]. exists (Some gs). split; [|split; [done|by split]].
    do 3 f_equal. rewrite !length_app. cbn. lia.
  - cbn [app]. exists None. rewrite absent_tag by done. rewrite app_nil_r. split; [done|]. split; [done|by split; intros []].
Qed.

Section ip.
Context {IP : Type} (OS_IsValidIP : cstr → option (cstr * IP)).

(** The address that the request names, and the one that the manager takes. *)
Definition named_ip (e : enrollment) : option cstr :=
  match e_sender_ip e, e_use_src_ip e with Some ip, _ => Some ip | None, true => Some ($"src") | None, false => None end.
Definition taken_ip (cfg : authd_config) (e : enrollment) (peer : cstr) : cstr :=
  match e_sender_ip e, e_use_src_ip e with
  | Some ip, _ => match OS_IsValidIP ip with Some (text, _) => snprintf IPSIZE text | None => peer end
  | None, true => peer
  | None, false => if c_use_source_ip cfg then peer else $"any"
  end.
Definition ip_char (c : Z) : Prop := field_char c ∧ c ≠ 32.
Definition ip_ok (e : enrollment) : Prop :=
  match e_sender_ip e with
  | Some ip => e_use_src_ip e = false ∧ is_Some (OS_IsValidIP ip) ∧ Forall ip_char ip ∧ (length ip ≤ IPSIZE)%nat ∧ starts_with ip ($"src") = false
  | None => True
  end.

Lemma ip_step cfg e peer pre rest junk :
  ip_ok e → match named_ip e with None => starts_with rest ($" IP:") = false | _ => True end → Forall line_char rest →
  parse_ip OS_IsValidIP cfg (pre ++ (sec ($" IP:") (named_ip e) ++ rest) ++ 0 :: junk) (length pre) peer =
    Some (inr (taken_ip cfg e peer, length (pre ++ sec ($" IP:") (named_ip e)))).
Proof.
  intros Hok Hno Hr. unfold parse_ip, named_ip, taken_ip in *. unfold ip_ok in Hok. set (stop := λ c, (c =? 39) || (c =? 32)).
  assert (Forall line_char ($" IP:")) as Ht by (by apply lit_line).
  assert (∀ v, Forall ip_char v → Forall (λ c, field_char c ∧ stop c = false) v) as Hst.
  { intros v Hv. eapply Forall_impl; [exact Hv|]. intros c [Hc H32]. split; [done|]. unfold stop. apply orb_false_iff. rewrite !Z.eqb_neq. by destruct Hc as (_ & _ & ?). }
  assert (∀ v, Forall ip_char v → (length v ≤ IPSIZE)%nat →
    let buf := pre ++ (sec ($" IP:") (Some v) ++ rest) ++ 0 :: junk in
    starts_with (text_at buf (length pre)) ($" IP:") = true ∧ scan_quoted buf (length pre + 4) stop IPSIZE = v ∧
    buf !! (length pre + length v + 5)%nat = Some 39 ∧ (length pre + length v + 6)%nat = length (pre ++ sec ($" IP:") (Some v))) as Hf.
  { intros v Hv Hl buf. unfold buf, sec. replace (($" IP:" ++ [39] ++ v ++ [39]) ++ rest) with ($" IP:" ++ [39] ++ v ++ [39] ++ rest) by (rewrite <-!app_assoc; done).
    split; [exact (field_starts pre ($" IP:") v rest junk stop Ht (Hst v Hv) Hr)|].
    split; [exact (field_scan pre ($" IP:") v rest junk stop IPSIZE Ht (Hst v Hv) Hr eq_refl Hl _ eq_refl)|].
    split; [apply (field_close pre ($" IP:") v rest junk); cbn; lia|]. rewrite !length_app. cbn. lia. }
  destruct (e_sender_ip e) as [ip|]; [|destruct (e_use_src_ip e)].
  - destruct Hok as (_ & [[text a] Hv] & Hc & Hl & Hs). destruct (Hf ip Hc Hl) as (-> & -> & -> & <-). cbn [mbind option_bind].
    change (negb (39 =? 39)) with false. cbv iota. by rewrite Hs, Hv.
  - assert (Forall ip_char ($"src")) as Hc by (unfold ip_char, field_char; vm_compute; repeat constructor; done).
    destruct (Hf ($"src") Hc ltac:(vm_compute; lia)) as (-> & -> & -> & <-). done.
  - cbn [sec app]. rewrite absent_tag by done. by rewrite app_nil_r.
Qed.
End ip.

Lemma hash_step o pre junk :
  match o with Some h => Forall field_char h ∧ (length h ≤ 40)%nat | None => True end →
  parse_hash (pre ++ sec ($" K:") o ++ 0 :: junk) (length pre) = Some (inr o).
Proof.
  intros Ho. unfold parse_hash. destruct o as [h|]; cbn [sec].
  - destruct Ho as (Hf & Hl). assert (Forall line_char ($" K:")) as Ht by (by apply lit_line).
    replace ($" K:" ++ [39] ++ h ++ [39]) with ($" K:" ++ [39] ++ h ++ [39] ++ []) by done.
    rewrite (field_starts pre ($" K:") h [] junk quote Ht (no_stop h Hf) (Forall_nil_2 _)).
    rewrite (field_scan pre ($" K:") h [] junk quote 40 Ht (no_stop h Hf) (Forall_nil_2 _) eq_refl Hl) by done.
    rewrite (field_close pre ($" K:") h [] junk) by (cbn; lia). done.
  - by rewrite absent_tag.
Qed.

(** * The whole request *)

Ltac line_chars := repeat first [assumption|apply Forall_app; split]; first [done|by apply lit_line|by apply field_line|by repeat constructor].


Definition pass_part (pass : option cstr) : cstr := match pass with Some p => $"OSSEC PASS: " ++ p ++ [32] | None => [] end.
Definition name_part (name : cstr) : cstr := $"OSSEC A:'" ++ name ++ [39].

Lemma pass_step pass rest junk :
  (∀ p, pass = Some p → Forall line_char p) → Forall line_char rest →
  parse_pass ((pass_part pass ++ rest) ++ 0 :: junk) pass = Some (length (pass_part pass)).
Proof.
  intros Hp Hr. unfold parse_pass. destruct pass as [p|]; [|done]. specialize (Hp p eq_refl). cbn [pass_part].
  set (t := $"OSSEC PASS: "). assert (Forall line_char t) as Ht by (by apply lit_line). assert (length t = 12%nat) as Hlt by done.
  assert (Forall line_char ([32] ++ rest)) as H32 by (constructor; done).
  replace ((t ++ p ++ [32]) ++ rest) with (t ++ p ++ [32] ++ rest) by (by rewrite <-!app_assoc).
  assert (text_at ((t ++ p ++ [32] ++ rest) ++ 0 :: junk) 0 = t ++ p ++ [32] ++ rest) as ->.
  { apply (text_at_app []). apply line_nonzero. line_chars. }
  rewrite starts_with_app.
  assert (text_at ((t ++ p ++ [32] ++ rest) ++ 0 :: junk) 12 = p ++ [32] ++ rest) as ->.
  { rewrite <-app_assoc, <-Hlt. apply text_at_app. apply line_nonzero. line_chars. }
  rewrite starts_with_app. rewrite (proj2 (Nat.ltb_lt _ _)) by (rewrite length_app; cbn; lia). cbn [andb].
  assert (text_at ((t ++ p ++ [32] ++ rest) ++ 0 :: junk) (12 + length p) = [32] ++ rest) as ->.
  { rewrite <-Hlt, <-length_app. rewrite (app_assoc t), <-app_assoc. apply text_at_app. by apply line_nonzero. }
  cbn [app]. f_equal. rewrite !length_app, Hlt. cbn. lia.
Qed.

Lemma name_step pre name rest junk :
  Forall field_char name → Forall line_char rest →
  parse_name (pre ++ (name_part name ++ rest) ++ 0 :: junk) (length pre) = Some (name, length (pre ++ name_part name)).
Proof.
  intros Hn Hr. unfold parse_name, name_part. set (t := $"OSSEC A:'"). assert (Forall line_char t) as Ht by (by apply lit_line).
  assert (length t = 9%nat) as Hlt by done. replace ((t ++ name ++ [39]) ++ rest) with (t ++ name ++ [39] ++ rest) by (by rewrite <-!app_assoc).
  assert (Forall line_char (name ++ [39] ++ rest)) as Hl by (apply Forall_app; split; [by apply field_line|constructor; done]).
  rewrite text_at_app by (apply line_nonzero; line_chars). rewrite starts_with_app.
  assert (text_at (pre ++ (t ++ name ++ [39] ++ rest) ++ 0 :: junk) (length pre + 9) = name ++ [39] ++ rest) as ->.
  { rewrite <-Hlt, <-length_app, <-app_assoc, app_assoc. apply text_at_app. by apply line_nonzero. }
  unfold strchr. cbn [app]. rewrite span_stop; [|eapply Forall_impl; [exact Hn|]; intros c (_ & _ & ?); by rewrite (proj2 (Z.eqb_neq _ _))|done].
  f_equal. f_equal. rewrite !length_app, Hlt. cbn. lia.
Qed.

Lemma cat_app buff s n : (length s ≤ n)%nat → (length buff + length s ≤ REQUEST_SIZE)%nat → cat buff s n = Some (buff ++ s).
Proof. intros Hn Hl. unfold cat. rewrite take_ge by done. by rewrite (proj2 (Nat.leb_le _ _)). Qed.

Section request.
Context {IP : Type} (OS_IsValidIP : cstr → option (cstr * IP)) (sha1 : cstr → cstr).

(** What an agent can send and the manager takes: a name, the password of the
    manager, a version, groups and an address that are valid, and the hash of the
    key it has, if any. *)
Record request_ok (cfg : authd_config) (e : enrollment) (name : cstr) (key : option (@kentry IP)) (hash : option cstr) : Prop := {
  rq_name : e_agent_name e = Some name;
  rq_valid : OS_IsValidName name = true;
  rq_localhost : e_allow_localhost e = true ∨ name ≠ $"localhost";
  rq_pass : e_authpass e = c_authpass cfg;
  rq_pass_ok p : e_authpass e = Some p → Forall line_char p ∧ (length p ≤ 1800)%nat;
  rq_version v : e_agent_version e = Some v → version_ok cfg v;
  rq_group g : e_centralized_group e = Some g → (w_validate_group_name g).1 = 0 ∧ strlen g <= 65530;
  rq_ip : ip_ok OS_IsValidIP e;
  rq_key : match key with Some k => w_get_key_hash sha1 k = hash ∧ is_Some hash | None => hash = None end;
  rq_hash h : hash = Some h → Forall field_char h ∧ (length h ≤ 40)%nat
}.

Definition request_text (e : enrollment) (name : cstr) (hash : option cstr) : cstr :=
  pass_part (e_authpass e) ++ name_part name ++ sec ($" V:") (e_agent_version e) ++ sec ($" G:") (e_centralized_group e) ++
  sec ($" IP:") (named_ip e) ++ sec ($" K:") hash.

Lemma ip_fields e v : ip_ok OS_IsValidIP e → named_ip e = Some v → Forall field_char v.
Proof.
  unfold ip_ok, named_ip. destruct (e_sender_ip e) as [ip|].
  - intros (_ & _ & Hc & _) [= <-]. eapply Forall_impl; [exact Hc|]. by intros c [? _].
  - destruct (e_use_src_ip e); [|done]. intros _ [= <-]. unfold field_char. vm_compute. repeat constructor; done.
Qed.

(** No section starts like one before it. *)
Lemma no_version g i h : starts_with (sec ($" G:") g ++ sec ($" IP:") i ++ sec ($" K:") h) ($" V:") = false.
Proof. destruct g; [done|]. destruct i; [done|]. by destruct h. Qed.
Lemma no_group i h : starts_with (sec ($" IP:") i ++ sec ($" K:") h) ($" G:") = false.
Proof. destruct i; [done|]. by destruct h. Qed.
Lemma no_ip h : starts_with (sec ($" K:") h) ($" IP:") = false.
Proof. by destruct h. Qed.

Section ok.
Context (cfg : authd_config) (e : enrollment) (name : cstr) (key : option (@kentry IP)) (hash : option cstr).
Context (H : request_ok cfg e name key hash).

Lemma sections_line :
  Forall line_char (sec ($" V:") (e_agent_version e)) ∧ Forall line_char (sec ($" G:") (e_centralized_group e)) ∧
  Forall line_char (sec ($" IP:") (named_ip e)) ∧ Forall line_char (sec ($" K:") hash).
Proof using H.
  split_and!; apply sec_line; try (by apply lit_line).
  - intros v Hv. by destruct (rq_version _ _ _ _ _ H v Hv).
  - intros g Hg. destruct (rq_group _ _ _ _ _ H g Hg) as [Hg' _]. by apply group_chars in Hg' as [? _].
  - intros v Hv. eapply ip_fields; [apply H|done].
  - intros h Hh. by destruct (rq_hash _ _ _ _ _ H h Hh).
Qed.

Lemma request_line : Forall line_char (request_text e name hash).
Proof using H.
  destruct sections_line as (? & ? & ? & ?). unfold request_text. repeat (apply Forall_app; split); try done.
  - destruct (e_authpass e) as [p|] eqn:Ep; [|done]. destruct (rq_pass_ok _ _ _ _ _ H p Ep) as [? _].
    unfold pass_part. line_chars.
  - by apply lit_line.
  - apply field_line, name_fields, H.
  - by repeat constructor.
Qed.

Lemma request_parsed peer junk :
  w_auth_parse_data OS_IsValidIP cfg (request_text e name hash ++ 0 :: junk) peer =
    Some (PRequest (taken_ip OS_IsValidIP cfg e peer) name (g ← e_centralized_group e; mjoin (wstr_delete_repeated_groups g)) hash).
Proof using H.
  destruct sections_line as (HV & HG & HI & HK). unfold w_auth_parse_data, request_text. rewrite <-(rq_pass _ _ _ _ _ H).
  assert (Forall line_char (name_part name)) as HN.
  { repeat (apply Forall_app; split); [by apply lit_line|apply field_line, name_fields, H|by repeat constructor]. }
  rewrite pass_step; [|intros p Hp; by destruct (rq_pass_ok _ _ _ _ _ H p Hp)|line_chars].
  rewrite <-(app_assoc (pass_part _)). rewrite name_step; [|apply name_fields, H|line_chars].
  rewrite (rq_valid _ _ _ _ _ H). cbn [negb].
  rewrite <-(app_assoc (name_part name)), (app_assoc (pass_part _)). set (pre := pass_part _ ++ name_part name).
  rewrite version_step; [|destruct (e_agent_version e) eqn:E; [by apply H|apply no_version]|line_chars].
  cbn [mbind option_bind]. rewrite <-(app_assoc (sec ($" V:") _)), (app_assoc pre). set (pre1 := pre ++ _).
  destruct (group_step (e_centralized_group e) pre1 (sec ($" IP:") (named_ip e) ++ sec ($" K:") hash) junk) as (gs & -> & <- & _);
    [destruct (e_centralized_group e) eqn:E; [by apply H|apply no_group]|apply Forall_app; done|].
  cbn [mbind option_bind]. rewrite <-(app_assoc (sec ($" G:") _)), (app_assoc pre1). set (pre2 := pre1 ++ _).
  rewrite ip_step; [|apply H|destruct (named_ip e); [done|apply no_ip]|done].
  cbn [mbind option_bind]. rewrite <-(app_assoc (sec ($" IP:") _)), (app_assoc pre2). rewrite hash_step; [done|].
  destruct hash as [h|] eqn:E; [|done]. by apply H.
Qed.

Lemma sec_length tag o n : (∀ v, o = Some v → (length v ≤ n)%nat) → (length (sec tag o) ≤ length tag + n + 2)%nat.
Proof. intros Ho. destruct o as [v|]; cbn [sec length]; [|lia]. specialize (Ho v eq_refl). rewrite !length_app. cbn [length]. lia. Qed.

Lemma sections_length :
  (length (pass_part (e_authpass e) ++ name_part name) ≤ 1960)%nat ∧ (length (sec ($" V:") (e_agent_version e)) ≤ 31)%nat ∧
  strlen (sec ($" G:") (e_centralized_group e)) <= 65535 ∧ (length (sec ($" IP:") (named_ip e)) ≤ 52)%nat ∧ (length (sec ($" K:") hash) ≤ 45)%nat.
Proof using H.
  split_and!.
  - rewrite length_app. pose proof (proj2 (valid_name_chars name (rq_valid _ _ _ _ _ H))). unfold name_part. rewrite !length_app.
    assert (length (pass_part (e_authpass e)) ≤ 1813)%nat; [|cbn; lia]. destruct (e_authpass e) as [p|] eqn:Ep; [|cbn; lia].
    destruct (rq_pass_ok _ _ _ _ _ H p Ep) as [_ ?]. unfold pass_part. rewrite !length_app. cbn. lia.
  - apply (sec_length ($" V:") _ 26). intros v Hv. by destruct (rq_version _ _ _ _ _ H v Hv) as (_ & ? & _).
  - destruct (e_centralized_group e) as [g|] eqn:Eg; [|unfold strlen; cbn; lia]. destruct (rq_group _ _ _ _ _ H g Eg) as [_ ?].
    unfold strlen in *. cbn [sec]. rewrite !length_app. cbn [length lit]. cbn. lia.
  - apply (sec_length ($" IP:") _ 46). intros v. pose proof (rq_ip _ _ _ _ _ H) as Hip. unfold ip_ok in Hip. unfold named_ip. destruct (e_sender_ip e) as [ip|].
    + destruct Hip as (_ & _ & _ & ? & _). by intros [= <-].
    + destruct (e_use_src_ip e); [|done]. intros [= <-]. cbn. lia.
  - apply (sec_length ($" K:") _ 40). intros h Hh. by destruct (rq_hash _ _ _ _ _ H h Hh).
Qed.

Lemma request_sent hostname : w_enrollment_send_message OS_IsValidIP sha1 e hostname key = Some (Some (request_text e name hash ++ [10])).
Proof using H.
  destruct sections_length as (LB & LV & LG & LI & LK). unfold w_enrollment_send_message, w_enrollment_extract_agent_name.
  rewrite (rq_name _ _ _ _ _ H). cbn [mbind option_bind]. rewrite (rq_valid _ _ _ _ _ H).
  assert (negb (e_allow_localhost e) && (strcmp name ($"localhost") =? 0) = false) as ->.
  { destruct (rq_localhost _ _ _ _ _ H) as [->|Hne]; [done|]. apply andb_false_iff. right. apply Z.eqb_neq. by rewrite strcmp_eq. }
  set (b0 := snprintf 2048 _). assert (b0 = pass_part (e_authpass e) ++ name_part name) as ->.
  { unfold b0, snprintf. assert (match e_authpass e with Some p => $"OSSEC PASS: " ++ p ++ $" OSSEC A:'" ++ name ++ $"'" | None => $"OSSEC A:'" ++ name ++ $"'" end =
      pass_part (e_authpass e) ++ name_part name) as -> by (destruct (e_authpass e); [unfold pass_part; by rewrite <-!app_assoc|done]).
    apply take_ge. lia. }
  set (b1 := pass_part _ ++ name_part name) in *. unfold strlen in LG. unfold request_text. rewrite (app_assoc (pass_part _)). fold b1.
  assert ((match e_agent_version e with Some v => w_enrollment_concat_agent_version b1 v | None => Some b1 end) = Some (b1 ++ sec ($" V:") (e_agent_version e))) as ->.
  { destruct (e_agent_version e) as [v|]; [|by rewrite app_nil_r]. unfold w_enrollment_concat_agent_version, snprintf.
    change ($" V:'" ++ v ++ $"'") with (sec ($" V:") (Some v)). rewrite take_ge by lia. apply cat_app; unfold REQUEST_SIZE; lia. }
  cbn [mbind option_bind]. set (b2 := b1 ++ _). assert (length b2 ≤ 1991)%nat as LB2 by (unfold b2; rewrite length_app; lia).
  assert ((match e_centralized_group e with Some g => w_enrollment_concat_group b2 g | None => Some b2 end) = Some (b2 ++ sec ($" G:") (e_centralized_group e))) as ->.
  { destruct (e_centralized_group e) as [g|]; [|by rewrite app_nil_r]. unfold w_enrollment_concat_group, snprintf.
    change ($" G:'" ++ g ++ $"'") with (sec ($" G:") (Some g)). rewrite take_ge by lia. apply cat_app; unfold REQUEST_SIZE; lia. }
  cbn [mbind option_bind]. set (b3 := b2 ++ _). assert (Z.of_nat (length b3) <= 67526) as LB3 by (unfold b3; rewrite length_app; lia).
  assert (w_enrollment_concat_src_ip OS_IsValidIP b3 (REQUEST_SIZE - length b3) (e_sender_ip e) (e_use_src_ip e) = Some (Some (b3 ++ sec ($" IP:") (named_ip e)))) as ->.
  { pose proof (rq_ip _ _ _ _ _ H) as Hip. unfold w_enrollment_concat_src_ip, ip_ok, named_ip, snprintf in *. destruct (e_sender_ip e) as [ip|].
    - destruct Hip as (-> & [x ->] & _ & _ & _). change ($" IP:'" ++ ip ++ $"'") with (sec ($" IP:") (Some ip)). rewrite take_ge by lia.
      rewrite cat_app by (unfold REQUEST_SIZE; lia). done.
    - destruct (e_use_src_ip e); [|by rewrite app_nil_r]. change ($" IP:'src'") with (sec ($" IP:") (Some ($"src"))) in *. rewrite take_ge by (cbn; lia).
      rewrite cat_app by (unfold REQUEST_SIZE; cbn in *; lia). done. }
  cbn [mbind option_bind]. set (b4 := b3 ++ _). assert (Z.of_nat (length b4) <= 67578) as LB4 by (unfold b4; rewrite length_app; lia).
  assert ((match key with Some k => w_enrollment_concat_key sha1 b4 k | None => Some b4 end) = Some (b4 ++ sec ($" K:") hash)) as ->.
  { pose proof (rq_key _ _ _ _ _ H) as Hk. destruct key as [k|]; [|rewrite Hk; by rewrite app_nil_r]. destruct Hk as [Hk [h Hh]].
    unfold w_enrollment_concat_key, snprintf. rewrite Hk, Hh in *. cbn [mbind option_bind]. change ($" K:'" ++ h ++ $"'") with (sec ($" K:") (Some h)).
    rewrite take_ge by lia. rewrite (proj2 (Nat.ltb_lt _ _)) by (unfold REQUEST_SIZE; lia). apply cat_app; unfold REQUEST_SIZE; lia. }
  cbn [mbind option_bind]. rewrite cat_app by (rewrite ?length_app; unfold REQUEST_SIZE; cbn [length]; lia). cbn [mbind option_bind].
  unfold b4, b3, b2. by rewrite <-!app_assoc.
Qed.
End ok.
End request.
