(* ===== verification/AuthSpec.v ===== *)
(** The enrolment on the manager keeps identifiers, names and addresses unique. *)

From Stdlib Require Import (notations) String.
From S2P Require Import Prelude CLib RBTree RBMap KeyStore KeyStoreSpec KeyFile AgentOp Auth.

Section spec.
Context {IP : Type} (OS_IsValidIP : cstr → option (cstr * IP)) (md5 sha1 : cstr → cstr).
Context (alloc_node : heap rb_node → loc) (alloc_entry : heap (@kentry IP) → loc).
Context (alloc_node_fresh : ∀ h, h !! alloc_node h = None) (alloc_entry_fresh : ∀ h, h !! alloc_entry h = None).
Context (wdb_get_agent_info : Z → option agent_info) (opendir : cstr → bool).
Notation agent := (agent (IP := IP)).
Notation rep := (rep (IP := IP) W_RAW_KEY).
Definition any : cstr := $"any".

(** * The calls on the store *)

Lemma rep_entry_at save s a i x :
  rep save s a → sp_agents a !! i = Some x → ∃ e, entry_at s i = Some e ∧ entry_of x i e ∧ is_Some (a_raw x).
Proof.
  intros (xs & sender & mid & mip & Ea & R) Hx. rewrite Ea in Hx. apply list_lookup_fmap_Some in Hx as (y & -> & Hy).
  destruct (rep_entry _ _ _ _ _ _ _ _ R _ _ Hy) as (e & He & Hof). exists e. split_and!; [done|done|].
  apply (kr_raw _ _ _ _ _ _ _ _ R); [by eapply list_elem_of_lookup_2|done].
Qed.
Lemma rep_size save s a : rep save s a → ks_keysize s = length (sp_agents a).
Proof. intros (xs & sender & mid & mip & -> & R). rewrite length_fmap. by destruct R. Qed.
Lemma rep_with_counter save s a n : rep save s a → rep save (with_counter s n) a.
Proof. intros (xs & sender & mid & mip & Ea & R). exists xs, sender, mid, mip. split; [done|]. by destruct R. Qed.

Lemma rep_by_id save s a id : rep save s a → OS_IsAllowedID s (Some id) = Some (pos_Z (find_pos (found a_by_id a_id id) (sp_agents a))).
Proof. intros (xs & sender & mid & mip & -> & R). exact (by_id _ _ _ _ _ _ _ _ R id). Qed.
Lemma rep_by_ip save s a ip : rep save s a → OS_IsAllowedIP s (Some ip) = Some (pos_Z (find_pos (found a_by_ip a_addr ip) (sp_agents a))).
Proof. intros (xs & sender & mid & mip & -> & R). exact (by_ip _ _ _ _ _ _ _ _ R ip). Qed.
Lemma rep_by_name save s a name : rep save s a → OS_IsAllowedName s name = Some (pos_Z (find_pos (λ x, bool_decide (a_name x = name)) (sp_agents a))).
Proof. intros (xs & sender & mid & mip & -> & R). exact (by_name _ _ _ _ _ _ _ _ R name). Qed.

Lemma delete_counter s id purge r s' : OS_DeleteKey (IP := IP) s id purge = Some (r, s') → ks_id_counter s' = ks_id_counter s.
Proof.
  unfold OS_DeleteKey. destruct (negb _); [by intros [= <- <-]|].
  destruct (OS_IsAllowedID s (Some id)) as [i|]; [|done]. cbn [mbind option_bind]. destruct (i <? 0); [by intros [= <- <-]|].
  destruct (entry_at s _) as [e|]; [|done]. cbn [mbind option_bind]. destruct (k_ip e) as [ip|]; [|done]. cbn [mbind option_bind].
  destruct (if ks_save_removed s && negb purge then _ else _) as [s1|] eqn:E1; [|done]. cbn [mbind option_bind].
  assert (ks_id_counter s1 = ks_id_counter s) as <-.
  { destruct (ks_save_removed s && negb purge); [|by injection E1 as <-]. destruct (k_id e), (k_name e), (k_raw_key e); try done. by injection E1 as <-. }
  intros H. repeat (match type of H with
    | (_ ← ?x; _) = _ => destruct x as [?|]; [cbn [mbind option_bind] in H|done]
    | (let '(_, _) := ?x in _) = _ => destruct x
    | (match ?x with _ => _ end) = _ => destruct x
    end; try done). by injection H as <- <-.
Qed.

Lemma rep_delete save s a id purge i x :
  rep save s a → find_pos (found a_by_id a_id id) (sp_agents a) = Some i → sp_agents a !! i = Some x →
  ∃ s' r, OS_DeleteKey s id purge = Some (Z.of_nat i, s') ∧ rep save s' (KSpec (spec_delete (sp_agents a) i x) r) ∧ ks_id_counter s' = ks_id_counter s.
Proof.
  intros (xs & sender & mid & mip & Ea & R) Hp Hx. rewrite Ea in *. apply list_lookup_fmap_Some in Hx as (y & -> & Hy).
  destruct (delete_ok _ _ _ _ _ _ _ _ id purge i y R eq_refl Hp Hy) as (s' & mid' & mip' & E & R'). eexists s', _. split; [exact E|].
  split; [|by eapply delete_counter]. exists (swap_out (hidden (a_addr y.2) <$> xs) i), sender, mid', mip'. split; [|exact R'].
  unfold spec_delete. simpl. by rewrite swap_out_fmap, hidden_snd.
Qed.

Lemma add_counter s id name ip key t r s' : OS_AddKey OS_IsValidIP md5 alloc_node alloc_entry s id name ip key t = Some (Done (r, s')) → ks_id_counter s' = ks_id_counter s.
Proof.
  unfold OS_AddKey. intros H. repeat (match type of H with
    | (_ ← ?x; _) = _ => destruct x as [?|]; [cbn [mbind option_bind] in H|done]
    | (let '(_, _) := ?x in _) = _ => destruct x
    | (match ?x with _ => _ end) = _ => destruct x
    end; try done). by injection H as <- <-.
Qed.
Lemma rep_add save s a id name ip key t text addr :
  rep save s a → OS_IsValidIP ip = Some (text, addr) →
  ∃ s', OS_AddKey OS_IsValidIP md5 alloc_node alloc_entry s id name ip key t = Some (Done (Z.of_nat (length (sp_agents a)), s')) ∧
    rep save s' (KSpec (spec_add md5 W_RAW_KEY (sp_agents a) id name key (cut text, addr)) (sp_removed a)) ∧ ks_id_counter s' = ks_id_counter s.
Proof using alloc_node_fresh alloc_entry_fresh.
  intros (xs & sender & mid & mip & Ea & R) Hip. rewrite Ea.
  destruct (add_ok OS_IsValidIP md5 alloc_node alloc_entry alloc_node_fresh alloc_entry_fresh _ _ _ _ _ _ _ _ id name ip key t text addr R Hip)
    as (s' & l & mid' & mip' & ag & E & R' & Eq).
  exists s'. rewrite length_fmap. split; [exact E|]. split; [|by eapply add_counter].
  exists (xs ++ [(l, ag)]), sender, mid', mip'. split; [|exact R']. simpl. by rewrite <-Eq, fmap_app.
Qed.

(** * Uniqueness *)

(** The number of an identifier, as [strtol] reads it. *)
Definition id_number (id : cstr) : option Z := match strtol id with (v, [], _) => Some (int32 v) | _ => None end.

(** No two agents share an identifier, a name or an address other than any; all
    are found by their identifier and by such an address; the counter is not
    below their numbers. *)
Record uniq (l : list agent) (counter : Z) : Prop := {
  uq_ids : NoDup (a_id <$> l);
  uq_names : NoDup (a_name <$> l);
  uq_addrs : NoDup (filter (λ x, x ≠ any) (a_addr <$> l));
  uq_by_id x : x ∈ l → a_by_id x = true;
  uq_by_ip x : x ∈ l → a_addr x ≠ any → a_by_ip x = true;
  uq_counter x n : x ∈ l → id_number (a_id x) = Some n → n <= counter;
  uq_pos : 0 <= counter
}.

Lemma uniq_perm l l' c : l ≡ₚ l' → uniq l c → uniq l' c.
Proof.
  intros Hp [H1 H2 H3 H4 H5 H6 H7]. split.
  - by rewrite <-Hp.
  - by rewrite <-Hp.
  - by rewrite <-Hp.
  - intros x Hx. apply H4. by rewrite Hp.
  - intros x Hx. apply H5. by rewrite Hp.
  - intros x n Hx. apply H6. by rewrite Hp.
  - done.
Qed.
Lemma uniq_counter_le l c c' : c <= c' → uniq l c → uniq l c'.
Proof. intros Hc [H1 H2 H3 H4 H5 H6 H7]. split; try done; [|lia]. intros x n Hx Hn. pose proof (H6 x n Hx Hn). lia. Qed.

Lemma hide_addrs addr (l : list agent) : a_addr <$> (hide addr <$> l) = a_addr <$> l.
Proof. rewrite <-list_fmap_compose. by apply list_fmap_ext. Qed.

(** The others stay unique, and found by their addresses. *)
Lemma uniq_hide x l c : uniq (x :: l) c → uniq (hide (a_addr x) <$> l) c.
Proof.
  intros [H1 H2 H3 H4 H5 H6 H7]. split.
  - rewrite <-list_fmap_compose. by apply NoDup_cons in H1 as [_ ?].
  - rewrite <-list_fmap_compose. by apply NoDup_cons in H2 as [_ ?].
  - rewrite hide_addrs. rewrite fmap_cons, filter_cons in H3. case_decide; [|done]. by apply NoDup_cons in H3 as [_ ?].
  - intros y (z & -> & Hz)%list_elem_of_fmap. apply (H4 z). by right.
  - intros y (z & -> & Hz)%list_elem_of_fmap Hy. change (a_addr (hide (a_addr x) z)) with (a_addr z) in Hy. simpl.
    rewrite (H5 z) by (done || by right). simpl. apply negb_true_iff, bool_decide_eq_false. intros E.
    rewrite fmap_cons, filter_cons, decide_True in H3 by (by rewrite <-E). apply NoDup_cons in H3 as [Hn _]. apply Hn. rewrite <-E.
    apply list_elem_of_filter. split; [done|]. by apply list_elem_of_fmap_2.
  - intros y n (z & -> & Hz)%list_elem_of_fmap Hn. apply (H6 z); [by right|done].
  - done.
Qed.

Lemma spec_delete_perm (l : list agent) i x rest : l !! i = Some x → l ≡ₚ x :: rest → spec_delete l i x ≡ₚ hide (a_addr x) <$> rest.
Proof.
  intros Hx Hp. unfold spec_delete. apply (Permutation_cons_inv (a := hide (a_addr x) x)).
  rewrite <-(swap_out_perm (hide (a_addr x) <$> l) i (hide (a_addr x) x)) by (by rewrite list_lookup_fmap, Hx).
  by rewrite Hp.
Qed.
Lemma lookup_perm {A} (l : list A) i x : l !! i = Some x → ∃ rest, l ≡ₚ x :: rest.
Proof. intros Hx. exists (swap_out l i). by apply swap_out_perm. Qed.
Lemma uniq_delete (l : list agent) i x c : l !! i = Some x → uniq l c → uniq (spec_delete l i x) c.
Proof.
  intros Hx Hu. destruct (lookup_perm l i x Hx) as [rest Hp]. eapply uniq_perm; [symmetry; by apply spec_delete_perm|].
  apply uniq_hide. by eapply uniq_perm.
Qed.

(** An agent that goes was the only one with its name and with its address. *)
Lemma deleted_name (l : list agent) i x c y : l !! i = Some x → uniq l c → y ∈ spec_delete l i x → a_name y ≠ a_name x.
Proof.
  intros Hx Hu Hy E. destruct (lookup_perm l i x Hx) as [rest Hp]. rewrite (spec_delete_perm l i x rest Hx Hp) in Hy.
  apply list_elem_of_fmap in Hy as (z & -> & Hz). pose proof (uq_names _ _ (uniq_perm _ _ _ Hp Hu)) as Hn.
  apply NoDup_cons in Hn as [Hn _]. apply Hn. rewrite <-E. change (a_name (hide (a_addr x) z)) with (a_name z). by apply list_elem_of_fmap_2.
Qed.
Lemma deleted_addr (l : list agent) i x c y : l !! i = Some x → uniq l c → y ∈ spec_delete l i x → a_addr x ≠ any → a_addr y ≠ a_addr x.
Proof.
  intros Hx Hu Hy Hany E. destruct (lookup_perm l i x Hx) as [rest Hp]. rewrite (spec_delete_perm l i x rest Hx Hp) in Hy.
  apply list_elem_of_fmap in Hy as (z & -> & Hz). pose proof (uq_addrs _ _ (uniq_perm _ _ _ Hp Hu)) as Hn.
  rewrite fmap_cons, filter_cons, decide_True in Hn by done. apply NoDup_cons in Hn as [Hn _]. apply Hn. rewrite <-E.
  change (a_addr (hide (a_addr x) z)) with (a_addr z) in *. apply list_elem_of_filter. split; [congruence|]. by apply list_elem_of_fmap_2.
Qed.
Lemma spec_delete_in (l : list agent) i x y : l !! i = Some x → y ∈ spec_delete l i x → ∃ z, z ∈ l ∧ a_id y = a_id z ∧ a_name y = a_name z ∧ a_addr y = a_addr z.
Proof.
  intros Hx Hy. destruct (lookup_perm l i x Hx) as [rest Hp]. rewrite (spec_delete_perm l i x rest Hx Hp) in Hy.
  apply list_elem_of_fmap in Hy as (z & -> & Hz). exists z. split; [rewrite Hp; by right|done].
Qed.

Lemma not_found flag key k (l : list agent) : (∀ y, y ∈ l → flag y = true → key y ≠ k) → existsb (found flag key k) l = false.
Proof.
  intros H. apply not_true_is_false. intros (y & Hy & Hf)%existsb_exists. apply found_spec in Hf as [Hf Hk].
  eapply (H y); [by apply list_elem_of_In|done|done].
Qed.
Lemma uniq_add l c id name key ip :
  uniq l c → (∀ y, y ∈ l → a_id y ≠ id) → (∀ y, y ∈ l → a_name y ≠ name) → (ip.1 ≠ any → ∀ y, y ∈ l → a_addr y ≠ ip.1) →
  (∀ n, id_number id = Some n → n <= c) →
  uniq (spec_add md5 W_RAW_KEY l id name key ip) c.
Proof.
  intros [H1 H2 H3 H4 H5 H6 H7] Hid Hn Ha Hc. unfold spec_add. set (a := Agent _ _ _ _ _ _ _).
  assert (∀ {B} (f : agent → B) (Hf : ∀ y, y ∈ l → f y ≠ f a), NoDup (f <$> l) → NoDup (f <$> (l ++ [a]))) as Hnd.
  { intros B f Hf Hl. rewrite fmap_app. apply NoDup_app. split; [done|]. split; [|apply NoDup_singleton].
    intros y (z & -> & Hz)%list_elem_of_fmap Hy%list_elem_of_singleton. by apply (Hf z). }
  split.
  - by apply (Hnd _ a_id).
  - by apply (Hnd _ a_name).
  - rewrite fmap_app, filter_app. change (a_addr <$> [a]) with [ip.1]. rewrite filter_cons, filter_nil. case_decide as Hany; [|by rewrite app_nil_r].
    apply NoDup_app. split; [done|]. split; [|apply NoDup_singleton].
    intros y [_ (z & -> & Hz)%list_elem_of_fmap]%list_elem_of_filter Hy%list_elem_of_singleton. by apply (Ha Hany z).
  - intros y [Hy|Hy%list_elem_of_singleton]%elem_of_app; [by apply H4|]. subst y. simpl. apply negb_true_iff, not_found. intros y Hy _. by apply Hid.
  - intros y [Hy|Hy%list_elem_of_singleton]%elem_of_app; [by apply H5|]. subst y. intros Hany. simpl. apply negb_true_iff, not_found. intros y Hy _. by apply (Ha Hany).
  - intros y n [Hy|Hy%list_elem_of_singleton]%elem_of_app; [by apply H6|]. subst y. apply Hc.
  - done.
Qed.

Lemma uniq_find (l : list agent) c i x : uniq l c → l !! i = Some x → find_pos (found a_by_id a_id (a_id x)) l = Some i.
Proof.
  intros Hu Hx. destruct (find_pos _ l) as [j|] eqn:E.
  - apply find_pos_Some in E as (y & Hy & Hf). apply found_spec in Hf as [_ Hid]. f_equal.
    eapply NoDup_lookup; [apply Hu| |]; rewrite list_lookup_fmap, ?Hy, ?Hx; simpl; [|done]. by rewrite Hid.
  - assert (x ∈ l) as Hin by (by eapply list_elem_of_lookup_2). pose proof (find_pos_None _ _ x E Hin) as Hf.
    apply not_true_iff_false in Hf. exfalso. apply Hf, found_spec. split; [by apply (uq_by_id _ _ Hu)|done].
Qed.

Lemma uniq_find_name (l : list agent) c i x : uniq l c → l !! i = Some x → find_pos (λ y, bool_decide (a_name y = a_name x)) l = Some i.
Proof.
  intros Hu Hx. destruct (find_pos _ l) as [j|] eqn:E.
  - apply find_pos_Some in E as (y & Hy & Hf). apply bool_decide_eq_true in Hf. f_equal.
    eapply NoDup_lookup; [apply (uq_names _ _ Hu)| |]; rewrite list_lookup_fmap, ?Hy, ?Hx; simpl; [|done]. by rewrite Hf.
  - assert (x ∈ l) as Hin by (by eapply list_elem_of_lookup_2). pose proof (find_pos_None _ _ x E Hin) as Hf. by apply bool_decide_eq_false in Hf.
Qed.
Lemma uniq_find_addr (l : list agent) c i x :
  uniq l c → l !! i = Some x → a_addr x ≠ any → find_pos (found a_by_ip a_addr (a_addr x)) l = Some i.
Proof.
  intros Hu Hx Hany. assert (x ∈ l) as Hin by (by eapply list_elem_of_lookup_2). destruct (find_pos _ l) as [j|] eqn:E.
  - apply find_pos_Some in E as (y & Hy & Hf). apply found_spec in Hf as [_ Ha]. f_equal. destruct (decide (j = i)) as [|Hne]; [done|]. exfalso.
    destruct (lookup_perm l i x Hx) as [rest Hp]. pose proof (uq_addrs _ _ (uniq_perm _ _ _ Hp Hu)) as Hn.
    rewrite fmap_cons, filter_cons, decide_True in Hn by done. apply NoDup_cons in Hn as [Hn _]. apply Hn.
    apply list_elem_of_filter. split; [done|]. rewrite <-Ha. apply list_elem_of_fmap_2.
    assert (y ∈ x :: rest) as Hyr by (rewrite <-Hp; by eapply list_elem_of_lookup_2). apply elem_of_cons in Hyr as [->|]; [|done].
    exfalso. apply Hne. eapply NoDup_lookup; [apply (uq_ids _ _ Hu)| |]; by rewrite list_lookup_fmap, ?Hy, ?Hx.
  - pose proof (find_pos_None _ _ x E Hin) as Hf. apply not_true_iff_false in Hf. exfalso. apply Hf, found_spec. split; [|done]. by apply (uq_by_ip _ _ Hu).
Qed.

(** * New identifiers *)

Lemma scan_number_all ds : ds ≠ [] → Forall (λ c, isdigit c = true) ds → scan_number ds = Some (false, ds, []).
Proof.
  intros Hne Hds. pose proof (scan_number_digits ds 0 [] Hne Hds eq_refl) as H. revert H. unfold scan_number. destruct ds as [|d ds]; [done|].
  assert (48 <= d <= 57) as Hd.
  { apply Forall_cons in Hds as [H _]. unfold isdigit in H. apply andb_true_iff in H as [?%Z.leb_le ?%Z.leb_le]. lia. }
  assert (isspace d = false) as Hsp.
  { unfold isspace. rewrite (proj2 (Z.eqb_neq _ _)) by lia. simpl. rewrite (proj2 (Z.leb_le 9 d)) by lia. by rewrite (proj2 (Z.leb_gt d 13)) by lia. }
  cbn [span app]. rewrite Hsp. cbn [snd scan_sign]. rewrite !(proj2 (Z.eqb_neq _ _)) by lia. intros _. by rewrite span_end.
Qed.
Lemma fmt_03d_digits n : 0 <= n → fmt_03d n = zeros 3 (digits 20 n).
Proof. intros Hn. unfold fmt_03d. by rewrite (proj2 (Z.ltb_ge _ _)). Qed.
Lemma fmt_03d_isdigit n : 0 <= n → Forall (λ c, isdigit c = true) (fmt_03d n) ∧ fmt_03d n ≠ [].
Proof.
  intros Hn. rewrite fmt_03d_digits by done. split; [by apply zeros_isdigit, digits_isdigit|].
  unfold zeros. intros [_ H]%app_nil. by apply (digits_nonempty 19 n) in H.
Qed.
Lemma fmt_03d_length n w : (3 ≤ w)%nat → 0 <= n < 10 ^ Z.of_nat w → (length (fmt_03d n) ≤ w)%nat.
Proof.
  intros Hw Hn. rewrite fmt_03d_digits by lia. pose proof (digits_width 20 w n ltac:(lia) Hn) as Hl.
  unfold zeros. rewrite length_app, length_replicate. lia.
Qed.
Lemma id_number_fmt n : 0 <= n < 2147483648 → id_number (fmt_03d n) = Some n.
Proof.
  intros Hn. destruct (fmt_03d_isdigit n ltac:(lia)) as [Hd Hne]. unfold id_number, strtol. rewrite scan_number_all by done.
  rewrite fmt_03d_digits, undigits_zeros, undigits_digits by (cbn; lia). unfold LONG_MAX.
  rewrite (proj2 (Z.ltb_ge _ _)) by lia. rewrite (proj2 (Z.ltb_ge _ _)) by lia. f_equal. unfold int32. rewrite Z.mod_small by lia. lia.
Qed.

(** * The handlers *)

Notation authd := (authd (IP := IP)).
Notation replace_at := (replace_at sha1 wdb_get_agent_info).
Notation w_auth_validate_data := (w_auth_validate_data sha1 wdb_get_agent_info opendir).

(** The store holds the agents [l], which are unique. *)
Definition auth_inv (save : bool) (st : authd) (l : list agent) : Prop :=
  ∃ r, rep save (ad_keys st) (KSpec l r) ∧ uniq l (ks_id_counter (ad_keys st)).
Definition counter (st : authd) : Z := ks_id_counter (ad_keys st).

(** What is left when the agent at [p] is replaced. *)
Definition left_after (l : list agent) (p : option nat) (l' : list agent) : Prop :=
  match p with Some i => ∃ x, l !! i = Some x ∧ l' = spec_delete l i x | None => l' = l end.

Lemma replace_agent_ok save w st l i x e kh f :
  auth_inv save st l → l !! i = Some x → entry_of x i e → is_Some (a_raw x) →
  ∃ r st', w_auth_replace_agent sha1 wdb_get_agent_info w st e kh f = Some (r, st') ∧
    match r with
    | OS_INVALID => st' = st
    | OS_SUCCESS => auth_inv save st' (spec_delete l i x) ∧ counter st' = counter st ∧ ad_insert st' = ad_insert st
    end.
Proof.
  intros (rem & R & Hu) Hx (Hid & Hname & Hip & Hraw & _) [key Hkey]. unfold w_auth_replace_agent.
  destruct (negb (f_enabled f)); [by eexists _, _|]. rewrite Hid. cbn [mbind option_bind].
  destruct (wdb_get_agent_info (atoi (a_id x))) as [[[status|] [disc|] [date|]]|]; try (by eexists _, _).
  assert (∃ b : bool, (if long_disconnected (w_now w) f status disc && old_enough (w_now w) f date then other_key sha1 f e kh else Some false) = Some b) as [b ->].
  { destruct (_ && _); [|by eexists]. unfold other_key. destruct kh as [h|]; [|by eexists]. destruct (f_key_mismatch f); [|by eexists].
    unfold w_get_key_hash. rewrite Hid, Hname, Hraw, Hkey. by eexists. }
  cbn [mbind option_bind]. destruct b; [|by eexists _, _]. unfold add_remove, node_of. rewrite Hid, Hname, Hip. cbn [mbind option_bind].
  cbn [ad_keys]. destruct (rep_delete _ _ _ (a_id x) false i x R (uniq_find _ _ _ _ Hu Hx) Hx) as (s' & r & -> & R' & Hc).
  cbn [mbind option_bind]. eexists _, _. split; [done|]. split_and!; [|exact Hc|done]. exists r. split; [exact R'|]. simpl. rewrite Hc. by apply uniq_delete.
Qed.

Lemma replace_at_ok save w st l p kh f :
  auth_inv save st l → (∀ i, p = Some i → is_Some (l !! i)) →
  ∃ r st', replace_at w st (pos_Z p) kh f = Some (r, st') ∧
    match r with
    | OS_INVALID => st' = st
    | OS_SUCCESS => ∃ l', auth_inv save st' l' ∧ left_after l p l' ∧ counter st' = counter st ∧ ad_insert st' = ad_insert st
    end.
Proof.
  intros Hinv Hp. unfold Auth.replace_at. destruct p as [i|]; cbn [pos_Z].
  - rewrite (proj2 (Z.leb_le _ _)), Nat2Z.id by lia. destruct (Hp i eq_refl) as [x Hx]. pose proof Hinv as (rem & R & Hu).
    destruct (rep_entry_at _ _ _ i x R Hx) as (e & -> & Hof & Hraw). cbn [mbind option_bind].
    destruct (replace_agent_ok save w st l i x e kh f Hinv Hx Hof Hraw) as (r & st' & E & H). exists r, st'. split; [exact E|].
    destruct r; [|done]. destruct H as (? & ? & ?). eexists. split; [done|]. split; [|done]. by exists x.
  - eexists _, _. split; [done|]. exists l. by split_and!.
Qed.

Lemma found_lookup f (l : list agent) i : find_pos f l = Some i → is_Some (l !! i).
Proof. intros (x & Hx & _)%find_pos_Some. by eexists. Qed.
Lemma left_after_in l p l' y : left_after l p l' → y ∈ l' → ∃ z, z ∈ l ∧ a_id y = a_id z ∧ a_name y = a_name z ∧ a_addr y = a_addr z.
Proof.
  destruct p as [i|]; simpl; [|intros -> Hy; by exists y]. intros (x & Hx & ->) Hy. by eapply spec_delete_in.
Qed.
(** After the agent with an address or a name was replaced, none has it. *)
Lemma left_addr l c ip l' y :
  uniq l c → left_after l (find_pos (found a_by_ip a_addr ip) l) l' → ip ≠ any → y ∈ l' → a_addr y ≠ ip.
Proof.
  intros Hu Hl Hany Hy. destruct (find_pos _ l) as [i|] eqn:E; simpl in Hl.
  - destruct Hl as (x & Hx & ->). apply find_pos_Some in E as (x' & Hx' & Hf). assert (x' = x) as -> by congruence.
    apply found_spec in Hf as [_ <-]. by eapply deleted_addr.
  - subst l'. intros Ha. pose proof (find_pos_None _ _ y E Hy) as Hf. apply not_true_iff_false in Hf. apply Hf, found_spec.
    split; [|done]. apply (uq_by_ip _ _ Hu); [done|congruence].
Qed.
Lemma left_name l c name l' y :
  uniq l c → left_after l (find_pos (λ x, bool_decide (a_name x = name)) l) l' → y ∈ l' → a_name y ≠ name.
Proof.
  intros Hu Hl Hy. destruct (find_pos _ l) as [i|] eqn:E; simpl in Hl.
  - destruct Hl as (x & Hx & ->). apply find_pos_Some in E as (x' & Hx' & Hf). assert (x' = x) as -> by congruence.
    apply bool_decide_eq_true in Hf as <-. by eapply deleted_name.
  - subst l'. intros Ha. pose proof (find_pos_None _ _ y E Hy) as Hf. by apply bool_decide_eq_false in Hf.
Qed.
Lemma left_id l c id l' y : uniq l c → left_after l (find_pos (found a_by_id a_id id) l) l' → y ∈ l' → a_id y ≠ id.
Proof.
  intros Hu Hl Hy. destruct (find_pos _ l) as [i|] eqn:E; simpl in Hl.
  - destruct Hl as (x & Hx & ->). apply find_pos_Some in E as (x' & Hx' & Hf). assert (x' = x) as -> by congruence.
    apply found_spec in Hf as [_ <-]. destruct (lookup_perm l i x Hx) as [rest Hp]. rewrite (spec_delete_perm l i x rest Hx Hp) in Hy.
    apply list_elem_of_fmap in Hy as (z & -> & Hz). pose proof (uq_ids _ _ (uniq_perm _ _ _ Hp Hu)) as Hn. apply NoDup_cons in Hn as [Hn _].
    intros Ez. apply Hn. rewrite <-Ez. change (a_id (hide (a_addr x) z)) with (a_id z). by apply list_elem_of_fmap_2.
  - subst l'. intros Ha. pose proof (find_pos_None _ _ y E Hy) as Hf. apply not_true_iff_false in Hf. apply Hf, found_spec.
    split; [|done]. by apply (uq_by_id _ _ Hu).
Qed.

(** A request that was validated has a name and an address that are free. *)
Definition free_for (l : list agent) (ip name : cstr) : Prop :=
  (∀ y, y ∈ l → a_name y ≠ name) ∧ (ip ≠ any → ∀ y, y ∈ l → a_addr y ≠ ip).

Lemma validate_ok save w cfg st l ip name groups kh :
  auth_inv save st l →
  ∃ r resp st' l', w_auth_validate_data w cfg st ip name groups kh = Some (r, resp, st') ∧
    auth_inv save st' l' ∧ counter st' = counter st ∧ ad_insert st' = ad_insert st ∧ (r = OS_SUCCESS → free_for l' ip name ∧ name ≠ c_shost cfg).
Proof.
  intros Hinv. unfold Auth.w_auth_validate_data. destruct (match groups with Some g => _ | None => _ end) as [r0 resp].
  destruct r0; [|exists OS_INVALID, resp, st, l; by split_and!].
  assert (∃ r st1 l1, (if negb (strcmp ip ($"any") =? 0) then index ← OS_IsAllowedIP (ad_keys st) (Some ip); replace_at w st index kh (c_force_options cfg)
      else Some (OS_SUCCESS, st)) = Some (r, st1) ∧ auth_inv save st1 l1 ∧ counter st1 = counter st ∧ ad_insert st1 = ad_insert st ∧
      (r = OS_SUCCESS → ip ≠ any → ∀ y, y ∈ l1 → a_addr y ≠ ip)) as (r & st1 & l1 & -> & Hinv1 & Hc1 & Hi1 & Hip).
  { destruct (Z.eqb_spec (strcmp ip ($"any")) 0) as [->%strcmp_eq|Hne]; cbn [negb]; [by exists OS_SUCCESS, st, l|].
    pose proof Hinv as (rem & R & Hu). rewrite (rep_by_ip _ _ _ ip R). cbn [mbind option_bind sp_agents].
    destruct (replace_at_ok save w st l _ kh (c_force_options cfg) Hinv (found_lookup (found a_by_ip a_addr ip) l)) as (r & st1 & E & H).
    destruct r; [|subst st1; by exists OS_INVALID, st, l]. destruct H as (l1 & Hinv1 & Hl & Hc & Hi). exists OS_SUCCESS, st1, l1. split_and!; try done.
    intros _ Hany y Hy. by eapply left_addr. }
  cbn [mbind option_bind]. destruct r; [|eexists _, _, st1, l1; by split_and!].
  destruct (Z.eqb_spec (strcmp name (c_shost cfg)) 0) as [|Hhost]; [eexists _, _, st1, l1; by split_and!|].
  pose proof Hinv1 as (rem & R & Hu). rewrite (rep_by_name _ _ _ name R). cbn [mbind option_bind sp_agents].
  destruct (replace_at_ok save w st1 l1 _ kh (c_force_options cfg) Hinv1 (found_lookup (λ x, bool_decide (a_name x = name)) l1)) as (r & st2 & -> & H). cbn [mbind option_bind].
  destruct r; [|subst st2; eexists _, _, st1, l1; by split_and!]. destruct H as (l2 & Hinv2 & Hl & Hc & Hi).
  eexists _, _, st2, l2. split; [done|]. split; [done|]. split; [congruence|]. split; [congruence|]. intros _. split; [split|].
  - intros y Hy. by eapply left_name.
  - intros Hany y Hy. destruct (left_after_in _ _ _ _ Hl Hy) as (z & Hz & _ & _ & ->). by apply Hip.
  - intros ->. apply Hhost. by apply strcmp_eq.
Qed.

(** * Adding *)

(** An address that is stored as it is given. *)
Definition plain (ip : cstr) (addr : IP) : Prop := ∃ text, OS_IsValidIP ip = Some (text, addr) ∧ cut text = ip.

Lemma new_agent_ok save w s l r id name ip addr key :
  rep save s (KSpec l r) → uniq l (ks_id_counter s) → free_for l ip name → plain ip addr →
  match id with Some i => ∀ y, y ∈ l → a_id y ≠ i | None => ks_id_counter s < 2147483647 end →
  let id' := match id with Some i => i | None => fmt_03d (ks_id_counter s + 1) end in
  let key' := match key with Some k => k | None => new_key md5 w id' name ip end in
  ∃ s', OS_AddNewAgent OS_IsValidIP md5 alloc_node alloc_entry w s id name ip key = Some (Done (Z.of_nat (length l), s')) ∧
    rep save s' (KSpec (spec_add md5 W_RAW_KEY l id' name key' (ip, addr)) r) ∧
    uniq (spec_add md5 W_RAW_KEY l id' name key' (ip, addr)) (ks_id_counter s') ∧
    (id = None → ks_id_counter s' = ks_id_counter s + 1).
Proof using alloc_node_fresh alloc_entry_fresh.
  intros R Hu [Hname Haddr] (text & Hip & Hcut) Hid id' key'. unfold OS_AddNewAgent.
  assert (∃ n, new_id s id = Some (id', with_counter s n) ∧ ks_id_counter s <= n ∧ (∀ m, id_number id' = Some m → m <= n) ∧ (∀ y, y ∈ l → a_id y ≠ id') ∧
      (id = None → n = ks_id_counter s + 1)) as (n & -> & Hn & Hnum & Hfresh & Hnone).
  { pose proof (uq_pos _ _ Hu). unfold new_id. destruct id as [i|]; unfold id'.
    - unfold id_number. destruct (strtol i) as [[v rest] o]. destruct rest as [|c rest].
      + destruct (Z.ltb_spec (ks_id_counter s) (int32 v)).
        * exists (int32 v). split_and!; [done|lia|by intros m [= <-]|done|done].
        * exists (ks_id_counter s). split_and!; [by destruct s|lia|by intros m [= <-]|done|done].
      + exists (ks_id_counter s). split_and!; [by destruct s|lia|done|done|done].
    - rewrite (proj2 (Z.eqb_neq _ _)) by lia. exists (ks_id_counter s + 1). set (n := ks_id_counter s + 1) in *. cbv zeta.
      assert (id_number (fmt_03d n) = Some n) as Hidn by (apply id_number_fmt; lia).
      split_and!; [|lia| |intros y Hy E|done].
      + unfold snprintf. rewrite take_ge; [done|]. pose proof (fmt_03d_length n 10 ltac:(lia) ltac:(cbn; lia)). lia.
      + intros m. rewrite Hidn. intros [= <-]. lia.
      + pose proof (uq_counter _ _ Hu y n Hy ltac:(by rewrite E)). lia. }
  cbn [mbind option_bind].
  assert ((match key with Some k => k | None => new_key md5 w id' name ip end) = key') as -> by done.
  destruct (rep_add _ (with_counter s n) (KSpec l r) id' name ip key' (w_now w) text addr (rep_with_counter _ _ _ n R) Hip) as (s' & -> & R' & Hc).
  rewrite Hcut in R'. exists s'. cbn [sp_agents sp_removed] in *. split_and!; [done|exact R'| |].
  - rewrite Hc. apply uniq_add; [by eapply uniq_counter_le|done|done|done|done].
  - intros Hi. rewrite Hc. by apply Hnone.
Qed.

(** The last agent of the store, with its key. *)
Lemma rep_last save s l r id name key ip :
  rep save s (KSpec (spec_add md5 W_RAW_KEY l id name key ip) r) →
  ks_keysize s = S (length l) ∧ ∃ e, entry_at s (length l) = Some e ∧ k_id e = Some id ∧ k_name e = Some name ∧ k_ip e = Some ip ∧ k_raw_key e = Some key.
Proof.
  intros R. split; [rewrite (rep_size _ _ _ R); simpl; unfold spec_add; rewrite length_app; simpl; lia|].
  assert (∃ x, spec_add md5 W_RAW_KEY l id name key ip !! length l = Some x ∧ a_id x = id ∧ a_name x = name ∧ a_ip x = ip ∧ a_raw x = Some key)
    as (x & Hx & <- & <- & <- & Hr) by (unfold spec_add; rewrite lookup_app_r, Nat.sub_diag by lia; by eexists).
  destruct (rep_entry_at save s _ (length l) x R Hx) as (e & He & (H1 & H2 & H3 & H4 & _) & _). exists e. split_and!; try done. by rewrite H4.
Qed.

Lemma add_agent_ok save w st l ip name addr :
  auth_inv save st l → free_for l ip name → plain ip addr → counter st < 2147483647 →
  let id := fmt_03d (counter st + 1) in
  let key := new_key md5 w id name ip in
  ∃ st', w_auth_add_agent OS_IsValidIP md5 alloc_node alloc_entry w st ip name = Some (Done (inr (id, key)), st') ∧
    auth_inv save st' (spec_add md5 W_RAW_KEY l id name key (ip, addr)) ∧ counter st' = counter st + 1 ∧
    ad_insert st' = ad_insert st ∧ ad_remove st' = ad_remove st.
Proof using alloc_node_fresh alloc_entry_fresh.
  intros (r & R & Hu) Hfree Hip Hc id key. unfold w_auth_add_agent.
  destruct (new_agent_ok save w (ad_keys st) l r None name ip addr None R Hu Hfree Hip Hc) as (s' & -> & R' & Hu' & Hc').
  cbn [mbind option_bind]. rewrite (proj2 (Z.ltb_ge _ _)), Nat2Z.id by lia.
  destruct (rep_last _ _ _ _ _ _ _ _ R') as (_ & e & -> & Hid & _ & _ & Hkey). cbn [mbind option_bind]. rewrite Hid, Hkey. cbn [mbind option_bind].
  eexists. split; [done|]. split; [|split; [by apply Hc'|done]]. exists r. by split.
Qed.
End spec.
