(* ===== verification/AuthClaims.v ===== *)
(** The manager's side of the enrolment: its handlers from any reachable state,
    and the agent and the manager together. *)

From Stdlib Require Import (notations) String.
From S2P Require Import Prelude CLib LinkedQueue RBTree RBMap KeyStore KeyStoreSpec KeyFile AgentOp Auth AuthSpec.

Section claims.
Context {IP : Type} (OS_IsValidIP : cstr → option (cstr * IP)) (md5 sha1 : cstr → cstr).
Context (alloc_node : heap rb_node → loc) (alloc_entry : heap (@kentry IP) → loc).
Context (alloc_node_fresh : ∀ h, h !! alloc_node h = None) (alloc_entry_fresh : ∀ h, h !! alloc_entry h = None).
Context (wdb_get_agent_info : Z → option agent_info) (opendir : cstr → bool).
Notation agent := (agent (IP := IP)).
Notation authd := (authd (IP := IP)).
Notation auth_inv := (auth_inv (IP := IP)).
Notation plain := (plain OS_IsValidIP).
Notation process_message := (process_message OS_IsValidIP md5 sha1 alloc_node alloc_entry wdb_get_agent_info opendir).
Notation local_add := (local_add OS_IsValidIP md5 sha1 alloc_node alloc_entry wdb_get_agent_info opendir).

(** * The handlers *)

(** The answer to a request that was accepted. *)
Definition answer (id name ip key : cstr) : cstr := $"OSSEC K:'" ++ id ++ [32] ++ name ++ [32] ++ ip ++ [32] ++ key ++ $"'".

(** A message that is not accepted leaves the client refused; one that is adds
    one agent, the last of the list. *)
Definition outcome (save : bool) (w : world) (cfg : authd_config) (st st' : authd) (c' : client) (ip name : cstr) (groups : option cstr) (addr : IP) : Prop :=
  ∃ l', ad_insert st' = ad_insert st ∧
    if cl_enrollment_ok c' then
      let id := fmt_03d (counter st + 1) in let key := new_key md5 w id name ip in
      c' = Client ip (Some name) groups (Some id) true (snprintf MAX_SSL_MSG_SIZE (answer id name ip key)) ∧
      counter st' = counter st + 1 ∧ free_for l' ip name ∧ auth_inv save st' (spec_add md5 W_RAW_KEY l' id name key (ip, addr))
    else auth_inv save st' l'.

Lemma message_ok save w cfg st l c buf ip name groups kh addr :
  auth_inv save st l → w_auth_parse_data OS_IsValidIP cfg buf (cl_ip c) = Some (PRequest ip name groups kh) → plain ip addr → counter st < 2147483647 →
  ∃ c' st', process_message w cfg st c buf = Some (Done (c', st')) ∧ outcome save w cfg st st' c' ip name groups addr.
Proof using alloc_node_fresh alloc_entry_fresh.
  intros Hinv Hp Hip Hc. unfold Auth.process_message. rewrite Hp. cbn [mbind option_bind].
  destruct (validate_ok sha1 wdb_get_agent_info opendir save w cfg st l ip name groups kh Hinv) as (r & resp & st1 & l1 & -> & Hinv1 & Hc1 & Hi1 & Hfree).
  cbn [mbind option_bind]. destruct r; [|eexists _, st1; split; [done|]; by exists l1]. destruct (Hfree eq_refl) as [Hf _].
  destruct (add_agent_ok OS_IsValidIP md5 alloc_node alloc_entry alloc_node_fresh alloc_entry_fresh save w st1 l1 ip name addr Hinv1 Hf Hip
    ltac:(by rewrite Hc1)) as (st2 & -> & Hinv2 & Hc2 & Hi2 & _).
  cbn [mbind option_bind]. eexists _, st2. split; [done|]. exists l1. split; [congruence|]. cbn [cl_enrollment_ok]. rewrite Hc1 in *. by split_and!.
Qed.

Lemma removed_ok_inv save st l id purge :
  auth_inv save st l → ∃ r st' l', local_remove st id purge = Some (r, st') ∧ auth_inv save st' l' ∧
    match find_pos (found a_by_id a_id id) l with
    | Some i => r = RDeleted ∧ ∃ x, l !! i = Some x ∧ l' = spec_delete l i x
    | None => r = fail ENOAGENT ∧ st' = st ∧ l' = l
    end.
Proof.
  intros Hinv. pose proof Hinv as (rem & R & Hu). unfold local_remove. rewrite (rep_by_id _ _ _ id R). cbn [mbind option_bind sp_agents].
  destruct (find_pos _ l) as [i|] eqn:E; cbn [pos_Z]; [|by eexists _, st, l].
  rewrite (proj2 (Z.ltb_ge _ _)), Nat2Z.id by lia. destruct (find_pos_Some _ _ _ E) as (x & Hx & _).
  destruct (rep_entry_at _ _ _ i x R Hx) as (e & -> & (H1 & H2 & H3 & _) & _). cbn [mbind option_bind]. unfold add_remove, node_of. rewrite H1, H2, H3.
  cbn [mbind option_bind ad_keys]. destruct (rep_delete _ _ _ id purge i x R E Hx) as (s' & r & -> & R' & Hc). cbn [mbind option_bind].
  eexists _, _, _. split; [done|]. split; [|split; [done|by exists x]]. exists r. split; [exact R'|]. simpl. rewrite Hc. by apply uniq_delete.
Qed.

(** An agent that was found is looked for, and replaced or left. *)
Lemma replace_found save w st l flag key k kh f :
  auth_inv save st l →
  ∃ r st', replace_at sha1 wdb_get_agent_info w st (pos_Z (find_pos (found flag key k) l)) kh f = Some (r, st') ∧
    ∃ l', auth_inv save st' l' ∧ counter st' = counter st ∧ (r = OS_SUCCESS → left_after l (find_pos (found flag key k) l) l').
Proof.
  intros Hinv. destruct (replace_at_ok sha1 wdb_get_agent_info save w st l _ kh f Hinv (found_lookup (found flag key k) l)) as (r & st' & E & H).
  exists r, st'. split; [done|]. destruct r; [|subst st'; by exists l]. destruct H as (l' & ? & ? & ? & _). by exists l'.
Qed.

(** The address under which [local_add] adds an agent. *)
Definition local_address (ip : cstr) : option cstr :=
  if negb (strcmp ip ($"any") =? 0) then '(text, _) ← OS_IsValidIP ip; Some (take IPSIZE text) else Some (take IPSIZE ip).

Lemma local_ip_ok save w st l ip kh f :
  auth_inv save st l →
  ∃ r a st' l', local_ip OS_IsValidIP sha1 wdb_get_agent_info w st ip kh f = Some (r, a, st') ∧ auth_inv save st' l' ∧ counter st' = counter st ∧
    (r = None → local_address ip = Some a ∧ (a ≠ any → ∀ y, y ∈ l' → a_addr y ≠ a) ∧ ∀ y, y ∈ l' → ∃ z, z ∈ l ∧ a_id y = a_id z).
Proof.
  intros Hinv. unfold local_ip, local_address. destruct (Z.eqb_spec (strcmp ip ($"any")) 0) as [->%strcmp_eq|]; cbn [negb].
  { exists None, (take IPSIZE any), st, l. split_and!; try done. intros _. split_and!; try done. intros y Hy. by exists y. }
  destruct (OS_IsValidIP ip) as [[text ad]|]; [|exists (Some ENOIP), ip, st, l; by split_and!]. cbn [mbind option_bind]. set (a := take IPSIZE text).
  pose proof Hinv as (rem & R & Hu). rewrite (rep_by_ip _ _ _ a R). cbn [mbind option_bind sp_agents].
  destruct (replace_found save w st l a_by_ip a_addr a kh f Hinv) as (r & st2 & -> & l2 & Hinv2 & Hc2 & Hl). cbn [mbind option_bind].
  destruct r; [|by exists (Some EDUPIP), a, st2, l2]. specialize (Hl eq_refl). exists None, a, st2, l2. split_and!; try done.
  intros _. split; [done|]. split; [intros Hany y Hy; by eapply left_addr|]. intros y Hy.
  destruct (left_after_in _ _ _ _ Hl Hy) as (z & Hz & -> & _). by exists z.
Qed.

Lemma local_add_ok save w cfg st l id name ip groups key kh f :
  auth_inv save st l → (∀ a, local_address ip = Some a → ∃ addr, plain a addr) → counter st < 2147483647 →
  ∃ r st' l', local_add w cfg st id name ip groups key kh f = Some (Done (r, st')) ∧ auth_inv save st' l'.
Proof using alloc_node_fresh alloc_entry_fresh.
  intros Hinv Hip Hc. unfold Auth.local_add. destruct (match groups with Some g => _ | None => _ end); [|by eexists _, st, l].
  assert (∃ r st1 l1, (index ← (match id with Some i => OS_IsAllowedID (ad_keys st) (Some i) | None => Some (-1) end); replace_at sha1 wdb_get_agent_info w st index kh f) = Some (r, st1) ∧
      auth_inv save st1 l1 ∧ counter st1 = counter st ∧ (r = OS_SUCCESS → ∀ i, id = Some i → ∀ y, y ∈ l1 → a_id y ≠ i)) as (r & st1 & l1 & E1 & Hinv1 & Hc1 & Hid).
  { destruct id as [i|]; [|exists OS_SUCCESS, st, l; by split_and!]. pose proof Hinv as (rem & R & Hu). rewrite (rep_by_id _ _ _ i R). cbn [mbind option_bind sp_agents].
    destruct (replace_found save w st l a_by_id a_id i kh f Hinv) as (r & st1 & E & l1 & Hinv1 & Hc1 & Hl). exists r, st1, l1. split_and!; try done.
    intros -> i' [= <-] y Hy. eapply left_id; [exact Hu|by apply Hl|done]. }
  destruct (match id with Some i => OS_IsAllowedID (ad_keys st) (Some i) | None => Some (-1) end) as [index|]; [|done]. cbn [mbind option_bind] in *. rewrite E1.
  cbn [mbind option_bind]. destruct r; [|by eexists _, st1, l1]. specialize (Hid eq_refl).
  destruct (local_ip_ok save w st1 l1 ip kh f Hinv1) as (r & a & st2 & l2 & -> & Hinv2 & Hc2 & Hok).
  cbn [mbind option_bind]. destruct r as [e|]; [by eexists _, st2, l2|]. destruct (Hok eq_refl) as (Ha & Haddr & Hsub). clear Hok.
  destruct (Z.eqb_spec (strcmp name (c_shost cfg)) 0) as [|_]; [by eexists _, st2, l2|]. pose proof Hinv2 as (rem & R & Hu).
  rewrite (rep_by_name _ _ _ name R). cbn [mbind option_bind sp_agents].
  destruct (replace_at_ok sha1 wdb_get_agent_info save w st2 l2 _ kh f Hinv2 (found_lookup (λ x, bool_decide (a_name x = name)) l2)) as (r & st3 & -> & H).
  cbn [mbind option_bind]. destruct r; [|subst st3; by eexists _, st2, l2]. destruct H as (l3 & (rem3 & R3 & Hu3) & Hl3 & Hc3 & _).
  destruct (Hip a Ha) as [addr Hpl].
  assert (free_for l3 a name) as Hfree.
  { split; [intros y Hy; exact (left_name l2 _ name l3 y Hu Hl3 Hy)|]. intros Hany y Hy. destruct (left_after_in _ _ _ _ Hl3 Hy) as (z & Hz & _ & _ & ->). by apply Haddr. }
  destruct (new_agent_ok OS_IsValidIP md5 alloc_node alloc_entry alloc_node_fresh alloc_entry_fresh save w (ad_keys st3) l3 rem3 id name a addr key R3 Hu3 Hfree Hpl)
    as (s' & -> & R' & Hu' & _).
  { destruct id as [i|]; [|change (ks_id_counter (ad_keys st3)) with (counter st3); lia].
    intros y Hy. destruct (left_after_in _ _ _ _ Hl3 Hy) as (z & Hz & -> & _). destruct (Hsub z Hz) as (z' & Hz' & ->). by eapply Hid. }
  cbn [mbind option_bind]. rewrite (proj2 (Z.ltb_ge _ _)), Nat2Z.id by lia.
  destruct (rep_last md5 _ _ _ _ _ _ _ _ R') as (_ & e & -> & H1 & H2 & H3 & H4). cbn [mbind option_bind]. unfold add_insert, node_of. rewrite H1, H2, H3, H4.
  cbn [mbind option_bind]. eexists _, _, _. split; [done|]. exists rem3. by split.
Qed.

(** The agent that a client's outcome is about is the last one of the store. *)
Lemma enqueue_ok save st l ret c :
  auth_inv save st l → l ≠ [] →
  ∃ st' l', enqueue_pending_key st ret c = Some st' ∧ auth_inv save st' l' ∧
    (cl_enrollment_ok c = true → ret < 0 → ad_insert st' = ad_insert st ∧ ∃ x, last l = Some x ∧ l' = spec_delete l (length l - 1) x) ∧
    (cl_enrollment_ok c = true → 0 <= ret → l' = l ∧ ∃ x key, last l = Some x ∧ a_raw x = Some key ∧
      ad_insert st' = ad_insert st ++ [KeyNode (a_id x) (a_name x) (a_addr x) (Some key) (cl_centralized_group c)]).
Proof.
  intros Hinv Hne. pose proof Hinv as (rem & R & Hu). unfold enqueue_pending_key. destruct (cl_enrollment_ok c); [|exists st, l; by split_and!].
  rewrite (rep_size _ _ _ R). cbn [sp_agents]. destruct (Nat.eqb_spec (length l) 0) as [E0|_]; [by destruct l|].
  assert (length l ≠ 0%nat) as Hn by (by destruct l). destruct (lookup_lt_is_Some_2 l (length l - 1)) as [x Hx]; [lia|].
  assert (last l = Some x) as Hlast by (rewrite last_lookup; rewrite <-Hx; f_equal; lia).
  destruct (rep_entry_at _ _ _ _ x R Hx) as (e & -> & (H1 & H2 & H3 & H4 & _) & [key Hkey]). cbn [mbind option_bind].
  destruct (Z.ltb_spec ret 0).
  - rewrite H1. cbn [mbind option_bind].
    destruct (rep_delete _ _ _ (a_id x) true _ x R (uniq_find _ _ _ _ Hu Hx) Hx) as (s' & r & -> & R' & Hc). cbn [mbind option_bind].
    eexists _, _. split; [done|]. split; [exists r; split; [exact R'|]; simpl; rewrite Hc; by apply uniq_delete|]. split; [|lia]. intros _ _. split; [done|by exists x].
  - unfold add_insert, node_of. rewrite H1, H2, H3, H4, Hkey. cbn [mbind option_bind]. eexists _, l. split; [done|]. split; [by exists rem|].
    split; [lia|]. intros _ _. split; [done|]. by exists x, key.
Qed.

(** * Reachable states *)

(** A step: a client's message, the end of a client's answer, or a request on the
    local socket; addresses are stored as they are given. *)
Inductive auth_step (cfg : authd_config) : authd → authd → Prop :=
  | step_message w c buf c' st st' :
      (∀ ip name groups kh, w_auth_parse_data OS_IsValidIP cfg buf (cl_ip c) = Some (PRequest ip name groups kh) → ∃ addr, plain ip addr) →
      counter st < 2147483647 → process_message w cfg st c buf = Some (Done (c', st')) → auth_step cfg st st'
  | step_sent ret c st st' : enqueue_pending_key st ret c = Some st' → auth_step cfg st st'
  | step_add w id name ip groups key kh f r st st' :
      (∀ a, local_address ip = Some a → ∃ addr, plain a addr) → counter st < 2147483647 →
      local_add w cfg st id name ip groups key kh f = Some (Done (r, st')) → auth_step cfg st st'
  | step_remove id purge r st st' : local_remove st id purge = Some (r, st') → auth_step cfg st st'.

Definition auth_start (save : bool) (file : Z * Z) : authd := Authd (empty_store alloc_entry W_RAW_KEY save [] file) [] [] false.
Definition reachable (cfg : authd_config) (save : bool) (file : Z * Z) (st : authd) : Prop := rtc (auth_step cfg) (auth_start save file) st.

Lemma start_inv save file : auth_inv save (auth_start save file) [].
Proof.
  exists []. split; [apply rep_empty|]. split; try done; try (by constructor); try (intros x Hx; by apply not_elem_of_nil in Hx). intros x n Hx. by apply not_elem_of_nil in Hx.
Qed.

Lemma step_inv cfg save st st' l : auth_inv save st l → auth_step cfg st st' → ∃ l', auth_inv save st' l'.
Proof using alloc_node_fresh alloc_entry_fresh.
  intros Hinv Hs. inversion Hs as [w c buf c' ? ? Hpl Hc E|ret c ? ? E|w id name ip groups key kh f r ? ? Hpl Hc E|id purge r ? ? E]; subst.
  - destruct (w_auth_parse_data OS_IsValidIP cfg buf (cl_ip c)) as [[resp|ip name groups kh]|] eqn:Hp.
    + unfold Auth.process_message in E. rewrite Hp in E. injection E as <- <-. by exists l.
    + destruct (Hpl ip name groups kh eq_refl) as [addr Hip].
      destruct (message_ok save w cfg st l c buf ip name groups kh addr Hinv Hp Hip Hc) as (c1 & st1 & E1 & l1 & _ & H).
      rewrite E in E1. injection E1 as <- <-. destruct (cl_enrollment_ok c'); [|by exists l1]. destruct H as (_ & _ & _ & H). by eexists.
    + unfold Auth.process_message in E. by rewrite Hp in E.
  - destruct (decide (l = [])) as [->|Hne].
    + unfold enqueue_pending_key in E. destruct Hinv as (rem & R & Hu). rewrite (rep_size _ _ _ R) in E. simpl in E.
      destruct (cl_enrollment_ok c); [done|]. injection E as <-. exists []. by exists rem.
    + destruct (enqueue_ok save st l ret c Hinv Hne) as (st1 & l1 & E1 & H & _). rewrite E in E1. injection E1 as <-. by exists l1.
  - destruct (local_add_ok save w cfg st l id name ip groups key kh f Hinv Hpl Hc) as (r1 & st1 & l1 & E1 & H). rewrite E in E1. injection E1 as <- <-. by exists l1.
  - destruct (removed_ok_inv save st l id purge Hinv) as (r1 & st1 & l1 & E1 & H & _). rewrite E in E1. injection E1 as <- <-. by exists l1.
Qed.
Lemma reachable_inv cfg save file st : reachable cfg save file st → ∃ l, auth_inv save st l.
Proof using alloc_node_fresh alloc_entry_fresh.
  intros H. assert (∀ st0, rtc (auth_step cfg) st0 st → ∀ l, auth_inv save st0 l → ∃ l', auth_inv save st l') as Hr.
  { clear H. induction 1 as [st0|st0 st1 st2 Hs _ IH]; intros l Hl; [by exists l|]. destruct (step_inv cfg save st0 st1 l Hl Hs) as [l1 H1]. by eapply IH. }
  exact (Hr _ H [] (start_inv save file)).
Qed.

(** Every handler comes to an end without undefined behaviour and without leaving
    the process. *)
Definition answers (cfg : authd_config) (st : authd) : Prop :=
  (∀ w c buf, (∀ ip name groups kh, w_auth_parse_data OS_IsValidIP cfg buf (cl_ip c) = Some (PRequest ip name groups kh) → ∃ addr, plain ip addr) →
    is_Some (w_auth_parse_data OS_IsValidIP cfg buf (cl_ip c)) → counter st < 2147483647 → ∃ c' st', process_message w cfg st c buf = Some (Done (c', st'))) ∧
  (∀ ret c, ks_keysize (ad_keys st) ≠ 0%nat → is_Some (enqueue_pending_key st ret c)) ∧
  (∀ w id name ip groups key kh f, (∀ a, local_address ip = Some a → ∃ addr, plain a addr) → counter st < 2147483647 →
    ∃ r st', local_add w cfg st id name ip groups key kh f = Some (Done (r, st'))) ∧
  (∀ id purge, is_Some (local_remove st id purge)).

Lemma inv_answers cfg save st l : auth_inv save st l → answers cfg st.
Proof using alloc_node_fresh alloc_entry_fresh.
  intros Hinv. split_and!.
  - intros w c buf Hpl [[resp|ip name groups kh] Hp] Hc.
    + unfold Auth.process_message. rewrite Hp. by eexists _, _.
    + destruct (Hpl ip name groups kh Hp) as [addr Hip].
      destruct (message_ok save w cfg st l c buf ip name groups kh addr Hinv Hp Hip Hc) as (c' & st' & E & _). by exists c', st'.
  - intros ret c Hne. assert (l ≠ []) as Hl. { intros ->. destruct Hinv as (rem & R & _). by rewrite (rep_size _ _ _ R) in Hne. }
    destruct (enqueue_ok save st l ret c Hinv Hl) as (st' & _ & E & _). by exists st'.
  - intros w id name ip groups key kh f Hpl Hc. destruct (local_add_ok save w cfg st l id name ip groups key kh f Hinv Hpl Hc) as (r & st' & _ & E & _). by exists r, st'.
  - intros id purge. destruct (removed_ok_inv save st l id purge Hinv) as (r & st' & _ & E & _). by eexists.
Qed.

End claims.

(** * Instances *)

Module AuthDemo.
(** Every text but the empty one is an address, which is kept as it is. *)
Definition valid (s : cstr) : option (cstr * unit) := match s with [] => None | _ => Some (s, tt) end.
Definition hexdigest (s : cstr) : cstr := take 32 (filter (λ c, isalnum c = true) s ++ replicate 32 48).
Definition force : force_options := ForceOptions true false false 0 0.
Definition cfg : authd_config := AuthdConfig force false false None ($"manager").
Definition w : world := World 1700000000 5 7 ($"Linux").
Definition db (n : Z) : option agent_info := Some (AgentInfo (Some ($"never_connected")) (Some 0) (Some 0)).
Definition dirs (d : cstr) : bool := true.
Definition peer : client := Client ($"10.0.0.7") None None None false [].
Definition start : @authd unit := auth_start bump_alloc true (0, 0).

Definition handle := process_message valid hexdigest hexdigest bump_alloc bump_alloc db dirs.
Definition request (s : String.string) : list Z := lit s ++ [0].
Definition state_of (r : option (run (client * @authd unit))) (st : @authd unit) : @authd unit := match r with Some (Done (_, st)) => st | _ => st end.
Definition client_of (r : option (run (client * @authd unit))) : client := match r with Some (Done (c, _)) => c | _ => peer end.

Definition buf_a : list Z := request "OSSEC A:'web-01' V:'v5.0.0' G:'default'".
Definition buf_b : list Z := request "OSSEC A:'web-02' V:'v5.0.0' G:'linux,web'".
Definition r1 := handle w cfg start peer buf_a.
Definition st1 := state_of r1 start.
Definition r2 := handle w cfg st1 peer buf_b.
Definition st2 := state_of r2 st1.
End AuthDemo.
Import AuthDemo.

Lemma plain_any : plain valid any tt.
Proof. by exists any. Qed.
Lemma demo_reachable : reachable valid hexdigest hexdigest bump_alloc bump_alloc db dirs cfg true (0, 0) st1.
Proof.
  apply rtc_once. eapply (step_message valid hexdigest hexdigest bump_alloc bump_alloc db dirs cfg w peer buf_a).
  - intros ip name groups kh Hp. exists tt. assert (w_auth_parse_data valid cfg buf_a (cl_ip peer) = Some (PRequest any ($"web-01") (Some ($"default")) None)) as E by (vm_compute; reflexivity).
    rewrite E in Hp. injection Hp as <- <- <- <-. exact plain_any.
  - vm_compute. reflexivity.
  - instantiate (1 := client_of r1). vm_compute. reflexivity.
Qed.

