(* ===== verification/EnrollClaims.v ===== *)
(** The enrolment of an agent from end to end, and where it goes wrong. *)

From Stdlib Require Import (notations) String.
From S2P Require Import Prelude CLib OsMatchSpec OsStr OsStrSpec StringOp LinkedQueue RBTree RBMap KeyStore KeyStoreSpec KeyFile KeyStoreClaims.
From S2P Require Import AgentOp Auth Enroll EnrollSpec AuthSpec AuthClaims.

(** * The answer, as the agent reads it *)

(** The pieces of an answer: no space, quote, backslash or control character. *)
Definition piece_char (c : Z) : Prop := 32 < c < 127 ∧ c ≠ 39 ∧ c ≠ 92.
Lemma piece_last p : Forall piece_char p → last p ≠ Some 92.
Proof. intros Hp Hl. apply last_Some_elem_of in Hl. rewrite Forall_forall in Hp. by destruct (Hp 92 Hl) as (_ & _ & ?). Qed.
Lemma piece_no_space p : Forall piece_char p → Forall (λ c, c ≠ 32) p.
Proof. intros Hp. eapply Forall_impl; [exact Hp|]. intros c (? & _). cbv beta. lia. Qed.
Lemma piece_word p : Forall piece_char p → (length p < KEYSIZE)%nat → word p.
Proof. intros Hp Hl. split; [|done]. eapply Forall_impl; [exact Hp|]. intros c (? & _). unfold word_char. lia. Qed.

Lemma digits_pieces p : Forall (λ c, isdigit c = true) p → Forall piece_char p.
Proof.
  intros Hp. eapply Forall_impl; [exact Hp|]. intros c. unfold isdigit. rewrite andb_true_iff, !Z.leb_le. unfold piece_char. lia.
Qed.
Lemma name_pieces p : forallb name_char p = true → Forall piece_char p.
Proof.
  rewrite forallb_forall, Forall_forall. intros H c Hc. apply list_elem_of_In in Hc. specialize (H c Hc). unfold name_char, isalnum, isdigit in H.
  rewrite !orb_true_iff, !andb_true_iff, !Z.leb_le, !Z.eqb_eq in H. unfold piece_char. lia.
Qed.
Lemma valid_name_pieces p : OS_IsValidName p = true → Forall piece_char p.
Proof. unfold OS_IsValidName. destruct (_ || _); [done|]. apply name_pieces. Qed.

Section answer.
Context {IP : Type} (OS_IsValidIP : cstr → option (cstr * IP)).

Lemma key_accepted id name ip key :
  Forall (λ c, isdigit c = true) id → (length id ≤ 8)%nat → OS_IsValidName name = true → Forall piece_char ip → (length ip ≤ IPSIZE)%nat →
  is_Some (OS_IsValidIP ip) → OS_IsValidName key = true →
  w_enrollment_process_response OS_IsValidIP [answer id name ip key] true = Some (0, Some (key_text id name ip key)).
Proof.
  intros Hid Hidl Hn Hip Hipl [x Hx] Hk. pose proof (digits_pieces _ Hid) as Pid. pose proof (valid_name_pieces _ Hn) as Pn. pose proof (valid_name_pieces _ Hk) as Pk.
  cbn [w_enrollment_process_response]. assert (starts_with (answer id name ip key) ($"ERROR: ") = false) as -> by done. rewrite andb_false_r.
  assert (starts_with (answer id name ip key) ($"OSSEC K:'") = true) as -> by apply starts_with_app.
  unfold w_enrollment_process_agent_key. set (body := id ++ [32] ++ name ++ [32] ++ ip ++ [32] ++ key).
  assert (answer id name ip key = $"OSSEC K:'" ++ body ++ $"'") as -> by (unfold answer, body; by rewrite <-!app_assoc).
  rewrite (proj2 (Nat.leb_gt _ _)) by (rewrite !length_app; cbn; lia).
  change (drop 9 ($"OSSEC K:'" ++ body ++ $"'")) with (body ++ [39]).
  assert (Forall (λ c, 32 <= c < 127 ∧ c ≠ 39) body) as Hb.
  { assert (∀ p, Forall piece_char p → Forall (λ c, 32 <= c < 127 ∧ c ≠ 39) p) as Hp by (intros p Hp; eapply Forall_impl; [exact Hp|]; intros c (? & ? & _); cbv beta; lia).
    unfold body. repeat (apply Forall_app; split); try (by apply Hp); repeat constructor; lia. }
  unfold strchr. rewrite span_stop; [|eapply Forall_impl; [exact Hb|]; intros c [_ ?]; by rewrite (proj2 (Z.eqb_neq _ _))|done].
  destruct (valid_name_chars _ Hn) as [_ Ln]. destruct (valid_name_chars _ Hk) as [_ Lk].
  rewrite break_spec; [|done|done| |unfold strlen, body; rewrite !length_app; unfold IPSIZE in *; cbn [length]; lia|lia].
  2: { eapply Forall_impl; [exact Hb|]. intros c [? _]. unfold char_ok. lia. }
  cbn [mbind option_bind]. change (Z.to_nat 4 - 1)%nat with 3%nat. unfold body. cbn [app].
  rewrite !break_word by (by first [apply piece_no_space|rewrite app_nil_l; apply piece_last]). rewrite break_end by (by apply piece_no_space). cbn [app lookup list_lookup].
  assert (OS_IsValidID (Some id) = true) as ->.
  { unfold OS_IsValidID. rewrite (proj2 (Nat.ltb_ge _ _)) by done. apply forallb_forall. intros c Hc. rewrite Forall_forall in Hid. by apply Hid, list_elem_of_In. }
  cbn [mbind option_bind]. rewrite Hn, Hx. cbn [mbind option_bind andb]. rewrite Hk. cbn [mbind option_bind].
  unfold key_text. repeat (rewrite <-app_assoc; cbn [app]). done.
Qed.
End answer.

Section enrolment.
Context {IP : Type} (OS_IsValidIP : cstr → option (cstr * IP)) (md5 sha1 : cstr → cstr).
Context (alloc_node : heap rb_node → loc) (alloc_entry : heap (@kentry IP) → loc).
Context (alloc_node_fresh : ∀ h, h !! alloc_node h = None) (alloc_entry_fresh : ∀ h, h !! alloc_entry h = None).
Context (wdb_get_agent_info : Z → option agent_info) (opendir : cstr → bool).
Notation plain := (plain OS_IsValidIP).

(** The file that the agent wrote gives it the key of the manager. *)
Lemma agent_reads id name ip addr key stat :
  Forall (λ c, isdigit c = true) id → id ≠ [] → (length id ≤ 8)%nat → OS_IsValidName name = true → (length name < KEYSIZE)%nat →
  Forall piece_char ip → (length ip ≤ IPSIZE)%nat → plain ip addr → OS_IsValidName key = true → (length key < KEYSIZE)%nat →
  ∃ sa ea, OS_ReadKeys OS_IsValidIP md5 alloc_node alloc_entry true (Some (key_text id name ip key, stat)) [] W_ENCRYPTION_KEY false = Some (Done sa) ∧
    ks_keysize sa = 1%nat ∧ entry_at sa 0 = Some ea ∧ k_id ea = Some id ∧ k_name ea = Some name ∧
    k_encryption_key ea = Some (final_key md5 id name key).
Proof using alloc_node_fresh alloc_entry_fresh.
  intros Hid Hne Hidl Hn Hnl Hip Hipl (text & Hv & Hcut) Hk Hkl. set (a := Agent id name (ip, addr) (Some key) None true true).
  assert (word ip) as Wip by (apply piece_word; [done|unfold IPSIZE, KEYSIZE in *; lia]).
  assert (∀ p, Forall (λ c, 45 <= c) p → starts [35; 33] p) as Hst.
  { intros p Hp. destruct p as [|c p]; [done|]. apply Forall_cons in Hp as [Hc _]. simpl. rewrite !not_elem_of_cons. split_and!; [lia|lia|apply not_elem_of_nil]. }
  assert (file_inv OS_IsValidIP (λ _, None) false (KSpec [a] [])) as Hf.
  { split_and!; [|done|done]. apply Forall_singleton. exists key. split; [done|]. split; [split_and!|split_and!].
    - apply piece_word; [by apply digits_pieces|unfold KEYSIZE; simpl; lia].
    - done.
    - simpl. destruct id as [|c id]; [done|]. apply Forall_cons in Hid as [Hc _]. unfold isdigit in Hc. rewrite andb_true_iff, !Z.leb_le in Hc. simpl.
      rewrite not_elem_of_cons. split; [lia|apply not_elem_of_nil].
    - apply piece_word; [by apply valid_name_pieces|done].
    - apply Hst. destruct (valid_name_chars _ Hn) as [Hc _]. eapply Forall_impl; [exact Hc|]. intros c Hc'. cbv beta in *. lia.
    - destruct (valid_name_chars _ Hk) as [Hc _]. eapply Forall_impl; [exact Hc|]. intros c Hc'. cbv beta in *. unfold text_char. lia.
    - done.
    - done.
    - done.
    - by exists text. }
  destruct (read_back OS_IsValidIP (λ _, None) md5 alloc_node alloc_entry alloc_node_fresh alloc_entry_fresh W_ENCRYPTION_KEY false [a] [] stat Hf) as (sa & E & R).
  cbn [map concat] in E. rewrite !app_nil_r in E. exists sa. change (agent_text (λ _, None) a) with (key_text id name ip key) in E.
  destruct R as (xs & sender & mid & mip & Ea & R). simpl in Ea. unfold spec_reread, spec_add in Ea. cbn [app has_raw has_enc existsb negb] in Ea.
  destruct xs as [|x [|]]; try done. cbn [fmap list_fmap] in Ea. injection Ea as Ex. destruct (rep_entry _ _ _ _ _ _ _ _ R 0 x eq_refl) as (ea & Hea & H1 & H2 & _ & _ & H5 & _).
  rewrite <-Ex in *. exists ea. split; [exact E|]. split; [exact (kr_size _ _ _ _ _ _ _ _ R)|]. done.
Qed.

Definition md5_ok : Prop := ∀ s, length (md5 s) = 32%nat ∧ forallb isalnum (md5 s) = true.

Lemma new_key_valid w id name ip : md5_ok → OS_IsValidName (new_key md5 w id name ip) = true ∧ length (new_key md5 w id name ip) = 64%nat.
Proof.
  intros Hmd. unfold new_key. set (s1 := snprintf STR_SIZE _). set (s2 := snprintf STR_SIZE _). destruct (Hmd s1) as [L1 C1]. destruct (Hmd s2) as [L2 C2].
  unfold snprintf, KEYSIZE. assert (length (md5 s1 ++ md5 s2) = 64%nat) as L by (rewrite length_app; lia). rewrite take_ge by lia. split; [|done].
  unfold OS_IsValidName. rewrite L. simpl. apply forallb_forall. intros c [Hc|Hc]%in_app_or.
  - rewrite forallb_forall in C1. unfold name_char. by rewrite C1.
  - rewrite forallb_forall in C2. unfold name_char. by rewrite C2.
Qed.

(** A request without conflicts is added. *)
Lemma accepted save w cfg st l c buf ip name groups kh addr :
  auth_inv save st l → w_auth_parse_data OS_IsValidIP cfg buf (cl_ip c) = Some (PRequest ip name groups kh) → plain ip addr → counter st < 2147483647 →
  OS_IsAllowedName (ad_keys st) name = Some (-1) → (ip = any ∨ OS_IsAllowedIP (ad_keys st) (Some ip) = Some (-1)) → name ≠ c_shost cfg →
  (∀ g, groups = Some g → (w_auth_validate_groups opendir g).1 = OS_SUCCESS) →
  let id := fmt_03d (counter st + 1) in let key := new_key md5 w id name ip in
  ∃ st', process_message OS_IsValidIP md5 sha1 alloc_node alloc_entry wdb_get_agent_info opendir w cfg st c buf =
      Some (Done (Client ip (Some name) groups (Some id) true (snprintf MAX_SSL_MSG_SIZE (answer id name ip key)), st')) ∧
    auth_inv save st' (spec_add md5 W_RAW_KEY l id name key (ip, addr)) ∧ ad_insert st' = ad_insert st ∧ ad_remove st' = ad_remove st.
Proof using alloc_node_fresh alloc_entry_fresh.
  intros Hinv Hp Hip Hc Hname Haddr Hhost Hg id key. pose proof Hinv as (rem & R & Hu). unfold process_message. rewrite Hp. cbn [mbind option_bind].
  assert (w_auth_validate_data sha1 wdb_get_agent_info opendir w cfg st ip name groups kh = Some (OS_SUCCESS, [], st)) as ->.
  { unfold w_auth_validate_data.
    assert (∃ resp, (match groups with Some g => w_auth_validate_groups opendir g | None => (OS_SUCCESS, []) end) = (OS_SUCCESS, resp)) as [resp ->].
    { destruct groups as [g|]; [|by eexists]. specialize (Hg g eq_refl). destruct (w_auth_validate_groups opendir g) as [r resp]. simpl in Hg. subst r. by eexists. }
    assert ((if negb (strcmp ip ($"any") =? 0) then index ← OS_IsAllowedIP (ad_keys st) (Some ip); replace_at sha1 wdb_get_agent_info w st index kh (c_force_options cfg)
      else Some (OS_SUCCESS, st)) = Some (OS_SUCCESS, st)) as ->.
    { destruct (Z.eqb_spec (strcmp ip ($"any")) 0) as [|Hne]; cbn [negb]; [done|]. destruct Haddr as [->| ->]; [|done]. exfalso. apply Hne. by apply strcmp_eq. }
    cbn [mbind option_bind]. rewrite (proj2 (Z.eqb_neq _ _)) by (by rewrite strcmp_eq). rewrite Hname. done. }
  cbn [mbind option_bind].
  assert (free_for l ip name) as Hfree.
  { assert (∀ o : option nat, pos_Z o = -1 → o = None) as Hnone by (intros [i|]; [cbn; lia|done]). split.
    - rewrite (rep_by_name _ _ _ _ R) in Hname. injection Hname as Hn%Hnone. intros y Hy E. pose proof (find_pos_None _ _ y Hn Hy) as Hf. by apply bool_decide_eq_false in Hf.
    - intros Hany. destruct Haddr as [->|Ha]; [done|]. rewrite (rep_by_ip _ _ _ _ R) in Ha. injection Ha as Ha%Hnone. intros y Hy E.
      pose proof (find_pos_None _ _ y Ha Hy) as Hf. apply not_true_iff_false in Hf. apply Hf, found_spec. split; [|done]. apply (uq_by_ip _ _ Hu); [done|congruence]. }
  destruct (add_agent_ok OS_IsValidIP md5 alloc_node alloc_entry alloc_node_fresh alloc_entry_fresh save w st l ip name addr Hinv Hfree Hip Hc) as (st2 & -> & Hinv2 & _ & Hi & Hr).
  cbn [mbind option_bind]. exists st2. by split_and!.
Qed.

End enrolment.

(** * Instances *)

Import AuthDemo.

(** The agent that enrols after the first one. *)
Definition agent_cfg : enrollment := Enrollment (Some ($"web-02")) (Some ($"linux,web")) None false None (Some ($"v5.0.0")) true.

Lemma hexdigest_ok : md5_ok hexdigest.
Proof.
  intros s. unfold hexdigest. split; [rewrite length_take, length_app, length_replicate; lia|].
  apply forallb_forall. intros c Hc. apply list_elem_of_In, elem_of_take in Hc as (i & Hc & _). apply list_elem_of_lookup_2 in Hc.
  apply elem_of_app in Hc as [Hc|Hc]; [by apply list_elem_of_filter in Hc as [? _]|]. apply elem_of_replicate in Hc as [-> _]. done.
Qed.
Lemma demo_request : request_ok valid hexdigest cfg agent_cfg ($"web-02") None None.
Proof.
  split; try done.
  - by left.
  - intros v [= <-]. split_and!; [apply Forall_forall; intros c Hc; vm_compute in Hc; unfold field_char;
      repeat (apply elem_of_cons in Hc as [->|Hc]; [lia|]); by apply not_elem_of_nil in Hc|vm_compute; lia|]. right. exists 0. split; [vm_compute; reflexivity|lia].
  - intros g [= <-]. split; vm_compute; done.
Qed.


(** * Where it goes wrong *)


(** The check for a duplicate address compares the text with its prefix length
    with the addresses of the store, which are without it: two agents enrol with
    the same network, and both are in the store under one address. *)
Theorem duplicate_network :
  let net := "OSSEC A:'web-01' IP:'10.0.0.0/24'"%string in let net2 := "OSSEC A:'web-02' IP:'10.0.0.0/24'"%string in
  let st := state_of (handle w cfg start peer (request net)) start in
  let r := handle w cfg st peer (request net2) in
  cl_enrollment_ok (client_of r) = true ∧
  (λ i, e ← entry_at (ad_keys (state_of r st)) i; ip ← k_ip e; Some ip.1) <$> [0%nat; 1%nat] = [Some ($"10.0.0.0"); Some ($"10.0.0.0")].
Proof. vm_compute. split; reflexivity. Qed.

(** A version of nine characters or more leaves [compare_wazuh_versions] with a
    buffer that has no end. *)
Theorem version_unterminated : w_auth_parse_data valid cfg (request "OSSEC A:'web-01' V:'v10.10.100'") ($"10.0.0.7") = None.
Proof. vm_compute. reflexivity. Qed.

(** An answer with fewer than four pieces makes the agent take the length of a
    null pointer. *)
Theorem answer_too_short :
  w_enrollment_process_response valid [$"OSSEC K:'001'"] true = None ∧ w_enrollment_process_response valid [$"OSSEC K:'001 web-01 any'"] true = None ∧
  w_enrollment_process_response valid [$"OSSEC K:'001 web-01'"] true = Some (-1, None).
Proof. vm_compute. split_and!; reflexivity. Qed.

(** A name of 128 characters is valid, and is cut to 127 when the keys are read. *)
Theorem long_name_cut :
  let name := replicate 128 97 in
  OS_IsValidName name = true ∧
  match OS_ReadKeys valid hexdigest bump_alloc bump_alloc true (Some (key_text ($"001") name any ($"k1"), (1, 1))) [] W_RAW_KEY false with
  | Some (Done s) => (e ← entry_at s 0; k_name e) = Some (replicate 127 97)
  | _ => False
  end.
Proof. vm_compute. split; reflexivity. Qed.

(** With a name of 55 characters or more and a date of ten digits, the first
    half of a new key does not depend on the random number. *)
Lemma long_name_predictable w w' name :
  length (fmt_d (int32 (w_now w))) = 10%nat → w_now w' = w_now w → (55 ≤ length name)%nat →
  snprintf STR_SIZE (fmt_d (int32 (w_now w)) ++ name ++ fmt_d (w_rand1 w) ++ w_uname w) =
  snprintf STR_SIZE (fmt_d (int32 (w_now w')) ++ name ++ fmt_d (w_rand1 w') ++ w_uname w').
Proof.
  intros Hl Hn Hnm. rewrite Hn. unfold snprintf. rewrite !(app_assoc (fmt_d _) name).
  assert (Z.to_nat (STR_SIZE - 1) ≤ length (fmt_d (int32 (w_now w)) ++ name))%nat as Hle.
  { rewrite length_app. change (Z.to_nat (STR_SIZE - 1)) with 65%nat. lia. }
  by rewrite !(take_app_le _ _ _ Hle).
Qed.
