(* ===== verification/Calendar.v ===== *)
(** What the sources use of the C library on dates: the Gregorian calendar,
    [localtime] and [mktime] in a time zone without daylight saving time.  Years
    are counted from March, so that a leap day is the last of its year. *)

From S2P Require Import Prelude.

(** [struct tm], without the day of the year. *)
Record tm := Tm { tm_sec : Z; tm_min : Z; tm_hour : Z; tm_mday : Z; tm_mon : Z; tm_year : Z; tm_wday : Z; tm_isdst : Z }.

(** The days before a year, since 1 March of the year 0, and before the months
    of a year; and those up to 1 January 1970. *)
Definition year_start (y : Z) : Z := 365 * y + y / 4 - y / 100 + y / 400.
Definition month_start (m : Z) : Z := (153 * m + 2) / 5.
Definition EPOCH : Z := 719468.

(** The day, since 1970, of a date whose month and day may be out of range. *)
Definition days_of (year mon mday : Z) : Z :=
  let m := 12 * (year + 1900) + mon - 2 in year_start (m / 12) + month_start (m mod 12) + mday - 1 - EPOCH.

(** The year of a day since 1 March of the year 0. *)
Definition year_of (z : Z) : Z :=
  let e := z * 400 / 146097 in if z <? year_start e then e - 1 else if year_start (e + 1) <=? z then e + 1 else e.

(** The year, month and day of a day since 1970. *)
Definition date_of (day : Z) : Z * Z * Z :=
  let z := day + EPOCH in
  let doy := z - year_start (year_of z) in
  let mp := (5 * doy + 2) / 153 in
  let m := 12 * year_of z + mp + 2 in
  (m / 12 - 1900, m mod 12, doy - month_start mp + 1).

Section zone.
(** The seconds east of Greenwich. *)
Context (gmtoff : Z).

Definition localtime (t : Z) : tm :=
  let s := t + gmtoff in
  let day := s / 86400 in
  let sec := s mod 86400 in
  let '(year, mon, mday) := date_of day in
  Tm (sec mod 60) (sec / 60 mod 60) (sec / 3600) mday mon year ((day + 4) mod 7) 0.

(** [mktime]: the time, and the fields in their ranges. *)
Definition time_of (d : tm) : Z :=
  86400 * days_of (tm_year d) (tm_mon d) (tm_mday d) + 3600 * tm_hour d + 60 * tm_min d + tm_sec d - gmtoff.
Definition mktime (d : tm) : Z * tm := let t := time_of d in (t, localtime t).
End zone.

(** * Facts *)

(** Linear arithmetic with division by constants. *)
Ltac zlia := Z.to_euclidean_division_equations; lia.

Lemma year_of_bounds z : year_start (year_of z) <= z < year_start (year_of z + 1).
Proof.
  unfold year_of, year_start. set (e := z * 400 / 146097). assert (146097 * e <= z * 400 < 146097 * e + 146097) as He by (unfold e; zlia). clearbody e.
  destruct (Z.ltb_spec z (365 * e + e / 4 - e / 100 + e / 400)) as [H1|H1]; [zlia|].
  destruct (Z.leb_spec (365 * (e + 1) + (e + 1) / 4 - (e + 1) / 100 + (e + 1) / 400) z) as [H2|H2]; zlia.
Qed.
Lemma year_start_mono y y' : y < y' → year_start y + 365 <= year_start y'.
Proof. unfold year_start. zlia. Qed.
Lemma year_of_unique y z : year_start y <= z < year_start (y + 1) → year_of z = y.
Proof.
  intros H. pose proof (year_of_bounds z) as H'. destruct (Z.lt_trichotomy (year_of z) y) as [Hl|[Hl|Hl]]; [|done|].
  - destruct (Z.eq_dec (year_of z + 1) y) as [<-|]; [zlia|]. pose proof (year_start_mono (year_of z + 1) y ltac:(zlia)). zlia.
  - destruct (Z.eq_dec (y + 1) (year_of z)) as [E|]; [rewrite E in *; zlia|]. pose proof (year_start_mono (y + 1) (year_of z) ltac:(zlia)). zlia.
Qed.
Lemma year_length y : year_start (y + 1) <= year_start y + 366.
Proof. unfold year_start. zlia. Qed.

(** A day has one date. *)
Lemma days_of_date day : let '(year, mon, mday) := date_of day in days_of year mon mday = day ∧ 0 <= mon < 12 ∧ 1 <= mday <= 31.
Proof.
  unfold date_of. set (z := day + EPOCH). pose proof (year_of_bounds z) as Hy. pose proof (year_length (year_of z)) as Hl. set (doy := z - year_start (year_of z)).
  assert (0 <= doy < 366) as Hd by zlia. set (mp := (5 * doy + 2) / 153). assert (0 <= mp <= 11) as Hmp by (unfold mp; zlia).
  assert (month_start mp <= doy < month_start mp + 31) as Hm by (unfold month_start, mp; zlia).
  cbv zeta. split; [|zlia]. unfold days_of. cbv zeta.
  replace (12 * ((12 * year_of z + mp + 2) / 12 - 1900 + 1900) + (12 * year_of z + mp + 2) mod 12 - 2) with (12 * year_of z + mp) by zlia.
  replace ((12 * year_of z + mp) / 12) with (year_of z) by zlia. replace ((12 * year_of z + mp) mod 12) with mp by zlia. unfold doy, z. zlia.
Qed.

(** The shortest month has 28 days: a date up to there is the date of its day. *)
Lemma date_of_days year mon mday : 0 <= mon < 12 → 1 <= mday <= 28 → date_of (days_of year mon mday) = (year, mon, mday).
Proof.
  intros Hm Hd. unfold days_of. cbv zeta. set (m := 12 * (year + 1900) + mon - 2). unfold date_of. cbv zeta.
  replace (year_start (m / 12) + month_start (m mod 12) + mday - 1 - EPOCH + EPOCH) with (year_start (m / 12) + month_start (m mod 12) + mday - 1) by zlia.
  assert (0 <= m mod 12 <= 11) as Hmm by zlia. set (mp := m mod 12) in *. assert (0 <= month_start mp + mday - 1 < 365) as Hb by (unfold month_start; zlia).
  rewrite (year_of_unique (m / 12)); [|pose proof (year_start_mono (m / 12) (m / 12 + 1) ltac:(zlia)); zlia].
  replace (year_start (m / 12) + month_start mp + mday - 1 - year_start (m / 12)) with (month_start mp + mday - 1) by zlia.
  assert ((5 * (month_start mp + mday - 1) + 2) / 153 = mp) as -> by (unfold month_start; zlia).
  assert (12 * (m / 12) + mp = m) as Hmd by (unfold mp; zlia). rewrite Hmd. unfold m. f_equal; [f_equal|]; zlia.
Qed.

Lemma time_of_localtime off t : time_of off (localtime off t) = t.
Proof.
  unfold time_of, localtime. cbv zeta. pose proof (days_of_date ((t + off) / 86400)) as H. destruct (date_of ((t + off) / 86400)) as [[y m] d]. destruct H as [H _].
  cbn [tm_sec tm_min tm_hour tm_mday tm_mon tm_year]. rewrite H. zlia.
Qed.

(** The months follow each other. *)
Definition month_first (m : Z) : Z := year_start (m / 12) + month_start (m mod 12).
Lemma month_first_next m : month_first m + 28 <= month_first (m + 1).
Proof.
  unfold month_first. pose proof (year_start_mono (m / 12) (m / 12 + 1) ltac:(lia)) as Hy. destruct (Z.eq_dec (m mod 12) 11) as [H|H].
  - replace ((m + 1) / 12) with (m / 12 + 1) by zlia. replace ((m + 1) mod 12) with 0 by zlia. rewrite H. change (month_start 11) with 337. change (month_start 0) with 0. lia.
  - replace ((m + 1) / 12) with (m / 12) by zlia. replace ((m + 1) mod 12) with (m mod 12 + 1) by zlia. unfold month_start. zlia.
Qed.
Lemma month_first_mono m k : 0 <= k → month_first m <= month_first (m + k).
Proof.
  intros Hk. revert k Hk. apply natlike_ind; [rewrite Z.add_0_r; lia|]. intros k Hk IH. pose proof (month_first_next (m + k)). replace (m + Z.succ k) with (m + k + 1) by lia. lia.
Qed.
Lemma days_of_month year mon mday : days_of year mon mday = month_first (12 * (year + 1900) + mon - 2) + mday - 1 - EPOCH.
Proof. done. Qed.

(** A day is before the first day of the next month. *)
Lemma date_of_next day : let '(year, mon, _) := date_of day in day < days_of year (mon + 1) 1.
Proof.
  unfold date_of. set (z := day + EPOCH). pose proof (year_of_bounds z) as Hy. pose proof (year_length (year_of z)) as Hl. set (doy := z - year_start (year_of z)).
  assert (0 <= doy < 366) as Hd by lia. set (mp := (5 * doy + 2) / 153). assert (0 <= mp <= 11) as Hmp by (unfold mp; zlia). cbv zeta. rewrite days_of_month.
  replace (12 * ((12 * year_of z + mp + 2) / 12 - 1900 + 1900) + ((12 * year_of z + mp + 2) mod 12 + 1) - 2) with (12 * year_of z + mp + 1) by zlia.
  unfold month_first. destruct (Z.eq_dec mp 11) as [H|H].
  - replace ((12 * year_of z + mp + 1) / 12) with (year_of z + 1) by zlia. replace ((12 * year_of z + mp + 1) mod 12) with 0 by zlia. change (month_start 0) with 0. unfold z in *. lia.
  - replace ((12 * year_of z + mp + 1) / 12) with (year_of z) by zlia. replace ((12 * year_of z + mp + 1) mod 12) with (mp + 1) by zlia.
    assert (doy < month_start (mp + 1)) by (unfold month_start, mp; zlia). unfold doy, z in *. lia.
Qed.
