(* ===== verification/Schedule.v ===== *)
(** The schedule of a module's scans: src/shared/schedule_scan.c, with the checks
    of days, times and intervals of src/shared/validate_op.c. *)

From S2P Require Import Prelude CLib OsMatch OsStr Xml Calendar.

Definition WM_DEF_INTERVAL : Z := 86400.
Definition UINT_MAX : Z := 4294967295.

Record sched_scan_config := Sched {
  scan_day : Z; scan_wday : Z; scan_time : option cstr; interval : Z; month_interval : bool;
  next_scheduled_scan_time : Z; time_start : Z; daylight : Z
}.

(** interval, day, wday and time *)
Definition XML_INTERVAL : cstr := [105; 110; 116; 101; 114; 118; 97; 108].
Definition XML_SCAN_DAY : cstr := [100; 97; 121].
Definition XML_WEEK_DAY : cstr := [119; 100; 97; 121].
Definition XML_TIME : cstr := [116; 105; 109; 101].

Definition is_sched_tag (tag : cstr) : bool :=
  (strcmp tag XML_INTERVAL =? 0) || (strcmp tag XML_SCAN_DAY =? 0) || (strcmp tag XML_WEEK_DAY =? 0) || (strcmp tag XML_TIME =? 0).

Definition sched_scan_init : sched_scan_config := Sched 0 (-1) None WM_DEF_INTERVAL false 0 0 (-1).

(** ** The checks *)

(** [RM_WHITE] *)
Definition rm_white (s : cstr) : cstr := (span (λ c, c =? 32) s).2.

(** The names of the days, in the order in which they are tried. *)
Definition DAYS : list (cstr * Z) :=
  [([115; 117; 110; 100; 97; 121], 0); ([115; 117; 110], 0); ([109; 111; 110; 100; 97; 121], 1); ([109; 111; 110], 1);
   ([116; 117; 101; 115; 100; 97; 121], 2); ([116; 117; 101], 2); ([119; 101; 100; 110; 101; 115; 100; 97; 121], 3); ([119; 101; 100], 3);
   ([116; 104; 117; 114; 115; 100; 97; 121], 4); ([116; 104; 117], 4); ([102; 114; 105; 100; 97; 121], 5); ([102; 114; 105], 5);
   ([115; 97; 116; 117; 114; 100; 97; 121], 6); ([115; 97; 116], 6)].
Fixpoint find_day (s : cstr) (days : list (cstr * Z)) : Z :=
  match days with
  | [] => -1
  | (name, n) :: days => if strncasecmp s name (length name) =? 0 then n else find_day s days
  end.
Definition w_validate_wday (day_str : option cstr) : Z := match day_str with None => -1 | Some s => find_day (rm_white s) DAYS end.

(** ["%d"] of [scanf]: the number as an [int], and the rest. *)
Definition scan_d (s : cstr) : option (Z * cstr) := '(_, _, _) ← scan_number s; let '(v, rest, _) := strtol s in Some (int32 v, rest).
(** [sscanf(s, "%d:%d", &hour, &min)] with both numbers -1 before it. *)
Definition scan_clock (s : cstr) : Z * Z :=
  match scan_d s with
  | None => (-1, -1)
  | Some (hour, rest) =>
      match rest with
      | 58 :: rest => (hour, match scan_d rest with Some (min, _) => min | None => -1 end)
      | _ => (hour, -1)
      end
  end.
(** ["%02d:%02d"] *)
Definition clock_text (hour min : Z) : cstr := zeros 2 (digits 20 hour) ++ [58] ++ zeros 2 (digits 20 min).

Definition w_validate_time (time_str : option cstr) : option cstr :=
  time_str ← time_str;
  let s := rm_white time_str in
  _ ← strchr s 58;
  let '(hour, min) := scan_clock s in
  if (hour <? 0) || (24 <=? hour) || ((min <? 0) || (60 <=? min)) then None else Some (take 11 (clock_text hour min)).

Definition w_validate_interval (interval : Z) (force : Z) : Z :=
  if force =? 0 then Z.rem interval 86400 else if force =? 1 then Z.rem interval 604800 else -1.

(** ** The configuration *)

(** [strtoul(s, &end, 0)]: the value and what is at [end]. *)
Definition digit_value (c : Z) : Z :=
  if isdigit c then c - 48 else if (97 <=? c) && (c <=? 102) then c - 87 else if (65 <=? c) && (c <=? 70) then c - 55 else 16.
Definition strtoul_in (base : Z) (neg : bool) (s t : cstr) : Z * cstr :=
  let '(ds, rest) := span (λ c, digit_value c <? base) t in
  match ds with
  | [] => (0, s)
  | _ =>
      let v := foldl (λ n c, n * base + digit_value c) 0 ds in
      if 18446744073709551615 <? v then (18446744073709551615, rest) else (if neg then wrap64 (- v) else v, rest)
  end.
Definition strtoul (s : cstr) : Z * cstr :=
  let '(neg, t) := scan_sign (span isspace s).2 in
  match t with
  | 48 :: x :: h :: t' =>
      if ((x =? 120) || (x =? 88)) && (digit_value h <? 16) then strtoul_in 16 neg s (h :: t') else strtoul_in 8 neg s t
  | 48 :: _ => strtoul_in 8 neg s t
  | _ => strtoul_in 10 neg s t
  end.

(** A unit after the number: the factor, and whether it is months. *)
Definition interval_unit (c : option Z) : option (Z * bool) :=
  match c with
  | None | Some 115 => Some (1, false)
  | Some 77 => Some (1, true)
  | Some 119 => Some (604800, false)
  | Some 100 => Some (86400, false)
  | Some 104 => Some (3600, false)
  | Some 109 => Some (60, false)
  | _ => None
  end.

Definition set_day (c : sched_scan_config) (d : Z) : sched_scan_config :=
  Sched d (scan_wday c) (scan_time c) (interval c) (month_interval c) (next_scheduled_scan_time c) (time_start c) (daylight c).
Definition set_wday (c : sched_scan_config) (d : Z) : sched_scan_config :=
  Sched (scan_day c) d (scan_time c) (interval c) (month_interval c) (next_scheduled_scan_time c) (time_start c) (daylight c).
Definition set_time (c : sched_scan_config) (t : option cstr) : sched_scan_config :=
  Sched (scan_day c) (scan_wday c) t (interval c) (month_interval c) (next_scheduled_scan_time c) (time_start c) (daylight c).
Definition set_interval (c : sched_scan_config) (i : Z) (m : bool) : sched_scan_config :=
  Sched (scan_day c) (scan_wday c) (scan_time c) i m (next_scheduled_scan_time c) (time_start c) (daylight c).

(** 00:00 *)
Definition MIDNIGHT : cstr := [48; 48; 58; 48; 48].
Definition default_time (c : sched_scan_config) : sched_scan_config := match scan_time c with None => set_time c (Some MIDNIGHT) | Some _ => c end.

Definition _sched_scan_validate_parameters (c : sched_scan_config) : Z * sched_scan_config :=
  if negb (scan_day c =? 0) && (0 <=? scan_wday c) then (-1, c)
  else if negb (scan_day c =? 0) then (0, default_time (if negb (month_interval c) then set_interval c 1 true else c))
  else if 0 <=? scan_wday c then
    let c := if negb (w_validate_interval (int32 (interval c)) 1 =? 0) then set_interval c 604800 (month_interval c) else c in
    (0, default_time (if interval c =? 0 then set_interval c 604800 (month_interval c) else c))
  else match scan_time c with
  | Some _ => (0, if negb (w_validate_interval (int32 (interval c)) 0 =? 0) then set_interval c WM_DEF_INTERVAL (month_interval c) else c)
  | None => (0, if month_interval c then set_time (set_day c 1) (Some MIDNIGHT) else c)
  end.

(** One node; [inr] is the configuration to go on with, [inl] ends with -1. *)
Definition read_node (c : sched_scan_config) (n : xml_node) : option (sched_scan_config + sched_scan_config) :=
  if strcmp (xn_element n) XML_SCAN_DAY =? 0 then
    if negb (OS_StrIsNum (xn_content n)) then Some (inl c)
    else
      content ← xn_content n;
      let c := set_day c (atoi content) in
      Some (if (scan_day c <? 1) || (31 <? scan_day c) then inl c else inr c)
  else if strcmp (xn_element n) XML_WEEK_DAY =? 0 then
    let c := set_wday c (w_validate_wday (xn_content n)) in
    Some (if (scan_wday c <? 0) || (6 <? scan_wday c) then inl c else inr c)
  else if strcmp (xn_element n) XML_TIME =? 0 then
    let c := set_time c (w_validate_time (xn_content n)) in
    Some (match scan_time c with None => inl c | Some _ => inr c end)
  else if strcmp (xn_element n) XML_INTERVAL =? 0 then
    content ← xn_content n;
    let '(v, endptr) := strtoul content in
    let c := set_interval c (wrap32 v) (month_interval c) in
    if (interval c <=? 0) || (UINT_MAX <=? interval c) then Some (inl c)
    else
      match interval_unit (head endptr) with
      | None => Some (inl c)
      | Some (k, m) => Some (inr (set_interval c (wrap32 (interval c * k)) (month_interval c || m)))
      end
  else Some (inr c).
Fixpoint read_nodes (c : sched_scan_config) (nodes : list xml_node) : option (sched_scan_config + sched_scan_config) :=
  match nodes with
  | [] => Some (inr c)
  | n :: nodes => r ← read_node c n; match r with inl c => Some (inl c) | inr c => read_nodes c nodes end
  end.
Definition sched_scan_read (c : sched_scan_config) (nodes : list xml_node) : option (Z * sched_scan_config) :=
  r ← read_nodes c nodes;
  Some (match r with inl c => (-1, c) | inr c => _sched_scan_validate_parameters c end).

(** ** The next scan *)

Section next.
(** The time zone. *)
Context (gmtoff : Z).

(** [(unsigned long int) diff] of a [double]; a negative number has no value. *)
Definition to_ulong (diff : Z) : option Z := if diff <? 0 then None else Some diff.

(** The hour and the minute of a text: the two pieces that [OS_StrBreak] gives. *)
Definition clock_parts (hour : cstr) : option (Z * Z) :=
  parts ← OS_StrBreak 58 (Some hour) 2;
  parts ← parts;
  h ← parts !! 0%nat; m ← parts !! 1%nat; Some (atoi h, atoi m).

Definition at_clock (d : tm) (h m : Z) : tm := Tm 0 m h (tm_mday d) (tm_mon d) (tm_year d) (tm_wday d) (tm_isdst d).
Definition add_days (d : tm) (n : Z) : tm := Tm (tm_sec d) (tm_min d) (tm_hour d) (tm_mday d + n) (tm_mon d) (tm_year d) (tm_wday d) (tm_isdst d).
Definition on_date (d : tm) (mday mon year : Z) : tm := Tm (tm_sec d) (tm_min d) (tm_hour d) mday mon year (tm_wday d) (tm_isdst d).

Definition get_time_to_hour (now : Z) (hour : cstr) (num_days : Z) (first_time : bool) : option Z :=
  '(h, m) ← clock_parts hour;
  let tm_result := localtime gmtoff now in
  let '(target_time, t_target) := mktime gmtoff (at_clock tm_result h m) in
  let t_target := if target_time - now <=? 0 then add_days t_target (if first_time then 1 else num_days) else t_target in
  let '(target_time, _) := mktime gmtoff t_target in
  to_ulong (target_time - now).

Definition get_time_to_day (now : Z) (wday : Z) (hour : cstr) (num_weeks : Z) (first_time : bool) : option Z :=
  '(h, m) ← clock_parts hour;
  let tm_result := localtime gmtoff now in
  let '(target_time, t_target) := mktime gmtoff (at_clock tm_result h m) in
  let t_target :=
    if wday =? tm_wday tm_result then
      if target_time - now <=? 0 then add_days t_target (if first_time then 7 else num_weeks * 7) else t_target
    else if tm_wday tm_result <? wday then add_days t_target (wday - tm_wday tm_result)
    else add_days t_target (7 - (tm_wday tm_result - wday)) in
  let '(target_time, _) := mktime gmtoff t_target in
  to_ulong (target_time - now).

(** The assertion on [num_of_months] ends the process. *)
Definition get_time_to_month_day (now : Z) (month_day : Z) (hour : cstr) (num_of_months : Z) : option Z :=
  if num_of_months <=? 0 then None
  else
    let tm_result := localtime gmtoff now in
    '(h, m) ← clock_parts hour;
    let t_target := at_clock tm_result h m in
    let '(target_time, t_target) := mktime gmtoff (on_date t_target month_day (tm_mon t_target) (tm_year t_target)) in
    let num := if (tm_mday tm_result <? month_day) || ((tm_mday tm_result =? month_day) && (0 <? target_time - now)) then 0 else num_of_months in
    let '(year, num) := if 12 <=? num then (tm_year t_target + num / 12, num mod 12) else (tm_year t_target, num) in
    let '(mon, year) := if 11 <? tm_mon t_target + num then ((tm_mon t_target + num) mod 12, year + 1) else (tm_mon t_target + num, year) in
    let '(target_time, _) := mktime gmtoff (on_date t_target (tm_mday t_target) mon year) in
    to_ulong (target_time - now).

(** [merror_exit] ends the process. *)
Definition _get_next_time (now : Z) (c : sched_scan_config) (run_on_start : bool) : option Z :=
  let first := next_scheduled_scan_time c =? 0 in
  if run_on_start && first then Some 0
  else if negb (scan_day c =? 0) then t ← scan_time c; get_time_to_month_day now (scan_day c) t (int32 (interval c))
  else if 0 <=? scan_wday c then t ← scan_time c; get_time_to_day now (scan_wday c) t (interval c / 604800) first
  else
    match scan_time c with
    | Some t => get_time_to_hour now t (interval c / 86400) first
    | None =>
        if negb (interval c =? 0) then
          let last_run_time := now - next_scheduled_scan_time c in
          if last_run_time <=? interval c then Some (interval c - last_run_time)
          else if first then Some (if run_on_start then 0 else interval c)
          else Some 0
        else None
    end.

(** The configuration and the time after the change of daylight saving time. *)
Definition check_daylight (c : sched_scan_config) (next_scan_time : Z) (test : bool) : Z * sched_scan_config :=
  let future_daylight := if test then 1 else tm_isdst (localtime gmtoff next_scan_time) in
  (if negb (daylight c =? -1) then next_scan_time + 3600 * (daylight c - future_daylight) else next_scan_time,
   Sched (scan_day c) (scan_wday c) (scan_time c) (interval c) (month_interval c) (next_scheduled_scan_time c) (time_start c) future_daylight).

Definition sched_scan_get_time_until_next_scan (now : Z) (c : sched_scan_config) (run_on_start : bool) : option (Z * sched_scan_config) :=
  next_time ← _get_next_time now c run_on_start;
  let '(next, c) := check_daylight c (now + next_time) false in
  Some (next_time, Sched (scan_day c) (scan_wday c) (scan_time c) (interval c) (month_interval c) next (time_start c) (daylight c)).
End next.
