(* ===== verification/ScheduleSpec.v ===== *)
(** What the schedule of a module promises: an accepted configuration is
    consistent, and the next scan is in the future and on the schedule. *)

From S2P Require Import Prelude CLib OsMatch OsMatchSpec OsStr OsStrSpec Xml Calendar Schedule.

(** * Times of day *)

Definition clock (h m : Z) : Prop := 0 <= h < 24 ∧ 0 <= m < 60.

Lemma two_digits n : 0 <= n < 100 → zeros 2 (digits 20 n) = [48 + n / 10; 48 + n mod 10].
Proof.
  intros Hn. change (digits 20 n) with ((if n <? 10 then [] else digits 19 (n / 10)) ++ [48 + n mod 10]). destruct (Z.ltb_spec n 10) as [H|H].
  - cbn. repeat f_equal; zlia.
  - change (digits 19 (n / 10)) with ((if n / 10 <? 10 then [] else digits 18 (n / 10 / 10)) ++ [48 + (n / 10) mod 10]). rewrite (proj2 (Z.ltb_lt _ _)) by zlia.
    cbn. repeat f_equal; zlia.
Qed.
Lemma atoi_two a b : 0 <= a <= 9 → 0 <= b <= 9 → atoi [48 + a; 48 + b] = 10 * a + b.
Proof.
  intros Ha Hb. assert (∀ x, 0 <= x <= 9 → isdigit (48 + x) = true) as Hdig by (intros x Hx; unfold isdigit; rewrite !(proj2 (Z.leb_le _ _)) by lia; done).
  unfold atoi, strtol, scan_number. cbn [span]. assert (isspace (48 + a) = false) as ->.
  { unfold isspace. rewrite (proj2 (Z.eqb_neq _ _)), (proj2 (Z.leb_gt _ 13)) by lia. by rewrite andb_false_r. }
  cbn [snd scan_sign]. rewrite !(proj2 (Z.eqb_neq (48 + a) _)) by lia. cbn [span]. rewrite !Hdig by done. unfold undigits. cbn [foldl].
  unfold LONG_MAX. rewrite (proj2 (Z.ltb_ge _ _)), (proj2 (Z.ltb_ge _ (-9223372036854775807 - 1))) by lia. cbn [fst]. unfold int32. rewrite Z.mod_small; lia.
Qed.

Lemma clock_parts_text h m : clock h m → clock_parts (clock_text h m) = Some (h, m).
Proof.
  intros [Hh Hm]. unfold clock_parts, clock_text. rewrite !two_digits by lia. cbn [app]. assert (∀ n, 0 <= n < 100 → 0 <= n / 10 <= 9 ∧ 0 <= n mod 10 <= 9) as Hd by (intros; zlia).
  destruct (Hd h ltac:(lia)), (Hd m ltac:(lia)).
  rewrite break_spec; [|done|done|repeat (constructor; [unfold char_ok; lia|]); constructor|unfold strlen; cbn; lia|lia]. cbn [mbind option_bind]. change (Z.to_nat 2 - 1)%nat with 1%nat.
  pose proof (break_word 58 0 [48 + h / 10; 48 + h mod 10] [] [48 + m / 10; 48 + m mod 10] ltac:(repeat (constructor; [lia|]); constructor) ltac:(cbn; intros [= E]; lia)) as E.
  cbn [app] in E. rewrite E.
  rewrite break_end by (repeat (constructor; [lia|]); constructor). cbn [app lookup list_lookup mbind option_bind]. rewrite !atoi_two by done.
  do 2 f_equal; zlia.
Qed.

Definition clock_time (t : cstr) : Prop := ∃ h m, clock h m ∧ t = clock_text h m.

Lemma validate_time_ok s t : w_validate_time s = Some t → clock_time t.
Proof.
  unfold w_validate_time. destruct s as [s|]; [|done]. cbn [mbind option_bind]. destruct (strchr _ _); [|done]. cbn [mbind option_bind]. destruct (scan_clock _) as [h m].
  destruct (_ || _) eqn:E; [done|]. rewrite !orb_false_iff, !Z.ltb_ge, !Z.leb_gt in E. intros [= <-]. exists h, m. split; [unfold clock; lia|].
  apply take_ge. unfold clock_text. rewrite !two_digits by lia. cbn. lia.
Qed.
Lemma midnight_ok : clock_time MIDNIGHT.
Proof. exists 0, 0. split; [unfold clock; lia|done]. Qed.

(** * The configuration *)

Record valid_config (c : sched_scan_config) : Prop := {
  vc_day : 0 <= scan_day c <= 31; vc_wday : -1 <= scan_wday c <= 6; vc_interval : 0 < interval c < 4294967296;
  vc_time : ∀ t, scan_time c = Some t → clock_time t; vc_daylight : daylight c = -1 ∨ daylight c = 0;
  vc_by_day : scan_day c ≠ 0 → scan_wday c = -1 ∧ month_interval c = true ∧ scan_time c ≠ None;
  vc_by_wday : 0 <= scan_wday c → scan_time c ≠ None ∧ 604800 <= interval c;
  vc_by_time : scan_day c = 0 → scan_wday c = -1 → scan_time c ≠ None → 86400 <= interval c }.

(** While the nodes are read. *)
Definition reading (c : sched_scan_config) : Prop :=
  0 <= scan_day c <= 31 ∧ -1 <= scan_wday c <= 6 ∧ 0 <= interval c < 4294967296 ∧ (∀ t, scan_time c = Some t → clock_time t) ∧ daylight c = -1.

Lemma read_node_ok c n : reading c → xn_content n ≠ None → ∃ r, read_node c n = Some r ∧ match r with inl _ => True | inr c' => reading c' end.
Proof.
  intros (H1 & H2 & H3 & H4 & H5) Hn. unfold read_node. destruct (xn_content n) as [ct|]; [|done]. clear Hn. cbn [mbind option_bind].
  destruct (strcmp _ XML_SCAN_DAY =? 0).
  { destruct (negb _); [by eexists|]. eexists. split; [done|]. destruct (_ || _) eqn:E; [done|]. rewrite orb_false_iff, !Z.ltb_ge in E. cbn in E. repeat split; cbn; lia || done. }
  destruct (strcmp _ XML_WEEK_DAY =? 0).
  { eexists. split; [done|]. destruct (_ || _) eqn:E; [done|]. rewrite orb_false_iff, !Z.ltb_ge in E. cbn in E. repeat split; cbn; lia || done. }
  destruct (strcmp _ XML_TIME =? 0).
  { eexists. split; [done|]. cbn [scan_time set_time]. destruct (w_validate_time (Some ct)) as [t|] eqn:E; [|done].
    repeat split; cbn; try lia; try done. intros t' [= <-]. by eapply validate_time_ok. }
  destruct (strcmp _ XML_INTERVAL =? 0); [|exists (inr c); split; [done|]; repeat split; done || lia].
  destruct (strtoul ct) as [v e]. destruct (_ || _); [by eexists|]. destruct (interval_unit _) as [[k m]|]; [|by eexists]. eexists. split; [done|].
  repeat split; cbn; try lia; try done; unfold wrap32; apply Z.mod_pos_bound; lia.
Qed.
Lemma read_nodes_ok nodes : ∀ c, reading c → Forall (λ n, xn_content n ≠ None) nodes → ∃ r, read_nodes c nodes = Some r ∧ match r with inl _ => True | inr c' => reading c' end.
Proof.
  induction nodes as [|n nodes IH]; intros c Hc Hn; cbn [read_nodes]; [by eexists|]. apply Forall_cons in Hn as [Hn Hns].
  destruct (read_node_ok c n Hc Hn) as ([c'|c'] & -> & Hr); cbn [mbind option_bind]; [by eexists|]. by apply IH.
Qed.

(** A multiple, as [int], is not below its divisor. *)
Lemma multiple_ge i k : 0 <= i < 4294967296 → (k = 604800 ∨ k = 86400) → Z.rem (int32 i) k = 0 → i ≠ 0 → k <= i.
Proof.
  intros Hi Hk Hr Hn. unfold int32 in Hr. destruct (Z_lt_le_dec i 2147483648).
  - rewrite Z.mod_small in Hr by lia. destruct Hk as [->| ->]; zlia.
  - destruct Hk as [->| ->]; lia.
Qed.

Ltac valid_fields := split; cbn; intros; simplify_eq; repeat split; try done; first [lia | by auto].

Lemma validate_parameters_ok c r c' :
  reading c → _sched_scan_validate_parameters c = (r, c') → r = -1 ∨ r = 0 ∧ (valid_config c' ∨ interval c' = 0).
Proof.
  intros (H1 & H2 & H3 & H4 & H5). unfold _sched_scan_validate_parameters, w_validate_interval, default_time, WM_DEF_INTERVAL.
  pose proof midnight_ok as Hmid. pose proof (multiple_ge (interval c)) as Hmul.
  destruct c as [day wday time int mi nx ts dl]. cbn [scan_day scan_wday scan_time interval month_interval daylight set_interval set_time set_day Z.eqb] in *.
  destruct (Z.eqb_spec day 0) as [->|Hd], (Z.leb_spec 0 wday) as [Hw|Hw]; cbn [negb andb].
  - cbn [Z.eqb Pos.eqb]. destruct (Z.eqb_spec (Z.rem (int32 int) 604800) 0); cbn [negb interval set_interval]; [destruct (Z.eqb_spec int 0) as [->|]|]; cbn [Z.eqb];
      destruct time as [t|]; cbn; intros [= <- <-]; right; (split; [done|left]); valid_fields.
  - destruct (Z.eqb_spec (Z.rem (int32 int) 86400) 0), (Z.eqb_spec int 0) as [->|], time as [t|], mi; cbn; intros [= <- <-]; right; (split; [done|first [by right|left]]); valid_fields.
  - intros [= <- <-]. by left.
  - destruct (Z.eqb_spec int 0) as [->|], time as [t|], mi; cbn; intros [= <- <-]; right; (split; [done|first [by right|left]]); valid_fields.
Qed.

(** * The next scan *)

Section next.
Context (off : Z).
Notation localtime := (localtime off).
Notation time_of := (time_of off).

(** The day of a time, since 1970, and the second of the day. *)
Definition day_of (t : Z) : Z := (t + off) / 86400.
Definition at_time (t h m : Z) : Prop := tm_hour (localtime t) = h ∧ tm_min (localtime t) = m ∧ tm_sec (localtime t) = 0.

Lemma localtime_date t : (tm_year (localtime t), tm_mon (localtime t), tm_mday (localtime t)) = date_of (day_of t).
Proof. unfold Calendar.localtime, day_of. cbv zeta. by destruct (date_of _) as [[y m] d]. Qed.
Lemma localtime_days t : days_of (tm_year (localtime t)) (tm_mon (localtime t)) (tm_mday (localtime t)) = day_of t ∧ 0 <= tm_mon (localtime t) < 12 ∧ 1 <= tm_mday (localtime t) <= 31.
Proof. pose proof (days_of_date (day_of t)) as H. rewrite <-localtime_date in H. exact H. Qed.
Lemma localtime_wday t : tm_wday (localtime t) = (day_of t + 4) mod 7.
Proof. unfold Calendar.localtime, day_of. cbv zeta. by destruct (date_of _) as [[y m] d]. Qed.

(** A time of a day, and what [localtime] says of it. *)
Definition moment (day h m : Z) : Z := 86400 * day + 3600 * h + 60 * m - off.
Lemma moment_day day h m : clock h m → day_of (moment day h m) = day.
Proof. intros [Hh Hm]. unfold day_of, moment. zlia. Qed.
Lemma moment_at day h m : clock h m → at_time (moment day h m) h m.
Proof.
  intros [Hh Hm]. unfold at_time, Calendar.localtime. cbv zeta. destruct (date_of _) as [[y mo] d]. cbn [tm_hour tm_min tm_sec].
  replace (moment day h m + off) with (86400 * day + (3600 * h + 60 * m)) by (unfold moment; lia).
  assert ((86400 * day + (3600 * h + 60 * m)) mod 86400 = 3600 * h + 60 * m) as -> by zlia. split_and!; zlia.
Qed.
Lemma localtime_dst t : tm_isdst (localtime t) = 0.
Proof. unfold Calendar.localtime. cbv zeta. by destruct (date_of _) as [[y m] d]. Qed.
#[local] Opaque Calendar.localtime.
Lemma today t h m : clock h m → moment (day_of t) h m - t < 86400 ∧ - 86400 < moment (day_of t) h m - t.
Proof. intros [Hh Hm]. unfold moment, day_of. zlia. Qed.

Lemma time_at_clock t h m : time_of (at_clock (localtime t) h m) = moment (day_of t) h m.
Proof. unfold Calendar.time_of, at_clock, moment. cbn [tm_sec tm_min tm_hour tm_mday tm_mon tm_year]. destruct (localtime_days t) as [-> _]. lia. Qed.
Lemma days_add y m d n : days_of y m (d + n) = days_of y m d + n.
Proof. unfold days_of. lia. Qed.
Lemma time_of_add d n : time_of (add_days d n) = time_of d + 86400 * n.
Proof. unfold Calendar.time_of, add_days. cbn [tm_sec tm_min tm_hour tm_mday tm_mon tm_year]. rewrite days_add. lia. Qed.
Lemma time_add_days t n : time_of (add_days (localtime t) n) = t + 86400 * n.
Proof. by rewrite time_of_add, time_of_localtime. Qed.
Lemma moment_add day h m n : moment day h m + 86400 * n = moment (day + n) h m.
Proof. unfold moment. lia. Qed.

(** The scan is in the future, at the time of day, on a day that is [n] days
    from now. *)
Lemma to_ulong_moment now h m n :
  clock h m → (0 < n ∨ n = 0 ∧ 0 < moment (day_of now) h m - now) →
  ∃ d, to_ulong (moment (day_of now + n) h m - now) = Some d ∧ 0 < d <= 86400 * (n + 1) ∧ now + d = moment (day_of now + n) h m ∧ (moment (day_of now) h m <= now → d <= 86400 * n).
Proof.
  intros Hc Hn. pose proof (today now h m Hc) as Ht. rewrite <-moment_add. unfold to_ulong. rewrite (proj2 (Z.ltb_ge _ _)) by lia. eexists. split; [done|]. lia.
Qed.

Lemma get_time_to_hour_ok now h m n first :
  clock h m → 1 <= n →
  ∃ d k, get_time_to_hour off now (clock_text h m) n first = Some d ∧ 0 < d <= 86400 * n ∧ now + d = moment (day_of now + k) h m ∧
    k = if moment (day_of now) h m <=? now then (if first then 1 else n) else 0.
Proof.
  intros Hc Hn. unfold get_time_to_hour. rewrite clock_parts_text by done. cbn [mbind option_bind]. unfold mktime. cbv zeta. rewrite time_at_clock.
  pose proof (today now h m Hc) as Ht. set (k := if moment (day_of now) h m <=? now then (if first then 1 else n) else 0).
  assert (time_of (if moment (day_of now) h m - now <=? 0 then add_days (localtime (moment (day_of now) h m)) (if first then 1 else n)
    else localtime (moment (day_of now) h m)) = moment (day_of now + k) h m) as ->.
  { unfold k. destruct (Z.leb_spec (moment (day_of now) h m - now) 0), (Z.leb_spec (moment (day_of now) h m) now); try lia.
    - by rewrite time_add_days, moment_add.
    - by rewrite time_of_localtime, Z.add_0_r. }
  destruct (to_ulong_moment now h m k Hc) as (d & -> & H1 & H2 & H3).
  { unfold k. destruct (Z.leb_spec (moment (day_of now) h m) now); [left; destruct first; lia|right; lia]. }
  exists d, k. split; [done|]. split; [|done]. unfold k in *. destruct (Z.leb_spec (moment (day_of now) h m) now) as [Hl|Hl]; [specialize (H3 Hl); destruct first; lia|lia].
Qed.

Lemma get_time_to_day_ok now wday h m n first :
  clock h m → 0 <= wday <= 6 → 1 <= n →
  ∃ d k, get_time_to_day off now wday (clock_text h m) n first = Some d ∧ 0 < d <= 604800 * n ∧ now + d = moment (day_of now + k) h m ∧
    (day_of now + k + 4) mod 7 = wday.
Proof.
  intros Hc Hw Hn. unfold get_time_to_day. rewrite clock_parts_text by done. cbn [mbind option_bind]. unfold mktime. cbv zeta. rewrite time_at_clock, localtime_wday.
  pose proof (today now h m Hc) as Ht. set (w := (day_of now + 4) mod 7). assert (0 <= w <= 6) as Hw' by (unfold w; zlia). set (T := moment (day_of now) h m) in *.
  assert (∃ k, time_of (if wday =? w then if T - now <=? 0 then add_days (localtime T) (if first then 7 else n * 7) else localtime T
      else if w <? wday then add_days (localtime T) (wday - w) else add_days (localtime T) (7 - (w - wday))) = T + 86400 * k ∧
    (0 < k ∨ k = 0 ∧ 0 < T - now) ∧ (k <= 6 ∨ k <= 7 * n ∧ T <= now) ∧ (w + k) mod 7 = wday) as (k & -> & Hk & Hk' & Hkw).
  { destruct (Z.eqb_spec wday w) as [->|Hne]; [destruct (Z.leb_spec (T - now) 0)|destruct (Z.ltb_spec w wday)].
    - exists (if first then 7 else n * 7). rewrite time_add_days. split; [done|]. destruct first; (split; [lia|]; split; [lia|zlia]).
    - exists 0. rewrite time_of_localtime. split; [lia|]. split; [lia|]. split; [lia|zlia].
    - exists (wday - w). rewrite time_add_days. split; [done|]. split; [lia|]. split; [lia|zlia].
    - exists (7 - (w - wday)). rewrite time_add_days. split; [done|]. split; [lia|]. split; [lia|zlia]. }
  unfold T in *. rewrite moment_add. destruct (to_ulong_moment now h m k Hc Hk) as (d & -> & H1 & H2 & H3). exists d, k. split; [done|]. split; [|split; [done|unfold w in Hkw; zlia]].
  destruct Hk' as [Hk'|[Hk' Hl]]; [lia|]. specialize (H3 Hl). lia.
Qed.

(** The fields of a time of a date up to the 28th. *)
Lemma localtime_moment y mo md h m :
  clock h m → 0 <= mo < 12 → 1 <= md <= 28 → let d := localtime (moment (days_of y mo md) h m) in
  tm_year d = y ∧ tm_mon d = mo ∧ tm_mday d = md ∧ tm_hour d = h ∧ tm_min d = m ∧ tm_sec d = 0.
Proof.
  intros Hc Hmo Hmd d. pose proof (localtime_date (moment (days_of y mo md) h m)) as H. rewrite (moment_day _ _ _ Hc), (date_of_days _ _ _ Hmo Hmd) in H.
  apply pair_eq in H as [[H1 H2]%pair_eq H3]. destruct (moment_at (days_of y mo md) h m Hc) as (? & ? & ?). split_and!; assumption.
Qed.
Lemma time_on_date d h m md mo y : tm_hour d = h → tm_min d = m → tm_sec d = 0 → time_of (on_date d md mo y) = moment (days_of y mo md) h m.
Proof. intros <- <- Hs. unfold Calendar.time_of, on_date, moment. cbn [tm_sec tm_min tm_hour tm_mday tm_mon tm_year]. rewrite Hs. lia. Qed.

(** The month and year that are [num] months later. *)
Lemma months_later (y mo num : Z) : 0 <= mo < 12 → 0 <= num →
  let '(year, k) := if 12 <=? num then (y + num / 12, num mod 12) else (y, num) in
  let '(mon, year) := if 11 <? mo + k then ((mo + k) mod 12, year + 1) else (mo + k, year) in
  0 <= mon < 12 ∧ 12 * year + mon = 12 * y + mo + num.
Proof. intros Hmo Hn. destruct (Z.leb_spec 12 num); [destruct (Z.ltb_spec 11 (mo + num mod 12))|destruct (Z.ltb_spec 11 (mo + num))]; zlia. Qed.

Lemma get_time_to_month_day_ok now md h m n :
  clock h m → 1 <= md <= 28 → 1 <= n →
  ∃ d day, get_time_to_month_day off now md (clock_text h m) n = Some d ∧ 0 < d ∧ now + d = moment day h m ∧ tm_mday (localtime (now + d)) = md.
Proof.
  intros Hc Hmd Hn. unfold get_time_to_month_day. rewrite (proj2 (Z.leb_gt _ _)), clock_parts_text by (done || lia). cbn [mbind option_bind]. unfold mktime. cbv zeta.
  destruct (localtime_days now) as (Hday & Hmo & Hd0). pose proof (date_of_next (day_of now)) as Hnext. rewrite <-localtime_date in Hnext. cbv beta iota in Hnext.
  set (t0 := localtime now) in *. set (y := tm_year t0) in *. set (mo := tm_mon t0) in *. set (d0 := tm_mday t0) in *.
  rewrite (time_on_date (at_clock t0 h m) h m) by done. change (tm_mon (at_clock t0 h m)) with mo. change (tm_year (at_clock t0 h m)) with y.
  destruct (localtime_moment y mo md h m Hc Hmo Hmd) as (E1 & E2 & E3 & E4 & E5 & E6). set (T := moment (days_of y mo md) h m) in *. rewrite E1, E2, E3.
  set (num := if (d0 <? md) || ((d0 =? md) && (0 <? T - now)) then 0 else n). pose proof (months_later y mo num Hmo ltac:(unfold num; destruct (_ || _); lia)) as Hml.
  destruct (if 12 <=? num then (y + num / 12, num mod 12) else (y, num)) as [year1 k]. destruct (if 11 <? mo + k then ((mo + k) mod 12, year1 + 1) else (mo + k, year1)) as [mon year].
  destruct Hml as [Hmon Heq]. rewrite (time_on_date (localtime T) h m) by done.
  assert (0 < days_of year mon md - day_of now ∨ days_of year mon md - day_of now = 0 ∧ 0 < moment (day_of now) h m - now) as Hk.
  { rewrite !days_of_month in *. replace (12 * (year + 1900) + mon - 2) with (12 * (y + 1900) + mo - 2 + num) by lia. unfold num.
    destruct (Z.ltb_spec d0 md) as [Hl|Hl]; cbn [orb]; [rewrite Z.add_0_r; lia|]. destruct (Z.eqb_spec d0 md) as [He|He]; cbn [andb].
    - destruct (Z.ltb_spec 0 (T - now)) as [Ht|Ht]; [right; rewrite Z.add_0_r; unfold T in Ht; rewrite days_of_month, <-He, Hday in Ht; lia|].
      pose proof (month_first_mono (12 * (y + 1900) + (mo + 1) - 2) (n - 1) ltac:(lia)) as Hmm. replace (12 * (y + 1900) + mo - 2 + n) with (12 * (y + 1900) + (mo + 1) - 2 + (n - 1)) by lia. lia.
    - pose proof (month_first_mono (12 * (y + 1900) + (mo + 1) - 2) (n - 1) ltac:(lia)) as Hmm. replace (12 * (y + 1900) + mo - 2 + n) with (12 * (y + 1900) + (mo + 1) - 2 + (n - 1)) by lia. lia. }
  destruct (to_ulong_moment now h m _ Hc Hk) as (d & E & H1 & H2 & _). replace (day_of now + (days_of year mon md - day_of now)) with (days_of year mon md) in * by lia.
  exists d, (days_of year mon md). split; [exact E|]. split; [lia|]. split; [exact H2|]. rewrite H2. by apply localtime_moment.
Qed.

(** A time is on the schedule of a configuration. *)
Definition on_schedule (c : sched_scan_config) (t : Z) : Prop :=
  ∃ h m, scan_time c = Some (clock_text h m) ∧ clock h m ∧ at_time t h m ∧
    (scan_day c ≠ 0 → tm_mday (localtime t) = scan_day c) ∧ (0 <= scan_wday c → tm_wday (localtime t) = scan_wday c).

(** The wait of a schedule without a time of day. *)
Definition interval_wait (c : sched_scan_config) (now : Z) : Z :=
  let last := now - next_scheduled_scan_time c in
  if last <=? interval c then interval c - last else if next_scheduled_scan_time c =? 0 then interval c else 0.

Definition wait_ok (now : Z) (c : sched_scan_config) (d : Z) : Prop :=
  match scan_time c with
  | None => d = interval_wait c now
  | Some _ =>
      0 < d ∧ on_schedule c (now + d) ∧ (0 <= scan_wday c → d <= interval c) ∧ (scan_day c = 0 → scan_wday c = -1 → d <= interval c)
  end.

Lemma next_time_ok now c run_on_start :
  valid_config c → scan_day c <= 28 → (scan_day c ≠ 0 → interval c < 2147483648) →
  ∃ d, _get_next_time off now c run_on_start = Some d ∧ if run_on_start && (next_scheduled_scan_time c =? 0) then d = 0 else wait_ok now c d.
Proof.
  intros Hv H28 Hint. destruct Hv as [V1 V2 V3 V4 V5 V6 V7 V8]. unfold _get_next_time, wait_ok, on_schedule. destruct (run_on_start && _) eqn:Er; [by eexists|].
  destruct (Z.eqb_spec (scan_day c) 0) as [Hd|Hd]; cbn [negb].
  2: { destruct (V6 Hd) as (Hw & _ & Ht). destruct (scan_time c) as [t|]; [|done]. destruct (V4 t eq_refl) as (h & m & Hc & ->). cbn [mbind option_bind].
    assert (int32 (interval c) = interval c) as -> by (specialize (Hint Hd); unfold int32; rewrite Z.mod_small; lia).
    destruct (get_time_to_month_day_ok now (scan_day c) h m (interval c) Hc ltac:(lia) ltac:(lia)) as (d & day & -> & Hpos & Hmo & Hmd).
    exists d. split; [done|]. split; [done|]. split; [|split; lia]. exists h, m. split_and!; try done; try lia. rewrite Hmo. by apply moment_at. }
  destruct (Z.leb_spec 0 (scan_wday c)) as [Hw|Hw].
  { destruct (V7 Hw) as [Ht Hi]. destruct (scan_time c) as [t|]; [|done]. destruct (V4 t eq_refl) as (h & m & Hc & ->). cbn [mbind option_bind].
    destruct (get_time_to_day_ok now (scan_wday c) h m (interval c / 604800) (next_scheduled_scan_time c =? 0) Hc ltac:(lia) ltac:(zlia)) as (d & k & -> & Hpos & Hmo & Hwd).
    exists d. split; [done|]. split; [lia|]. split; [|split; zlia]. exists h, m. rewrite Hmo. split_and!; try done; [by apply moment_at|]. intros _. by rewrite localtime_wday, moment_day. }
  assert (scan_wday c = -1) as Hw1 by lia. destruct (scan_time c) as [t|].
  - specialize (V8 Hd Hw1 ltac:(done)). destruct (V4 t eq_refl) as (h & m & Hc & ->).
    destruct (get_time_to_hour_ok now h m (interval c / 86400) (next_scheduled_scan_time c =? 0) Hc ltac:(zlia)) as (d & k & -> & Hpos & Hmo & _).
    exists d. split; [done|]. split; [lia|]. split; [|split; zlia]. exists h, m. rewrite Hmo. split_and!; try done; [by apply moment_at|lia].
  - rewrite (proj2 (Z.eqb_neq _ _)) by lia. cbn [negb]. unfold interval_wait. destruct (_ <=? _); [by eexists|]. destruct (next_scheduled_scan_time c =? 0); [|by eexists].
    destruct run_on_start; [done|by eexists].
Qed.
End next.

(** * Claims *)

(** C23: Whatever the nodes say, reading them into a new configuration ends, with -1 or
    with a configuration that is consistent: a day of the month comes with a time
    and an interval in months, a day of the week with a time and an interval of a
    week at least, a time alone with an interval of a day at least; only an
    interval that overflowed to 0 can pass besides. *)
Theorem sched_scan_read_valid nodes :
  Forall (λ n, xn_content n ≠ None) nodes →
  ∃ r c, sched_scan_read sched_scan_init nodes = Some (r, c) ∧ (r = -1 ∨ r = 0 ∧ (valid_config c ∨ interval c = 0)).
Proof.
  intros Hn. assert (reading sched_scan_init) as Hr. { unfold reading. cbn. repeat split; lia || done. }
  destruct (read_nodes_ok nodes _ Hr Hn) as (r & E & H). unfold sched_scan_read. rewrite E. cbn [mbind option_bind]. destruct r as [c|c]; [eexists _, _; split; [done|by left]|].
  destruct (_sched_scan_validate_parameters c) as [r' c'] eqn:Ev. exists r', c'. split; [done|]. by eapply validate_parameters_ok.
Qed.


Module SchedDemo.
Definition node (el ct : cstr) : xml_node := XNode 0 el (Some ct) [] [].
(** <wday>Friday</wday><time>9:30</time><interval>2w</interval> *)
Definition fridays : list xml_node := [node XML_WEEK_DAY [70; 114; 105; 100; 97; 121]; node XML_TIME [57; 58; 51; 48]; node XML_INTERVAL [50; 119]].
Definition weekly : sched_scan_config := Sched 0 5 (Some [48; 57; 58; 51; 48]) 1209600 false 0 0 (-1).
(** 33554432w *)
Definition huge : xml_node := node XML_INTERVAL [51; 51; 53; 53; 52; 52; 51; 50; 119].
Definition config (nodes : list xml_node) : sched_scan_config := match sched_scan_read sched_scan_init nodes with Some (_, c) => c | None => sched_scan_init end.
Definition after (c : sched_scan_config) (t : Z) : sched_scan_config :=
  Sched (scan_day c) (scan_wday c) (scan_time c) (interval c) (month_interval c) t (time_start c) (daylight c).
End SchedDemo.
Import SchedDemo.

Lemma sched_scan_read_valid_witness :
  sched_scan_read sched_scan_init fridays = Some (0, weekly) ∧
  ∃ r c, sched_scan_read sched_scan_init fridays = Some (r, c) ∧ (r = -1 ∨ r = 0 ∧ (valid_config c ∨ interval c = 0)).
Proof.
  split; [vm_compute; reflexivity|]. apply (sched_scan_read_valid fridays). repeat (apply Forall_cons; split; [discriminate|]). constructor.
Defined.


(** Where it goes wrong: an interval that overflows to 0 is accepted, and the
    process ends when the next scan is asked for, or with a time of day a
    negative number of seconds is converted to an unsigned one; an interval of
    2^31 months or more fails an assertion; and a scan on the 31st is done on
    the first of the next month when the month is shorter. *)
Theorem sched_scan_wrong :
  interval (config [huge]) = 0 ∧ sched_scan_get_time_until_next_scan 0 1618488000 (config [huge]) false = None ∧
  sched_scan_get_time_until_next_scan 0 1618488000 (after (config [huge; node XML_TIME [57; 58; 51; 48]]) 1618400000) false = None ∧
  sched_scan_get_time_until_next_scan 0 1618488000 (config [node XML_INTERVAL [51; 48; 48; 48; 48; 48; 48; 48; 48; 48; 77]]) false = None ∧
  (∃ d c, sched_scan_get_time_until_next_scan 0 1618488000 (config [node XML_SCAN_DAY [51; 49]]) false = Some (d, c) ∧
    tm_mday (localtime 0 (1618488000 + d)) = 1 ∧ tm_mon (localtime 0 (1618488000 + d)) = 4).
Proof. split_and!; [vm_compute; reflexivity..|]. eexists _, _. split; [vm_compute; reflexivity|]. vm_compute. split; reflexivity. Qed.
